(* ===== verification/_CoqProject ===== *)
-Q . S2P
Prelude.v
Bytes.v
GoText.v
SyncBase.v
Rows.v
Sha2.v
Canon.v
Padding.v
Envelope.v
Merkle.v
HashChain.v
Head.v
DeviceLog.v
Retention.v
Membership.v
MembershipLog.v
VaultState.v
Merge.v
Throttle.v
Limiter.v
Version.v
ServerStore.v
Server.v
StoreLaws.v
ServerLaws.v
ServerAuth.v
ServerRun.v
ServerAuthLaws.v
ServerInv.v
ServerVaults.v
ServerDemo.v
AgentForward.v
AgentPolicy.v
AgentConfirm.v
WriteQueue.v
Hub.v
RecoveryKey.v
PluginPaths.v
PluginNet.v
PluginNetLaws.v
PathSafe.v
PathSafeLaws.v
Discovery.v
DiscoveryLaws.v
DiscoveryLeader.v
DiscoveryLeaderLaws.v
EmbedTunnel.v
EmbedWorld.v
EmbedLaws.v
EmbedInv.v
EmbedPlaces.v
EmbedSafety.v
KnownHosts.v
VaultData.v
SyncTrust.v
ClientStore.v
Client.v
TrustLaws.v
Weakening.v
TrustDemo.v
Scopes.v
Credentials.v
ClientLaws.v
ClientDemo.v
Interpret.v
InterpretDemo.v
Push.v
PushLaws.v
Settle.v
SettleDemo.v
