(* ===== verification/Prelude.v ===== *)
(** * A verification of xQuakShell's vault synchronisation, agent forwarding and plugin access

    xQuakShell is a terminal client whose vaults - hosts, keys, snippets - synchronise through a
    server that is not trusted: every record is sealed on the client, every commit is signed and
    hash-linked, and clients and server run one set of rules, [internal/domain/vaultsync]. The server
    ([internal/syncserver]) runs those rules again before it stores anything. The client also lends
    its SSH keys to remote hosts, through an agent that signs only what the user allows, and runs
    plugins, which reach files and the network only through the client. This library models the rules,
    all requests of the server with its tables, write queue and event hub, the sync engine of the client
    with its trust rules, local store and vault, the forwarded agent, the file and network access of
    plugins, the recovery key and the throttles on password attempts, as executable definitions, and
    proves the properties the design rests on.

    ** How the parts fit together

    A vault has two logs. The membership log ([Membership]) says who its members are, with which
    roles, and which epoch key is current; the commit chain ([Head], [VaultState]) says which records
    it holds. A commit names the membership position it was made under, and its head carries the
    Merkle root ([Merkle]) of the whole record set after it. An account has a device log
    ([DeviceLog]) that certifies and revokes the devices whose keys sign everything else. All three
    logs have the shape of [HashChain], a class whose one theorem - equal hashes, equal histories -
    each of them instantiates. What is signed or hashed is always a [Canon] encoding. Concurrent
    edits of a record's plaintext meet in [Merge]. The server keeps the logs in tables
    ([ServerStore]); its requests on vaults ([Server]) replay them, apply the rules, store and prune;
    its requests on accounts ([ServerAuth]) register people, check passwords through a key-exchange
    port and devices by their signature over a nonce, and hand out the tokens every other request
    shows. [ServerRun] puts all requests together as one machine, in which requests overlap wherever
    the code holds no lock, and the server's invariants are proved of every history of that machine.
    Writers take their turn through [WriteQueue]; commits and log entries are announced by [Hub].

    The client keeps the decrypted vault ([VaultData]), which [SyncTrust] maps onto records and back, and
    a store of what it has verified ([ClientStore]). Its engine ([Client]) pulls: it reads both logs,
    checks every commit with the rules the server runs, opens the records, asks [SyncTrust] what each
    change would do to the vault's trust anchors, merges it with local edits, and lands, holds or
    quarantines it. [Push] finds the local changes, seals them, cuts and signs commits, sends them
    through an outbox, and keeps the vault: retention, key rotation, re-encryption, restoring. The
    server is the class [SyncServer], the ciphers the classes [ClientCrypto] and [ClientSeal], the
    JSON codecs of the record types the class [RecordJSON]; the client's theorems are proved for every
    instance, so for a server that answers anything at all unless a theorem says otherwise.

    On the desktop side a forwarded agent's request passes [AgentForward], which reads what is to be
    signed and for which host, then [AgentPolicy], which knows the session's settings, the consent
    given to each key and the approval windows, and may put a question to the user through
    [AgentConfirm]. A plugin's manifest names the files and hosts it needs. A connection it asks for
    passes [PluginNet], which matches the patterns of the manifest and then checks every address the name
    resolves to; a file it asks for passes [PathSafe], which checks the path against the roots of the
    manifest before it is opened, and the open file after. A plugin may also draw a tree of what it discovers
    behind a connection: [Discovery] checks and keeps the trees, [DiscoveryLeader] decides which session of
    the connection carries the plugin's messages and authorizes the plugin for that one. And a plugin may show
    a page of its own for a session: [EmbedTunnel] gives the page a token and carries frames between the plugin
    and the sockets of the browser, [EmbedWorld] puts sessions, plugins, channels and browsers around it.

    ** Files

    - [Prelude]: Go outcomes ([result], [ST]), machine integers, the tactics [ok_inv], [bool_simpl]
      and [solve_uint], folds that stop at the first error.
    - [GoText]: what the program uses of Go's [utf8], [unicode], [strings], [base32] and [base64].
    - [Bytes], [SyncBase]: byte strings, arrays, big-endian integers, hexadecimal; identifiers,
      error values, suites and signatures ([ids.go], [errors.go], [suite.go], [signature.go]). The
      hash and signature functions of Go's standard library are the class [Crypto].
    - [Sha2]: SHA-256 and SHA-512, checked on published vectors ([sha2_crypto]); most witnesses run on
      [demo_crypto], a checksum cheap enough to evaluate whole histories.
    - [Canon]: [canon.go], [labels.go]. Proved: the encoding is injective, the purposes it serves
      are separated.
    - [Padding]: [padding.go]. Proved: [Unpad] inverts [Pad] and accepts nothing else of that
      length, the padding leaks only a size class and costs at most the Padme overhead.
    - [Envelope]: [envelope.go]. Proved: what a valid envelope is.
    - [Merkle]: [merkle.go]. Proved: the root does not depend on order and binds every leaf.
    - [HashChain]: the contract of a hash-linked log and its uniqueness theorem.
    - [Head]: [head.go]. Proved: a head hash fixes the whole chain; rollback and fork detection.
    - [DeviceLog]: [devicelog_entry.go], [devicelog_state.go]. Proved: a rejected entry changes
      nothing, the log is unique and monotone, a revocation is always answered by a succession.
    - [Retention]: [retention.go]. Proved: exactly which epoch keys may be destroyed, never the
      current one.
    - [Membership], [MembershipLog]: [membership_op.go], [membership_state.go],
      [membership_rules.go]. Proved: the membership invariant, no privilege escalation, uniqueness
      of the log, stripped logs replay alike, who holds the current key, no run-time panic.
    - [VaultState]: [vault_state.go]. Proved: which commits are accepted and what each does,
      uniqueness of the state behind a head, restoring, exactness of snapshots.
    - [Merge]: [merge.go], [merge_array.go]. Proved: merging always terminates with a result, what
      each field of it is, and that reported conflicts are genuine.
    - [Throttle], [Limiter]: [unlock_throttle.go], [recovery_throttle.go] and the server's
      [limiter.go]. Proved: the waiting schedule, no lock-out of a legitimate user, and that the
      sweep of idle entries forgives nothing.
    - [Version]: [version.go], [fingerprint.go]. Proved: protocol negotiation, what the hello
      context binds.
    - [ServerStore]: the tables and queries of [syncserver/store]; [StoreLaws]: what the queries
      return and the writes change.
    - [Server]: [commits.go], [vaults.go], [retention.go], [devicelog.go] and parts of
      [service.go], [devices.go], [accounts.go] of [syncserver/usecase]; [ServerLaws]: proved, the
      refinement of the domain's commits and membership by the stored rows, retries, and the effect
      of deleting an account.
    - [ServerAuth]: [accounts.go], [logins.go], [devices.go], [password.go], [admin.go] and the tokens
      of [service.go], with their queries; [ServerRun]: the machine of all requests.
    - [ServerAuthLaws]: proved, what a login, a device proof and a password change establish, that
      wrong passwords are charged, and that a revoked device, a spent nonce and a used invite stay
      so in every history.
    - [ServerInv]: proved of every reachable database, the device table is exactly what the signed
      device logs say, and tokens speak for existing accounts and their own devices.
    - [ServerVaults]: proved of every reachable database, each vault's log replays, its records
      restore to the root its head commits to, and its member list is the log's.
    - [ServerDemo]: one server's history from its first invite on, the witnesses of the last three.
    - [WriteQueue]: [store/writequeue.go]. Proved: one writer at a time, in the order they asked, and
      every waiting writer gets its turn once those before it are done. [Hub]: [events.go]. Proved: a
      subscriber never misses an event without its channel being closed; no send panics.
    - [AgentForward]: [domain/agentforward]. Proved: which login requests are accepted and that they
      are read exactly, approval windows refine a log of grants, a session stays with its host.
    - [AgentPolicy], [AgentConfirm]: [agent_session_policy.go], [agent_approval.go],
      [agent_forwarding_service.go], [agent_audit.go], [agent_confirm_prompts.go] of [usecase].
      Proved: nothing is signed without an authorised key and the user's approval, whatever runs in
      between; the answer a request gets is its own; a window outlives the session it was given to
      when the session reconnects.
    - [RecoveryKey]: [recovery_key.go]. Proved: different secrets have different keys, and what is
      displayed reads back.
    - [PluginPaths]: plugin ids and the paths of the files that travel with a plugin
      ([manifest_id.go], [sync_paths.go]). [KnownHosts]: lines of [known_hosts], hashed names, and the
      repository of host keys ([known_host_match.go], [knownhosts_repo.go]).
    - [PluginNet]: [network_pattern.go], [net_dial_policy.go] of [domain/plugin], [net_proxy.go],
      [net_proxy_match.go] and the relay backends of [infra/plugin/capability]: patterns, Go's [net.ParseIP],
      restricted addresses, dialling as two steps around the wait. [PluginNetLaws]: proved of every
      interleaving, connections and relay targets are in no restricted network the manifest does not
      spell out, the slots are never exceeded, and a pattern for UDP opens TCP.
    - [PathSafe]: [internal/pkg/pathsafe] and [fs_proxy.go], [paths.go] of [infra/plugin/capability], with
      [path/filepath] and a kernel that follows links on a tree of files. [PathSafeLaws]: proved, the
      check of paths is the prefix order on names and always ends, what a plugin reads and writes lies
      under its roots whatever links there are, it reads back what it wrote, and a write below a missing
      directory makes a file in its place.
    - [Discovery]: [internal/domain/discovery] and the tree, store, snapshot and checks of actions in
      [usecase/discovery_*.go]. [DiscoveryLaws]: proved of every reachable store, each tree is acyclic, within
      its limits and shown completely; what a snapshot changes; exactly which actions are relayed; and that a
      group published again as an instance keeps its children.
    - [DiscoveryLeader]: [discovery_leader.go], [plugin_session_authorizer.go], the observed sets and the path of a
      publish, as one machine of interleaving threads. [DiscoveryLeaderLaws]: proved, once nothing is left to be
      reconciled plugins are authorized for leading sessions only, and a publish that races a teardown leaves
      a tree behind.
    - [EmbedTunnel]: [embed_tunnel_service.go] with the calls of plugins, the refusals and the channel backend of
      [usecase], and the routing and failure budget of [infra/embed/broker_handler.go]; entries, sockets and
      subscriptions live under addresses, as the code shares them. [EmbedWorld]: the machine of sessions, calls,
      channels and sockets, with a step for each section under a mutex. [EmbedLaws]: the invariant of the service
      and its operations. [EmbedInv]: whose things are and where input goes. [EmbedPlaces]: where each frame is.
      [EmbedSafety]: proved of every interleaving, frames and input stay with the plugin, session and tunnel they
      are for, once and in order, no channel is closed twice and queues stay within the credit window, a revoked
      token is dead with its sockets, offering a frame ends; and four runs that show defects.
    - [Rows]: lookups in lists of rows. [VaultData]: the vault with its items, settings and their
      validation ([vault_data.go], [connection.go], [app_settings.go] and their neighbours).
    - [SyncTrust]: [internal/domain/synctrust], but for its texts: record types, mappers, scopes, the
      rules on incoming changes, conflicts and bindings. [TrustLaws]: what a snapshot holds and what one
      change does to each part of the vault. [Weakening]: a batch of accepted changes weakens no trust
      anchor. [Scopes]: proved, the changes of one vault never touch the items of another.
      [Credentials]: proved, which credential a shared connection is given, and that the key of a
      binding is ambiguous. [TrustDemo]: a vault to evaluate them on.
    - [ClientStore]: the client's tables ([infra/syncstate]). [Client]: the pulling half of the engine
      ([sync_pull.go], [sync_interpret.go], [sync_logs.go], [sync_merge.go], [sync_snapshot.go],
      [sync_held.go], [sync_join.go], [sync_keyring.go], the outbox of [sync_push.go]).
      [ClientLaws]: proved, no pull moves the verified state back, and every pull ends. [ClientDemo]: a
      first pull.
    - [Interpret]: proved of a whole commit as it lands, no trust anchor is weaker without the user's
      confirmation, a connection that is pointed elsewhere loses its credentials, and a deletion
      through a misfiled record escapes these rules. [InterpretDemo]: their witnesses.
    - [Push]: the committing half ([sync_push.go], [sync_batch.go], [sync_epoch.go],
      [sync_retention.go], [sync_trash.go], [rotationFor]). [PushLaws]: the commits it builds are
      those the rules accept, and they land. [Settle]: proved, a push commits every change and the
      next look finds none. [SettleDemo]: its witness.

    ** How code becomes definitions

    A Go function that returns an error is a [result]; one that writes through a pointer receiver is
    an [ST], which keeps what was written before an error. Errors are the lists of sentinel values
    they wrap, so [errors.Is] is decidable; messages are not modelled. Unsigned integers are [Z]
    with [wrap32] and [wrap64] where the code computes; [int] and [time.Duration] wrap as signed
    64-bit numbers where overflow matters. Maps are finite maps, and code whose result could depend
    on map order is modelled on the map, with the order shown not to matter. A method that holds a
    mutex for its whole body is one atomic step; one that gives it up and takes it again, or waits,
    has a [yield] there, whose argument is whatever the rest of the program does meanwhile. A database
    transaction is a state computation whose writes are dropped on error. Clock readings, random bytes
    and protocol coins are arguments, in the order the code takes them. A nil dereference or an index out of range is the error [GoPanic].

    ** Bounds and fuel

    Two recursions are not structural. The level loop of [MerkleRoot] runs on as much fuel as there
    are leaves, and a level has at most half the nodes of the one below, so the fuel suffices
    ([MerkleRoot_total]). [MergeObjects] runs on the height of the local document plus one, since
    every recursive call descends in it; [merge_total] proves the fuel suffices. Positions are
    assumed below 2^64 where a theorem says so; the database refuses larger ones than 2^63. A
    request adds at most sixteen entries to a log, so theorems on histories of [n] requests ask for
    16 n + 16 below 2^64, some 10^18 requests. The server's vaults verify in every history without
    account deletions; [deletion_blocks_shared_vault] shows why those are excluded.
    On the client, [pullAll] repeats rounds as long as the server has more; the model allows 2^64 of them,
    and every round that goes on moves the verified position, which stays below 2^63, so
    [pull_terminates] shows the allowance is never used up. [checkDescends] runs on the distance
    between two positions. [syncRound] and [reencrypt] try five times, as the code does.
    The check of a path starts over on the parent of a missing name; its fuel is the number of names
    plus one, and [path_check_terminates] shows that it suffices. The kernel follows 255 links, as
    [filepath.EvalSymlinks] does. The walk over a subtree runs on the number of nodes in the tree, the walk
    of a reader on the depth limit plus one; [discovery_trees_well_formed] shows that both suffice.
    Offering a frame to a page runs on fuel; [deliverFrame_ends] shows that 4801 attempts suffice besides those
    made while the tab is in the background. Session ids and embed tokens are drawn at random; the machine of
    [EmbedWorld] never draws one twice.
    Theorems that rely on the hash name the finite set of strings two computations really hashed and
    assume no collision in that set ([collision_free]); the witnesses check it by evaluation.

    ** What is not modelled

    Cryptographic primitives other than as [Crypto] and [AKE] (encryption, OPAQUE, key derivation);
    JSON wire formats; HTTP, TLS and flags of the server; SQL parsing, schema migration, backup, disk
    and driver failures; of the client's sync the accounts behind other members' signatures in team
    vaults, joining and changing teams, rotating the account's keys, and the listings and texts shown
    to the user; of plugins the rest of their manifests and permissions, their processes and sandbox, the
    bytes moved over an open connection, Windows paths, and a file system another program changes
    between two steps of one request; and of the desktop application the Wails presentation layer, the
    SSH and SFTP engines, the delivery of observed sets to plugins, the files an embedded page is made of, and the operating-system
    integrations. *)

From stdpp Require Export base gmap strings list vector sorting countable numbers fin_maps.
From Stdlib Require Export Strings.Byte ZArith Lia.

#[global] Open Scope Z_scope.
#[global] Set Default Goal Selector "!".

(** ** Go outcomes

    A Go function returning [(T, error)] is a [result E T]; one that also writes through a pointer
    receiver is an [ST S E T], which returns the receiver's state after the call whether or not the
    call failed, so that a write made before an error stays visible. *)

Inductive result (E A : Type) : Type :=
  | Ok (a : A)
  | Err (e : E).
Arguments Ok {E A} a.
Arguments Err {E A} e.

Definition ST (S E A : Type) : Type := S → result E A * S.

#[export] Instance result_ret {E} : MRet (result E) := λ A a, Ok a.
#[export] Instance result_bind {E} : MBind (result E) :=
  λ A B f m, match m with Ok a => f a | Err e => Err e end.
#[export] Instance result_fmap {E} : FMap (result E) :=
  λ A B f m, match m with Ok a => Ok (f a) | Err e => Err e end.

#[export] Instance ST_ret {S E} : MRet (ST S E) := λ A a s, (Ok a, s).
#[export] Instance ST_bind {S E} : MBind (ST S E) :=
  λ A B f m s, match m s with (Ok a, s') => f a s' | (Err e, s') => (Err e, s') end.

(** Conversion unfolds the monads before the programs written in them. *)
#[global] Strategy expand [mbind result_bind ST_bind mret result_ret ST_ret].

Definition st_get {S E} : ST S E S := λ s, (Ok s, s).
Definition st_put {S E} (s' : S) : ST S E unit := λ _, (Ok (), s').
Definition st_fail {S E A} (e : E) : ST S E A := λ s, (Err e, s).
Definition st_lift {S E A} (r : result E A) : ST S E A := λ s, (r, s).

(** The value of a successful computation. *)
Definition of_ok {E A} (d : A) (r : result E A) : A := if r is Ok a then a else d.
Definition is_ok {E A} (r : result E A) : bool := if r is Ok _ then true else false.

Declare Scope go_scope.
Delimit Scope go_scope with go.
#[global] Open Scope go_scope.

(** [fail_if c with e ;; k] is Go's [if c { return e }] followed by [k]. *)
Notation "'fail_if' c 'with' e ;; k" := (if c then Err e else k)
  (at level 100, c at level 99, e at level 99, k at level 200, right associativity,
   format "'fail_if'  c  'with'  e  ;; '/' k") : go_scope.
(** [x |> f] chains method calls left to right. *)
Notation "x |> f" := (f x) (at level 40, left associativity, only parsing) : go_scope.

(** Boolean equality on any type with decidable equality, Go's [==]. *)
Notation "x =?? y" := (bool_decide (x = y)) (at level 70) : go_scope.
Notation "x <>? y" := (negb (bool_decide (x = y))) (at level 70) : go_scope.

(** ** Folding a fallible step over a list, stopping at the first error *)

Fixpoint foldM {E S A : Type} (f : S → A → result E S) (s : S) (l : list A) : result E S :=
  match l with
  | [] => Ok s
  | a :: l' => match f s a with Ok s' => foldM f s' l' | Err e => Err e end
  end.

(** ** Automation *)

Lemma Ok_inj {E A} (a b : A) : @Ok E A a = Ok b → a = b.
Proof. by intros [=]. Qed.

Lemma of_ok_eq {E A} (d : A) (r : result E A) : is_ok r = true → r = Ok (of_ok d r).
Proof. by destruct r. Qed.

Lemma bind_ok_l {E A B} (f : A → result E B) (a : A) : (Ok a ≫= f) = f a.
Proof. done. Qed.
Lemma bind_err_l {E A B} (f : A → result E B) (e : E) : (Err e ≫= f) = Err e.
Proof. done. Qed.

Lemma bind_Ok {E A B} (f : A → result E B) (m : result E A) (b : B) :
  (m ≫= f) = Ok b ↔ ∃ a, m = Ok a ∧ f a = Ok b.
Proof. destruct m; simpl; split; [eauto| |done|]; intros (?&?&?); by simplify_eq. Qed.

Lemma fail_if_Ok {E A} (c : bool) (e : E) (k : result E A) (a : A) :
  (if c then Err e else k) = Ok a ↔ c = false ∧ k = Ok a.
Proof. destruct c; naive_solver. Qed.

Lemma st_get_run {S E} (s : S) : @st_get S E s = (Ok s, s).
Proof. done. Qed.
Lemma st_put_run {S E} (s s' : S) : @st_put S E s' s = (Ok (), s').
Proof. done. Qed.
Lemma st_lift_run {S E A} (r : result E A) (s : S) : st_lift r s = (r, s).
Proof. done. Qed.
Lemma st_fail_run {S E A} (e : E) (s : S) : @st_fail S E A e s = (Err e, s).
Proof. done. Qed.

(** Running a sequence of stateful steps, forwards and backwards. *)
Lemma st_bind_run {S E A B} (m : ST S E A) (f : A → ST S E B) s a s1 : m s = (Ok a, s1) → (m ≫= f) s = f a s1.
Proof. unfold mbind, ST_bind. by intros ->. Qed.
Lemma st_bind_inv {S E A B} (m : ST S E A) (f : A → ST S E B) s b s' :
  (m ≫= f) s = (Ok b, s') → ∃ a s1, m s = (Ok a, s1) ∧ f a s1 = (Ok b, s').
Proof. unfold mbind, ST_bind. destruct (m s) as [[a|] s1]; [|done]. intros. by exists a, s1. Qed.

(** Reduce a boolean test to the proposition it decides. *)
Ltac bool_step :=
  match goal with
  | H : _ || _ = false |- _ => apply orb_false_iff in H as [? ?]
  | H : _ && _ = true |- _ => apply andb_true_iff in H as [? ?]
  | H : negb _ = false |- _ => apply negb_false_iff in H
  | H : negb _ = true |- _ => apply negb_true_iff in H
  | H : bool_decide _ = true |- _ => apply bool_decide_eq_true in H
  | H : bool_decide _ = false |- _ => apply bool_decide_eq_false in H
  | H : Is_true _ |- _ => apply Is_true_eq_true in H
  end.
Ltac bool_simpl := repeat bool_step.

(** Take apart a computation known to have succeeded, one guard or bind at a time. *)
Ltac ok_step :=
  match goal with
  | H : Ok _ = Ok _ |- _ => apply Ok_inj in H
  | H : Err _ = Ok _ |- _ => discriminate H
  | H : Ok _ = Err _ |- _ => discriminate H
  | H : mret _ = Ok _ |- _ => apply Ok_inj in H
  | H : (_ ≫= _) = Ok _ |- _ => apply bind_Ok in H; destruct H as (? & ? & H)
  | H : (if ?c then Err _ else _) = Ok _ |- _ => apply fail_if_Ok in H; destruct H as [? H]
  | H : match ?m with Ok _ => _ | Err _ => Err _ end = Ok _ |- _ => destruct m eqn:?; [|discriminate H]
  end.
Ltac ok_inv := repeat (ok_step; cbn beta iota in *); bool_simpl; subst.

Create HintDb sync discriminated.

(** ** Lemmas on [foldM] *)

Lemma foldM_app {E S A} (f : S → A → result E S) s l1 l2 :
  foldM f s (l1 ++ l2) = (foldM f s l1 ≫= λ s', foldM f s' l2).
Proof. revert s; induction l1 as [|a l1 IH]; intros s; simpl; [done|]. destruct (f s a); [apply IH|done]. Qed.

(** An invariant of every accepted step holds after the whole fold. *)
Lemma foldM_inv {E S A} (P : S → Prop) (f : S → A → result E S) l s s' :
  (∀ s a s', P s → a ∈ l → f s a = Ok s' → P s') →
  P s → foldM f s l = Ok s' → P s'.
Proof.
  revert s; induction l as [|a l IH]; intros s Hstep Hs; simpl.
  - intros [= <-]; done.
  - destruct (f s a) as [s1|] eqn:E1; [|done]. apply IH.
    + intros; eapply Hstep; eauto. by right.
    + eapply Hstep; eauto. by left.
Qed.

Lemma foldM_snoc_Ok {E S A} (f : S → A → result E S) s l a s' :
  foldM f s (l ++ [a]) = Ok s' ↔ ∃ s1, foldM f s l = Ok s1 ∧ f s1 a = Ok s'.
Proof.
  rewrite foldM_app. rewrite bind_Ok. simpl.
  split; intros (s1 & ? & H); exists s1; split; try done; destruct (f s1 a); naive_solver.
Qed.

(** ** Machine integers

    [uintN] values are [Z]; a value that came out of the program is in range, and the range is a
    hypothesis wherever a theorem needs it. *)

Definition MaxUint16 : Z := 65535.
Definition MaxUint32 : Z := 4294967295.
Definition MaxUint64 : Z := 18446744073709551615.
Definition wrap32 (z : Z) : Z := z mod 4294967296.
Definition wrap64 (z : Z) : Z := z mod 18446744073709551616.
Definition u8 (z : Z) : Prop := 0 ≤ z ≤ 255.
Definition u16 (z : Z) : Prop := 0 ≤ z ≤ MaxUint16.
Definition u32 (z : Z) : Prop := 0 ≤ z ≤ MaxUint32.
Definition u64 (z : Z) : Prop := 0 ≤ z ≤ MaxUint64.

Definition MaxInt64 : Z := 9223372036854775807.
Definition MinInt64 : Z := -9223372036854775808.
(** Two's complement wrap-around of a signed 64-bit integer. *)
Definition wrap_i64 (z : Z) : Z := (z + 9223372036854775808) mod 18446744073709551616 - 9223372036854775808.
Definition i64 (z : Z) : Prop := MinInt64 ≤ z ≤ MaxInt64.

#[export] Hint Unfold u8 u16 u32 u64 MaxUint16 MaxUint32 MaxUint64 wrap32 wrap64 : sync.

(** [solve_uint]: linear arithmetic with the widths unfolded. *)
Ltac solve_uint :=
  unfold u8, u16, u32, u64, MaxUint16, MaxUint32, MaxUint64, wrap32, wrap64 in *; lia.

Lemma wrap64_u64 z : u64 (wrap64 z).
Proof. unfold u64, wrap64, MaxUint64. pose proof (Z.mod_pos_bound z 18446744073709551616). lia. Qed.

Lemma wrap64_id z : u64 z → wrap64 z = z.
Proof. intros. apply Z.mod_small. solve_uint. Qed.

Lemma wrap_i64_id z : i64 z → wrap_i64 z = z.
Proof. unfold i64, MinInt64, MaxInt64, wrap_i64. intros. rewrite Z.mod_small; lia. Qed.

Lemma wrap64_succ z : u64 z → z < MaxUint64 → wrap64 (z + 1) = z + 1.
Proof. intros. apply wrap64_id. solve_uint. Qed.

(** Length of a list as a Go [int]. *)
Abbreviation len l := (Z.of_nat (length l)).
