(* ===== verification/Bytes.v ===== *)
(** * Bytes: byte strings, big-endian integers, hexadecimal, identifiers

    The parts of [encoding/binary], [encoding/hex] and [bytes] the sync protocol uses, and
    [internal/domain/vaultsync/ids.go]. *)

From S2P Require Import Prelude.

(** ** Bytes and arrays *)

Abbreviation bytes := (list byte).
(** [[n]byte] arrays. *)
Abbreviation array n := (vec byte n).

#[export] Instance byte_eq_dec : EqDecision byte := Byte.byte_eq_dec.
#[export] Program Instance byte_countable : Countable byte :=
  inj_countable Byte.to_N Byte.of_N _.
Next Obligation. apply Byte.of_to_N. Qed.

Definition byte_to_Z (b : byte) : Z := Z.of_N (Byte.to_N b).
(** Go's [byte(v)] conversion: the low eight bits. *)
Definition byte_of_Z (z : Z) : byte := default Byte.x00 (Byte.of_N (Z.to_N (z mod 256))).

Definition zeros (n : nat) : bytes := replicate n Byte.x00.
Definition array_zero (n : nat) : array n := vreplicate n Byte.x00.

Definition bytes_of_string (s : string) : bytes := String.list_byte_of_string s.

(** [copy(dst[off:], src)]: copies as many bytes as fit. *)
Definition go_copy (dst : bytes) (off : nat) (src : bytes) : bytes :=
  take off dst ++ take (length dst - off) src ++ drop (off + length src) dst.

(** [binary.BigEndian.AppendUintN(nil, v)] for an n-byte integer. *)
Fixpoint be_bytes (n : nat) (v : Z) : bytes :=
  match n with
  | O => []
  | S k => byte_of_Z (Z.shiftr v (8 * Z.of_nat k)) :: be_bytes k v
  end.

(** [binary.BigEndian.UintN]. *)
Definition be_val (b : bytes) : Z := foldl (λ acc x, acc * 256 + byte_to_Z x) 0 b.

(** [bytes.Compare], as an ordering test. *)
Fixpoint bytes_leb (a b : bytes) : bool :=
  match a, b with
  | [], _ => true
  | _ :: _, [] => false
  | x :: a', y :: b' =>
      if byte_to_Z x <? byte_to_Z y then true
      else if byte_to_Z y <? byte_to_Z x then false
      else bytes_leb a' b'
  end.

(** ** Hexadecimal ([encoding/hex]) *)

Definition hex_digit (z : Z) : byte :=
  if z <? 10 then byte_of_Z (48 + z) else byte_of_Z (87 + z).

(** [hex.EncodeToString]: lower case. *)
Fixpoint hex_encode (b : bytes) : bytes :=
  match b with
  | [] => []
  | x :: b' => hex_digit (byte_to_Z x / 16) :: hex_digit (byte_to_Z x mod 16) :: hex_encode b'
  end.

(** Both cases decode, as [hex.DecodeString] does. *)
Definition hex_value (c : byte) : option Z :=
  let z := byte_to_Z c in
  if (48 <=? z) && (z <=? 57) then Some (z - 48)
  else if (97 <=? z) && (z <=? 102) then Some (z - 87)
  else if (65 <=? z) && (z <=? 70) then Some (z - 55)
  else None.

Fixpoint hex_decode (s : bytes) : option bytes :=
  match s with
  | [] => Some []
  | [_] => None
  | c :: d :: s' =>
      match hex_value c, hex_value d, hex_decode s' with
      | Some h, Some l, Some r => Some (byte_of_Z (h * 16 + l) :: r)
      | _, _, _ => None
      end
  end.

(** ** Lemmas on bytes *)

Lemma byte_to_Z_range b : 0 ≤ byte_to_Z b < 256.
Proof. unfold byte_to_Z. pose proof (Byte.to_N_bounded b). lia. Qed.

Lemma byte_of_to_Z b : byte_of_Z (byte_to_Z b) = b.
Proof.
  unfold byte_of_Z. pose proof (byte_to_Z_range b).
  rewrite Z.mod_small by lia. unfold byte_to_Z. by rewrite N2Z.id, Byte.of_to_N.
Qed.

Lemma byte_to_of_Z z : byte_to_Z (byte_of_Z z) = z mod 256.
Proof.
  unfold byte_of_Z, byte_to_Z. pose proof (Z.mod_pos_bound z 256).
  destruct (Byte.of_N (Z.to_N (z mod 256))) as [b|] eqn:E; simpl.
  - apply Byte.to_of_N in E. rewrite E. lia.
  - apply Byte.of_N_None_iff in E. lia.
Qed.

#[export] Instance byte_to_Z_inj : Inj (=) (=) byte_to_Z.
Proof. intros a b H. by rewrite <- (byte_of_to_Z a), H, byte_of_to_Z. Qed.

Lemma length_be_bytes n v : length (be_bytes n v) = n.
Proof. induction n; simpl; congruence. Qed.

Lemma length_zeros n : length (zeros n) = n.
Proof. apply length_replicate. Qed.

Lemma be_val_acc l acc : foldl (λ acc x, acc * 256 + byte_to_Z x) acc l = acc * 256 ^ len l + be_val l.
Proof.
  unfold be_val. revert acc. induction l as [|x l IH]; intros acc; cbn [foldl length]; [lia|].
  rewrite IH, (IH (0 * 256 + _)), Nat2Z.inj_succ, Z.pow_succ_r by lia. lia.
Qed.

Lemma be_val_cons x l : be_val (x :: l) = byte_to_Z x * 256 ^ len l + be_val l.
Proof. unfold be_val at 1. cbn [foldl]. rewrite be_val_acc. lia. Qed.

Lemma be_val_app l1 l2 : be_val (l1 ++ l2) = be_val l1 * 256 ^ len l2 + be_val l2.
Proof. unfold be_val at 1. rewrite foldl_app. by rewrite be_val_acc. Qed.

Lemma be_val_range l : 0 ≤ be_val l < 256 ^ len l.
Proof.
  induction l as [|x l IH]; [cbn; lia|].
  rewrite be_val_cons. pose proof (byte_to_Z_range x). cbn [length].
  rewrite Nat2Z.inj_succ, Z.pow_succ_r by lia. nia.
Qed.

Lemma be_val_bytes n v : be_val (be_bytes n v) = v mod 256 ^ Z.of_nat n.
Proof.
  induction n as [|n IH]; [cbn; by rewrite Z.mod_1_r|].
  cbn [be_bytes]. rewrite be_val_cons, IH, length_be_bytes, byte_to_of_Z.
  rewrite Z.shiftr_div_pow2 by lia. replace (2 ^ (8 * Z.of_nat n)) with (256 ^ Z.of_nat n)
    by (rewrite Z.pow_mul_r by lia; done).
  rewrite Nat2Z.inj_succ, Z.pow_succ_r by lia.
  assert (0 < 256 ^ Z.of_nat n) by lia.
  rewrite (Z.mul_comm 256), Z.rem_mul_r by lia. lia.
Qed.

Lemma be_bytes_inj n v w :
  0 ≤ v < 256 ^ Z.of_nat n → 0 ≤ w < 256 ^ Z.of_nat n →
  be_bytes n v = be_bytes n w → v = w.
Proof.
  intros Hv Hw H. apply (f_equal be_val) in H.
  by rewrite !be_val_bytes, !Z.mod_small in H by lia.
Qed.

Lemma be_bytes_add_high n v a :
  be_bytes n (a * 256 ^ Z.of_nat n + v) = be_bytes n v.
Proof.
  assert (∀ k w, (k ≤ n)%nat → w = a * 256 ^ Z.of_nat n + v → be_bytes k w = be_bytes k v) as H; [|eauto].
  intros k w Hk ->. induction k as [|k IH]; [done|]. cbn [be_bytes]. rewrite IH by lia. f_equal.
  unfold byte_of_Z. do 3 f_equal. rewrite !Z.shiftr_div_pow2 by lia.
  replace (2 ^ (8 * Z.of_nat k)) with (256 ^ Z.of_nat k) by (rewrite Z.pow_mul_r by lia; done).
  replace (Z.of_nat n) with (Z.of_nat (n - S k) + 1 + Z.of_nat k) by lia.
  rewrite !Z.pow_add_r by lia. change (256 ^ 1) with 256.
  replace (a * (256 ^ Z.of_nat (n - S k) * 256 * 256 ^ Z.of_nat k) + v)
    with (v + (a * 256 ^ Z.of_nat (n - S k) * 256) * 256 ^ Z.of_nat k) by ring.
  rewrite Z.div_add by lia. rewrite Z.mod_add by lia. done.
Qed.

(** A byte string is the big-endian form of its own value. *)
Lemma be_bytes_val l : be_bytes (length l) (be_val l) = l.
Proof.
  induction l as [|x l IH]; [done|]. cbn [length be_bytes].
  rewrite be_val_cons, be_bytes_add_high, IH. f_equal.
  rewrite Z.shiftr_div_pow2 by lia.
  replace (2 ^ (8 * len l)) with (256 ^ len l) by (rewrite Z.pow_mul_r by lia; done).
  pose proof (be_val_range l). rewrite Z.div_add_l, Z.div_small, Z.add_0_r by lia.
  apply byte_of_to_Z.
Qed.

Lemma be_val_inj l1 l2 : length l1 = length l2 → be_val l1 = be_val l2 → l1 = l2.
Proof. intros Hl H. by rewrite <- (be_bytes_val l1), Hl, H, be_bytes_val. Qed.

(** Two concatenations with equal-length first parts agree part by part. *)
Lemma app_inj_len {A} (a b c d : list A) :
  length a = length c → a ++ b = c ++ d → a = c ∧ b = d.
Proof. intros Hl H. by apply app_inj_1 in H. Qed.

Lemma length_go_copy dst off src :
  (off ≤ length dst)%nat → length (go_copy dst off src) = length dst.
Proof. intros. unfold go_copy. rewrite !length_app, !length_take, length_drop. lia. Qed.

(** ** The byte order is a total order *)

Lemma bytes_leb_refl a : bytes_leb a a = true.
Proof. induction a as [|x a IH]; [done|]. cbn. by rewrite Z.ltb_irrefl. Qed.

Lemma bytes_leb_total a b : bytes_leb a b = true ∨ bytes_leb b a = true.
Proof.
  revert b; induction a as [|x a IH]; intros [|y b]; cbn; [auto..|].
  destruct (byte_to_Z x <? byte_to_Z y); [auto|]. destruct (byte_to_Z y <? byte_to_Z x); auto.
Qed.

Lemma bytes_leb_antisym a b : bytes_leb a b = true → bytes_leb b a = true → a = b.
Proof.
  revert b; induction a as [|x a IH]; intros [|y b]; cbn; [done..|].
  destruct (Z.ltb_spec (byte_to_Z x) (byte_to_Z y)), (Z.ltb_spec (byte_to_Z y) (byte_to_Z x)); try done; [lia|].
  intros. assert (x = y) as -> by (apply (inj byte_to_Z); lia). f_equal. by apply IH.
Qed.

Lemma bytes_leb_trans a b c : bytes_leb a b = true → bytes_leb b c = true → bytes_leb a c = true.
Proof.
  revert b c; induction a as [|x a IH]; intros [|y b] [|z c]; cbn; try done.
  destruct (Z.ltb_spec (byte_to_Z x) (byte_to_Z y)), (Z.ltb_spec (byte_to_Z y) (byte_to_Z x)),
    (Z.ltb_spec (byte_to_Z y) (byte_to_Z z)), (Z.ltb_spec (byte_to_Z z) (byte_to_Z y)),
    (Z.ltb_spec (byte_to_Z x) (byte_to_Z z)), (Z.ltb_spec (byte_to_Z z) (byte_to_Z x));
    try done; try lia. eauto.
Qed.

(** ** Hexadecimal round trip *)

Lemma hex_value_digit z : 0 ≤ z < 16 → hex_value (hex_digit z) = Some z.
Proof.
  intros Hz. assert (z = 0 ∨ z = 1 ∨ z = 2 ∨ z = 3 ∨ z = 4 ∨ z = 5 ∨ z = 6 ∨ z = 7 ∨ z = 8 ∨ z = 9 ∨
    z = 10 ∨ z = 11 ∨ z = 12 ∨ z = 13 ∨ z = 14 ∨ z = 15) as H by lia.
  repeat destruct H as [->|H]; try done. by subst.
Qed.

Lemma hex_decode_encode b : hex_decode (hex_encode b) = Some b.
Proof.
  induction b as [|x b IH]; [done|]. cbn [hex_encode hex_decode].
  pose proof (byte_to_Z_range x).
  rewrite !hex_value_digit by (try apply Z.mod_pos_bound; lia || (split; [apply Z.div_pos; lia|apply Z.div_lt_upper_bound; lia])).
  rewrite IH. do 2 f_equal. rewrite Z.mul_comm, <- Z.div_mod by lia. apply byte_of_to_Z.
Qed.
Lemma hex_encode_inj a b : hex_encode a = hex_encode b → a = b.
Proof. intros E. apply (f_equal hex_decode) in E. rewrite !hex_decode_encode in E. congruence. Qed.

#[global] Arguments be_bytes : simpl never.
#[global] Arguments be_val : simpl never.
#[global] Arguments byte_of_Z : simpl never.
#[global] Arguments byte_to_Z : simpl never.
#[global] Arguments bytes_of_string : simpl never.
#[global] Arguments zeros : simpl never.
