(* ===== verification/GoText.v ===== *)
(** * GoText: the text routines of Go's standard library the program uses

    A Go string is a byte string. [utf8.ValidString] and the [range] loop over a string, the
    character classes of [unicode] the program asks about, [strings.Fields], [strings.TrimSpace],
    [strings.ToUpper], and the encodings of [base64] and [base32]. *)

From S2P Require Import Prelude Bytes.

(** ** UTF-8 *)

Definition in_range (lo hi : Z) (b : byte) : bool := (lo <=? byte_to_Z b) && (byte_to_Z b <=? hi).
Definition continuation (b : byte) : bool := in_range 128 191 b.

(** [utf8.ValidString]: RFC 3629, without surrogates, overlong forms or code points above 0x10FFFF. *)
Fixpoint utf8_ValidString (s : bytes) : bool :=
  match s with
  | [] => true
  | a :: s1 =>
      if in_range 0 127 a then utf8_ValidString s1 else
      match s1 with
      | [] => false
      | b :: s2 =>
          if in_range 194 223 a then continuation b && utf8_ValidString s2 else
          match s2 with
          | [] => false
          | c :: s3 =>
              if in_range 224 239 a then
                in_range (if byte_to_Z a =? 224 then 160 else 128) (if byte_to_Z a =? 237 then 159 else 191) b
                && continuation c && utf8_ValidString s3
              else
              match s3 with
              | [] => false
              | d :: s4 =>
                  if in_range 240 244 a then
                    in_range (if byte_to_Z a =? 240 then 144 else 128) (if byte_to_Z a =? 244 then 143 else 191) b
                    && continuation c && continuation d && utf8_ValidString s4
                  else false
              end
          end
      end
  end.

Definition RuneError : Z := 65533.

(** The low bits a continuation byte carries. *)
Definition low6 (b : byte) : Z := byte_to_Z b - 128.

(** [for _, r := range s]: each rune with the bytes it was decoded from; a byte that starts no
    valid sequence is one [RuneError]. *)
Fixpoint decode_runes (s : bytes) : list (Z * bytes) :=
  match s with
  | [] => []
  | a :: s1 =>
      if in_range 0 127 a then (byte_to_Z a, [a]) :: decode_runes s1 else
      match s1 with
      | [] => [(RuneError, [a])]
      | b :: s2 =>
          if in_range 194 223 a && continuation b
          then ((byte_to_Z a - 192) * 64 + low6 b, [a; b]) :: decode_runes s2 else
          match s2 with
          | [] => (RuneError, [a]) :: decode_runes s1
          | c :: s3 =>
              if in_range 224 239 a
                && in_range (if byte_to_Z a =? 224 then 160 else 128) (if byte_to_Z a =? 237 then 159 else 191) b
                && continuation c
              then ((byte_to_Z a - 224) * 4096 + low6 b * 64 + low6 c, [a; b; c]) :: decode_runes s3 else
              match s3 with
              | [] => (RuneError, [a]) :: decode_runes s1
              | d :: s4 =>
                  if in_range 240 244 a
                    && in_range (if byte_to_Z a =? 240 then 144 else 128) (if byte_to_Z a =? 244 then 143 else 191) b
                    && continuation c && continuation d
                  then ((byte_to_Z a - 240) * 262144 + low6 b * 4096 + low6 c * 64 + low6 d, [a; b; c; d]) :: decode_runes s4
                  else (RuneError, [a]) :: decode_runes s1
              end
          end
      end
  end.

Definition runes (s : bytes) : list Z := fst <$> decode_runes s.

(** [unicode.IsControl]: the category Cc, which lies in Latin-1. *)
Definition IsControl (r : Z) : bool := ((0 <=? r) && (r <=? 31)) || ((127 <=? r) && (r <=? 159)).

(** [unicode.IsSpace]: the property White_Space. *)
Definition IsSpace (r : Z) : bool :=
  ((9 <=? r) && (r <=? 13)) || (r =? 32) || (r =? 133) || (r =? 160) || (r =? 5760)
  || ((8192 <=? r) && (r <=? 8202)) || (r =? 8232) || (r =? 8233) || (r =? 8239) || (r =? 8287) || (r =? 12288).

(** ** [strings.Fields] *)

(** The fields of a decoded string; [cur] is the field being read, empty between fields. *)
Fixpoint split_fields (l : list (Z * bytes)) (cur : bytes) : list bytes :=
  match l with
  | [] => if cur =?? [] then [] else [cur]
  | (r, bs) :: l' =>
      if IsSpace r then (if cur =?? [] then split_fields l' [] else cur :: split_fields l' [])
      else split_fields l' (cur ++ bs)
  end.

Definition Fields (s : bytes) : list bytes := split_fields (decode_runes s) [].

(** ** [base64.StdEncoding] *)

Definition base64_char (z : Z) : byte :=
  if z <? 26 then byte_of_Z (65 + z)
  else if z <? 52 then byte_of_Z (71 + z)
  else if z <? 62 then byte_of_Z (z - 4)
  else if z =? 62 then Byte.x2b else Byte.x2f.

Definition base64_value (c : byte) : option Z :=
  let z := byte_to_Z c in
  if (65 <=? z) && (z <=? 90) then Some (z - 65)
  else if (97 <=? z) && (z <=? 122) then Some (z - 71)
  else if (48 <=? z) && (z <=? 57) then Some (z + 4)
  else if z =? 43 then Some 62 else if z =? 47 then Some 63 else None.

Definition pad_char : byte := Byte.x3d.

(** ** Encodings without padding *)

(** The bits of [b] in groups of [w], the last filled up with zeros on the right. *)
Definition bit_groups (w : Z) (b : bytes) : list Z :=
  let n := (8 * len b + w - 1) / w in
  let v := Z.shiftl (be_val b) (w * n - 8 * len b) in
  (λ i, Z.land (Z.shiftr v (w * (n - 1 - Z.of_nat i))) (Z.ones w)) <$> seq 0 (Z.to_nat n).

(** [base32.StdEncoding.WithPadding(base32.NoPadding)]. *)
Definition base32_char (z : Z) : byte := if z <? 26 then byte_of_Z (65 + z) else byte_of_Z (24 + z).
Definition base32_encode (b : bytes) : bytes := base32_char <$> bit_groups 5 b.

(** [base64.RawURLEncoding]. *)
Definition base64url_char (z : Z) : byte := if z =? 62 then Byte.x2d else if z =? 63 then Byte.x5f else base64_char z.
Definition base64url_encode (b : bytes) : bytes := base64url_char <$> bit_groups 6 b.

(** ** [strings.TrimSpace] and [strings.ToUpper] *)

Fixpoint trim_left (l : list (Z * bytes)) : list (Z * bytes) :=
  match l with
  | [] => []
  | x :: l' => if IsSpace x.1 then trim_left l' else l
  end.
(** The runes of the string without the white space at either end. *)
Definition TrimSpace (s : bytes) : bytes := concat (snd <$> reverse (trim_left (reverse (trim_left (decode_runes s))))).

(** [upper_wide] gives the capital of a letter outside ASCII, both encoded: Unicode's tables. *)
Definition strings_ToUpper (upper_wide : bytes → bytes) (s : bytes) : bytes :=
  concat ((λ x : Z * bytes, if (97 <=? x.1) && (x.1 <=? 122) then [byte_of_Z (x.1 - 32)] else if x.1 <? 128 then x.2 else upper_wide x.2)
            <$> decode_runes s).

(** ** Searching and splitting *)

Definition HasPrefix (s p : bytes) : bool := take (length p) s =?? p.
Definition HasSuffix (s p : bytes) : bool := HasPrefix (reverse s) (reverse p).
(** [strings.Contains] of one byte, [strings.ContainsAny] of ASCII characters. *)
Definition contains_any (s chars : bytes) : bool := existsb (λ c, bool_decide (c ∈ chars)) s.
(** [strings.Contains]. *)
Fixpoint Contains (s sub : bytes) : bool :=
  HasPrefix s sub || match s with [] => false | _ :: s' => Contains s' sub end.
(** [strings.Split] at a one-byte separator. *)
Fixpoint Split (s : bytes) (sep : byte) : list bytes :=
  match s with
  | [] => [[]]
  | c :: s' => if c =?? sep then [] :: Split s' sep
      else match Split s' sep with f :: fs => (c :: f) :: fs | [] => [[c]] end
  end.
(** What [strings.Cut] returns before the first separator. *)
Definition cut_before (s : bytes) (sep : byte) : bytes := default [] (head (Split s sep)).
(** [strings.ToLower] of the letters of ASCII. *)
Definition ascii_lower (s : bytes) : bytes :=
  (λ c, let z := byte_to_Z c in if (65 <=? z) && (z <=? 90) then byte_of_Z (z + 32) else c) <$> s.
Definition in_class (ranges : list (Z * Z)) (c : byte) : bool := existsb (λ r, in_range r.1 r.2 c) ranges.
Definition lower_digit : list (Z * Z) := [(97, 122); (48, 57)].
Definition alnum : list (Z * Z) := [(65, 90); (97, 122); (48, 57)].

(** [EncodeToString]. *)
Fixpoint base64_encode (b : bytes) : bytes :=
  match b with
  | [] => []
  | [x] => let v := byte_to_Z x * 65536 in
      [base64_char (v / 262144); base64_char (v / 4096 mod 64); pad_char; pad_char]
  | [x; y] => let v := byte_to_Z x * 65536 + byte_to_Z y * 256 in
      [base64_char (v / 262144); base64_char (v / 4096 mod 64); base64_char (v / 64 mod 64); pad_char]
  | x :: y :: z :: b' => let v := byte_to_Z x * 65536 + byte_to_Z y * 256 + byte_to_Z z in
      base64_char (v / 262144) :: base64_char (v / 4096 mod 64) :: base64_char (v / 64 mod 64)
        :: base64_char (v mod 64) :: base64_encode b'
  end.

(** [decodeQuantum] until the input ends. Padding ends the input, and the bits a padded quantum
    does not use are not looked at ([StdEncoding] is not [Strict]). *)
Fixpoint base64_quanta (s : bytes) : option bytes :=
  match s with
  | [] => Some []
  | a :: b :: c :: d :: s' =>
      match base64_value a, base64_value b with
      | Some va, Some vb =>
          match base64_value c, base64_value d with
          | Some vc, Some vd =>
              let v := va * 262144 + vb * 4096 + vc * 64 + vd in
              match base64_quanta s' with
              | Some r => Some (byte_of_Z (v / 65536) :: byte_of_Z (v / 256) :: byte_of_Z v :: r)
              | None => None
              end
          | Some vc, None =>
              if (d =?? pad_char) && (s' =?? [])
              then let v := va * 262144 + vb * 4096 + vc * 64 in Some [byte_of_Z (v / 65536); byte_of_Z (v / 256)]
              else None
          | None, _ =>
              if (c =?? pad_char) && (d =?? pad_char) && (s' =?? [])
              then Some [byte_of_Z ((va * 262144 + vb * 4096) / 65536)] else None
          end
      | _, _ => None
      end
  | _ => None
  end.

(** [DecodeString] skips line breaks wherever they stand. *)
Definition base64_decode (s : bytes) : option bytes :=
  base64_quanta (filter (λ c, c ≠ Byte.x0a ∧ c ≠ Byte.x0d) s).

(** ** Valid strings *)

Lemma in_range_true lo hi b : in_range lo hi b = true ↔ lo ≤ byte_to_Z b ≤ hi.
Proof. unfold in_range. rewrite andb_true_iff, !Z.leb_le. done. Qed.

(** The runes of a valid string: one ASCII byte, or a sequence without ASCII bytes. *)
Lemma valid_ind (P : bytes → Prop) :
  P [] →
  (∀ a s, in_range 0 127 a = true → utf8_ValidString s = true → P s → P (a :: s)) →
  (∀ r u s, Forall (λ b, 128 ≤ byte_to_Z b) u → decode_runes (u ++ s) = (r, u) :: decode_runes s →
     utf8_ValidString s = true → P s → P (u ++ s)) →
  ∀ s, utf8_ValidString s = true → P s.
Proof.
  intros Hnil Hascii Hmulti s. remember (length s) as n eqn:Hn. revert s Hn.
  induction n as [n IH] using lt_wf_ind; intros s -> Hv.
  destruct s as [|a s1]; [done|]. cbn [utf8_ValidString] in Hv.
  destruct (in_range 0 127 a) eqn:Ea; [apply Hascii; [done..|]; eapply IH; [|done..]; cbn; lia|].
  assert (128 ≤ byte_to_Z a) as Ha.
  { apply not_true_iff_false in Ea. rewrite in_range_true in Ea. pose proof (byte_to_Z_range a). lia. }
  destruct s1 as [|b s2]; [done|].
  destruct (in_range 194 223 a) eqn:E2.
  { bool_simpl. unfold continuation in *. eapply (Hmulti _ [a; b]); cbn [app decode_runes]; unfold continuation.
    1: repeat constructor; rewrite ?in_range_true in *; lia.
    1: by rewrite Ea, E2, H. 1: done. eapply IH; [|done..]; cbn; lia. }
  destruct s2 as [|c s3]; [done|].
  destruct (in_range 224 239 a) eqn:E3.
  { bool_simpl. unfold continuation in *. eapply (Hmulti _ [a; b; c]); cbn [app decode_runes]; unfold continuation.
    1: rewrite ?in_range_true in *; repeat constructor; repeat case_match; lia.
    1: by rewrite Ea, E2, E3, H, H1. 1: done. eapply IH; [|done..]; cbn; lia. }
  destruct s3 as [|d s4]; [done|]. destruct (in_range 240 244 a) eqn:E4; [|done].
  bool_simpl. unfold continuation in *. eapply (Hmulti _ [a; b; c; d]); cbn [app decode_runes]; unfold continuation.
  1: rewrite ?in_range_true in *; repeat constructor; repeat case_match; lia.
  1: by rewrite Ea, E2, E3, E4, H, H2, H1. 1: done. eapply IH; [|done..]; cbn; lia.
Qed.

(** Every ASCII byte of a valid string is a rune of it: no multi-byte sequence hides one. *)
Lemma valid_ascii_rune s b :
  utf8_ValidString s = true → b ∈ s → byte_to_Z b < 128 → byte_to_Z b ∈ runes s.
Proof.
  intros Hv Hb Hlt. revert s Hv Hb. unfold runes. apply (valid_ind (λ s, b ∈ s → _)).
  - by intros ?%elem_of_nil.
  - intros a s Ha Hs IH [->|Hin]%elem_of_cons; cbn [decode_runes]; rewrite Ha; cbn; [by left|right; auto].
  - intros r u s Hu Hd Hs IH [Hin|Hin]%elem_of_app; rewrite Hd; cbn; [|right; auto].
    eapply Forall_forall in Hu; [|done]. lia.
Qed.

(** The runes carry exactly the bytes of the string. *)
Lemma decode_runes_concat s : concat (snd <$> decode_runes s) = s.
Proof.
  remember (length s) as n eqn:Hn. revert s Hn. induction n as [n IH] using lt_wf_ind; intros s ->.
  destruct s as [|a s1]; [done|]. cbn [decode_runes].
  assert (∀ s', (length s' < length (a :: s1))%nat → concat (snd <$> decode_runes s') = s') as IH' by eauto.
  repeat (case_match; subst); cbn [fmap list_fmap concat snd app]; rewrite ?IH' by (cbn; lia); done.
Qed.

(** ** Base64 *)

Lemma base64_value_char z : 0 ≤ z < 64 → base64_value (base64_char z) = Some z.
Proof.
  intros Hz. unfold base64_char, base64_value.
  destruct (Z.ltb_spec z 26); [|destruct (Z.ltb_spec z 52); [|destruct (Z.ltb_spec z 62); [|destruct (Z.eqb_spec z 62)]]];
    rewrite ?byte_to_of_Z, ?Z.mod_small by lia; [..|subst; done|].
  - rewrite !(proj2 (Z.leb_le _ _)) by lia. cbn. f_equal; lia.
  - rewrite (proj2 (Z.leb_gt (71 + z) 90)) by lia. rewrite andb_false_r, !(proj2 (Z.leb_le _ _)) by lia. cbn. f_equal; lia.
  - rewrite (proj2 (Z.leb_gt 65 (z - 4))), (proj2 (Z.leb_gt 97 (z - 4))) by lia. cbn [andb].
    rewrite !(proj2 (Z.leb_le _ _)) by lia. cbn. f_equal; lia.
  - replace z with 63 by lia. done.
Qed.

Lemma base64_value_ne z c : 0 ≤ z < 64 → base64_value c = None → base64_char z ≠ c.
Proof. intros Hz Hc <-. by rewrite base64_value_char in Hc. Qed.

Lemma base64_encode_ind (P : bytes → Prop) :
  P [] → (∀ x, P [x]) → (∀ x y, P [x; y]) → (∀ x y z b, P b → P (x :: y :: z :: b)) → ∀ b, P b.
Proof.
  intros H0 H1 H2 H3. fix IH 1. intros [|x [|y [|z b]]]; [done|apply H1|apply H2|]. apply H3, IH.
Qed.

(** Linear arithmetic with division and remainder by constants. *)
Ltac solve_div := Z.to_euclidean_division_equations; lia.

(** The range of every byte in the context. *)
Ltac byte_ranges :=
  repeat match goal with x : byte |- _ =>
    lazymatch goal with H : 0 ≤ byte_to_Z x < 256 |- _ => fail | _ => pose proof (byte_to_Z_range x) end end.

Lemma byte_of_Z_eq v x : v mod 256 = byte_to_Z x → byte_of_Z v = x.
Proof. intros Hv. apply (inj byte_to_Z). by rewrite byte_to_of_Z. Qed.

(** A line break is no base64 character. *)
Lemma base64_encode_filter b : filter (λ c, c ≠ Byte.x0a ∧ c ≠ Byte.x0d) (base64_encode b) = base64_encode b.
Proof.
  assert (∀ z l, 0 ≤ z < 64 → filter (λ c, c ≠ Byte.x0a ∧ c ≠ Byte.x0d) (base64_char z :: l) =
    base64_char z :: filter (λ c, c ≠ Byte.x0a ∧ c ≠ Byte.x0d) l) as Hc.
  { intros z l Hz. apply filter_cons_True. split; by apply base64_value_ne. }
  assert (∀ l, filter (λ c, c ≠ Byte.x0a ∧ c ≠ Byte.x0d) (pad_char :: l) =
    pad_char :: filter (λ c, c ≠ Byte.x0a ∧ c ≠ Byte.x0d) l) as Hp by (intros l; by apply filter_cons_True).
  induction b as [|x|x y|x y z b IH] using base64_encode_ind; cbn [base64_encode]; [done|..];
    byte_ranges; rewrite ?Hc, ?Hp, ?IH by solve_div; done.
Qed.

Lemma base64_decode_encode b : base64_decode (base64_encode b) = Some b.
Proof.
  unfold base64_decode. rewrite base64_encode_filter.
  induction b as [|x|x y|x y z b IH] using base64_encode_ind; cbn [base64_encode base64_quanta]; [done|..];
    byte_ranges; rewrite ?base64_value_char by solve_div.
  - cbn. f_equal. f_equal. apply byte_of_Z_eq. solve_div.
  - cbn. do 2 f_equal; [|f_equal]; apply byte_of_Z_eq; solve_div.
  - rewrite IH. f_equal. f_equal; [|f_equal; [|f_equal]]; apply byte_of_Z_eq; solve_div.
Qed.

(** ** Fields and separators *)

(** An ASCII byte is a rune of its own. *)
Lemma decode_runes_chunk s : Forall (λ x, x.2 ≠ [] ∧ ∀ b, b ∈ x.2 → byte_to_Z b ≤ 127 → x.1 = byte_to_Z b) (decode_runes s).
Proof.
  remember (length s) as n eqn:Hn. revert s Hn. induction n as [n IH] using lt_wf_ind; intros s ->.
  destruct s as [|a s1]; [constructor|]. cbn [decode_runes].
  assert (∀ s', (length s' < length (a :: s1))%nat → Forall (λ x, x.2 ≠ [] ∧ ∀ b, b ∈ x.2 → byte_to_Z b ≤ 127 → x.1 = byte_to_Z b) (decode_runes s')) as IH'
    by eauto.
  assert (∀ z, in_range 0 127 a = false → byte_to_Z a ≤ 127 → z = byte_to_Z a) as Ha.
  { intros z Hr Hle. byte_ranges. apply not_true_iff_false in Hr. rewrite in_range_true in Hr. lia. }
  repeat (case_match; subst); repeat (constructor; [|first [apply IH'; cbn; lia | constructor]]); cbn [fst snd];
    (split; [done|]); intros x Hx Hle; repeat (apply elem_of_cons in Hx as [->|Hx]); try (by apply not_elem_of_nil in Hx);
    try done; unfold continuation in *; bool_simpl; rewrite ?in_range_true in *; repeat case_match; try lia; auto.
Qed.

Lemma split_fields_clean l cur :
  Forall (λ x : Z * bytes, x.2 ≠ [] ∧ ∀ b, b ∈ x.2 → byte_to_Z b ≤ 127 → x.1 = byte_to_Z b) l → Byte.x20 ∉ cur →
  Forall (λ f, f ≠ [] ∧ Byte.x20 ∉ f) (split_fields l cur).
Proof.
  revert cur. induction l as [|[r bs] l IH]; intros cur Hl Hc; cbn.
  - case_bool_decide; by repeat constructor.
  - apply Forall_cons in Hl as [[Hn Hb] Hl]. cbn in *. destruct (IsSpace r) eqn:Hr.
    + case_bool_decide; [|constructor; [done|]]; apply IH; auto; apply not_elem_of_nil.
    + apply IH; [done|]. rewrite elem_of_app. intros [?|Hx]; [done|]. apply Hb in Hx; [|done]. subst. done.
Qed.
(** No field is empty or holds a space. *)
Lemma Fields_space s : Forall (λ f, f ≠ [] ∧ Byte.x20 ∉ f) (Fields s).
Proof. apply split_fields_clean; [apply decode_runes_chunk|apply not_elem_of_nil]. Qed.

Lemma Split_no_sep f sep : sep ∉ f → Split f sep = [f].
Proof.
  induction f as [|c f IH]; [done|]. rewrite not_elem_of_cons. intros [Hc Hf]. cbn. rewrite bool_decide_eq_false_2 by done.
  by rewrite IH.
Qed.
Lemma Split_app f sep s : sep ∉ f → Split (f ++ sep :: s) sep = f :: Split s sep.
Proof.
  induction f as [|c f IH]; cbn; [by rewrite bool_decide_eq_true_2|]. rewrite not_elem_of_cons. intros [Hc Hf].
  rewrite bool_decide_eq_false_2 by done. by rewrite IH.
Qed.
