(* ===== verification/SyncBase.v ===== *)
(** * SyncBase: errors, identifiers, suites and signatures of the sync protocol

    [internal/domain/vaultsync]: [errors.go], [ids.go], [suite.go], [signature.go]. The hash and
    signature primitives are fields of the class [Crypto]; every definition and theorem is for an
    arbitrary instance and nothing is assumed of it. *)

From S2P Require Import Prelude Bytes.

(** ** Errors *)

(** The package-level error values; [GoPanic] stands for a run-time panic. *)
Inductive sentinel :=
  | ErrIntegrity
  | ErrMalformedID | ErrZeroID | ErrUnsupportedSuite | ErrSuiteBelowMinimum | ErrFieldTooLarge
  | ErrPlaintextTooLarge | ErrProtocolUnsupported
  | ErrMalformedEnvelope | ErrBadPadding | ErrBadSignature | ErrUnsupportedSigAlg | ErrDuplicateLeaf
  | ErrChainBroken | ErrMembershipRegressed | ErrRollback | ErrFork | ErrDeviceLog | ErrSupersededKey
  | ErrSuccessionRequired | ErrMembership | ErrNotAuthorized | ErrRevokedDevice | ErrRotationRequired
  | ErrUnverifiedMember | ErrVaultDeleted | ErrRootMismatch | ErrCommitAuthor | ErrRecordVersion
  | ErrEpochMismatch | ErrMembershipMismatch | ErrPurge
  | ErrEOF
  | GoPanic.

#[export] Instance sentinel_eq_dec : EqDecision sentinel.
Proof. solve_decision. Defined.

(** An error value is the sentinels it wraps with [%w], outermost first; message text is not
    modelled. *)
Abbreviation error := (list sentinel).

(** The values declared as [integrityError]. *)
Definition integrityError (s : sentinel) : bool :=
  match s with
  | ErrMalformedEnvelope | ErrBadPadding | ErrBadSignature | ErrUnsupportedSigAlg | ErrDuplicateLeaf
  | ErrChainBroken | ErrMembershipRegressed | ErrRollback | ErrFork | ErrDeviceLog | ErrSupersededKey
  | ErrSuccessionRequired | ErrMembership | ErrNotAuthorized | ErrRevokedDevice | ErrRotationRequired
  | ErrUnverifiedMember | ErrVaultDeleted | ErrRootMismatch | ErrCommitAuthor | ErrRecordVersion
  | ErrEpochMismatch | ErrMembershipMismatch | ErrPurge => true
  | _ => false
  end.

(** [errors.Is(err, target)]: some wrapped value is the target, or is an [integrityError] asked for
    [ErrIntegrity]. *)
Definition errors_Is (e : error) (target : sentinel) : bool :=
  existsb (λ s, (s =?? target) || (integrityError s && (target =?? ErrIntegrity))) e.

(** ** Identifiers *)

Definition IDSize : nat := 16.
Abbreviation ID := (array 16).
Abbreviation hash := (array 32).

Definition ID_zero : ID := array_zero 16.
Definition ID_IsZero (id : ID) : bool := id =?? ID_zero.
Definition ID_String (id : ID) : bytes := hex_encode (vec_to_list id).

(** The array a byte slice of the right length is copied into. *)
Definition to_array (n : nat) (b : bytes) : option (array n) :=
  match decide (length b = n) with
  | left H => Some (eq_rect _ (λ k, vec byte k) (list_to_vec b) _ H)
  | right _ => None
  end.

(** [NewID] on the bytes the reader still holds; the unread rest is returned with the id. *)
Definition NewID (r : bytes) : result error (ID * bytes) :=
  match to_array IDSize (take IDSize r) with
  | None => Err [ErrEOF]
  | Some id =>
      fail_if ID_IsZero id with [ErrZeroID] ;;
      Ok (id, drop IDSize r)
  end.

Definition ParseID (s : bytes) : result error ID :=
  match hex_decode s with
  | None => Err [ErrMalformedID]
  | Some raw =>
      match to_array IDSize raw with
      | None => Err [ErrMalformedID]
      | Some id =>
          fail_if ID_IsZero id || (ID_String id <>? s) with [ErrMalformedID] ;;
          Ok id
      end
  end.

(** [bytes.Compare(a[:], b[:]) <= 0]. *)
Definition ID_leb (a b : ID) : bool := bytes_leb (vec_to_list a) (vec_to_list b).
Definition ID_le (a b : ID) : Prop := ID_leb a b = true.

(** ** Cryptographic primitives *)

Class Crypto := {
  sha256 : bytes → array 32;
  sha512 : bytes → array 64;
  ed25519_verify : bytes → bytes → bytes → bool;   (* public key, message, signature *)
}.

(** [hmac.New] over a hash of 64-byte blocks. *)
Definition hmac (H : bytes → bytes) (key msg : bytes) : bytes :=
  let key := if 64 <? len key then H key else key in
  let key := key ++ zeros (64 - length key) in
  let mask m := (λ b, byte_of_Z (Z.lxor (byte_to_Z b) m)) <$> key in
  H (mask 92 ++ H (mask 54 ++ msg)).

(** No two different strings of a finite set have one hash. Theorems that rely on the hash name the
    strings the two computations they compare really hashed. *)
Definition collision_free `{Crypto} (X : bytes → Prop) : Prop :=
  ∀ x y, X x → X y → sha256 x = sha256 y → x = y.

Definition collision_freeb `{Crypto} (l : list bytes) : bool :=
  forallb (λ x, forallb (λ y, implb (sha256 x =?? sha256 y) (x =?? y)) l) l.

(** ** Suites *)

Abbreviation SuiteID := Z (only parsing).
Definition Suite1 : SuiteID := 1.
Definition CurrentSuite : SuiteID := Suite1.
Definition MinAcceptedSuite : SuiteID := Suite1.

Record Argon2Params := {
  a2_MemoryKiB : Z; a2_Iterations : Z; a2_Threads : Z; a2_KeyLen : Z;
}.

Record SuiteParams := {
  sp_ID : SuiteID;
  sp_Argon2 : Argon2Params;
  sp_WrappedDEKSize : Z;
  sp_AEADOverhead : Z;
  sp_SigningKeySize : Z;
  sp_EncryptionKeySize : Z;
  sp_VKWrapSize : Z;
}.

Definition suite1_params : SuiteParams := {|
  sp_ID := Suite1;
  sp_Argon2 := {| a2_MemoryKiB := 256 * 1024; a2_Iterations := 3; a2_Threads := 4; a2_KeyLen := 32 |};
  sp_WrappedDEKSize := 72;
  sp_AEADOverhead := 40;
  sp_SigningKeySize := 32;
  sp_EncryptionKeySize := 1216;
  sp_VKWrapSize := 1168;
|}.

Definition suites : gmap Z SuiteParams := {[ Suite1 := suite1_params ]}.

Definition LookupSuite (id minimum : SuiteID) : result error SuiteParams :=
  fail_if id <? minimum with [ErrSuiteBelowMinimum] ;;
  match suites !! id with
  | None => Err [ErrUnsupportedSuite]
  | Some p => Ok p
  end.

(** The zero value of the struct, what a Go field holds before it is assigned. *)
Definition SuiteParams_zero : SuiteParams := {|
  sp_ID := 0;
  sp_Argon2 := {| a2_MemoryKiB := 0; a2_Iterations := 0; a2_Threads := 0; a2_KeyLen := 0 |};
  sp_WrappedDEKSize := 0; sp_AEADOverhead := 0; sp_SigningKeySize := 0;
  sp_EncryptionKeySize := 0; sp_VKWrapSize := 0;
|}.

(** ** Signatures *)

Abbreviation SigAlg := Z (only parsing).
Definition SigEd25519 : SigAlg := 1.
Definition ed25519_PublicKeySize : Z := 32.
Definition ed25519_SignatureSize : Z := 64.

Definition VerifySignature `{Crypto} (alg : SigAlg) (publicKey message signature : bytes) : result error unit :=
  fail_if negb (alg =? SigEd25519) with [ErrUnsupportedSigAlg] ;;
  fail_if negb (len publicKey =? ed25519_PublicKeySize) || negb (len signature =? ed25519_SignatureSize)
    with [ErrBadSignature] ;;
  fail_if negb (ed25519_verify publicKey message signature) with [ErrBadSignature] ;;
  Ok ().

(** ** Lemmas *)

Lemma collision_free_weaken `{Crypto} (X Y : bytes → Prop) :
  (∀ x, Y x → X x) → collision_free X → collision_free Y.
Proof. intros HXY Hc x y Hx Hy. apply Hc; by apply HXY. Qed.

Lemma collision_free_list `{Crypto} (X : bytes → Prop) (l : list bytes) :
  (∀ x, X x → x ∈ l) → collision_freeb l = true → collision_free X.
Proof.
  intros HX Hl x y Hx%HX Hy%HX E. unfold collision_freeb in Hl.
  rewrite forallb_forall in Hl. apply list_elem_of_In in Hx, Hy. specialize (Hl x Hx).
  rewrite forallb_forall in Hl. specialize (Hl y Hy).
  rewrite bool_decide_eq_true_2 in Hl by done. by apply bool_decide_eq_true in Hl.
Qed.

Lemma to_array_list {n} (v : array n) : to_array n (vec_to_list v) = Some v.
Proof.
  unfold to_array. destruct (decide _) as [H|H]; [|by rewrite length_vec_to_list in H].
  f_equal. apply vec_to_list_inj2.
  transitivity (vec_to_list (list_to_vec (vec_to_list v))); [by destruct H|].
  apply vec_to_list_to_vec.
Qed.

(** Arrays as map keys, by their big-endian value; unlike stdpp's instance for vectors it computes. *)
#[export] Program Instance array_countable n : Countable (array n) :=
  inj_countable (λ v, be_val (vec_to_list v)) (λ z, to_array n (be_bytes n z)) _.
Next Obligation.
  intros n v. pose proof (be_bytes_val (vec_to_list v)) as E. rewrite length_vec_to_list in E.
  cbn beta. rewrite E. apply to_array_list.
Qed.

Lemma to_array_Some {n} b (v : array n) : to_array n b = Some v → vec_to_list v = b.
Proof.
  unfold to_array. destruct (decide _) as [H|H]; [|done]. intros [= <-].
  destruct H. apply vec_to_list_to_vec.
Qed.

Lemma to_array_None {n} b : to_array n b = None ↔ length b ≠ n.
Proof. unfold to_array. destruct (decide _); naive_solver. Qed.

#[export] Instance ID_le_dec a b : Decision (ID_le a b).
Proof. unfold ID_le. apply _. Defined.
#[export] Instance ID_le_total : Total ID_le.
Proof. intros a b. apply bytes_leb_total. Qed.
#[export] Instance ID_le_trans : Transitive ID_le.
Proof. intros a b c. apply bytes_leb_trans. Qed.
#[export] Instance ID_le_antisym : AntiSymm (=) ID_le.
Proof. intros a b H1 H2. apply vec_to_list_inj2. by apply bytes_leb_antisym. Qed.

Lemma LookupSuite_Ok id p :
  LookupSuite id MinAcceptedSuite = Ok p ↔ id = Suite1 ∧ p = suite1_params.
Proof.
  unfold LookupSuite, suites. split.
  - intros H. ok_inv. destruct (decide (id = Suite1)) as [->|Hne].
    + rewrite lookup_singleton_eq in H. by ok_inv.
    + rewrite lookup_singleton_ne in H by done. done.
  - intros [-> ->]. by rewrite lookup_singleton_eq.
Qed.

Lemma VerifySignature_Ok `{Crypto} alg pk msg sig :
  VerifySignature alg pk msg sig = Ok () ↔
  alg = SigEd25519 ∧ len pk = 32 ∧ len sig = 64 ∧ ed25519_verify pk msg sig = true.
Proof.
  unfold VerifySignature, ed25519_PublicKeySize, ed25519_SignatureSize.
  split.
  - intros Hv. ok_inv. bool_simpl. rewrite !Z.eqb_eq in *. done.
  - intros (-> & -> & -> & ->). done.
Qed.

(** ** Identifier round trips *)

(** [ParseID] accepts exactly the strings [String] produces for non-zero ids, and returns that id:
    one id has one spelling. *)
Theorem ParseID_exact (s : bytes) (id : ID) :
  ParseID s = Ok id ↔ ID_IsZero id = false ∧ s = ID_String id.
Proof.
  unfold ParseID. split.
  - destruct (hex_decode s) as [raw|]; [|done].
    destruct (to_array IDSize raw) as [v|] eqn:E; [|done].
    intros H. ok_inv. auto.
  - intros [Hz ->]. unfold ID_String at 1. rewrite hex_decode_encode, to_array_list, Hz. simpl.
    by rewrite bool_decide_eq_true_2.
Qed.

Lemma NewID_ok_nonzero r id rest :
  NewID r = Ok (id, rest) → ID_IsZero id = false ∧ r = vec_to_list id ++ rest.
Proof.
  unfold NewID. destruct (to_array _ _) as [v|] eqn:E; [|done]. intros H. ok_inv.
  simplify_eq. split; [done|]. apply to_array_Some in E.
  transitivity (take IDSize r ++ drop IDSize r); [by rewrite take_drop|]. f_equal. by symmetry.
Qed.
