(* ===== verification/Rows.v ===== *)
(** * Rows: a table keyed by an owner and a position

    The logs of the server's and of the device's database, read in order. *)

From S2P Require Import Prelude Bytes SyncBase.

Definition key2_le {A} (a b : (ID * Z) * A) : Prop := a.1.2 ≤ b.1.2.
#[export] Instance key2_le_dec {A} (a b : (ID * Z) * A) : Decision (key2_le a b).
Proof. unfold key2_le. apply _. Defined.
(** [SELECT ... WHERE k1 = ? ORDER BY seq] on a table keyed by an id and a seq. *)
Definition rows_by_seq {A} (m : gmap (ID * Z) A) (k : ID) : list ((ID * Z) * A) :=
  merge_sort key2_le (filter (λ kv : (ID * Z) * A, kv.1.1 = k) (map_to_list m)).

(** ** Rows in [seq] order *)

#[export] Instance key2_le_trans {A} : Transitive (@key2_le A).
Proof. intros a b c. unfold key2_le. lia. Qed.
#[export] Instance key2_le_total {A} : Total (@key2_le A).
Proof. intros a b. unfold key2_le. lia. Qed.

Section rows.
Context {A : Type}.
Implicit Types (m : gmap (ID * Z) A) (k : ID).

Lemma elem_of_rows m k kv : kv ∈ rows_by_seq m k ↔ kv.1.1 = k ∧ m !! kv.1 = Some kv.2.
Proof.
  unfold rows_by_seq. rewrite merge_sort_Permutation, list_elem_of_filter. destruct kv as [key a]. cbn.
  by rewrite elem_of_map_to_list.
Qed.
Lemma NoDup_rows m k : NoDup (rows_by_seq m k).
Proof. unfold rows_by_seq. rewrite merge_sort_Permutation. apply NoDup_filter, NoDup_map_to_list. Qed.

(** A list with exactly the rows of [k], in [seq] order, is what the query returns. *)
Lemma rows_unique m k l :
  StronglySorted key2_le l → NoDup l → (∀ kv, kv ∈ l ↔ kv.1.1 = k ∧ m !! kv.1 = Some kv.2) → rows_by_seq m k = l.
Proof.
  intros Hs Hn Hl. apply StronglySorted_unique_strong with (R := key2_le).
  - intros [[k1 q1] a1] [[k2 q2] a2] [? E1]%elem_of_rows [? E2]%Hl ??. unfold key2_le in *. cbn in *. subst.
    assert (q1 = q2) as -> by lia. congruence.
  - apply StronglySorted_merge_sort; apply _.
  - done.
  - apply NoDup_Permutation; [apply NoDup_rows|done|]. intros kv. by rewrite elem_of_rows, Hl.
Qed.

Lemma rows_frame m m' k : (∀ q, m' !! (k, q) = m !! (k, q)) → rows_by_seq m' k = rows_by_seq m k.
Proof.
  intros E. apply rows_unique; [apply StronglySorted_merge_sort; apply _|apply NoDup_rows|].
  intros [[k' q] a]. rewrite elem_of_rows. cbn. split; intros [-> <-]; by rewrite ?E.
Qed.

(** Rows replaced in place. *)
Lemma rows_map m m' k (f : (ID * Z) * A → A) :
  (∀ q, m' !! (k, q) = (λ a, f ((k, q), a)) <$> m !! (k, q)) →
  rows_by_seq m' k = (λ kv, (kv.1, f kv)) <$> rows_by_seq m k.
Proof.
  intros E. assert (StronglySorted key2_le (rows_by_seq m k)) as Hs by (apply StronglySorted_merge_sort; apply _).
  apply rows_unique.
  - apply (StronglySorted_fmap _ key2_le key2_le); [done|apply Hs].
  - apply NoDup_fmap_2_strong; [|apply NoDup_rows].
    intros [[k1 q1] a1] [[k2 q2] a2] [_ E1]%elem_of_rows [_ E2]%elem_of_rows [= -> -> _]. cbn in *. congruence.
  - intros [[k' q] a]. rewrite list_elem_of_fmap. cbn. split.
    + intros ([[k1 q1] a1] & [= -> -> ->] & [Hk Hm]%elem_of_rows). cbn in *. subst k1. by rewrite E, Hm.
    + intros [-> Hm]. rewrite E in Hm. apply fmap_Some in Hm as (a1 & Hm & ->).
      exists ((k, q), a1). split; [done|]. by apply elem_of_rows.
Qed.

(** A row added after all the others. *)
Lemma rows_snoc m k q a :
  (∀ q' a', m !! (k, q') = Some a' → q' < q) → rows_by_seq (<[(k, q) := a]> m) k = rows_by_seq m k ++ [((k, q), a)].
Proof.
  intros Hlt. apply rows_unique.
  - apply StronglySorted_app. split_and!; [|apply StronglySorted_merge_sort; apply _|repeat constructor].
    intros [[k1 q1] a1] x [Hk Hm]%elem_of_rows ->%list_elem_of_singleton. cbn in *. subst. apply Hlt in Hm. unfold key2_le. cbn. lia.
  - apply NoDup_app. split_and!; [apply NoDup_rows| |apply NoDup_singleton].
    intros x [Hk Hm]%elem_of_rows ->%list_elem_of_singleton. apply Hlt in Hm. lia.
  - intros [[k' q'] a']. rewrite elem_of_app, elem_of_rows, list_elem_of_singleton. cbn. split.
    + intros [[-> Hm]|[= -> -> ->]]; [|by rewrite lookup_insert_eq].
      rewrite lookup_insert_ne; [done|]. intros [= ->]. apply Hlt in Hm. lia.
    + intros [-> Hm]. apply lookup_insert_Some in Hm as [[[= ->] ->]|[_ Hm]]; auto.
Qed.

(** [ORDER BY seq DESC LIMIT 1]. *)
Lemma rows_last m k q a :
  m !! (k, q) = Some a → (∀ q' a', m !! (k, q') = Some a' → q' ≤ q) → list.last (rows_by_seq m k) = Some ((k, q), a).
Proof.
  intros Hm Hmax. rewrite <- (insert_id m (k, q) a Hm), <- insert_delete_eq, rows_snoc, last_snoc; [done|].
  intros q' a' [Hne Hq]%lookup_delete_Some. specialize (Hmax _ _ Hq). assert (q' ≠ q) by congruence. lia.
Qed.
Lemma rows_last_None m k : list.last (rows_by_seq m k) = None → ∀ q, m !! (k, q) = None.
Proof.
  intros Hl%last_None q. destruct (m !! (k, q)) as [a|] eqn:E; [|done].
  assert (((k, q), a) ∈ rows_by_seq m k) as Hin by by apply elem_of_rows. rewrite Hl in Hin. by apply not_elem_of_nil in Hin.
Qed.
End rows.
