(* ===== verification/Sha2.v ===== *)
(** * Sha2: the hash functions, and a concrete instance of the primitives

    SHA-256 and SHA-512 (FIPS 180-4) as [crypto/sha256] and [crypto/sha512] compute them, checked on
    published vectors. The theorems hold for every instance of the primitives. [demo_crypto] is the
    one the examples evaluate with: a 32-bit checksum stands in for the hashes and a checksum of key
    and message for Ed25519, so that an example is cheap to check. *)

From S2P Require Import Prelude Bytes SyncBase.

(** One member of the SHA-2 family: word size in bits, block size in bytes, rotation amounts, round
    constants and initial state. *)
Record sha2_params := {
  s2_w : Z; s2_block : nat;
  s2_S0 : Z * Z * Z; s2_S1 : Z * Z * Z; s2_s0 : Z * Z * Z; s2_s1 : Z * Z * Z;
  s2_K : list Z; s2_H : list Z;
}.

Section sha2.
Context (P : sha2_params).

Definition word (x : Z) : Z := Z.land x (Z.ones (s2_w P)).
Definition rotr (n x : Z) : Z := Z.lor (Z.shiftr x n) (word (Z.shiftl x (s2_w P - n))).
Definition big_sigma (r : Z * Z * Z) (x : Z) : Z :=
  let '(a, b, c) := r in Z.lxor (Z.lxor (rotr a x) (rotr b x)) (rotr c x).
Definition small_sigma (r : Z * Z * Z) (x : Z) : Z :=
  let '(a, b, c) := r in Z.lxor (Z.lxor (rotr a x) (rotr b x)) (Z.shiftr x c).
Definition Ch (x y z : Z) : Z := Z.lxor (Z.land x y) (Z.land (Z.lxor x (Z.ones (s2_w P))) z).
Definition Maj (x y z : Z) : Z := Z.lxor (Z.lxor (Z.land x y) (Z.land x z)) (Z.land y z).

Definition word_bytes : nat := Z.to_nat (s2_w P / 8).

(** The padded message: a one bit, zeros, and the bit length in two words. *)
Definition sha2_pad (m : bytes) : bytes :=
  let lenbytes := (2 * word_bytes)%nat in
  let total := (length m + 1 + lenbytes)%nat in
  let fill := ((s2_block P - total mod s2_block P) mod s2_block P)%nat in
  m ++ Byte.x80 :: zeros fill ++ be_bytes lenbytes (8 * len m).

Fixpoint words_of (fuel : nat) (b : bytes) : list Z :=
  match fuel with
  | O => []
  | S k => be_val (take word_bytes b) :: words_of k (drop word_bytes b)
  end.

(** The message schedule, newest word first. *)
Fixpoint schedule (n : nat) (w : list Z) : list Z :=
  match n with
  | O => w
  | S k =>
      let wt := word (small_sigma (s2_s1 P) (nth 1 w 0) + nth 6 w 0
                      + small_sigma (s2_s0 P) (nth 14 w 0) + nth 15 w 0) in
      schedule k (wt :: w)
  end.

Definition sha2_round (st : list Z) (kw : Z * Z) : list Z :=
  match st with
  | [a; b; c; d; e; f; g; h] =>
      let t1 := h + big_sigma (s2_S1 P) e + Ch e f g + kw.1 + kw.2 in
      let t2 := big_sigma (s2_S0 P) a + Maj a b c in
      [word (t1 + t2); a; b; c; word (d + t1); e; f; g]
  | _ => st
  end.

Definition sha2_block (st : list Z) (b : bytes) : list Z :=
  let w := rev (schedule (length (s2_K P) - 16) (rev (words_of 16 b))) in
  zip_with (λ x y, word (x + y)) st (foldl sha2_round st (zip (s2_K P) w)).

Fixpoint sha2_blocks (fuel : nat) (st : list Z) (b : bytes) : list Z :=
  match fuel, b with
  | O, _ | _, [] => st
  | S k, _ => sha2_blocks k (sha2_block st (take (s2_block P) b)) (drop (s2_block P) b)
  end.

Definition sha2 (m : bytes) : bytes :=
  let p := sha2_pad m in
  concat (be_bytes word_bytes <$> sha2_blocks (length p) (s2_H P) p).

End sha2.

(** The constants are the fractional bits of square and cube roots of the first primes
    (FIPS 180-4, 4.2 and 5.3). *)
Definition first_primes : list Z :=
  [2; 3; 5; 7; 11; 13; 17; 19; 23; 29; 31; 37; 41; 43; 47; 53; 59; 61; 67; 71; 73; 79; 83; 89; 97; 101; 103; 107; 109; 113;
   127; 131; 137; 139; 149; 151; 157; 163; 167; 173; 179; 181; 191; 193; 197; 199; 211; 223; 227; 229; 233; 239; 241; 251;
   257; 263; 269; 271; 277; 281; 283; 293; 307; 311; 313; 317; 331; 337; 347; 349; 353; 359; 367; 373; 379; 383; 389; 397;
   401; 409].

(** The integer cube root below [2 ^ n], one bit at a time. *)
Fixpoint cube_root (n : nat) (r x : Z) : Z :=
  match n with
  | O => r
  | S k => let r' := r + Z.shiftl 1 (Z.of_nat k) in cube_root k (if r' * r' * r' <=? x then r' else r) x
  end.

Definition sqrt_bits (w p : Z) : Z := Z.land (Z.sqrt (Z.shiftl p (2 * w))) (Z.ones w).
Definition cbrt_bits (w p : Z) : Z := Z.land (cube_root (Z.to_nat w + 3) 0 (Z.shiftl p (3 * w))) (Z.ones w).

Definition sha256_K : list Z := Eval vm_compute in cbrt_bits 32 <$> take 64 first_primes.
Definition sha256_H : list Z := Eval vm_compute in sqrt_bits 32 <$> take 8 first_primes.
Definition sha512_K : list Z := Eval vm_compute in cbrt_bits 64 <$> first_primes.
Definition sha512_H : list Z := Eval vm_compute in sqrt_bits 64 <$> take 8 first_primes.

Definition sha256_params : sha2_params := {|
  s2_w := 32; s2_block := 64;
  s2_S0 := (2, 13, 22); s2_S1 := (6, 11, 25); s2_s0 := (7, 18, 3); s2_s1 := (17, 19, 10);
  s2_K := sha256_K; s2_H := sha256_H;
|}.

Definition sha512_params : sha2_params := {|
  s2_w := 64; s2_block := 128;
  s2_S0 := (28, 34, 39); s2_S1 := (14, 18, 41); s2_s0 := (1, 8, 7); s2_s1 := (19, 61, 6);
  s2_K := sha512_K; s2_H := sha512_H;
|}.

Definition sha256_bytes (m : bytes) : array 32 := default (array_zero 32) (to_array 32 (sha2 sha256_params m)).
Definition sha512_bytes (m : bytes) : array 64 := default (array_zero 64) (to_array 64 (sha2 sha512_params m)).

(** The primitives with the real hashes and a given signature check. *)
Definition sha2_crypto (verify : bytes → bytes → bytes → bool) : Crypto := {|
  sha256 := sha256_bytes;
  sha512 := sha512_bytes;
  ed25519_verify := verify;
|}.

Definition demo_digest (m : bytes) : bytes :=
  be_bytes 4 (foldl (λ h b, Z.land (Z.shiftl h 5 - h + byte_to_Z b) MaxUint32) 5381 m).
Definition demo_array (n : nat) (m : bytes) : array n := default (array_zero n) (to_array n (zeros (n - 4) ++ demo_digest m)).
Definition demo_sign (pk msg : bytes) : bytes := vec_to_list (demo_array 64 (pk ++ msg)).

Definition demo_crypto : Crypto := {|
  sha256 := demo_array 32;
  sha512 := demo_array 64;
  ed25519_verify := λ pk msg sig, sig =?? demo_sign pk msg;
|}.

(** The published digests of "abc" and of the empty string. *)
Example sha256_abc : hex_encode (vec_to_list (sha256_bytes (bytes_of_string "abc"%string))) =
  bytes_of_string "ba7816bf8f01cfea414140de5dae2223b00361a396177a9cb410ff61f20015ad"%string.
Proof. vm_compute. reflexivity. Qed.
Example sha256_empty : hex_encode (vec_to_list (sha256_bytes (bytes_of_string ""%string))) =
  bytes_of_string "e3b0c44298fc1c149afbf4c8996fb92427ae41e4649b934ca495991b7852b855"%string.
Proof. vm_compute. reflexivity. Qed.
Example sha512_abc : hex_encode (vec_to_list (sha512_bytes (bytes_of_string "abc"%string))) =
  bytes_of_string "ddaf35a193617abacc417349ae20413112e6fa4e89a97ea20a9eeee64b55d39a2192992a274fc1a836ba3c23a3feebbd454d4423643ce80e2a9ac94fa54ca49f"%string.
Proof. vm_compute. reflexivity. Qed.

(** A 16-byte identifier for examples: fifteen zeros and one byte. *)
Definition demo_id (n : Z) : ID := default ID_zero (to_array 16 (zeros 15 ++ [byte_of_Z n])).
(** A 32-byte digest or key for examples. *)
Definition demo_hash (n : Z) : hash := default (array_zero 32) (to_array 32 (zeros 31 ++ [byte_of_Z n])).
