(* ===== verification/Canon.v ===== *)
(** * Canon: the canonical encoding every signature and hash covers

    [internal/domain/vaultsync]: [canon.go] and [labels.go]. An encoding is a list of
    length-prefixed fields; [fields_canon] is that list as one value, and the injectivity of
    [frames] is what the theorems on signatures and hash chains rest on. *)

From S2P Require Import Prelude Bytes SyncBase.

(** ** The builder *)

Record Canon := mkCanon { c_buf : bytes; c_err : option error }.

Definition Canon_Bytes (b : bytes) (c : Canon) : Canon :=
  match c_err c with
  | Some _ => c
  | None =>
      if MaxUint32 <? len b then mkCanon (c_buf c) (Some [ErrFieldTooLarge])
      else mkCanon ((c_buf c ++ be_bytes 4 (wrap32 (len b))) ++ b) None
  end.

Definition Canon_String (s : string) (c : Canon) : Canon := Canon_Bytes (bytes_of_string s) c.
Definition Canon_ID (id : ID) (c : Canon) : Canon := Canon_Bytes (vec_to_list id) c.
Definition Canon_Hash (h : hash) (c : Canon) : Canon := Canon_Bytes (vec_to_list h) c.
Definition Canon_U16 (v : Z) (c : Canon) : Canon := Canon_Bytes (be_bytes 2 v) c.
Definition Canon_U32 (v : Z) (c : Canon) : Canon := Canon_Bytes (be_bytes 4 v) c.
Definition Canon_U64 (v : Z) (c : Canon) : Canon := Canon_Bytes (be_bytes 8 v) c.
Definition Canon_Bool (v : bool) (c : Canon) : Canon :=
  if v then Canon_Bytes [Byte.x01] c else Canon_Bytes [Byte.x00] c.
Definition Canon_IDs (ids : list ID) (c : Canon) : Canon :=
  foldl (λ c id, Canon_ID id c) (Canon_U64 (len ids) c) ids.

Definition NewCanon (label : string) : Canon := mkCanon [] None |> Canon_String label.

Definition Encoded (c : Canon) : result error bytes :=
  match c_err c with Some e => Err e | None => Ok (c_buf c) end.

Definition Sum `{Crypto} (c : Canon) : result error hash :=
  match c_err c with Some e => Err e | None => Ok (sha256 (c_buf c)) end.

(** ** Labels *)

Definition LabelBundle := "xqs-sync/v1/bundle"%string.
Definition LabelVKWrap := "xqs-sync/v1/vk-wrap"%string.
Definition LabelVKWrapDigest := "xqs-sync/v1/vk-wrap-digest"%string.
Definition LabelDEKWrap := "xqs-sync/v1/dek-wrap"%string.
Definition LabelBody := "xqs-sync/v1/body"%string.
Definition LabelRecordSig := "xqs-sync/v1/record-sig"%string.
Definition LabelEnvelope := "xqs-sync/v1/envelope"%string.
Definition LabelHeadSig := "xqs-sync/v1/head-sig"%string.
Definition LabelHeadHash := "xqs-sync/v1/head-hash"%string.
Definition LabelMemberSig := "xqs-sync/v1/member-sig"%string.
Definition LabelMemberHash := "xqs-sync/v1/member-hash"%string.
Definition LabelDeviceSig := "xqs-sync/v1/device-sig"%string.
Definition LabelDeviceHash := "xqs-sync/v1/device-hash"%string.
Definition LabelServerTLS := "xqs-sync/v1/server-tls"%string.
Definition LabelMerkleLeaf := "xqs-sync/v1/merkle-leaf"%string.
Definition LabelMerkleNode := "xqs-sync/v1/merkle-node"%string.
Definition LabelEncryptionDigest := "xqs-sync/v1/encryption-digest"%string.
Definition LabelIdentityDigest := "xqs-sync/v1/identity-digest"%string.
Definition LabelDeviceAuth := "xqs-sync/v1/device-auth"%string.
Definition LabelRekey := "xqs-sync/v1/rekey"%string.
Definition LabelHelloContext := "xqs-sync/v1/hello-context"%string.

Definition labels : list string :=
  [LabelBundle; LabelVKWrap; LabelVKWrapDigest; LabelDEKWrap; LabelBody; LabelRecordSig; LabelEnvelope;
   LabelHeadSig; LabelHeadHash; LabelMemberSig; LabelMemberHash; LabelDeviceSig; LabelDeviceHash;
   LabelServerTLS; LabelMerkleLeaf; LabelMerkleNode; LabelEncryptionDigest; LabelIdentityDigest;
   LabelDeviceAuth; LabelRekey; LabelHelloContext].

(** ** The contexts ciphertexts and proofs are bound to *)

Definition BodyAAD (vault record : ID) (version epoch : Z) (suite : SuiteID) : result error bytes :=
  NewCanon LabelBody |> Canon_ID vault |> Canon_ID record |> Canon_U64 version |> Canon_U32 epoch
    |> Canon_U16 suite |> Encoded.

Definition DEKWrapAAD (vault record : ID) (version epoch : Z) : result error bytes :=
  NewCanon LabelDEKWrap |> Canon_ID vault |> Canon_ID record |> Canon_U64 version |> Canon_U32 epoch
    |> Encoded.

Definition VKWrapInfo (vault : ID) (epoch : Z) (member : ID) : result error bytes :=
  NewCanon LabelVKWrap |> Canon_ID vault |> Canon_U32 epoch |> Canon_ID member |> Encoded.

Definition BundleAAD (account : ID) (suite : SuiteID) : result error bytes :=
  NewCanon LabelBundle |> Canon_ID account |> Canon_U16 suite |> Encoded.

Definition IdentityDigest `{Crypto} (identityKey : bytes) : result error hash :=
  NewCanon LabelIdentityDigest |> Canon_Bytes identityKey |> Sum.

Definition DeviceAuthMessage (account device : ID) (nonce : bytes) : result error bytes :=
  NewCanon LabelDeviceAuth |> Canon_ID account |> Canon_ID device |> Canon_Bytes nonce |> Encoded.

Definition ServerTLSMessage (spki : bytes) : result error bytes :=
  NewCanon LabelServerTLS |> Canon_Bytes spki |> Encoded.

Definition RekeyMessage (account : ID) (record bundle : bytes) : result error bytes :=
  NewCanon LabelRekey |> Canon_ID account |> Canon_Bytes record |> Canon_Bytes bundle |> Encoded.

(** ** An encoding as its list of fields *)

Definition canon_empty : Canon := mkCanon [] None.
Definition add_field (c : Canon) (f : bytes) : Canon := Canon_Bytes f c.
Definition fields_canon (fs : list bytes) : Canon := foldl add_field canon_empty fs.
Definition field_small (f : bytes) : Prop := len f ≤ MaxUint32.
Definition frame (f : bytes) : bytes := be_bytes 4 (len f) ++ f.
Definition frames (fs : list bytes) : bytes := concat (frame <$> fs).

#[global] Arguments frame : simpl never.
#[global] Arguments wrap32 : simpl never.

Lemma fields_canon_app fs gs : fields_canon (fs ++ gs) = foldl add_field (fields_canon fs) gs.
Proof. apply foldl_app. Qed.

Lemma add_field_small c f :
  c_err c = None → field_small f → add_field c f = mkCanon (c_buf c ++ frame f) None.
Proof.
  intros Hc Hf. unfold add_field, Canon_Bytes, frame. rewrite Hc.
  destruct (Z.ltb_spec MaxUint32 (len f)); [unfold field_small in Hf; lia|].
  unfold wrap32. rewrite Z.mod_small, app_assoc by solve_uint. done.
Qed.

Lemma add_field_err c f e : c_err c = Some e → add_field c f = c.
Proof. intros Hc. unfold add_field, Canon_Bytes. by rewrite Hc. Qed.

Lemma foldl_add_field_err c fs e : c_err c = Some e → foldl add_field c fs = c.
Proof. induction fs as [|f fs IH] in c |- *; [done|]. intros Hc. cbn. rewrite (add_field_err c f e Hc). by apply IH. Qed.

Lemma foldl_add_field_small c fs :
  c_err c = None → Forall field_small fs → foldl add_field c fs = mkCanon (c_buf c ++ frames fs) None.
Proof.
  intros Hc Hfs. revert c Hc. induction Hfs as [|f fs Hf Hfs IH]; intros c Hc; cbn.
  - rewrite app_nil_r. destruct c; cbn in *; congruence.
  - rewrite add_field_small, IH by done. cbn. by rewrite <- app_assoc.
Qed.

(** An encoding succeeds exactly when every field fits its length prefix, and is then the framed
    fields in order. *)
Lemma Encoded_fields fs b :
  Encoded (fields_canon fs) = Ok b ↔ Forall field_small fs ∧ b = frames fs.
Proof.
  unfold fields_canon. split.
  - cut (∀ c, c_err c = None → Encoded (foldl add_field c fs) = Ok b →
           Forall field_small fs ∧ b = c_buf c ++ frames fs); [intros H; by apply H|].
    induction fs as [|f fs IH]; intros c Hc H; cbn in *.
    + unfold Encoded in H. rewrite Hc in H. ok_inv. by rewrite app_nil_r.
    + destruct (decide (field_small f)) as [Hf|Hf].
      * rewrite add_field_small in H by done. apply IH in H as [? ->]; [|done].
        split; [by constructor|]. cbn. by rewrite <- app_assoc.
      * assert (c_err (add_field c f) = Some [ErrFieldTooLarge]) as Herr.
        { unfold add_field, Canon_Bytes. rewrite Hc. unfold field_small in Hf.
          destruct (Z.ltb_spec MaxUint32 (len f)); [done|lia]. }
        rewrite (foldl_add_field_err _ _ _ Herr) in H. unfold Encoded in H. by rewrite Herr in H.
  - intros [Hfs ->]. rewrite foldl_add_field_small by done. done.
Qed.

Lemma Sum_Ok `{Crypto} c h : Sum c = Ok h ↔ ∃ b, Encoded c = Ok b ∧ h = sha256 b.
Proof. unfold Sum, Encoded. destruct (c_err c); naive_solver. Qed.

Lemma Sum_fields `{Crypto} fs h :
  Sum (fields_canon fs) = Ok h ↔ Forall field_small fs ∧ h = sha256 (frames fs).
Proof. rewrite Sum_Ok. setoid_rewrite Encoded_fields. naive_solver. Qed.

(** ** Injectivity *)

Lemma frame_app_inj f g r s :
  field_small f → field_small g → frame f ++ r = frame g ++ s → f = g ∧ r = s.
Proof.
  intros Hf Hg. unfold frame. rewrite <- !app_assoc. intros H.
  apply app_inj_len in H as [Hl H]; [|by rewrite !length_be_bytes].
  apply be_bytes_inj in Hl; [|unfold field_small, MaxUint32 in *; lia..].
  apply app_inj_len in H; [done|]. lia.
Qed.

Lemma frame_length f : (4 ≤ length (frame f))%nat.
Proof. unfold frame. rewrite length_app, length_be_bytes. lia. Qed.

Lemma frames_inj fs gs :
  Forall field_small fs → Forall field_small gs → frames fs = frames gs → fs = gs.
Proof.
  intros Hfs. revert gs. induction Hfs as [|f fs Hf Hfs IH]; intros gs Hgs H.
  - destruct Hgs as [|g gs]; [done|]. apply (f_equal length) in H. cbn in H.
    rewrite length_app in H. pose proof (frame_length g). lia.
  - destruct Hgs as [|g gs Hg Hgs].
    + apply (f_equal length) in H. cbn in H. rewrite length_app in H. pose proof (frame_length f). lia.
    + cbn in H. apply frame_app_inj in H as [-> H]; [|done..]. f_equal. by apply IH.
Qed.

#[global] Arguments frames : simpl never.
#[global] Strategy 1000 [frames be_bytes bytes_of_string].

(** Fields of fixed width. *)
Lemma be2_inj v w : u16 v → u16 w → be_bytes 2 v = be_bytes 2 w → v = w.
Proof. intros ??. apply be_bytes_inj; cbn; solve_uint. Qed.
Lemma be4_inj v w : u32 v → u32 w → be_bytes 4 v = be_bytes 4 w → v = w.
Proof. intros ??. apply be_bytes_inj; cbn; solve_uint. Qed.
Lemma be8_inj v w : u64 v → u64 w → be_bytes 8 v = be_bytes 8 w → v = w.
Proof. intros ??. apply be_bytes_inj; cbn; solve_uint. Qed.

Definition bool_field (b : bool) : bytes := if b then [Byte.x01] else [Byte.x00].
Lemma Canon_Bool_field b c : Canon_Bool b c = add_field c (bool_field b).
Proof. by destruct b. Qed.
Lemma bool_field_inj a b : bool_field a = bool_field b → a = b.
Proof. by destruct a, b. Qed.

Definition id_fields (ids : list ID) : list bytes := be_bytes 8 (len ids) :: (vec_to_list <$> ids).
Lemma Canon_IDs_fields ids c : Canon_IDs ids c = foldl add_field c (id_fields ids).
Proof. unfold Canon_IDs, id_fields. cbn. fold (add_field c (be_bytes 8 (len ids))). rewrite foldl_fmap. done. Qed.

Lemma bytes_of_string_inj s t : bytes_of_string s = bytes_of_string t → s = t.
Proof.
  unfold bytes_of_string. intros H.
  by rewrite <- (String.string_of_list_byte_of_string s), H, String.string_of_list_byte_of_string.
Qed.

Lemma cons_inj {A} (x y : A) l k : x :: l = y :: k → x = y ∧ l = k.
Proof. by intros [=]. Qed.

(** Rewrites an equality of field lists into equalities of the encoded values. *)
Ltac field_inj :=
  repeat match goal with
  | H : _ :: _ = _ :: _ |- _ => apply cons_inj in H; destruct H as [? H]
  | H : [] = [] |- _ => clear H
  | H : be_bytes 2 _ = be_bytes 2 _ |- _ => apply be2_inj in H; [|assumption..]
  | H : be_bytes 4 _ = be_bytes 4 _ |- _ => apply be4_inj in H; [|assumption..]
  | H : be_bytes 8 _ = be_bytes 8 _ |- _ => apply be8_inj in H; [|assumption..]
  | H : vec_to_list _ = vec_to_list _ |- _ => apply vec_to_list_inj2 in H
  | H : bool_field _ = bool_field _ |- _ => apply bool_field_inj in H
  | H : bytes_of_string _ = bytes_of_string _ |- _ => apply bytes_of_string_inj in H
  end.

(** Equal successful encodings have equal field lists. *)
Lemma Encoded_inj fs gs b :
  Encoded (fields_canon fs) = Ok b → Encoded (fields_canon gs) = Ok b → fs = gs.
Proof. intros [? ->]%Encoded_fields [? ?]%Encoded_fields. by apply frames_inj. Qed.

Lemma Encoded_inj2 fs gs b b' :
  Encoded (fields_canon fs) = Ok b → Encoded (fields_canon gs) = Ok b' → b = b' → fs = gs.
Proof. intros ?? <-. by eapply Encoded_inj. Qed.

Lemma NewCanon_fields l : NewCanon l = fields_canon [bytes_of_string l].
Proof. done. Qed.

(** Shows a builder chain is the list of fields it appends. *)
Ltac canon_fields :=
  unfold NewCanon, Canon_IDs, Canon_String, Canon_ID, Canon_Hash, Canon_U16, Canon_U32, Canon_U64;
  rewrite ?Canon_Bool_field; unfold fields_canon, canon_empty; cbn [foldl]; unfold add_field; reflexivity.

Lemma labels_NoDup : NoDup labels.
Proof. apply (bool_decide_unpack (NoDup labels)). by vm_compute. Qed.

Lemma fields_ok fs : Forall field_small fs → Encoded (fields_canon fs) = Ok (frames fs).
Proof. intros. by apply Encoded_fields. Qed.

Lemma array_small {n} (v : array n) : (n ≤ 4096)%nat → field_small (vec_to_list v).
Proof. intros. unfold field_small. rewrite length_vec_to_list. solve_uint. Qed.
Lemma be_small n v : (n ≤ 4096)%nat → field_small (be_bytes n v).
Proof. intros. unfold field_small. rewrite length_be_bytes. solve_uint. Qed.
Lemma bool_small b : field_small (bool_field b).
Proof. by destruct b. Qed.
Lemma label_small l : bool_decide (l ∈ labels) = true → field_small (bytes_of_string l).
Proof.
  intros H%bool_decide_eq_true. assert (Forall (λ l, len (bytes_of_string l) ≤ 100) labels) as HF by (repeat constructor; by vm_compute).
  rewrite Forall_forall in HF. specialize (HF l H). unfold field_small. cbn in HF. solve_uint.
Qed.

(** Fixed-width fields always fit. *)
Ltac solve_small :=
  repeat first [ assumption | apply Forall_nil_2 | apply Forall_cons_2 | apply array_small; lia
               | apply be_small; lia | apply bool_small | apply label_small; vm_compute; reflexivity ].

(** ** What the encoding guarantees *)

(** C25. The canonical encoding is injective and domain separated: two encodings that succeed with
    the same bytes have the same label and the same fields, one by one. A signature or hash made for
    one label and field list is therefore never one for another. *)
Theorem canon_injective (l1 l2 : string) (fs gs : list bytes) (b : bytes) :
  Encoded (foldl add_field (NewCanon l1) fs) = Ok b →
  Encoded (foldl add_field (NewCanon l2) gs) = Ok b →
  l1 = l2 ∧ fs = gs.
Proof.
  rewrite !NewCanon_fields, <- !fields_canon_app. intros H1 H2.
  pose proof (Encoded_inj _ _ _ H1 H2) as H. cbn in H. by field_inj.
Qed.

Lemma canon_injective_witness :
  LabelBody = LabelBody ∧ [[Byte.x01]; []] = [[Byte.x01]; []].
Proof.
  apply (canon_injective LabelBody LabelBody [[Byte.x01]; []] [[Byte.x01]; []]
    (frames [bytes_of_string LabelBody; [Byte.x01]; []])); vm_compute; reflexivity.
Defined.

(** The additional data of a record body names its coordinates exactly: bodies of two different
    (vault, record, version, epoch, suite) never share it, a body's is never a data key's, and a
    vault-key wrap's info names its vault, epoch and member exactly. *)
Theorem contexts_bind (v v' r r' m m' : ID) (n n' e e' s s' : Z) :
  u64 n → u64 n' → u32 e → u32 e' → u16 s → u16 s' →
  (BodyAAD v r n e s = BodyAAD v' r' n' e' s' → v = v' ∧ r = r' ∧ n = n' ∧ e = e' ∧ s = s') ∧
  (DEKWrapAAD v r n e = DEKWrapAAD v' r' n' e' → v = v' ∧ r = r' ∧ n = n' ∧ e = e') ∧
  (VKWrapInfo v e m = VKWrapInfo v' e' m' → v = v' ∧ e = e' ∧ m = m') ∧
  BodyAAD v r n e s ≠ DEKWrapAAD v' r' n' e'.
Proof.
  intros.
  assert (∀ v r n e s, BodyAAD v r n e s = Ok (frames [bytes_of_string LabelBody; vec_to_list v; vec_to_list r;
    be_bytes 8 n; be_bytes 4 e; be_bytes 2 s])) as HB by (intros; apply (fields_ok [_;_;_;_;_;_]); solve_small).
  assert (∀ v r n e, DEKWrapAAD v r n e = Ok (frames [bytes_of_string LabelDEKWrap; vec_to_list v; vec_to_list r;
    be_bytes 8 n; be_bytes 4 e])) as HD by (intros; apply (fields_ok [_;_;_;_;_]); solve_small).
  assert (∀ v e m, VKWrapInfo v e m = Ok (frames [bytes_of_string LabelVKWrap; vec_to_list v; be_bytes 4 e;
    vec_to_list m])) as HV by (intros; apply (fields_ok [_;_;_;_]); solve_small).
  rewrite !HB, !HD, !HV.
  split_and!; intros Heq; apply Ok_inj in Heq;
    (apply frames_inj in Heq; [|solve_small|solve_small]); by field_inj.
Qed.

Lemma contexts_bind_witness : ID_zero = ID_zero ∧ ID_zero = ID_zero ∧ 1 = 1 ∧ 0 = 0 ∧ 1 = 1.
Proof.
  refine (proj1 (contexts_bind ID_zero ID_zero ID_zero ID_zero ID_zero ID_zero 1 1 0 0 1 1 _ _ _ _ _ _) eq_refl);
    vm_compute; split; intros [=].
Defined.
