(* ===== verification/Padding.v ===== *)
(** * Padding: record plaintexts padded with the Padmé scheme

    [internal/domain/vaultsync/padding.go]. Sizes are Go [int]s, kept in [Z]; every size that occurs
    is below 2^33, far from the overflow of a 64-bit [int]. *)

From S2P Require Import Prelude Bytes SyncBase.

Definition MinPaddedSize : Z := 256.
Definition MaxPlaintextSize : Z := Z.shiftl 32 20.
Definition lengthPrefix : Z := 4.

(** [bits.Len]: the number of bits needed to represent n. *)
Definition bits_Len (n : Z) : Z := if n =? 0 then 0 else Z.log2 n + 1.

Definition padme (n : Z) : Z :=
  if n <? 2 then n
  else
    let e := bits_Len n - 1 in
    let s := bits_Len e in
    let mask := Z.shiftl 1 (e - s) - 1 in
    Z.ldiff (n + mask) mask.

Definition PaddedSize (n : Z) : Z := Z.max MinPaddedSize (padme (lengthPrefix + n)).

Definition Pad (plaintext : bytes) : result error bytes :=
  fail_if MaxPlaintextSize <? len plaintext with [ErrPlaintextTooLarge] ;;
  let out := zeros (Z.to_nat (PaddedSize (len plaintext))) in
  let out := go_copy out 0 (be_bytes 4 (wrap32 (len plaintext))) in
  Ok (go_copy out (Z.to_nat lengthPrefix) plaintext).

Definition Unpad (padded : bytes) : result error bytes :=
  fail_if len padded <? MinPaddedSize with [ErrBadPadding] ;;
  let n := be_val (take 4 padded) in
  fail_if (len padded - lengthPrefix <? n) || negb (len padded =? PaddedSize n) with [ErrBadPadding] ;;
  let endp := lengthPrefix + n in
  fail_if existsb (λ b, b <>? Byte.x00) (drop (Z.to_nat endp) padded) with [ErrBadPadding] ;;
  Ok (drop (Z.to_nat lengthPrefix) (take (Z.to_nat endp) padded)).

(** ** Arithmetic of the rounding *)

(** The exponent and the size of the mantissa Padmé keeps. *)
Definition padme_shift (n : Z) : Z := Z.log2 n - bits_Len (Z.log2 n).

Lemma padme_shift_nonneg n : 2 ≤ n → 0 ≤ padme_shift n ∧ padme_shift n + bits_Len (Z.log2 n) = Z.log2 n.
Proof.
  intros Hn. unfold padme_shift, bits_Len.
  assert (1 ≤ Z.log2 n) by (apply Z.log2_le_pow2; lia).
  destruct (Z.eqb_spec (Z.log2 n) 0); [lia|].
  assert (Z.log2 (Z.log2 n) < Z.log2 n) by (apply Z.log2_lt_lin; lia). lia.
Qed.

Lemma padme_eq n :
  2 ≤ n → padme n = (n + 2 ^ padme_shift n - 1) / 2 ^ padme_shift n * 2 ^ padme_shift n.
Proof.
  intros Hn. pose proof (padme_shift_nonneg n Hn) as [Hk _]. unfold padme.
  destruct (Z.ltb_spec n 2); [lia|].
  assert (bits_Len n - 1 = Z.log2 n) as -> by (unfold bits_Len; destruct (Z.eqb_spec n 0); lia).
  fold (padme_shift n). cbv zeta.
  replace (Z.shiftl 1 (padme_shift n) - 1) with (Z.ones (padme_shift n)) by (rewrite Z.ones_equiv, Z.shiftl_1_l; lia).
  rewrite Z.ldiff_ones_r, Z.shiftl_mul_pow2, Z.shiftr_div_pow2, Z.ones_equiv by lia.
  do 2 f_equal. lia.
Qed.

Lemma padme_range n :
  2 ≤ n → n ≤ padme n < n + 2 ^ padme_shift n ∧ padme n mod 2 ^ padme_shift n = 0.
Proof.
  intros Hn. pose proof (padme_shift_nonneg n Hn) as [Hk _]. rewrite padme_eq by done.
  set (m := 2 ^ padme_shift n). assert (0 < m) by (apply Z.pow_pos_nonneg; lia).
  split; [|apply Z.mod_mul; lia].
  pose proof (Z.div_mod (n + m - 1) m). pose proof (Z.mod_pos_bound (n + m - 1) m). nia.
Qed.

(** The pad unit is less than an eighth of the size, except for the sizes 8 to 15, where it is 2. *)
Lemma padme_unit n :
  2 ≤ n → 2 ^ padme_shift n = 1 ∨ 8 * 2 ^ padme_shift n ≤ n ∨ (2 ^ padme_shift n = 2 ∧ 8 ≤ n).
Proof.
  intros Hn. pose proof (padme_shift_nonneg n Hn) as [Hk Hs].
  pose proof (Z.log2_spec n ltac:(lia)) as [Hlo _].
  remember (bits_Len (Z.log2 n)) as s eqn:Es.
  assert (1 ≤ Z.log2 n) by (apply Z.log2_le_pow2; lia).
  destruct (decide (3 ≤ s)) as [H3|H3].
  - right; left. rewrite <- Hs, Z.pow_add_r in Hlo by lia.
    assert (2 ^ 3 ≤ 2 ^ s) by (apply Z.pow_le_mono_r; lia). nia.
  - unfold bits_Len in Es. destruct (Z.eqb_spec (Z.log2 n) 0); [lia|].
    assert (Z.log2 (Z.log2 n) < 2) as H4 by lia. apply Z.log2_lt_pow2 in H4; [|lia]. cbn in H4.
    destruct (decide (Z.log2 n ≤ 2)) as [H5|H5].
    + left. assert (Z.log2 n = 1 ∨ Z.log2 n = 2) as [E|E] by lia;
        rewrite E in Es; cbn in Es; assert (padme_shift n = 0) as -> by lia; done.
    + right; right. assert (Z.log2 n = 3) as E by lia. rewrite E in Es, Hlo. cbn in Es.
      assert (padme_shift n = 1) as -> by lia. cbn in *. lia.
Qed.

Lemma padme_overhead n : 1 ≤ n → n ≤ padme n ∧ 8 * (padme n - n) < n.
Proof.
  intros Hn. destruct (decide (2 ≤ n)) as [H2|].
  2: { assert (n = 1) as -> by lia. vm_compute. split; [intros [=]|done]. }
  pose proof (padme_range n H2) as [? Hmod]. split; [lia|].
  destruct (padme_unit n H2) as [E|[E|[E ?]]]; [lia|lia|].
  rewrite E in *. destruct (decide (n = 8)) as [->|]; [by vm_compute|]. lia.
Qed.

Lemma PaddedSize_ge n : 0 ≤ n → lengthPrefix + n ≤ PaddedSize n ∧ MinPaddedSize ≤ PaddedSize n.
Proof. intros. unfold PaddedSize, lengthPrefix. pose proof (padme_overhead (4 + n)). lia. Qed.

(** ** The layout *)

Definition pad_layout (p : bytes) : bytes :=
  be_bytes 4 (len p) ++ p ++ zeros (Z.to_nat (PaddedSize (len p) - lengthPrefix - len p)).

Lemma length_pad_layout p : len (pad_layout p) = PaddedSize (len p).
Proof.
  unfold pad_layout. rewrite !length_app, length_be_bytes, length_zeros.
  pose proof (PaddedSize_ge (len p)). unfold lengthPrefix in *. lia.
Qed.

Lemma go_copy_zeros n b :
  (length b ≤ n)%nat → go_copy (zeros n) 0 b = b ++ zeros (n - length b).
Proof.
  intros. unfold go_copy, zeros. rewrite length_replicate, Nat.sub_0_r, take_0, (take_ge b) by lia.
  by rewrite drop_replicate.
Qed.

Lemma Pad_layout p : len p ≤ MaxPlaintextSize → Pad p = Ok (pad_layout p).
Proof.
  intros Hp. unfold Pad. destruct (Z.ltb_spec MaxPlaintextSize (len p)); [lia|].
  pose proof (PaddedSize_ge (len p) ltac:(lia)) as [Hge _]. unfold lengthPrefix in *.
  assert (MaxPlaintextSize = 33554432) as E by done.
  unfold wrap32. rewrite Z.mod_small by lia. f_equal.
  set (N := Z.to_nat (PaddedSize (len p))). set (h := be_bytes 4 (len p)).
  assert (length h = 4%nat) as Hh by apply length_be_bytes.
  assert (4 + length p ≤ N)%nat by (unfold N; lia).
  rewrite go_copy_zeros by lia. rewrite Hh.
  unfold go_copy, pad_layout. change (Z.to_nat 4) with 4%nat. unfold lengthPrefix.
  rewrite !length_app, Hh, length_zeros, take_app_le by lia. rewrite (take_ge h) by lia. fold h.
  f_equal. rewrite take_ge by lia. f_equal.
  rewrite drop_app_ge by lia. unfold zeros. rewrite drop_replicate. f_equal. unfold N. lia.
Qed.

Lemma existsb_nonzero l : existsb (λ b, b <>? Byte.x00) l = false ↔ l = zeros (length l).
Proof.
  induction l as [|b l IH]; [done|]. cbn. rewrite orb_false_iff, negb_false_iff, bool_decide_eq_true, IH.
  split; [by intros [-> ->]; rewrite length_zeros|]. intros [=]. done.
Qed.

Lemma Unpad_layout (b p : bytes) : Unpad b = Ok p ↔ len p ≤ MaxUint32 ∧ b = pad_layout p.
Proof.
  unfold Unpad, lengthPrefix. split.
  - intros H. ok_inv. rewrite Z.eqb_eq in *.
    set (n := be_val (take 4 b)) in *.
    assert (MinPaddedSize = 256) by done.
    assert (4 ≤ length b)%nat by lia.
    assert (length (take 4 b) = 4%nat) as Hl4 by (rewrite length_take; lia).
    pose proof (be_val_range (take 4 b)) as Hn. rewrite Hl4 in Hn. fold n in Hn. cbn in Hn.
    assert (len (drop (Z.to_nat 4) (take (Z.to_nat (4 + n)) b)) = n) as Hlen
      by (rewrite length_drop, length_take; lia).
    rewrite Hlen. split; [solve_uint|]. unfold pad_layout. rewrite Hlen.
    apply existsb_nonzero in H2. rewrite length_drop in H2.
    rewrite <- (take_drop (Z.to_nat (4 + n)) b) at 1. rewrite H2, app_assoc. f_equal.
    + rewrite <- (take_drop 4 (take (Z.to_nat (4 + n)) b)) at 1. f_equal.
      rewrite take_take, Nat.min_l by lia. rewrite <- (be_bytes_val (take 4 b)), Hl4. done.
    + f_equal; unfold lengthPrefix; lia.
  - intros [Hp ->]. pose proof (length_pad_layout p) as HL.
    pose proof (PaddedSize_ge (len p) ltac:(lia)) as [Hg1 Hg2]. unfold lengthPrefix in *.
    destruct (Z.ltb_spec (len (pad_layout p)) MinPaddedSize); [lia|].
    assert (be_val (take 4 (pad_layout p)) = len p) as ->.
    { unfold pad_layout. rewrite take_app_le, take_ge by (rewrite length_be_bytes; lia).
      rewrite be_val_bytes. apply Z.mod_small. cbn. solve_uint. }
    destruct (Z.ltb_spec (len (pad_layout p) - 4) (len p)); [lia|].
    destruct (Z.eqb_spec (len (pad_layout p)) (PaddedSize (len p))); [|lia]. cbn [orb negb].
    assert (Z.to_nat (4 + len p) = length (be_bytes 4 (len p) ++ p)) as E
      by (rewrite length_app, length_be_bytes; lia).
    unfold pad_layout. rewrite E, app_assoc, drop_app_length, take_app_length.
    rewrite (proj2 (existsb_nonzero _)) by (by rewrite length_zeros).
    reflexivity.
Qed.

(** [Unpad] accepts a string exactly when it is the length prefix, the plaintext and zeros up to
    the canonical size, so no two strings unpad to one plaintext; on plaintexts within the size
    limit it inverts [Pad]. A plaintext above that limit, which [Pad] refuses, is accepted. *)
Theorem Unpad_exact (b p : bytes) :
  Unpad b = Ok p ↔ len p ≤ MaxUint32 ∧ b = pad_layout p.
Proof. apply Unpad_layout. Qed.

Lemma Unpad_exact_witness :
  Unpad (pad_layout [Byte.x2a; Byte.x07]) = Ok [Byte.x2a; Byte.x07].
Proof. apply (Unpad_exact _ _). vm_compute. split; [intros [=]|done]. Defined.

(** Padding round trip: a plaintext within the limit pads to the canonical size and unpads to
    itself. *)
Theorem Pad_Unpad (p : bytes) :
  len p ≤ MaxPlaintextSize →
  ∃ b, Pad p = Ok b ∧ len b = PaddedSize (len p) ∧ Unpad b = Ok p.
Proof.
  intros Hp. exists (pad_layout p). rewrite Pad_layout by done. split_and!; [done|apply length_pad_layout|].
  apply Unpad_layout. split; [|done]. assert (MaxPlaintextSize = 33554432) by done. solve_uint.
Qed.

Lemma Pad_Unpad_witness :
  ∃ b, Pad [Byte.x2a] = Ok b ∧ len b = PaddedSize (len [Byte.x2a]) ∧ Unpad b = Ok [Byte.x2a].
Proof. apply (Pad_Unpad [Byte.x2a]). vm_compute. intros [=]. Defined.

(** Padmé never shrinks a size, adds less than an eighth of it, and leaves only the leading
    [bits.Len(e)] bits below the top one free: within one power of two there are at most
    [2^bits.Len(e) + 1] padded sizes. *)
Theorem padme_bounds (n : Z) :
  2 ≤ n →
  n ≤ padme n ∧ 8 * (padme n - n) < n ∧
  padme n mod 2 ^ padme_shift n = 0 ∧
  2 ^ Z.log2 n = 2 ^ bits_Len (Z.log2 n) * 2 ^ padme_shift n ∧
  padme n ≤ 2 ^ (Z.log2 n + 1).
Proof.
  intros Hn. pose proof (padme_overhead n ltac:(lia)) as [??].
  pose proof (padme_range n Hn) as [[_ Hub] Hmod].
  pose proof (padme_shift_nonneg n Hn) as [Hk Hs].
  pose proof (Z.log2_spec n ltac:(lia)) as [_ Hhi].
  assert (0 ≤ bits_Len (Z.log2 n)) as Hb.
  { unfold bits_Len. pose proof (Z.log2_nonneg (Z.log2 n)). destruct (_ =? 0); lia. }
  split_and!; [done|done|done| |].
  - rewrite <- Z.pow_add_r by lia. f_equal. lia.
  - set (m := 2 ^ padme_shift n) in *.
    assert (0 < m) by (apply Z.pow_pos_nonneg; lia).
    assert (2 ^ (Z.log2 n + 1) = 2 * 2 ^ bits_Len (Z.log2 n) * m) as E.
    { unfold m. rewrite <- Z.mul_assoc, <- Z.pow_add_r, <- Z.pow_succ_r by lia. f_equal. lia. }
    replace (Z.succ (Z.log2 n)) with (Z.log2 n + 1) in Hhi by lia. rewrite E in *.
    apply Z.mod_divide in Hmod; [|lia]. destruct Hmod as [q Hq]. rewrite Hq in *.
    assert (q < 2 * 2 ^ bits_Len (Z.log2 n) + 1) by nia. nia.
Qed.

Lemma padme_bounds_witness :
  padme 129 mod 2 ^ padme_shift 129 = 0 ∧ padme 129 = 144.
Proof. split; [|done]. apply (padme_bounds 129). vm_compute. intros [=]. Defined.
