(* ===== verification/Envelope.v ===== *)
(** * Envelope: the server-visible form of a record version

    [internal/domain/vaultsync/envelope.go]. *)

From S2P Require Import Prelude Bytes SyncBase Canon Padding.

Record Envelope := {
  e_Vault : ID;
  e_Record : ID;
  e_Version : Z;      (* uint64 *)
  e_Epoch : Z;        (* uint32 *)
  e_Suite : Z;        (* SuiteID, uint16 *)
  e_Deleted : bool;
  e_WrappedDEK : bytes;
  e_Body : bytes;
  e_Author : ID;
  e_SigAlg : Z;       (* SigAlg, uint16 *)
  e_Sig : bytes;
}.

(** [malformed(reason)]; the reason is text. *)
Definition malformed : error := [ErrMalformedEnvelope].

Definition validateContent (e : Envelope) (p : SuiteParams) : result error unit :=
  if e_Deleted e then
    fail_if negb (len (e_WrappedDEK e) =? 0) || negb (len (e_Body e) =? 0) with malformed ;;
    Ok ()
  else
    fail_if negb (len (e_WrappedDEK e) =? sp_WrappedDEKSize p) with malformed ;;
    let minBody := MinPaddedSize + sp_AEADOverhead p in
    let maxBody := PaddedSize MaxPlaintextSize + sp_AEADOverhead p in
    fail_if (len (e_Body e) <? minBody) || (maxBody <? len (e_Body e)) with malformed ;;
    Ok ().

Definition Envelope_Validate (e : Envelope) : result error unit :=
  fail_if ID_IsZero (e_Vault e) || ID_IsZero (e_Record e) || ID_IsZero (e_Author e) with malformed ;;
  fail_if e_Version e =? 0 with malformed ;;
  fail_if negb (e_SigAlg e =? SigEd25519) with [ErrUnsupportedSigAlg] ;;
  fail_if negb (len (e_Sig e) =? ed25519_SignatureSize) with malformed ;;
  match LookupSuite (e_Suite e) MinAcceptedSuite with
  | Err err => Err (ErrMalformedEnvelope :: err)
  | Ok params => validateContent e params
  end.

Definition Envelope_SigningBytes (e : Envelope) : result error bytes :=
  NewCanon LabelRecordSig |> Canon_ID (e_Vault e) |> Canon_ID (e_Record e) |> Canon_U64 (e_Version e)
    |> Canon_U32 (e_Epoch e) |> Canon_U16 (e_Suite e) |> Canon_Bool (e_Deleted e)
    |> Canon_Bytes (e_WrappedDEK e) |> Canon_Bytes (e_Body e) |> Canon_ID (e_Author e)
    |> Canon_U16 (e_SigAlg e) |> Encoded.

Definition Envelope_Digest `{Crypto} (e : Envelope) : result error hash :=
  msg ← Envelope_SigningBytes e;
  NewCanon LabelEnvelope |> Canon_Bytes msg |> Canon_Bytes (e_Sig e) |> Sum.

Definition Envelope_Verify `{Crypto} (publicKey : bytes) (e : Envelope) : result error unit :=
  _ ← Envelope_Validate e;
  msg ← Envelope_SigningBytes e;
  VerifySignature (e_SigAlg e) publicKey msg (e_Sig e).

(** ** The values the Go types admit *)

Definition Envelope_wf (e : Envelope) : Prop :=
  u64 (e_Version e) ∧ u32 (e_Epoch e) ∧ u16 (e_Suite e) ∧ u16 (e_SigAlg e).

Definition envelope_fields (e : Envelope) : list bytes :=
  [bytes_of_string LabelRecordSig; vec_to_list (e_Vault e); vec_to_list (e_Record e);
   be_bytes 8 (e_Version e); be_bytes 4 (e_Epoch e); be_bytes 2 (e_Suite e); bool_field (e_Deleted e);
   e_WrappedDEK e; e_Body e; vec_to_list (e_Author e); be_bytes 2 (e_SigAlg e)].

Lemma Envelope_SigningBytes_fields e :
  Envelope_SigningBytes e = Encoded (fields_canon (envelope_fields e)).
Proof. unfold Envelope_SigningBytes, envelope_fields. canon_fields. Qed.

(** Every field but the signature is signed. *)
Lemma Envelope_SigningBytes_inj e e' m :
  Envelope_wf e → Envelope_wf e' →
  Envelope_SigningBytes e = Ok m → Envelope_SigningBytes e' = Ok m → e_Sig e = e_Sig e' → e = e'.
Proof.
  rewrite !Envelope_SigningBytes_fields. intros (?&?&?&?) (?&?&?&?) HA HB Hs.
  pose proof (Encoded_inj _ _ _ HA HB) as HC. unfold envelope_fields in HC. field_inj.
  destruct e, e'; cbn in *; congruence.
Qed.

(** What an envelope's digest hashes. *)
Definition envelope_input (e : Envelope) : bytes :=
  frames [bytes_of_string LabelEnvelope; frames (envelope_fields e); e_Sig e].

Lemma Envelope_Digest_Ok `{Crypto} e d :
  Envelope_Digest e = Ok d →
  Forall field_small (envelope_fields e) ∧
  Forall field_small [bytes_of_string LabelEnvelope; frames (envelope_fields e); e_Sig e] ∧
  d = sha256 (envelope_input e).
Proof.
  unfold Envelope_Digest. intros Hd. ok_inv. rewrite Envelope_SigningBytes_fields in *.
  match goal with H : Encoded _ = Ok _ |- _ => apply Encoded_fields in H as [? ->] end.
  apply (Sum_fields [_;_;_]) in Hd as [? ->]. done.
Qed.

(** Envelopes with one digest are equal, if the hash does not collide on the two strings. *)
Lemma Envelope_Digest_inj `{Crypto} e e' d :
  Envelope_wf e → Envelope_wf e' →
  Envelope_Digest e = Ok d → Envelope_Digest e' = Ok d →
  collision_free (λ x, x = envelope_input e ∨ x = envelope_input e') → e = e'.
Proof.
  intros We We' (Hf & Hg & ->)%Envelope_Digest_Ok (Hf' & Hg' & E)%Envelope_Digest_Ok Hc.
  apply Hc in E; [|auto..]. unfold envelope_input in E. apply frames_inj in E; [|done..].
  field_inj. apply (Envelope_SigningBytes_inj e e' (frames (envelope_fields e))); [done|done| | |done].
  - rewrite Envelope_SigningBytes_fields. by apply fields_ok.
  - rewrite Envelope_SigningBytes_fields. rewrite fields_ok by done. congruence.
Qed.

(** ** Verification *)

Lemma Envelope_Validate_Ok e :
  Envelope_Validate e = Ok () ↔
  ID_IsZero (e_Vault e) = false ∧ ID_IsZero (e_Record e) = false ∧ ID_IsZero (e_Author e) = false ∧
  e_Version e ≠ 0 ∧ e_SigAlg e = SigEd25519 ∧ len (e_Sig e) = 64 ∧ e_Suite e = Suite1 ∧
  (if e_Deleted e then e_WrappedDEK e = [] ∧ e_Body e = []
   else len (e_WrappedDEK e) = 72 ∧ MinPaddedSize + 40 ≤ len (e_Body e) ≤ PaddedSize MaxPlaintextSize + 40).
Proof.
  unfold Envelope_Validate, validateContent, malformed, ed25519_SignatureSize.
  assert (∀ l : bytes, len l = 0 ↔ l = []) as Hnil by (intros [|??]; cbn; split; [done|done|lia|done]).
  split.
  - intros H. ok_inv. destruct (LookupSuite (e_Suite e) MinAcceptedSuite) as [p|] eqn:E; [|done].
    apply LookupSuite_Ok in E as [-> ->]. rewrite !Z.eqb_eq, Z.eqb_neq in *.
    destruct (e_Deleted e); ok_inv; rewrite !Z.eqb_eq, ?Hnil in *; split_and!; auto;
      change (sp_WrappedDEKSize suite1_params) with 72 in *; change (sp_AEADOverhead suite1_params) with 40 in *; lia.
  - intros (-> & -> & -> & Hv & -> & -> & -> & Hc). cbn [orb]. apply Z.eqb_neq in Hv. rewrite Hv, !Z.eqb_refl.
    rewrite (proj2 (LookupSuite_Ok Suite1 suite1_params)) by done. cbn [negb].
    destruct (e_Deleted e).
    + destruct Hc as [-> ->]. done.
    + destruct Hc as [-> [??]]. change (sp_AEADOverhead suite1_params) with 40.
      change (72 =? sp_WrappedDEKSize suite1_params) with true. cbn [negb].
      destruct (Z.ltb_spec (len (e_Body e)) (MinPaddedSize + 40)); [lia|].
      destruct (Z.ltb_spec (PaddedSize MaxPlaintextSize + 40) (len (e_Body e))); [lia|]. done.
Qed.

Lemma PaddedSize_Max : PaddedSize MaxPlaintextSize = 34603008.
Proof. by vm_compute. Qed.

(** Verified envelopes always have signing bytes. *)
Lemma Envelope_Validate_SigningBytes e :
  Envelope_Validate e = Ok () → Envelope_SigningBytes e = Ok (frames (envelope_fields e)).
Proof.
  rewrite Envelope_Validate_Ok, Envelope_SigningBytes_fields, PaddedSize_Max.
  intros (?&?&?&?&?&?&?&Hc). apply fields_ok. unfold envelope_fields.
  assert (field_small (e_WrappedDEK e) ∧ field_small (e_Body e)) as [? ?].
  { unfold field_small. destruct (e_Deleted e); [destruct Hc as [-> ->]; done|]. solve_uint. }
  solve_small.
Qed.

(** An envelope verifies under a key exactly when it is well formed - non-zero ids, a version,
    the suite's exact key size and padded body bounds, or nothing at all for a tombstone - and the
    key's signature covers the framed list of all its other fields. *)
Theorem Envelope_Verify_iff `{Crypto} (pk : bytes) (e : Envelope) :
  Envelope_Verify pk e = Ok () ↔
  ID_IsZero (e_Vault e) = false ∧ ID_IsZero (e_Record e) = false ∧ ID_IsZero (e_Author e) = false ∧
  e_Version e ≠ 0 ∧ e_SigAlg e = SigEd25519 ∧ len (e_Sig e) = 64 ∧ e_Suite e = Suite1 ∧
  (if e_Deleted e then e_WrappedDEK e = [] ∧ e_Body e = []
   else len (e_WrappedDEK e) = 72 ∧ MinPaddedSize + 40 ≤ len (e_Body e) ≤ PaddedSize MaxPlaintextSize + 40) ∧
  len pk = 32 ∧ ed25519_verify pk (frames (envelope_fields e)) (e_Sig e) = true.
Proof.
  unfold Envelope_Verify. split.
  - intros Hv. apply bind_Ok in Hv as ([] & Hval & Hv).
    rewrite (Envelope_Validate_SigningBytes e Hval) in Hv. cbn in Hv.
    apply Envelope_Validate_Ok in Hval as (?&?&?&?&?&?&?&?).
    apply VerifySignature_Ok in Hv as (?&?&?&?). split_and!; done.
  - intros (?&?&?&?&?&?&?&?&?&?).
    assert (Envelope_Validate e = Ok ()) as Hval by (apply Envelope_Validate_Ok; split_and!; done).
    rewrite Hval. cbn. rewrite (Envelope_Validate_SigningBytes e Hval). cbn. by apply VerifySignature_Ok.
Qed.
