(* ===== verification/Merkle.v ===== *)
(** * Merkle: the root that commits to a whole vault state

    [internal/domain/vaultsync/merkle.go]. The level loop runs on fuel; [MerkleRoot_total] shows the
    fuel [MerkleRoot] gives it always suffices. *)

From S2P Require Import Prelude Bytes SyncBase Canon Sha2 Envelope.

Record Leaf := {
  l_Record : ID;
  l_Version : Z;      (* uint64 *)
  l_Digest : hash;
  l_Deleted : bool;
}.

#[export] Instance Leaf_eq_dec : EqDecision Leaf.
Proof. solve_decision. Defined.

Definition LeafOf `{Crypto} (e : Envelope) : result error Leaf :=
  d ← Envelope_Digest e;
  Ok {| l_Record := e_Record e; l_Version := e_Version e; l_Digest := d; l_Deleted := e_Deleted e |}.

Definition leaf_le (a b : Leaf) : Prop := ID_le (l_Record a) (l_Record b).
#[export] Instance leaf_le_dec a b : Decision (leaf_le a b).
Proof. unfold leaf_le. apply _. Defined.

(** The adjacent comparison of the sorted slice. *)
Fixpoint adjacent_dup (ids : list ID) : bool :=
  match ids with
  | a :: (b :: _) as r => (b =?? a) || adjacent_dup r
  | _ => false
  end.

Definition leaf_hash `{Crypto} (l : Leaf) : result error hash :=
  NewCanon LabelMerkleLeaf |> Canon_ID (l_Record l) |> Canon_U64 (l_Version l) |> Canon_Hash (l_Digest l) |> Sum.

Definition node_hash `{Crypto} (a b : hash) : result error hash :=
  NewCanon LabelMerkleNode |> Canon_Hash a |> Canon_Hash b |> Sum.

Fixpoint merkleLevel `{Crypto} (level : list hash) : result error (list hash) :=
  match level with
  | [] => Ok []
  | [a] => Ok [a]
  | a :: b :: rest =>
      h ← node_hash a b;
      next ← merkleLevel rest;
      Ok (h :: next)
  end.

(** [for len(level) > 1 { level = merkleLevel(level) }; return level[0]]. *)
Fixpoint merkle_loop `{Crypto} (fuel : nat) (level : list hash) : result error hash :=
  match level, fuel with
  | [], _ => Err [GoPanic]
  | [h], _ => Ok h
  | _, O => Err [GoPanic]
  | _, S fuel => next ← merkleLevel level; merkle_loop fuel next
  end.

Definition mapM_result {A B} (f : A → result error B) : list A → result error (list B) :=
  fix go l :=
    match l with
    | [] => Ok []
    | a :: l' => b ← f a; r ← go l'; Ok (b :: r)
    end.

Definition MerkleRoot `{Crypto} (leaves : list Leaf) : result error hash :=
  let sorted := merge_sort leaf_le leaves in
  fail_if adjacent_dup (l_Record <$> sorted) with [ErrDuplicateLeaf] ;;
  match sorted with
  | [] => Sum (NewCanon LabelMerkleNode)
  | _ =>
      level ← mapM_result leaf_hash sorted;
      merkle_loop (length level) level
  end.

(** ** Sorting *)

#[export] Instance leaf_le_total : Total leaf_le.
Proof. intros a b. apply (total ID_le). Qed.
#[export] Instance leaf_le_trans : Transitive leaf_le.
Proof. intros a b c. apply (transitivity (R:=ID_le)). Qed.

Definition sort_leaves (leaves : list Leaf) : list Leaf := merge_sort leaf_le leaves.

Lemma sort_leaves_perm leaves : sort_leaves leaves ≡ₚ leaves.
Proof. apply merge_sort_Permutation. Qed.

Lemma sort_leaves_keys_sorted leaves : StronglySorted ID_le (l_Record <$> sort_leaves leaves).
Proof.
  pose proof (StronglySorted_merge_sort leaf_le leaves) as H. fold (sort_leaves leaves) in H.
  induction H as [|l k Hs IH Hf]; cbn; constructor; [done|].
  rewrite Forall_fmap. eapply Forall_impl; [exact Hf|]. done.
Qed.

(** On a sorted list of keys, adjacent duplicates are all duplicates. *)
Lemma adjacent_dup_NoDup ids :
  StronglySorted ID_le ids → adjacent_dup ids = false ↔ NoDup ids.
Proof.
  induction 1 as [|a r Hs IH Hf]; [split; [constructor|done]|].
  destruct r as [|b r]; [split; [repeat constructor; set_solver|done]|].
  change (adjacent_dup (a :: b :: r)) with ((b =?? a) || adjacent_dup (b :: r)).
  rewrite orb_false_iff, bool_decide_eq_false, IH, (NoDup_cons a). split; [|set_solver].
  intros [Hne Hnd]. split; [|done]. intros [->|Hin]%elem_of_cons; [done|].
  apply StronglySorted_inv in Hs as [_ Hs]. rewrite Forall_forall in Hs, Hf.
  apply Hne, (anti_symm ID_le); [by apply Hs|]. apply Hf. by left.
Qed.

Lemma sort_leaves_dup leaves :
  adjacent_dup (l_Record <$> sort_leaves leaves) = false ↔ NoDup (l_Record <$> leaves).
Proof.
  rewrite adjacent_dup_NoDup by apply sort_leaves_keys_sorted. by rewrite sort_leaves_perm.
Qed.

(** Permuted leaves with distinct records sort to one list. *)
Lemma sort_leaves_unique l1 l2 :
  NoDup (l_Record <$> l1) → l1 ≡ₚ l2 → sort_leaves l1 = sort_leaves l2.
Proof.
  intros Hnd Hp. apply (StronglySorted_unique_strong leaf_le).
  - intros x y Hx Hy Hxy Hyx. rewrite sort_leaves_perm in Hx, Hy. rewrite <- Hp in Hy.
    assert (l_Record x = l_Record y) as E by by apply (anti_symm ID_le).
    apply list_elem_of_lookup in Hx as [i Hi], Hy as [j Hj].
    assert (i = j) as ->; [|congruence].
    apply (NoDup_lookup (l_Record <$> l1) i j (l_Record x)); [done| |]; rewrite list_lookup_fmap.
    + by rewrite Hi.
    + by rewrite Hj, E.
  - apply (StronglySorted_merge_sort _).
  - apply (StronglySorted_merge_sort _).
  - by rewrite !sort_leaves_perm.
Qed.

(** ** The tree the levels build *)

Definition leaf_input (l : Leaf) : bytes :=
  frames [bytes_of_string LabelMerkleLeaf; vec_to_list (l_Record l); be_bytes 8 (l_Version l); vec_to_list (l_Digest l)].
Definition node_input (a b : hash) : bytes :=
  frames [bytes_of_string LabelMerkleNode; vec_to_list a; vec_to_list b].
Definition empty_input : bytes := frames [bytes_of_string LabelMerkleNode].

#[global] Arguments leaf_input : simpl never.
#[global] Arguments node_input : simpl never.
#[global] Arguments empty_input : simpl never.

Inductive mtree := MLeaf (l : Leaf) | MNode (a b : mtree).

Fixpoint tree_hash `{Crypto} (t : mtree) : hash :=
  match t with
  | MLeaf l => sha256 (leaf_input l)
  | MNode a b => sha256 (node_input (tree_hash a) (tree_hash b))
  end.

(** The strings hashed on the way to the root. *)
Fixpoint tree_inputs `{Crypto} (t : mtree) : list bytes :=
  match t with
  | MLeaf l => [leaf_input l]
  | MNode a b => node_input (tree_hash a) (tree_hash b) :: tree_inputs a ++ tree_inputs b
  end.

Fixpoint tree_leaves (t : mtree) : list Leaf :=
  match t with MLeaf l => [l] | MNode a b => tree_leaves a ++ tree_leaves b end.

Fixpoint pair_trees (ts : list mtree) : list mtree :=
  match ts with
  | a :: b :: rest => MNode a b :: pair_trees rest
  | _ => ts
  end.

Fixpoint tree_loop (fuel : nat) (ts : list mtree) : option mtree :=
  match ts, fuel with
  | [], _ => None
  | [t], _ => Some t
  | _, O => None
  | _, S fuel => tree_loop fuel (pair_trees ts)
  end.

Definition merkle_tree (leaves : list Leaf) : option mtree :=
  tree_loop (length leaves) (MLeaf <$> sort_leaves leaves).

Definition merkle_inputs `{Crypto} (leaves : list Leaf) : list bytes :=
  match merkle_tree leaves with None => [empty_input] | Some t => tree_inputs t end.

Section merkle.
Context `{Crypto}.

Lemma leaf_hash_eq l : leaf_hash l = Ok (sha256 (leaf_input l)).
Proof. apply (Sum_fields [_;_;_;_]). split; [|done]. solve_small. Qed.

Lemma node_hash_eq a b : node_hash a b = Ok (sha256 (node_input a b)).
Proof. apply (Sum_fields [_;_;_]). split; [|done]. solve_small. Qed.

Lemma list_ind2 {A} (P : list A → Prop) :
  P [] → (∀ a, P [a]) → (∀ a b l, P l → P (a :: b :: l)) → ∀ l, P l.
Proof.
  intros H0 H1 H2. fix IH 1. intros [|a [|b l]]; [exact H0|apply H1|apply H2, IH].
Qed.

Lemma merkleLevel_trees ts :
  merkleLevel (tree_hash <$> ts) = Ok (tree_hash <$> pair_trees ts).
Proof.
  induction ts as [|a|a b ts IH] using list_ind2; [done|done|].
  cbn [fmap list_fmap merkleLevel pair_trees]. rewrite node_hash_eq. cbn. rewrite IH. done.
Qed.

Lemma length_pair_trees ts : (2 * length (pair_trees ts) ≤ length ts + 1)%nat.
Proof. induction ts as [|a|a b ts IH] using list_ind2; cbn in *; lia. Qed.

Lemma pair_trees_leaves ts : concat (tree_leaves <$> pair_trees ts) = concat (tree_leaves <$> ts).
Proof.
  induction ts as [|a|a b ts IH] using list_ind2; [done|done|]. cbn. rewrite <- app_assoc. by f_equal; f_equal.
Qed.

(** With at least as much fuel as trees, the loop ends in one tree over the same leaves. *)
Lemma tree_loop_Some fuel ts :
  ts ≠ [] → (length ts ≤ fuel)%nat →
  ∃ t, tree_loop fuel ts = Some t ∧ tree_leaves t = concat (tree_leaves <$> ts) ∧
       merkle_loop fuel (tree_hash <$> ts) = Ok (tree_hash t).
Proof.
  revert ts. induction fuel as [|fuel IH]; intros ts Hne Hf.
  { destruct ts; cbn in *; [done|lia]. }
  destruct ts as [|a [|b ts]]; [done| |].
  - exists a. cbn. rewrite app_nil_r. done.
  - pose proof (length_pair_trees (a :: b :: ts)) as Hl.
    destruct (IH (pair_trees (a :: b :: ts))) as (t & E1 & E2 & E3); [done|cbn [length] in *; lia|].
    exists t. split_and!.
    + done.
    + rewrite E2. apply pair_trees_leaves.
    + cbn [fmap list_fmap merkle_loop].
      change (tree_hash a :: tree_hash b :: (tree_hash <$> ts)) with (tree_hash <$> (a :: b :: ts)).
      rewrite merkleLevel_trees. exact E3.
Qed.

Lemma mapM_result_ok {A B} (f : A → result error B) g l :
  (∀ a, f a = Ok (g a)) → mapM_result f l = Ok (g <$> l).
Proof. intros Hf. induction l as [|a l IH]; [done|]. cbn. rewrite Hf. cbn. by rewrite IH. Qed.

Definition root_of (leaves : list Leaf) : hash :=
  match merkle_tree leaves with None => sha256 empty_input | Some t => tree_hash t end.

Lemma merkle_tree_leaves leaves :
  match merkle_tree leaves with None => leaves = [] | Some t => tree_leaves t = sort_leaves leaves end.
Proof.
  unfold merkle_tree. destruct leaves as [|l leaves]; [done|].
  set (ls := l :: leaves).
  assert (length (MLeaf <$> sort_leaves ls) = length ls) as Hlen
    by (by rewrite length_fmap, (sort_leaves_perm ls)).
  destruct (tree_loop_Some (length ls) (MLeaf <$> sort_leaves ls)) as (t & -> & -> & _); [|lia|].
  - intros E. by rewrite E in Hlen.
  - clear. induction (sort_leaves ls) as [|x r IH]; [done|]. cbn. by f_equal.
Qed.

(** The root is computed whenever no record appears twice: the loop terminates within its fuel and
    no field is too large. *)
Lemma MerkleRoot_total leaves :
  NoDup (l_Record <$> leaves) → MerkleRoot leaves = Ok (root_of leaves).
Proof.
  intros Hnd. unfold MerkleRoot, root_of. fold (sort_leaves leaves).
  rewrite (proj2 (sort_leaves_dup leaves) Hnd). unfold merkle_tree.
  destruct (sort_leaves leaves) as [|l r] eqn:E.
  - apply (Sum_fields [_]). split; [solve_small|]. by destruct (length leaves).
  - rewrite (mapM_result_ok _ _ _ leaf_hash_eq). cbn [mbind result_bind].
    assert (length leaves = length (MLeaf <$> (l :: r))) as -> by (by rewrite length_fmap, <- E, (sort_leaves_perm leaves)).
    destruct (tree_loop_Some (length (MLeaf <$> (l :: r))) (MLeaf <$> (l :: r))) as (t & -> & _ & Hl); [done|lia|].
    rewrite (length_fmap MLeaf) in Hl. rewrite length_fmap. rewrite <- list_fmap_compose in Hl. exact Hl.
Qed.

Lemma MerkleRoot_dup leaves :
  ¬ NoDup (l_Record <$> leaves) → MerkleRoot leaves = Err [ErrDuplicateLeaf].
Proof.
  intros Hnd. unfold MerkleRoot. fold (sort_leaves leaves).
  destruct (adjacent_dup _) eqn:E; [done|]. by apply sort_leaves_dup in E.
Qed.

Lemma MerkleRoot_Ok leaves r :
  MerkleRoot leaves = Ok r ↔ NoDup (l_Record <$> leaves) ∧ r = root_of leaves.
Proof.
  destruct (decide (NoDup (l_Record <$> leaves))) as [Hd|Hd].
  - rewrite MerkleRoot_total by done. naive_solver.
  - rewrite MerkleRoot_dup by done. naive_solver.
Qed.

(** What a leaf's hash covers; the [Deleted] flag is covered through the digest. *)
Definition leaf_hashed (l : Leaf) : ID * Z * hash := (l_Record l, l_Version l, l_Digest l).

(** Trees with one hash have the same leaves, if the hash does not collide on their strings. *)
Lemma tree_hash_inj t1 t2 :
  Forall (λ l, u64 (l_Version l)) (tree_leaves t1) → Forall (λ l, u64 (l_Version l)) (tree_leaves t2) →
  collision_free (λ x, x ∈ tree_inputs t1 ∨ x ∈ tree_inputs t2) →
  tree_hash t1 = tree_hash t2 → leaf_hashed <$> tree_leaves t1 = leaf_hashed <$> tree_leaves t2.
Proof.
  revert t2. induction t1 as [l1|a1 IHa b1 IHb]; intros [l2|a2 b2] W1 W2 Hc E; cbn in *.
  - apply Hc in E; [|set_solver..]. unfold leaf_input in E. apply frames_inj in E; [|solve_small..].
    rewrite Forall_singleton in W1, W2. field_inj. unfold leaf_hashed. congruence.
  - apply Hc in E; [|set_solver..]. apply frames_inj in E; [|solve_small..]. by field_inj.
  - apply Hc in E; [|set_solver..]. apply frames_inj in E; [|solve_small..]. by field_inj.
  - apply Hc in E; [|set_solver..]. apply frames_inj in E; [|solve_small..]. field_inj.
    apply Forall_app in W1 as [??], W2 as [??]. rewrite !fmap_app. f_equal.
    + apply IHa; try done. intros x y Hx Hy. apply Hc; set_solver.
    + apply IHb; try done. intros x y Hx Hy. apply Hc; set_solver.
Qed.

Lemma empty_input_tree t : empty_input ∉ tree_inputs t.
Proof.
  induction t as [l|a IHa b IHb]; cbn.
  - intros Hin%list_elem_of_singleton. unfold empty_input, leaf_input in Hin.
    apply frames_inj in Hin; [by field_inj|solve_small..].
  - intros [Hin|[?|?]%elem_of_app]%elem_of_cons; [|done..]. unfold empty_input, node_input in Hin.
    apply frames_inj in Hin; [by field_inj|solve_small..].
Qed.

Lemma tree_hash_input t : ∃ x, x ∈ tree_inputs t ∧ tree_hash t = sha256 x.
Proof. destruct t; cbn; eexists; (split; [left|done]). Qed.

Lemma root_of_inj l1 l2 :
  Forall (λ l, u64 (l_Version l)) l1 → Forall (λ l, u64 (l_Version l)) l2 →
  collision_free (λ x, x ∈ merkle_inputs l1 ∨ x ∈ merkle_inputs l2) →
  root_of l1 = root_of l2 → leaf_hashed <$> sort_leaves l1 = leaf_hashed <$> sort_leaves l2.
Proof.
  intros W1 W2 Hc E. pose proof (merkle_tree_leaves l1) as T1. pose proof (merkle_tree_leaves l2) as T2.
  unfold root_of, merkle_inputs in *.
  rewrite <- (sort_leaves_perm l1) in W1. rewrite <- (sort_leaves_perm l2) in W2.
  destruct (merkle_tree l1) as [t1|], (merkle_tree l2) as [t2|].
  - rewrite <- T1, <- T2 in *. by apply tree_hash_inj.
  - destruct (tree_hash_input t1) as (x & Hx & Hh). rewrite Hh in E. apply Hc in E; [|set_solver..].
    subst x. by apply empty_input_tree in Hx.
  - destruct (tree_hash_input t2) as (x & Hx & Hh). rewrite Hh in E. apply Hc in E; [|set_solver..].
    subst x. by apply empty_input_tree in Hx.
  - by rewrite T1, T2.
Qed.

(** The root depends on the state and not on the order it is held in, and is refused exactly
    when a record appears twice. *)
Theorem MerkleRoot_order (l1 l2 : list Leaf) :
  l1 ≡ₚ l2 → MerkleRoot l1 = MerkleRoot l2 ∧ (is_ok (MerkleRoot l1) = true ↔ NoDup (l_Record <$> l1)).
Proof.
  intros Hp. destruct (decide (NoDup (l_Record <$> l1))) as [Hd|Hd].
  - rewrite MerkleRoot_total by done. split; [|done]. symmetry. apply MerkleRoot_Ok.
    split; [by rewrite <- Hp|]. unfold root_of, merkle_tree.
    by rewrite (sort_leaves_unique l1 l2), Hp by done.
  - rewrite MerkleRoot_dup by done. split; [|naive_solver]. symmetry. apply MerkleRoot_dup. by rewrite <- Hp.
Qed.

(** The root binds the state: if two states have one root, they hold the same records at the
    same versions with the same digests - provided SHA-256 does not collide among the strings hashed
    while computing the two roots. *)
Theorem MerkleRoot_binds (l1 l2 : list Leaf) (r : hash) :
  Forall (λ l, u64 (l_Version l)) l1 → Forall (λ l, u64 (l_Version l)) l2 →
  MerkleRoot l1 = Ok r → MerkleRoot l2 = Ok r →
  collision_free (λ x, x ∈ merkle_inputs l1 ∨ x ∈ merkle_inputs l2) →
  leaf_hashed <$> l1 ≡ₚ leaf_hashed <$> l2.
Proof.
  intros W1 W2 [_ ->]%MerkleRoot_Ok [_ E]%MerkleRoot_Ok Hc.
  rewrite <- (sort_leaves_perm l1), <- (sort_leaves_perm l2). by rewrite (root_of_inj l1 l2).
Qed.

End merkle.

(** ** Examples *)

#[local] Existing Instance demo_crypto.

Definition demo_leaf (n : Z) : Leaf :=
  {| l_Record := demo_id n; l_Version := n; l_Digest := demo_hash n; l_Deleted := false |}.
Definition demo_leaves : list Leaf := [demo_leaf 3; demo_leaf 1; demo_leaf 2].

Lemma MerkleRoot_order_witness :
  MerkleRoot demo_leaves = MerkleRoot (rev demo_leaves) ∧
  (is_ok (MerkleRoot demo_leaves) = true ↔ NoDup (l_Record <$> demo_leaves)).
Proof. apply (MerkleRoot_order demo_leaves (rev demo_leaves)). apply Permutation.Permutation_rev. Defined.

Lemma MerkleRoot_binds_witness :
  leaf_hashed <$> demo_leaves ≡ₚ leaf_hashed <$> rev demo_leaves.
Proof.
  apply (MerkleRoot_binds demo_leaves (rev demo_leaves) (root_of demo_leaves)).
  - repeat constructor; cbn; solve_uint.
  - repeat constructor; cbn; solve_uint.
  - vm_compute. reflexivity.
  - vm_compute. reflexivity.
  - apply (collision_free_list _ (merkle_inputs demo_leaves)).
    + assert (merkle_inputs (rev demo_leaves) = merkle_inputs demo_leaves) as -> by (vm_compute; reflexivity).
      intros x [Hx|Hx]; exact Hx.
    + vm_compute. reflexivity.
Defined.
