(* ===== verification/HashChain.v ===== *)
(** * HashChain: what a hash-linked log promises

    The vault head chain, the device log and the membership log share one shape: an entry names the
    hash of the state it extends, and the state after it has the hash of the entry. [HashChain] is
    that contract; [chain_unique], proved against it alone, is the tamper evidence all three give. *)

From S2P Require Import Prelude Bytes SyncBase Canon.

Class HashChain `{Crypto} (S E : Type) := {
  hc_step : S → E → result error S;
  hc_hash : S → hash;
  hc_prev : E → hash;
  (** the string hashed for an entry, and the ranges its Go fields have *)
  hc_input : E → bytes;
  hc_wf : E → Prop;
  (** entries an accepted step may have: every field of its encoding fits *)
  hc_sized : E → Prop;
  hc_link s e s' :
    hc_step s e = Ok s' → hc_sized e ∧ hc_prev e = hc_hash s ∧ hc_hash s' = sha256 (hc_input e);
  hc_input_prev e1 e2 :
    hc_wf e1 → hc_wf e2 → hc_sized e1 → hc_sized e2 → hc_input e1 = hc_input e2 → hc_prev e1 = hc_prev e2;
}.

Section chain.
Context {CR : Crypto} {St En : Type} {HC : HashChain St En}.

Definition hc_replay (s : St) (es : list En) : result error St := foldM hc_step s es.

Lemma hc_replay_sized s es s' : hc_replay s es = Ok s' → Forall hc_sized es.
Proof.
  revert s. induction es as [|e es IH]; intros s Hr; [constructor|].
  unfold hc_replay in *. cbn in Hr. destruct (hc_step s e) as [s1|] eqn:E1; [|done].
  apply hc_link in E1 as (?&?&?). constructor; eauto.
Qed.

(** Two logs that end in one hash were made of entries with pairwise equal hashed strings, from one
    start - provided the hash does not collide among the strings the two replays hashed, and no
    entry's string is a start's string. *)
Lemma chain_unique (s1 s2 t1 t2 : St) (es1 es2 : list En) (g1 g2 : bytes) :
  hc_hash s1 = sha256 g1 → hc_hash s2 = sha256 g2 →
  hc_replay s1 es1 = Ok t1 → hc_replay s2 es2 = Ok t2 → hc_hash t1 = hc_hash t2 →
  Forall hc_wf es1 → Forall hc_wf es2 →
  (∀ e, e ∈ es1 ++ es2 → hc_input e ≠ g1 ∧ hc_input e ≠ g2) →
  collision_free (λ x, x = g1 ∨ x = g2 ∨ x ∈ hc_input <$> es1 ++ es2) →
  g1 = g2 ∧ Forall2 (λ e1 e2, hc_input e1 = hc_input e2) es1 es2.
Proof.
  unfold hc_replay. intros Hg1 Hg2. revert es2 t1 t2.
  induction es1 as [|e1 es1 IH] using rev_ind; intros es2 t1 t2 R1 R2 Ht W1 W2 Hg Hc;
    destruct es2 as [|e2 es2 _] using rev_ind.
  - cbn in R1, R2. ok_inv. split; [|constructor]. apply Hc; [auto..|]. by rewrite <- Hg1, <- Hg2.
  - cbn in R1. ok_inv. apply foldM_snoc_Ok in R2 as (u2 & R2 & (?&?&Hh)%hc_link).
    exfalso. apply (proj1 (Hg e2 ltac:(rewrite !elem_of_app, list_elem_of_singleton; auto))). apply Hc; [|auto|by rewrite <- Hh, <- Ht].
    right; right. apply list_elem_of_fmap_2. by rewrite !elem_of_app, list_elem_of_singleton; auto.
  - cbn in R2. ok_inv. apply foldM_snoc_Ok in R1 as (u1 & R1 & (?&?&Hh)%hc_link).
    exfalso. apply (proj2 (Hg e1 ltac:(rewrite !elem_of_app, list_elem_of_singleton; auto))). apply Hc; [|auto|by rewrite <- Hh, Ht].
    right; right. apply list_elem_of_fmap_2. by rewrite !elem_of_app, list_elem_of_singleton; auto.
  - apply foldM_snoc_Ok in R1 as (u1 & R1 & (Z1&P1&Hh1)%hc_link).
    apply foldM_snoc_Ok in R2 as (u2 & R2 & (Z2&P2&Hh2)%hc_link).
    apply Forall_app in W1 as [W1 [w1 _]%Forall_cons], W2 as [W2 [w2 _]%Forall_cons].
    assert (hc_input e1 = hc_input e2) as Ei.
    { apply Hc; [right; right; apply list_elem_of_fmap_2; rewrite !elem_of_app, !list_elem_of_singleton; tauto..|].
      by rewrite <- Hh1, <- Hh2. }
    assert (hc_prev e1 = hc_prev e2) as Ep by by apply hc_input_prev.
    destruct (IH es2 u1 u2) as [? HF]; [done..|by rewrite <- P1, <- P2|done|done| | |].
    + intros e He. apply Hg. rewrite !elem_of_app in *. tauto.
    + revert Hc. apply collision_free_weaken. intros x. rewrite !fmap_app, !elem_of_app. tauto.
    + split; [done|]. apply Forall2_app; [done|]. by constructor.
Qed.

End chain.
