(* ===== verification/Head.v ===== *)
(** * Head: the signed head chain of a vault

    [internal/domain/vaultsync/head.go]. *)

From S2P Require Import Prelude Bytes SyncBase Canon Sha2 HashChain.

Record Head := {
  h_Vault : ID;
  h_Seq : Z;                  (* uint64 *)
  h_PrevHash : hash;
  h_MerkleRoot : hash;
  h_CurrentEpoch : Z;         (* uint32 *)
  h_MembershipSeq : Z;        (* uint64 *)
  h_MembershipHead : hash;
  h_Commit : ID;
  h_Author : ID;
  h_ClientTimeUnixMilli : Z;  (* uint64 *)
  h_SigAlg : Z;               (* uint16 *)
  h_Sig : bytes;
}.

Definition Head_SigningBytes (h : Head) : result error bytes :=
  NewCanon LabelHeadSig |> Canon_ID (h_Vault h) |> Canon_U64 (h_Seq h) |> Canon_Hash (h_PrevHash h)
    |> Canon_Hash (h_MerkleRoot h) |> Canon_U32 (h_CurrentEpoch h) |> Canon_U64 (h_MembershipSeq h)
    |> Canon_Hash (h_MembershipHead h) |> Canon_ID (h_Commit h) |> Canon_ID (h_Author h)
    |> Canon_U64 (h_ClientTimeUnixMilli h) |> Canon_U16 (h_SigAlg h) |> Encoded.

Definition Head_Hash `{Crypto} (h : Head) : result error hash :=
  msg ← Head_SigningBytes h;
  NewCanon LabelHeadHash |> Canon_Bytes msg |> Canon_Bytes (h_Sig h) |> Sum.

Definition Head_Verify `{Crypto} (publicKey : bytes) (h : Head) : result error unit :=
  msg ← Head_SigningBytes h;
  VerifySignature (h_SigAlg h) publicKey msg (h_Sig h).

Record ChainCursor := {
  cur_Seq : Z;
  cur_Hash : hash;
  cur_MembershipSeq : Z;
}.

#[export] Instance ChainCursor_eq_dec : EqDecision ChainCursor.
Proof. solve_decision. Defined.

Definition GenesisCursor `{Crypto} (vault : ID) : result error ChainCursor :=
  h ← (NewCanon LabelHeadHash |> Canon_ID vault |> Sum);
  Ok {| cur_Seq := 0; cur_Hash := h; cur_MembershipSeq := 0 |}.

Definition VerifyLink (cur : ChainCursor) (next : Head) : result error unit :=
  fail_if negb (h_Seq next =? wrap64 (cur_Seq cur + 1)) with [ErrChainBroken] ;;
  fail_if h_PrevHash next <>? cur_Hash cur with [ErrChainBroken] ;;
  fail_if h_MembershipSeq next <? cur_MembershipSeq cur with [ErrMembershipRegressed] ;;
  Ok ().

Definition Advance `{Crypto} (c : ChainCursor) (next : Head) : result error ChainCursor :=
  _ ← VerifyLink c next;
  h ← Head_Hash next;
  Ok {| cur_Seq := h_Seq next; cur_Hash := h; cur_MembershipSeq := h_MembershipSeq next |}.

Definition AdvanceAll `{Crypto} (c : ChainCursor) (heads : list Head) : result error ChainCursor :=
  foldM Advance c heads.

Definition CheckObserved (cur : ChainCursor) (seq : Z) (h : hash) : result error unit :=
  fail_if seq <? cur_Seq cur with [ErrRollback] ;;
  fail_if (seq =? cur_Seq cur) && (h <>? cur_Hash cur) with [ErrFork] ;;
  Ok ().

(** ** Encodings *)

Definition Head_wf (h : Head) : Prop :=
  u64 (h_Seq h) ∧ u32 (h_CurrentEpoch h) ∧ u64 (h_MembershipSeq h) ∧ u64 (h_ClientTimeUnixMilli h) ∧ u16 (h_SigAlg h).

Definition head_fields (h : Head) : list bytes :=
  [bytes_of_string LabelHeadSig; vec_to_list (h_Vault h); be_bytes 8 (h_Seq h); vec_to_list (h_PrevHash h);
   vec_to_list (h_MerkleRoot h); be_bytes 4 (h_CurrentEpoch h); be_bytes 8 (h_MembershipSeq h);
   vec_to_list (h_MembershipHead h); vec_to_list (h_Commit h); vec_to_list (h_Author h);
   be_bytes 8 (h_ClientTimeUnixMilli h); be_bytes 2 (h_SigAlg h)].

Definition head_input (h : Head) : bytes :=
  frames [bytes_of_string LabelHeadHash; frames (head_fields h); h_Sig h].
Definition genesis_input (vault : ID) : bytes :=
  frames [bytes_of_string LabelHeadHash; vec_to_list vault].
#[global] Arguments head_input : simpl never.
#[global] Arguments genesis_input : simpl never.

Lemma head_fields_small h : Forall field_small (head_fields h).
Proof. unfold head_fields. solve_small. Qed.

Lemma Head_SigningBytes_eq h : Head_SigningBytes h = Ok (frames (head_fields h)).
Proof.
  transitivity (Encoded (fields_canon (head_fields h))).
  - unfold Head_SigningBytes, head_fields. canon_fields.
  - apply fields_ok, head_fields_small.
Qed.

Lemma head_fields_inj h h' :
  Head_wf h → Head_wf h' → head_fields h = head_fields h' → h_Sig h = h_Sig h' → h = h'.
Proof.
  intros (?&?&?&?&?) (?&?&?&?&?) Hf Hs. unfold head_fields in Hf. field_inj.
  destruct h, h'; cbn in *; congruence.
Qed.

(** The encodings of a head are 268 bytes and more, far below the 4 GiB a field may have. *)
Lemma head_msg_small h : field_small (frames (head_fields h)).
Proof.
  unfold field_small, head_fields, frames, frame. cbn [fmap list_fmap concat].
  rewrite !length_app, !length_be_bytes, !length_vec_to_list.
  assert (length (bytes_of_string LabelHeadSig) = 20%nat) as -> by by vm_compute.
  unfold MaxUint32. cbn. lia.
Qed.

Lemma Head_Hash_Ok `{Crypto} h d :
  Head_Hash h = Ok d ↔ field_small (h_Sig h) ∧ d = sha256 (head_input h).
Proof.
  unfold Head_Hash. rewrite Head_SigningBytes_eq. cbn [mbind result_bind].
  assert (NewCanon LabelHeadHash |> Canon_Bytes (frames (head_fields h)) |> Canon_Bytes (h_Sig h) =
    fields_canon [bytes_of_string LabelHeadHash; frames (head_fields h); h_Sig h]) as -> by canon_fields.
  unfold head_input. rewrite Sum_fields, !Forall_cons. pose proof (head_msg_small h).
  assert (field_small (bytes_of_string LabelHeadHash)) by solve_small.
  split; [naive_solver|]. intros [? ->]. repeat split; done || constructor.
Qed.

Lemma head_input_inj h h' :
  Head_wf h → Head_wf h' → field_small (h_Sig h) → field_small (h_Sig h') →
  head_input h = head_input h' → h = h'.
Proof.
  intros ?? ?? E. pose proof (head_msg_small h). pose proof (head_msg_small h').
  unfold head_input in E. apply frames_inj in E; [|solve_small..]. field_inj.
  apply head_fields_inj; [done..| |done]. apply frames_inj; [apply head_fields_small..|done].
Qed.

Definition genesis_cursor `{Crypto} (v : ID) : ChainCursor :=
  {| cur_Seq := 0; cur_Hash := sha256 (genesis_input v); cur_MembershipSeq := 0 |}.

Lemma GenesisCursor_eq `{Crypto} v : GenesisCursor v = Ok (genesis_cursor v).
Proof.
  unfold GenesisCursor, genesis_cursor, genesis_input.
  assert (∀ c, c = fields_canon [bytes_of_string LabelHeadHash; vec_to_list v] →
    Sum c = Ok (sha256 (frames [bytes_of_string LabelHeadHash; vec_to_list v]))) as E.
  { intros ? ->. apply Sum_fields. split; [solve_small|done]. }
  rewrite E; [done|]. canon_fields.
Qed.

Lemma genesis_not_head v h : field_small (h_Sig h) → head_input h ≠ genesis_input v.
Proof.
  intros Hs E. pose proof (head_msg_small h). unfold head_input, genesis_input in E.
  apply frames_inj in E; [|solve_small..]. by field_inj.
Qed.

Lemma VerifyLink_Ok c h :
  VerifyLink c h = Ok () ↔
  h_Seq h = wrap64 (cur_Seq c + 1) ∧ h_PrevHash h = cur_Hash c ∧ cur_MembershipSeq c ≤ h_MembershipSeq h.
Proof.
  unfold VerifyLink. split.
  - intros Hv. ok_inv. rewrite Z.eqb_eq in *. split_and!; [done|done|lia].
  - intros (-> & -> & ?). rewrite Z.eqb_refl, bool_decide_eq_true_2 by done. cbn.
    destruct (Z.ltb_spec (h_MembershipSeq h) (cur_MembershipSeq c)); [lia|done].
Qed.

Lemma Advance_Ok `{Crypto} c h c' :
  Advance c h = Ok c' ↔
  VerifyLink c h = Ok () ∧ field_small (h_Sig h) ∧
  c' = {| cur_Seq := h_Seq h; cur_Hash := sha256 (head_input h); cur_MembershipSeq := h_MembershipSeq h |}.
Proof.
  unfold Advance. split.
  - intros Ha. ok_inv. destruct x.
    match goal with Hh : Head_Hash h = Ok _ |- _ => apply Head_Hash_Ok in Hh as [? ->] end. done.
  - intros (-> & Hs & ->). assert (Head_Hash h = Ok (sha256 (head_input h))) as E by by apply Head_Hash_Ok.
    by rewrite E, bind_ok_l.
Qed.

#[export] Program Instance head_chain `{Crypto} : HashChain ChainCursor Head := {|
  hc_step := Advance;
  hc_hash := cur_Hash;
  hc_prev := h_PrevHash;
  hc_input := head_input;
  hc_wf := Head_wf;
  hc_sized := λ h, field_small (h_Sig h);
|}.
Next Obligation. intros ? s e s' (Hl & ? & ->)%Advance_Ok. apply VerifyLink_Ok in Hl as (?&?&?). done. Qed.
Next Obligation. intros ? e1 e2 ?? ?? E. by rewrite (head_input_inj e1 e2). Qed.

(** ** What the chain guarantees *)

Lemma AdvanceAll_seq `{Crypto} c hs c' :
  AdvanceAll c hs = Ok c' → cur_Seq c + len hs ≤ MaxUint64 → u64 (cur_Seq c) →
  cur_Seq c' = cur_Seq c + len hs ∧ cur_MembershipSeq c ≤ cur_MembershipSeq c'.
Proof.
  unfold AdvanceAll. revert c. induction hs as [|h hs IH]; intros c Ha Hb Hu.
  - cbn in Ha. ok_inv. cbn. lia.
  - cbn [foldM length] in *. destruct (Advance c h) as [c1|] eqn:E; [|done].
    apply Advance_Ok in E as ((?&?&?)%VerifyLink_Ok & ? & ->). rewrite wrap64_succ in * by solve_uint.
    apply IH in Ha as [Hs Hm]; cbn in *; [lia|lia|solve_uint].
Qed.

(** A client that walked two head lists, each from its own vault's genesis position, to one
    cursor hash walked the same heads of the same vault, signatures included: the server cannot show
    two histories that end alike. The hash must not collide among the strings the walks hashed. *)
Theorem head_chain_unique `{Crypto} (v1 v2 : ID) (g1 g2 c1 c2 : ChainCursor) (hs1 hs2 : list Head) :
  GenesisCursor v1 = Ok g1 → GenesisCursor v2 = Ok g2 →
  AdvanceAll g1 hs1 = Ok c1 → AdvanceAll g2 hs2 = Ok c2 → cur_Hash c1 = cur_Hash c2 →
  Forall Head_wf hs1 → Forall Head_wf hs2 →
  collision_free (λ x, x = genesis_input v1 ∨ x = genesis_input v2 ∨ x ∈ head_input <$> hs1 ++ hs2) →
  v1 = v2 ∧ hs1 = hs2.
Proof.
  rewrite !GenesisCursor_eq. intros <-%Ok_inj <-%Ok_inj A1 A2 Hh W1 W2 Hc.
  pose proof (hc_replay_sized _ _ _ A1) as Z1. pose proof (hc_replay_sized _ _ _ A2) as Z2. cbn in Z1, Z2.
  destruct (chain_unique (HC := head_chain) (genesis_cursor v1) (genesis_cursor v2) _ _ hs1 hs2 (genesis_input v1) (genesis_input v2) eq_refl eq_refl A1 A2 Hh W1 W2)
    as [Hg HF]; [|exact Hc|].
  - rewrite Forall_forall in Z1, Z2.
    intros h [Hin|Hin]%elem_of_app; split; apply genesis_not_head; auto.
  - unfold genesis_input in Hg. apply frames_inj in Hg; [|solve_small..]. field_inj. split; [done|].
    cbn [hc_input head_chain] in HF. clear -HF W1 W2 Z1 Z2.
    induction HF as [|h1 h2 hs1 hs2 E HF IH]; [done|].
    apply Forall_cons in W1 as [??], W2 as [??], Z1 as [??], Z2 as [??].
    f_equal; [by apply head_input_inj|by apply IH].
Qed.

(** Against a verified cursor a claimed position is accepted exactly when it is ahead, or is
    the same position with the same hash; an older one is a rollback, a different hash at the same
    position a fork, and both are integrity errors. *)
Theorem CheckObserved_spec (cur : ChainCursor) (seq : Z) (h : hash) :
  (CheckObserved cur seq h = Ok () ↔ cur_Seq cur < seq ∨ (seq = cur_Seq cur ∧ h = cur_Hash cur)) ∧
  (CheckObserved cur seq h = Err [ErrRollback] ↔ seq < cur_Seq cur) ∧
  (CheckObserved cur seq h = Err [ErrFork] ↔ seq = cur_Seq cur ∧ h ≠ cur_Hash cur) ∧
  (∀ e, CheckObserved cur seq h = Err e → errors_Is e ErrIntegrity = true).
Proof.
  unfold CheckObserved. destruct (Z.ltb_spec seq (cur_Seq cur)).
  - split_and!; try (split; [naive_solver lia|naive_solver lia]); naive_solver.
  - destruct (Z.eqb_spec seq (cur_Seq cur)); [destruct (decide (h = cur_Hash cur))|].
    + rewrite bool_decide_eq_true_2 by done. cbn. split_and!; naive_solver lia.
    + rewrite bool_decide_eq_false_2 by done. cbn. split_and!; naive_solver lia.
    + cbn. split_and!; naive_solver lia.
Qed.

(** The head chain only moves forward by one: walking n heads advances the position by n and
    never lowers the membership position. *)
Theorem AdvanceAll_forward `{Crypto} (v : ID) (g c : ChainCursor) (hs : list Head) :
  GenesisCursor v = Ok g → AdvanceAll g hs = Ok c → len hs ≤ MaxUint64 →
  cur_Seq c = len hs ∧ (∀ i h, hs !! i = Some h → h_Seq h = Z.of_nat i + 1 ∧ h_MembershipSeq h ≤ cur_MembershipSeq c).
Proof.
  rewrite GenesisCursor_eq. intros <-%Ok_inj Ha Hl.
  pose proof (AdvanceAll_seq _ _ _ Ha) as HS. cbn in HS. split; [apply HS; solve_uint|].
  intros i h Hi. apply list_elem_of_split_length in Hi as (l1 & l2 & -> & ->).
  rewrite length_app in Hl. cbn in Hl. unfold AdvanceAll in Ha.
  rewrite foldM_app in Ha. apply bind_Ok in Ha as (c1 & H1 & Ha). cbn [foldM] in Ha.
  destruct (Advance c1 h) as [c2|] eqn:E; [|done].
  apply AdvanceAll_seq in H1 as [H1 _]; cbn; [|solve_uint..]. cbn in H1.
  apply Advance_Ok in E as ((?&?&?)%VerifyLink_Ok & ? & ->). rewrite wrap64_succ in * by solve_uint.
  apply AdvanceAll_seq in Ha; cbn in *; [split; [lia|lia]|solve_uint..].
Qed.

(** ** Examples *)

#[local] Existing Instance demo_crypto.

Definition demo_vault : ID := demo_id 7.
Definition demo_head (seq : Z) (prev root : hash) (author : ID) : Head := {|
  h_Vault := demo_vault; h_Seq := seq; h_PrevHash := prev; h_MerkleRoot := root; h_CurrentEpoch := 0;
  h_MembershipSeq := 1; h_MembershipHead := demo_hash 1; h_Commit := demo_id seq; h_Author := author;
  h_ClientTimeUnixMilli := 1000 + seq; h_SigAlg := SigEd25519; h_Sig := zeros 64 |}.
Definition demo_heads : list Head :=
  let h1 := demo_head 1 (sha256 (genesis_input demo_vault)) (demo_hash 2) (demo_id 9) in
  let h2 := demo_head 2 (sha256 (head_input h1)) (demo_hash 3) (demo_id 9) in
  [h1; h2].
Definition demo_cursor : ChainCursor :=
  {| cur_Seq := 2; cur_Hash := default (demo_hash 0) (sha256 ∘ head_input <$> last demo_heads); cur_MembershipSeq := 1 |}.

Lemma demo_heads_wf : Forall Head_wf demo_heads.
Proof. repeat apply Forall_cons_2; [..|apply Forall_nil_2]; unfold Head_wf, u64, u32, u16; vm_compute; repeat split; intros [=]. Qed.

Lemma head_chain_unique_witness :
  demo_vault = demo_vault ∧ demo_heads = demo_heads.
Proof.
  apply (head_chain_unique demo_vault demo_vault (genesis_cursor demo_vault) (genesis_cursor demo_vault)
           demo_cursor demo_cursor demo_heads demo_heads).
  - apply GenesisCursor_eq.
  - apply GenesisCursor_eq.
  - vm_compute. reflexivity.
  - vm_compute. reflexivity.
  - reflexivity.
  - apply demo_heads_wf.
  - apply demo_heads_wf.
  - apply (collision_free_list _ (genesis_input demo_vault :: (head_input <$> demo_heads))).
    + intros x [->|[->|Hx]]; [left|left|]. right. rewrite fmap_app in Hx. by apply elem_of_app in Hx as [?|?].
    + vm_compute. reflexivity.
Defined.

Lemma AdvanceAll_forward_witness :
  cur_Seq demo_cursor = len demo_heads ∧
  (∀ i h, demo_heads !! i = Some h → h_Seq h = Z.of_nat i + 1 ∧ h_MembershipSeq h ≤ cur_MembershipSeq demo_cursor).
Proof.
  apply (AdvanceAll_forward demo_vault (genesis_cursor demo_vault) demo_cursor demo_heads).
  - apply GenesisCursor_eq.
  - vm_compute. reflexivity.
  - vm_compute. intros [=].
Defined.
