(* ===== verification/DeviceLog.v ===== *)
(** * DeviceLog: an account's device log

    [internal/domain/vaultsync]: [devicelog_entry.go] and [devicelog_state.go]. [DeviceLogState_Apply]
    writes through its receiver, so it is an [ST] computation: a write made before an error would
    show in the state it returns. *)

From S2P Require Import Prelude Bytes GoText SyncBase Canon Sha2 HashChain.

(** ** Entries *)

Definition OpAddDevice : Z := 1.
Definition OpRevokeDevice : Z := 2.
Definition OpSuccession : Z := 3.

Definition maxDeviceNameBytes : Z := 64.
Definition maxDevicePlatformBytes : Z := 32.

Record DeviceCert := {
  dc_Device : ID;
  dc_SigningKey : bytes;
  dc_Name : bytes;
  dc_Platform : bytes;
  dc_CreatedUnixMilli : Z;    (* uint64 *)
}.

Record DeviceEntry := {
  de_Account : ID;
  de_Seq : Z;                 (* uint64 *)
  de_Prev : hash;
  de_Op : Z;                  (* uint8 *)
  de_Cert : option DeviceCert;
  de_Revoked : ID;
  de_NewSuite : Z;            (* uint16 *)
  de_NewIdentityKey : bytes;
  de_NewEncryptionKey : bytes;
  de_SigAlg : Z;              (* uint16 *)
  de_Sig : bytes;
  de_SuccessorSig : bytes;
}.

Definition DeviceEntry_SigningBytes (e : DeviceEntry) : result error bytes :=
  let c := NewCanon LabelDeviceSig |> Canon_ID (de_Account e) |> Canon_U64 (de_Seq e) |> Canon_Hash (de_Prev e)
             |> Canon_U16 (de_Op e) in
  let c := c |> Canon_Bool (bool_decide (is_Some (de_Cert e))) in
  let c := match de_Cert e with
           | None => c
           | Some ct => c |> Canon_ID (dc_Device ct) |> Canon_Bytes (dc_SigningKey ct) |> Canon_Bytes (dc_Name ct)
                          |> Canon_Bytes (dc_Platform ct) |> Canon_U64 (dc_CreatedUnixMilli ct)
           end in
  let c := c |> Canon_ID (de_Revoked e) |> Canon_U16 (de_NewSuite e) |> Canon_Bytes (de_NewIdentityKey e)
             |> Canon_Bytes (de_NewEncryptionKey e) |> Canon_U16 (de_SigAlg e) in
  Encoded c.

Definition DeviceEntry_hash `{Crypto} (e : DeviceEntry) (msg : bytes) : result error hash :=
  NewCanon LabelDeviceHash |> Canon_Bytes msg |> Canon_Bytes (de_Sig e) |> Canon_Bytes (de_SuccessorSig e) |> Sum.

Definition validateCert (c : option DeviceCert) (signingKeySize : Z) : result error DeviceCert :=
  match c with
  | None => Err [ErrDeviceLog]
  | Some c =>
      fail_if ID_IsZero (dc_Device c) with [ErrDeviceLog] ;;
      fail_if negb (len (dc_SigningKey c) =? signingKeySize) with [ErrDeviceLog] ;;
      fail_if (maxDeviceNameBytes <? len (dc_Name c)) || negb (utf8_ValidString (dc_Name c)) with [ErrDeviceLog] ;;
      fail_if (maxDevicePlatformBytes <? len (dc_Platform c)) || negb (utf8_ValidString (dc_Platform c))
        with [ErrDeviceLog] ;;
      Ok c
  end.

(** ** State *)

Record deviceStatus := { st_cert : DeviceCert; st_revoked : bool }.

Record DeviceLogState := {
  ds_account : ID;
  ds_params : SuiteParams;
  ds_identityKey : bytes;
  ds_encryptionKey : bytes;
  ds_superseded : list bytes;
  ds_devices : gmap ID deviceStatus;
  ds_seq : Z;                 (* uint64 *)
  ds_hash : hash;
  ds_pendingSuccession : bool;
}.

Definition NewDeviceLogState `{Crypto} (account : ID) (suite : Z) (identityKey encryptionKey : bytes) :
    result error DeviceLogState :=
  params ← LookupSuite suite MinAcceptedSuite;
  fail_if negb (len identityKey =? sp_SigningKeySize params) || negb (len encryptionKey =? sp_EncryptionKeySize params)
    with [ErrDeviceLog] ;;
  genesis ← (NewCanon LabelDeviceHash |> Canon_ID account |> Canon_U16 suite |> Canon_Bytes identityKey
               |> Canon_Bytes encryptionKey |> Sum);
  Ok {| ds_account := account; ds_params := params; ds_identityKey := identityKey; ds_encryptionKey := encryptionKey;
        ds_superseded := []; ds_devices := ∅; ds_seq := 0; ds_hash := genesis; ds_pendingSuccession := false |}.

(** Field assignments. *)
Definition ds_set_devices (s : DeviceLogState) (d : gmap ID deviceStatus) : DeviceLogState :=
  {| ds_account := ds_account s; ds_params := ds_params s; ds_identityKey := ds_identityKey s;
     ds_encryptionKey := ds_encryptionKey s; ds_superseded := ds_superseded s; ds_devices := d;
     ds_seq := ds_seq s; ds_hash := ds_hash s; ds_pendingSuccession := ds_pendingSuccession s |}.
Definition ds_set_pending (s : DeviceLogState) (p : bool) : DeviceLogState :=
  {| ds_account := ds_account s; ds_params := ds_params s; ds_identityKey := ds_identityKey s;
     ds_encryptionKey := ds_encryptionKey s; ds_superseded := ds_superseded s; ds_devices := ds_devices s;
     ds_seq := ds_seq s; ds_hash := ds_hash s; ds_pendingSuccession := p |}.
Definition ds_set_keys (s : DeviceLogState) (sup : list bytes) (ik ek : bytes) (p : SuiteParams) : DeviceLogState :=
  {| ds_account := ds_account s; ds_params := p; ds_identityKey := ik;
     ds_encryptionKey := ek; ds_superseded := sup; ds_devices := ds_devices s;
     ds_seq := ds_seq s; ds_hash := ds_hash s; ds_pendingSuccession := ds_pendingSuccession s |}.
Definition ds_set_pos (s : DeviceLogState) (seq : Z) (h : hash) : DeviceLogState :=
  {| ds_account := ds_account s; ds_params := ds_params s; ds_identityKey := ds_identityKey s;
     ds_encryptionKey := ds_encryptionKey s; ds_superseded := ds_superseded s; ds_devices := ds_devices s;
     ds_seq := seq; ds_hash := h; ds_pendingSuccession := ds_pendingSuccession s |}.

Definition checkSignature `{Crypto} (s : DeviceLogState) (e : DeviceEntry) (msg : bytes) : result error unit :=
  match VerifySignature (de_SigAlg e) (ds_identityKey s) msg (de_Sig e) with
  | Ok _ => Ok ()
  | Err err =>
      if existsb (λ old, is_ok (VerifySignature (de_SigAlg e) old msg (de_Sig e))) (ds_superseded s)
      then Err [ErrSupersededKey]
      else Err err
  end.

Definition DM (A : Type) : Type := ST DeviceLogState error A.
#[export] Instance DM_bind : MBind DM := ST_bind.
Definition dm_fail_if (c : bool) (e : error) : DM unit := if c then st_fail e else st_lift (Ok ()).

Definition addDevice (c : option DeviceCert) : DM unit :=
  s ← st_get;
  ct ← (st_lift (validateCert c (sp_SigningKeySize (ds_params s))) : DM DeviceCert);
  _ ← dm_fail_if (bool_decide (is_Some (ds_devices s !! dc_Device ct))) [ErrDeviceLog];
  st_put (ds_set_devices s (<[dc_Device ct := {| st_cert := ct; st_revoked := false |}]> (ds_devices s))).

Definition revokeDevice (id : ID) : DM unit :=
  s ← st_get;
  match ds_devices s !! id with
  | None => st_fail [ErrDeviceLog]
  | Some st =>
      _ ← dm_fail_if (st_revoked st) [ErrDeviceLog];
      let st' := {| st_cert := st_cert st; st_revoked := true |} in
      _ ← (st_put (ds_set_devices s (<[id := st']> (ds_devices s))) : DM unit);
      s' ← st_get;
      st_put (ds_set_pending s' true)
  end.

Definition succeed `{Crypto} (e : DeviceEntry) (msg : bytes) : DM unit :=
  s ← st_get;
  match LookupSuite (de_NewSuite e) MinAcceptedSuite with
  | Err err => st_fail (ErrDeviceLog :: err)
  | Ok params =>
      _ ← dm_fail_if (negb (len (de_NewIdentityKey e) =? sp_SigningKeySize params)
                      || negb (len (de_NewEncryptionKey e) =? sp_EncryptionKeySize params)) [ErrDeviceLog];
      _ ← (st_lift (VerifySignature (de_SigAlg e) (de_NewIdentityKey e) msg (de_SuccessorSig e)) : DM unit);
      _ ← (st_put (ds_set_keys s (ds_superseded s ++ [ds_identityKey s]) (de_NewIdentityKey e)
                                 (de_NewEncryptionKey e) params) : DM unit);
      s' ← st_get;
      st_put (ds_set_pending s' false)
  end.

Definition applyOp `{Crypto} (e : DeviceEntry) (msg : bytes) : DM unit :=
  if de_Op e =? OpAddDevice then addDevice (de_Cert e)
  else if de_Op e =? OpRevokeDevice then revokeDevice (de_Revoked e)
  else if de_Op e =? OpSuccession then succeed e msg
  else st_fail [ErrDeviceLog].

Definition DeviceLogState_Apply `{Crypto} (e : DeviceEntry) : DM unit :=
  s ← st_get;
  _ ← dm_fail_if ((de_Account e <>? ds_account s) || negb (de_Seq e =? wrap64 (ds_seq s + 1))
                  || (de_Prev e <>? ds_hash s)) [ErrDeviceLog];
  msg ← (st_lift (DeviceEntry_SigningBytes e) : DM bytes);
  _ ← (st_lift (checkSignature s e msg) : DM unit);
  _ ← dm_fail_if (ds_pendingSuccession s && negb (de_Op e =? OpSuccession) && negb (de_Op e =? OpRevokeDevice))
                 [ErrSuccessionRequired];
  next ← (st_lift (DeviceEntry_hash e msg) : DM hash);
  _ ← applyOp e msg;
  s' ← st_get;
  st_put (ds_set_pos s' (de_Seq e) next).

(** ** Queries *)

Definition DeviceKey (s : DeviceLogState) (id : ID) : result error bytes :=
  match ds_devices s !! id with
  | None => Err [ErrDeviceLog]
  | Some st => Ok (dc_SigningKey (st_cert st))
  end.

Definition IsRevoked (s : DeviceLogState) (id : ID) : bool :=
  match ds_devices s !! id with None => false | Some st => st_revoked st end.

Definition Devices (s : DeviceLogState) : list ID := merge_sort ID_le ((map_to_list (ds_devices s)).*1).

Definition Certificate (s : DeviceLogState) (id : ID) : option DeviceCert := st_cert <$> ds_devices s !! id.

(** ** The accepted operations, as a relation *)

Inductive op_effect `{Crypto} (s : DeviceLogState) (e : DeviceEntry) (msg : bytes) : DeviceLogState → Prop :=
  | effect_add ct :
      de_Op e = OpAddDevice → de_Cert e = Some ct →
      validateCert (Some ct) (sp_SigningKeySize (ds_params s)) = Ok ct →
      ds_devices s !! dc_Device ct = None →
      op_effect s e msg (ds_set_devices s (<[dc_Device ct := {| st_cert := ct; st_revoked := false |}]> (ds_devices s)))
  | effect_revoke st :
      de_Op e = OpRevokeDevice → ds_devices s !! de_Revoked e = Some st → st_revoked st = false →
      op_effect s e msg
        (ds_set_pending
           (ds_set_devices s (<[de_Revoked e := {| st_cert := st_cert st; st_revoked := true |}]> (ds_devices s))) true)
  | effect_succeed :
      de_Op e = OpSuccession → de_NewSuite e = Suite1 →
      len (de_NewIdentityKey e) = 32 → len (de_NewEncryptionKey e) = 1216 →
      VerifySignature (de_SigAlg e) (de_NewIdentityKey e) msg (de_SuccessorSig e) = Ok () →
      op_effect s e msg
        (ds_set_pending (ds_set_keys s (ds_superseded s ++ [ds_identityKey s]) (de_NewIdentityKey e)
                                       (de_NewEncryptionKey e) suite1_params) false).

Section devicelog.
Context `{Crypto}.

Lemma dm_fail_if_run c e s : dm_fail_if c e s = (if c then Err e else Ok (), s).
Proof. by destruct c. Qed.

Lemma DM_bind_run {A B} (m : DM A) (f : A → DM B) s :
  (m ≫= f) s = match m s with (Ok a, s') => f a s' | (Err e, s') => (Err e, s') end.
Proof. done. Qed.

(** Runs an [ST] program one primitive at a time. *)
Ltac dm_run :=
  repeat first [ rewrite DM_bind_run | rewrite st_get_run | rewrite st_put_run | rewrite st_lift_run
               | rewrite st_fail_run | rewrite dm_fail_if_run ].

Lemma addDevice_run c s :
  addDevice c s =
  match validateCert c (sp_SigningKeySize (ds_params s)) with
  | Err er => (Err er, s)
  | Ok ct =>
      if bool_decide (is_Some (ds_devices s !! dc_Device ct)) then (Err [ErrDeviceLog], s)
      else (Ok (), ds_set_devices s (<[dc_Device ct := {| st_cert := ct; st_revoked := false |}]> (ds_devices s)))
  end.
Proof.
  unfold addDevice. dm_run. destruct (validateCert _ _); [|done]. dm_run. by destruct (bool_decide _).
Qed.

Lemma revokeDevice_run id s :
  revokeDevice id s =
  match ds_devices s !! id with
  | None => (Err [ErrDeviceLog], s)
  | Some st =>
      if st_revoked st then (Err [ErrDeviceLog], s)
      else (Ok (), ds_set_pending (ds_set_devices s (<[id := {| st_cert := st_cert st; st_revoked := true |}]> (ds_devices s))) true)
  end.
Proof. unfold revokeDevice. dm_run. destruct (_ !! id) as [st|]; [|done]. dm_run. by destruct (st_revoked st). Qed.

Lemma succeed_run e msg s :
  succeed e msg s =
  match LookupSuite (de_NewSuite e) MinAcceptedSuite with
  | Err er => (Err (ErrDeviceLog :: er), s)
  | Ok params =>
      if negb (len (de_NewIdentityKey e) =? sp_SigningKeySize params)
         || negb (len (de_NewEncryptionKey e) =? sp_EncryptionKeySize params) then (Err [ErrDeviceLog], s)
      else match VerifySignature (de_SigAlg e) (de_NewIdentityKey e) msg (de_SuccessorSig e) with
           | Err er => (Err er, s)
           | Ok _ => (Ok (), ds_set_pending (ds_set_keys s (ds_superseded s ++ [ds_identityKey s])
                               (de_NewIdentityKey e) (de_NewEncryptionKey e) params) false)
           end
  end.
Proof.
  unfold succeed. dm_run. destruct (LookupSuite _ _) as [p|]; [|done]. dm_run.
  destruct (_ || _); [done|]. dm_run. by destruct (VerifySignature _ _ _ _).
Qed.

Lemma applyOp_run e msg s :
  applyOp e msg s =
  if de_Op e =? OpAddDevice then addDevice (de_Cert e) s
  else if de_Op e =? OpRevokeDevice then revokeDevice (de_Revoked e) s
  else if de_Op e =? OpSuccession then succeed e msg s
  else (Err [ErrDeviceLog], s).
Proof. unfold applyOp. by repeat case_match. Qed.

(** Every operation validates completely before its first assignment. *)
Lemma applyOp_Err e msg s er s' : applyOp e msg s = (Err er, s') → s' = s.
Proof.
  rewrite applyOp_run, addDevice_run, revokeDevice_run, succeed_run. intros Hrun. repeat case_match; congruence.
Qed.

Lemma applyOp_Ok e msg s s' : applyOp e msg s = (Ok (), s') → op_effect s e msg s'.
Proof.
  rewrite applyOp_run, addDevice_run, revokeDevice_run, succeed_run.
  destruct (Z.eqb_spec (de_Op e) OpAddDevice); [|destruct (Z.eqb_spec (de_Op e) OpRevokeDevice);
    [|destruct (Z.eqb_spec (de_Op e) OpSuccession); [|done]]].
  - destruct (validateCert _ _) as [ct|] eqn:E; [|done]. case_bool_decide as Hn; [done|]. intros [= <-].
    assert (de_Cert e = Some ct) as Hct.
    { unfold validateCert in E. destruct (de_Cert e); [|done]. ok_inv. done. }
    rewrite Hct in E. apply effect_add; try done. by apply eq_None_not_Some.
  - destruct (_ !! de_Revoked e) as [st|] eqn:E; [|done]. destruct (st_revoked st) eqn:Er; [done|]. intros [= <-].
    by apply effect_revoke.
  - destruct (LookupSuite _ _) as [p|] eqn:E; [|done]. apply LookupSuite_Ok in E as [? ->].
    destruct (_ || _) eqn:E2; [done|]. bool_simpl. rewrite !Z.eqb_eq in *.
    destruct (VerifySignature _ _ _ _) as [[]|] eqn:E3; [|done]. intros [= <-]. by apply effect_succeed.
Qed.

(** ** One entry *)

Definition entry_fields (e : DeviceEntry) : list bytes :=
  [bytes_of_string LabelDeviceSig; vec_to_list (de_Account e); be_bytes 8 (de_Seq e); vec_to_list (de_Prev e);
   be_bytes 2 (de_Op e); bool_field (bool_decide (is_Some (de_Cert e)))] ++
  match de_Cert e with
  | None => []
  | Some ct => [vec_to_list (dc_Device ct); dc_SigningKey ct; dc_Name ct; dc_Platform ct; be_bytes 8 (dc_CreatedUnixMilli ct)]
  end ++
  [vec_to_list (de_Revoked e); be_bytes 2 (de_NewSuite e); de_NewIdentityKey e; de_NewEncryptionKey e; be_bytes 2 (de_SigAlg e)].

Lemma DeviceEntry_SigningBytes_fields e :
  DeviceEntry_SigningBytes e = Encoded (fields_canon (entry_fields e)).
Proof.
  unfold DeviceEntry_SigningBytes, entry_fields.
  destruct (de_Cert e) as [ct|]; cbn [app]; canon_fields.
Qed.

Definition entry_hash_fields (e : DeviceEntry) : list bytes :=
  [bytes_of_string LabelDeviceHash; frames (entry_fields e); de_Sig e; de_SuccessorSig e].
Definition entry_input (e : DeviceEntry) : bytes := frames (entry_hash_fields e).
Definition entry_sized (e : DeviceEntry) : Prop :=
  Forall field_small (entry_fields e) ∧ Forall field_small (entry_hash_fields e).
Definition DeviceEntry_wf (e : DeviceEntry) : Prop :=
  u64 (de_Seq e) ∧ u8 (de_Op e) ∧ u16 (de_NewSuite e) ∧ u16 (de_SigAlg e) ∧
  match de_Cert e with None => True | Some ct => u64 (dc_CreatedUnixMilli ct) end.

(** Everything but the two signatures is signed. *)
Lemma entry_fields_inj e e' :
  DeviceEntry_wf e → DeviceEntry_wf e' → entry_fields e = entry_fields e' →
  de_Sig e = de_Sig e' → de_SuccessorSig e = de_SuccessorSig e' → e = e'.
Proof.
  intros (?&Ho&?&?&Hc) (?&Ho'&?&?&Hc') Hf ??. unfold entry_fields in Hf.
  assert (u16 (de_Op e)) by solve_uint. assert (u16 (de_Op e')) by solve_uint.
  destruct e as [???? [[]|] ???????], e' as [???? [[]|] ???????]; cbn [de_Cert app] in *; cbn in Hc, Hc';
    cbn in *; field_inj; subst; try done.
Qed.

Lemma entry_input_inj e e' :
  DeviceEntry_wf e → DeviceEntry_wf e' → entry_sized e → entry_sized e' →
  entry_input e = entry_input e' → e = e'.
Proof.
  intros ?? [??] [??] E. unfold entry_input in E. apply frames_inj in E; [|done..].
  unfold entry_hash_fields in E. field_inj. apply entry_fields_inj; try done. by apply frames_inj.
Qed.

(** An accepted entry: its position, the signature it carries, and the effect of its operation. *)
Lemma Apply_Ok e s s' :
  DeviceLogState_Apply e s = (Ok (), s') →
  de_Account e = ds_account s ∧ de_Seq e = wrap64 (ds_seq s + 1) ∧ de_Prev e = ds_hash s ∧
  entry_sized e ∧
  VerifySignature (de_SigAlg e) (ds_identityKey s) (frames (entry_fields e)) (de_Sig e) = Ok () ∧
  (ds_pendingSuccession s = true → de_Op e = OpSuccession ∨ de_Op e = OpRevokeDevice) ∧
  ∃ s1, op_effect s e (frames (entry_fields e)) s1 ∧ s' = ds_set_pos s1 (de_Seq e) (sha256 (entry_input e)).
Proof.
  unfold DeviceLogState_Apply. dm_run. destruct (_ || _) eqn:E1; [done|]. bool_simpl. rewrite Z.eqb_eq in *.
  rewrite DeviceEntry_SigningBytes_fields. destruct (Encoded _) as [msg|] eqn:E2; [|done].
  apply Encoded_fields in E2 as [Hs ->]. dm_run.
  destruct (checkSignature s e _) as [[]|] eqn:E3; [|done]. dm_run.
  destruct (ds_pendingSuccession s && _ && _) eqn:E4; [done|]. dm_run.
  destruct (DeviceEntry_hash e _) as [h|] eqn:E5; [|done]. dm_run.
  destruct (applyOp e _ s) as [[[]|] s1] eqn:E6; [|done]. dm_run. intros [= <-].
  apply applyOp_Ok in E6.
  assert (DeviceEntry_hash e (frames (entry_fields e)) = Sum (fields_canon (entry_hash_fields e))) as E7
    by (unfold DeviceEntry_hash, entry_hash_fields; canon_fields).
  rewrite E7 in E5. apply Sum_fields in E5 as [Hs' ->].
  split_and!; try done.
  - unfold checkSignature in E3. destruct (VerifySignature _ _ _ _) as [[]|]; [done|]. by destruct (existsb _ _).
  - intros Hp. rewrite Hp in E4. cbn in E4.
    destruct (Z.eqb_spec (de_Op e) OpSuccession); [auto|]. destruct (Z.eqb_spec (de_Op e) OpRevokeDevice); [auto|done].
  - eauto.
Qed.

Definition Apply_step (s : DeviceLogState) (e : DeviceEntry) : result error DeviceLogState :=
  match DeviceLogState_Apply e s with (Ok _, s') => Ok s' | (Err er, _) => Err er end.

Lemma Apply_step_Ok s e s' : Apply_step s e = Ok s' ↔ DeviceLogState_Apply e s = (Ok (), s').
Proof. unfold Apply_step. destruct (DeviceLogState_Apply e s) as [[[]|] ?]; naive_solver. Qed.

(** A rejected entry leaves the device log state exactly as it was, whatever check failed. *)
Theorem Apply_rejected_unchanged (e : DeviceEntry) (s s' : DeviceLogState) (er : error) :
  DeviceLogState_Apply e s = (Err er, s') → s' = s.
Proof.
  unfold DeviceLogState_Apply. dm_run. destruct (_ || _); [by intros [= _ <-]|].
  destruct (DeviceEntry_SigningBytes e) as [msg|]; [|by intros [= _ <-]]. dm_run.
  destruct (checkSignature s e msg) as [[]|]; [|by intros [= _ <-]]. dm_run.
  destruct (ds_pendingSuccession s && _ && _); [by intros [= _ <-]|]. dm_run.
  destruct (DeviceEntry_hash e msg) as [h|]; [|by intros [= _ <-]]. dm_run.
  destruct (applyOp e msg s) as [[[]|] s1] eqn:E; dm_run; [done|].
  intros [= _ <-]. by eapply applyOp_Err.
Qed.

(** ** The whole log *)

Definition log_genesis_fields (account : ID) (suite : Z) (ik ek : bytes) : list bytes :=
  [bytes_of_string LabelDeviceHash; vec_to_list account; be_bytes 2 suite; ik; ek].
Definition log_genesis_input (account : ID) (suite : Z) (ik ek : bytes) : bytes :=
  frames (log_genesis_fields account suite ik ek).

Definition log_genesis (a : ID) (ik ek : bytes) : DeviceLogState :=
  {| ds_account := a; ds_params := suite1_params; ds_identityKey := ik; ds_encryptionKey := ek;
     ds_superseded := []; ds_devices := ∅; ds_seq := 0; ds_hash := sha256 (log_genesis_input a Suite1 ik ek);
     ds_pendingSuccession := false |}.

Lemma NewDeviceLogState_Ok a su ik ek s :
  NewDeviceLogState a su ik ek = Ok s →
  su = Suite1 ∧ len ik = 32 ∧ len ek = 1216 ∧ s = log_genesis a ik ek.
Proof.
  unfold NewDeviceLogState. intros Hn. apply bind_Ok in Hn as (p & [-> ->]%LookupSuite_Ok & Hn).
  apply fail_if_Ok in Hn as [Hl Hn]. apply bind_Ok in Hn as (g & Hg & <-%Ok_inj). bool_simpl. rewrite !Z.eqb_eq in *.
  assert (NewCanon LabelDeviceHash |> Canon_ID a |> Canon_U16 Suite1 |> Canon_Bytes ik |> Canon_Bytes ek =
    fields_canon (log_genesis_fields a Suite1 ik ek)) as E by (unfold log_genesis_fields; canon_fields).
  rewrite E in Hg. apply Sum_fields in Hg as [? ->]. done.
Qed.

Lemma log_genesis_small a su ik ek :
  len ik = 32 → len ek = 1216 → Forall field_small (log_genesis_fields a su ik ek).
Proof.
  intros Hi He. assert (field_small ik) by (unfold field_small; solve_uint).
  assert (field_small ek) by (unfold field_small; solve_uint). unfold log_genesis_fields. solve_small.
Qed.

Lemma NewDeviceLogState_eq a ik ek :
  len ik = 32 → len ek = 1216 → NewDeviceLogState a Suite1 ik ek = Ok (log_genesis a ik ek).
Proof.
  intros Hi He. destruct (NewDeviceLogState a Suite1 ik ek) as [s|e] eqn:E.
  - apply NewDeviceLogState_Ok in E as (_&_&_&->). done.
  - exfalso. revert E. unfold NewDeviceLogState.
    assert (LookupSuite Suite1 MinAcceptedSuite = Ok suite1_params) as -> by by apply LookupSuite_Ok.
    rewrite bind_ok_l. cbn [sp_SigningKeySize sp_EncryptionKeySize suite1_params]. rewrite Hi, He. cbn [Z.eqb Pos.eqb negb orb].
    assert (Sum (NewCanon LabelDeviceHash |> Canon_ID a |> Canon_U16 Suite1 |> Canon_Bytes ik |> Canon_Bytes ek)
      = Ok (sha256 (log_genesis_input a Suite1 ik ek))) as ->; [|rewrite bind_ok_l; done].
    assert (NewCanon LabelDeviceHash |> Canon_ID a |> Canon_U16 Suite1 |> Canon_Bytes ik |> Canon_Bytes ek =
      fields_canon (log_genesis_fields a Suite1 ik ek)) as -> by (unfold log_genesis_fields; canon_fields).
    apply Sum_fields. split; [by apply log_genesis_small|done].
Qed.

#[local] Program Instance device_chain : HashChain DeviceLogState DeviceEntry := {|
  hc_step := Apply_step;
  hc_hash := ds_hash;
  hc_prev := de_Prev;
  hc_input := entry_input;
  hc_wf := DeviceEntry_wf;
  hc_sized := entry_sized;
|}.
Next Obligation. intros s e s' (?&?&?&?&?&?&s1&?&->)%Apply_step_Ok%Apply_Ok. done. Qed.
Next Obligation. intros e1 e2 ???? E. by rewrite (entry_input_inj e1 e2). Qed.

(** Two device logs replayed from the genesis keys of two accounts to one chain hash belong to
    one account with one pair of genesis keys and are entry for entry the same, signatures included. *)
Theorem device_log_unique (a1 a2 : ID) (su1 su2 : Z) (ik1 ik2 ek1 ek2 : bytes) (s1 s2 t1 t2 : DeviceLogState)
    (es1 es2 : list DeviceEntry) :
  NewDeviceLogState a1 su1 ik1 ek1 = Ok s1 → NewDeviceLogState a2 su2 ik2 ek2 = Ok s2 →
  foldM Apply_step s1 es1 = Ok t1 → foldM Apply_step s2 es2 = Ok t2 → ds_hash t1 = ds_hash t2 →
  Forall DeviceEntry_wf es1 → Forall DeviceEntry_wf es2 →
  collision_free (λ x, x = log_genesis_input a1 su1 ik1 ek1 ∨ x = log_genesis_input a2 su2 ik2 ek2 ∨
                       x ∈ entry_input <$> es1 ++ es2) →
  a1 = a2 ∧ ik1 = ik2 ∧ ek1 = ek2 ∧ es1 = es2.
Proof.
  intros (->&I1&K1&->)%NewDeviceLogState_Ok (->&I2&K2&->)%NewDeviceLogState_Ok A1 A2 Hh W1 W2 Hc.
  pose proof (hc_replay_sized (HC := device_chain) _ _ _ A1) as Z1.
  pose proof (hc_replay_sized (HC := device_chain) _ _ _ A2) as Z2. cbn [hc_sized device_chain] in Z1, Z2.
  pose proof (log_genesis_small a1 Suite1 ik1 ek1 I1 K1) as G1.
  pose proof (log_genesis_small a2 Suite1 ik2 ek2 I2 K2) as G2.
  destruct (chain_unique (HC := device_chain) (log_genesis a1 ik1 ek1) (log_genesis a2 ik2 ek2) _ _ es1 es2 (log_genesis_input a1 Suite1 ik1 ek1)
    (log_genesis_input a2 Suite1 ik2 ek2) eq_refl eq_refl A1 A2 Hh W1 W2) as [Hg HF]; [|exact Hc|].
  - rewrite Forall_forall in Z1, Z2. intros e He.
    assert (entry_sized e) as [_ He'] by (apply elem_of_app in He as [?|?]; auto).
    split; intros Ei; cbn [hc_input device_chain] in Ei; unfold entry_input, log_genesis_input in Ei;
      (apply frames_inj in Ei; [|done..]); unfold entry_hash_fields, log_genesis_fields in Ei; by field_inj.
  - unfold log_genesis_input in Hg. apply frames_inj in Hg; [|done..].
    unfold log_genesis_fields in Hg. repeat (apply cons_inj in Hg as [? Hg]). field_inj. split_and!; try done.
    cbn [hc_input device_chain] in HF. clear -HF W1 W2 Z1 Z2.
    induction HF as [|h1 h2 hs1 hs2 E HF IH]; [done|].
    apply Forall_cons in W1 as [??], W2 as [??], Z1 as [??], Z2 as [??].
    f_equal; [by apply entry_input_inj|by apply IH].
Qed.

(** ** Invariant *)

Definition cert_ok (ct : DeviceCert) : Prop :=
  ID_IsZero (dc_Device ct) = false ∧ len (dc_SigningKey ct) = 32 ∧
  len (dc_Name ct) ≤ 64 ∧ utf8_ValidString (dc_Name ct) = true ∧
  len (dc_Platform ct) ≤ 32 ∧ utf8_ValidString (dc_Platform ct) = true.

Record ds_inv (s : DeviceLogState) : Prop := {
  di_params : ds_params s = suite1_params;
  di_identity : len (ds_identityKey s) = 32;
  di_encryption : len (ds_encryptionKey s) = 1216;
  di_devices : ∀ id st, ds_devices s !! id = Some st → dc_Device (st_cert st) = id ∧ cert_ok (st_cert st);
}.

(** What one entry, or a whole batch of them, keeps of the state before it. *)
Definition devices_kept (s s' : DeviceLogState) : Prop :=
  ds_account s' = ds_account s ∧
  ∀ id st, ds_devices s !! id = Some st →
    ∃ st', ds_devices s' !! id = Some st' ∧ st_cert st' = st_cert st ∧ (st_revoked st = true → st_revoked st' = true).

#[local] Instance devices_kept_trans : Transitive devices_kept.
Proof.
  intros s1 s2 s3 [A1 D1] [A2 D2]. split; [congruence|]. intros id st Hst.
  destruct (D1 id st Hst) as (st2 & H2 & ? & ?). destruct (D2 id st2 H2) as (st3 & H3 & ? & ?).
  exists st3. split_and!; [done|congruence|auto].
Qed.

Lemma validateCert_Ok c n ct :
  validateCert (Some c) n = Ok ct →
  ct = c ∧ ID_IsZero (dc_Device c) = false ∧ len (dc_SigningKey c) = n ∧
  len (dc_Name c) ≤ 64 ∧ utf8_ValidString (dc_Name c) = true ∧
  len (dc_Platform c) ≤ 32 ∧ utf8_ValidString (dc_Platform c) = true.
Proof.
  unfold validateCert, maxDeviceNameBytes, maxDevicePlatformBytes. intros Hv. ok_inv.
  rewrite !Z.eqb_eq in *. split_and!; try done; lia.
Qed.

Lemma Apply_step_kept s e s' : ds_inv s → Apply_step s e = Ok s' → ds_inv s' ∧ devices_kept s s'.
Proof.
  intros [Ip Ii Ie Id] (_&_&_&_&_&_&s1&Heff&->)%Apply_step_Ok%Apply_Ok.
  destruct Heff as [ct Hop Hct Hv Hnone|st Hop Hst Hrev|Hop Hsu Hik Hek Hsig].
  - rewrite Ip in Hv. apply validateCert_Ok in Hv as (_ & Hz & Hc). split.
    + constructor; cbn; try done. intros id st. rewrite lookup_insert. case_decide as Hd; [|apply Id].
      intros [= <-]. cbn. split; [done|]. done.
    + split; [done|]. intros id st Hst. cbn. exists st. split; [|done].
      rewrite lookup_insert_ne; [done|]. congruence.
  - destruct (Id _ _ Hst) as [Hdev Hok]. split.
    + constructor; cbn; try done. intros id st'. rewrite lookup_insert. case_decide as Hd; [|apply Id].
      intros [= <-]. cbn. by subst.
    + split; [done|]. intros id st' Hst'. cbn. rewrite lookup_insert. case_decide as Hd; [|by exists st'].
      subst id. rewrite Hst in Hst'. injection Hst' as <-. eexists. split; [done|]. done.
  - split.
    + constructor; cbn; done.
    + split; [done|]. intros id st Hst. exists st. done.
Qed.

Lemma New_inv a su ik ek s : NewDeviceLogState a su ik ek = Ok s → ds_inv s.
Proof. intros (->&?&?&->)%NewDeviceLogState_Ok. by constructor; cbn. Qed.

Lemma replay_kept s es s' :
  ds_inv s → foldM Apply_step s es = Ok s' → ds_inv s' ∧ devices_kept s s'.
Proof.
  intros Hi. revert s Hi. induction es as [|e es IH]; intros s Hi Hr; cbn [foldM] in Hr.
  - apply Ok_inj in Hr as <-. split; [done|]. split; [done|]. intros id st Hst. by exists st.
  - destruct (Apply_step s e) as [s1|] eqn:E; [|done]. apply Apply_step_kept in E as [Hi1 K1]; [|done].
    apply IH in Hr as [Hi' K']; [|done]. split; [done|]. by etrans.
Qed.

(** In a log replayed from genesis, an entry batch never alters a certified device: its
    certificate and signing key stay readable and unchanged for good, a revoked device stays revoked,
    and every certified key and name has the required shape. *)
Theorem device_log_monotone (a : ID) (su : Z) (ik ek : bytes) (s0 s s' : DeviceLogState) (es1 es2 : list DeviceEntry) (id : ID) :
  NewDeviceLogState a su ik ek = Ok s0 → foldM Apply_step s0 es1 = Ok s → foldM Apply_step s es2 = Ok s' →
  is_ok (DeviceKey s id) = true →
  DeviceKey s' id = DeviceKey s id ∧ Certificate s' id = Certificate s id ∧
  (IsRevoked s id = true → IsRevoked s' id = true) ∧
  (∀ ct, Certificate s id = Some ct → dc_Device ct = id ∧ cert_ok ct).
Proof.
  intros H0%New_inv H1 H2. apply replay_kept in H1 as [Hi _]; [|done].
  apply replay_kept in H2 as [_ [_ Hk]]; [|done]. unfold DeviceKey, Certificate, IsRevoked.
  destruct (ds_devices s !! id) as [st|] eqn:E; [|done]. intros _.
  destruct (Hk id st E) as (st' & -> & Hc & Hr). rewrite Hc. split_and!; try done; [cbn; by rewrite Hc|].
  intros ct [= <-]. by eapply di_devices.
Qed.

(** ** Revocations are answered *)

Lemma Apply_step_pending s e s' :
  Apply_step s e = Ok s' →
  (de_Op e = OpSuccession ∧ ds_pendingSuccession s' = false) ∨
  (de_Op e = OpRevokeDevice ∧ ds_pendingSuccession s' = true) ∨
  (de_Op e = OpAddDevice ∧ ds_pendingSuccession s = false ∧ ds_pendingSuccession s' = false).
Proof.
  intros (_&_&_&_&_&Hp&s1&Heff&->)%Apply_step_Ok%Apply_Ok.
  destruct Heff as [ct Hop|st Hop|Hop]; cbn; [|auto..]. right; right.
  destruct (ds_pendingSuccession s); [|done]. destruct (Hp eq_refl) as [Ho|Ho]; by rewrite Hop in Ho.
Qed.

Lemma pending_answered s es s' :
  ds_pendingSuccession s = true → foldM Apply_step s es = Ok s' → ds_pendingSuccession s' = false →
  ∃ revs e rest, es = revs ++ e :: rest ∧ de_Op e = OpSuccession ∧ Forall (λ e, de_Op e = OpRevokeDevice) revs.
Proof.
  revert s. induction es as [|e es IH]; intros s Hp Hr Hq; cbn [foldM] in Hr.
  - apply Ok_inj in Hr as <-. congruence.
  - destruct (Apply_step s e) as [s1|] eqn:E; [|done].
    apply Apply_step_pending in E as [[? ?]|[[? ?]|(?&Hf&?)]]; [| |by rewrite Hp in Hf].
    + exists [], e, es. done.
    + destruct (IH s1) as (revs & e' & rest & -> & ? & ?); [done..|]. exists (e :: revs), e', rest.
      split_and!; [done|done|by constructor].
Qed.

(** C26. A log accepted whole - one that does not end pending - answers every revocation: after it
    come only further revocations until a succession, which installs a new identity key that signed
    the entry together with the key in force. *)
Theorem revocation_answered (s s' : DeviceLogState) (pre post : list DeviceEntry) (e : DeviceEntry) :
  foldM Apply_step s (pre ++ e :: post) = Ok s' → de_Op e = OpRevokeDevice → ds_pendingSuccession s' = false →
  ∃ revs succ rest s1 s2,
    post = revs ++ succ :: rest ∧ Forall (λ e, de_Op e = OpRevokeDevice) revs ∧ de_Op succ = OpSuccession ∧
    foldM Apply_step s (pre ++ e :: revs) = Ok s1 ∧ Apply_step s1 succ = Ok s2 ∧
    ds_identityKey s2 = de_NewIdentityKey succ ∧
    VerifySignature (de_SigAlg succ) (ds_identityKey s1) (frames (entry_fields succ)) (de_Sig succ) = Ok () ∧
    VerifySignature (de_SigAlg succ) (ds_identityKey s2) (frames (entry_fields succ)) (de_SuccessorSig succ) = Ok ().
Proof.
  intros Hr Hop Hq. rewrite foldM_app in Hr. apply bind_Ok in Hr as (s0 & H0 & Hr). cbn [foldM] in Hr.
  destruct (Apply_step s0 e) as [s1|] eqn:E; [|done].
  assert (ds_pendingSuccession s1 = true) as Hp
    by (apply Apply_step_pending in E as [[Ho ?]|[[? ?]|(Ho&?&?)]]; [by rewrite Hop in Ho|done|by rewrite Hop in Ho]).
  destruct (pending_answered s1 post s') as (revs & succ & rest & -> & Hs & Hrev); [done..|].
  rewrite foldM_app in Hr. apply bind_Ok in Hr as (s2 & H2 & Hr). cbn [foldM] in Hr.
  destruct (Apply_step s2 succ) as [s3|] eqn:E3; [|done].
  exists revs, succ, rest, s2, s3. split_and!; try done.
  - rewrite foldM_app, H0. cbn [mbind result_bind foldM]. by rewrite E.
  - apply Apply_step_Ok, Apply_Ok in E3 as (_&_&_&_&_&_&s4&Heff&->).
    destruct Heff as [ct Ho|st Ho|Ho]; [by rewrite Hs in Ho..|done].
  - by apply Apply_step_Ok, Apply_Ok in E3 as (_&_&_&_&?&_).
  - apply Apply_step_Ok, Apply_Ok in E3 as (_&_&_&_&_&_&s4&Heff&->).
    destruct Heff as [ct Ho|st Ho|Ho]; [by rewrite Hs in Ho..|done].
Qed.

End devicelog.

(** ** Examples: a device is added, revoked, and the revocation answered by a new identity key *)

#[local] Existing Instance demo_crypto.

Definition demo_key (n : Z) : bytes := vec_to_list (demo_hash n).
Definition demo_enc (n : Z) : bytes := zeros 1215 ++ [byte_of_Z n].
Definition demo_account : ID := demo_id 5.
Definition demo_cert (n : Z) : DeviceCert := {|
  dc_Device := demo_id n; dc_SigningKey := demo_key n; dc_Name := bytes_of_string "laptop"%string;
  dc_Platform := bytes_of_string "linux"%string; dc_CreatedUnixMilli := 1000 |}.
Definition demo_entry (seq : Z) (prev : hash) (op : Z) (ct : option DeviceCert) (rev : ID) (nik nek : bytes) : DeviceEntry := {|
  de_Account := demo_account; de_Seq := seq; de_Prev := prev; de_Op := op; de_Cert := ct; de_Revoked := rev;
  de_NewSuite := if op =? OpSuccession then Suite1 else 0; de_NewIdentityKey := nik; de_NewEncryptionKey := nek;
  de_SigAlg := SigEd25519; de_Sig := []; de_SuccessorSig := [] |}.
Definition demo_signed (key succ : bytes) (e : DeviceEntry) : DeviceEntry := {|
  de_Account := de_Account e; de_Seq := de_Seq e; de_Prev := de_Prev e; de_Op := de_Op e; de_Cert := de_Cert e;
  de_Revoked := de_Revoked e; de_NewSuite := de_NewSuite e; de_NewIdentityKey := de_NewIdentityKey e;
  de_NewEncryptionKey := de_NewEncryptionKey e; de_SigAlg := de_SigAlg e;
  de_Sig := demo_sign key (frames (entry_fields e));
  de_SuccessorSig := if de_Op e =? OpSuccession then demo_sign succ (frames (entry_fields e)) else [] |}.

Definition demo_log0 : DeviceLogState := log_genesis demo_account (demo_key 1) (demo_enc 1).
Definition demo_add : DeviceEntry :=
  demo_signed (demo_key 1) [] (demo_entry 1 (ds_hash demo_log0) OpAddDevice (Some (demo_cert 9)) ID_zero [] []).
Definition demo_rev : DeviceEntry :=
  demo_signed (demo_key 1) [] (demo_entry 2 (sha256 (entry_input demo_add)) OpRevokeDevice None (demo_id 9) [] []).
Definition demo_succ : DeviceEntry :=
  demo_signed (demo_key 1) (demo_key 2)
    (demo_entry 3 (sha256 (entry_input demo_rev)) OpSuccession None ID_zero (demo_key 2) (demo_enc 2)).
Definition demo_log (es : list DeviceEntry) : DeviceLogState :=
  of_ok demo_log0 (foldM Apply_step demo_log0 es).

Lemma demo_log0_new : NewDeviceLogState demo_account Suite1 (demo_key 1) (demo_enc 1) = Ok demo_log0.
Proof. eapply NewDeviceLogState_eq; vm_compute; reflexivity. Qed.
Lemma demo_log_run es : is_ok (foldM Apply_step demo_log0 es) = true → foldM Apply_step demo_log0 es = Ok (demo_log es).
Proof. apply of_ok_eq. Qed.
Lemma demo_log_more es es' :
  is_ok (foldM Apply_step demo_log0 (es ++ es')) = true →
  foldM Apply_step (demo_log es) es' = Ok (demo_log (es ++ es')).
Proof.
  intros Hr. apply demo_log_run in Hr as Hr'. rewrite foldM_app in Hr'. apply bind_Ok in Hr' as (s & Hs & Hr').
  unfold demo_log at 1. by rewrite Hs.
Qed.
Lemma demo_entries_wf : Forall DeviceEntry_wf [demo_add; demo_rev; demo_succ].
Proof.
  repeat apply Forall_cons_2; [..|apply Forall_nil_2]; unfold DeviceEntry_wf, u64, u16, u8; vm_compute; repeat split; intros [=].
Qed.

Lemma Apply_rejected_unchanged_witness :
  DeviceLogState_Apply demo_add (log_genesis demo_account [] []) = (Err [ErrDeviceLog], log_genesis demo_account [] []) ∧
  log_genesis demo_account [] [] = log_genesis demo_account [] [].
Proof.
  split; [vm_compute; reflexivity|].
  apply (Apply_rejected_unchanged demo_add _ _ [ErrDeviceLog]). vm_compute. reflexivity.
Defined.

Lemma device_log_unique_witness :
  demo_account = demo_account ∧ demo_key 1 = demo_key 1 ∧ demo_enc 1 = demo_enc 1 ∧
  [demo_add; demo_rev; demo_succ] = [demo_add; demo_rev; demo_succ].
Proof.
  apply (device_log_unique demo_account demo_account Suite1 Suite1 (demo_key 1) (demo_key 1) (demo_enc 1) (demo_enc 1)
           demo_log0 demo_log0 (demo_log [demo_add; demo_rev; demo_succ]) (demo_log [demo_add; demo_rev; demo_succ])).
  1-2: apply demo_log0_new.
  1-2: apply demo_log_run; vm_compute; reflexivity.
  - reflexivity.
  - apply demo_entries_wf.
  - apply demo_entries_wf.
  - apply (collision_free_list _ (log_genesis_input demo_account Suite1 (demo_key 1) (demo_enc 1)
             :: (entry_input <$> [demo_add; demo_rev; demo_succ]))).
    + intros x [->|[->|Hx]]; [left|left|]. right. rewrite fmap_app in Hx. by apply elem_of_app in Hx as [?|?].
    + vm_compute. reflexivity.
Defined.

Lemma device_log_monotone_witness :
  DeviceKey (demo_log [demo_add; demo_rev; demo_succ]) (demo_id 9) = DeviceKey (demo_log [demo_add]) (demo_id 9).
Proof.
  refine (proj1 (device_log_monotone demo_account Suite1 (demo_key 1) (demo_enc 1) demo_log0 (demo_log [demo_add])
           (demo_log [demo_add; demo_rev; demo_succ]) [demo_add] [demo_rev; demo_succ] (demo_id 9) _ _ _ _)).
  - apply demo_log0_new.
  - apply demo_log_run. vm_compute. reflexivity.
  - apply (demo_log_more [demo_add] [demo_rev; demo_succ]). vm_compute. reflexivity.
  - vm_compute. reflexivity.
Defined.

Lemma revocation_answered_witness :
  ∃ revs succ rest s1 s2,
    [demo_succ] = revs ++ succ :: rest ∧ Forall (λ e, de_Op e = OpRevokeDevice) revs ∧ de_Op succ = OpSuccession ∧
    foldM Apply_step demo_log0 ([demo_add] ++ demo_rev :: revs) = Ok s1 ∧ Apply_step s1 succ = Ok s2 ∧
    ds_identityKey s2 = de_NewIdentityKey succ ∧
    VerifySignature (de_SigAlg succ) (ds_identityKey s1) (frames (entry_fields succ)) (de_Sig succ) = Ok () ∧
    VerifySignature (de_SigAlg succ) (ds_identityKey s2) (frames (entry_fields succ)) (de_SuccessorSig succ) = Ok ().
Proof.
  apply (revocation_answered demo_log0 (demo_log [demo_add; demo_rev; demo_succ]) [demo_add] [demo_succ] demo_rev).
  - apply (demo_log_run [demo_add; demo_rev; demo_succ]). vm_compute. reflexivity.
  - reflexivity.
  - vm_compute. reflexivity.
Defined.
