(* ===== verification/Retention.v ===== *)
(** * Retention: when keys and records may be destroyed

    [internal/domain/vaultsync/retention.go]. *)

From S2P Require Import Prelude.

Definition DefaultRetentionDays : Z := 30.
Definition MaxRetentionDays : Z := 365.

Record Rotation := {
  r_Epoch : Z;             (* uint32 *)
  r_StartedUnixMilli : Z;  (* uint64 *)
  r_Shred : bool;
}.

#[export] Instance Rotation_eq_dec : EqDecision Rotation.
Proof. solve_decision. Defined.

Definition dayMillis : Z := 24 * 60 * 60 * 1000.

Definition windowMillis (days : Z) : Z := wrap64 (days * dayMillis).

Definition elapsed (start now d : Z) : bool := (start <=? now) && (d <=? wrap64 (now - start)).

(** The loop of [EpochRetired] over the rotations still to be read; [succeeded] is its variable. *)
Fixpoint EpochRetired_loop (epoch days now : Z) (succeeded : bool) (rotations : list Rotation) : bool :=
  match rotations with
  | [] => succeeded
  | r :: rest =>
      if r_Epoch r <=? epoch then EpochRetired_loop epoch days now succeeded rest
      else if r_Shred r then true
      else if r_Epoch r =? wrap32 (epoch + 1)
           then EpochRetired_loop epoch days now (elapsed (r_StartedUnixMilli r) now (windowMillis days)) rest
           else EpochRetired_loop epoch days now succeeded rest
  end.

Definition EpochRetired (epoch : Z) (rotations : list Rotation) (inUse : Z → bool) (days now : Z) : bool :=
  if inUse epoch then false else EpochRetired_loop epoch days now false rotations.

Definition RetiredEpochs (rotations : list Rotation) (inUse : Z → bool) (days now : Z) : list Z :=
  r_Epoch <$> filter (λ r, EpochRetired (r_Epoch r) rotations inUse days now = true) rotations.

Definition PurgeDue (deleted days now : Z) : bool := elapsed deleted now (windowMillis days).

Definition RotationDue (last : Z) (changedSince : bool) (days now : Z) : bool :=
  if negb changedSince || (days =? 0) then false else elapsed last now (windowMillis days / 2).

(** ** What the loop decides *)

(** The rotations of a vault: epochs 0, 1, 2, ... in order, none started before the one before it. *)
Record rotations_wf (rs : list Rotation) : Prop := {
  rw_epochs : ∀ i r, rs !! i = Some r → r_Epoch r = Z.of_nat i;
  rw_times : ∀ i r r', rs !! i = Some r → rs !! S i = Some r' → r_StartedUnixMilli r ≤ r_StartedUnixMilli r';
  rw_starts : Forall (λ r, u64 (r_StartedUnixMilli r)) rs;
  rw_len : len rs ≤ MaxUint32 + 1;
}.

Lemma windowMillis_eq days : u16 days → windowMillis days = days * 86400000.
Proof. intros. unfold windowMillis, dayMillis, wrap64. rewrite Z.mod_small; [lia|solve_uint]. Qed.

Lemma elapsed_iff start now d : u64 start → u64 now → elapsed start now d = true ↔ start ≤ now ∧ start + d ≤ now.
Proof.
  intros. unfold elapsed. rewrite andb_true_iff, !Z.leb_le. split.
  - intros [? Hd]. rewrite wrap64_id in Hd by solve_uint. lia.
  - intros [??]. rewrite wrap64_id by solve_uint. lia.
Qed.

Lemma EpochRetired_loop_iff epoch days now b rs :
  u16 days → u64 now → (∀ r, r ∈ rs → u64 (r_StartedUnixMilli r) ∧ u32 (r_Epoch r)) → u32 epoch →
  NoDup (r_Epoch <$> rs) →
  EpochRetired_loop epoch days now b rs = true ↔
  (∃ r, r ∈ rs ∧ epoch < r_Epoch r ∧ r_Shred r = true) ∨
  (∃ r, r ∈ rs ∧ r_Epoch r = epoch + 1 ∧ r_StartedUnixMilli r + days * 86400000 ≤ now) ∨
  (b = true ∧ ∀ r, r ∈ rs → r_Epoch r ≠ epoch + 1).
Proof.
  intros Hd Hn. revert b. induction rs as [|r rs IH]; intros b Hrs He Hnd; cbn [EpochRetired_loop].
  - split; [intros ->; right; right; split; [done|intros r Hr; by apply not_elem_of_nil in Hr]|].
    intros [(r&Hr&_)|[(r&Hr&_)|[-> _]]]; [by apply not_elem_of_nil in Hr..|done].
  - destruct (Hrs r ltac:(left)) as [Hu Hue]. cbn in Hnd. apply NoDup_cons in Hnd as [Hnin Hnd].
    assert (∀ r', r' ∈ rs → u64 (r_StartedUnixMilli r') ∧ u32 (r_Epoch r')) as Hrs' by (intros; apply Hrs; by right).
    setoid_rewrite elem_of_cons. destruct (Z.leb_spec (r_Epoch r) epoch).
    + rewrite IH by done. split.
      * intros [(r'&?&?)|[(r'&?&?)|[??]]]; [left; eauto|right; left; eauto|].
        right; right. split; [done|]. intros r' [->|?]; [lia|auto].
      * intros [(r'&[->|?]&?&?)|[(r'&[->|?]&?&?)|[??]]]; [lia|left; eauto|lia|right; left; eauto|].
        right; right. split; [done|auto].
    + destruct (r_Shred r) eqn:Es; [split; [intros _; left; eauto|done]|].
      assert (wrap32 (epoch + 1) = epoch + 1) as -> by (unfold wrap32; rewrite Z.mod_small; solve_uint).
      destruct (Z.eqb_spec (r_Epoch r) (epoch + 1)) as [Ee|Ee].
      * assert (∀ r', r' ∈ rs → r_Epoch r' ≠ epoch + 1) as Hno.
        { intros r' Hr' E'. apply Hnin. rewrite Ee, <- E'. by apply list_elem_of_fmap_2. }
        rewrite IH, elapsed_iff, windowMillis_eq by done. split.
        -- intros [(r'&?&?)|[(r'&?&?)|[??]]]; [left; eauto|right; left; eauto|].
           right; left. exists r. split_and!; [auto|done|lia].
        -- intros [(r'&[->|?]&?&?)|[(r'&[->|?]&?&?)|[_ Hx]]]; [congruence|left; eauto| |right; left; eauto|].
           ++ right; right. split; [solve_uint|done].
           ++ by destruct (Hx r); [left|].
      * rewrite IH by done. split.
        -- intros [(r'&?&?)|[(r'&?&?)|[??]]]; [left; eauto|right; left; eauto|].
           right; right. split; [done|]. intros r' [->|?]; auto.
        -- intros [(r'&[->|?]&?&?)|[(r'&[->|?]&?&?)|[??]]]; [congruence|left; eauto|lia|right; left; eauto|].
           right; right. split; [done|auto].
Qed.

Lemma rotations_wf_NoDup rs : rotations_wf rs → NoDup (r_Epoch <$> rs).
Proof.
  intros [He _ _ _]. apply NoDup_alt. intros i j x Hi Hj. rewrite list_lookup_fmap in Hi, Hj.
  apply fmap_Some in Hi as (r&Hr&->), Hj as (r'&Hr'&E). apply He in Hr, Hr'. lia.
Qed.

Lemma rotations_wf_range rs r : rotations_wf rs → r ∈ rs → u64 (r_StartedUnixMilli r) ∧ u32 (r_Epoch r) ∧ r_Epoch r < len rs.
Proof.
  intros [He _ Hs Hl] Hr. split; [by eapply Forall_forall in Hs|].
  apply list_elem_of_lookup in Hr as [i Hi]. apply He in Hi as E. apply lookup_lt_Some in Hi.
  unfold MaxUint32 in Hl. split; solve_uint.
Qed.

Lemma EpochRetired_iff epoch rs inUse days now :
  rotations_wf rs → u32 epoch → u16 days → u64 now →
  EpochRetired epoch rs inUse days now = true ↔
  inUse epoch = false ∧
  ((∃ r, r ∈ rs ∧ epoch < r_Epoch r ∧ r_Shred r = true) ∨
   (∃ r, r ∈ rs ∧ r_Epoch r = epoch + 1 ∧ r_StartedUnixMilli r + days * 86400000 ≤ now)).
Proof.
  intros Hw He Hd Hn. unfold EpochRetired. destruct (inUse epoch); [naive_solver|].
  rewrite EpochRetired_loop_iff; [naive_solver|done|done| |done|by apply rotations_wf_NoDup].
  intros r Hr. apply (rotations_wf_range rs) in Hr; naive_solver.
Qed.

(** In a vault's rotation history an epoch's key may be destroyed exactly when no current record
    uses it and either some later rotation shredded or the retention window has passed since its
    successor began. [RetiredEpochs] lists exactly those epochs, in order. *)
Theorem RetiredEpochs_spec (rs : list Rotation) (inUse : Z → bool) (days now epoch : Z) :
  rotations_wf rs → u16 days → u64 now →
  epoch ∈ RetiredEpochs rs inUse days now ↔
  0 ≤ epoch < len rs ∧ inUse epoch = false ∧
  ((∃ r, r ∈ rs ∧ epoch < r_Epoch r ∧ r_Shred r = true) ∨
   (∃ r, r ∈ rs ∧ r_Epoch r = epoch + 1 ∧ r_StartedUnixMilli r + days * 86400000 ≤ now)).
Proof.
  intros Hw Hd Hn. unfold RetiredEpochs. rewrite list_elem_of_fmap.
  setoid_rewrite list_elem_of_filter. split.
  - intros (r & -> & Hr & Hin). apply rotations_wf_range in Hin as (?&Hu&?); [|done].
    apply EpochRetired_iff in Hr as [??]; [|done..]. split_and!; [solve_uint|done|done|done].
  - intros (Hr & Hc). assert (∃ r, rs !! Z.to_nat epoch = Some r) as [r Er] by (apply lookup_lt_is_Some; lia).
    apply (rw_epochs _ Hw) in Er as E. exists r. rewrite E.
    split; [lia|]. pose proof (rw_len _ Hw). split; [|by eapply list_elem_of_lookup_2].
    apply EpochRetired_iff; [done|split; solve_uint|done|done|]. by replace (Z.of_nat (Z.to_nat epoch)) with epoch by lia.
Qed.

(** The current epoch, the last one begun, is never retired, whatever the clock says; and with
    the same records in use, a later clock retires no fewer epochs. *)
Theorem current_epoch_kept (rs : list Rotation) (inUse : Z → bool) (days now later : Z) :
  rotations_wf rs → u16 days → u64 now → u64 later → now ≤ later →
  len rs - 1 ∉ RetiredEpochs rs inUse days now ∧
  RetiredEpochs rs inUse days now ⊆ RetiredEpochs rs inUse days later.
Proof.
  intros Hw Hd Hn Hl Hle. split.
  - unfold RetiredEpochs. rewrite list_elem_of_fmap. intros (r & E & Hr). apply list_elem_of_filter in Hr as [Hr Hin].
    apply rotations_wf_range in Hin as (_&Hu&_); [|done].
    destruct (proj1 (EpochRetired_iff _ _ _ _ _ Hw Hu Hd Hn) Hr) as [_ [(r'&Hr'&?&_)|(r'&Hr'&?&_)]];
      apply (rotations_wf_range _ _ Hw) in Hr' as (_&_&?); lia.
  - intros e. unfold RetiredEpochs. rewrite !list_elem_of_fmap. intros (r & -> & Hr). exists r. split; [done|].
    apply list_elem_of_filter in Hr as [Hr Hin]. apply list_elem_of_filter. split; [|done].
    apply rotations_wf_range in Hin as (_&Hu&_); [|done]. apply EpochRetired_iff; [done..|].
    destruct (proj1 (EpochRetired_iff _ _ _ _ _ Hw Hu Hd Hn) Hr) as [? [?|(r'&?&?&?)]]; (split; [done|]); [by left|].
    right. exists r'. split_and!; [done|done|lia].
Qed.

Definition demo_rotations : list Rotation :=
  [{| r_Epoch := 0; r_StartedUnixMilli := 1000; r_Shred := false |};
   {| r_Epoch := 1; r_StartedUnixMilli := 5000; r_Shred := false |};
   {| r_Epoch := 2; r_StartedUnixMilli := 9000; r_Shred := false |}].

Lemma demo_rotations_wf : rotations_wf demo_rotations.
Proof.
  constructor.
  - intros [|[|[|i]]] r; cbn; intros [= <-]; done.
  - intros [|[|[|i]]] r r'; cbn; intros [= <-] [= <-]; done.
  - repeat constructor; vm_compute; done.
  - done.
Qed.

Lemma RetiredEpochs_spec_witness :
  RetiredEpochs demo_rotations (λ _, false) 1 86405000 = [0] ∧ 0 ∈ RetiredEpochs demo_rotations (λ _, false) 1 86405000.
Proof.
  split; [vm_compute; reflexivity|].
  apply (RetiredEpochs_spec demo_rotations (λ _, false) 1 86405000 0 demo_rotations_wf); [split; vm_compute; done..|].
  split; [vm_compute; done|]. split; [done|]. right. eexists. split; [right; left|]. done.
Defined.

Lemma current_epoch_kept_witness :
  len demo_rotations - 1 ∉ RetiredEpochs demo_rotations (λ _, false) 1 86405000 ∧
  RetiredEpochs demo_rotations (λ _, false) 1 86405000 ⊆ RetiredEpochs demo_rotations (λ _, false) 1 86409000.
Proof. apply (current_epoch_kept demo_rotations (λ _, false) 1 86405000 86409000 demo_rotations_wf); try split; vm_compute; done. Defined.
