(* ===== verification/Membership.v ===== *)
(** * Membership: a vault's membership log

    [internal/domain/vaultsync]: [membership_op.go], [membership_state.go], [membership_rules.go]. The
    [apply*] rules write to the private copy [Apply] makes of the state and drops on error, so each
    returns the copy it would leave; [Apply] itself writes through its receiver and is an [ST]
    computation. *)

From S2P Require Import Prelude Bytes SyncBase Canon Sha2 HashChain Retention.

(** ** Operations *)

Definition RoleNone : Z := 0.
Definition RoleViewer : Z := 1.
Definition RoleEditor : Z := 2.
Definition RoleAdmin : Z := 3.
Definition RoleOwner : Z := 4.

Definition CanWrite (r : Z) : bool := RoleEditor <=? r.
Definition CanManage (r : Z) : bool := RoleAdmin <=? r.

Definition MemberCreate : Z := 1.
Definition MemberAdd : Z := 2.
Definition MemberChangeRole : Z := 3.
Definition MemberRemove : Z := 4.
Definition MemberRotateEpoch : Z := 5.
Definition MemberRewrap : Z := 6.
Definition MemberSetPolicy : Z := 7.
Definition MemberTransferOwnership : Z := 8.
Definition MemberDeleteVault : Z := 9.

Record KeyWrap := {
  kw_Member : ID;
  kw_Digest : hash;
  kw_Recipient : hash;
  kw_Ciphertext : bytes;
}.

Definition rejected : error := [ErrMembership].

Definition EncryptionDigest `{Crypto} (key : bytes) : result error hash :=
  NewCanon LabelEncryptionDigest |> Canon_Bytes key |> Sum.

Definition wrapDigest `{Crypto} (ciphertext : bytes) : result error hash :=
  NewCanon LabelVKWrapDigest |> Canon_Bytes ciphertext |> Sum.

Definition NewKeyWrap `{Crypto} (member : ID) (recipientKey ciphertext : bytes) : result error KeyWrap :=
  fail_if len ciphertext =? 0 with rejected ;;
  d ← wrapDigest ciphertext;
  r ← EncryptionDigest recipientKey;
  Ok {| kw_Member := member; kw_Digest := d; kw_Recipient := r; kw_Ciphertext := ciphertext |}.

Definition Pruned (w : KeyWrap) : bool := len (kw_Ciphertext w) =? 0.

Definition Strip (w : KeyWrap) : KeyWrap :=
  {| kw_Member := kw_Member w; kw_Digest := kw_Digest w; kw_Recipient := kw_Recipient w; kw_Ciphertext := [] |}.

Record MemberOp := {
  op_Vault : ID;
  op_Seq : Z;             (* uint64 *)
  op_Prev : hash;
  op_Kind : Z;            (* uint8 *)
  op_Author : ID;
  op_AuthorDevice : ID;
  op_Subject : ID;
  op_Role : Z;            (* uint8 *)
  op_Verified : bool;
  op_Fingerprint : hash;
  op_Suite : Z;           (* uint16 *)
  op_Epoch : Z;           (* uint32 *)
  op_Wraps : list KeyWrap;
  op_RevokedDevices : list ID;
  op_RetentionDays : Z;   (* uint16 *)
  op_RequireVerified : bool;
  op_Shred : bool;
  op_TimeUnixMilli : Z;   (* uint64 *)
  op_SigAlg : Z;          (* uint16 *)
  op_Sig : bytes;
}.

Definition Canon_Wrap (c : Canon) (w : KeyWrap) : Canon :=
  c |> Canon_ID (kw_Member w) |> Canon_Hash (kw_Digest w) |> Canon_Hash (kw_Recipient w).

Definition MemberOp_SigningBytes (op : MemberOp) : result error bytes :=
  let c := NewCanon LabelMemberSig |> Canon_ID (op_Vault op) |> Canon_U64 (op_Seq op) |> Canon_Hash (op_Prev op)
             |> Canon_U16 (op_Kind op) |> Canon_ID (op_Author op) |> Canon_ID (op_AuthorDevice op)
             |> Canon_ID (op_Subject op) |> Canon_U16 (op_Role op) |> Canon_Bool (op_Verified op)
             |> Canon_Hash (op_Fingerprint op) |> Canon_U16 (op_Suite op) |> Canon_U32 (op_Epoch op) in
  let c := c |> Canon_U64 (len (op_Wraps op)) in
  let c := foldl Canon_Wrap c (op_Wraps op) in
  let c := c |> Canon_IDs (op_RevokedDevices op) |> Canon_U16 (op_RetentionDays op)
             |> Canon_Bool (op_RequireVerified op) |> Canon_Bool (op_Shred op) |> Canon_U64 (op_TimeUnixMilli op)
             |> Canon_U16 (op_SigAlg op) in
  Encoded c.

Definition MemberOp_hash `{Crypto} (op : MemberOp) (msg : bytes) : result error hash :=
  NewCanon LabelMemberHash |> Canon_Bytes msg |> Canon_Bytes (op_Sig op) |> Sum.

(** ** State *)

Record MembershipState := {
  ms_vault : ID;
  ms_seq : Z;  (* uint64 *)
  ms_hash : hash;
  ms_members : gmap ID Z;  (* map[ID]Role *)
  ms_owner : ID;
  ms_creator : ID;
  ms_fingerprints : gmap ID hash;
  ms_epoch : Z;  (* uint32 *)
  ms_revoked : gset ID;
  ms_retentionDays : Z;  (* uint16 *)
  ms_requireVerified : bool;
  ms_deleted : bool;
  ms_pendingRotation : bool;
  ms_rotations : list Rotation;
  ms_shredSeq : Z;  (* uint64 *)
  ms_params : SuiteParams;
}.

Definition NewMembershipState `{Crypto} (vault : ID) : result error MembershipState :=
  genesis ← (NewCanon LabelMemberHash |> Canon_ID vault |> Sum);
  Ok {| ms_vault := vault; ms_seq := 0; ms_hash := genesis; ms_members := ∅; ms_owner := ID_zero; ms_creator := ID_zero;
        ms_fingerprints := ∅; ms_epoch := 0; ms_revoked := ∅; ms_retentionDays := 0; ms_requireVerified := false;
        ms_deleted := false; ms_pendingRotation := false; ms_rotations := []; ms_shredSeq := 0;
        ms_params := SuiteParams_zero |}.

(** Field assignments. *)
Definition ms_set_params (v : SuiteParams) (s : MembershipState) : MembershipState :=
  {|
    ms_vault := ms_vault s; ms_seq := ms_seq s; ms_hash := ms_hash s; ms_members := ms_members s;
    ms_owner := ms_owner s; ms_creator := ms_creator s; ms_fingerprints := ms_fingerprints s;
    ms_epoch := ms_epoch s; ms_revoked := ms_revoked s; ms_retentionDays := ms_retentionDays s;
    ms_requireVerified := ms_requireVerified s; ms_deleted := ms_deleted s;
    ms_pendingRotation := ms_pendingRotation s; ms_rotations := ms_rotations s; ms_shredSeq := ms_shredSeq s;
    ms_params := v |}.
Definition ms_set_pos (q : Z) (h : hash) (s : MembershipState) : MembershipState :=
  {|
    ms_vault := ms_vault s; ms_seq := q; ms_hash := h; ms_members := ms_members s; ms_owner := ms_owner s;
    ms_creator := ms_creator s; ms_fingerprints := ms_fingerprints s; ms_epoch := ms_epoch s;
    ms_revoked := ms_revoked s; ms_retentionDays := ms_retentionDays s;
    ms_requireVerified := ms_requireVerified s; ms_deleted := ms_deleted s;
    ms_pendingRotation := ms_pendingRotation s; ms_rotations := ms_rotations s; ms_shredSeq := ms_shredSeq s;
    ms_params := ms_params s |}.
Definition ms_set_members (v : gmap ID Z) (s : MembershipState) : MembershipState :=
  {|
    ms_vault := ms_vault s; ms_seq := ms_seq s; ms_hash := ms_hash s; ms_members := v; ms_owner := ms_owner s;
    ms_creator := ms_creator s; ms_fingerprints := ms_fingerprints s; ms_epoch := ms_epoch s;
    ms_revoked := ms_revoked s; ms_retentionDays := ms_retentionDays s;
    ms_requireVerified := ms_requireVerified s; ms_deleted := ms_deleted s;
    ms_pendingRotation := ms_pendingRotation s; ms_rotations := ms_rotations s; ms_shredSeq := ms_shredSeq s;
    ms_params := ms_params s |}.
Definition ms_set_owner (v : ID) (s : MembershipState) : MembershipState :=
  {|
    ms_vault := ms_vault s; ms_seq := ms_seq s; ms_hash := ms_hash s; ms_members := ms_members s; ms_owner := v;
    ms_creator := ms_creator s; ms_fingerprints := ms_fingerprints s; ms_epoch := ms_epoch s;
    ms_revoked := ms_revoked s; ms_retentionDays := ms_retentionDays s;
    ms_requireVerified := ms_requireVerified s; ms_deleted := ms_deleted s;
    ms_pendingRotation := ms_pendingRotation s; ms_rotations := ms_rotations s; ms_shredSeq := ms_shredSeq s;
    ms_params := ms_params s |}.
Definition ms_set_creator (v : ID) (s : MembershipState) : MembershipState :=
  {|
    ms_vault := ms_vault s; ms_seq := ms_seq s; ms_hash := ms_hash s; ms_members := ms_members s;
    ms_owner := ms_owner s; ms_creator := v; ms_fingerprints := ms_fingerprints s; ms_epoch := ms_epoch s;
    ms_revoked := ms_revoked s; ms_retentionDays := ms_retentionDays s;
    ms_requireVerified := ms_requireVerified s; ms_deleted := ms_deleted s;
    ms_pendingRotation := ms_pendingRotation s; ms_rotations := ms_rotations s; ms_shredSeq := ms_shredSeq s;
    ms_params := ms_params s |}.
Definition ms_set_fingerprints (v : gmap ID hash) (s : MembershipState) : MembershipState :=
  {|
    ms_vault := ms_vault s; ms_seq := ms_seq s; ms_hash := ms_hash s; ms_members := ms_members s;
    ms_owner := ms_owner s; ms_creator := ms_creator s; ms_fingerprints := v; ms_epoch := ms_epoch s;
    ms_revoked := ms_revoked s; ms_retentionDays := ms_retentionDays s;
    ms_requireVerified := ms_requireVerified s; ms_deleted := ms_deleted s;
    ms_pendingRotation := ms_pendingRotation s; ms_rotations := ms_rotations s; ms_shredSeq := ms_shredSeq s;
    ms_params := ms_params s |}.
Definition ms_set_epoch (v : Z) (s : MembershipState) : MembershipState :=
  {|
    ms_vault := ms_vault s; ms_seq := ms_seq s; ms_hash := ms_hash s; ms_members := ms_members s;
    ms_owner := ms_owner s; ms_creator := ms_creator s; ms_fingerprints := ms_fingerprints s; ms_epoch := v;
    ms_revoked := ms_revoked s; ms_retentionDays := ms_retentionDays s;
    ms_requireVerified := ms_requireVerified s; ms_deleted := ms_deleted s;
    ms_pendingRotation := ms_pendingRotation s; ms_rotations := ms_rotations s; ms_shredSeq := ms_shredSeq s;
    ms_params := ms_params s |}.
Definition ms_set_revoked (v : gset ID) (s : MembershipState) : MembershipState :=
  {|
    ms_vault := ms_vault s; ms_seq := ms_seq s; ms_hash := ms_hash s; ms_members := ms_members s;
    ms_owner := ms_owner s; ms_creator := ms_creator s; ms_fingerprints := ms_fingerprints s;
    ms_epoch := ms_epoch s; ms_revoked := v; ms_retentionDays := ms_retentionDays s;
    ms_requireVerified := ms_requireVerified s; ms_deleted := ms_deleted s;
    ms_pendingRotation := ms_pendingRotation s; ms_rotations := ms_rotations s; ms_shredSeq := ms_shredSeq s;
    ms_params := ms_params s |}.
Definition ms_set_policy (days : Z) (verified : bool) (s : MembershipState) : MembershipState :=
  {|
    ms_vault := ms_vault s; ms_seq := ms_seq s; ms_hash := ms_hash s; ms_members := ms_members s;
    ms_owner := ms_owner s; ms_creator := ms_creator s; ms_fingerprints := ms_fingerprints s;
    ms_epoch := ms_epoch s; ms_revoked := ms_revoked s; ms_retentionDays := days;
    ms_requireVerified := verified; ms_deleted := ms_deleted s; ms_pendingRotation := ms_pendingRotation s;
    ms_rotations := ms_rotations s; ms_shredSeq := ms_shredSeq s; ms_params := ms_params s |}.
Definition ms_set_deleted (v : bool) (s : MembershipState) : MembershipState :=
  {|
    ms_vault := ms_vault s; ms_seq := ms_seq s; ms_hash := ms_hash s; ms_members := ms_members s;
    ms_owner := ms_owner s; ms_creator := ms_creator s; ms_fingerprints := ms_fingerprints s;
    ms_epoch := ms_epoch s; ms_revoked := ms_revoked s; ms_retentionDays := ms_retentionDays s;
    ms_requireVerified := ms_requireVerified s; ms_deleted := v; ms_pendingRotation := ms_pendingRotation s;
    ms_rotations := ms_rotations s; ms_shredSeq := ms_shredSeq s; ms_params := ms_params s |}.
Definition ms_set_pending (v : bool) (s : MembershipState) : MembershipState :=
  {|
    ms_vault := ms_vault s; ms_seq := ms_seq s; ms_hash := ms_hash s; ms_members := ms_members s;
    ms_owner := ms_owner s; ms_creator := ms_creator s; ms_fingerprints := ms_fingerprints s;
    ms_epoch := ms_epoch s; ms_revoked := ms_revoked s; ms_retentionDays := ms_retentionDays s;
    ms_requireVerified := ms_requireVerified s; ms_deleted := ms_deleted s; ms_pendingRotation := v;
    ms_rotations := ms_rotations s; ms_shredSeq := ms_shredSeq s; ms_params := ms_params s |}.
Definition ms_set_rotations (v : list Rotation) (s : MembershipState) : MembershipState :=
  {|
    ms_vault := ms_vault s; ms_seq := ms_seq s; ms_hash := ms_hash s; ms_members := ms_members s;
    ms_owner := ms_owner s; ms_creator := ms_creator s; ms_fingerprints := ms_fingerprints s;
    ms_epoch := ms_epoch s; ms_revoked := ms_revoked s; ms_retentionDays := ms_retentionDays s;
    ms_requireVerified := ms_requireVerified s; ms_deleted := ms_deleted s;
    ms_pendingRotation := ms_pendingRotation s; ms_rotations := v; ms_shredSeq := ms_shredSeq s;
    ms_params := ms_params s |}.
Definition ms_set_shredSeq (v : Z) (s : MembershipState) : MembershipState :=
  {|
    ms_vault := ms_vault s; ms_seq := ms_seq s; ms_hash := ms_hash s; ms_members := ms_members s;
    ms_owner := ms_owner s; ms_creator := ms_creator s; ms_fingerprints := ms_fingerprints s;
    ms_epoch := ms_epoch s; ms_revoked := ms_revoked s; ms_retentionDays := ms_retentionDays s;
    ms_requireVerified := ms_requireVerified s; ms_deleted := ms_deleted s;
    ms_pendingRotation := ms_pendingRotation s; ms_rotations := ms_rotations s; ms_shredSeq := v;
    ms_params := ms_params s |}.

(** [s.members[id]], which is [RoleNone] for an absent key. *)
Definition Role (s : MembershipState) (id : ID) : Z := default RoleNone (ms_members s !! id).

Definition Members (s : MembershipState) : list ID := merge_sort ID_le ((map_to_list (ms_members s)).*1).

Definition MemberFingerprint (s : MembershipState) (id : ID) : hash * bool :=
  let fp := ms_fingerprints s !! id in
  (default (array_zero 32) fp, bool_decide (is_Some fp) && negb (Role s id =? RoleNone)).

Definition IsDeviceRevoked (s : MembershipState) (device : ID) : bool := bool_decide (device ∈ ms_revoked s).

(** ** Rules *)

Definition requireManage (s : MembershipState) (op : MemberOp) : result error unit :=
  fail_if negb (CanManage (Role s (op_Author op))) with [ErrNotAuthorized] ;;
  Ok ().

Definition requireOwner (s : MembershipState) (op : MemberOp) : result error unit :=
  fail_if negb (Role s (op_Author op) =? RoleOwner) with [ErrNotAuthorized] ;;
  Ok ().

Definition checkWrapContent `{Crypto} (s : MembershipState) (w : KeyWrap) : result error unit :=
  if Pruned w then Ok () else
  fail_if negb (len (kw_Ciphertext w) =? sp_VKWrapSize (ms_params s)) with rejected ;;
  d ← wrapDigest (kw_Ciphertext w);
  fail_if d <>? kw_Digest w with rejected ;;
  Ok ().

(** One round of the loop of [checkWraps]; the state is the map [wanted]. *)
Definition checkWrap `{Crypto} (s : MembershipState) (wanted : gset ID) (w : KeyWrap) : result error (gset ID) :=
  fail_if negb (bool_decide (kw_Member w ∈ wanted)) with rejected ;;
  _ ← checkWrapContent s w;
  Ok (wanted ∖ {[kw_Member w]}).

Definition checkWraps `{Crypto} (s : MembershipState) (wraps : list KeyWrap) (want : list ID) : result error unit :=
  fail_if negb (len wraps =? len want) with rejected ;;
  _ ← foldM (checkWrap s) (list_to_set want) wraps;
  Ok ().

Definition CheckNextEpoch (current : Z) : result error unit :=
  fail_if current =? MaxUint32 with rejected ;;
  Ok ().

Definition validRetention (days : Z) : result error unit :=
  fail_if MaxRetentionDays <? days with rejected ;;
  Ok ().

Definition assignableRole (r : Z) : bool := (RoleViewer <=? r) && (r <=? RoleAdmin).

Definition applyCreate `{Crypto} (s : MembershipState) (op : MemberOp) : result error MembershipState :=
  fail_if negb (op_Epoch op =? 0) with rejected ;;
  _ ← validRetention (op_RetentionDays op);
  _ ← checkWraps s (op_Wraps op) [op_Author op];
  Ok (s |> ms_set_members (<[op_Author op := RoleOwner]> (ms_members s))
        |> ms_set_owner (op_Author op) |> ms_set_creator (op_Author op)
        |> ms_set_policy (op_RetentionDays op) (op_RequireVerified op)
        |> ms_set_rotations (ms_rotations s ++
             [{| r_Epoch := 0; r_StartedUnixMilli := op_TimeUnixMilli op; r_Shred := false |}])).

Definition applyAdd `{Crypto} (s : MembershipState) (op : MemberOp) : result error MembershipState :=
  _ ← requireManage s op;
  fail_if ID_IsZero (op_Subject op) || negb (Role s (op_Subject op) =? RoleNone) || negb (assignableRole (op_Role op))
    with rejected ;;
  fail_if ms_requireVerified s && negb (op_Verified op) with [ErrUnverifiedMember] ;;
  fail_if op_Fingerprint op =?? array_zero 32 with rejected ;;
  fail_if negb (op_Epoch op =? ms_epoch s) with rejected ;;
  _ ← checkWraps s (op_Wraps op) [op_Subject op];
  Ok (s |> ms_set_members (<[op_Subject op := op_Role op]> (ms_members s))
        |> ms_set_fingerprints (<[op_Subject op := op_Fingerprint op]> (ms_fingerprints s))).

Definition applyChangeRole (s : MembershipState) (op : MemberOp) : result error MembershipState :=
  _ ← requireManage s op;
  let current := Role s (op_Subject op) in
  fail_if (current =? RoleNone) || (current =? RoleOwner) || negb (assignableRole (op_Role op)) with rejected ;;
  Ok (s |> ms_set_members (<[op_Subject op := op_Role op]> (ms_members s))).

Definition applyRemove (s : MembershipState) (op : MemberOp) : result error MembershipState :=
  let current := Role s (op_Subject op) in
  fail_if (current =? RoleNone) || (current =? RoleOwner) with rejected ;;
  _ ← (if op_Author op <>? op_Subject op then requireManage s op else Ok ());
  Ok (s |> ms_set_members (delete (op_Subject op) (ms_members s)) |> ms_set_pending true).

Definition applyRotate `{Crypto} (s : MembershipState) (op : MemberOp) : result error MembershipState :=
  _ ← requireManage s op;
  _ ← CheckNextEpoch (ms_epoch s);
  fail_if negb (op_Epoch op =? wrap32 (ms_epoch s + 1)) with rejected ;;
  (* s.rotations[len(s.rotations)-1] panics on an empty slice *)
  last ← match list.last (ms_rotations s) with Some r => Ok r | None => Err [GoPanic] end;
  fail_if op_TimeUnixMilli op <? r_StartedUnixMilli last with rejected ;;
  _ ← checkWraps s (op_Wraps op) (Members s);
  let s := s |> ms_set_revoked (foldl (λ acc d, {[d]} ∪ acc) (ms_revoked s) (op_RevokedDevices op)) in
  let s := s |> ms_set_epoch (op_Epoch op) in
  let s := s |> ms_set_rotations (ms_rotations s ++
             [{| r_Epoch := op_Epoch op; r_StartedUnixMilli := op_TimeUnixMilli op; r_Shred := op_Shred op |}]) in
  let s := if op_Shred op then s |> ms_set_shredSeq (op_Seq op) else s in
  Ok (s |> ms_set_pending false).

Definition applyRewrap `{Crypto} (s : MembershipState) (op : MemberOp) : result error MembershipState :=
  _ ← requireManage s op;
  fail_if (Role s (op_Subject op) =? RoleNone) || negb (op_Epoch op =? ms_epoch s) with rejected ;;
  _ ← checkWraps s (op_Wraps op) [op_Subject op];
  Ok s.

Definition applySetPolicy (s : MembershipState) (op : MemberOp) : result error MembershipState :=
  _ ← requireOwner s op;
  _ ← validRetention (op_RetentionDays op);
  Ok (s |> ms_set_policy (op_RetentionDays op) (op_RequireVerified op)).

Definition applyTransfer (s : MembershipState) (op : MemberOp) : result error MembershipState :=
  _ ← requireOwner s op;
  let current := Role s (op_Subject op) in
  fail_if (current =? RoleNone) || (current =? RoleOwner) with rejected ;;
  Ok (s |> ms_set_members (<[op_Subject op := RoleOwner]> (<[op_Author op := RoleAdmin]> (ms_members s)))
        |> ms_set_owner (op_Subject op)).

Definition applyDelete (s : MembershipState) (op : MemberOp) : result error MembershipState :=
  _ ← requireOwner s op;
  Ok (s |> ms_set_deleted true).

Definition applyKind `{Crypto} (s : MembershipState) (op : MemberOp) : result error MembershipState :=
  fail_if op_Shred op && negb (op_Kind op =? MemberRotateEpoch) with rejected ;;
  if op_Kind op =? MemberCreate then applyCreate s op
  else if op_Kind op =? MemberAdd then applyAdd s op
  else if op_Kind op =? MemberChangeRole then applyChangeRole s op
  else if op_Kind op =? MemberRemove then applyRemove s op
  else if op_Kind op =? MemberRotateEpoch then applyRotate s op
  else if op_Kind op =? MemberRewrap then applyRewrap s op
  else if op_Kind op =? MemberSetPolicy then applySetPolicy s op
  else if op_Kind op =? MemberTransferOwnership then applyTransfer s op
  else if op_Kind op =? MemberDeleteVault then applyDelete s op
  else Err rejected.

Definition preconditions (s : MembershipState) (op : MemberOp) : result error SuiteParams :=
  fail_if ms_deleted s with [ErrVaultDeleted] ;;
  fail_if ms_pendingRotation s && negb (op_Kind op =? MemberRotateEpoch) with [ErrRotationRequired] ;;
  fail_if xorb (ms_seq s =? 0) (op_Kind op =? MemberCreate) with rejected ;;
  match LookupSuite (op_Suite op) MinAcceptedSuite with
  | Ok params => Ok params
  | Err _ => Err rejected    (* formatted with %v: the cause is not wrapped *)
  end.

(** [SignatureCheck]: account, device, algorithm, message, signature. *)
Definition SignatureCheck : Type := ID → ID → Z → bytes → bytes → result error unit.

Definition MM (A : Type) : Type := ST MembershipState error A.
#[export] Instance MM_bind : MBind MM := ST_bind.

Definition MembershipState_Apply `{Crypto} (check : SignatureCheck) (op : MemberOp) : MM unit :=
  s ← st_get;
  _ ← (st_lift (fail_if (op_Vault op <>? ms_vault s) || negb (op_Seq op =? wrap64 (ms_seq s + 1))
                         || (op_Prev op <>? ms_hash s) with rejected ;; Ok ()) : MM unit);
  msg ← (st_lift (MemberOp_SigningBytes op) : MM bytes);
  _ ← (st_lift (fail_if IsDeviceRevoked s (op_AuthorDevice op) with [ErrRevokedDevice] ;; Ok ()) : MM unit);
  _ ← (st_lift (check (op_Author op) (op_AuthorDevice op) (op_SigAlg op) msg (op_Sig op)) : MM unit);
  params ← (st_lift (preconditions s op) : MM SuiteParams);
  let next := s |> ms_set_params params in
  next ← (st_lift (applyKind next op) : MM MembershipState);
  h ← (st_lift (MemberOp_hash op msg) : MM hash);
  st_put (next |> ms_set_pos (op_Seq op) h).

(** Replaying one operation: the state after it, or the error. *)
Definition member_step `{Crypto} (check : SignatureCheck) (s : MembershipState) (op : MemberOp) :
    result error MembershipState :=
  match MembershipState_Apply check op s with (Ok _, s') => Ok s' | (Err e, _) => Err e end.
