(* ===== verification/MembershipLog.v ===== *)
(** * MembershipLog: what a replayed membership log guarantees *)

From S2P Require Import Prelude Bytes SyncBase Canon Sha2 HashChain Retention Membership.

(** ** Encoding of an operation *)

Definition wrap_fields (w : KeyWrap) : list bytes :=
  [vec_to_list (kw_Member w); vec_to_list (kw_Digest w); vec_to_list (kw_Recipient w)].

Definition op_head_fields (op : MemberOp) : list bytes :=
  [bytes_of_string LabelMemberSig; vec_to_list (op_Vault op); be_bytes 8 (op_Seq op); vec_to_list (op_Prev op);
   be_bytes 2 (op_Kind op); vec_to_list (op_Author op); vec_to_list (op_AuthorDevice op); vec_to_list (op_Subject op);
   be_bytes 2 (op_Role op); bool_field (op_Verified op); vec_to_list (op_Fingerprint op); be_bytes 2 (op_Suite op);
   be_bytes 4 (op_Epoch op); be_bytes 8 (len (op_Wraps op))].
Definition op_tail_fields (op : MemberOp) : list bytes :=
  [be_bytes 2 (op_RetentionDays op); bool_field (op_RequireVerified op); bool_field (op_Shred op);
   be_bytes 8 (op_TimeUnixMilli op); be_bytes 2 (op_SigAlg op)].
Definition op_fields (op : MemberOp) : list bytes :=
  op_head_fields op ++ concat (wrap_fields <$> op_Wraps op) ++ id_fields (op_RevokedDevices op) ++ op_tail_fields op.

Definition op_hash_fields (op : MemberOp) : list bytes :=
  [bytes_of_string LabelMemberHash; frames (op_fields op); op_Sig op].
Definition op_input (op : MemberOp) : bytes := frames (op_hash_fields op).
#[global] Arguments op_fields : simpl never.
#[global] Arguments op_input : simpl never.

(** The ranges the Go types of the fields guarantee. *)
Definition MemberOp_wf (op : MemberOp) : Prop :=
  u64 (op_Seq op) ∧ u16 (op_Kind op) ∧ u16 (op_Role op) ∧ u16 (op_Suite op) ∧ u32 (op_Epoch op) ∧
  u64 (len (op_Wraps op)) ∧ u64 (len (op_RevokedDevices op)) ∧ u16 (op_RetentionDays op) ∧
  u64 (op_TimeUnixMilli op) ∧ u16 (op_SigAlg op).

Definition op_sized (op : MemberOp) : Prop := Forall field_small (op_hash_fields op).

(** An operation with other wraps; [op_strip] is the one whose wraps were all stripped. *)
Definition op_with_wraps (op : MemberOp) (ws : list KeyWrap) : MemberOp :=
  {| op_Vault := op_Vault op; op_Seq := op_Seq op; op_Prev := op_Prev op; op_Kind := op_Kind op;
     op_Author := op_Author op; op_AuthorDevice := op_AuthorDevice op; op_Subject := op_Subject op;
     op_Role := op_Role op; op_Verified := op_Verified op; op_Fingerprint := op_Fingerprint op;
     op_Suite := op_Suite op; op_Epoch := op_Epoch op; op_Wraps := ws; op_RevokedDevices := op_RevokedDevices op;
     op_RetentionDays := op_RetentionDays op; op_RequireVerified := op_RequireVerified op; op_Shred := op_Shred op;
     op_TimeUnixMilli := op_TimeUnixMilli op; op_SigAlg := op_SigAlg op; op_Sig := op_Sig op |}.
Definition op_strip (op : MemberOp) : MemberOp := op_with_wraps op (Strip <$> op_Wraps op).

Lemma foldl_wraps c ws : foldl Canon_Wrap c ws = foldl add_field c (concat (wrap_fields <$> ws)).
Proof. revert c. induction ws as [|w ws IH]; intros c; [done|]. cbn. by rewrite IH. Qed.

Lemma op_fields_small op : Forall field_small (op_fields op).
Proof.
  unfold op_fields, op_head_fields, op_tail_fields, id_fields. rewrite !Forall_app. split_and!; [solve_small| | |solve_small].
  - apply Forall_concat, Forall_fmap, Forall_true. intros w. cbn. unfold wrap_fields. solve_small.
  - apply Forall_cons. split; [solve_small|]. apply Forall_fmap, Forall_true. intros i. cbn. solve_small.
Qed.

Lemma MemberOp_SigningBytes_eq op : MemberOp_SigningBytes op = Ok (frames (op_fields op)).
Proof.
  transitivity (Encoded (fields_canon (op_fields op))); [|apply fields_ok, op_fields_small].
  unfold MemberOp_SigningBytes, op_fields. rewrite foldl_wraps, Canon_IDs_fields.
  rewrite app_assoc, app_assoc, fields_canon_app, fields_canon_app, fields_canon_app. f_equal.
  unfold op_head_fields, op_tail_fields. canon_fields.
Qed.

Section membership.
Context `{Crypto}.

Lemma MemberOp_hash_Ok op h :
  MemberOp_hash op (frames (op_fields op)) = Ok h ↔ op_sized op ∧ h = sha256 (op_input op).
Proof.
  unfold op_sized, op_input. rewrite <- Sum_fields.
  assert (MemberOp_hash op (frames (op_fields op)) = Sum (fields_canon (op_hash_fields op))) as ->; [|done].
  unfold MemberOp_hash, op_hash_fields. canon_fields.
Qed.

Lemma concat_wrap_fields_inj ws ws' r r' :
  length ws = length ws' →
  concat (wrap_fields <$> ws) ++ r = concat (wrap_fields <$> ws') ++ r' → Strip <$> ws = Strip <$> ws' ∧ r = r'.
Proof.
  revert ws'. induction ws as [|w ws IH]; intros [|w' ws'] Hl E; [done..|].
  cbn [fmap list_fmap concat] in E. rewrite <- !app_assoc in E. unfold wrap_fields at 1 3 in E. cbn [app] in E.
  apply cons_inj in E as [E1 E]. apply cons_inj in E as [E2 E]. apply cons_inj in E as [E3 E].
  apply IH in E as [E ->]; [|by injection Hl]. split; [|done]. cbn [fmap list_fmap]. field_inj.
  rewrite E. f_equal. unfold Strip. f_equal; assumption.
Qed.

Lemma id_fields_inj (ids ids' : list ID) r r' :
  u64 (len ids) → u64 (len ids') → id_fields ids ++ r = id_fields ids' ++ r' → ids = ids' ∧ r = r'.
Proof.
  intros Hi Hi' E. unfold id_fields in E. cbn [app] in E. apply cons_inj in E as [El E].
  apply be8_inj in El; [|done..]. assert (length ids = length ids') as Hl by lia.
  apply app_inj_len in E as [E ->]; [|by rewrite !length_fmap]. split; [|done].
  revert E. apply list_fmap_eq_inj. intros x y. apply vec_to_list_inj2.
Qed.

(** The signed bytes fix everything but the signature and the wraps' ciphertexts. *)
Lemma op_fields_inj op op' :
  MemberOp_wf op → MemberOp_wf op' → op_fields op = op_fields op' → op_Sig op = op_Sig op' → op_strip op = op_strip op'.
Proof.
  intros (?&?&?&?&?&?&?&?&?&?) (?&?&?&?&?&?&?&?&?&?) E Hs. unfold op_fields in E.
  apply app_inj_len in E as [E1 E]; [|done]. unfold op_head_fields in E1. field_inj.
  apply concat_wrap_fields_inj in E as [Ew E]; [|lia].
  apply id_fields_inj in E as [Er E]; [|done..]. unfold op_tail_fields in E. field_inj.
  unfold op_strip, op_with_wraps. f_equal; assumption.
Qed.

Lemma op_input_inj op op' :
  MemberOp_wf op → MemberOp_wf op' → op_sized op → op_sized op' →
  op_input op = op_input op' → op_strip op = op_strip op'.
Proof.
  intros W W' Z Z' E. unfold op_input in E. apply frames_inj in E; [|done..].
  unfold op_hash_fields in E. apply cons_inj in E as [_ E]. apply cons_inj in E as [Ef E]. apply cons_inj in E as [Es _].
  apply frames_inj in Ef; [|apply op_fields_small..]. by apply op_fields_inj.
Qed.

(** ** One accepted operation *)

Context (check : SignatureCheck).

Lemma MM_bind_run {A B} (m : MM A) (f : A → MM B) s :
  (m ≫= f) s = match m s with (Ok a, s') => f a s' | (Err e, s') => (Err e, s') end.
Proof. done. Qed.

Ltac mm_run := repeat first [ rewrite MM_bind_run | rewrite st_get_run | rewrite st_put_run | rewrite st_lift_run ].

Lemma member_step_run s op :
  MembershipState_Apply check op s =
  if (op_Vault op <>? ms_vault s) || negb (op_Seq op =? wrap64 (ms_seq s + 1)) || (op_Prev op <>? ms_hash s)
  then (Err rejected, s)
  else if IsDeviceRevoked s (op_AuthorDevice op) then (Err [ErrRevokedDevice], s)
  else match check (op_Author op) (op_AuthorDevice op) (op_SigAlg op) (frames (op_fields op)) (op_Sig op) with
       | Err e => (Err e, s)
       | Ok _ =>
           match preconditions s op with
           | Err e => (Err e, s)
           | Ok params =>
               match applyKind (ms_set_params params s) op with
               | Err e => (Err e, s)
               | Ok next =>
                   match MemberOp_hash op (frames (op_fields op)) with
                   | Err e => (Err e, s)
                   | Ok h => (Ok (), ms_set_pos (op_Seq op) h next)
                   end
               end
           end
       end.
Proof.
  unfold MembershipState_Apply. mm_run. destruct (_ || _); [done|]. rewrite MemberOp_SigningBytes_eq. mm_run.
  destruct (IsDeviceRevoked s _); [done|]. mm_run. destruct (check _ _ _ _ _) as [[]|]; [|done]. mm_run.
  destruct (preconditions s op); [|done]. mm_run. destruct (applyKind _ op); [|done]. mm_run.
  by destruct (MemberOp_hash op _).
Qed.

Record accepted (s : MembershipState) (op : MemberOp) : Prop := {
  ac_vault : op_Vault op = ms_vault s;
  ac_seq : op_Seq op = wrap64 (ms_seq s + 1);
  ac_prev : op_Prev op = ms_hash s;
  ac_device : op_AuthorDevice op ∉ ms_revoked s;
  ac_sig : check (op_Author op) (op_AuthorDevice op) (op_SigAlg op) (frames (op_fields op)) (op_Sig op) = Ok ();
  ac_live : ms_deleted s = false;
  ac_pending : ms_pendingRotation s = true → op_Kind op = MemberRotateEpoch;
  ac_create : ms_seq s = 0 ↔ op_Kind op = MemberCreate;
  ac_suite : op_Suite op = Suite1;
  ac_sized : op_sized op;
}.

Lemma preconditions_Ok s op p :
  preconditions s op = Ok p ↔
  ms_deleted s = false ∧ (ms_pendingRotation s = true → op_Kind op = MemberRotateEpoch) ∧
  (ms_seq s = 0 ↔ op_Kind op = MemberCreate) ∧ op_Suite op = Suite1 ∧ p = suite1_params.
Proof.
  unfold preconditions. rewrite !fail_if_Ok, andb_false_iff, negb_false_iff, Z.eqb_eq.
  assert (xorb (ms_seq s =? 0) (op_Kind op =? MemberCreate) = false ↔ (ms_seq s = 0 ↔ op_Kind op = MemberCreate)) as ->.
  { destruct (Z.eqb_spec (ms_seq s) 0), (Z.eqb_spec (op_Kind op) MemberCreate); cbn; naive_solver. }
  assert ((match LookupSuite (op_Suite op) MinAcceptedSuite with Ok q => Ok q | Err _ => Err rejected end) = Ok p ↔
          op_Suite op = Suite1 ∧ p = suite1_params) as ->.
  { rewrite <- LookupSuite_Ok. destruct (LookupSuite _ _); naive_solver. }
  destruct (ms_pendingRotation s); naive_solver.
Qed.

Lemma member_step_Ok s op s' :
  member_step check s op = Ok s' ↔
  accepted s op ∧ ∃ s1, applyKind (ms_set_params suite1_params s) op = Ok s1 ∧
                       s' = ms_set_pos (op_Seq op) (sha256 (op_input op)) s1.
Proof.
  unfold member_step. rewrite member_step_run. split.
  - destruct (_ || _) eqn:E1; [done|]. bool_simpl. rewrite Z.eqb_eq in *.
    unfold IsDeviceRevoked. case_bool_decide as E2; [done|]. destruct (check _ _ _ _ _) as [[]|] eqn:E3; [|done].
    destruct (preconditions s op) as [p|] eqn:E4; [|done]. apply preconditions_Ok in E4 as (?&?&?&?&->).
    destruct (applyKind _ op) as [s1|]; [|done].
    destruct (MemberOp_hash op _) as [h|] eqn:E5; [|done]. apply MemberOp_hash_Ok in E5 as [? ->].
    intros <-%Ok_inj. split; [done|]. eauto.
  - intros [[] (s1 & Hk & ->)]. rewrite !bool_decide_eq_true_2, (proj2 (Z.eqb_eq _ _)) by done. cbn [negb orb].
    unfold IsDeviceRevoked. rewrite bool_decide_eq_false_2 by done. rewrite ac_sig0.
    rewrite (proj2 (preconditions_Ok s op suite1_params)) by done. rewrite Hk.
    by rewrite (proj2 (MemberOp_hash_Ok op _)) by done.
Qed.

(** ** Wraps *)

Definition wrap_ok (s : MembershipState) (w : KeyWrap) : Prop := checkWrapContent s w = Ok ().

Lemma checkWrap_Ok s W w W' :
  checkWrap s W w = Ok W' ↔ kw_Member w ∈ W ∧ wrap_ok s w ∧ W' = W ∖ {[kw_Member w]}.
Proof.
  unfold checkWrap, wrap_ok. rewrite fail_if_Ok, negb_false_iff, bool_decide_eq_true, bind_Ok. split.
  - intros (?&[]&?&<-%Ok_inj). done.
  - intros (?&?&->). split; [done|]. by exists ().
Qed.

Lemma checkWrap_loop s W ws W' :
  foldM (checkWrap s) W ws = Ok W' →
  NoDup (kw_Member <$> ws) ∧ Forall (λ i, i ∈ W) (kw_Member <$> ws) ∧ Forall (wrap_ok s) ws.
Proof.
  revert W. induction ws as [|w ws IH]; intros W Hf; [repeat constructor|].
  cbn [foldM] in Hf. destruct (checkWrap s W w) as [W1|] eqn:E; [|done]. apply checkWrap_Ok in E as (?&?&->).
  apply IH in Hf as (Hn & Hin & ?). rewrite Forall_forall in Hin. cbn [fmap list_fmap]. split_and!.
  - constructor; [|done]. intros Hi%Hin. set_solver.
  - constructor; [done|]. apply Forall_forall. intros i Hi%Hin. set_solver.
  - by constructor.
Qed.

Lemma checkWraps_Ok s ws want :
  NoDup want → checkWraps s ws want = Ok () → kw_Member <$> ws ≡ₚ want ∧ Forall (wrap_ok s) ws.
Proof.
  intros Hnd. unfold checkWraps. rewrite fail_if_Ok, negb_false_iff, Z.eqb_eq, bind_Ok.
  intros (Hl & W & Hf & _). apply checkWrap_loop in Hf as (Hn & Hin & Hok). split; [|done].
  apply submseteq_length_Permutation; [|rewrite length_fmap; lia].
  apply NoDup_submseteq; [done|]. intros i Hi. rewrite Forall_forall in Hin. apply Hin in Hi. by apply elem_of_list_to_set in Hi.
Qed.

Lemma Members_perm s : Members s ≡ₚ (map_to_list (ms_members s)).*1.
Proof. apply merge_sort_Permutation. Qed.
Lemma Members_NoDup s : NoDup (Members s).
Proof. rewrite Members_perm. apply NoDup_fst_map_to_list. Qed.
Lemma elem_of_Members s id : id ∈ Members s ↔ is_Some (ms_members s !! id).
Proof.
  rewrite Members_perm, list_elem_of_fmap. split.
  - intros ([i r] & -> & Hi%elem_of_map_to_list). eauto.
  - intros [r Hr]. exists (id, r). split; [done|]. by apply elem_of_map_to_list.
Qed.

(** ** The effect of each kind of operation *)

Definition may_remove (s : MembershipState) (op : MemberOp) : Prop :=
  op_Author op = op_Subject op ∨ CanManage (Role s (op_Author op)) = true.
Definition ordinary_member (s : MembershipState) (id : ID) : Prop := Role s id ≠ RoleNone ∧ Role s id ≠ RoleOwner.

Inductive member_effect (s : MembershipState) (op : MemberOp) : MembershipState → Prop :=
  | me_create :
      op_Kind op = MemberCreate → op_Epoch op = 0 → op_RetentionDays op ≤ MaxRetentionDays →
      kw_Member <$> op_Wraps op ≡ₚ [op_Author op] →
      member_effect s op
        (s |> ms_set_members (<[op_Author op := RoleOwner]> (ms_members s))
           |> ms_set_owner (op_Author op) |> ms_set_creator (op_Author op)
           |> ms_set_policy (op_RetentionDays op) (op_RequireVerified op)
           |> ms_set_rotations (ms_rotations s ++
                [{| r_Epoch := 0; r_StartedUnixMilli := op_TimeUnixMilli op; r_Shred := false |}]))
  | me_add :
      op_Kind op = MemberAdd → CanManage (Role s (op_Author op)) = true → ID_IsZero (op_Subject op) = false →
      Role s (op_Subject op) = RoleNone → assignableRole (op_Role op) = true →
      (ms_requireVerified s = true → op_Verified op = true) → op_Fingerprint op ≠ array_zero 32 →
      op_Epoch op = ms_epoch s → kw_Member <$> op_Wraps op ≡ₚ [op_Subject op] →
      member_effect s op
        (s |> ms_set_members (<[op_Subject op := op_Role op]> (ms_members s))
           |> ms_set_fingerprints (<[op_Subject op := op_Fingerprint op]> (ms_fingerprints s)))
  | me_change :
      op_Kind op = MemberChangeRole → CanManage (Role s (op_Author op)) = true → ordinary_member s (op_Subject op) →
      assignableRole (op_Role op) = true →
      member_effect s op (s |> ms_set_members (<[op_Subject op := op_Role op]> (ms_members s)))
  | me_remove :
      op_Kind op = MemberRemove → ordinary_member s (op_Subject op) → may_remove s op →
      member_effect s op (s |> ms_set_members (delete (op_Subject op) (ms_members s)) |> ms_set_pending true)
  | me_rotate last :
      op_Kind op = MemberRotateEpoch → CanManage (Role s (op_Author op)) = true → ms_epoch s ≠ MaxUint32 →
      op_Epoch op = wrap32 (ms_epoch s + 1) → list.last (ms_rotations s) = Some last →
      r_StartedUnixMilli last ≤ op_TimeUnixMilli op → kw_Member <$> op_Wraps op ≡ₚ Members s →
      member_effect s op
        (let s := s |> ms_set_revoked (foldl (λ acc d, {[d]} ∪ acc) (ms_revoked s) (op_RevokedDevices op)) in
         let s := s |> ms_set_epoch (op_Epoch op) in
         let s := s |> ms_set_rotations (ms_rotations s ++
           [{| r_Epoch := op_Epoch op; r_StartedUnixMilli := op_TimeUnixMilli op; r_Shred := op_Shred op |}]) in
         let s := if op_Shred op then s |> ms_set_shredSeq (op_Seq op) else s in
         s |> ms_set_pending false)
  | me_rewrap :
      op_Kind op = MemberRewrap → CanManage (Role s (op_Author op)) = true → Role s (op_Subject op) ≠ RoleNone →
      op_Epoch op = ms_epoch s → kw_Member <$> op_Wraps op ≡ₚ [op_Subject op] → member_effect s op s
  | me_policy :
      op_Kind op = MemberSetPolicy → Role s (op_Author op) = RoleOwner → op_RetentionDays op ≤ MaxRetentionDays →
      member_effect s op (s |> ms_set_policy (op_RetentionDays op) (op_RequireVerified op))
  | me_transfer :
      op_Kind op = MemberTransferOwnership → Role s (op_Author op) = RoleOwner → ordinary_member s (op_Subject op) →
      member_effect s op
        (s |> ms_set_members (<[op_Subject op := RoleOwner]> (<[op_Author op := RoleAdmin]> (ms_members s)))
           |> ms_set_owner (op_Subject op))
  | me_delete :
      op_Kind op = MemberDeleteVault → Role s (op_Author op) = RoleOwner → member_effect s op (s |> ms_set_deleted true).

Lemma requireManage_Ok s op : requireManage s op = Ok () ↔ CanManage (Role s (op_Author op)) = true.
Proof. unfold requireManage. rewrite fail_if_Ok, negb_false_iff. naive_solver. Qed.
Lemma requireOwner_Ok s op : requireOwner s op = Ok () ↔ Role s (op_Author op) = RoleOwner.
Proof. unfold requireOwner. rewrite fail_if_Ok, negb_false_iff, Z.eqb_eq. naive_solver. Qed.
Lemma validRetention_Ok d : validRetention d = Ok () ↔ d ≤ MaxRetentionDays.
Proof. unfold validRetention. rewrite fail_if_Ok, Z.ltb_ge. naive_solver. Qed.
Lemma ordinary_iff s id : (Role s id =? RoleNone) || (Role s id =? RoleOwner) = false ↔ ordinary_member s id.
Proof. rewrite orb_false_iff, !Z.eqb_neq. done. Qed.

(** Turns the guards of a rule into what they require. *)
Ltac rule_inv :=
  repeat match goal with
  | x : () |- _ => destruct x
  | Hr : (_ ≫= _) = Ok _ |- _ => apply bind_Ok in Hr as ([] & ? & Hr)
  | Hr : (if _ then Err _ else _) = Ok _ |- _ => apply fail_if_Ok in Hr as [? Hr]
  | Hr : Ok _ = Ok _ |- _ => apply Ok_inj in Hr as <-
  | Hr : requireManage _ _ = Ok _ |- _ => apply requireManage_Ok in Hr
  | Hr : requireOwner _ _ = Ok _ |- _ => apply requireOwner_Ok in Hr
  | Hr : validRetention _ = Ok _ |- _ => apply validRetention_Ok in Hr
  | Hr : (Role _ _ =? RoleNone) || (Role _ _ =? RoleOwner) = false |- _ => apply ordinary_iff in Hr
  | Hr : checkWraps _ _ [_] = Ok _ |- _ => apply checkWraps_Ok in Hr as [? _]; [|apply NoDup_singleton]
  | Hr : checkWraps _ _ (Members _) = Ok _ |- _ => apply checkWraps_Ok in Hr as [? _]; [|apply Members_NoDup]
  | Hr : _ || _ = false |- _ => apply orb_false_iff in Hr as [? ?]
  | Hr : negb _ = false |- _ => apply negb_false_iff in Hr
  | Hr : (_ =? _) = true |- _ => apply Z.eqb_eq in Hr
  | Hr : (_ =? _) = false |- _ => apply Z.eqb_neq in Hr
  | Hr : bool_decide _ = false |- _ => apply bool_decide_eq_false in Hr
  | Hr : (_ <? _) = false |- _ => apply Z.ltb_ge in Hr
  end.

Lemma applyRotate_Ok s op s' : op_Kind op = MemberRotateEpoch → applyRotate s op = Ok s' → member_effect s op s'.
Proof.
  unfold applyRotate, CheckNextEpoch. intros Hk Hr. apply bind_Ok in Hr as ([] & Hm & Hr).
  apply bind_Ok in Hr as ([] & He & Hr). apply fail_if_Ok in Hr as [Hep Hr]. apply bind_Ok in Hr as (last & Hl & Hr).
  rule_inv. destruct (list.last (ms_rotations s)) as [r|] eqn:E; [|done]. apply Ok_inj in Hl as ->.
  by eapply me_rotate.
Qed.

Lemma applyKind_Ok s op s' : applyKind s op = Ok s' → member_effect s op s'.
Proof.
  unfold applyKind. intros Hr. apply fail_if_Ok in Hr as [_ Hr].
  destruct (Z.eqb_spec (op_Kind op) MemberCreate); [unfold applyCreate in Hr; rule_inv; by constructor|].
  destruct (Z.eqb_spec (op_Kind op) MemberAdd).
  { unfold applyAdd in Hr. apply bind_Ok in Hr as ([] & Hm & Hr). apply fail_if_Ok in Hr as [Hg Hr].
    apply fail_if_Ok in Hr as [Hv Hr]. rule_inv. constructor; try done.
    intros Hq. rewrite Hq in Hv. cbn in Hv. by apply negb_false_iff in Hv. }
  destruct (Z.eqb_spec (op_Kind op) MemberChangeRole).
  { unfold applyChangeRole in Hr. rule_inv. constructor; try done. }
  destruct (Z.eqb_spec (op_Kind op) MemberRemove).
  { unfold applyRemove in Hr. apply fail_if_Ok in Hr as [Hg Hr]. apply bind_Ok in Hr as ([] & Hm & Hr). rule_inv.
    constructor; [done|done|]. unfold may_remove. case_bool_decide; [by left|]. cbn in Hm. rule_inv. by right. }
  destruct (Z.eqb_spec (op_Kind op) MemberRotateEpoch); [by apply applyRotate_Ok|].
  destruct (Z.eqb_spec (op_Kind op) MemberRewrap); [unfold applyRewrap in Hr; rule_inv; by constructor|].
  destruct (Z.eqb_spec (op_Kind op) MemberSetPolicy); [unfold applySetPolicy in Hr; rule_inv; by constructor|].
  destruct (Z.eqb_spec (op_Kind op) MemberTransferOwnership); [unfold applyTransfer in Hr; rule_inv; by constructor|].
  destruct (Z.eqb_spec (op_Kind op) MemberDeleteVault); [unfold applyDelete in Hr; rule_inv; by constructor|done].
Qed.

(** ** Genesis and invariant *)

Definition member_genesis_input (vault : ID) : bytes :=
  frames [bytes_of_string LabelMemberHash; vec_to_list vault].
Definition membership_genesis (vault : ID) : MembershipState :=
  {| ms_vault := vault; ms_seq := 0; ms_hash := sha256 (member_genesis_input vault); ms_members := ∅;
     ms_owner := ID_zero; ms_creator := ID_zero;
     ms_fingerprints := ∅; ms_epoch := 0; ms_revoked := ∅; ms_retentionDays := 0; ms_requireVerified := false;
     ms_deleted := false; ms_pendingRotation := false; ms_rotations := []; ms_shredSeq := 0;
     ms_params := SuiteParams_zero |}.

Lemma NewMembershipState_eq v : NewMembershipState v = Ok (membership_genesis v).
Proof.
  unfold NewMembershipState, membership_genesis, member_genesis_input.
  assert (∀ c, c = fields_canon [bytes_of_string LabelMemberHash; vec_to_list v] →
    Sum c = Ok (sha256 (frames [bytes_of_string LabelMemberHash; vec_to_list v]))) as E.
  { intros ? ->. apply Sum_fields. split; [solve_small|done]. }
  rewrite E; [done|]. canon_fields.
Qed.

(** What holds of every vault once it has been created. *)
Record ms_inv (s : MembershipState) : Prop := {
  mi_owner : ms_members s !! ms_owner s = Some RoleOwner;
  mi_unique : ∀ id, ms_members s !! id = Some RoleOwner → id = ms_owner s;
  mi_roles : ∀ id r, ms_members s !! id = Some r → RoleViewer ≤ r ≤ RoleOwner;
  mi_prints : ∀ id r, ms_members s !! id = Some r →
    id = ms_creator s ∨ ∃ fp, ms_fingerprints s !! id = Some fp ∧ fp ≠ array_zero 32;
  mi_rotations : rotations_wf (ms_rotations s);
  mi_epoch : 0 ≤ ms_epoch s ∧ len (ms_rotations s) = ms_epoch s + 1;
  mi_retention : 0 ≤ ms_retentionDays s ≤ MaxRetentionDays;
  mi_shred : 0 ≤ ms_shredSeq s ≤ ms_seq s ∧
             (ms_shredSeq s = 0 ↔ Forall (λ r, r_Shred r = false) (ms_rotations s));
}.

Lemma Role_lookup s id : Role s id ≠ RoleNone → ms_members s !! id = Some (Role s id).
Proof. unfold Role. by destruct (ms_members s !! id). Qed.
Lemma Role_Some s id r : ms_members s !! id = Some r → Role s id = r.
Proof. unfold Role. by intros ->. Qed.
Lemma Role_None s id : ms_members s !! id = None → Role s id = RoleNone.
Proof. unfold Role. by intros ->. Qed.
Lemma Role_insert s id r id' :
  Role (ms_set_members (<[id := r]> (ms_members s)) s) id' = if decide (id = id') then r else Role s id'.
Proof. unfold Role. cbn. rewrite lookup_insert. by case_decide. Qed.

Lemma assignable_range r : assignableRole r = true ↔ RoleViewer ≤ r ≤ RoleAdmin.
Proof. unfold assignableRole. rewrite andb_true_iff, !Z.leb_le. done. Qed.

Lemma rotations_wf_snoc rs r last :
  rotations_wf rs → list.last rs = Some last → len rs ≤ MaxUint32 → r_Epoch r = len rs →
  r_StartedUnixMilli last ≤ r_StartedUnixMilli r → u64 (r_StartedUnixMilli r) → rotations_wf (rs ++ [r]).
Proof.
  intros [He Ht Hs Hl] Hlast Hb Hr Hle Hu. apply last_Some in Hlast as [rs0 ->]. constructor.
  - intros i r' Hi. apply lookup_app_Some in Hi as [Hi|[Hi E]]; [by apply He|].
    apply list_lookup_singleton_Some in E as [E <-]. lia.
  - intros i r1 r2 H1 H2. apply lookup_app_Some in H2 as [H2|[Hi E]].
    + rewrite lookup_app_l in H1 by (apply lookup_lt_Some in H2; lia). by eapply Ht.
    + apply list_lookup_singleton_Some in E as [E <-]. rewrite length_app in *. cbn in *.
      rewrite lookup_app_l in H1 by (rewrite length_app; cbn; lia). rewrite lookup_app_r in H1 by lia.
      replace (i - length rs0)%nat with 0%nat in H1 by lia. by injection H1 as <-.
  - by apply Forall_app_2; [|constructor].
  - rewrite length_app. cbn. lia.
Qed.

Lemma member_effect_create s op s' h :
  ms_seq s = 0 → s = membership_genesis (ms_vault s) → MemberOp_wf op → op_Kind op = MemberCreate →
  member_effect (ms_set_params suite1_params s) op s' → ms_inv (ms_set_pos 1 h s').
Proof.
  intros _ -> (_&_&_&_&_&_&_&[? _]&?&_) Hk Heff.
  destruct Heff as [_ ? ? ?|Hx|Hx|Hx|? Hx|Hx|Hx|Hx|Hx]; try (rewrite Hk in Hx; done).
  constructor; cbn.
  - by rewrite lookup_insert_eq.
  - intros id. rewrite lookup_insert. case_decide; [done|]. by rewrite lookup_empty.
  - intros id r. rewrite lookup_insert. case_decide; [by intros [= <-]|]. by rewrite lookup_empty.
  - intros id r. rewrite lookup_insert. case_decide; [by left|]. by rewrite lookup_empty.
  - constructor.
    + intros [|i] r; [by intros [= <-]|done].
    + by intros [|i] r r' ??.
    + by apply Forall_singleton.
    + done.
  - done.
  - done.
  - split; [lia|]. split; [intros _; by apply Forall_singleton|done].
Qed.

(** An insertion of an assignable role for someone who is not the owner keeps the role invariants. *)
Lemma ms_inv_insert s s' id r :
  ms_inv s → id ≠ ms_owner s → RoleViewer ≤ r ≤ RoleAdmin →
  ms_members s' = <[id := r]> (ms_members s) → ms_owner s' = ms_owner s →
  ms_members s' !! ms_owner s' = Some RoleOwner ∧
  (∀ i, ms_members s' !! i = Some RoleOwner → i = ms_owner s') ∧
  (∀ i q, ms_members s' !! i = Some q → RoleViewer ≤ q ≤ RoleOwner).
Proof.
  intros Hi Hne Hr Hm Ho. rewrite Hm, Ho. unfold RoleAdmin, RoleOwner in *. split_and!.
  - rewrite lookup_insert_ne by done. apply Hi.
  - intros i. rewrite lookup_insert. case_decide; [intros [= E]; lia|apply Hi].
  - intros i q. rewrite lookup_insert. case_decide; [intros [= <-]; lia|apply Hi].
Qed.

Lemma ordinary_not_owner s id : ms_inv s → ordinary_member s id → id ≠ ms_owner s.
Proof. intros Hi [_ Ho] ->. apply Ho, Role_Some, Hi. Qed.
Lemma Role_owner s id : ms_inv s → Role s id = RoleOwner → id = ms_owner s.
Proof. intros Hi Hr. apply (mi_unique s Hi). rewrite <- Hr. apply Role_lookup. by rewrite Hr. Qed.

(** Member additions and role changes. *)
Lemma ms_inv_members s id r fps q h :
  ms_inv s → id ≠ ms_owner s → RoleViewer ≤ r ≤ RoleAdmin → ms_seq s ≤ q →
  (∀ i, is_Some (ms_fingerprints s !! i) → fps !! i = ms_fingerprints s !! i ∨ ∃ fp, fps !! i = Some fp ∧ fp ≠ array_zero 32) →
  (is_Some (ms_members s !! id) ∨ ∃ fp, fps !! id = Some fp ∧ fp ≠ array_zero 32) →
  ms_inv (s |> ms_set_params suite1_params |> ms_set_members (<[id := r]> (ms_members s))
            |> ms_set_fingerprints fps |> ms_set_pos q h).
Proof.
  intros Hi Hne Hr Hq Hfps Hid.
  destruct (ms_inv_insert s (s |> ms_set_members (<[id := r]> (ms_members s))) id r) as (?&?&?); [done..|].
  constructor; try done; cbn; try apply Hi.
  - assert (∀ j, j = ms_creator s ∨ (∃ fp, ms_fingerprints s !! j = Some fp ∧ fp ≠ array_zero 32) →
              j = ms_creator s ∨ ∃ fp, fps !! j = Some fp ∧ fp ≠ array_zero 32) as Hkeep.
    { intros j [->|(fp&Hfp&Hz)]; [by left|right]. destruct (Hfps j ltac:(eauto)) as [->|?]; [eauto|done]. }
    intros i r0. rewrite lookup_insert. case_decide as Hd; [subst i; intros _|intros Hm].
    + destruct Hid as [[r1 Hm]|?]; [|by right]. apply Hkeep. by eapply mi_prints.
    + apply Hkeep. by eapply mi_prints.
  - destruct (mi_shred s Hi). split; [lia|done].
Qed.

Lemma ms_inv_rotate s op last q h :
  ms_inv s → MemberOp_wf op → ms_seq s ≤ q → op_Seq op = q → 0 < q → ms_epoch s ≠ MaxUint32 →
  op_Epoch op = wrap32 (ms_epoch s + 1) →
  list.last (ms_rotations s) = Some last → r_StartedUnixMilli last ≤ op_TimeUnixMilli op →
  ∀ rev p, let s1 := s |> ms_set_params p |> ms_set_revoked rev |> ms_set_epoch (op_Epoch op)
    |> ms_set_rotations (ms_rotations s ++
           [{| r_Epoch := op_Epoch op; r_StartedUnixMilli := op_TimeUnixMilli op; r_Shred := op_Shred op |}]) in
  ms_inv ((if op_Shred op then s1 |> ms_set_shredSeq (op_Seq op) else s1) |> ms_set_pending false |> ms_set_pos q h).
Proof.
  intros Hi (_&_&_&_&_&_&_&_&Ht&_) Hq Hs H0 He Hep Hl Hle rev p s1.
  pose proof (mi_epoch s Hi) as [He0 Hlen]. pose proof (rw_len _ (mi_rotations s Hi)) as Hmax.
  assert (op_Epoch op = ms_epoch s + 1) as Hep'.
  { rewrite Hep. unfold wrap32. apply Z.mod_small. solve_uint. }
  assert (rotations_wf (ms_rotations s1)) as Hw.
  { apply (rotations_wf_snoc _ _ last); [apply Hi|done|solve_uint|cbn; lia|done|done]. }
  destruct (mi_shred s Hi) as [Hsq Hsh].
  assert (∀ s2, ms_members s2 = ms_members s → ms_owner s2 = ms_owner s → ms_creator s2 = ms_creator s →
     ms_fingerprints s2 = ms_fingerprints s → ms_rotations s2 = ms_rotations s1 → ms_epoch s2 = op_Epoch op →
     ms_retentionDays s2 = ms_retentionDays s →
     0 ≤ ms_shredSeq s2 ≤ ms_seq s2 → (ms_shredSeq s2 = 0 ↔ Forall (λ r, r_Shred r = false) (ms_rotations s2)) → ms_inv s2) as K.
  { intros s2 E1 E2 E3 E4 E5 E6 E7 E8 E9. constructor; rewrite ?E1, ?E2, ?E3, ?E4, ?E5, ?E6, ?E7; try apply Hi; try done.
    - subst s1. cbn. rewrite length_app. cbn. split; lia.
    - by rewrite E5 in E9. }
  destruct (op_Shred op) eqn:Es; apply K; try done; cbn; try lia.
  - rewrite Forall_app, Forall_singleton. cbn. split; [lia|naive_solver].
  - rewrite Forall_app, Forall_singleton. cbn. naive_solver.
Qed.

Lemma member_effect_inv s op s' h :
  ms_inv s → MemberOp_wf op → op_Kind op ≠ MemberCreate → op_Seq op = ms_seq s + 1 →
  member_effect (ms_set_params suite1_params s) op s' → ms_inv (ms_set_pos (op_Seq op) h s').
Proof.
  intros Hi Hw Hk Hseq Heff. pose proof (mi_shred s Hi) as [Hsq Hsh].
  destruct Heff as [Hx|? ? _ Hnone Has _ Hfp|? ? Hord Has|? Hord _|last ? _ Hmax Hep Hl Hle _| |? _ Hret|? Ho Hord| ].
  - done.
  - change (Role s (op_Subject op) = RoleNone) in Hnone.
    apply (ms_inv_members s (op_Subject op) (op_Role op)); [done| |by apply assignable_range|lia| |].
    + intros E. by rewrite E, (Role_Some s _ _ (mi_owner s Hi)) in Hnone.
    + intros i _. rewrite lookup_insert. case_decide; eauto.
    + right. rewrite lookup_insert_eq. eauto.
  - change (ordinary_member s (op_Subject op)) in Hord.
    apply (ms_inv_members s (op_Subject op) (op_Role op) (ms_fingerprints s));
      [done|by apply ordinary_not_owner|by apply assignable_range|lia|by left|].
    left. destruct Hord as [Hn%Role_lookup _]. eauto.
  - change (ordinary_member s (op_Subject op)) in Hord. apply ordinary_not_owner in Hord; [|done].
    constructor; cbn; try apply Hi; [..|split; [lia|done]].
    + rewrite lookup_delete_ne by done. apply Hi.
    + intros id [_ ?]%lookup_delete_Some. by apply Hi.
    + intros id r [_ ?]%lookup_delete_Some. by eapply mi_roles.
    + intros id r [_ ?]%lookup_delete_Some. by eapply mi_prints.
  - by apply (ms_inv_rotate s op last (op_Seq op)); try done; lia.
  - constructor; cbn; try apply Hi. split; [lia|done].
  - destruct Hw as (_&_&_&_&_&_&_&[? _]&_). constructor; cbn; try apply Hi; [done|]. split; [lia|done].
  - change (ordinary_member s (op_Subject op)) in Hord. change (Role s (op_Author op) = RoleOwner) in Ho.
    pose proof (Role_owner s _ Hi Ho) as Ea. pose proof (ordinary_not_owner s _ Hi Hord) as Hne.
    destruct Hord as [Hn%Role_lookup _]. constructor; cbn; try apply Hi.
    + by rewrite lookup_insert_eq.
    + intros id. rewrite !lookup_insert. repeat case_decide; [done..|]. intros Hm%Hi. congruence.
    + intros id r. rewrite !lookup_insert. repeat case_decide; [by intros [= <-]..|]. by eapply mi_roles.
    + intros id r. rewrite !lookup_insert. repeat case_decide; subst; intros Hm.
      * by eapply mi_prints.
      * eapply mi_prints; [done|]. rewrite Ea. apply Hi.
      * by eapply mi_prints.
    + split; [lia|done].
  - constructor; cbn; try apply Hi. split; [lia|done].
Qed.

(** ** Whole logs *)

Lemma member_effect_vault s op s' : member_effect s op s' → ms_vault s' = ms_vault s.
Proof. intros []; try done. cbn. by destruct (op_Shred op). Qed.

Lemma replay_inv v ops s :
  foldM (member_step check) (membership_genesis v) ops = Ok s → Forall MemberOp_wf ops → len ops ≤ MaxUint64 →
  ms_seq s = len ops ∧ ms_vault s = v ∧ (if ops is [] then s = membership_genesis v else ms_inv s).
Proof.
  revert s. induction ops as [|op ops IH] using rev_ind; intros s Hr Hw Hl.
  - apply Ok_inj in Hr as <-. done.
  - apply foldM_snoc_Ok in Hr as (s1 & Hr & Hs). apply Forall_app in Hw as [Hw1 [Hw _]%Forall_cons].
    rewrite length_app in Hl. cbn in Hl. destruct (IH s1) as (Hq & Hv & Hi); [done|done|lia|].
    apply member_step_Ok in Hs as ([] & s2 & Hk%applyKind_Ok & ->).
    assert (op_Seq op = ms_seq s1 + 1) as Hseq by (rewrite ac_seq0; apply wrap64_succ; solve_uint).
    rewrite length_app. cbn [length ms_seq ms_set_pos ms_vault].
    split_and!; [lia|by apply member_effect_vault in Hk as ->|].
    destruct ops as [|op0 ops].
    + subst s1. replace (op_Seq op) with 1 by (cbn in *; lia).
      apply (member_effect_create (membership_genesis v) op); [done..|by apply ac_create0|done].
    + apply (member_effect_inv s1); [done|done| |done|done].
      rewrite <- ac_create0, Hq. cbn [length]. lia.
Qed.

(** C8. In every log replayed from a vault's genesis the membership state is well formed: exactly one
    member is the owner, every role is one of the four, every member but the creator has a recorded
    key fingerprint, the rotation history has one entry per epoch in order with non-decreasing times,
    and the retention window is within its cap. *)
Theorem membership_invariant (v : ID) (ops : list MemberOp) (s0 s : MembershipState) :
  NewMembershipState v = Ok s0 → foldM (member_step check) s0 ops = Ok s → ops ≠ [] →
  Forall MemberOp_wf ops → len ops ≤ MaxUint64 →
  ms_inv s ∧ ms_seq s = len ops ∧ ms_vault s = v.
Proof.
  rewrite NewMembershipState_eq. intros <-%Ok_inj Hr Hne Hw Hl.
  destruct (replay_inv v ops s) as (?&?&Hi); [done..|]. by destruct ops.
Qed.

Lemma roles_effect s op s' id :
  member_effect s op s' → op_Kind op ≠ MemberCreate →
  Role s' id = Role s id ∨
  (CanManage (Role s (op_Author op)) = true ∧ id = op_Subject op ∧ Role s id ≠ RoleOwner ∧
   Role s' id = op_Role op ∧ RoleViewer ≤ op_Role op ≤ RoleAdmin) ∨
  (op_Kind op = MemberRemove ∧ id = op_Subject op ∧ Role s id ≠ RoleOwner ∧ may_remove s op ∧ Role s' id = RoleNone) ∨
  (op_Kind op = MemberTransferOwnership ∧ Role s (op_Author op) = RoleOwner ∧ ordinary_member s (op_Subject op) ∧
   ((id = op_Subject op ∧ Role s' id = RoleOwner) ∨ (id = op_Author op ∧ Role s' id = RoleAdmin))).
Proof.
  intros Heff Hc.
  assert (∀ m x, Role (ms_set_members m x) id = default RoleNone (m !! id)) as HR by done.
  destruct Heff as [Hx|? Hm _ Hnone Has|? Hm [_ Hord] Has|? [_ Hord] Hmay|last ? Hm| | |? Ho Hord| ];
    [done| | | | |by left|by left| |by left].
  - change (Role _ id) with (Role (ms_set_members (<[op_Subject op := op_Role op]> (ms_members s)) s) id) at 1 4.
    rewrite HR, lookup_insert. case_decide; [subst id|by left]. right; left. apply assignable_range in Has.
    by rewrite Hnone.
  - rewrite HR, lookup_insert. case_decide; [subst id|by left]. right; left. by apply assignable_range in Has.
  - change (Role (ms_set_pending _ _) id) with (Role (ms_set_members (delete (op_Subject op) (ms_members s)) s) id).
    rewrite HR, lookup_delete. case_decide; [subst id|by left]. right; right; left. done.
  - left. unfold Role. cbn. by destruct (op_Shred op).
  - change (Role (ms_set_owner _ _) id) with
      (Role (ms_set_members (<[op_Subject op := RoleOwner]> (<[op_Author op := RoleAdmin]> (ms_members s))) s) id).
    rewrite HR, !lookup_insert. repeat case_decide; [right; right; right; subst..|by left]; split_and!; auto.
Qed.

(** C9. No operation escalates a role: a role changes only by an operation of someone who may manage
    the vault, or by a member removing themselves; and ownership moves only by the owner's own
    transfer, which names an existing member and leaves the previous owner an admin. *)
Theorem no_escalation (v : ID) (ops : list MemberOp) (s0 s s' : MembershipState) (op : MemberOp) (id : ID) :
  NewMembershipState v = Ok s0 → foldM (member_step check) s0 ops = Ok s → ops ≠ [] →
  Forall MemberOp_wf ops → len ops ≤ MaxUint64 →
  member_step check s op = Ok s' → Role s' id ≠ Role s id →
  (CanManage (Role s (op_Author op)) = true ∨
   (op_Kind op = MemberRemove ∧ id = op_Author op ∧ Role s' id = RoleNone)) ∧
  (Role s id = RoleOwner → op_Kind op = MemberTransferOwnership ∧ op_Author op = id ∧ Role s' id = RoleAdmin) ∧
  (Role s' id = RoleOwner →
   op_Kind op = MemberTransferOwnership ∧ op_Subject op = id ∧ Role s id ≠ RoleNone ∧ Role s (op_Author op) = RoleOwner).
Proof.
  rewrite NewMembershipState_eq. intros <-%Ok_inj Hr Hne Hw Hl.
  destruct (replay_inv v ops s) as (Hq&_&Hi); [done..|]. destruct ops as [|op0 ops]; [done|].
  intros ([] & s2 & Heff%applyKind_Ok & ->)%member_step_Ok Hd.
  assert (op_Kind op ≠ MemberCreate) as Hc by (rewrite <- ac_create0, Hq; cbn; lia).
  apply (roles_effect _ _ _ id) in Heff; [|done].
  change (Role (ms_set_pos _ _ s2) id) with (Role s2 id) in *.
  change (Role (ms_set_params _ s) ?i) with (Role s i) in *. unfold RoleNone, RoleOwner, RoleAdmin in *.
  destruct Heff as [?|[(?&->&?&?&?)|[(?&->&?&Hmay&?)|(?&Ho&Hord&[[-> ?]|[-> ?]])]]]; [done|..].
  - split; [by left|]. split; [done|lia].
  - split; [|by split; [|lia]]. destruct Hmay as [E|?]; [right; split_and!; done|by left].
  - destruct Hord as [??]. split; [left; by rewrite Ho|]. done.
  - split; [left; by rewrite Ho|]. split; [done|lia].
Qed.

(** ** Tamper evidence *)

#[local] Program Instance member_chain : HashChain MembershipState MemberOp := {|
  hc_step := member_step check;
  hc_hash := ms_hash;
  hc_prev := op_Prev;
  hc_input := op_input;
  hc_wf := MemberOp_wf;
  hc_sized := op_sized;
|}.
Next Obligation. intros s e s' ([] & s1 & _ & ->)%member_step_Ok. done. Qed.
Next Obligation.
  intros e1 e2 ???? E. apply op_input_inj in E; [|done..]. by apply (f_equal op_Prev) in E.
Qed.

Lemma member_genesis_not_op v op : op_sized op → op_input op ≠ member_genesis_input v.
Proof.
  intros Hs E. unfold op_input, member_genesis_input in E. apply frames_inj in E; [|done|solve_small].
  unfold op_hash_fields in E. by field_inj.
Qed.

(** Two membership logs replayed from their vaults' genesis to one chain hash - the hash a vault
    head commits to - are logs of one vault and, operation by operation, equal in every signed field
    and in the signature; only the ciphertexts of wraps, which the server may strip, can differ. *)
Theorem membership_log_unique (v1 v2 : ID) (g1 g2 s1 s2 : MembershipState) (ops1 ops2 : list MemberOp) :
  NewMembershipState v1 = Ok g1 → NewMembershipState v2 = Ok g2 →
  foldM (member_step check) g1 ops1 = Ok s1 → foldM (member_step check) g2 ops2 = Ok s2 → ms_hash s1 = ms_hash s2 →
  Forall MemberOp_wf ops1 → Forall MemberOp_wf ops2 →
  collision_free (λ x, x = member_genesis_input v1 ∨ x = member_genesis_input v2 ∨ x ∈ op_input <$> ops1 ++ ops2) →
  v1 = v2 ∧ op_strip <$> ops1 = op_strip <$> ops2.
Proof.
  rewrite !NewMembershipState_eq. intros <-%Ok_inj <-%Ok_inj A1 A2 Hh W1 W2 Hc.
  pose proof (hc_replay_sized (HC := member_chain) _ _ _ A1) as Z1.
  pose proof (hc_replay_sized (HC := member_chain) _ _ _ A2) as Z2. cbn [hc_sized member_chain] in Z1, Z2.
  destruct (chain_unique (HC := member_chain) (membership_genesis v1) (membership_genesis v2) _ _ ops1 ops2
    (member_genesis_input v1) (member_genesis_input v2) eq_refl eq_refl A1 A2 Hh W1 W2) as [Hg HF]; [|exact Hc|].
  - rewrite Forall_forall in Z1, Z2.
    intros op [Hin|Hin]%elem_of_app; split; apply member_genesis_not_op; auto.
  - unfold member_genesis_input in Hg. apply frames_inj in Hg; [|solve_small..]. field_inj. split; [done|].
    cbn [hc_input member_chain] in HF. clear -HF W1 W2 Z1 Z2.
    induction HF as [|h1 h2 hs1 hs2 E HF IH]; [done|].
    apply Forall_cons in W1 as [??], W2 as [??], Z1 as [??], Z2 as [??].
    cbn [fmap list_fmap]. f_equal; [by apply op_input_inj|by apply IH].
Qed.

(** ** Stripped logs *)

(** [ws'] is [ws] with some ciphertexts removed. *)
Definition wraps_stripped (ws ws' : list KeyWrap) : Prop := Forall2 (λ w w', w' = w ∨ w' = Strip w) ws ws'.
Definition op_stripped (op op' : MemberOp) : Prop :=
  ∃ ws', wraps_stripped (op_Wraps op) ws' ∧ op' = op_with_wraps op ws'.

Lemma stripped_fields op ws' : wraps_stripped (op_Wraps op) ws' → op_fields (op_with_wraps op ws') = op_fields op.
Proof.
  intros Hs. unfold op_fields, op_head_fields, op_tail_fields. cbn.
  rewrite <- (Forall2_length _ _ _ Hs).
  assert (wrap_fields <$> ws' = wrap_fields <$> op_Wraps op) as ->; [|done].
  induction Hs as [|w w' ws ws' [->| ->] _ IH]; cbn; by rewrite ?IH.
Qed.

Lemma checkWrap_strip s W w W' : checkWrap s W w = Ok W' → checkWrap s W (Strip w) = Ok W'.
Proof. rewrite !checkWrap_Ok. cbn. intros (?&?&->). done. Qed.

Lemma checkWraps_stripped s ws ws' want :
  wraps_stripped ws ws' → checkWraps s ws want = Ok () → checkWraps s ws' want = Ok ().
Proof.
  intros Hs. unfold checkWraps. rewrite !fail_if_Ok, !bind_Ok, (Forall2_length _ _ _ Hs).
  intros (Hl & W & Hf & _). split; [done|]. exists W. split; [|done]. clear Hl.
  revert Hf. generalize (list_to_set want : gset ID) as W0.
  induction Hs as [|w w' ws ws' Hw _ IH]; intros W0 Hf; [done|]. cbn [foldM] in *.
  destruct (checkWrap s W0 w) as [W1|] eqn:E; [|done].
  destruct Hw as [->| ->]; [rewrite E|rewrite (checkWrap_strip _ _ _ _ E)]; by apply IH.
Qed.

Ltac op_proj :=
  cbn [op_Vault op_Seq op_Prev op_Kind op_Author op_AuthorDevice op_Subject op_Role op_Verified op_Fingerprint op_Suite
       op_Epoch op_Wraps op_RevokedDevices op_RetentionDays op_RequireVerified op_Shred op_TimeUnixMilli op_SigAlg op_Sig
       op_with_wraps].

(** A rule run on stripped wraps: the same guards, then the same result. *)
Ltac strip_rule :=
  op_proj;
  repeat match goal with
  | Hr : (_ ≫= _) = Ok _ |- _ => apply bind_Ok in Hr as ([] & ? & Hr)
  | Hr : (if ?c then Err _ else _) = Ok _ |- _ => apply fail_if_Ok in Hr as [? Hr]
  | Hr : ?c = false |- context [if ?c then Err _ else _] => rewrite Hr
  | Hr : checkWraps _ _ ?w = Ok _ |- context [checkWraps _ _ ?w] => erewrite checkWraps_stripped by eassumption
  | Hr : ?m = Ok _ |- context [?m ≫= _] => rewrite Hr
  | |- context [Ok _ ≫= _] => rewrite bind_ok_l
  end; try assumption.

Lemma applyKind_stripped s op ws' s' :
  wraps_stripped (op_Wraps op) ws' → applyKind s op = Ok s' → applyKind s (op_with_wraps op ws') = Ok s'.
Proof.
  intros Hs. unfold applyKind. change (op_Shred (op_with_wraps op ws')) with (op_Shred op).
  change (op_Kind (op_with_wraps op ws')) with (op_Kind op). rewrite !fail_if_Ok. intros [? Hr]. split; [done|]. revert Hr.
  repeat (case_match; [try exact id|]); [..|done].
  - unfold applyCreate. intros Hr. strip_rule.
  - unfold applyAdd. intros Hr. change (requireManage s (op_with_wraps op ws')) with (requireManage s op). strip_rule.
  - unfold applyRotate. intros Hr. change (requireManage s (op_with_wraps op ws')) with (requireManage s op).
    apply bind_Ok in Hr as ([] & -> & Hr). rewrite bind_ok_l. apply bind_Ok in Hr as ([] & -> & Hr). rewrite bind_ok_l.
    apply fail_if_Ok in Hr as [Hep Hr]. apply bind_Ok in Hr as (last & El & Hr). rewrite El, bind_ok_l.
    op_proj. rewrite Hep. strip_rule.
  - unfold applyRewrap. intros Hr. change (requireManage s (op_with_wraps op ws')) with (requireManage s op). strip_rule.
Qed.

Lemma member_step_stripped s op op' s' :
  op_stripped op op' → member_step check s op = Ok s' → member_step check s op' = Ok s'.
Proof.
  intros (ws' & Hs & ->) ([] & s1 & Hk & ->)%member_step_Ok. apply member_step_Ok.
  pose proof (stripped_fields op ws' Hs) as Hf.
  assert (op_hash_fields (op_with_wraps op ws') = op_hash_fields op) as Hh by (unfold op_hash_fields; by rewrite Hf).
  split.
  - constructor; try done; [by rewrite Hf|]. unfold op_sized. by rewrite Hh.
  - exists s1. split; [by apply applyKind_stripped|]. unfold op_input. by rewrite Hh.
Qed.

Lemma op_strip_stripped op : op_stripped op (op_strip op).
Proof. exists (Strip <$> op_Wraps op). split; [|done]. apply Forall2_fmap_r, Forall_Forall2_diag, Forall_true. auto. Qed.

Lemma op_strip_input op : op_input (op_strip op) = op_input op.
Proof.
  destruct (op_strip_stripped op) as (ws' & Hs & ->). unfold op_input, op_hash_fields. by rewrite stripped_fields.
Qed.

Lemma replay_stripped s s' ops ops' :
  Forall2 op_stripped ops ops' → foldM (member_step check) s ops = Ok s' → foldM (member_step check) s ops' = Ok s'.
Proof.
  intros HF. revert s. induction HF as [|op op' ops ops' Ho _ IH]; intros s Hr; [done|]. cbn [foldM] in *.
  destruct (member_step check s op) as [s1|] eqn:E; [|done]. rewrite (member_step_stripped _ _ _ _ Ho E). by apply IH.
Qed.

(** C33. A log from which the server removed any of the wrap ciphertexts replays to exactly the same
    membership state: pruning retired key wraps never changes who a vault's members are. *)
Theorem stripped_log_replays (s s' : MembershipState) (ops ops' : list MemberOp) :
  Forall2 op_stripped ops ops' → foldM (member_step check) s ops = Ok s' → foldM (member_step check) s ops' = Ok s'.
Proof.
  apply replay_stripped.
Qed.

(** ** Who holds the current vault key *)

(** The kinds whose wraps are checked and carry a vault key. *)
Definition carries_wraps (op : MemberOp) : bool :=
  (op_Kind op =? MemberCreate) || (op_Kind op =? MemberAdd) || (op_Kind op =? MemberRotateEpoch) || (op_Kind op =? MemberRewrap).

(** The accounts some operation of the log wrapped the key of epoch [e] for. *)
Definition key_holders (ops : list MemberOp) (e : Z) : list ID :=
  concat ((λ op, if carries_wraps op && (op_Epoch op =? e) then kw_Member <$> op_Wraps op else []) <$> ops).
#[local] Arguments key_holders : simpl never.

Lemma key_holders_snoc ops op e :
  key_holders (ops ++ [op]) e =
  key_holders ops e ++ (if carries_wraps op && (op_Epoch op =? e) then kw_Member <$> op_Wraps op else []).
Proof. unfold key_holders. rewrite fmap_app, concat_app. cbn. by rewrite app_nil_r. Qed.

Record keys_inv (ops : list MemberOp) (s : MembershipState) : Prop := {
  ki_past : ∀ e, ms_epoch s < e → key_holders ops e = [];
  ki_members : ∀ id, is_Some (ms_members s !! id) → id ∈ key_holders ops (ms_epoch s);
  ki_holders : ms_pendingRotation s = false → ∀ id, id ∈ key_holders ops (ms_epoch s) → is_Some (ms_members s !! id);
}.

Lemma no_wraps op e : carries_wraps op = false → (if carries_wraps op && (op_Epoch op =? e) then kw_Member <$> op_Wraps op else []) = [].
Proof. by intros ->. Qed.

(** An operation that leaves the epoch: its wraps, if it carries any, are for its subject alone. *)
Lemma keys_inv_same ops s op s' :
  keys_inv ops s → ms_epoch s' = ms_epoch s → (ms_pendingRotation s' = false → ms_pendingRotation s = false) →
  (carries_wraps op = true → op_Epoch op = ms_epoch s ∧ kw_Member <$> op_Wraps op ≡ₚ [op_Subject op] ∧
                             is_Some (ms_members s' !! op_Subject op)) →
  (∀ id, is_Some (ms_members s' !! id) → is_Some (ms_members s !! id) ∨ (carries_wraps op = true ∧ id = op_Subject op)) →
  (ms_pendingRotation s' = false → ∀ id, is_Some (ms_members s !! id) → is_Some (ms_members s' !! id)) →
  keys_inv (ops ++ [op]) s'.
Proof.
  intros [Kp Km Kh] He Hp Hw Hin Hout. constructor.
  - intros e Hlt. rewrite key_holders_snoc, Kp by lia. destruct (carries_wraps op) eqn:Ec; [|done].
    destruct (Hw eq_refl) as [Ee _]. destruct (Z.eqb_spec (op_Epoch op) e); [lia|done].
  - intros id Hid. rewrite key_holders_snoc, He, elem_of_app. destruct (Hin id Hid) as [?|[Ec ->]]; [auto|].
    right. destruct (Hw Ec) as (Ee&Hpm&_). rewrite Ec, Ee, Z.eqb_refl. cbn. rewrite Hpm. by apply list_elem_of_singleton.
  - intros Hpf id. rewrite key_holders_snoc, He, elem_of_app. intros [Hk|Hk]; [auto|].
    destruct (carries_wraps op) eqn:Ec; [|by apply not_elem_of_nil in Hk].
    destruct (Hw eq_refl) as (Ee&Hpm&?). rewrite Ee, Z.eqb_refl in Hk. cbn in Hk. rewrite Hpm in Hk.
    by apply list_elem_of_singleton in Hk as ->.
Qed.

Lemma kind_carries op k :
  op_Kind op = k → carries_wraps op = (k =? MemberCreate) || (k =? MemberAdd) || (k =? MemberRotateEpoch) || (k =? MemberRewrap).
Proof. by intros <-. Qed.

Lemma keys_inv_rotate ops s op s' :
  keys_inv ops s → op_Kind op = MemberRotateEpoch → op_Epoch op = ms_epoch s + 1 → kw_Member <$> op_Wraps op ≡ₚ Members s →
  ms_epoch s' = op_Epoch op → ms_members s' = ms_members s → keys_inv (ops ++ [op]) s'.
Proof.
  intros [Kp _ _] Hk Ee Hpm Es Em.
  assert (key_holders (ops ++ [op]) (ms_epoch s') = kw_Member <$> op_Wraps op) as Hh.
  { rewrite key_holders_snoc, Es, Kp by lia. by rewrite (kind_carries _ _ Hk), (Z.eqb_refl (op_Epoch op)). }
  constructor.
  - intros e Hlt. rewrite key_holders_snoc, Kp by lia. destruct (Z.eqb_spec (op_Epoch op) e); [lia|].
    by rewrite andb_false_r.
  - intros id. rewrite Hh, Hpm, elem_of_Members, Em. done.
  - intros _ id. by rewrite Hh, Hpm, elem_of_Members, Em.
Qed.

Lemma member_effect_keys ops s op s' q h :
  keys_inv ops s → u32 (ms_epoch s) → op_Kind op ≠ MemberCreate → member_effect (ms_set_params suite1_params s) op s' →
  (ms_pendingRotation s = true → op_Kind op = MemberRotateEpoch) →
  keys_inv (ops ++ [op]) (ms_set_pos q h s').
Proof.
  intros K Hu Hc Heff Hp.
  destruct Heff as [Hx|Hk _ _ _ _ _ _ Ee Hpm|Hk _ Ho _|Hk _ _|last Hk _ Hmax Ee _ _ Hpm|Hk _ Hn Ee Hpm|Hk|Hk Hown Ho|Hk]; [done|..].
  - apply (keys_inv_same ops s); [done|done|done| | |]; cbn.
    + intros _. split_and!; [done|done|]. rewrite lookup_insert_eq. eauto.
    + intros id. rewrite lookup_insert. case_decide; [|by left]. intros _. right. by rewrite (kind_carries _ _ Hk).
    + intros _ id Hid. rewrite lookup_insert. case_decide; [eauto|done].
  - change (ordinary_member s (op_Subject op)) in Ho. destruct Ho as [Hn%Role_lookup _].
    apply (keys_inv_same ops s); [done|done|done| | |]; cbn.
    + by rewrite (kind_carries _ _ Hk).
    + intros id. rewrite lookup_insert. case_decide; [subst id; rewrite Hn; by left|by left].
    + intros _ id Hid. rewrite lookup_insert. case_decide; [eauto|done].
  - apply (keys_inv_same ops s); [done|done|done| | |done]; cbn.
    + by rewrite (kind_carries _ _ Hk).
    + intros id. rewrite lookup_delete. case_decide; [by intros []|by left].
  - apply (keys_inv_rotate ops s); try done.
    + rewrite Ee. cbn. unfold wrap32. apply Z.mod_small. cbn in Hmax. solve_uint.
    + cbn. by destruct (op_Shred op).
    + cbn. by destruct (op_Shred op).
  - change (Role s (op_Subject op) ≠ RoleNone) in Hn. apply Role_lookup in Hn.
    apply (keys_inv_same ops s); [done|done|done| |by left|done]; cbn. intros _. split_and!; [done|done|eauto].
  - apply (keys_inv_same ops s); [done|done|done| |by left|done]. by rewrite (kind_carries _ _ Hk).
  - change (ordinary_member s (op_Subject op)) in Ho. destruct Ho as [Hn%Role_lookup _].
    assert (is_Some (ms_members s !! op_Author op)) as [r Hr].
    { exists (Role s (op_Author op)). apply Role_lookup.
      change (Role s (op_Author op) = RoleOwner) in Hown. by rewrite Hown. }
    apply (keys_inv_same ops s); [done|done|done| | |]; cbn.
    + by rewrite (kind_carries _ _ Hk).
    + intros id. rewrite !lookup_insert. repeat case_decide; subst; rewrite ?Hn, ?Hr; eauto.
    + intros _ id Hid. rewrite !lookup_insert. repeat case_decide; eauto.
  - apply (keys_inv_same ops s); [done|done|done| |by left|done]. by rewrite (kind_carries _ _ Hk).
Qed.

Lemma replay_keys v ops s :
  foldM (member_step check) (membership_genesis v) ops = Ok s → Forall MemberOp_wf ops → len ops ≤ MaxUint64 →
  ops ≠ [] → keys_inv ops s.
Proof.
  revert s. induction ops as [|op ops IH] using rev_ind; intros s Hr Hw Hl Hne; [done|].
  apply foldM_snoc_Ok in Hr as (s1 & Hr & Hs). apply Forall_app in Hw as [Hw1 [Hw _]%Forall_cons].
  rewrite length_app in Hl. cbn in Hl. destruct (replay_inv v ops s1) as (Hq & Hv & Hi); [done|done|lia|].
  apply member_step_Ok in Hs as ([] & s2 & Hk%applyKind_Ok & ->). destruct ops as [|op0 ops].
  - subst s1. assert (op_Kind op = MemberCreate) as Hc by by apply ac_create0.
    destruct Hk as [_ Ee _ Hpm|Hx|Hx|Hx|? Hx|Hx|Hx|Hx|Hx]; try (rewrite Hc in Hx; done). cbn [app].
    assert (∀ e, key_holders [op] e = if e =? 0 then kw_Member <$> op_Wraps op else []) as Hh.
    { intros e. unfold key_holders. cbn. rewrite (kind_carries _ _ Hc), app_nil_r, Ee. cbn.
      by rewrite Z.eqb_sym. }
    constructor; cbn.
    + intros e He. rewrite Hh. destruct (Z.eqb_spec e 0); [lia|done].
    + intros id. rewrite Hh. cbn. rewrite Hpm, lookup_insert. case_decide; [subst; intros _; by apply list_elem_of_singleton|].
      rewrite lookup_empty. by intros [].
    + intros _ id. rewrite Hh. cbn. rewrite Hpm. intros ->%list_elem_of_singleton. rewrite lookup_insert_eq. eauto.
  - apply (member_effect_keys (op0 :: ops) s1); [apply IH; [done|done|lia|done]| | |done|done].
    + destruct (mi_epoch _ Hi). pose proof (rw_len _ (mi_rotations _ Hi)). solve_uint.
    + rewrite <- ac_create0, Hq. cbn [length]. lia.
Qed.

(** C10. In every replayed log each current member has been given the key of the current epoch; and
    unless a removal still awaits its rotation, nobody else has: the accounts the current key was
    ever wrapped for are exactly the members. A removed member is therefore not among the holders of
    any key in force once the rotation the removal demands has been made. *)
Theorem current_key_holders (v : ID) (ops : list MemberOp) (s0 s : MembershipState) :
  NewMembershipState v = Ok s0 → foldM (member_step check) s0 ops = Ok s → ops ≠ [] →
  Forall MemberOp_wf ops → len ops ≤ MaxUint64 →
  (∀ id, id ∈ Members s → id ∈ key_holders ops (ms_epoch s)) ∧
  (ms_pendingRotation s = false → ∀ id, id ∈ key_holders ops (ms_epoch s) → id ∈ Members s).
Proof.
  rewrite NewMembershipState_eq. intros <-%Ok_inj Hr Hne Hw Hl. destruct (replay_keys v ops s) as [_ Km Kh]; [done..|].
  split; [intros id|intros Hp id]; rewrite elem_of_Members; auto.
Qed.

(** ** No panic *)

Lemma bind_no_panic {A B} (m : result error A) (f : A → result error B) :
  m ≠ Err [GoPanic] → (∀ a, m = Ok a → f a ≠ Err [GoPanic]) → (m ≫= f) ≠ Err [GoPanic].
Proof. intros Hm Hf. destruct m as [a|e]; [by apply Hf|]. rewrite bind_err_l. congruence. Qed.
Lemma fail_if_no_panic {A} (c : bool) (e : error) (k : result error A) :
  e ≠ [GoPanic] → k ≠ Err [GoPanic] → (if c then Err e else k) ≠ Err [GoPanic].
Proof. destruct c; congruence. Qed.
Lemma Encoded_no_panic fs : Encoded (fields_canon fs) ≠ Err [GoPanic].
Proof.
  intros E. assert (∀ c gs, c_err c ≠ Some [GoPanic] → c_err (foldl add_field c gs) ≠ Some [GoPanic]) as Hk.
  { intros c gs. revert c. induction gs as [|g gs IH]; intros c Hc; [done|]. cbn. apply IH.
    unfold add_field, Canon_Bytes. destruct (c_err c) eqn:Ec; [congruence|]. by destruct (_ <? _). }
  apply (Hk canon_empty fs); [done|]. revert E. unfold Encoded, fields_canon. by destruct (c_err _); [intros [= ->]|].
Qed.
Lemma Sum_no_panic c fs : c = fields_canon fs → Sum c ≠ Err [GoPanic].
Proof. intros ->. pose proof (Encoded_no_panic fs) as Hp. unfold Sum, Encoded in *. destruct (c_err _); congruence. Qed.

Lemma checkWraps_no_panic s ws want : checkWraps s ws want ≠ Err [GoPanic].
Proof.
  unfold checkWraps. apply fail_if_no_panic; [done|]. apply bind_no_panic; [|done].
  generalize (list_to_set want : gset ID) as W. induction ws as [|w ws IH]; intros W; [done|]. cbn [foldM].
  assert (checkWrap s W w ≠ Err [GoPanic]) as Hc.
  { unfold checkWrap, checkWrapContent. apply fail_if_no_panic; [done|]. apply bind_no_panic; [|done].
    destruct (Pruned w); [done|]. apply fail_if_no_panic; [done|]. apply bind_no_panic; [|intros; by apply fail_if_no_panic].
    unfold wrapDigest. apply (Sum_no_panic _ [bytes_of_string LabelVKWrapDigest; kw_Ciphertext w]). canon_fields. }
  destruct (checkWrap s W w) as [W1|e]; [apply IH|congruence].
Qed.

Ltac no_panic :=
  repeat first [ apply checkWraps_no_panic | apply fail_if_no_panic; [done|] | apply bind_no_panic; [|intros ? _]
               | progress unfold requireManage, requireOwner, validRetention, CheckNextEpoch | done
               | match goal with |- (if ?c then _ else Ok ()) ≠ _ => destruct c end ].

Lemma applyKind_no_panic s op : op_Kind op = MemberRotateEpoch → ms_rotations s ≠ [] → applyKind s op ≠ Err [GoPanic].
Proof.
  intros Hk Hne. unfold applyKind. apply fail_if_no_panic; [done|]. rewrite Hk. cbn [Z.eqb MemberCreate MemberAdd
    MemberChangeRole MemberRemove MemberRotateEpoch Pos.eqb]. unfold applyRotate.
  destruct (list.last (ms_rotations s)) as [r|] eqn:E; [no_panic|by apply last_None in E].
Qed.

Lemma applyKind_no_panic' s op : op_Kind op ≠ MemberRotateEpoch → applyKind s op ≠ Err [GoPanic].
Proof.
  intros Hk. unfold applyKind. apply fail_if_no_panic; [done|].
  apply Z.eqb_neq in Hk. rewrite Hk.
  repeat case_match; unfold applyCreate, applyAdd, applyChangeRole, applyRemove, applyRewrap, applySetPolicy, applyTransfer, applyDelete; no_panic.
Qed.

(** Replaying any operation, however malformed, on top of any accepted log never panics: the
    unguarded access to the last rotation is safe in every reachable state. *)
Theorem membership_no_panic (v : ID) (ops : list MemberOp) (s0 s : MembershipState) (op : MemberOp) :
  NewMembershipState v = Ok s0 → foldM (member_step check) s0 ops = Ok s →
  Forall MemberOp_wf ops → len ops ≤ MaxUint64 →
  (∀ a d alg msg sig, check a d alg msg sig ≠ Err [GoPanic]) →
  member_step check s op ≠ Err [GoPanic].
Proof.
  rewrite NewMembershipState_eq. intros <-%Ok_inj Hr Hw Hl Hcheck.
  destruct (replay_inv v ops s) as (Hq&_&Hi); [done..|].
  unfold member_step. rewrite member_step_run. destruct (_ || _); [done|]. destruct (IsDeviceRevoked _ _); [done|].
  destruct (check _ _ _ _ _) as [[]|e] eqn:E1; [|intros [= ->]; by apply Hcheck in E1].
  destruct (preconditions s op) as [p|e] eqn:E2.
  - apply preconditions_Ok in E2 as (_&_&Hc&_&->). destruct (applyKind _ op) as [s1|e] eqn:E3.
    + destruct (MemberOp_hash op _) as [h|e] eqn:E4; [done|]. intros [= ->]. revert E4.
      apply (Sum_no_panic _ (op_hash_fields op)). unfold op_hash_fields. canon_fields.
    + intros [= ->]. revert E3.
      destruct (decide (op_Kind op = MemberRotateEpoch)) as [Hk|Hk]; [|by apply applyKind_no_panic'].
      apply applyKind_no_panic; [done|]. destruct ops as [|op0 ops].
      * subst s. rewrite Hk in Hc. by destruct Hc as [Hc _]; specialize (Hc eq_refl).
      * destruct (mi_epoch s Hi) as [? El]. intros E. cbn in E. rewrite E in El. cbn in El. lia.
  - intros [= ->]. revert E2. unfold preconditions.
    repeat (apply fail_if_no_panic; [done|]). by destruct (LookupSuite _ _).
Qed.

End membership.

(** ** Examples: a vault is created, gains an editor, loses it again and rotates its key *)

#[local] Existing Instance demo_crypto.

Definition demo_check : SignatureCheck := λ _ device alg msg sig,
  if (alg =? SigEd25519) && (sig =?? demo_sign (vec_to_list device) msg) then Ok () else Err [ErrBadSignature].
Definition demo_cipher : bytes := zeros 1168.
Definition demo_wrap (member : ID) (c : bytes) : KeyWrap := {|
  kw_Member := member; kw_Digest := of_ok (array_zero 32) (wrapDigest c); kw_Recipient := demo_hash 3; kw_Ciphertext := c |}.
Definition demo_mop (seq : Z) (prev : hash) (kind : Z) (subject : ID) (role epoch : Z) (ws : list KeyWrap) : MemberOp :=
  let op := {|
    op_Vault := demo_id 7; op_Seq := seq; op_Prev := prev; op_Kind := kind; op_Author := demo_id 1;
    op_AuthorDevice := demo_id 21; op_Subject := subject; op_Role := role; op_Verified := true;
    op_Fingerprint := demo_hash 4; op_Suite := Suite1; op_Epoch := epoch; op_Wraps := ws; op_RevokedDevices := [];
    op_RetentionDays := 30; op_RequireVerified := true; op_Shred := false; op_TimeUnixMilli := 1000 + seq;
    op_SigAlg := SigEd25519; op_Sig := [] |} in
  {| op_Vault := op_Vault op; op_Seq := seq; op_Prev := prev; op_Kind := kind; op_Author := demo_id 1;
     op_AuthorDevice := demo_id 21; op_Subject := subject; op_Role := role; op_Verified := true;
     op_Fingerprint := demo_hash 4; op_Suite := Suite1; op_Epoch := epoch; op_Wraps := ws; op_RevokedDevices := [];
     op_RetentionDays := 30; op_RequireVerified := true; op_Shred := false; op_TimeUnixMilli := 1000 + seq;
     op_SigAlg := SigEd25519; op_Sig := demo_sign (vec_to_list (demo_id 21)) (frames (op_fields op)) |}.

Definition demo_m0 : MembershipState := membership_genesis (demo_id 7).
Definition demo_create : MemberOp :=
  demo_mop 1 (ms_hash demo_m0) MemberCreate ID_zero 0 0 [demo_wrap (demo_id 1) demo_cipher].
Definition demo_madd : MemberOp :=
  demo_mop 2 (sha256 (op_input demo_create)) MemberAdd (demo_id 2) RoleEditor 0 [demo_wrap (demo_id 2) demo_cipher].
Definition demo_remove : MemberOp :=
  demo_mop 3 (sha256 (op_input demo_madd)) MemberRemove (demo_id 2) 0 0 [].
Definition demo_rotate : MemberOp :=
  demo_mop 4 (sha256 (op_input demo_remove)) MemberRotateEpoch ID_zero 0 1 [demo_wrap (demo_id 1) demo_cipher].
Definition demo_ops : list MemberOp := [demo_create; demo_madd; demo_remove; demo_rotate].
Definition demo_member (ops : list MemberOp) : MembershipState := of_ok demo_m0 (foldM (member_step demo_check) demo_m0 ops).

Lemma demo_ops_wf : Forall MemberOp_wf demo_ops.
Proof.
  repeat apply Forall_cons_2; [..|apply Forall_nil_2]; unfold MemberOp_wf, u64, u32, u16; vm_compute; repeat split; intros [=].
Qed.
Lemma demo_create_wf : Forall MemberOp_wf [demo_create].
Proof. pose proof demo_ops_wf as Hw. apply Forall_cons in Hw as [Hc _]. by apply Forall_singleton. Qed.
Lemma demo_member_run ops :
  is_ok (foldM (member_step demo_check) demo_m0 ops) = true → foldM (member_step demo_check) demo_m0 ops = Ok (demo_member ops).
Proof. apply of_ok_eq. Qed.

Lemma demo_member_more ops op :
  is_ok (foldM (member_step demo_check) demo_m0 (ops ++ [op])) = true →
  member_step demo_check (demo_member ops) op = Ok (demo_member (ops ++ [op])).
Proof.
  intros Hr. apply demo_member_run in Hr as Hr'. apply foldM_snoc_Ok in Hr' as (s & Hs & Hr').
  unfold demo_member at 1. by rewrite Hs.
Qed.
Lemma demo_ops_stripped : Forall2 op_stripped demo_ops (op_strip <$> demo_ops).
Proof. apply Forall2_fmap_r, Forall_Forall2_diag, Forall_true. apply op_strip_stripped. Qed.

Lemma membership_invariant_witness :
  ms_inv (demo_member demo_ops) ∧ ms_seq (demo_member demo_ops) = len demo_ops ∧ ms_vault (demo_member demo_ops) = demo_id 7.
Proof.
  apply (membership_invariant demo_check (demo_id 7) demo_ops demo_m0).
  - apply NewMembershipState_eq.
  - apply demo_member_run. vm_compute. reflexivity.
  - discriminate.
  - apply demo_ops_wf.
  - vm_compute. discriminate.
Defined.

Lemma no_escalation_witness :
  CanManage (Role (demo_member [demo_create]) (op_Author demo_madd)) = true ∨
  (op_Kind demo_madd = MemberRemove ∧ demo_id 2 = op_Author demo_madd ∧
   Role (demo_member [demo_create; demo_madd]) (demo_id 2) = RoleNone).
Proof.
  refine (proj1 (no_escalation demo_check (demo_id 7) [demo_create] demo_m0 (demo_member [demo_create])
           (demo_member [demo_create; demo_madd]) demo_madd (demo_id 2) _ _ _ _ _ _ _)).
  - apply NewMembershipState_eq.
  - apply demo_member_run. vm_compute. reflexivity.
  - discriminate.
  - apply demo_create_wf.
  - vm_compute. discriminate.
  - apply (demo_member_more [demo_create] demo_madd). vm_compute. reflexivity.
  - vm_compute. discriminate.
Defined.

Lemma membership_log_unique_witness :
  demo_id 7 = demo_id 7 ∧ op_strip <$> demo_ops = op_strip <$> (op_strip <$> demo_ops).
Proof.
  apply (membership_log_unique demo_check (demo_id 7) (demo_id 7) demo_m0 demo_m0 (demo_member demo_ops) (demo_member demo_ops)).
  - apply NewMembershipState_eq.
  - apply NewMembershipState_eq.
  - apply demo_member_run. vm_compute. reflexivity.
  - apply (replay_stripped demo_check _ _ demo_ops); [apply demo_ops_stripped|].
    apply demo_member_run. vm_compute. reflexivity.
  - reflexivity.
  - apply demo_ops_wf.
  - apply Forall_fmap. eapply Forall_impl; [apply demo_ops_wf|]. intros op Hw. unfold compose. unfold MemberOp_wf in *.
    cbn. by rewrite length_fmap.
  - apply (collision_free_list _ (member_genesis_input (demo_id 7) :: (op_input <$> demo_ops))).
    + intros x [->|[->|Hx]]; [left|left|]. right. rewrite fmap_app in Hx. apply elem_of_app in Hx as [?|Hx]; [done|].
      rewrite <- list_fmap_compose in Hx. erewrite list_fmap_ext in Hx; [exact Hx|].
      intros i op _. apply op_strip_input.
    + vm_compute. reflexivity.
Defined.

Lemma stripped_log_replays_witness :
  foldM (member_step demo_check) demo_m0 (op_strip <$> demo_ops) = Ok (demo_member demo_ops).
Proof.
  apply (stripped_log_replays demo_check demo_m0 (demo_member demo_ops) demo_ops (op_strip <$> demo_ops)).
  - apply demo_ops_stripped.
  - apply demo_member_run. vm_compute. reflexivity.
Defined.

Lemma current_key_holders_witness :
  (∀ id, id ∈ Members (demo_member demo_ops) → id ∈ key_holders demo_ops (ms_epoch (demo_member demo_ops))) ∧
  (ms_pendingRotation (demo_member demo_ops) = false →
   ∀ id, id ∈ key_holders demo_ops (ms_epoch (demo_member demo_ops)) → id ∈ Members (demo_member demo_ops)).
Proof.
  apply (current_key_holders demo_check (demo_id 7) demo_ops demo_m0).
  - apply NewMembershipState_eq.
  - apply demo_member_run. vm_compute. reflexivity.
  - discriminate.
  - apply demo_ops_wf.
  - vm_compute. discriminate.
Defined.

Lemma membership_no_panic_witness : member_step demo_check demo_m0 demo_rotate ≠ Err [GoPanic].
Proof.
  apply (membership_no_panic demo_check (demo_id 7) [] demo_m0 demo_m0 demo_rotate).
  - apply NewMembershipState_eq.
  - reflexivity.
  - constructor.
  - vm_compute. discriminate.
  - intros a d alg msg sig. unfold demo_check. by destruct (_ && _).
Defined.
