(* ===== verification/VaultState.v ===== *)
(** * VaultState: verified vault states and the commits between them

    [internal/domain/vaultsync/vault_state.go]. [ApplyCommit] works on a private copy of the leaves
    it drops on error, so its helpers return the copy they would leave. [maps.Values] has no order;
    [Leaves] lists the values in the order of the map model, and [MerkleRoot_order] shows the only
    consumer does not depend on it. *)

From S2P Require Import Prelude Bytes SyncBase Canon Sha2 Padding Envelope Merkle HashChain Head Retention Membership.

Record Commit := {
  c_Head : Head;
  c_Records : list Envelope;
  c_Purged : list ID;
}.

(** [DeviceResolver]: the account of a device and its signing key. *)
Definition DeviceResolver : Type := ID → result error (ID * bytes).

Record VaultState := {
  vs_vault : ID;
  vs_cursor : ChainCursor;
  vs_leaves : gmap ID Leaf;
}.

Definition NewVaultState `{Crypto} (vault : ID) : result error VaultState :=
  cur ← GenesisCursor vault;
  Ok {| vs_vault := vault; vs_cursor := cur; vs_leaves := ∅ |}.

(** The zero [Leaf] a missing key yields has version 0. *)
Definition leaf_version (leaves : gmap ID Leaf) (record : ID) : Z := from_option l_Version 0 (leaves !! record).

Definition Version (s : VaultState) (record : ID) : Z * bool :=
  (leaf_version (vs_leaves s) record, bool_decide (is_Some (vs_leaves s !! record))).

Definition leaves_list (leaves : gmap ID Leaf) : list Leaf := (map_to_list leaves).*2.
Definition Leaves (s : VaultState) : list Leaf := leaves_list (vs_leaves s).
Definition Len (s : VaultState) : Z := Z.of_nat (size (vs_leaves s)).

Definition authorizeAuthor `{Crypto} (h : Head) (m : MembershipState) (resolve : DeviceResolver) :
    result error (ID * bytes) :=
  '(account, key) ← resolve (h_Author h);
  fail_if IsDeviceRevoked m (h_Author h) with [ErrRevokedDevice] ;;
  fail_if negb (CanWrite (Role m account)) with [ErrNotAuthorized] ;;
  _ ← Head_Verify key h;
  Ok (account, key).

(** One round of the loop of [applyRecords]; the state is the leaves and the set [seen]. *)
Definition applyRecord `{Crypto} (vault author : ID) (key : bytes) (epoch : Z) (st : gmap ID Leaf * gset ID) (e : Envelope) :
    result error (gmap ID Leaf * gset ID) :=
  let '(leaves, seen) := st in
  fail_if (e_Vault e <>? vault) || (e_Author e <>? author) with [ErrCommitAuthor] ;;
  _ ← Envelope_Verify key e;
  fail_if bool_decide (e_Record e ∈ seen) || negb (e_Version e =? wrap64 (leaf_version leaves (e_Record e) + 1))
    with [ErrRecordVersion] ;;
  fail_if negb (e_Epoch e =? epoch) with [ErrEpochMismatch] ;;
  leaf ← LeafOf e;
  Ok (<[e_Record e := leaf]> leaves, {[e_Record e]} ∪ seen).

Definition applyRecords `{Crypto} (vault : ID) (leaves : gmap ID Leaf) (records : list Envelope) (author : ID) (key : bytes)
    (epoch : Z) : result error (gmap ID Leaf) :=
  st ← foldM (applyRecord vault author key epoch) (leaves, ∅) records;
  Ok (fst st).

(** One round of the loop of [applyPurges]; [written] is the set of records the commit writes. *)
Definition applyPurge (written : gset ID) (leaves : gmap ID Leaf) (id : ID) : result error (gmap ID Leaf) :=
  match leaves !! id with
  | None => Err [ErrPurge]
  | Some leaf =>
      fail_if bool_decide (id ∈ written) || negb (l_Deleted leaf) with [ErrPurge] ;;
      Ok (delete id leaves)
  end.

Definition applyPurges (leaves : gmap ID Leaf) (purged : list ID) (records : list Envelope) : result error (gmap ID Leaf) :=
  foldM (applyPurge (list_to_set (e_Record <$> records))) leaves purged.

Definition ApplyCommit `{Crypto} (s : VaultState) (c : Commit) (m : MembershipState) (resolve : DeviceResolver) :
    result error VaultState :=
  let h := c_Head c in
  fail_if h_Vault h <>? vs_vault s with [ErrChainBroken] ;;
  _ ← VerifyLink (vs_cursor s) h;
  fail_if negb (h_MembershipSeq h =? ms_seq m) || (h_MembershipHead h <>? ms_hash m) with [ErrMembershipMismatch] ;;
  '(account, key) ← authorizeAuthor h m resolve;
  fail_if (0 <? len (c_Purged c)) && negb (CanManage (Role m account)) with [ErrNotAuthorized] ;;
  fail_if negb (h_CurrentEpoch h =? ms_epoch m) with [ErrEpochMismatch] ;;
  leaves ← applyRecords (vs_vault s) (vs_leaves s) (c_Records c) (h_Author h) key (ms_epoch m);
  leaves ← applyPurges leaves (c_Purged c) (c_Records c);
  root ← MerkleRoot (leaves_list leaves);
  fail_if root <>? h_MerkleRoot h with [ErrRootMismatch] ;;
  cursor ← Advance (vs_cursor s) h;
  Ok {| vs_vault := vs_vault s; vs_cursor := cursor; vs_leaves := leaves |}.

(** One round of the loop of [RestoreVaultStateFromLeaves]. *)
Definition restoreLeaf (leaves : gmap ID Leaf) (leaf : Leaf) : result error (gmap ID Leaf) :=
  fail_if bool_decide (is_Some (leaves !! l_Record leaf)) with [ErrRootMismatch] ;;
  Ok (<[l_Record leaf := leaf]> leaves).

Definition RestoreVaultStateFromLeaves `{Crypto} (vault : ID) (head : option Head) (leaves : list Leaf) :
    result error VaultState :=
  s ← NewVaultState vault;
  match head with
  | None =>
      fail_if negb (len leaves =? 0) with [ErrRootMismatch] ;;
      Ok s
  | Some head =>
      fail_if h_Vault head <>? vault with [ErrChainBroken] ;;
      ls ← foldM restoreLeaf (vs_leaves s) leaves;
      match MerkleRoot (leaves_list ls) with
      | Err _ => Err [ErrRootMismatch]
      | Ok root =>
          fail_if root <>? h_MerkleRoot head with [ErrRootMismatch] ;;
          h ← Head_Hash head;
          Ok {| vs_vault := vs_vault s; vs_leaves := ls;
                vs_cursor := {| cur_Seq := h_Seq head; cur_Hash := h; cur_MembershipSeq := h_MembershipSeq head |} |}
      end
  end.

(** One record of the loop of [RestoreVaultState]. *)
Definition restoreRecord `{Crypto} (vault : ID) (e : Envelope) : result error Leaf :=
  fail_if e_Vault e <>? vault with [ErrRootMismatch] ;;
  LeafOf e.

Definition RestoreVaultState `{Crypto} (vault : ID) (head : option Head) (records : list Envelope) :
    result error VaultState :=
  fail_if (match head with None => false | Some h => h_Vault h <>? vault end) with [ErrChainBroken] ;;
  leaves ← mapM_result (restoreRecord vault) records;
  RestoreVaultStateFromLeaves vault head leaves.

(** ** Leaves of verified envelopes *)

Definition leaf_of `{Crypto} (e : Envelope) : Leaf :=
  {| l_Record := e_Record e; l_Version := e_Version e; l_Digest := sha256 (envelope_input e); l_Deleted := e_Deleted e |}.

Section vaultstate.
Context `{Crypto}.

Lemma frames_length fs : length (frames fs) = sum_list ((λ f, 4 + length f)%nat <$> fs).
Proof.
  unfold frames. induction fs as [|f fs IH]; [done|]. cbn [fmap list_fmap concat]. rewrite length_app, IH.
  unfold frame. rewrite length_app, length_be_bytes. done.
Qed.

Lemma LeafOf_Ok e l : LeafOf e = Ok l → l = leaf_of e.
Proof. unfold LeafOf. intros Hl. apply bind_Ok in Hl as (d & (_&_&->)%Envelope_Digest_Ok & <-%Ok_inj). done. Qed.

Lemma envelope_msg_small e : Envelope_Validate e = Ok () → Forall field_small (envelope_fields e) ∧
  Forall field_small [bytes_of_string LabelEnvelope; frames (envelope_fields e); e_Sig e].
Proof.
  intros Hv. pose proof (Envelope_Validate_SigningBytes e Hv) as Hs.
  rewrite Envelope_SigningBytes_fields in Hs. apply Encoded_fields in Hs as [Hs _]. split; [done|].
  apply Envelope_Validate_Ok in Hv as (_&_&_&_&_&Hsig&_&Hc). rewrite PaddedSize_Max in Hc.
  assert (len (e_WrappedDEK e) ≤ 72 ∧ len (e_Body e) ≤ 34603048) as [Hd Hb]
    by (destruct (e_Deleted e); [destruct Hc as [-> ->]; done|lia]).
  repeat apply Forall_cons_2; [solve_small| | |apply Forall_nil_2]; [|unfold field_small; solve_uint].
  unfold field_small. rewrite frames_length. unfold envelope_fields. cbn [fmap list_fmap sum_list].
  rewrite !length_be_bytes, !length_vec_to_list.
  assert (length (bytes_of_string LabelRecordSig) = 22%nat) as -> by by vm_compute.
  assert (length (bool_field (e_Deleted e)) = 1%nat) as -> by by destruct (e_Deleted e).
  unfold id. solve_uint.
Qed.

Lemma LeafOf_total e : Envelope_Validate e = Ok () → LeafOf e = Ok (leaf_of e).
Proof.
  intros Hv. unfold LeafOf, Envelope_Digest. rewrite (Envelope_Validate_SigningBytes e Hv), bind_ok_l.
  destruct (envelope_msg_small e Hv) as [_ Hs].
  assert (NewCanon LabelEnvelope |> Canon_Bytes (frames (envelope_fields e)) |> Canon_Bytes (e_Sig e)
    = fields_canon [bytes_of_string LabelEnvelope; frames (envelope_fields e); e_Sig e]) as -> by canon_fields.
  rewrite (proj2 (Sum_fields _ (sha256 (envelope_input e)))); [done|]. done.
Qed.

Lemma Envelope_Verify_Validate key e : Envelope_Verify key e = Ok () → Envelope_Validate e = Ok ().
Proof. unfold Envelope_Verify. intros Hv. by apply bind_Ok in Hv as ([] & ? & _). Qed.

(** ** The two loops *)

(** What a commit requires of a record it writes, given the leaves before the commit. *)
Record record_ok (vault author : ID) (key : bytes) (epoch : Z) (leaves : gmap ID Leaf) (e : Envelope) : Prop := {
  ro_vault : e_Vault e = vault;
  ro_author : e_Author e = author;
  ro_verify : Envelope_Verify key e = Ok ();
  ro_version : e_Version e = wrap64 (leaf_version leaves (e_Record e) + 1);
  ro_epoch : e_Epoch e = epoch;
}.

Definition install (leaves : gmap ID Leaf) (records : list Envelope) : gmap ID Leaf :=
  foldl (λ L e, <[e_Record e := leaf_of e]> L) leaves records.
Definition discard (leaves : gmap ID Leaf) (purged : list ID) : gmap ID Leaf :=
  foldl (λ L id, delete id L) leaves purged.

Lemma record_ok_insert v a k ep L e e' :
  e_Record e ≠ e_Record e' →
  record_ok v a k ep (<[e_Record e := leaf_of e]> L) e' ↔ record_ok v a k ep L e'.
Proof.
  intros Hne. assert (leaf_version (<[e_Record e := leaf_of e]> L) (e_Record e') = leaf_version L (e_Record e')) as E
    by (unfold leaf_version; by rewrite lookup_insert_ne).
  split; intros []; constructor; try done; congruence.
Qed.

Lemma applyRecord_Ok v a k ep L seen e st :
  applyRecord v a k ep (L, seen) e = Ok st ↔
  record_ok v a k ep L e ∧ e_Record e ∉ seen ∧ st = (<[e_Record e := leaf_of e]> L, {[e_Record e]} ∪ seen).
Proof.
  unfold applyRecord. rewrite fail_if_Ok, orb_false_iff, !negb_false_iff, !bool_decide_eq_true, bind_Ok. split.
  - intros ((?&?) & [] & Hv & Hr). apply fail_if_Ok in Hr as [Hs Hr]. apply fail_if_Ok in Hr as [He Hr].
    apply bind_Ok in Hr as (l & ->%LeafOf_Ok & <-%Ok_inj). bool_simpl. rewrite !Z.eqb_eq in *. done.
  - intros ([] & Hs & ->). split; [done|]. exists (). split; [done|].
    rewrite bool_decide_eq_false_2, (proj2 (Z.eqb_eq _ _) ro_version0), (proj2 (Z.eqb_eq _ _) ro_epoch0) by done.
    cbn [orb negb]. by rewrite (LeafOf_total e (Envelope_Verify_Validate _ _ ro_verify0)), bind_ok_l.
Qed.

Lemma applyRecord_loop v a k ep L seen rs st :
  foldM (applyRecord v a k ep) (L, seen) rs = Ok st ↔
  NoDup (e_Record <$> rs) ∧ (∀ e, e ∈ rs → e_Record e ∉ seen) ∧ Forall (record_ok v a k ep L) rs ∧
  st = (install L rs, list_to_set (reverse (e_Record <$> rs)) ∪ seen).
Proof.
  revert L seen. induction rs as [|e rs IH]; intros L seen; cbn [foldM].
  - cbn. rewrite union_empty_l_L. split; [intros <-%Ok_inj|by intros (_&_&_&->)].
    split_and!; [constructor| |constructor|done]. intros e He. by apply not_elem_of_nil in He.
  - rewrite fmap_cons, NoDup_cons, Forall_cons, reverse_cons, list_to_set_app_L.
    destruct (applyRecord v a k ep (L, seen) e) as [[L1 seen1]|] eqn:E.
    + apply applyRecord_Ok in E as (Hr & Hs & [= -> ->]). rewrite IH. cbn [install foldl].
      assert (∀ X : gset ID, X ∪ ({[e_Record e]} ∪ seen) = (X ∪ list_to_set [e_Record e]) ∪ seen) as Eu by set_solver.
      rewrite Eu. split.
      * intros (Hnd & Hse & Hok & ->).
        assert (e_Record e ∉ e_Record <$> rs) as Hnin.
        { intros (e' & E & He')%list_elem_of_fmap. apply (Hse e' He'). apply elem_of_union_l, elem_of_singleton. done. }
        split_and!; try done.
        -- intros e' [->|He']%elem_of_cons; [done|]. specialize (Hse e' He'). by apply not_elem_of_union in Hse as [_ ?].
        -- apply Forall_forall. intros e' He'. rewrite Forall_forall in Hok. apply (record_ok_insert _ _ _ _ _ e); [|auto].
           intros Ee. apply Hnin. rewrite Ee. by apply list_elem_of_fmap_2.
      * intros ((Hnin & Hnd) & Hse & (_ & Hok) & ->). split_and!; try done.
        -- intros e' He'. rewrite not_elem_of_union, not_elem_of_singleton. split.
           ++ intros Ee. apply Hnin. rewrite <- Ee. by apply list_elem_of_fmap_2.
           ++ apply Hse. by right.
        -- apply Forall_forall. intros e' He'. rewrite Forall_forall in Hok. apply (record_ok_insert _ _ _ _ _ e); [|auto].
           intros Ee. apply Hnin. rewrite Ee. by apply list_elem_of_fmap_2.
    + split; [done|]. intros (_ & Hse & (Hr & _) & _).
      assert (applyRecord v a k ep (L, seen) e = Ok (<[e_Record e := leaf_of e]> L, {[e_Record e]} ∪ seen)) as E'
        by (apply applyRecord_Ok; split_and!; [done|apply Hse; by left|done]).
      congruence.
Qed.

Lemma applyRecords_Ok v L rs a k ep L' :
  applyRecords v L rs a k ep = Ok L' ↔ NoDup (e_Record <$> rs) ∧ Forall (record_ok v a k ep L) rs ∧ L' = install L rs.
Proof.
  unfold applyRecords. rewrite bind_Ok. split.
  - intros (st & (?&_&?&->)%applyRecord_loop & <-%Ok_inj). done.
  - intros (?&?&->). eexists. split; [apply applyRecord_loop; split_and!; [done| |done|done]|done].
    intros e _. set_solver.
Qed.

Lemma applyPurge_Ok W L id L' :
  applyPurge W L id = Ok L' ↔ (∃ l, L !! id = Some l ∧ l_Deleted l = true) ∧ id ∉ W ∧ L' = delete id L.
Proof.
  unfold applyPurge. destruct (L !! id) as [l|] eqn:E; [|naive_solver].
  rewrite fail_if_Ok, orb_false_iff, negb_false_iff, bool_decide_eq_false. naive_solver.
Qed.

Lemma applyPurges_Ok L purged rs L' :
  applyPurges L purged rs = Ok L' ↔
  NoDup purged ∧ Forall (λ id, id ∉ e_Record <$> rs ∧ ∃ l, L !! id = Some l ∧ l_Deleted l = true) purged ∧
  L' = discard L purged.
Proof.
  unfold applyPurges. assert (∀ id, id ∈ (list_to_set (e_Record <$> rs) : gset ID) ↔ id ∈ e_Record <$> rs) as HW
    by (intros; by rewrite elem_of_list_to_set).
  revert L. induction purged as [|id purged IH]; intros L; cbn [foldM discard foldl].
  - split; [intros <-%Ok_inj; split_and!; constructor|]. by intros (_&_&->).
  - rewrite NoDup_cons, Forall_cons.
    destruct (applyPurge _ L id) as [L1|] eqn:E.
    + apply applyPurge_Ok in E as (Hl & Hw & ->). rewrite HW in Hw. rewrite IH. unfold discard. split.
      * intros (Hnd & HF & ->). rewrite Forall_forall in HF. split_and!; try done.
        -- intros Hin%HF. destruct Hin as (_ & l & Hx & _). by rewrite lookup_delete_eq in Hx.
        -- apply Forall_forall. intros i (Hi & l & Hx & ?)%HF. split; [done|].
           apply lookup_delete_Some in Hx as [_ Hx]. eauto.
      * intros ((Hnin & Hnd) & (_ & HF) & ->). rewrite Forall_forall in HF. split_and!; try done.
        apply Forall_forall. intros i Hi. destruct (HF i Hi) as (? & l & Hx & ?). split; [done|].
        exists l. rewrite lookup_delete_ne; [done|]. intros ->. done.
    + split; [done|]. intros (_ & ((Hw & l & Hx & Hd) & _) & _). rewrite <- HW in Hw.
      assert (applyPurge (list_to_set (e_Record <$> rs)) L id = Ok (delete id L)) as E'
        by (apply applyPurge_Ok; split_and!; eauto). congruence.
Qed.

Lemma install_other L rs id : id ∉ e_Record <$> rs → install L rs !! id = L !! id.
Proof.
  unfold install. revert L. induction rs as [|e rs IH]; intros L Hn; [done|]. cbn in *.
  apply not_elem_of_cons in Hn as [Hne Hn]. rewrite IH by done. by rewrite lookup_insert_ne.
Qed.
Lemma install_written L rs e : NoDup (e_Record <$> rs) → e ∈ rs → install L rs !! e_Record e = Some (leaf_of e).
Proof.
  unfold install. revert L. induction rs as [|e' rs IH]; intros L Hnd Hin; [by apply not_elem_of_nil in Hin|].
  cbn in *. apply NoDup_cons in Hnd as [Hn Hnd]. apply elem_of_cons in Hin as [<-|Hin]; [|by apply IH].
  fold (install (<[e_Record e := leaf_of e]> L) rs). rewrite install_other by done. by rewrite lookup_insert_eq.
Qed.
Lemma discard_lookup L ids id : discard L ids !! id = if decide (id ∈ ids) then None else L !! id.
Proof.
  unfold discard. revert L. induction ids as [|i ids IH]; intros L; cbn.
  - case_decide as Hd; [by apply not_elem_of_nil in Hd|done].
  - rewrite IH, lookup_delete. repeat case_decide; subst; try done; exfalso; set_solver.
Qed.

(** ** Commits *)

Lemma Head_Verify_sig key h : Head_Verify key h = Ok () → field_small (h_Sig h).
Proof.
  unfold Head_Verify. rewrite Head_SigningBytes_eq, bind_ok_l. intros (_&_&Hl&_)%VerifySignature_Ok.
  unfold field_small. solve_uint.
Qed.

(** Who may commit what: the rules of section 7.3, as one predicate. *)
Record commit_allowed (s : VaultState) (c : Commit) (m : MembershipState) (account : ID) (key : bytes) : Prop := {
  cl_vault : h_Vault (c_Head c) = vs_vault s;
  cl_seq : h_Seq (c_Head c) = wrap64 (cur_Seq (vs_cursor s) + 1);
  cl_prev : h_PrevHash (c_Head c) = cur_Hash (vs_cursor s);
  cl_forward : cur_MembershipSeq (vs_cursor s) ≤ h_MembershipSeq (c_Head c);
  cl_member_seq : h_MembershipSeq (c_Head c) = ms_seq m;
  cl_member_head : h_MembershipHead (c_Head c) = ms_hash m;
  cl_device : h_Author (c_Head c) ∉ ms_revoked m;
  cl_role : CanWrite (Role m account) = true;
  cl_signed : Head_Verify key (c_Head c) = Ok ();
  cl_epoch : h_CurrentEpoch (c_Head c) = ms_epoch m;
  cl_records_once : NoDup (e_Record <$> c_Records c);
  cl_records : Forall (record_ok (vs_vault s) (h_Author (c_Head c)) key (ms_epoch m) (vs_leaves s)) (c_Records c);
  cl_purge_role : c_Purged c ≠ [] → CanManage (Role m account) = true;
  cl_purges_once : NoDup (c_Purged c);
  cl_purges : Forall (λ id, id ∉ e_Record <$> c_Records c ∧
                            ∃ l, vs_leaves s !! id = Some l ∧ l_Deleted l = true) (c_Purged c);
}.

Definition commit_leaves (s : VaultState) (c : Commit) : gmap ID Leaf :=
  discard (install (vs_leaves s) (c_Records c)) (c_Purged c).

Definition head_cursor (h : Head) : ChainCursor :=
  {| cur_Seq := h_Seq h; cur_Hash := sha256 (head_input h); cur_MembershipSeq := h_MembershipSeq h |}.

Definition committed (s : VaultState) (c : Commit) : VaultState :=
  {| vs_vault := vs_vault s; vs_cursor := head_cursor (c_Head c); vs_leaves := commit_leaves s c |}.

Lemma purges_install s c :
  Forall (λ id, id ∉ e_Record <$> c_Records c ∧
                ∃ l, install (vs_leaves s) (c_Records c) !! id = Some l ∧ l_Deleted l = true) (c_Purged c) ↔
  Forall (λ id, id ∉ e_Record <$> c_Records c ∧ ∃ l, vs_leaves s !! id = Some l ∧ l_Deleted l = true) (c_Purged c).
Proof. apply Forall_iff. intros id. split; intros [Hn Hl]; (split; [done|]); by rewrite install_other in *. Qed.

Lemma authorizeAuthor_Ok h m resolve x :
  authorizeAuthor h m resolve = Ok x ↔
  resolve (h_Author h) = Ok x ∧ h_Author h ∉ ms_revoked m ∧ CanWrite (Role m x.1) = true ∧ Head_Verify x.2 h = Ok ().
Proof.
  unfold authorizeAuthor, IsDeviceRevoked. rewrite bind_Ok. split.
  - intros ([a k] & Hr & Ha). apply fail_if_Ok in Ha as [Hd Ha]. apply fail_if_Ok in Ha as [Hw Ha].
    apply bind_Ok in Ha as ([] & Hv & <-%Ok_inj). bool_simpl. done.
  - intros (Hr & Hd & Hw & Hv). exists x. split; [done|]. destruct x as [a k]. cbn in *.
    rewrite bool_decide_eq_false_2, Hw by done. cbn. by rewrite Hv, bind_ok_l.
Qed.

Lemma purge_guard (l : list ID) b : (0 <? len l) && negb b = false ↔ (l ≠ [] → b = true).
Proof. destruct l, b; cbn; naive_solver. Qed.

Lemma ApplyCommit_Ok s c m resolve s' :
  ApplyCommit s c m resolve = Ok s' ↔
  ∃ account key, resolve (h_Author (c_Head c)) = Ok (account, key) ∧ commit_allowed s c m account key ∧
    MerkleRoot (leaves_list (commit_leaves s c)) = Ok (h_MerkleRoot (c_Head c)) ∧ s' = committed s c.
Proof.
  unfold ApplyCommit. split.
  - intros Ha. apply fail_if_Ok in Ha as [Hv Ha]. apply bind_Ok in Ha as ([] & Hl & Ha).
    apply fail_if_Ok in Ha as [Hm Ha]. apply bind_Ok in Ha as ([a k] & (Hr&Hd&Hw&Hs)%authorizeAuthor_Ok & Ha).
    apply fail_if_Ok in Ha as [Hp Ha]. pose proof (proj1 (purge_guard _ _) Hp) as Hp'. clear Hp.
    apply fail_if_Ok in Ha as [He Ha].
    apply bind_Ok in Ha as (L & (Hnd & Hok & ->)%applyRecords_Ok & Ha).
    apply bind_Ok in Ha as (L' & (Hpd & Hpok & ->)%applyPurges_Ok & Ha).
    apply bind_Ok in Ha as (root & Hroot & Ha). apply fail_if_Ok in Ha as [Hre Ha].
    apply bind_Ok in Ha as (cur & (_&_&->)%Advance_Ok & <-%Ok_inj).
    apply VerifyLink_Ok in Hl as (?&?&?). bool_simpl. rewrite !Z.eqb_eq in *. subst root.
    exists a, k. split; [done|]. split; [|done]. apply purges_install in Hpok. done.
  - intros (a & k & Hr & [] & Hroot & ->). rewrite bool_decide_eq_true_2 by done. cbn [negb].
    assert (VerifyLink (vs_cursor s) (c_Head c) = Ok ()) as Hl by by apply VerifyLink_Ok.
    rewrite Hl, bind_ok_l, (proj2 (Z.eqb_eq _ _) cl_member_seq0), bool_decide_eq_true_2 by done. cbn [negb orb].
    rewrite (proj2 (authorizeAuthor_Ok _ m resolve (a, k))) by done. rewrite bind_ok_l.
    rewrite (proj2 (purge_guard _ _) cl_purge_role0), (proj2 (Z.eqb_eq _ _) cl_epoch0). cbn [negb].
    rewrite (proj2 (applyRecords_Ok _ _ _ _ _ _ (install (vs_leaves s) (c_Records c)))) by done. rewrite bind_ok_l.
    rewrite (proj2 (applyPurges_Ok _ _ _ (commit_leaves s c))) by (split_and!; [done|by apply purges_install|done]).
    rewrite bind_ok_l, Hroot, bind_ok_l, bool_decide_eq_true_2 by done. cbn [negb].
    assert (Advance (vs_cursor s) (c_Head c) = Ok (head_cursor (c_Head c))) as ->; [|by rewrite bind_ok_l].
    apply Advance_Ok. split_and!; [done|by eapply Head_Verify_sig|done].
Qed.

(** C6. A commit is accepted exactly when the rules of the protocol allow it - it extends the chain,
    names the membership position it was made under, is signed by an unrevoked device of an account
    that may write, every record in it is that device's, signed, next in its record's version order
    and under the current epoch, and only a manager purges, and only tombstones - and its Merkle root
    is the root of exactly the state it produces. *)
Theorem ApplyCommit_iff (s s' : VaultState) (c : Commit) (m : MembershipState) (resolve : DeviceResolver) :
  ApplyCommit s c m resolve = Ok s' ↔
  ∃ account key, resolve (h_Author (c_Head c)) = Ok (account, key) ∧ commit_allowed s c m account key ∧
    MerkleRoot (leaves_list (commit_leaves s c)) = Ok (h_MerkleRoot (c_Head c)) ∧ s' = committed s c.
Proof. apply ApplyCommit_Ok. Qed.

(** What an accepted commit does to each record: a purged one was a tombstone and is gone; a
    written one moves to the next version and is now that envelope's leaf; every other record keeps
    its leaf. *)
Theorem ApplyCommit_effect (s s' : VaultState) (c : Commit) (m : MembershipState) (resolve : DeviceResolver) (id : ID) :
  ApplyCommit s c m resolve = Ok s' →
  (id ∈ c_Purged c ∧ vs_leaves s' !! id = None ∧ ∃ l, vs_leaves s !! id = Some l ∧ l_Deleted l = true) ∨
  (∃ e, e ∈ c_Records c ∧ e_Record e = id ∧ LeafOf e = Ok (leaf_of e) ∧ vs_leaves s' !! id = Some (leaf_of e) ∧
        e_Version e = wrap64 (leaf_version (vs_leaves s) id + 1)) ∨
  (id ∉ c_Purged c ∧ id ∉ e_Record <$> c_Records c ∧ vs_leaves s' !! id = vs_leaves s !! id).
Proof.
  intros (a & k & _ & [] & _ & ->)%ApplyCommit_Ok. unfold committed, commit_leaves. cbn [vs_leaves].
  rewrite discard_lookup. rewrite Forall_forall in cl_purges0. rewrite Forall_forall in cl_records0. case_decide as Hp.
  - left. destruct (cl_purges0 id Hp) as [_ ?]. done.
  - right. destruct (decide (id ∈ e_Record <$> c_Records c)) as [Hw|Hw].
    + left. apply list_elem_of_fmap in Hw as (e & -> & He). exists e. destruct (cl_records0 e He).
      split_and!; [done|done|by eapply LeafOf_total, Envelope_Verify_Validate|by apply install_written|done].
    + right. by rewrite install_other.
Qed.

(** ** Replayed histories *)

Definition CommitInput : Type := Commit * MembershipState * DeviceResolver.
Definition commit_step (s : VaultState) (x : CommitInput) : result error VaultState := ApplyCommit s x.1.1 x.1.2 x.2.

Definition vault_genesis (v : ID) : VaultState := {| vs_vault := v; vs_cursor := genesis_cursor v; vs_leaves := ∅ |}.
Lemma NewVaultState_eq v : NewVaultState v = Ok (vault_genesis v).
Proof. unfold NewVaultState. by rewrite GenesisCursor_eq, bind_ok_l. Qed.

Definition envelope_sized (e : Envelope) : Prop :=
  Forall field_small (envelope_fields e) ∧
  Forall field_small [bytes_of_string LabelEnvelope; frames (envelope_fields e); e_Sig e].

(** Every leaf of the map is the leaf of one of the envelopes [es]. *)
Definition backed (es : list Envelope) (leaves : gmap ID Leaf) : Prop :=
  ∀ id l, leaves !! id = Some l → ∃ e, e ∈ es ∧ e_Record e = id ∧ l = leaf_of e ∧ envelope_sized e.

(** The state [s] is the one head [h] commits to. *)
Record headed (s : VaultState) (h : Head) : Prop := {
  hd_vault : h_Vault h = vs_vault s;
  hd_cursor : vs_cursor s = head_cursor h;
  hd_root : MerkleRoot (Leaves s) = Ok (h_MerkleRoot h);
  hd_sig : field_small (h_Sig h);
}.

Definition records_of (xs : list CommitInput) : list Envelope := concat ((λ x, c_Records x.1.1) <$> xs).

Lemma envelope_input_inj e e' :
  Envelope_wf e → Envelope_wf e' → envelope_sized e → envelope_sized e' → envelope_input e = envelope_input e' → e = e'.
Proof.
  intros We We' [Hf Hg] [Hf' Hg'] E. unfold envelope_input in E. apply frames_inj in E; [|done..].
  field_inj. apply (Envelope_SigningBytes_inj e e' (frames (envelope_fields e))); [done|done| | |done];
    rewrite Envelope_SigningBytes_fields, fields_ok by done; congruence.
Qed.

Lemma backed_mono es es' L : es ⊆ es' → backed es L → backed es' L.
Proof. intros Hs Hb id l (e&?&?&?&?)%Hb. exists e. split_and!; auto. Qed.

Lemma backed_keys es L : backed es L → l_Record <$> leaves_list L = (map_to_list L).*1.
Proof.
  intros Hb. unfold leaves_list. rewrite <- list_fmap_compose. apply list_fmap_ext. intros i [id l] Hi. cbn.
  apply list_elem_of_lookup_2, elem_of_map_to_list, Hb in Hi as (e&?&?&->&?). done.
Qed.
Lemma backed_NoDup es L : backed es L → NoDup (l_Record <$> leaves_list L).
Proof. intros Hb. rewrite (backed_keys es) by done. apply NoDup_fst_map_to_list. Qed.
Lemma elem_of_leaves_list L l : l ∈ leaves_list L ↔ ∃ id, L !! id = Some l.
Proof.
  unfold leaves_list. rewrite list_elem_of_fmap. split.
  - intros ([id l'] & -> & Hi%elem_of_map_to_list). eauto.
  - intros [id Hi]. exists (id, l). split; [done|]. by apply elem_of_map_to_list.
Qed.

Lemma commit_backed es s c m resolve s' :
  backed es (vs_leaves s) → ApplyCommit s c m resolve = Ok s' → backed (es ++ c_Records c) (vs_leaves s').
Proof.
  intros Hb (a & k & _ & [] & _ & ->)%ApplyCommit_Ok id l. unfold committed, commit_leaves. cbn [vs_leaves].
  rewrite discard_lookup. case_decide; [done|]. rewrite Forall_forall in cl_records0.
  destruct (decide (id ∈ e_Record <$> c_Records c)) as [Hw|Hw].
  - apply list_elem_of_fmap in Hw as (e & -> & He). rewrite install_written by done. intros [= <-].
    exists e. destruct (cl_records0 e He). split_and!; [apply elem_of_app; auto|done|done|].
    by eapply envelope_msg_small, Envelope_Verify_Validate.
  - rewrite install_other by done. intros (e&?&?&?&?)%Hb. exists e. split_and!; [apply elem_of_app; auto|done..].
Qed.

Lemma replay_backed s0 xs s : foldM commit_step s0 xs = Ok s → vs_leaves s0 = ∅ →
  backed (records_of xs) (vs_leaves s) ∧ vs_vault s = vs_vault s0 ∧
  match list.last xs with None => s = s0 | Some x => headed s (c_Head x.1.1) end.
Proof.
  revert s. induction xs as [|x xs IH] using rev_ind; intros s Hr H0.
  - apply Ok_inj in Hr as <-. rewrite H0. split_and!; [|done|done]. intros id l. by rewrite lookup_empty.
  - apply foldM_snoc_Ok in Hr as (s1 & Hr & Hs). destruct (IH s1 Hr H0) as (Hb & Hv & _). unfold commit_step in Hs.
    rewrite last_snoc. split.
    + unfold records_of. rewrite fmap_app, concat_app. cbn. rewrite app_nil_r. by eapply commit_backed.
    + apply ApplyCommit_Ok in Hs as (a & k & _ & [] & Hroot & ->). split; [done|].
      constructor; [done|done|exact Hroot|by eapply Head_Verify_sig].
Qed.

(** The strings hashed to verify a state: the head's, the tree's and the envelopes'. *)
Definition state_inputs (s : VaultState) (h : Head) (es : list Envelope) : list bytes :=
  head_input h :: merkle_inputs (Leaves s) ++ (envelope_input <$> es).

Lemma backed_versions es L : backed es L → Forall Envelope_wf es → Forall (λ l, u64 (l_Version l)) (leaves_list L).
Proof.
  intros Hb Hw. apply Forall_forall. intros l [id (e&He&_&->&_)%Hb]%elem_of_leaves_list.
  rewrite Forall_forall in Hw. by destruct (Hw e He).
Qed.

Lemma backed_sub es1 es2 L1 L2 :
  backed es1 L1 → backed es2 L2 → Forall Envelope_wf es1 → Forall Envelope_wf es2 →
  collision_free (λ x, x ∈ envelope_input <$> es1 ∨ x ∈ envelope_input <$> es2) →
  leaf_hashed <$> leaves_list L1 ≡ₚ leaf_hashed <$> leaves_list L2 → L1 ⊆ L2.
Proof.
  intros B1 B2 W1 W2 Hc Hp. apply map_subseteq_spec. intros id l Hl. rewrite Forall_forall in W1, W2.
  assert (leaf_hashed l ∈ leaf_hashed <$> leaves_list L2) as Hin.
  { rewrite <- Hp. apply list_elem_of_fmap_2, elem_of_leaves_list. eauto. }
  apply list_elem_of_fmap in Hin as (l2 & E & [id2 Hl2]%elem_of_leaves_list).
  destruct (B1 id l Hl) as (e1&H1&<-&->&S1). destruct (B2 id2 l2 Hl2) as (e2&H2&<-&->&S2).
  unfold leaf_hashed in E. cbn in E. injection E as Er Ev Ed.
  apply Hc in Ed; [|left; by apply list_elem_of_fmap_2|right; by apply list_elem_of_fmap_2].
  apply envelope_input_inj in Ed; [|auto..]. by subst.
Qed.

(** Two states with leaves from known envelopes and one head hash are equal. *)
Lemma headed_unique s1 s2 h1 h2 es1 es2 :
  headed s1 h1 → headed s2 h2 → backed es1 (vs_leaves s1) → backed es2 (vs_leaves s2) →
  Head_wf h1 → Head_wf h2 → Forall Envelope_wf es1 → Forall Envelope_wf es2 →
  cur_Hash (vs_cursor s1) = cur_Hash (vs_cursor s2) →
  collision_free (λ x, x ∈ state_inputs s1 h1 es1 ∨ x ∈ state_inputs s2 h2 es2) → s1 = s2.
Proof.
  intros [V1 C1 R1 G1] [V2 C2 R2 G2] B1 B2 Wh1 Wh2 W1 W2 Hh Hc. rewrite C1, C2 in Hh. cbn in Hh.
  unfold state_inputs in Hc. apply Hc in Hh; [|left; left|right; left].
  apply head_input_inj in Hh; [|done..]. subst h2.
  apply MerkleRoot_Ok in R1 as [_ R1], R2 as [_ R2].
  assert (leaf_hashed <$> Leaves s1 ≡ₚ leaf_hashed <$> Leaves s2) as Hp.
  { rewrite <- (sort_leaves_perm (Leaves s1)), <- (sort_leaves_perm (Leaves s2)).
    rewrite (root_of_inj (Leaves s1) (Leaves s2)); [done|by eapply backed_versions..| |congruence].
    revert Hc. apply collision_free_weaken. intros x [?|?]; [left|right]; right; apply elem_of_app; auto. }
  assert (vs_leaves s1 = vs_leaves s2) as EL.
  { apply (anti_symm (⊆)); [eapply (backed_sub es1 es2)|eapply (backed_sub es2 es1)]; try done.
    - revert Hc. apply collision_free_weaken. intros x [?|?]; [left|right]; right; apply elem_of_app; auto.
    - revert Hc. apply collision_free_weaken. intros x [?|?]; [right|left]; right; apply elem_of_app; auto. }
  destruct s1, s2; cbn in *. congruence.
Qed.

(** C22. Two devices that verified commit lists - each with its own view of memberships and device
    keys - up to heads with one hash hold the same state: the same records at the same versions with
    the same digests and deletion flags, at the same position. *)
Theorem vault_state_unique (v1 v2 : ID) (g1 g2 s1 s2 : VaultState) (xs1 xs2 : list CommitInput) (x1 x2 : CommitInput) :
  NewVaultState v1 = Ok g1 → NewVaultState v2 = Ok g2 →
  foldM commit_step g1 (xs1 ++ [x1]) = Ok s1 → foldM commit_step g2 (xs2 ++ [x2]) = Ok s2 →
  cur_Hash (vs_cursor s1) = cur_Hash (vs_cursor s2) →
  Head_wf (c_Head x1.1.1) → Head_wf (c_Head x2.1.1) →
  Forall Envelope_wf (records_of (xs1 ++ [x1])) → Forall Envelope_wf (records_of (xs2 ++ [x2])) →
  collision_free (λ x, x ∈ state_inputs s1 (c_Head x1.1.1) (records_of (xs1 ++ [x1])) ∨
                       x ∈ state_inputs s2 (c_Head x2.1.1) (records_of (xs2 ++ [x2]))) →
  s1 = s2.
Proof.
  rewrite !NewVaultState_eq. intros <-%Ok_inj <-%Ok_inj A1 A2 Hh W1 W2 E1 E2 Hc.
  apply replay_backed in A1 as (B1 & _ & D1); [|done]. apply replay_backed in A2 as (B2 & _ & D2); [|done].
  rewrite last_snoc in D1, D2. by eapply headed_unique.
Qed.

(** ** Snapshots *)

Lemma restore_loop L ls L' :
  foldM restoreLeaf L ls = Ok L' →
  ∀ id, L' !! id = match List.find (λ l, l_Record l =?? id) ls with Some l => Some l | None => L !! id end.
Proof.
  revert L. induction ls as [|l ls IH]; intros L Hr id; cbn [foldM List.find] in *; [by apply Ok_inj in Hr as <-|].
  unfold restoreLeaf in Hr at 1. case_bool_decide as Hn; [done|]. rewrite (IH _ Hr id).
  case_bool_decide as Hd; cbn.
  - subst id. destruct (List.find _ ls) as [l'|] eqn:Ef; [|by rewrite lookup_insert_eq]. exfalso. clear IH.
    apply find_some in Ef as [Hin Hd]. bool_simpl. apply list_elem_of_In in Hin.
    assert (∀ ls L L' l l', foldM restoreLeaf L ls = Ok L' → l' ∈ ls → L !! l_Record l' = Some l → False) as Hdup.
    { clear. induction ls as [|a ls IH]; intros L L' l l' Hr Hin HL; [by apply not_elem_of_nil in Hin|].
      cbn [foldM] in Hr. unfold restoreLeaf in Hr at 1. case_bool_decide as Hn; [done|].
      apply elem_of_cons in Hin as [->|Hin]; [apply Hn; eauto|].
      eapply (IH _ _ l l'); [exact Hr|done|]. rewrite lookup_insert_ne; [done|]. intros E. apply Hn. rewrite E. eauto. }
    eapply (Hdup ls _ _ l l'); [exact Hr|done|]. by rewrite Hd, lookup_insert_eq.
  - destruct (List.find _ ls); [done|]. by rewrite lookup_insert_ne.
Qed.

Lemma restore_loop_ok (L : gmap ID Leaf) (ls : list Leaf) :
  NoDup (l_Record <$> ls) → (∀ l, l ∈ ls → L !! l_Record l = None) →
  foldM restoreLeaf L ls = Ok (foldl (λ L l, <[l_Record l := l]> L) L ls).
Proof.
  revert L. induction ls as [|l ls IH]; intros L Hnd Hn; [done|]. cbn in *. apply NoDup_cons in Hnd as [Hni Hnd].
  unfold restoreLeaf at 1. rewrite bool_decide_eq_false_2 by (rewrite (Hn l ltac:(left)); by intros []).
  apply IH; [done|]. intros l' Hl'. rewrite lookup_insert_ne; [apply Hn; by right|].
  intros E. apply Hni. rewrite E. by apply list_elem_of_fmap_2.
Qed.

(** A list that holds each leaf of [L] once, under its own record, restores [L]. *)
Lemma restore_keyed (L : gmap ID Leaf) (ls : list Leaf) :
  NoDup (l_Record <$> ls) → (∀ l, l ∈ ls ↔ L !! l_Record l = Some l) → (∀ id l, L !! id = Some l → l_Record l = id) →
  foldM restoreLeaf ∅ ls = Ok L.
Proof.
  intros Hnd Hin Hk. pose proof (restore_loop_ok ∅ ls Hnd (λ l _, lookup_empty _)) as Hr. rewrite Hr. f_equal.
  apply map_eq. intros id. rewrite (restore_loop _ _ _ Hr id), lookup_empty.
  destruct (List.find _ ls) as [l|] eqn:Ef.
  - apply find_some in Ef as [Hl Hd]. bool_simpl. apply list_elem_of_In, Hin in Hl. by rewrite <- Hd, Hl.
  - destruct (L !! id) as [l|] eqn:El; [|done]. pose proof (Hk id l El) as <-.
    apply Hin, list_elem_of_In, (find_none _ _ Ef) in El. by rewrite bool_decide_eq_true_2 in El.
Qed.

Lemma restore_leaves es L ls : backed es L → ls ≡ₚ leaves_list L → foldM restoreLeaf ∅ ls = Ok L.
Proof.
  intros Hb Hp. assert (∀ id l, L !! id = Some l → l_Record l = id) as Hk by (intros id l (e&_&<-&->&_)%Hb; done).
  apply restore_keyed; [rewrite Hp; by eapply backed_NoDup| |done].
  intros l. rewrite Hp, elem_of_leaves_list. split; [|eauto]. intros [i Hi]. by rewrite (Hk i l Hi).
Qed.

Lemma headed_restored s h ls :
  headed s h → foldM restoreLeaf ∅ ls = Ok (vs_leaves s) → RestoreVaultStateFromLeaves (vs_vault s) (Some h) ls = Ok s.
Proof.
  intros [V C R G] Hl. unfold RestoreVaultStateFromLeaves. rewrite NewVaultState_eq, bind_ok_l.
  rewrite bool_decide_eq_true_2 by done. cbn [negb vs_leaves vault_genesis vs_vault].
  rewrite Hl, bind_ok_l. fold (Leaves s). rewrite R.
  rewrite bool_decide_eq_true_2 by done. cbn [negb].
  rewrite (proj2 (Head_Hash_Ok h (sha256 (head_input h)))) by done. rewrite bind_ok_l. fold (head_cursor h).
  rewrite <- C. by destruct s.
Qed.

Lemma headed_restore s h es ls :
  headed s h → backed es (vs_leaves s) → ls ≡ₚ Leaves s → RestoreVaultStateFromLeaves (vs_vault s) (Some h) ls = Ok s.
Proof. intros Hd Hb Hp. apply headed_restored; [done|by eapply restore_leaves]. Qed.

(** What a restored state holds. *)
Lemma RestoreVaultStateFromLeaves_Ok v head ls s :
  RestoreVaultStateFromLeaves v head ls = Ok s →
  vs_vault s = v ∧ foldM restoreLeaf ∅ ls = Ok (vs_leaves s) ∧ from_option (headed s) (s = vault_genesis v ∧ ls = []) head.
Proof.
  unfold RestoreVaultStateFromLeaves. rewrite NewVaultState_eq, bind_ok_l. destruct head as [h|]; intros Hr.
  - apply fail_if_Ok in Hr as [Hv Hr]. apply bind_Ok in Hr as (L & HL & Hr).
    destruct (MerkleRoot (leaves_list L)) as [root|] eqn:Er; [|done].
    apply fail_if_Ok in Hr as [He Hr]. apply bind_Ok in Hr as (x & [Hs ->]%Head_Hash_Ok & <-%Ok_inj). bool_simpl.
    subst root. split_and!; [done|exact HL|]. constructor; done.
  - apply fail_if_Ok in Hr as [Hl <-%Ok_inj]. destruct ls; [|done]. done.
Qed.

Lemma commit_headed s c m resolve s' : ApplyCommit s c m resolve = Ok s' → headed s' (c_Head c).
Proof. intros (a & k & _ & [] & Hroot & ->)%ApplyCommit_Ok. constructor; [done|done|exact Hroot|by eapply Head_Verify_sig]. Qed.

(** Storing a verified state as its head and its leaves, in any order, and restoring it gives the
    state back: the server's next commit is checked against exactly the state its last one left. *)
Theorem restore_roundtrip (v : ID) (g s : VaultState) (xs : list CommitInput) (x : CommitInput) (ls : list Leaf) :
  NewVaultState v = Ok g → foldM commit_step g (xs ++ [x]) = Ok s → ls ≡ₚ Leaves s →
  RestoreVaultStateFromLeaves v (Some (c_Head x.1.1)) ls = Ok s.
Proof.
  rewrite NewVaultState_eq. intros <-%Ok_inj Hr Hp. apply replay_backed in Hr as (Hb & Hv & Hd); [|done].
  rewrite last_snoc in Hd. cbn in Hv. rewrite <- Hv. by eapply headed_restore.
Qed.

Lemma mapM_restore v es ls :
  mapM_result (restoreRecord v) es = Ok ls → ls = leaf_of <$> es ∧ Forall (λ e, e_Vault e = v ∧ envelope_sized e) es.
Proof.
  revert ls. induction es as [|e es IH]; intros ls Hm; cbn in Hm.
  - apply Ok_inj in Hm as <-. split; [done|constructor].
  - apply bind_Ok in Hm as (l & Hl & Hm). apply bind_Ok in Hm as (ls' & Hls & <-%Ok_inj).
    apply IH in Hls as [-> HF]. unfold restoreRecord in Hl. apply fail_if_Ok in Hl as [Hv Hl]. bool_simpl.
    pose proof (LeafOf_Ok _ _ Hl) as ->. split; [done|]. constructor; [|done]. split; [done|].
    unfold LeafOf in Hl. by apply bind_Ok in Hl as (d & (?&?&_)%Envelope_Digest_Ok & _).
Qed.

Lemma RestoreVaultState_headed v h es s :
  RestoreVaultState v (Some h) es = Ok s → headed s h ∧ backed es (vs_leaves s).
Proof.
  unfold RestoreVaultState. intros Hr. apply fail_if_Ok in Hr as [Hv Hr].
  apply bind_Ok in Hr as (ls & [-> HF]%mapM_restore & Hr). unfold RestoreVaultStateFromLeaves in Hr.
  rewrite NewVaultState_eq, bind_ok_l in Hr. apply fail_if_Ok in Hr as [_ Hr]. bool_simpl.
  apply bind_Ok in Hr as (L & HL & Hr). cbn [vs_leaves vault_genesis] in HL. destruct (MerkleRoot (leaves_list L)) as [root|] eqn:Eroot; [|done].
  apply fail_if_Ok in Hr as [Hroot Hr]. apply bind_Ok in Hr as (d & [Hs ->]%Head_Hash_Ok & <-%Ok_inj). bool_simpl.
  subst root. split; [done|]. cbn. intros id l. rewrite (restore_loop _ _ _ HL id), lookup_empty.
  destruct (List.find _ _) as [l'|] eqn:Ef; [|done]. intros [= ->].
  apply find_some in Ef as [Hin Hd]. bool_simpl. apply list_elem_of_In, list_elem_of_fmap in Hin as (e & -> & He).
  rewrite Forall_forall in HF. destruct (HF e He). exists e. done.
Qed.

(** C24. A snapshot is accepted under a head a device already verified only if it is exactly the
    state that head commits to: records dropped, added, replaced or undeleted by whoever delivered it
    are refused. *)
Theorem snapshot_exact (v : ID) (g s s' : VaultState) (xs : list CommitInput) (x : CommitInput) (es : list Envelope) :
  NewVaultState v = Ok g → foldM commit_step g (xs ++ [x]) = Ok s →
  RestoreVaultState v (Some (c_Head x.1.1)) es = Ok s' →
  Head_wf (c_Head x.1.1) → Forall Envelope_wf (records_of (xs ++ [x])) → Forall Envelope_wf es →
  collision_free (λ y, y ∈ state_inputs s (c_Head x.1.1) (records_of (xs ++ [x])) ∨ y ∈ state_inputs s' (c_Head x.1.1) es) →
  s' = s.
Proof.
  rewrite NewVaultState_eq. intros <-%Ok_inj Hr Hs Wh W1 W2 Hc. apply replay_backed in Hr as (Hb & _ & Hd); [|done].
  rewrite last_snoc in Hd. apply RestoreVaultState_headed in Hs as [Hd' Hb'].
  symmetry. eapply headed_unique; try done. rewrite (hd_cursor _ _ Hd), (hd_cursor _ _ Hd'). done.
Qed.

End vaultstate.

(** ** Examples: a commit writes a live record and a tombstone, the next rewrites one and purges the other *)

#[local] Existing Instance demo_crypto.

Definition demo_author : ID := demo_id 21.
Definition demo_author_key : bytes := vec_to_list (demo_hash 21).
Definition demo_resolve : DeviceResolver := λ d,
  if d =?? demo_author then Ok (demo_id 1, demo_author_key) else Err [ErrDeviceLog].
Definition demo_mstate : MembershipState := {|
  ms_vault := demo_vault; ms_seq := 1; ms_hash := demo_hash 1; ms_members := {[ demo_id 1 := RoleOwner ]};
  ms_owner := demo_id 1; ms_creator := demo_id 1; ms_fingerprints := ∅; ms_epoch := 0; ms_revoked := ∅;
  ms_retentionDays := 30; ms_requireVerified := false; ms_deleted := false; ms_pendingRotation := false;
  ms_rotations := []; ms_shredSeq := 0; ms_params := suite1_params |}.

Definition demo_envelope (n version : Z) (deleted : bool) : Envelope :=
  let e sig := {| e_Vault := demo_vault; e_Record := demo_id n; e_Version := version; e_Epoch := 0; e_Suite := Suite1;
    e_Deleted := deleted; e_WrappedDEK := if deleted then [] else zeros 72; e_Body := if deleted then [] else zeros 296;
    e_Author := demo_author; e_SigAlg := SigEd25519; e_Sig := sig |} in
  e (demo_sign demo_author_key (frames (envelope_fields (e [])))).

Definition demo_chead (seq : Z) (prev root : hash) : Head :=
  let h := demo_head seq prev root demo_author in
  {| h_Vault := h_Vault h; h_Seq := h_Seq h; h_PrevHash := h_PrevHash h; h_MerkleRoot := h_MerkleRoot h;
     h_CurrentEpoch := h_CurrentEpoch h; h_MembershipSeq := h_MembershipSeq h; h_MembershipHead := h_MembershipHead h;
     h_Commit := h_Commit h; h_Author := h_Author h; h_ClientTimeUnixMilli := h_ClientTimeUnixMilli h;
     h_SigAlg := h_SigAlg h; h_Sig := demo_sign demo_author_key (frames (head_fields h)) |}.

Definition demo_commit1 : Commit :=
  let es := [demo_envelope 31 1 false; demo_envelope 32 1 true] in
  {| c_Head := demo_chead 1 (sha256 (genesis_input demo_vault)) (root_of (leaf_of <$> es)); c_Records := es; c_Purged := [] |}.
Definition demo_commit2 : Commit :=
  let es := [demo_envelope 31 2 false] in
  {| c_Head := demo_chead 2 (sha256 (head_input (c_Head demo_commit1))) (root_of (leaf_of <$> es));
     c_Records := es; c_Purged := [demo_id 32] |}.
Definition demo_input (c : Commit) : CommitInput := (c, demo_mstate, demo_resolve).
Definition demo_inputs : list CommitInput := [demo_input demo_commit1; demo_input demo_commit2].
Definition demo_vs (xs : list CommitInput) : VaultState := of_ok (vault_genesis demo_vault) (foldM commit_step (vault_genesis demo_vault) xs).

Lemma demo_vs_run xs : is_ok (foldM commit_step (vault_genesis demo_vault) xs) = true →
  foldM commit_step (vault_genesis demo_vault) xs = Ok (demo_vs xs).
Proof. apply of_ok_eq. Qed.
Lemma demo_inputs_wf :
  Head_wf (c_Head demo_commit2) ∧ Forall Envelope_wf (records_of demo_inputs) ∧ Forall Envelope_wf (c_Records demo_commit2).
Proof.
  split_and!; [unfold Head_wf, u64, u32, u16; vm_compute; repeat split; intros [=]| |];
    repeat apply Forall_cons_2; try apply Forall_nil_2; unfold Envelope_wf, u64, u32, u16; vm_compute; repeat split; intros [=].
Qed.
Lemma demo_vs_fresh es :
  es ⊆ records_of demo_inputs →
  collision_free (λ x, x ∈ state_inputs (demo_vs demo_inputs) (c_Head demo_commit2) (records_of demo_inputs) ∨
                       x ∈ state_inputs (demo_vs demo_inputs) (c_Head demo_commit2) es).
Proof.
  intros Hs. apply (collision_free_list _ (state_inputs (demo_vs demo_inputs) (c_Head demo_commit2) (records_of demo_inputs))).
  - intros x [Hx|Hx]; [done|]. unfold state_inputs in *. apply elem_of_cons in Hx as [->|Hx]; [left|right].
    rewrite elem_of_app in Hx |- *. destruct Hx as [?|Hx]; [by left|right].
    apply list_elem_of_fmap in Hx as (e & -> & He). apply list_elem_of_fmap_2. by apply Hs.
  - vm_compute. reflexivity.
Qed.

Lemma ApplyCommit_effect_witness :
  (demo_id 31 ∈ c_Purged demo_commit1 ∧ vs_leaves (demo_vs [demo_input demo_commit1]) !! demo_id 31 = None ∧
   ∃ l, vs_leaves (vault_genesis demo_vault) !! demo_id 31 = Some l ∧ l_Deleted l = true) ∨
  (∃ e, e ∈ c_Records demo_commit1 ∧ e_Record e = demo_id 31 ∧ LeafOf e = Ok (leaf_of e) ∧
        vs_leaves (demo_vs [demo_input demo_commit1]) !! demo_id 31 = Some (leaf_of e) ∧
        e_Version e = wrap64 (leaf_version (vs_leaves (vault_genesis demo_vault)) (demo_id 31) + 1)) ∨
  (demo_id 31 ∉ c_Purged demo_commit1 ∧ demo_id 31 ∉ e_Record <$> c_Records demo_commit1 ∧
   vs_leaves (demo_vs [demo_input demo_commit1]) !! demo_id 31 = vs_leaves (vault_genesis demo_vault) !! demo_id 31).
Proof.
  refine (ApplyCommit_effect (vault_genesis demo_vault) (demo_vs [demo_input demo_commit1]) demo_commit1 demo_mstate
            demo_resolve (demo_id 31) _).
  assert (foldM commit_step (vault_genesis demo_vault) [demo_input demo_commit1] = Ok (demo_vs [demo_input demo_commit1])) as Hr
    by (apply demo_vs_run; vm_compute; reflexivity).
  apply (foldM_snoc_Ok _ _ []) in Hr as (s1 & <-%Ok_inj & Hr). exact Hr.
Defined.

Lemma vault_state_unique_witness : demo_vs demo_inputs = demo_vs demo_inputs.
Proof.
  apply (vault_state_unique demo_vault demo_vault (vault_genesis demo_vault) (vault_genesis demo_vault)
           (demo_vs demo_inputs) (demo_vs demo_inputs) [demo_input demo_commit1] [demo_input demo_commit1]
           (demo_input demo_commit2) (demo_input demo_commit2)).
  1-2: apply NewVaultState_eq.
  1-2: apply demo_vs_run; vm_compute; reflexivity.
  - reflexivity.
  - apply demo_inputs_wf.
  - apply demo_inputs_wf.
  - apply demo_inputs_wf.
  - apply demo_inputs_wf.
  - apply (demo_vs_fresh (records_of demo_inputs)). intros x Hx. exact Hx.
Defined.

Lemma restore_roundtrip_witness :
  RestoreVaultStateFromLeaves demo_vault (Some (c_Head demo_commit2)) (reverse (Leaves (demo_vs demo_inputs)))
  = Ok (demo_vs demo_inputs).
Proof.
  apply (restore_roundtrip demo_vault (vault_genesis demo_vault) (demo_vs demo_inputs) [demo_input demo_commit1]
           (demo_input demo_commit2)).
  - apply NewVaultState_eq.
  - apply demo_vs_run. vm_compute. reflexivity.
  - apply reverse_Permutation.
Defined.

Lemma snapshot_exact_witness : demo_vs demo_inputs = demo_vs demo_inputs.
Proof.
  apply (snapshot_exact demo_vault (vault_genesis demo_vault) (demo_vs demo_inputs) (demo_vs demo_inputs)
           [demo_input demo_commit1] (demo_input demo_commit2) (c_Records demo_commit2)).
  - apply NewVaultState_eq.
  - apply demo_vs_run. vm_compute. reflexivity.
  - vm_compute. reflexivity.
  - apply demo_inputs_wf.
  - apply demo_inputs_wf.
  - apply demo_inputs_wf.
  - apply (demo_vs_fresh (c_Records demo_commit2)). intros e He. apply list_elem_of_singleton in He as ->.
    unfold records_of. right. right. left.
Defined.
