(* ===== verification/Merge.v ===== *)
(** * Merge: three-way merging of record contents

    [internal/domain/vaultsync]: [merge.go] and [merge_array.go]. The Go values are what
    [encoding/json] decodes with numbers kept as text: [json] below. [any] is [option json], where
    [None] is [Absent]. The mutual recursion of [object], [value] and [idArray] runs on fuel;
    [merge_total] shows the fuel [MergeObjects] gives it always suffices. *)

From S2P Require Import Prelude.

Inductive json :=
  | JNull
  | JBool (b : bool)
  | JNumber (text : string)
  | JString (s : string)
  | JArray (elems : list json)
  | JObject (fields : gmap string json).

Abbreviation any := (option json).

Fixpoint height (j : json) : nat :=
  match j with
  | JArray l => S (foldr (λ e n, Nat.max (height e) n) 0%nat l)
  | JObject m => S (map_fold (λ _ e n, Nat.max (height e) n) 0%nat m)
  | _ => 1%nat
  end.

(** [reflect.DeepEqual] on decoded values; the fuel is a bound on the height of the first. *)
Fixpoint deep_equal (n : nat) (x y : json) : bool :=
  match n with
  | O => false
  | S n =>
      match x, y with
      | JNull, JNull => true
      | JBool a, JBool b => Bool.eqb a b
      | JNumber a, JNumber b => bool_decide (a = b)
      | JString a, JString b => bool_decide (a = b)
      | JArray l, JArray k =>
          (length l =? length k)%nat && forallb (λ p, deep_equal n p.1 p.2) (zip l k)
      | JObject m, JObject m' =>
          (size m =? size m')%nat &&
          forallb (λ p, match m' !! p.1 with Some e => deep_equal n p.2 e | None => false end) (map_to_list m)
      | _, _ => false
      end
  end.
Definition DeepEqual (x y : any) : bool :=
  match x, y with
  | None, None => true
  | Some x, Some y => deep_equal (height x) x y
  | _, _ => false
  end.

Inductive FieldClass := FieldOrdinary | FieldCredential.
#[export] Instance FieldClass_eq_dec : EqDecision FieldClass.
Proof. solve_decision. Defined.

Definition FieldPolicy : Type := list string → FieldClass.

Record Conflict := { cf_Path : list string; cf_Local : any; cf_Remote : any }.

Record MergeResult := { mr_Value : gmap string json; mr_Conflicts : list Conflict }.

(** ** Arrays keyed by id *)

Record idList := { il_order : list string; il_byID : gmap string json }.

Fixpoint asIDList_loop (arr : list json) (acc : idList) : option idList :=
  match arr with
  | [] => Some acc
  | JObject obj :: rest =>
      match obj !! "id"%string with
      | Some (JString id) =>
          if bool_decide (is_Some (il_byID acc !! id)) || bool_decide (id = ""%string) then None
          else asIDList_loop rest {| il_order := il_order acc ++ [id]; il_byID := <[id := JObject obj]> (il_byID acc) |}
      | _ => None
      end
  | _ :: _ => None
  end.
Definition asIDList (v : any) : option idList :=
  match v with
  | Some (JArray arr) => asIDList_loop arr {| il_order := []; il_byID := ∅ |}
  | _ => None
  end.

(** The order of the merged elements: local's, then what only remote has, then what only base has. *)
Definition append_missing (order ids : list string) : list string :=
  foldl (λ order id, if bool_decide (id ∈ order) then order else order ++ [id]) order ids.

(** ** Merging *)

(** [slices.Compact]: drops equal neighbours. *)
Fixpoint slices_Compact (l : list string) : list string :=
  match l with
  | a :: (b :: _) as r => if bool_decide (a = b) then slices_Compact r else a :: slices_Compact r
  | _ => l
  end.

Definition asObjects (base : any) (local remote : json) : option (gmap string json * gmap string json * gmap string json) :=
  match local, remote with
  | JObject l, JObject r =>
      match base with
      | None => Some (l, r, ∅)
      | Some (JObject b) => Some (l, r, b)
      | _ => None
      end
  | _, _ => None
  end.

(** [base] as an id array, or the empty one when it is absent. *)
Definition baseIDList (base : any) : option idList :=
  match asIDList base with
  | Some b => Some b
  | None => match base with None => Some {| il_order := []; il_byID := ∅ |} | Some _ => None end
  end.

Section merger.
Context (policy : FieldPolicy).

Definition resolve (path : list string) (local remote : json) (cs : list Conflict) : any * list Conflict :=
  match policy path with
  | FieldCredential => (Some remote, cs ++ [{| cf_Path := path; cf_Local := Some local; cf_Remote := Some remote |}])
  | FieldOrdinary => (Some local, cs)
  end.

(** The recursive call, [None] when out of fuel. *)
Definition Rec : Type := list string → any → any → any → list Conflict → option (any * list Conflict).

Fixpoint object_loop (rec : Rec) (path : list string) (base local remote : gmap string json) (keys : list string)
    (out : gmap string json) (cs : list Conflict) : option (gmap string json * list Conflict) :=
  match keys with
  | [] => Some (out, cs)
  | key :: keys =>
      '(v, cs) ← rec (path ++ [key]) (base !! key) (local !! key) (remote !! key) cs;
      let out := match v with Some v => <[key := v]> out | None => out end in
      object_loop rec path base local remote keys out cs
  end.

Definition object_keys (base local remote : gmap string json) : list string :=
  slices_Compact (merge_sort String.le
    ((map_to_list base).*1 ++ (map_to_list local).*1 ++ (map_to_list remote).*1)).

Definition object (rec : Rec) (path : list string) (base local remote : gmap string json) (cs : list Conflict) :
    option (gmap string json * list Conflict) :=
  object_loop rec path base local remote (object_keys base local remote) ∅ cs.

Fixpoint idArray_loop (rec : Rec) (path : list string) (b l r : idList) (order : list string) (out : list json)
    (cs : list Conflict) : option (list json * list Conflict) :=
  match order with
  | [] => Some (out, cs)
  | id :: order =>
      '(v, cs) ← rec (path ++ [("[id=" +:+ id +:+ "]")%string]) (il_byID b !! id) (il_byID l !! id) (il_byID r !! id) cs;
      idArray_loop rec path b l r order (match v with Some v => out ++ [v] | None => out end) cs
  end.

(** The body of [value], given the recursive call. *)
Definition value_body (rec : Rec) (path : list string) (base local remote : any) (cs : list Conflict) :
    option (any * list Conflict) :=
  if DeepEqual local remote then Some (local, cs)
  else if DeepEqual local base then Some (remote, cs)
  else if DeepEqual remote base then Some (local, cs)
  else match local, remote with
       | None, _ => Some (remote, cs)
       | _, None => Some (local, cs)
       | Some lv, Some rv =>
           match asObjects base lv rv with
           | Some (lo, ro, bo) =>
               '(out, cs) ← object rec path bo lo ro cs;
               Some (Some (JObject out), cs)
           | None =>
               match asIDList local, asIDList remote, baseIDList base with
               | Some l, Some r, Some b =>
                   let order := append_missing (append_missing (il_order l) (il_order r)) (il_order b) in
                   '(out, cs) ← idArray_loop rec path b l r order [] cs;
                   Some (Some (JArray out), cs)
               | _, _, _ => Some (resolve path lv rv cs)
               end
           end
       end.

Fixpoint value (fuel : nat) : Rec :=
  match fuel with
  | O => λ _ _ _ _ _, None
  | S fuel => value_body (value fuel)
  end.

Definition merge_fuel (local : gmap string json) : nat := S (height (JObject local)).

Definition MergeObjects_fuel (fuel : nat) (base local remote : gmap string json) : option MergeResult :=
  '(v, cs) ← object (value fuel) [] base local remote [];
  Some {| mr_Value := v; mr_Conflicts := cs |}.

(** The fallback is never reached ([merge_total]). *)
Definition MergeObjects (base local remote : gmap string json) : MergeResult :=
  default {| mr_Value := ∅; mr_Conflicts := [] |} (MergeObjects_fuel (merge_fuel local) base local remote).

End merger.

(** ** Deep equality *)

Lemma height_array l e : e ∈ l → (height e < height (JArray l))%nat.
Proof.
  cbn. induction l as [|a l IH]; intros He; [by apply not_elem_of_nil in He|]. cbn.
  apply elem_of_cons in He as [->|He]; [lia|]. specialize (IH He). lia.
Qed.
Lemma height_object m k e : m !! k = Some e → (height e < height (JObject m))%nat.
Proof.
  cbn. intros Hk. apply Nat.lt_succ_r. revert k Hk.
  apply (map_fold_weak_ind (λ n m, ∀ k, m !! k = Some e → (height e ≤ n)%nat)).
  - intros k. by rewrite lookup_empty.
  - intros i x m' n _ IH k. rewrite lookup_insert. case_decide; [intros [= ->]; lia|]. intros Hk%IH. lia.
Qed.

Lemma deep_equal_refl n x : (height x ≤ n)%nat → deep_equal n x x = true.
Proof.
  revert x. induction n as [|n IH]; intros x Hx; [destruct x; cbn in Hx; lia|].
  destruct x as [|b|t|t|l|m]; cbn [deep_equal]; [done|by destruct b|by rewrite bool_decide_eq_true_2..| |].
  - rewrite Nat.eqb_refl. cbn. apply forallb_forall. intros [a b] Hin%list_elem_of_In.
    apply elem_of_lookup_zip_with_1 in Hin as (i & a' & b' & [= -> ->] & Ha & Hb). cbn. rewrite Ha in Hb. injection Hb as <-.
    apply IH. apply list_elem_of_lookup_2, height_array in Ha. lia.
  - rewrite Nat.eqb_refl. cbn. apply forallb_forall. intros [k e] Hin%list_elem_of_In.
    apply elem_of_map_to_list in Hin. cbn. rewrite Hin. apply IH. apply height_object in Hin. lia.
Qed.

Lemma deep_equal_eq n x y : deep_equal n x y = true → x = y.
Proof.
  revert x y. induction n as [|n IH]; intros x y; [done|].
  destruct x as [|b|t|t|l|m], y as [|b'|t'|t'|l'|m']; cbn [deep_equal]; try done.
  - by intros ->%eqb_prop.
  - by intros ->%bool_decide_eq_true.
  - by intros ->%bool_decide_eq_true.
  - intros [Hl%Nat.eqb_eq HF]%andb_true_iff. f_equal. rewrite forallb_forall in HF.
    apply list_eq_same_length with (n := length l); [by rewrite Hl|done|]. intros i a b Hi Ha Hb. apply IH.
    apply (HF (a, b)), list_elem_of_In. by eapply (elem_of_lookup_zip_with_2 pair).
  - intros [Hl%Nat.eqb_eq HF]%andb_true_iff. f_equal. rewrite forallb_forall in HF.
    assert (m ⊆ m') as Hsub.
    { apply map_subseteq_spec. intros k e Hk. specialize (HF (k, e)). cbn in HF.
      assert (match m' !! k with Some e' => deep_equal n e e' | None => false end = true) as He
        by (apply HF, list_elem_of_In, elem_of_map_to_list; done).
      destruct (m' !! k) as [e'|]; [|done]. apply IH in He as ->. done. }
    apply map_subseteq_size_eq; [done|]. lia.
Qed.

Lemma DeepEqual_iff x y : DeepEqual x y = true ↔ x = y.
Proof.
  destruct x as [x|], y as [y|]; cbn; [|done..]. split; [by intros ->%deep_equal_eq|].
  intros [= ->]. by apply deep_equal_refl.
Qed.

#[export] Instance json_eq_dec : EqDecision json.
Proof.
  intros x y. destruct (DeepEqual (Some x) (Some y)) eqn:E; [left|right].
  - apply DeepEqual_iff in E. congruence.
  - intros ->. assert (DeepEqual (Some y) (Some y) = true) by by apply DeepEqual_iff. congruence.
Defined.

(** ** The loops, for any recursive call *)

Lemma elem_of_Compact k l : k ∈ slices_Compact l ↔ k ∈ l.
Proof.
  induction l as [|a [|b l] IH]; [done|done|]. cbn [slices_Compact]. case_bool_decide as E.
  - subst b. rewrite IH. set_solver.
  - rewrite elem_of_cons, IH. set_solver.
Qed.

Lemma elem_of_object_keys b l r k :
  k ∈ object_keys b l r ↔ is_Some (b !! k) ∨ is_Some (l !! k) ∨ is_Some (r !! k).
Proof.
  assert (∀ m : gmap string json, k ∈ (map_to_list m).*1 ↔ is_Some (m !! k)) as Hm.
  { intros m. rewrite list_elem_of_fmap. split.
    - intros ([i e] & -> & He%elem_of_map_to_list). eauto.
    - intros [e He]. exists (k, e). split; [done|]. by apply elem_of_map_to_list. }
  unfold object_keys. rewrite elem_of_Compact, merge_sort_Permutation, !elem_of_app, !Hm. done.
Qed.

Lemma object_loop_ok rec path b l r keys out cs :
  (∀ k cs, k ∈ keys → is_Some (rec (path ++ [k]) (b !! k) (l !! k) (r !! k) cs)) →
  is_Some (object_loop rec path b l r keys out cs).
Proof.
  revert out cs. induction keys as [|k keys IH]; intros out cs Hr; cbn; [eauto|].
  destruct (Hr k cs ltac:(left)) as [[v cs'] ->]. cbn. apply IH. intros. apply Hr. by right.
Qed.
Lemma idArray_loop_ok rec path b l r order out cs :
  (∀ p id cs, is_Some (rec p (il_byID b !! id) (il_byID l !! id) (il_byID r !! id) cs)) →
  is_Some (idArray_loop rec path b l r order out cs).
Proof.
  revert out cs. induction order as [|k order IH]; intros out cs Hr; cbn; [eauto|].
  edestruct Hr as [[v cs'] ->]. cbn. by apply IH.
Qed.

(** One call refines another: it returns whatever the other returns. *)
Definition rec_le (f g : Rec) : Prop := ∀ p b l r cs x, f p b l r cs = Some x → g p b l r cs = Some x.

Lemma object_loop_le f g path b l r keys out cs x :
  rec_le f g → object_loop f path b l r keys out cs = Some x → object_loop g path b l r keys out cs = Some x.
Proof.
  intros Hfg. revert out cs. induction keys as [|k keys IH]; intros out cs; cbn; [done|].
  destruct (f _ _ _ _ _) as [[v cs']|] eqn:E; [|done]. rewrite (Hfg _ _ _ _ _ _ E). cbn. apply IH.
Qed.
Lemma idArray_loop_le f g path b l r order out cs x :
  rec_le f g → idArray_loop f path b l r order out cs = Some x → idArray_loop g path b l r order out cs = Some x.
Proof.
  intros Hfg. revert out cs. induction order as [|k order IH]; intros out cs; cbn; [done|].
  destruct (f _ _ _ _ _) as [[v cs']|] eqn:E; [|done]. rewrite (Hfg _ _ _ _ _ _ E). cbn. apply IH.
Qed.

Lemma asIDList_loop_elems arr acc il id e :
  asIDList_loop arr acc = Some il → il_byID il !! id = Some e → il_byID acc !! id = Some e ∨ e ∈ arr.
Proof.
  revert acc. induction arr as [|a arr IH]; intros acc; cbn; [intros [= ->]; auto|].
  destruct a as [| | | | |obj]; try done. destruct (obj !! "id"%string) as [[| | |i| |]|]; try done.
  destruct (_ || _); [done|]. intros Ha He. destruct (IH _ Ha He) as [Hl|Hin]; [|right; by right].
  cbn in Hl. rewrite lookup_insert in Hl. case_decide; [injection Hl as <-; right; left|by left].
Qed.
Lemma asIDList_elems arr il id e : asIDList (Some (JArray arr)) = Some il → il_byID il !! id = Some e → e ∈ arr.
Proof. cbn. intros Ha He. eapply asIDList_loop_elems in Ha as [Hx|?]; [|done|done].
  cbn [il_byID] in Hx. by rewrite lookup_empty in Hx.
Qed.

Section merging.
Context (policy : FieldPolicy).

Definition any_height (v : any) : nat := from_option height 0%nat v.

Lemma lookup_height m k : (any_height (m !! k) < height (JObject m))%nat.
Proof. destruct (m !! k) as [e|] eqn:E; [by eapply height_object|]. cbn. lia. Qed.
Lemma idlist_height v il id : asIDList v = Some il → (any_height (il_byID il !! id) < any_height v)%nat.
Proof.
  destruct v as [[| | | |arr|]|]; cbn; try done. intros Ha.
  destruct (il_byID il !! id) as [e|] eqn:E; [|cbn; lia]. apply (asIDList_elems _ _ _ _ Ha), height_array in E. exact E.
Qed.

Lemma value_some fuel path base local remote cs :
  (any_height local < fuel)%nat → is_Some (value policy fuel path base local remote cs).
Proof.
  revert path base local remote cs. induction fuel as [|fuel IH]; intros path base local remote cs Hh; [lia|]. cbn [value]. unfold value_body.
  destruct (DeepEqual local remote); [eauto|]. destruct (DeepEqual local base); [eauto|].
  destruct (DeepEqual remote base); [eauto|]. destruct local as [lv|]; [|eauto]. destruct remote as [rv|]; [|eauto].
  destruct (asObjects base lv rv) as [[[lo ro] bo]|] eqn:Eo.
  - destruct lv as [| | | | |lo']; try done. destruct rv as [| | | | |ro']; try done.
    assert (lo' = lo) as -> by (cbn in Eo; destruct base as [[]|]; congruence).
    destruct (object_loop_ok (value policy fuel) path bo lo ro (object_keys bo lo ro) ∅ cs) as [[out cs'] E].
    + intros k cs' _. apply IH. pose proof (lookup_height lo k). cbn in *. lia.
    + unfold object. rewrite E. cbn. eauto.
  - destruct (asIDList (Some lv)) as [l|] eqn:El; [|eauto]. destruct (asIDList (Some rv)) as [r|]; [|eauto].
    destruct (baseIDList base) as [b|]; [|eauto].
    edestruct idArray_loop_ok as [[out cs'] E]; [|rewrite E; cbn; eauto].
    intros p id cs'. apply IH. pose proof (idlist_height _ _ id El). cbn in *. lia.
Qed.

Lemma value_body_le f g : rec_le f g → rec_le (value_body policy f) (value_body policy g).
Proof.
  intros Hfg path base local remote cs x. unfold value_body. repeat (case_match; try done).
  - destruct (object f _ _ _ _ _) as [[out cs']|] eqn:E; [|done].
    unfold object in *. by rewrite (object_loop_le f g _ _ _ _ _ _ _ _ Hfg E).
  - destruct (idArray_loop f _ _ _ _ _ _ _) as [[out cs']|] eqn:E; [|done].
    by rewrite (idArray_loop_le f g _ _ _ _ _ _ _ _ Hfg E).
Qed.
Lemma value_le fuel : rec_le (value policy fuel) (value policy (S fuel)).
Proof. induction fuel as [|fuel IH]; [done|]. apply value_body_le, IH. Qed.

Lemma value_le_add n m : rec_le (value policy n) (value policy (m + n)).
Proof. induction m as [|m IH]; [by intros ?|]. intros p b l r cs x Hx. by apply value_le, IH. Qed.

Lemma MergeObjects_some base local remote n :
  (merge_fuel local ≤ n)%nat → MergeObjects_fuel policy n base local remote = Some (MergeObjects policy base local remote).
Proof.
  intros Hn. unfold MergeObjects, MergeObjects_fuel.
  destruct (object_loop_ok (value policy (merge_fuel local)) [] base local remote (object_keys base local remote) ∅ [])
    as [[out cs] E].
  { intros k cs _. apply value_some. pose proof (lookup_height local k). unfold merge_fuel. lia. }
  unfold object at 2. rewrite E. cbn. unfold object. replace n with (n - merge_fuel local + merge_fuel local)%nat by lia.
  by rewrite (object_loop_le _ _ _ _ _ _ _ _ _ _ (value_le_add (merge_fuel local) (n - merge_fuel local)) E).
Qed.

(** ** What the loops compute *)

Lemma Compact_cons a b l :
  slices_Compact (a :: b :: l) = if bool_decide (a = b) then slices_Compact (b :: l) else a :: slices_Compact (b :: l).
Proof. done. Qed.
Lemma Compact_NoDup l : StronglySorted String.le l → NoDup (slices_Compact l).
Proof.
  induction l as [|a [|b l] IH]; intros Hs; [constructor|apply NoDup_singleton|].
  rewrite Compact_cons. apply StronglySorted_inv in Hs as [Hs Ha]. specialize (IH Hs).
  case_bool_decide as E; [done|]. constructor; [|done]. rewrite elem_of_Compact. intros [->|Hin]%elem_of_cons; [done|].
  apply StronglySorted_inv in Hs as [_ Hb]. rewrite Forall_forall in Ha, Hb.
  apply E, (anti_symm String.le); [apply Ha; by left|by apply Hb].
Qed.
Lemma object_keys_NoDup b l r : NoDup (object_keys b l r).
Proof. apply Compact_NoDup, StronglySorted_merge_sort; apply _. Qed.

Lemma object_loop_inv rec path b l r keys out cs out' cs' (P : string → any → Conflict → Prop) :
  object_loop rec path b l r keys out cs = Some (out', cs') → NoDup keys → (∀ k, k ∈ keys → out !! k = None) →
  (∀ k cs1 v cs2, k ∈ keys → rec (path ++ [k]) (b !! k) (l !! k) (r !! k) cs1 = Some (v, cs2) →
     ∀ c, c ∈ cs2 → c ∈ cs1 ∨ P k v c) →
  (∀ k, k ∉ keys → out' !! k = out !! k) ∧
  (∀ k, k ∈ keys → ∃ cs1 cs2, rec (path ++ [k]) (b !! k) (l !! k) (r !! k) cs1 = Some (out' !! k, cs2)) ∧
  (∀ c, c ∈ cs' → c ∈ cs ∨ ∃ k, k ∈ keys ∧ P k (out' !! k) c).
Proof.
  revert out cs. induction keys as [|k keys IH]; intros out cs Hl Hnd Hout HP; cbn in Hl.
  - injection Hl as <- <-. split_and!; [done| |auto]. intros k Hk. by apply not_elem_of_nil in Hk.
  - destruct (rec _ _ _ _ cs) as [[v cs1]|] eqn:E; [|done]. cbn in Hl. apply NoDup_cons in Hnd as [Hk Hnd].
    set (out1 := match v with Some v => <[k := v]> out | None => out end) in *.
    assert (∀ i, i ≠ k → out1 !! i = out !! i) as Ho1 by (intros i Hi; unfold out1; destruct v; [by rewrite lookup_insert_ne|done]).
    assert (out1 !! k = v) as Ho2 by (unfold out1; destruct v; [by rewrite lookup_insert_eq|apply Hout; left]).
    apply IH in Hl as (Hn & Hy & Hc); [|done| |].
    + assert (out' !! k = v) as Ev by by rewrite Hn.
      split_and!.
      * intros i [Hi ?]%not_elem_of_cons. rewrite Hn by done. by apply Ho1.
      * intros i [->|Hi]%elem_of_cons; [rewrite Ev; eauto|by apply Hy].
      * intros c [Hc1|(i & Hi & HPi)]%Hc; [|right; exists i; split; [by right|done]].
        destruct (HP k cs v cs1 ltac:(left) E c Hc1) as [?|?]; [by left|]. right. exists k. rewrite Ev. split; [left|done].
    + intros i Hi. rewrite Ho1; [apply Hout; by right|]. intros ->. done.
    + intros i cs1' v' cs2 Hi. apply HP. by right.
Qed.

Lemma idArray_loop_inv rec path b l r order out cs out' cs' (P : string → any → Conflict → Prop) :
  idArray_loop rec path b l r order out cs = Some (out', cs') →
  (∀ id cs1 v cs2, rec (path ++ [("[id=" +:+ id +:+ "]")%string]) (il_byID b !! id) (il_byID l !! id) (il_byID r !! id) cs1 = Some (v, cs2) →
     ∀ c, c ∈ cs2 → c ∈ cs1 ∨ P id v c) →
  ∃ vs : list any, out' = out ++ omap (λ v, v) vs ∧
    Forall2 (λ id v, ∃ cs1 cs2, rec (path ++ [("[id=" +:+ id +:+ "]")%string]) (il_byID b !! id) (il_byID l !! id) (il_byID r !! id) cs1
                               = Some (v, cs2)) order vs ∧
    (∀ c, c ∈ cs' → c ∈ cs ∨ ∃ id v, (id, v) ∈ zip order vs ∧ P id v c).
Proof.
  revert out cs. induction order as [|id order IH]; intros out cs Hl HP; cbn in Hl.
  - injection Hl as <- <-. exists []. cbn. rewrite app_nil_r. split_and!; [done|constructor|auto].
  - destruct (rec _ _ _ _ cs) as [[v cs1]|] eqn:E; [|done]. cbn in Hl.
    apply IH in Hl as (vs & -> & HF & Hc); [|done]. exists (v :: vs). split_and!.
    + destruct v as [v|]; cbn; [by rewrite <- app_assoc|done].
    + constructor; [eauto|done].
    + intros c [Hc1|(i & w & Hi & HPi)]%Hc; [|right; exists i, w; split; [by right|done]].
      destruct (HP id cs v cs1 E c Hc1) as [?|?]; [by left|]. right. exists id, v. split; [left|done].
Qed.

(** ** The fields of a merged object *)

Lemma DeepEqual_false x y : DeepEqual x y = false ↔ x ≠ y.
Proof. rewrite <- not_true_iff_false, DeepEqual_iff. done. Qed.

(** The value one field merges to, by which sides changed it. *)
Lemma value_cases rec path base local remote cs v cs' :
  value_body policy rec path base local remote cs = Some (v, cs') →
  (local = remote → v = local ∧ cs' = cs) ∧ (local = base → v = remote ∧ cs' = cs) ∧ (remote = base → v = local ∧ cs' = cs) ∧
  (local = None → remote ≠ base → v = remote ∧ cs' = cs) ∧ (remote = None → local ≠ base → v = local ∧ cs' = cs) ∧
  (is_Some local → is_Some remote → is_Some v).
Proof.
  unfold value_body. destruct (DeepEqual local remote) eqn:E1; [apply DeepEqual_iff in E1|apply DeepEqual_false in E1].
  { intros [= <- <-]. subst. naive_solver. }
  destruct (DeepEqual local base) eqn:E2; [apply DeepEqual_iff in E2|apply DeepEqual_false in E2].
  { intros [= <- <-]. subst. naive_solver. }
  destruct (DeepEqual remote base) eqn:E3; [apply DeepEqual_iff in E3|apply DeepEqual_false in E3].
  { intros [= <- <-]. subst. naive_solver. }
  destruct local as [lv|]; [|intros [= <- <-]; naive_solver]. destruct remote as [rv|]; [|intros [= <- <-]; naive_solver].
  intros Hv. split_and!; try done. intros _ _. revert Hv.
  destruct (asObjects base lv rv) as [[[lo ro] bo]|].
  - destruct (object _ _ _ _ _ _) as [[]|]; [|done]. cbn. intros [= <- <-]. eauto.
  - destruct (asIDList (Some lv)), (asIDList (Some rv)), (baseIDList base);
      try (unfold resolve; destruct (policy path); intros [= <- <-]; eauto).
    destruct (idArray_loop _ _ _ _ _ _ _ _) as [[]|]; [|done]. cbn. intros [= <- <-]. eauto.
Qed.

Lemma MergeObjects_fields base local remote k :
  let out := mr_Value (MergeObjects policy base local remote) in
  ∃ rec cs cs', value_body policy rec [k] (base !! k) (local !! k) (remote !! k) cs = Some (out !! k, cs') ∨
                (out !! k = None ∧ base !! k = None ∧ local !! k = None ∧ remote !! k = None).
Proof.
  pose proof (MergeObjects_some base local remote (merge_fuel local) (le_n _)) as Hm. unfold MergeObjects_fuel, object in Hm.
  destruct (object_loop _ _ _ _ _ _ _ _) as [[out cs]|] eqn:E; [|done]. cbn in Hm. injection Hm as Hm. rewrite <- Hm. cbn.
  apply (object_loop_inv _ _ _ _ _ _ _ _ _ _ (λ _ _ _, True)) in E as (Hn & Hy & _); [|apply object_keys_NoDup|done|auto].
  destruct (decide (k ∈ object_keys base local remote)) as [Hk|Hk].
  - destruct (Hy k Hk) as (cs1 & cs2 & Hv). exists (value policy (height (JObject local))), cs1, cs2. by left.
  - exists (λ _ _ _ _ _, None), [], []. right. rewrite Hn, lookup_empty by done. split; [done|].
    rewrite elem_of_object_keys in Hk. rewrite !eq_None_not_Some. tauto.
Qed.

(** C32. Merging always terminates with a result: the fuel [MergeObjects] computes from the local
    version suffices, and any larger one gives the same result. *)
Theorem merge_total (base local remote : gmap string json) (n : nat) :
  (merge_fuel local ≤ n)%nat →
  MergeObjects_fuel policy n base local remote = Some (MergeObjects policy base local remote).
Proof. apply MergeObjects_some. Qed.

(** Every top-level field of a merge: a field only one side changed takes that side's value,
    deletions included; a field both sides hold is kept; and an edit on one side beats a deletion on
    the other. *)
Theorem merge_fields (base local remote : gmap string json) (k : string) :
  let out := mr_Value (MergeObjects policy base local remote) in
  (local !! k = base !! k → out !! k = remote !! k) ∧
  (remote !! k = base !! k → out !! k = local !! k) ∧
  (local !! k = remote !! k → out !! k = local !! k) ∧
  (local !! k = None → remote !! k ≠ base !! k → out !! k = remote !! k) ∧
  (remote !! k = None → local !! k ≠ base !! k → out !! k = local !! k) ∧
  (is_Some (local !! k) → is_Some (remote !! k) → is_Some (out !! k)).
Proof.
  cbn. destruct (MergeObjects_fields base local remote k) as (rec & cs & cs' & [Hv|(Ho&Hb&Hl&Hr)]).
  - destruct (value_cases _ _ _ _ _ _ _ _ Hv) as (H1&H2&H3&H4&H5&H6). split_and!; naive_solver.
  - rewrite Ho, Hb, Hl, Hr. split_and!; auto.
Qed.

(** ** Conflicts *)

(** The value at a path: object fields by key, elements of an id array by ["[id=...]"]. *)
Definition at_segment (v : any) (seg : string) : any :=
  match v with
  | Some (JObject m) => m !! seg
  | Some (JArray arr) =>
      match asIDList v with
      | Some il => snd <$> List.find (λ p, bool_decide (seg = ("[id=" +:+ p.1 +:+ "]")%string)) (map_to_list (il_byID il))
      | None => None
      end
  | _ => None
  end.
Definition at_path (v : any) (rel : list string) : any := foldl at_segment v rel.

(** A conflict reported while merging [local] and [remote] at [path] into [v] is genuine: it names a
    credential field, the two different values the sides hold there, and the result keeps remote's. *)
Definition genuine (path : list string) (local remote v : any) (c : Conflict) : Prop :=
  ∃ rel, cf_Path c = path ++ rel ∧ policy (cf_Path c) = FieldCredential ∧
    at_path local rel = cf_Local c ∧ at_path remote rel = cf_Remote c ∧ at_path v rel = cf_Remote c ∧
    cf_Local c ≠ cf_Remote c ∧ is_Some (cf_Local c) ∧ is_Some (cf_Remote c).

Definition has_id (id : string) (v : any) : Prop :=
  match v with None => True | Some (JObject m) => m !! "id"%string = Some (JString id) | Some _ => False end.

Lemma segment_inj a b : ("[id=" +:+ a +:+ "]")%string = ("[id=" +:+ b +:+ "]")%string → a = b.
Proof.
  cbn. intros [= E]. revert b E. induction a as [|x a IH]; intros [|y b] E; cbn in E; [done| | |].
  - injection E as _ E. by destruct b.
  - injection E as _ E. by destruct a.
  - injection E as -> E. f_equal. by apply IH.
Qed.

Lemma at_segment_id v il id : asIDList v = Some il → at_segment v ("[id=" +:+ id +:+ "]")%string = il_byID il !! id.
Proof.
  intros Ha. destruct v as [[| | | |arr|]|]; try done. unfold at_segment. rewrite Ha.
  destruct (List.find _ _) as [[i e]|] eqn:E; cbn.
  - apply find_some in E as [Hin He%bool_decide_eq_true]. apply segment_inj in He. cbn in He. subst i.
    apply list_elem_of_In, elem_of_map_to_list in Hin. done.
  - destruct (il_byID il !! id) as [e|] eqn:El; [|done]. apply elem_of_map_to_list, list_elem_of_In in El.
    apply (find_none _ _ E) in El. by rewrite bool_decide_eq_true_2 in El.
Qed.

Lemma asIDList_loop_ids arr acc il :
  asIDList_loop arr acc = Some il → (∀ id, has_id id (il_byID acc !! id)) → (∀ id, id ∈ il_order acc → id ≠ ""%string) →
  (∀ id, has_id id (il_byID il !! id)) ∧ (∀ id, id ∈ il_order il → id ≠ ""%string).
Proof.
  revert acc. induction arr as [|a arr IH]; intros acc Ha Hb Ho; cbn in Ha; [by injection Ha as <-|].
  destruct a as [| | | | |obj]; try done. destruct (obj !! "id"%string) as [[| | |i| |]|] eqn:Ei; try done.
  destruct (_ || _) eqn:Eg; [done|]. bool_simpl. apply IH in Ha; [done| |]; cbn.
  - intros id. rewrite lookup_insert. case_decide; [by subst|apply Hb].
  - intros id. rewrite elem_of_app, list_elem_of_singleton. intros [?| ->]; auto.
Qed.
Lemma asIDList_ids v il : asIDList v = Some il →
  (∀ id, has_id id (il_byID il !! id)) ∧ (∀ id, id ∈ il_order il → id ≠ ""%string).
Proof.
  destruct v as [[| | | |arr|]|]; try done. intros Ha. eapply asIDList_loop_ids; [exact Ha| |].
  - intros id. cbn [il_byID]. by rewrite lookup_empty.
  - intros id Hid. cbn in Hid. by apply not_elem_of_nil in Hid.
Qed.

Lemma asIDList_build order (vs : list any) acc :
  NoDup order → (∀ id, id ∈ order → il_byID acc !! id = None) → Forall2 (λ id v, id ≠ ""%string ∧ has_id id v) order vs →
  ∃ il, asIDList_loop (omap (λ v, v) vs) acc = Some il ∧
    (∀ id v, (id, v) ∈ zip order vs → il_byID il !! id = v) ∧ (∀ id, id ∉ order → il_byID il !! id = il_byID acc !! id).
Proof.
  intros Hnd Hacc HF. revert acc Hnd Hacc. induction HF as [|id v order vs [Hid Hv] HF IH]; intros acc Hnd Hacc.
  { exists acc. split_and!; [done| |done]. intros id v Hin. by apply not_elem_of_nil in Hin. }
  apply NoDup_cons in Hnd as [Hni Hnd].
  assert (∃ acc', asIDList_loop (omap (λ v, v) (v :: vs)) acc = asIDList_loop (omap (λ v, v) vs) acc' ∧
     il_byID acc' !! id = v ∧ ∀ i, i ≠ id → il_byID acc' !! i = il_byID acc !! i) as (acc' & E & Ev & Eo).
  { destruct v as [[| | | | |m]|]; try done.
    - cbn in Hv. cbn. rewrite Hv, bool_decide_eq_false_2, bool_decide_eq_false_2; [|done|by rewrite Hacc; [intros []|left]].
      cbn. eexists. split; [done|]. cbn. rewrite lookup_insert_eq. split; [done|]. intros i Hi. by rewrite lookup_insert_ne.
    - exists acc. cbn. split; [done|]. split; [apply Hacc; left|done]. }
  rewrite E. destruct (IH acc') as (il & Hil & Hin & Hout); [done| |].
  { intros i Hi. rewrite Eo; [apply Hacc; by right|]. intros ->. done. }
  exists il. split_and!; [done| |].
  - intros i w [[= -> ->]|Hi]%elem_of_cons; [|by apply Hin]. rewrite Hout by done. done.
  - intros i [Hi ?]%not_elem_of_cons. rewrite Hout by done. by apply Eo.
Qed.

Lemma append_missing_spec order ids :
  NoDup order → NoDup (append_missing order ids) ∧ ∀ id, id ∈ append_missing order ids ↔ id ∈ order ∨ id ∈ ids.
Proof.
  unfold append_missing. revert order. induction ids as [|i ids IH]; intros order Hnd; cbn.
  - split; [done|]. intros id. set_solver.
  - case_bool_decide as Hi.
    + destruct (IH order Hnd) as [? Hx]. split; [done|]. intros id. rewrite Hx. set_solver.
    + destruct (IH (order ++ [i])) as [? Hx]; [apply NoDup_app; set_solver by (try apply NoDup_singleton)|].
      split; [done|]. intros id. rewrite Hx. set_solver.
Qed.

Lemma asIDList_order v il : asIDList v = Some il → NoDup (il_order il).
Proof.
  destruct v as [[| | | |arr|]|]; try done. cbn.
  assert (∀ arr acc, asIDList_loop arr acc = Some il → NoDup (il_order acc) → (∀ id, id ∈ il_order acc → is_Some (il_byID acc !! id)) →
    NoDup (il_order il)) as Hk; [|intros Ha; apply (Hk _ _ Ha); [constructor|intros id Hid; by apply not_elem_of_nil in Hid]].
  clear arr. induction arr as [|a arr IH]; intros acc Ha Hn Hd; cbn in Ha; [by injection Ha as <-|].
  destruct a as [| | | | |obj]; try done. destruct (obj !! "id"%string) as [[| | |i| |]|]; try done.
  destruct (_ || _) eqn:Eg; [done|]. bool_simpl. apply IH in Ha; [done| |]; cbn.
  - apply NoDup_app. split_and!; [done| |apply NoDup_singleton]. intros x Hx ->%list_elem_of_singleton.
    match goal with Hg : ¬ is_Some _ |- _ => apply Hg, Hd, Hx end.
  - intros id. rewrite elem_of_app, list_elem_of_singleton, lookup_insert. intros [?| ->]; case_decide; try done; eauto.
Qed.

Lemma baseIDList_ids base b : baseIDList base = Some b →
  (∀ id, has_id id (il_byID b !! id)) ∧ (∀ id, id ∈ il_order b → id ≠ ""%string).
Proof.
  unfold baseIDList. destruct (asIDList base) as [il|] eqn:E; [intros [= <-]; by eapply asIDList_ids|].
  destruct base; [done|]. intros [= <-]. split; [intros id; cbn [il_byID]; by rewrite lookup_empty|].
  intros id Hid. cbn in Hid. by apply not_elem_of_nil in Hid.
Qed.

(** Merging two versions of the element with one id gives that element again, or nothing. *)
Lemma value_has_id fuel path base local remote cs v cs' id :
  value policy fuel path base local remote cs = Some (v, cs') → has_id id local → has_id id remote → has_id id v.
Proof.
  destruct fuel as [|fuel]; [done|]. cbn [value]. unfold value_body. intros Hv Hl Hr. revert Hv.
  destruct (DeepEqual local remote); [by intros [= <- _]|]. destruct (DeepEqual local base); [by intros [= <- _]|].
  destruct (DeepEqual remote base); [by intros [= <- _]|]. destruct local as [lv|]; [|by intros [= <- _]].
  destruct remote as [rv|]; [|by intros [= <- _]]. destruct lv as [| | | | |lo]; try done. destruct rv as [| | | | |ro]; try done.
  cbn in Hl, Hr. cbn [asObjects].
  assert (∀ bo, (object (value policy fuel) path bo lo ro cs ≫= λ '(out, cs), Some (Some (JObject out), cs)) = Some (v, cs') →
    has_id id v) as Hobj.
  { intros bo. destruct (object _ _ _ _ _ _) as [[out cs2]|] eqn:E; [|done]. cbn. intros [= <- <-]. cbn.
    unfold object in E. apply (object_loop_inv _ _ _ _ _ _ _ _ _ _ (λ _ _ _, True)) in E as (_ & Hy & _);
      [|apply object_keys_NoDup|done|auto].
    destruct (Hy "id"%string) as (cs3 & cs4 & Hv); [apply elem_of_object_keys; rewrite Hl; eauto|].
    destruct fuel as [|fuel]; [done|]. cbn [value] in Hv. apply value_cases in Hv as (Heq & _).
    rewrite Hl, Hr in Heq. by destruct Heq. }
  destruct base as [[| | | | |bo]|]; try apply Hobj; cbn; (intros Hres; unfold resolve in Hres; destruct (policy path); by injection Hres as <- _).
Qed.

Lemma genuine_here path local remote : policy path = FieldCredential → local ≠ remote →
  genuine path (Some local) (Some remote) (Some remote) {| cf_Path := path; cf_Local := Some local; cf_Remote := Some remote |}.
Proof. intros Hp Hne. exists []. cbn. rewrite app_nil_r. split_and!; eauto. congruence. Qed.

Lemma genuine_step path seg local remote v l r w c :
  at_segment local seg = l → at_segment remote seg = r → at_segment v seg = w →
  genuine (path ++ [seg]) l r w c → genuine path local remote v c.
Proof.
  intros <- <- <- (rel & Hp & Hpol & Hl & Hr & Hw & Hx). exists (seg :: rel).
  rewrite Hp, <- app_assoc in *. split_and!; done || apply Hx.
Qed.

Lemma value_genuine fuel path base local remote cs v cs' :
  value policy fuel path base local remote cs = Some (v, cs') → ∀ c, c ∈ cs' → c ∈ cs ∨ genuine path local remote v c.
Proof.
  revert path base local remote cs v cs'. induction fuel as [|fuel IH]; intros path base local remote cs v cs'; [done|].
  cbn [value]. unfold value_body. destruct (DeepEqual local remote) eqn:E1; [by intros [= <- <-]; auto|].
  destruct (DeepEqual local base); [by intros [= <- <-]; auto|]. destruct (DeepEqual remote base); [by intros [= <- <-]; auto|].
  destruct local as [lv|]; [|by intros [= <- <-]; auto]. destruct remote as [rv|]; [|by intros [= <- <-]; auto].
  apply DeepEqual_false in E1.
  assert (Some (resolve policy path lv rv cs) = Some (v, cs') → ∀ c, c ∈ cs' → c ∈ cs ∨ genuine path (Some lv) (Some rv) v c) as Hres.
  { unfold resolve. destruct (policy path) eqn:Ep; [by intros [= <- <-]; auto|]. intros [= <- <-] c.
    rewrite elem_of_app, list_elem_of_singleton. intros [?| ->]; [by left|right]. apply genuine_here; [done|congruence]. }
  destruct (asObjects base lv rv) as [[[lo ro] bo]|] eqn:Eo.
  - destruct (object _ _ _ _ _ _) as [[out cs2]|] eqn:E; [|done]. cbn. intros [= <- <-] c.
    assert (lv = JObject lo ∧ rv = JObject ro) as [-> ->] by (destruct lv, rv, base as [[]|]; cbn in Eo; naive_solver).
    unfold object in E.
    apply (object_loop_inv _ _ _ _ _ _ _ _ _ _ (λ k w c, genuine (path ++ [k]) (lo !! k) (ro !! k) w c)) in E as (_ & _ & Hc);
      [|apply object_keys_NoDup|done|by intros; eapply IH].
    intros [?|(k & _ & Hg)]%Hc; [by left|right]. by eapply genuine_step.
  - destruct (asIDList (Some lv)) as [l|] eqn:El; [|done]. destruct (asIDList (Some rv)) as [r|] eqn:Er; [|done].
    destruct (baseIDList base) as [b|] eqn:Eb; [|done].
    destruct (idArray_loop _ _ _ _ _ _ _ _) as [[out cs2]|] eqn:E; [|done]. cbn. intros [= <- <-] c.
    apply (idArray_loop_inv _ _ _ _ _ _ _ _ _ _
      (λ id w c, genuine (path ++ [("[id=" +:+ id +:+ "]")%string]) (il_byID l !! id) (il_byID r !! id) w c))
      in E as (vs & -> & HF & Hc); [|by intros; eapply IH].
    intros [?|(id & w & Hin & Hg)]%Hc; [by left|right].
    destruct (asIDList_ids _ _ El) as [Il Nl], (asIDList_ids _ _ Er) as [Ir Nr], (baseIDList_ids _ _ Eb) as [_ Nb].
    destruct (append_missing_spec (il_order l) (il_order r)) as [D1 M1]; [by eapply asIDList_order|].
    destruct (append_missing_spec (append_missing (il_order l) (il_order r)) (il_order b) D1) as [D2 M2].
    destruct (asIDList_build _ vs {| il_order := []; il_byID := ∅ |} D2) as (il & Hil & Hlook & _).
    { intros i _. apply lookup_empty. }
    { apply Forall2_same_length_lookup_2; [by eapply Forall2_length|]. intros i id' w' Hi Hw. split.
      - apply list_elem_of_lookup_2 in Hi. rewrite M2, M1 in Hi. naive_solver.
      - destruct (Forall2_lookup_lr _ _ _ _ _ _ HF Hi Hw) as (cs3 & cs4 & Hv). by eapply value_has_id. }
    eapply genuine_step; [by apply at_segment_id..| |exact Hg].
    rewrite (at_segment_id _ il); [by apply Hlook|exact Hil].
Qed.

(** Every conflict a merge reports is genuine: its path names a credential field, its two values
    are what the local and the remote version hold at that path, they differ, and the merged object
    holds the remote value there. Ordinary fields never conflict. *)
Theorem conflicts_genuine (base local remote : gmap string json) (c : Conflict) :
  c ∈ mr_Conflicts (MergeObjects policy base local remote) →
  policy (cf_Path c) = FieldCredential ∧ cf_Local c ≠ cf_Remote c ∧
  at_path (Some (JObject local)) (cf_Path c) = cf_Local c ∧
  at_path (Some (JObject remote)) (cf_Path c) = cf_Remote c ∧
  at_path (Some (JObject (mr_Value (MergeObjects policy base local remote)))) (cf_Path c) = cf_Remote c.
Proof.
  pose proof (MergeObjects_some base local remote (merge_fuel local) (le_n _)) as Hm. unfold MergeObjects_fuel, object in Hm.
  destruct (object_loop _ _ _ _ _ _ _ _) as [[out cs]|] eqn:E; [|done]. cbn in Hm. injection Hm as Hm. rewrite <- Hm. cbn [mr_Conflicts mr_Value].
  apply (object_loop_inv _ _ _ _ _ _ _ _ _ _ (λ k w c, genuine [k] (local !! k) (remote !! k) w c)) in E as (_ & _ & Hc);
    [|apply object_keys_NoDup|done|by intros; eapply value_genuine].
  intros [Hx|(k & _ & rel & -> & ? & Hl & Hr & Hw & ? & _)]%Hc; [by apply not_elem_of_nil in Hx|]. done.
Qed.

End merging.

(** ** Examples *)

Definition demo_obj (l : list (string * json)) : gmap string json := list_to_map l.
Definition demo_policy : FieldPolicy := λ path,
  if bool_decide (list.last path = Some "password"%string) then FieldCredential else FieldOrdinary.
Definition demo_user (pw name : string) : json :=
  JArray [JObject (demo_obj [("id"%string, JString "u1"); ("password"%string, JString pw); ("name"%string, JString name)])].
Definition demo_base : gmap string json := demo_obj [("port"%string, JNumber "22"); ("users"%string, demo_user "p" "n")].
Definition demo_local : gmap string json := demo_obj [("port"%string, JNumber "22"); ("users"%string, demo_user "mine" "n")].
Definition demo_remote : gmap string json := demo_obj [("port"%string, JNumber "2222"); ("users"%string, demo_user "theirs" "m")].
Definition demo_conflict : Conflict :=
  {| cf_Path := ["users"; "[id=u1]"; "password"]%string; cf_Local := Some (JString "mine"); cf_Remote := Some (JString "theirs") |}.

(** The port changed remotely survives, the name changed remotely survives, the password is a conflict. *)
Example merge_demo :
  mr_Value (MergeObjects demo_policy demo_base demo_local demo_remote) =
    demo_obj [("port"%string, JNumber "2222"); ("users"%string, demo_user "theirs" "m")] ∧
  mr_Conflicts (MergeObjects demo_policy demo_base demo_local demo_remote) = [demo_conflict].
Proof. split; [apply (bool_decide_unpack _); vm_compute; exact I|vm_compute; reflexivity]. Qed.

Lemma merge_total_witness :
  MergeObjects_fuel demo_policy 10 demo_base demo_local demo_remote = Some (MergeObjects demo_policy demo_base demo_local demo_remote).
Proof. apply (merge_total demo_policy demo_base demo_local demo_remote 10). vm_compute. lia. Defined.

Lemma conflicts_genuine_witness :
  at_path (Some (JObject demo_local)) (cf_Path demo_conflict) = cf_Local demo_conflict.
Proof.
  apply (conflicts_genuine demo_policy demo_base demo_local demo_remote demo_conflict).
  apply (list_elem_of_lookup_2 _ 0). vm_compute. reflexivity.
Defined.
