(* ===== verification/Throttle.v ===== *)
(** * Throttle: rate limits on unlock attempts

    [internal/domain]: [unlock_throttle.go] and [recovery_throttle.go]. Times and durations are
    nanoseconds; a [time.Duration] and a Go [int] are 64-bit and wrap. The clock is the injected time
    source, an argument of the operations that read it; [Sub] saturates like [time.Time.Sub]. *)

From S2P Require Import Prelude.

Definition time_Second : Z := 1000000000.

Definition UnlockFreeAttempts : Z := 3.
Definition UnlockBaseDelay : Z := time_Second.
Definition UnlockMaxDelay : Z := 30 * time_Second.
Definition RecoveryFreeAttempts : Z := 1.
Definition RecoveryBaseDelay : Z := 5 * time_Second.
Definition RecoveryMaxDelay : Z := 5 * 60 * time_Second.

Record ThrottlePolicy := { tp_FreeAttempts : Z; tp_BaseDelay : Z; tp_MaxDelay : Z }.

Definition DefaultUnlockPolicy : ThrottlePolicy :=
  {| tp_FreeAttempts := UnlockFreeAttempts; tp_BaseDelay := UnlockBaseDelay; tp_MaxDelay := UnlockMaxDelay |}.
Definition RecoveryPolicy : ThrottlePolicy :=
  {| tp_FreeAttempts := RecoveryFreeAttempts; tp_BaseDelay := RecoveryBaseDelay; tp_MaxDelay := RecoveryMaxDelay |}.
Definition ThrottlePolicy_zero : ThrottlePolicy := {| tp_FreeAttempts := 0; tp_BaseDelay := 0; tp_MaxDelay := 0 |}.

(** The zero [time.Time] is the first instant of year 1, before every reading of a clock. *)
Definition time_zero : Z := -62135596800 * time_Second.

Record UnlockThrottle := {
  ut_failures : Z;        (* int *)
  ut_nextAllowed : Z;     (* time.Time *)
  ut_policy : ThrottlePolicy;
}.

Definition NewThrottleWithPolicy (policy : ThrottlePolicy) : UnlockThrottle :=
  {| ut_failures := 0; ut_nextAllowed := time_zero; ut_policy := policy |}.
Definition NewUnlockThrottle : UnlockThrottle := NewThrottleWithPolicy ThrottlePolicy_zero.
Definition NewRecoveryThrottle : UnlockThrottle := NewThrottleWithPolicy RecoveryPolicy.

Definition pol (t : UnlockThrottle) : ThrottlePolicy :=
  if (tp_FreeAttempts (ut_policy t) =? 0) && (tp_BaseDelay (ut_policy t) =? 0) && (tp_MaxDelay (ut_policy t) =? 0)
  then DefaultUnlockPolicy else ut_policy t.

Definition unlockDelayFor (failures : Z) (policy : ThrottlePolicy) : Z :=
  let steps := wrap_i64 (failures - tp_FreeAttempts policy) in
  if steps <? 0 then 0
  else if 32 <? steps then tp_MaxDelay policy
  else
    let delay := wrap_i64 (Z.shiftl (tp_BaseDelay policy) steps) in
    if (tp_MaxDelay policy <? delay) || (delay <=? 0) then tp_MaxDelay policy else delay.

Definition time_Sub (a b : Z) : Z := Z.max MinInt64 (Z.min MaxInt64 (a - b)).

(** [Check]: how long to wait, and whether an attempt may proceed. A nil receiver always allows. *)
Definition Check_throttle (t : option UnlockThrottle) (now : Z) : Z * bool :=
  match t with
  | None => (0, true)
  | Some t =>
      let remaining := time_Sub (ut_nextAllowed t) now in
      if 0 <? remaining then (remaining, false) else (0, true)
  end.

Definition RecordFailure (t : UnlockThrottle) (now : Z) : UnlockThrottle :=
  let policy := pol t in
  let t := {| ut_failures := wrap_i64 (ut_failures t + 1); ut_nextAllowed := ut_nextAllowed t; ut_policy := ut_policy t |} in
  if ut_failures t <? tp_FreeAttempts policy then t
  else {| ut_failures := ut_failures t; ut_nextAllowed := now + unlockDelayFor (ut_failures t) policy; ut_policy := ut_policy t |}.

Definition RecordSuccess (t : UnlockThrottle) : UnlockThrottle :=
  {| ut_failures := 0; ut_nextAllowed := time_zero; ut_policy := ut_policy t |}.

Definition Failures (t : option UnlockThrottle) : Z := match t with None => 0 | Some t => ut_failures t end.

(** ** The schedule *)

(** The two schedules the program ships. *)
Definition shipped (p : ThrottlePolicy) : Prop := p = DefaultUnlockPolicy ∨ p = RecoveryPolicy.

Lemma shift_steps (P : Z → Prop) : (∀ k, (k ≤ 32)%nat → P (Z.of_nat k)) → ∀ s, 0 ≤ s ≤ 32 → P s.
Proof. intros HP s Hs. replace s with (Z.of_nat (Z.to_nat s)) by lia. apply HP. lia. Qed.

(** The shift wraps for the recovery schedule from 31 steps on, and the checks after it catch that. *)
Lemma unlockDelayFor_eq p failures :
  shipped p → 0 ≤ failures ≤ MaxInt64 →
  unlockDelayFor failures p =
  if failures <? tp_FreeAttempts p then 0
  else Z.min (tp_BaseDelay p * 2 ^ (failures - tp_FreeAttempts p)) (tp_MaxDelay p).
Proof.
  intros Hp Hf. unfold unlockDelayFor.
  assert (0 < tp_FreeAttempts p ≤ 3 ∧ time_Second ≤ tp_BaseDelay p ∧ tp_MaxDelay p ≤ 300 * time_Second) as (Hfr&Hb&Hm)
    by (destruct Hp as [-> | ->]; vm_compute; done).
  rewrite wrap_i64_id by (unfold i64, MinInt64, MaxInt64 in *; lia).
  set (steps := failures - tp_FreeAttempts p).
  destruct (Z.ltb_spec steps 0); destruct (Z.ltb_spec failures (tp_FreeAttempts p)); try lia.
  destruct (Z.ltb_spec 32 steps).
  - rewrite Z.min_r; [done|]. assert (2 ^ 33 ≤ 2 ^ steps) by (apply Z.pow_le_mono_r; lia).
    unfold time_Second in *. nia.
  - assert (0 ≤ steps ≤ 32) as Hs by lia. clearbody steps. revert steps Hs H H1.
    refine (shift_steps _ _). intros k Hk _ _.
    do 33 (destruct k as [|k]; [destruct Hp as [-> | ->]; vm_compute; reflexivity|]). lia.
Qed.

Definition fail_all (t : UnlockThrottle) (times : list Z) : UnlockThrottle := foldl RecordFailure t times.

Lemma RecordFailure_policy t now : ut_policy (RecordFailure t now) = ut_policy t ∧ pol (RecordFailure t now) = pol t.
Proof. unfold RecordFailure, pol. by destruct (_ <? _). Qed.

Lemma fail_all_state t times :
  shipped (pol t) → ut_failures t = 0 → ut_nextAllowed t = time_zero → len times ≤ MaxInt64 →
  pol (fail_all t times) = pol t ∧ ut_failures (fail_all t times) = len times ∧
  ut_nextAllowed (fail_all t times) =
    match list.last times with
    | Some l => if len times <? tp_FreeAttempts (pol t) then time_zero else l + unlockDelayFor (len times) (pol t)
    | None => time_zero
    end.
Proof.
  intros Hs H0 Hn. induction times as [|x times IH] using rev_ind; intros Hl; [done|].
  unfold fail_all in *. rewrite foldl_snoc, last_snoc. rewrite length_app in *. cbn [length] in *.
  destruct IH as (IHp & IHf & IHn); [lia|]. destruct (RecordFailure_policy (foldl RecordFailure t times) x) as [_ ->].
  split; [done|]. set (u := foldl RecordFailure t times) in *. clearbody u.
  unfold RecordFailure. cbv zeta. rewrite IHp, IHf.
  replace (wrap_i64 (len times + 1)) with (Z.of_nat (length times + 1)) by (rewrite wrap_i64_id; unfold i64, MinInt64, MaxInt64 in *; lia).
  cbn [ut_failures]. destruct (Z.ltb_spec (Z.of_nat (length times + 1)) (tp_FreeAttempts (pol t))); cbn; [|done].
  split; [done|]. rewrite IHn. destruct (list.last times); [|done].
  destruct (Z.ltb_spec (len times) (tp_FreeAttempts (pol t))); [done|lia].
Qed.

(** Both shipped throttles follow their published schedule: after n failures in a row an attempt
    is free while n is below the allowance, and otherwise waits exactly
    [min (base * 2^(n - free)) max] after the last failure - whatever n, the arithmetic never wraps
    into a shorter wait, and no wait exceeds the cap, so the owner is never locked out. *)
Theorem throttle_schedule (t : UnlockThrottle) (times : list Z) (last now : Z) :
  t = NewUnlockThrottle ∨ t = NewRecoveryThrottle →
  list.last times = Some last → len times ≤ MaxInt64 → 0 ≤ last → last ≤ now → now ≤ MaxInt64 →
  let p := pol t in
  let wait := if len times <? tp_FreeAttempts p then 0
              else Z.min (tp_BaseDelay p * 2 ^ (len times - tp_FreeAttempts p)) (tp_MaxDelay p) in
  Check_throttle (Some (fail_all t times)) now =
    (if now <? last + wait then (last + wait - now, false) else (0, true)) ∧ wait ≤ tp_MaxDelay p.
Proof.
  intros Ht Hlast Hl H0 Hle Hmax p wait.
  assert (shipped p ∧ ut_failures t = 0 ∧ ut_nextAllowed t = time_zero) as (Hs & Hf & Hn)
    by (destruct Ht as [-> | ->]; split_and!; [by left|done|done|by right|done|done]).
  destruct (fail_all_state t times) as (_ & _ & Hna); [done..|]. rewrite Hlast in Hna.
  fold p in Hna. rewrite unlockDelayFor_eq in Hna by (done || lia). fold wait in Hna.
  assert (0 ≤ wait ≤ 300 * time_Second ∧ wait ≤ tp_MaxDelay p) as [Hw Hwm].
  { assert (0 ≤ tp_BaseDelay p ∧ 0 ≤ tp_MaxDelay p ≤ 300 * time_Second) as [??] by (destruct Hs as [-> | ->]; vm_compute; done).
    unfold wait. destruct (_ <? _); [lia|]. assert (0 ≤ tp_BaseDelay p * 2 ^ (len times - tp_FreeAttempts p)) by nia. lia. }
  split; [|done]. unfold Check_throttle, time_Sub. rewrite Hna. unfold MinInt64, MaxInt64, time_zero, time_Second in *.
  destruct (Z.ltb_spec (len times) (tp_FreeAttempts p)).
  - assert (wait = 0) as -> by (unfold wait; destruct (Z.ltb_spec (len times) (tp_FreeAttempts p)); lia).
    destruct (Z.ltb_spec now (last + 0)); [lia|]. destruct (Z.ltb_spec 0 (Z.max (-9223372036854775808) (Z.min 9223372036854775807 (-62135596800 * 1000000000 - now)))); [lia|done].
  - destruct (Z.ltb_spec now (last + wait)).
    + destruct (Z.ltb_spec 0 (Z.max (-9223372036854775808) (Z.min 9223372036854775807 (last + wait - now)))); [|lia].
      f_equal. lia.
    + destruct (Z.ltb_spec 0 (Z.max (-9223372036854775808) (Z.min 9223372036854775807 (last + wait - now)))); [lia|done].
Qed.

Lemma throttle_schedule_witness :
  Check_throttle (Some (fail_all NewUnlockThrottle [10; 20; 30; 40])) 41 = (1999999999, false) ∧
  Check_throttle (Some (fail_all NewUnlockThrottle [10; 20; 30; 40])) 41 =
    (if 41 <? 40 + 2000000000 then (40 + 2000000000 - 41, false) else (0, true)).
Proof.
  split; [vm_compute; reflexivity|].
  refine (proj1 (throttle_schedule NewUnlockThrottle [10; 20; 30; 40] 40 41 _ _ _ _ _ _));
    first [left; reflexivity | reflexivity | vm_compute; discriminate].
Defined.
