(* ===== verification/Limiter.v ===== *)
(** * Limiter: the sync server's throttle on password guessing

    [internal/syncserver/usecase/limiter.go]. The methods run under the limiter's mutex, so each is
    one atomic step on the state; a method writes through its receiver and returns no error. Times
    are milliseconds in [uint64], whose subtraction wraps. *)

From S2P Require Import Prelude.

Definition freeFailures : Z := 3.
Definition baseBackoff : Z := 1000.
Definition maxBackoff : Z := 5 * 60000.
Definition userHourlyBudget : Z := 30.
Definition userSlowSpacing : Z := 2 * 60000.
Definition hourMillis : Z := 60 * 60000.
Definition maxTrackedPairs : Z := 100000.

Record pairState := { ps_failures : Z; ps_until : Z }.
Record userState := { us_windowStart : Z; us_failures : Z; us_last : Z }.

Record limiter := {
  lim_pairs : gmap (string * string) pairState;
  lim_users : gmap string userState;
}.

Definition newLimiter : limiter := {| lim_pairs := ∅; lim_users := ∅ |}.

(** [now-u.windowStart >= hourMillis]. *)
Definition window_over (u : userState) (now : Z) : bool := hourMillis <=? wrap64 (now - us_windowStart u).

(** The wait the username itself still imposes. *)
Definition user_wait (u : option userState) (now : Z) : Z :=
  match u with
  | None => 0
  | Some u =>
      if window_over u now || (us_failures u <? userHourlyBudget) then 0
      else let since := wrap64 (now - us_last u) in
           if since <? userSlowSpacing then wrap64 (userSlowSpacing - since) else 0
  end.

Definition limiter_check (l : limiter) (username ip : string) (now : Z) : Z :=
  match lim_pairs l !! (username, ip) with
  | Some p => if now <? ps_until p then wrap64 (ps_until p - now) else user_wait (lim_users l !! username) now
  | None => user_wait (lim_users l !! username) now
  end.

Definition sweep (l : limiter) (now : Z) : limiter :=
  {| lim_pairs := filter (λ kp, ¬ ps_until kp.2 ≤ now) (lim_pairs l);
     lim_users := filter (λ ku, window_over ku.2 now || (us_failures ku.2 <? userHourlyBudget) = false) (lim_users l) |}.

(** The wait the pair's [n]th failure starts. *)
Definition backoff (n : Z) : Z := Z.min (wrap64 (Z.shiftl baseBackoff (Z.min (n - freeFailures) 20))) maxBackoff.

Definition charge_pair (p : option pairState) (now : Z) : pairState :=
  let p := default {| ps_failures := 0; ps_until := 0 |} p in
  let n := wrap_i64 (ps_failures p + 1) in
  {| ps_failures := n; ps_until := if freeFailures <=? n then wrap64 (now + backoff n) else ps_until p |}.

Definition charge_user (u : option userState) (now : Z) : userState :=
  let u := match u with
           | Some u => if window_over u now then {| us_windowStart := now; us_failures := 0; us_last := 0 |} else u
           | None => {| us_windowStart := now; us_failures := 0; us_last := 0 |}
           end in
  {| us_windowStart := us_windowStart u; us_failures := wrap_i64 (us_failures u + 1); us_last := now |}.

Definition limiter_fail (l : limiter) (username ip : string) (now : Z) : limiter :=
  let l := if (maxTrackedPairs <=? Z.of_nat (size (lim_pairs l))) || (maxTrackedPairs <=? Z.of_nat (size (lim_users l)))
           then sweep l now else l in
  {| lim_pairs := <[(username, ip) := charge_pair (lim_pairs l !! (username, ip)) now]> (lim_pairs l);
     lim_users := <[username := charge_user (lim_users l !! username) now]> (lim_users l) |}.

Definition limiter_succeed (l : limiter) (username ip : string) : limiter :=
  {| lim_pairs := delete (username, ip) (lim_pairs l);
     lim_users := match lim_users l !! username with
                  | Some u => if 0 <? us_failures u
                              then <[username := {| us_windowStart := us_windowStart u; us_failures := us_failures u - 1; us_last := us_last u |}]> (lim_users l)
                              else lim_users l
                  | None => lim_users l
                  end |}.

(** ** Histories *)

Inductive lim_event :=
  | EvFail (username ip : string) (now : Z)
  | EvSucceed (username ip : string).

Definition lim_step (l : limiter) (e : lim_event) : limiter :=
  match e with
  | EvFail u ip now => limiter_fail l u ip now
  | EvSucceed u ip => limiter_succeed l u ip
  end.

(** The clock readings of a history, in order. *)
Definition event_time (e : lim_event) : option Z := match e with EvFail _ _ now => Some now | EvSucceed _ _ => None end.

(** What every state reached by [now] satisfies. *)
Record lim_inv (now : Z) (l : limiter) : Prop := {
  li_pairs : ∀ k p, lim_pairs l !! k = Some p → 0 ≤ ps_until p ≤ now + maxBackoff;
  li_users : ∀ k u, lim_users l !! k = Some u → 0 ≤ us_windowStart u ≤ now ∧ 0 ≤ us_last u ≤ now;
}.

(** A clock before the year 584 million. *)
Definition clock_ok (now : Z) : Prop := 0 ≤ now ≤ MaxUint64 - maxBackoff.

Lemma backoff_range n : 0 ≤ backoff n ≤ maxBackoff.
Proof.
  unfold backoff. pose proof (wrap64_u64 (Z.shiftl baseBackoff (Z.min (n - freeFailures) 20))).
  unfold maxBackoff in *. solve_uint.
Qed.

Lemma lim_inv_mono now now' l : now ≤ now' → lim_inv now l → lim_inv now' l.
Proof. intros Hle [Hp Hu]. constructor; [intros k p Hk%Hp|intros k u Hk%Hu]; lia. Qed.

Lemma sweep_inv now t l : lim_inv now l → lim_inv now (sweep l t).
Proof.
  intros [Hp Hu]. constructor; cbn.
  - intros k p [Hk _]%map_lookup_filter_Some. by eapply Hp.
  - intros k u [Hk _]%map_lookup_filter_Some. by eapply Hu.
Qed.

Lemma fail_inv now l u ip : clock_ok now → lim_inv now l → lim_inv now (limiter_fail l u ip now).
Proof.
  intros Hc Hi. unfold limiter_fail. set (l1 := if _ || _ then sweep l now else l).
  assert (lim_inv now l1) as [Hp Hu] by (unfold l1; destruct (_ || _); [by apply sweep_inv|done]). clearbody l1.
  unfold clock_ok, MaxUint64, maxBackoff in *. constructor; cbn.
  - intros k p. rewrite lookup_insert. case_decide; [|apply Hp]. intros [= <-]. unfold charge_pair. cbn.
    destruct (_ <=? _).
    + set (n := wrap_i64 _). pose proof (backoff_range n). unfold maxBackoff in *. rewrite wrap64_id by solve_uint. lia.
    + destruct (lim_pairs l1 !! _) as [p'|] eqn:E; cbn; [by eapply Hp|unfold maxBackoff; lia].
  - intros k v. rewrite lookup_insert. case_decide; [|apply Hu]. intros [= <-]. unfold charge_user. cbn.
    destruct (lim_users l1 !! u) as [u'|] eqn:E; cbn; [|lia]. destruct (window_over u' now); cbn; [lia|].
    apply Hu in E. lia.
Qed.

Lemma limiter_succeed_inv now l u ip : lim_inv now l → lim_inv now (limiter_succeed l u ip).
Proof.
  intros [Hp Hu]. constructor; cbn.
  - intros k p [_ Hk]%lookup_delete_Some. by eapply Hp.
  - intros k v. destruct (lim_users l !! u) as [u'|] eqn:E; [|apply Hu]. destruct (0 <? us_failures u'); [|apply Hu].
    rewrite lookup_insert. case_decide; [|apply Hu]. intros [= <-]. cbn. by eapply Hu.
Qed.

Lemma user_wait_range u now : 0 ≤ user_wait u now ≤ userSlowSpacing.
Proof.
  unfold user_wait. destruct u as [u|]; [|done]. destruct (_ || _); [done|]. cbv zeta.
  destruct (Z.ltb_spec (wrap64 (now - us_last u)) userSlowSpacing); [|done].
  pose proof (wrap64_u64 (now - us_last u)). unfold userSlowSpacing in *. rewrite (wrap64_id (_ - wrap64 _)) by solve_uint. solve_uint.
Qed.

Lemma check_wait l u ip now :
  clock_ok now → lim_inv now l → 0 ≤ limiter_check l u ip now ≤ maxBackoff.
Proof.
  intros Hc [Hp Hu]. unfold limiter_check. pose proof (user_wait_range (lim_users l !! u) now) as Hw.
  unfold userSlowSpacing, maxBackoff in *. destruct (lim_pairs l !! (u, ip)) as [p|] eqn:E; [|lia].
  destruct (Z.ltb_spec now (ps_until p)); [|lia].
  apply Hp in E. unfold clock_ok, maxBackoff, MaxUint64 in *. rewrite wrap64_id by solve_uint. lia.
Qed.

Fixpoint times_ok (now : Z) (es : list lim_event) (final : Z) : Prop :=
  match es with
  | [] => now ≤ final
  | e :: es => match event_time e with Some t => now ≤ t ∧ times_ok t es final | None => times_ok now es final end
  end.

Lemma times_final now es final : times_ok now es final → now ≤ final.
Proof.
  revert now. induction es as [|[u ip t|u ip] es IH]; intros now; cbn; [done| |apply IH]. intros [? Ht]. apply IH in Ht. lia.
Qed.

Lemma lim_run_inv l es now final :
  0 ≤ now → clock_ok final → lim_inv now l → times_ok now es final → lim_inv final (foldl lim_step l es).
Proof.
  revert l now. induction es as [|e es IH]; intros l now H0 Hc Hi Ht; cbn in *; [by eapply lim_inv_mono|].
  destruct e as [u ip t|u ip]; cbn in *.
  - destruct Ht as [Hle Ht]. apply (IH _ t); [lia|done| |done]. apply times_final in Ht as Hf.
    apply fail_inv; [unfold clock_ok in *; lia|]. by eapply lim_inv_mono.
  - apply (IH _ now); [done|done|by apply limiter_succeed_inv|done].
Qed.

(** C34. No history of failures and successes under a clock that does not run backwards can make
    anyone wait more than five minutes: guessing badly on purpose never locks the owner out. *)
Theorem limiter_no_lockout (es : list lim_event) (now : Z) (username ip : string) :
  times_ok 0 es now → clock_ok now →
  0 ≤ limiter_check (foldl lim_step newLimiter es) username ip now ≤ maxBackoff.
Proof.
  intros Ht Hc. apply check_wait; [done|]. apply (lim_run_inv _ _ 0); [lia|done| |done].
  constructor; cbn; intros k x; by rewrite lookup_empty.
Qed.

(** Sweeping the tables never helps an attacker: from the moment of the sweep on, every caller
    must wait exactly as long as without it. *)
Theorem sweep_keeps_limits (es : list lim_event) (now later : Z) (username ip : string) :
  times_ok 0 es now → now ≤ later → clock_ok later →
  limiter_check (sweep (foldl lim_step newLimiter es) now) username ip later =
  limiter_check (foldl lim_step newLimiter es) username ip later.
Proof.
  intros Ht Hle Hc. set (l := foldl lim_step newLimiter es).
  assert (lim_inv now l) as [Hp Hu].
  { apply times_final in Ht as H0. apply (lim_run_inv _ _ 0); [lia|unfold clock_ok in *; lia| |done].
    constructor; cbn; intros k x; by rewrite lookup_empty. }
  apply times_final in Ht as H0. clearbody l. unfold limiter_check, sweep. cbn [lim_pairs lim_users].
  assert (user_wait (filter (λ ku : string * userState, window_over ku.2 now || (us_failures ku.2 <? userHourlyBudget) = false)
      (lim_users l) !! username) later = user_wait (lim_users l !! username) later) as ->.
  { rewrite map_lookup_filter. destruct (lim_users l !! username) as [u|] eqn:E; [|done]. cbn.
    destruct (window_over u now || _) eqn:Ew; [|done]. cbn. unfold user_wait.
    assert (window_over u later || (us_failures u <? userHourlyBudget) = true) as ->; [|done].
    apply orb_true_iff in Ew as [Ew| ->]; [|apply orb_true_r]. apply Hu in E. unfold window_over, clock_ok, maxBackoff in *.
    rewrite Z.leb_le in Ew. rewrite wrap64_id in Ew by solve_uint. rewrite (proj2 (Z.leb_le _ _)); [done|].
    rewrite wrap64_id by solve_uint. lia. }
  rewrite map_lookup_filter. destruct (lim_pairs l !! (username, ip)) as [p|] eqn:E; [|done]. cbn.
  case_guard as Hd; cbn; [done|]. cbn in Hd. destruct (Z.ltb_spec later (ps_until p)); [lia|done].
Qed.

Definition demo_events : list lim_event :=
  [EvFail "ann" "ip" 1000; EvFail "ann" "ip" 2000; EvFail "ann" "ip" 3000; EvFail "ann" "ip" 4000].

Lemma limiter_no_lockout_witness :
  limiter_check (foldl lim_step newLimiter demo_events) "ann" "ip" 5000 = 1000 ∧
  0 ≤ limiter_check (foldl lim_step newLimiter demo_events) "ann" "ip" 5000 ≤ maxBackoff.
Proof.
  split; [vm_compute; reflexivity|]. apply (limiter_no_lockout demo_events 5000 "ann" "ip").
  - cbn. lia.
  - split; vm_compute; discriminate.
Defined.

Lemma sweep_keeps_limits_witness :
  limiter_check (sweep (foldl lim_step newLimiter demo_events) 5000) "ann" "ip" 5500 =
  limiter_check (foldl lim_step newLimiter demo_events) "ann" "ip" 5500.
Proof.
  apply (sweep_keeps_limits demo_events 5000 5500 "ann" "ip").
  - cbn. lia.
  - lia.
  - split; vm_compute; discriminate.
Defined.
