(* ===== verification/Version.v ===== *)
(** * Version: protocol negotiation, schema access, account fingerprints

    [internal/domain/vaultsync]: [version.go] and [fingerprint.go]. *)

From stdpp Require Import pretty.
From S2P Require Import Prelude Bytes SyncBase Canon Sha2.

Record ProtocolVersion := { pv_Major : Z; pv_Minor : Z; pv_Patch : Z }.  (* uint16 *)

#[export] Instance ProtocolVersion_eq_dec : EqDecision ProtocolVersion.
Proof. solve_decision. Defined.

Definition CurrentProtocol : ProtocolVersion := {| pv_Major := 1; pv_Minor := 0; pv_Patch := 0 |}.

(** [cmp.Compare]. *)
Definition cmp_Compare (a b : Z) : Z := if a <? b then -1 else if b <? a then 1 else 0.

Definition Compare (v o : ProtocolVersion) : Z :=
  let c := cmp_Compare (pv_Major v) (pv_Major o) in
  if negb (c =? 0) then c else
  let c := cmp_Compare (pv_Minor v) (pv_Minor o) in
  if negb (c =? 0) then c else
  cmp_Compare (pv_Patch v) (pv_Patch o).

Definition ProtocolVersion_String (v : ProtocolVersion) : string :=
  (pretty (pv_Major v) +:+ "." +:+ pretty (pv_Minor v) +:+ "." +:+ pretty (pv_Patch v))%string.

Definition NegotiateProtocol (client serverMin serverMax : ProtocolVersion) : result error ProtocolVersion :=
  fail_if 0 <? Compare serverMin serverMax with [ErrProtocolUnsupported] ;;
  let chosen := if 0 <? Compare client serverMax then serverMax else client in
  fail_if negb (pv_Major chosen =? pv_Major client) || (Compare chosen serverMin <? 0) with [ErrProtocolUnsupported] ;;
  Ok chosen.

Inductive SchemaAccess := SchemaWritable | SchemaReadOnly | SchemaOpaque.

Definition RecordAccess (known : gmap string Z) (recordType : string) (schema : Z) : SchemaAccess :=
  match known !! recordType with
  | None => SchemaOpaque
  | Some current => if current <? schema then SchemaReadOnly else SchemaWritable
  end.

Definition HelloContext `{Crypto} (identityKey : bytes) (serverMin serverMax : ProtocolVersion) (suites : list SuiteID) :
    result error hash :=
  let c := NewCanon LabelHelloContext |> Canon_Bytes identityKey
             |> Canon_U16 (pv_Major serverMin) |> Canon_U16 (pv_Minor serverMin) |> Canon_U16 (pv_Patch serverMin)
             |> Canon_U16 (pv_Major serverMax) |> Canon_U16 (pv_Minor serverMax) |> Canon_U16 (pv_Patch serverMax)
             |> Canon_U64 (len suites) in
  Sum (foldl (λ c s, Canon_U16 s c) c suites).

(** [fmt.Sprintf("%05d", n)] for [n < 100000]. *)
Definition digits5 (n : Z) : bytes :=
  (λ d, byte_of_Z (48 + n / d mod 10)) <$> [10000; 1000; 100; 10; 1].

Definition fingerprint_group (sum : bytes) (i : nat) : bytes :=
  let chunk := go_copy (zeros 8) 3 (take 5 (drop (i * 5) sum)) in
  digits5 (be_val chunk mod 100000).

Definition AccountFingerprint `{Crypto} (identityKey : bytes) : bytes :=
  let sum := vec_to_list (sha512 identityKey) in
  let groups := fingerprint_group sum <$> seq 0 12 in
  concat (match groups with [] => [] | g :: rest => g :: ((λ g, Byte.x20 :: g) <$> rest) end).

(** ** Negotiation *)

Definition version_le (a b : ProtocolVersion) : Prop :=
  pv_Major a < pv_Major b ∨
  (pv_Major a = pv_Major b ∧ (pv_Minor a < pv_Minor b ∨ (pv_Minor a = pv_Minor b ∧ pv_Patch a ≤ pv_Patch b))).

Lemma cmp_Compare_cases a b :
  (a < b ∧ cmp_Compare a b = -1) ∨ (a = b ∧ cmp_Compare a b = 0) ∨ (b < a ∧ cmp_Compare a b = 1).
Proof. unfold cmp_Compare. destruct (Z.ltb_spec a b), (Z.ltb_spec b a); lia. Qed.

Lemma Compare_le a b : Compare a b ≤ 0 ↔ version_le a b.
Proof.
  unfold Compare, version_le. destruct (cmp_Compare_cases (pv_Major a) (pv_Major b)) as [[? ->]|[[? ->]|[? ->]]]; cbn; [lia| |lia].
  destruct (cmp_Compare_cases (pv_Minor a) (pv_Minor b)) as [[? ->]|[[? ->]|[? ->]]]; cbn; [lia| |lia].
  destruct (cmp_Compare_cases (pv_Patch a) (pv_Patch b)) as [[? ->]|[[? ->]|[? ->]]]; lia.
Qed.
Lemma Compare_anti a b : Compare b a = - Compare a b.
Proof.
  unfold Compare. assert (∀ x y, cmp_Compare y x = - cmp_Compare x y) as Hc
    by (intros x y; destruct (cmp_Compare_cases x y) as [[? ->]|[[? ->]|[? ->]]], (cmp_Compare_cases y x) as [[? ->]|[[? ->]|[? ->]]]; lia).
  rewrite !(Hc (pv_Major a)), !(Hc (pv_Minor a)), !(Hc (pv_Patch a)).
  destruct (cmp_Compare_cases (pv_Major a) (pv_Major b)) as [[? ->]|[[? ->]|[? ->]]]; cbn; [done| |done].
  destruct (cmp_Compare_cases (pv_Minor a) (pv_Minor b)) as [[? ->]|[[? ->]|[? ->]]]; cbn; done.
Qed.

Lemma Compare_ge a b : 0 ≤ Compare a b ↔ version_le b a.
Proof. rewrite <- Compare_le, (Compare_anti a b). lia. Qed.

(** Negotiation succeeds exactly when the server's range is not empty and the lower of the
    client's version and the server's newest has the client's major and is not below the server's
    oldest; that lower version is then the one spoken. *)
Theorem NegotiateProtocol_iff (client smin smax v : ProtocolVersion) :
  NegotiateProtocol client smin smax = Ok v ↔
  version_le smin smax ∧ version_le smin v ∧ pv_Major v = pv_Major client ∧
  ((version_le client smax ∧ v = client) ∨ (¬ version_le client smax ∧ v = smax)).
Proof.
  unfold NegotiateProtocol. rewrite !fail_if_Ok, Z.ltb_ge, Compare_le, orb_false_iff, negb_false_iff, Z.eqb_eq, Z.ltb_ge, Compare_ge.
  rewrite <- (Compare_le client).
  destruct (Z.ltb_spec 0 (Compare client smax)) as [Hc|Hc]; split.
  - intros (? & (? & ?) & <-%Ok_inj). split_and!; [done..|]. right. split; [lia|done].
  - intros (? & Hv & Hm & [[? ->]|[_ ->]]); [lia|done].
  - intros (? & (? & ?) & <-%Ok_inj). split_and!; [done..|]. by left.
  - intros (? & Hv & Hm & [[? ->]|[? ->]]); [done|lia].
Qed.

(** ** The hello transcript *)

Section hello.
Context `{Crypto}.

Definition version_fields (v : ProtocolVersion) : list bytes :=
  [be_bytes 2 (pv_Major v); be_bytes 2 (pv_Minor v); be_bytes 2 (pv_Patch v)].
Definition version_wf (v : ProtocolVersion) : Prop := u16 (pv_Major v) ∧ u16 (pv_Minor v) ∧ u16 (pv_Patch v).
Definition hello_fields (k : bytes) (smin smax : ProtocolVersion) (suites : list Z) : list bytes :=
  ([bytes_of_string LabelHelloContext; k; be_bytes 2 (pv_Major smin); be_bytes 2 (pv_Minor smin); be_bytes 2 (pv_Patch smin);
    be_bytes 2 (pv_Major smax); be_bytes 2 (pv_Minor smax); be_bytes 2 (pv_Patch smax); be_bytes 8 (len suites)]
   ++ (be_bytes 2 <$> suites)).
Definition hello_input (k : bytes) (smin smax : ProtocolVersion) (suites : list Z) : bytes := frames (hello_fields k smin smax suites).

Lemma HelloContext_Ok k smin smax suites h :
  HelloContext k smin smax suites = Ok h ↔ Forall field_small (hello_fields k smin smax suites) ∧ h = sha256 (hello_input k smin smax suites).
Proof.
  unfold hello_input. rewrite <- Sum_fields. unfold HelloContext, hello_fields. rewrite fields_canon_app, foldl_fmap.
  match goal with |- Sum (foldl _ ?a _) = _ ↔ Sum (foldl _ ?b _) = _ => assert (a = b) as -> by canon_fields end. done.
Qed.

(** A downgraded offer is detected: if client and server derive one login context, they saw the
    same server identity key, the same protocol range and the same suites. *)
Theorem hello_binds (k k' : bytes) (smin smin' smax smax' : ProtocolVersion) (su su' : list Z) (h : hash) :
  version_wf smin → version_wf smin' → version_wf smax → version_wf smax' →
  Forall u16 su → Forall u16 su' → u64 (len su) → u64 (len su') →
  HelloContext k smin smax su = Ok h → HelloContext k' smin' smax' su' = Ok h →
  collision_free (λ x, x = hello_input k smin smax su ∨ x = hello_input k' smin' smax' su') →
  k = k' ∧ smin = smin' ∧ smax = smax' ∧ su = su'.
Proof.
  intros (?&?&?) (?&?&?) (?&?&?) (?&?&?) W W' ?? [F ->]%HelloContext_Ok [F' E]%HelloContext_Ok Hc.
  apply Hc in E; [|auto..]. unfold hello_input in E. apply frames_inj in E; [|done..]. unfold hello_fields in E.
  apply app_inj_len in E as [E Es]; [|done]. field_inj. split_and!; [done|destruct smin, smin'; cbn in *; congruence|destruct smax, smax'; cbn in *; congruence|].
  clear -W W' Es. revert su' W' Es. induction W as [|s su Hs W IH]; intros [|s' su'] W' Es; [done..|].
  apply Forall_cons in W' as [??]. cbn in Es. apply cons_inj in Es as [Es1 Es].
  apply be2_inj in Es1 as ->; [|done..]. f_equal. by apply IH.
Qed.

End hello.

#[local] Existing Instance demo_crypto.

Example fingerprint_demo : length (AccountFingerprint (vec_to_list (demo_hash 1))) = 71%nat.
Proof. vm_compute. reflexivity. Qed.

Lemma hello_binds_witness :
  zeros 32 = zeros 32 ∧ CurrentProtocol = CurrentProtocol ∧ CurrentProtocol = CurrentProtocol ∧ [Suite1] = [Suite1].
Proof.
  apply (hello_binds (zeros 32) (zeros 32) CurrentProtocol CurrentProtocol CurrentProtocol CurrentProtocol [Suite1] [Suite1]
           (sha256 (hello_input (zeros 32) CurrentProtocol CurrentProtocol [Suite1]))).
  1-4: repeat split; vm_compute; discriminate.
  1-2: constructor; [split; vm_compute; discriminate|constructor].
  1-2: split; vm_compute; discriminate.
  1-2: vm_compute; reflexivity.
  - intros x y [->| ->] [->| ->] _; reflexivity.
Defined.
