(* ===== verification/ServerStore.v ===== *)
(** * ServerStore: the sync server's tables and the queries on them

    [internal/syncserver/store]: [schema.go], [commits.go], [prune.go], [vaults.go], [devices.go],
    [accounts.go], [admin.go]; [internal/syncserver/usecase/ports.go]. A table is a map from its
    primary key to the other columns, so an [INSERT] of a present key is the constraint violation
    SQLite reports; foreign keys are enforced as the store opens its database with them on. Rows
    hold heads, operations, entries and envelopes themselves, not their JSON. Failures of the disk
    or of the driver are not modelled. *)

From S2P Require Import Prelude Bytes SyncBase Rows Canon Envelope Merkle Head DeviceLog Retention Membership VaultState.

(** ** Use-case errors ([usecase/errors.go]) *)

Inductive usentinel :=
  | ErrMalformed | ErrUnauthorized | ErrForbidden | ErrNotFound | ErrFrozen | ErrQuotaExceeded | ErrTooLarge
  | ErrConflict (currentSeq : Z)
  | ErrPurgeNotDue | ErrHistoryPruned | ErrInviteNotFound
  | RateLimitedError (retryAfterMillis : Z)
  | ERandom                      (* the random source failed *)
  | EStore                       (* a constraint the database enforces *)
  | EDomain (s : sentinel).      (* a wrapped vaultsync error *)
Abbreviation uerror := (list usentinel).

(** [malformed(cause)]. *)
Definition umalformed (cause : uerror) : uerror := ErrMalformed :: cause.
Definition domain_error (e : error) : uerror := EDomain <$> e.
Definition lift_domain {A} (r : result error A) : result uerror A :=
  match r with Ok a => Ok a | Err e => Err (domain_error e) end.

(** ** Rows ([usecase/ports.go]) *)

Record Account := {
  ac_Username : string; ac_OPAQUERecord : bytes; ac_Bundle : bytes; ac_IdentityKey : bytes; ac_EncryptionKey : bytes;
  ac_Created : Z; ac_Frozen : bool;
}.
Inductive TokenKind := TokenAccount | TokenAccess.
#[export] Instance TokenKind_eq_dec : EqDecision TokenKind.
Proof. solve_decision. Defined.
(** [tok_Device] is the zero id where the [device] column is NULL. *)
Record Token := { tok_Account : ID; tok_Device : ID; tok_Kind : TokenKind; tok_Expires : Z }.
Record Device := { dv_Account : ID; dv_SigningKey : bytes; dv_Revoked : bool }.
Record Vault := {
  va_Owner : ID; va_Seq : Z; va_MembershipSeq : Z; va_Bytes : Z; va_Personal : bool; va_Deleted : bool; va_PrunedSeq : Z;
}.
Record CommitRow := { cr_CommitID : ID; cr_Head : Head; cr_Purged : list ID; cr_Received : Z }.
Record VersionRow := {
  rv_Seq : Z; rv_Epoch : Z; rv_Size : Z; rv_Envelope : Envelope; rv_Digest : hash; rv_Deleted : bool;
}.

(** [inv_UsedBy] is [None] where the [used_by] column is NULL. *)
Record Invite := { inv_Expires : Z; inv_UsedBy : option ID }.

Record DB := {
  db_accounts : gmap ID Account;
  db_devices : gmap ID Device;
  db_entries : gmap (ID * Z) DeviceEntry;            (* account, seq *)
  db_tokens : gmap hash Token;                       (* SHA-256 of the token *)
  db_vaults : gmap ID Vault;
  db_ops : gmap (ID * Z) MemberOp;                   (* vault, seq *)
  db_members : gmap (ID * ID) Z;                     (* vault, account *)
  db_participants : gset (ID * ID);
  db_commits : gmap (ID * Z) CommitRow;              (* vault, seq *)
  db_versions : gmap (ID * ID * Z) VersionRow;       (* vault, record, version *)
  db_invites : gmap hash Invite;                     (* SHA-256 of the code *)
}.

Definition set_vaults (x : gmap ID Vault) (d : DB) : DB :=
  {| db_accounts := db_accounts d; db_devices := db_devices d; db_entries := db_entries d; db_tokens := db_tokens d; db_vaults := x; db_ops := db_ops d;
     db_members := db_members d; db_participants := db_participants d; db_commits := db_commits d; db_versions := db_versions d; db_invites := db_invites d |}.
Definition set_ops (x : gmap (ID * Z) MemberOp) (d : DB) : DB :=
  {| db_accounts := db_accounts d; db_devices := db_devices d; db_entries := db_entries d; db_tokens := db_tokens d; db_vaults := db_vaults d; db_ops := x;
     db_members := db_members d; db_participants := db_participants d; db_commits := db_commits d; db_versions := db_versions d; db_invites := db_invites d |}.
Definition set_members (x : gmap (ID * ID) Z) (d : DB) : DB :=
  {| db_accounts := db_accounts d; db_devices := db_devices d; db_entries := db_entries d; db_tokens := db_tokens d; db_vaults := db_vaults d; db_ops := db_ops d;
     db_members := x; db_participants := db_participants d; db_commits := db_commits d; db_versions := db_versions d; db_invites := db_invites d |}.
Definition set_participants (x : gset (ID * ID)) (d : DB) : DB :=
  {| db_accounts := db_accounts d; db_devices := db_devices d; db_entries := db_entries d; db_tokens := db_tokens d; db_vaults := db_vaults d; db_ops := db_ops d;
     db_members := db_members d; db_participants := x; db_commits := db_commits d; db_versions := db_versions d; db_invites := db_invites d |}.
Definition set_commits (x : gmap (ID * Z) CommitRow) (d : DB) : DB :=
  {| db_accounts := db_accounts d; db_devices := db_devices d; db_entries := db_entries d; db_tokens := db_tokens d; db_vaults := db_vaults d; db_ops := db_ops d;
     db_members := db_members d; db_participants := db_participants d; db_commits := x; db_versions := db_versions d; db_invites := db_invites d |}.
Definition set_versions (x : gmap (ID * ID * Z) VersionRow) (d : DB) : DB :=
  {| db_accounts := db_accounts d; db_devices := db_devices d; db_entries := db_entries d; db_tokens := db_tokens d; db_vaults := db_vaults d; db_ops := db_ops d;
     db_members := db_members d; db_participants := db_participants d; db_commits := db_commits d; db_versions := x; db_invites := db_invites d |}.
Definition set_people (a : gmap ID Account) (dv : gmap ID Device) (e : gmap (ID * Z) DeviceEntry)
    (t : gmap hash Token) (d : DB) : DB :=
  {| db_accounts := a; db_devices := dv; db_entries := e; db_tokens := t; db_vaults := db_vaults d; db_ops := db_ops d;
     db_members := db_members d; db_participants := db_participants d; db_commits := db_commits d; db_versions := db_versions d; db_invites := db_invites d |}.

Definition set_invites (x : gmap hash Invite) (d : DB) : DB :=
  {| db_accounts := db_accounts d; db_devices := db_devices d; db_entries := db_entries d; db_tokens := db_tokens d; db_vaults := db_vaults d; db_ops := db_ops d;
     db_members := db_members d; db_participants := db_participants d; db_commits := db_commits d; db_versions := db_versions d; db_invites := x |}.

(** ** Reading rows *)

Definition MemberOps (d : DB) (vault : ID) : list MemberOp := (rows_by_seq (db_ops d) vault).*2.
Definition DeviceEntries (d : DB) (account : ID) : list DeviceEntry := (rows_by_seq (db_entries d) account).*2.
Definition VaultByID (d : DB) (vault : ID) : option Vault := db_vaults d !! vault.
Definition AccountByID (d : DB) (account : ID) : option Account := db_accounts d !! account.
(** The [username] column is unique, so at most one row is found. *)
Definition AccountByUsername (d : DB) (username : string) : option (ID * Account) :=
  List.find (λ kv, ac_Username kv.2 =?? username) (map_to_list (db_accounts d)).
Definition DeviceByID (d : DB) (device : ID) : option Device := db_devices d !! device.
Definition MemberRole (d : DB) (vault account : ID) : Z := default RoleNone (db_members d !! (vault, account)).
Definition MemberCount (d : DB) (vault : ID) : Z :=
  len (filter (λ kv : (ID * ID) * Z, kv.1.1 = vault) (map_to_list (db_members d))).
Definition VaultsOf (d : DB) (account : ID) : list ID :=
  merge_sort ID_le (filter (λ v, from_option va_Deleted true (db_vaults d !! v) = false)
    ((λ kv : (ID * ID) * Z, kv.1.1) <$> filter (λ kv : (ID * ID) * Z, kv.1.2 = account) (map_to_list (db_members d)))).

Definition CommitSeqByID (d : DB) (vault commitID : ID) : option Z :=
  (λ kv, kv.1.2) <$> List.find (λ kv, (kv.1.1 =?? vault) && (cr_CommitID kv.2 =?? commitID)) (map_to_list (db_commits d)).

(** The last row of [ORDER BY seq], which [ORDER BY seq DESC LIMIT 1] selects. *)
Definition LatestHead (d : DB) (vault : ID) : option Head := cr_Head ∘ snd <$> list.last (rows_by_seq (db_commits d) vault).

Abbreviation version_entry := ((ID * ID * Z) * VersionRow)%type (only parsing).
(** [SELECT max(version) FROM record_versions WHERE vault = ? AND record = ?]. *)
Definition max_version (d : DB) (vault record : ID) : Z :=
  foldr Z.max 0 ((λ kv : version_entry, kv.1.2) <$> filter (λ kv : version_entry, kv.1.1 = (vault, record)) (map_to_list (db_versions d))).
(** The [currentVersion] clause. *)
Definition currentVersion (d : DB) (k : ID * ID * Z) : bool := k.2 =? max_version d k.1.1 k.1.2.

Definition row_leaf (kv : version_entry) : Leaf :=
  {| l_Record := kv.1.1.2; l_Version := kv.1.2; l_Digest := rv_Digest kv.2; l_Deleted := rv_Deleted kv.2 |}.
Definition current_rows (d : DB) (vault : ID) : list version_entry :=
  filter (λ kv : version_entry, kv.1.1.1 = vault ∧ currentVersion d kv.1 = true) (map_to_list (db_versions d)).
Definition CurrentLeaves (d : DB) (vault : ID) : list Leaf := row_leaf <$> current_rows d vault.
Definition EpochsInUse (d : DB) (vault : ID) : list Z :=
  remove_dups ((λ kv : version_entry, rv_Epoch kv.2) <$> filter (λ kv : version_entry, rv_Deleted kv.2 = false) (current_rows d vault)).

(** The [received] time and the membership position of the commit that carried a record's latest version. *)
Definition VersionLanded (d : DB) (vault record : ID) : option (Z * Z) :=
  rv ← db_versions d !! (vault, record, max_version d vault record);
  c ← db_commits d !! (vault, rv_Seq rv);
  Some (cr_Received c, h_MembershipSeq (cr_Head c)).

(** ** Writing rows *)

Definition TX (A : Type) : Type := ST DB uerror A.
#[export] Instance TX_bind : MBind TX := ST_bind.
Definition tx_get : TX DB := st_get.
Definition tx_put (d : DB) : TX unit := st_put d.
Definition tx_lift {A} (r : result uerror A) : TX A := st_lift r.
Definition tx_fail_if (c : bool) (e : uerror) : TX unit := if c then st_fail e else st_lift (Ok ()).
Definition tx_modify (f : DB → DB) : TX unit := λ d, (Ok (), f d).

(** [for _, x := range l { if err := f(x); err != nil { return err } }]. *)
Fixpoint tx_for {A} (l : list A) (f : A → TX unit) : TX unit :=
  match l with
  | [] => tx_lift (Ok ())
  | x :: l => _ ← f x; tx_for l f
  end.

Definition UpdateVault (vault : ID) (f : Vault → Vault) (d : DB) : DB := set_vaults (alter f vault (db_vaults d)) d.

Definition InsertVault (id : ID) (v : Vault) : TX unit :=
  d ← tx_get;
  _ ← tx_fail_if (bool_decide (is_Some (db_vaults d !! id))) [EStore];
  tx_put (set_vaults (<[id := v]> (db_vaults d)) d).

Definition UpdateVaultHead (id : ID) (seq bytes : Z) : TX unit :=
  tx_modify (UpdateVault id (λ v, {| va_Owner := va_Owner v; va_Seq := seq; va_MembershipSeq := va_MembershipSeq v; va_Bytes := bytes;
    va_Personal := va_Personal v; va_Deleted := va_Deleted v; va_PrunedSeq := va_PrunedSeq v |})).
Definition SetVaultMembershipSeq (id : ID) (seq : Z) : TX unit :=
  tx_modify (UpdateVault id (λ v, {| va_Owner := va_Owner v; va_Seq := va_Seq v; va_MembershipSeq := seq; va_Bytes := va_Bytes v;
    va_Personal := va_Personal v; va_Deleted := va_Deleted v; va_PrunedSeq := va_PrunedSeq v |})).
Definition RaisePrunedSeq (id : ID) (seq : Z) : TX unit :=
  tx_modify (UpdateVault id (λ v, {| va_Owner := va_Owner v; va_Seq := va_Seq v; va_MembershipSeq := va_MembershipSeq v; va_Bytes := va_Bytes v;
    va_Personal := va_Personal v; va_Deleted := va_Deleted v; va_PrunedSeq := Z.max (va_PrunedSeq v) seq |})).
Definition RecomputeBytes (id : ID) : TX unit :=
  tx_modify (λ d, UpdateVault id (λ v, {| va_Owner := va_Owner v; va_Seq := va_Seq v; va_MembershipSeq := va_MembershipSeq v;
    va_Bytes := foldr Z.add 0 ((λ kv : version_entry, rv_Size kv.2) <$> filter (λ kv : version_entry, kv.1.1.1 = id) (map_to_list (db_versions d)));
    va_Personal := va_Personal v; va_Deleted := va_Deleted v; va_PrunedSeq := va_PrunedSeq v |}) d).

Definition AppendMemberOp (vault : ID) (op : MemberOp) : TX unit :=
  d ← tx_get;
  _ ← tx_fail_if (bool_decide (is_Some (db_ops d !! (vault, op_Seq op))) || negb (bool_decide (is_Some (db_vaults d !! vault)))) [EStore];
  _ ← tx_put (set_ops (<[(vault, op_Seq op) := op]> (db_ops d)) d);
  tx_for [op_Author op; op_Subject op] (λ a, if ID_IsZero a then tx_lift (Ok ())
    else tx_modify (λ d, set_participants ({[(vault, a)]} ∪ db_participants d) d)).
Definition AppendMemberOps (vault : ID) (ops : list MemberOp) : TX unit := tx_for ops (AppendMemberOp vault).

Definition ReplaceMembers (vault : ID) (roles : gmap ID Z) : TX unit :=
  tx_modify (λ d, set_members
    (foldr (λ p acc, <[(vault, p.1) := p.2]> acc)
           (filter (λ kv : (ID * ID) * Z, kv.1.1 ≠ vault) (db_members d)) (map_to_list roles)) d).

Definition ReplaceMemberOps (vault : ID) (ops : list MemberOp) : TX unit :=
  tx_for ops (λ op, tx_modify (λ d, set_ops (alter (λ _, op) (vault, op_Seq op) (db_ops d)) d)).

Definition insertVersion `{Crypto} (vault : ID) (seq : Z) (e : Envelope) : TX unit :=
  digest ← tx_lift (lift_domain (Envelope_Digest e));
  d ← tx_get;
  _ ← tx_fail_if (bool_decide (is_Some (db_versions d !! (vault, e_Record e, e_Version e)))) [EStore];
  tx_put (set_versions (<[(vault, e_Record e, e_Version e) :=
    {| rv_Seq := seq; rv_Epoch := e_Epoch e; rv_Size := len (e_WrappedDEK e) + len (e_Body e); rv_Envelope := e;
       rv_Digest := digest; rv_Deleted := e_Deleted e |}]> (db_versions d)) d).

Definition InsertCommit `{Crypto} (vault : ID) (seq : Z) (c : Commit) (received : Z) : TX unit :=
  d ← tx_get;
  _ ← tx_fail_if (bool_decide (is_Some (db_commits d !! (vault, seq))) || bool_decide (is_Some (CommitSeqByID d vault (h_Commit (c_Head c))))
                  || negb (bool_decide (is_Some (db_vaults d !! vault)))) [EStore];
  _ ← tx_put (set_commits (<[(vault, seq) := {| cr_CommitID := h_Commit (c_Head c); cr_Head := c_Head c; cr_Purged := c_Purged c;
                                               cr_Received := received |}]> (db_commits d)) d);
  tx_for (c_Records c) (insertVersion vault seq).

(** [deleteVersions]: the rows a predicate selects go, and the newest seq among them is reported. *)
Definition deleteVersions (P : ID * ID * Z → VersionRow → bool) : TX Z :=
  d ← tx_get;
  let selected := filter (λ kv : version_entry, P kv.1 kv.2 = true) (map_to_list (db_versions d)) in
  let seq := foldr Z.max 0 ((λ kv : version_entry, rv_Seq kv.2) <$> selected) in
  if seq =? 0 then tx_lift (Ok 0)
  else
    _ ← tx_put (set_versions (filter (λ kv : version_entry, P kv.1 kv.2 = false) (db_versions d)) d);
    tx_lift (Ok seq).

Fixpoint DeleteRecords (vault : ID) (records : list ID) (newest : Z) : TX Z :=
  match records with
  | [] => tx_lift (Ok newest)
  | r :: records =>
      seq ← deleteVersions (λ k _, (k.1.1 =?? vault) && (k.1.2 =?? r));
      DeleteRecords vault records (Z.max newest seq)
  end.

(** The [supersededAt] clause. *)
Definition supersededAt (d : DB) (vault : ID) (cutoff : Z) (k : ID * ID * Z) : bool :=
  (k.1.1 =?? vault) &&
  match db_versions d !! (k.1.1, k.1.2, k.2 + 1) with
  | None => false
  | Some nx => match db_commits d !! (k.1.1, rv_Seq nx) with Some c => cr_Received c <? cutoff | None => false end
  end.
Definition DeleteSuperseded (vault : ID) (cutoff : Z) : TX Z :=
  d ← tx_get; deleteVersions (λ k _, supersededAt d vault cutoff k).

Definition DeleteEpochVersions (vault : ID) (epochs : list Z) : TX Z :=
  if len epochs =? 0 then tx_lift (Ok 0) else
  d ← tx_get;
  deleteVersions (λ k rv, (k.1.1 =?? vault) && bool_decide (rv_Epoch rv ∈ epochs) && (k.2 <? max_version d k.1.1 k.1.2)).

(** ** Transactions *)

(** [WithTx]: what [fn] wrote is kept only if it returned nil. *)
Definition WithTx {A} (fn : TX A) : TX A := λ d,
  match fn d with
  | (Ok a, d') => (Ok a, d')
  | (Err e, _) => (Err e, d)
  end.

(** [ON DELETE CASCADE] from [accounts]. *)
Definition DeleteAccountRow (username : string) (d : DB) : DB :=
  let gone := dom (filter (λ kv : ID * Account, ac_Username kv.2 = username) (db_accounts d)) in
  set_people (filter (λ kv : ID * Account, kv.1 ∉ gone) (db_accounts d))
             (filter (λ kv : ID * Device, dv_Account kv.2 ∉ gone) (db_devices d))
             (filter (λ kv : (ID * Z) * DeviceEntry, kv.1.1 ∉ gone) (db_entries d))
             (filter (λ kv : hash * Token, tok_Account kv.2 ∉ gone) (db_tokens d)) d.

(** [ON DELETE CASCADE] from [vaults]. *)
Definition DeleteVault (vault : ID) : TX unit :=
  tx_modify (λ d,
    d |> set_vaults (delete vault (db_vaults d))
      |> set_ops (filter (λ kv : (ID * Z) * MemberOp, kv.1.1 ≠ vault) (db_ops d))
      |> set_members (filter (λ kv : (ID * ID) * Z, kv.1.1 ≠ vault) (db_members d))
      |> set_participants (filter (λ k : ID * ID, k.1 ≠ vault) (db_participants d))
      |> set_commits (filter (λ kv : (ID * Z) * CommitRow, kv.1.1 ≠ vault) (db_commits d))
      |> set_versions (filter (λ kv : version_entry, kv.1.1.1 ≠ vault) (db_versions d))).
