(* ===== verification/Server.v ===== *)
(** * Server: the sync server's use cases on vaults, commits and device logs

    [internal/syncserver/usecase]: [commits.go], [vaults.go], [retention.go], [devicelog.go],
    [service.go], and the account deletion of [accounts.go]. A request is a transaction on the
    database, an [ST] computation; [WithTx] drops what a refused request wrote. The readings of
    the server's clock are arguments, in the order the request takes them. A request that ends in
    [events.publish] returns what it published beside its result. *)

From S2P Require Import Prelude Bytes SyncBase Rows Canon Envelope Merkle Head DeviceLog Retention Membership MembershipLog VaultState ServerStore.

Definition maxRecordsPerCommit : Z := 1000.
Definition maxChangesPage : Z := 200.
Definition maxHeadsPage : Z := 1000.
Definition changesPageBytes : Z := Z.shiftl 16 20.
Definition snapshotPageRecords : Z := 1000.
Definition snapshotPageBytes : Z := Z.shiftl 8 20.
Definition versionsBytes : Z := Z.shiftl 16 20.
Definition maxOpsPerAppend : Z := 16.

Record Config := { cfg_PersonalQuota : Z; cfg_TeamQuota : Z; cfg_MaxRecords : Z }.

(** The defaults [New] fills in. *)
Definition New (cfg : Config) : Config := {|
  cfg_PersonalQuota := if cfg_PersonalQuota cfg =? 0 then Z.shiftl 256 20 else cfg_PersonalQuota cfg;
  cfg_TeamQuota := if cfg_TeamQuota cfg =? 0 then Z.shiftl 1 30 else cfg_TeamQuota cfg;
  cfg_MaxRecords := if cfg_MaxRecords cfg =? 0 then 100000 else cfg_MaxRecords cfg |}.

Record Principal := { p_Account : ID; p_Device : ID; p_Kind : TokenKind }.

Record Event := { ev_Vault : ID; ev_Seq : Z; ev_MembershipSeq : Z; ev_Account : ID; ev_DeviceLogSeq : Z }.
(** What a request published: the accounts told, and the event. *)
Abbreviation published := (option (list ID * Event)).

(** ** Access *)

Definition requireAccess (p : Principal) : result uerror unit :=
  fail_if (p_Kind p <>? TokenAccess) || ID_IsZero (p_Device p) with [ErrUnauthorized] ;;
  Ok ().

Definition requireMember (d : DB) (vault account : ID) : result uerror (Vault * Z) :=
  match VaultByID d vault with
  | None => Err [ErrNotFound]
  | Some v =>
      fail_if va_Deleted v with [ErrNotFound] ;;
      let role := MemberRole d vault account in
      fail_if role =? RoleNone with [ErrNotFound] ;;
      Ok (v, role)
  end.

Definition signatureCheck `{Crypto} (d : DB) : SignatureCheck := λ account device alg msg sig,
  match DeviceByID d device with
  | None => Err [ErrBadSignature]
  | Some dv =>
      fail_if dv_Account dv <>? account with [ErrBadSignature] ;;
      VerifySignature alg (dv_SigningKey dv) msg sig
  end.

Definition deviceResolver (d : DB) : DeviceResolver := λ device,
  match DeviceByID d device with
  | None => Err [ErrDeviceLog]
  | Some dv => Ok (dv_Account dv, dv_SigningKey dv)
  end.

(** ** The stored state of a vault *)

Definition replayMembership `{Crypto} (d : DB) (vault : ID) : result uerror MembershipState :=
  m ← lift_domain (NewMembershipState vault);
  lift_domain (foldM (member_step (signatureCheck d)) m (MemberOps d vault)).

Definition currentState `{Crypto} (d : DB) (vault : ID) : result uerror VaultState :=
  lift_domain (RestoreVaultStateFromLeaves vault (LatestHead d vault) (CurrentLeaves d vault)).

Definition refusal (err : error) : uerror :=
  if errors_Is err ErrNotAuthorized || errors_Is err ErrRevokedDevice then ErrForbidden :: domain_error err
  else umalformed (domain_error err).

Definition roles (m : MembershipState) : gmap ID Z :=
  if ms_deleted m then ∅ else list_to_map ((λ id, (id, Role m id)) <$> Members m).

(** ** Pruning *)

(** [retiredEpochs]. *)
Definition retiredEpochs (d : DB) (vault : ID) (m : MembershipState) (now : Z) : list Z :=
  let inUse : gset Z := list_to_set (EpochsInUse d vault) in
  RetiredEpochs (ms_rotations m) (λ e, bool_decide (e ∈ inUse)) (ms_retentionDays m) now.

Definition stripRetiredWraps (vault : ID) (retired : list Z) : TX unit :=
  if len retired =? 0 then tx_lift (Ok ()) else
  d ← tx_get;
  let changed := op_strip <$> filter (λ op, op_Epoch op ∈ retired) (MemberOps d vault) in
  ReplaceMemberOps vault changed.

(** Deletes, in the caller's transaction, versions superseded more than a window ago, superseded
    versions under retired epochs, and the ciphertexts of the wraps of retired epochs. *)
Definition pruneVault (vault : ID) (m : MembershipState) (now : Z) : TX unit :=
  let window := wrap64 (ms_retentionDays m * dayMillis) in
  newest ← (if window <=? now then DeleteSuperseded vault (wrap64 (wrap64 (now - window) + 1)) else tx_lift (Ok 0) : TX Z);
  d ← tx_get;
  let retired := retiredEpochs d vault m now in
  seq ← DeleteEpochVersions vault retired;
  _ ← stripRetiredWraps vault retired;
  let newest := Z.max newest seq in
  _ ← (if 0 <? newest then RaisePrunedSeq vault newest else tx_lift (Ok ()));
  RecomputeBytes vault.

(** [applyPurges] of [retention.go]. *)
Definition deletePurged (vault : ID) (purged : list ID) : TX unit :=
  seq ← DeleteRecords vault purged 0;
  if seq =? 0 then tx_lift (Ok ()) else RaisePrunedSeq vault seq.

(** [PruneAll] runs one transaction per vault and stops at the first that fails. *)
Definition AllVaults (d : DB) : list ID :=
  merge_sort ID_le ((map_to_list (filter (λ kv : ID * Vault, va_Deleted kv.2 = false) (db_vaults d))).*1).
Definition PruneOne `{Crypto} (v : ID) (now : Z) : TX unit := WithTx (
  d ← tx_get;
  m ← tx_lift (replayMembership d v);
  pruneVault v m now).
Definition PruneAll `{Crypto} (now : nat → Z) : TX unit :=
  d ← tx_get;
  tx_for (imap (λ i v, (v, now i)) (AllVaults d)) (λ x, PruneOne x.1 x.2).

(** ** Commits *)

Definition checkQuota (cfg : Config) (v : Vault) (records : list Envelope) : result uerror Z :=
  let total := foldl (λ acc r, wrap64 (acc + wrap64 (len (e_WrappedDEK r) + len (e_Body r)))) (va_Bytes v) records in
  let limit := if va_Personal v then cfg_PersonalQuota cfg else cfg_TeamQuota cfg in
  fail_if limit <? total with [ErrQuotaExceeded] ;;
  Ok total.

Definition verifyCommit `{Crypto} (d : DB) (vault : ID) (c : Commit) : result uerror (MembershipState * VaultState) :=
  m ← replayMembership d vault;
  state ← currentState d vault;
  match ApplyCommit state c m (deviceResolver d) with
  | Err e => Err (refusal e)
  | Ok next => Ok (m, next)
  end.

(** One purged id of the loop of [checkPurgesDue]. *)
Definition checkPurgeDue (d : DB) (vault : ID) (m : MembershipState) (now : Z) (_ : unit) (id : ID) : result uerror unit :=
  let window := wrap64 (ms_retentionDays m * dayMillis) in
  match VersionLanded d vault id with
  | None => Err (umalformed [])
  | Some (received, membershipSeq) =>
      if membershipSeq <? ms_shredSeq m then Ok () else
      fail_if (now <? received) || (wrap64 (now - received) <? window) with [ErrPurgeNotDue] ;;
      Ok ()
  end.
Definition checkPurgesDue (d : DB) (vault : ID) (m : MembershipState) (purged : list ID) (now : Z) : result uerror unit :=
  foldM (checkPurgeDue d vault m now) () purged.

(** The body of the transaction of [Commit] once the commit is known to be new: the seq it got, and
    the members to tell. *)
Definition storeCommit `{Crypto} (cfg : Config) (vault : ID) (v : Vault) (c : Commit) (now : nat → Z) : TX (Z * list ID) :=
  bytes ← tx_lift (checkQuota cfg v (c_Records c));
  d ← tx_get;
  '(m, next) ← tx_lift (verifyCommit d vault c);
  _ ← tx_fail_if (cfg_MaxRecords cfg <? Len next) [ErrQuotaExceeded];
  _ ← tx_lift (checkPurgesDue d vault m (c_Purged c) (now 0%nat));
  let seq := wrap64 (va_Seq v + 1) in
  _ ← InsertCommit vault seq c (now 1%nat);
  _ ← UpdateVaultHead vault seq bytes;
  _ ← deletePurged vault (c_Purged c);
  _ ← pruneVault vault m (now 2%nat);
  tx_lift (Ok (seq, Members m)).

Definition Service_Commit `{Crypto} (cfg : Config) (p : Principal) (vault : ID) (expectSeq : Z) (c : Commit) (now : nat → Z) :
    TX (Z * published) :=
  _ ← tx_lift (requireAccess p);
  _ ← tx_fail_if (h_Author (c_Head c) <>? p_Device p) [ErrForbidden];
  _ ← tx_fail_if (maxRecordsPerCommit <? len (c_Records c) + len (c_Purged c)) [ErrTooLarge];
  WithTx (
    d ← tx_get;
    '(v, _) ← tx_lift (requireMember d vault (p_Account p));
    match CommitSeqByID d vault (h_Commit (c_Head c)) with
    | Some prior => tx_lift (Ok (prior, None))
    | None =>
        _ ← tx_fail_if (negb (expectSeq =? va_Seq v)) [ErrConflict (va_Seq v)];
        '(seq, members) ← storeCommit cfg vault v c now;
        tx_lift (Ok (seq, Some (members, {| ev_Vault := vault; ev_Seq := seq; ev_MembershipSeq := 0; ev_Account := ID_zero;
                                            ev_DeviceLogSeq := 0 |})))
    end).

(** ** Membership *)

Definition CreateVault `{Crypto} (p : Principal) (create : MemberOp) : TX unit :=
  _ ← tx_lift (requireAccess p);
  _ ← tx_fail_if (negb (op_Kind create =? MemberCreate) || (op_Author create <>? p_Account p) || (op_AuthorDevice create <>? p_Device p))
        [ErrMalformed];
  WithTx (
    d ← tx_get;
    _ ← tx_fail_if (bool_decide (is_Some (VaultByID d (op_Vault create)))) [ErrForbidden];
    m ← tx_lift (lift_domain (NewMembershipState (op_Vault create)));
    match member_step (signatureCheck d) m create with
    | Err e => tx_lift (Err (refusal e))
    | Ok m =>
        _ ← InsertVault (op_Vault create) {| va_Owner := p_Account p; va_Seq := 0; va_MembershipSeq := 1; va_Bytes := 0;
                                             va_Personal := false; va_Deleted := false; va_PrunedSeq := 0 |};
        _ ← AppendMemberOps (op_Vault create) [create];
        ReplaceMembers (op_Vault create) (roles m)
    end).

Definition leaving (ops : list MemberOp) (author : ID) : bool :=
  existsb (λ op, (op_Kind op =? MemberRemove) && (op_Subject op =?? author)) ops.

(** One operation of the loop of [checkAddedKeys]. *)
Definition checkAddedKey `{Crypto} (d : DB) (_ : unit) (op : MemberOp) : result uerror unit :=
  if negb (op_Kind op =? MemberAdd) then Ok () else
  match AccountByID d (op_Subject op) with
  | None => Err (umalformed [])
  | Some a =>
      match IdentityDigest (ac_IdentityKey a) with
      | Err _ => Err (umalformed [])
      | Ok digest => fail_if digest <>? op_Fingerprint op with umalformed [] ;; Ok ()
      end
  end.
Definition checkAddedKeys `{Crypto} (d : DB) (ops : list MemberOp) : result uerror unit := foldM (checkAddedKey d) () ops.

Definition unionIDs (a b : list ID) : list ID :=
  foldl (λ out id, if bool_decide (id ∈ out) then out else out ++ [id]) [] (a ++ b).

Definition AppendMembership `{Crypto} (p : Principal) (vault : ID) (ops : list MemberOp) (now : Z) : TX published :=
  _ ← tx_lift (requireAccess p);
  _ ← tx_fail_if ((len ops =? 0) || (maxOpsPerAppend <? len ops)) [ErrMalformed];
  _ ← tx_fail_if (existsb (λ op, (op_Author op <>? p_Account p) || (op_AuthorDevice op <>? p_Device p) || (op_Vault op <>? vault)) ops)
        [ErrForbidden];
  WithTx (
    d ← tx_get;
    _ ← tx_lift (requireMember d vault (p_Account p));
    m ← tx_lift (replayMembership d vault);
    match foldM (member_step (signatureCheck d)) m ops with
    | Err e => tx_lift (Err (refusal e))
    | Ok m' =>
        _ ← tx_fail_if (ms_pendingRotation m' && negb (leaving ops (p_Account p))) (umalformed []);
        _ ← tx_lift (checkAddedKeys d ops);
        _ ← AppendMemberOps vault ops;
        _ ← SetVaultMembershipSeq vault (ms_seq m');
        _ ← ReplaceMembers vault (roles m');
        _ ← pruneVault vault m' now;
        tx_lift (Ok (Some (unionIDs (Members m) (Members m'), {| ev_Vault := vault; ev_Seq := 0; ev_MembershipSeq := ms_seq m';
                                                                 ev_Account := ID_zero; ev_DeviceLogSeq := 0 |})))
    end).

Definition Membership (p : Principal) (vault : ID) (since : Z) (d : DB) : result uerror (list MemberOp) :=
  _ ← requireMember d vault (p_Account p);
  Ok (filter (λ op, since < op_Seq op) (MemberOps d vault)).

(** ** Reading the feed *)

(** The loop both paged queries run over the rows the database returns. *)
Fixpoint page {A} (size : A → Z) (limit maxBytes : Z) (rows out : list A) (total : Z) : list A * bool :=
  match rows with
  | [] => (out, false)
  | r :: rest =>
      if (len out =? limit) || ((0 <? len out) && (maxBytes <? total + size r)) then (out, true)
      else page size limit maxBytes rest (out ++ [r]) (total + size r)
  end.

Definition recordsAt (d : DB) (vault : ID) (seq : Z) : list version_entry :=
  merge_sort (λ a b, ID_le a.1.1.2 b.1.1.2)
    (filter (λ kv : version_entry, kv.1.1.1 = vault ∧ rv_Seq kv.2 = seq) (map_to_list (db_versions d))).
Definition commitSize (d : DB) (vault : ID) (kv : (ID * Z) * CommitRow) : Z :=
  foldr Z.add 0 ((λ r : version_entry, rv_Size r.2) <$> recordsAt d vault kv.1.2).

Definition commitHeads (d : DB) (vault : ID) (since limit maxBytes : Z) : list ((ID * Z) * CommitRow) * bool :=
  page (commitSize d vault) limit maxBytes
    (take (Z.to_nat (limit + 1)) (filter (λ kv : (ID * Z) * CommitRow, since < kv.1.2) (rows_by_seq (db_commits d) vault))) [] 0.

Record StoredCommit := { sc_Seq : Z; sc_Commit : Commit }.
Definition Commits (d : DB) (vault : ID) (since limit maxBytes : Z) : list StoredCommit * bool :=
  let '(out, more) := commitHeads d vault since limit maxBytes in
  ((λ kv : (ID * Z) * CommitRow,
      {| sc_Seq := kv.1.2;
         sc_Commit := {| c_Head := cr_Head kv.2; c_Records := (λ r : version_entry, rv_Envelope r.2) <$> recordsAt d vault kv.1.2;
                         c_Purged := cr_Purged kv.2 |} |}) <$> out, more).

Definition Changes (p : Principal) (vault : ID) (since limit : Z) (d : DB) : result uerror (list StoredCommit * bool) :=
  let limit := Z.max 1 (Z.min limit maxChangesPage) in
  '(v, _) ← requireMember d vault (p_Account p);
  fail_if since <? va_PrunedSeq v with [ErrHistoryPruned] ;;
  Ok (Commits d vault since limit changesPageBytes).

Definition Heads (p : Principal) (vault : ID) (since until : Z) (d : DB) : result uerror (list Head) :=
  _ ← requireMember d vault (p_Account p);
  Ok ((λ kv : (ID * Z) * CommitRow, cr_Head kv.2) <$>
      take (Z.to_nat maxHeadsPage)
        (filter (λ kv : (ID * Z) * CommitRow, since < kv.1.2 ∧ kv.1.2 ≤ until) (rows_by_seq (db_commits d) vault))).

Definition CurrentRecordsPage (d : DB) (vault : ID) (after : bytes) (limit maxBytes : Z) : list Envelope * bool :=
  let rows := merge_sort (λ a b : version_entry, ID_le a.1.1.2 b.1.1.2)
    (filter (λ kv : version_entry, bytes_leb (vec_to_list kv.1.1.2) after = false) (current_rows d vault)) in
  let '(out, more) := page (λ kv : version_entry, rv_Size kv.2) limit maxBytes (take (Z.to_nat (limit + 1)) rows) [] 0 in
  ((λ kv : version_entry, rv_Envelope kv.2) <$> out, more).

Record SnapshotPage := { sn_Head : option Head; sn_Records : list Envelope; sn_More : bool }.
Definition Snapshot (p : Principal) (vault : ID) (after : option ID) (d : DB) : result uerror SnapshotPage :=
  let start := from_option vec_to_list [] after in
  _ ← requireMember d vault (p_Account p);
  let '(records, more) := CurrentRecordsPage d vault start snapshotPageRecords snapshotPageBytes in
  Ok {| sn_Head := LatestHead d vault; sn_Records := records; sn_More := more |}.

(** The loop of [RecordVersions], over the rows newest first. *)
Fixpoint newestVersions (maxBytes : Z) (rows : list version_entry) (out : list Envelope) (total : Z) : list Envelope :=
  match rows with
  | [] => out
  | r :: rest =>
      if (0 <? len out) && (maxBytes <? total + rv_Size r.2) then out
      else newestVersions maxBytes rest (out ++ [rv_Envelope r.2]) (total + rv_Size r.2)
  end.
Definition version_ge (a b : version_entry) : Prop := b.1.2 ≤ a.1.2.
#[export] Instance version_ge_dec (a b : version_entry) : Decision (version_ge a b).
Proof. unfold version_ge. apply _. Defined.
Definition RecordVersions (d : DB) (vault record : ID) (maxBytes : Z) : list Envelope :=
  reverse (newestVersions maxBytes
    (merge_sort version_ge
       (filter (λ kv : version_entry, kv.1.1 = (vault, record)) (map_to_list (db_versions d)))) [] 0).
Definition Versions (p : Principal) (vault record : ID) (d : DB) : result uerror (list Envelope) :=
  _ ← requireAccess p;
  _ ← requireMember d vault (p_Account p);
  Ok (RecordVersions d vault record versionsBytes).

(** ** Device logs *)

(** [replayDeviceLog]. *)
Definition replayDeviceLog `{Crypto} (id : ID) (a : Account) (entries : list DeviceEntry) : result error DeviceLogState :=
  log ← NewDeviceLogState id Suite1 (ac_IdentityKey a) (ac_EncryptionKey a);
  foldM Apply_step log entries.

Definition AppendDeviceEntries (account : ID) (entries : list DeviceEntry) : TX unit :=
  tx_for entries (λ e,
    d ← tx_get;
    _ ← tx_fail_if (bool_decide (is_Some (db_entries d !! (account, de_Seq e))) || negb (bool_decide (is_Some (db_accounts d !! account))))
          [EStore];
    tx_put (set_people (db_accounts d) (db_devices d) (<[(account, de_Seq e) := e]> (db_entries d)) (db_tokens d) d)).

(** [INSERT ... ON CONFLICT (id) DO NOTHING], with whether it changed a row. *)
Definition InsertDevice (id : ID) (dv : Device) : TX bool :=
  d ← tx_get;
  if bool_decide (is_Some (db_devices d !! id)) then tx_lift (Ok false)
  else _ ← tx_put (set_people (db_accounts d) (<[id := dv]> (db_devices d)) (db_entries d) (db_tokens d) d);
       tx_lift (Ok true).

Definition RevokeDevice (account device : ID) : TX bool :=
  d ← tx_get;
  match db_devices d !! device with
  | None => tx_lift (Ok false)
  | Some dv =>
      if dv_Account dv <>? account then tx_lift (Ok false)
      else _ ← tx_put (set_people (db_accounts d)
                         (<[device := {| dv_Account := dv_Account dv; dv_SigningKey := dv_SigningKey dv; dv_Revoked := true |}]> (db_devices d))
                         (db_entries d) (db_tokens d) d);
           tx_lift (Ok true)
  end.

(** [WHERE device = ?] never matches a NULL, the zero id of the model. *)
Definition DeleteTokensForDevice (device : ID) : TX unit :=
  tx_modify (λ d, set_people (db_accounts d) (db_devices d) (db_entries d)
    (filter (λ kv : hash * Token, tok_Device kv.2 = ID_zero ∨ tok_Device kv.2 ≠ device) (db_tokens d)) d).

Definition insertDevice (id : ID) (dv : Device) : TX unit :=
  inserted ← InsertDevice id dv;
  tx_fail_if (negb inserted) [ErrForbidden].

(** One entry of the loop of [syncDevices]; [e.Cert] is a pointer, and dereferencing nil panics. *)
Definition syncDevice (account : ID) (e : DeviceEntry) : TX unit :=
  if de_Op e =? OpAddDevice then
    match de_Cert e with
    | None => tx_lift (Err [EDomain GoPanic])
    | Some ct => insertDevice (dc_Device ct) {| dv_Account := account; dv_SigningKey := dc_SigningKey ct; dv_Revoked := false |}
    end
  else if de_Op e =? OpRevokeDevice then
    revoked ← RevokeDevice account (de_Revoked e);
    _ ← tx_fail_if (negb revoked) (umalformed []);
    DeleteTokensForDevice (de_Revoked e)
  else tx_lift (Ok ()).
Definition syncDevices (account : ID) (entries : list DeviceEntry) : TX unit := tx_for entries (syncDevice account).

Definition AppendDeviceLog `{Crypto} (p : Principal) (entries : list DeviceEntry) : TX published :=
  _ ← tx_fail_if ((len entries =? 0) || (16 <? len entries)) [ErrMalformed];
  WithTx (
    d ← tx_get;
    match AccountByID d (p_Account p) with
    | None => tx_lift (Err [ErrUnauthorized])
    | Some acct =>
        log ← tx_lift (lift_domain (replayDeviceLog (p_Account p) acct (DeviceEntries d (p_Account p))));
        match foldM Apply_step log entries with
        | Err e => tx_lift (Err (umalformed (domain_error e)))
        | Ok log =>
            _ ← tx_fail_if (ds_pendingSuccession log) (umalformed []);
            _ ← AppendDeviceEntries (p_Account p) entries;
            _ ← syncDevices (p_Account p) entries;
            tx_lift (Ok (Some ([p_Account p], {| ev_Vault := ID_zero; ev_Seq := 0; ev_MembershipSeq := 0; ev_Account := p_Account p;
                                                 ev_DeviceLogSeq := ds_seq log |})))
        end
    end).

(** [SharesVault]: [a] is a member of a vault [b] ever took part in. *)
Definition SharesVault (d : DB) (a b : ID) : bool :=
  existsb (λ kv : (ID * ID) * Z, (kv.1.2 =?? a) && bool_decide ((kv.1.1, b) ∈ db_participants d)) (map_to_list (db_members d)).

(** [DeviceLog] of [devicelog.go]. *)
Definition ReadDeviceLog (p : Principal) (account : ID) (since : Z) (d : DB) : result uerror (list DeviceEntry) :=
  fail_if (p_Account p <>? account) && negb (SharesVault d (p_Account p) account) with [ErrNotFound] ;;
  Ok (filter (λ e, since < de_Seq e) (DeviceEntries d account)).

Definition Authenticate `{Crypto} (token : bytes) (kinds : list TokenKind) (now : Z) (d : DB) : result uerror Principal :=
  match db_tokens d !! sha256 token with
  | None => Err [ErrUnauthorized]
  | Some tok =>
      fail_if (tok_Expires tok <=? now) || negb (bool_decide (tok_Kind tok ∈ kinds)) with [ErrUnauthorized] ;;
      match AccountByID d (tok_Account tok) with
      | None => Err [ErrUnauthorized]
      | Some acct =>
          fail_if ac_Frozen acct with [ErrFrozen] ;;
          _ ← (if tok_Kind tok =?? TokenAccess then
                 match DeviceByID d (tok_Device tok) with
                 | None => Err [ErrUnauthorized]
                 | Some dv => fail_if dv_Revoked dv with [ErrUnauthorized] ;; Ok ()
                 end
               else Ok ());
          Ok {| p_Account := tok_Account tok; p_Device := tok_Device tok; p_Kind := tok_Kind tok |}
      end
  end.

(** ** Deleting an account *)

Definition deleteSoleVaults (account : ID) : TX unit :=
  d ← tx_get;
  tx_for (VaultsOf d account) (λ v,
    d ← tx_get;
    if MemberCount d v <=? 1 then DeleteVault v else tx_lift (Ok ())).

Definition DeleteAccount (username : string) : TX unit := WithTx (
  d ← tx_get;
  match AccountByUsername d username with
  | None => tx_lift (Err [ErrNotFound])
  | Some (id, _) =>
      _ ← deleteSoleVaults id;
      tx_modify (DeleteAccountRow username)
  end).
