(* ===== verification/StoreLaws.v ===== *)
(** * StoreLaws: what the store's queries return and its writes change

    Facts about [ServerStore] the use cases' theorems are built from: the newest
    version of each record and the leaves restored from them, and what pruning leaves alone. *)

From S2P Require Import Prelude Bytes SyncBase Rows Canon Envelope Merkle Head DeviceLog Retention Membership MembershipLog VaultState ServerStore.

(** ** Transactions *)

Lemma TX_bind_run {A B} (m : TX A) (f : A → TX B) d :
  (m ≫= f) d = match m d with (Ok a, d') => f a d' | (Err e, d') => (Err e, d') end.
Proof. done. Qed.
Lemma TX_bind_Ok {A B} (m : TX A) (f : A → TX B) d b d' :
  (m ≫= f) d = (Ok b, d') ↔ ∃ a d1, m d = (Ok a, d1) ∧ f a d1 = (Ok b, d').
Proof. rewrite TX_bind_run. destruct (m d) as [[a|e] d1]; naive_solver. Qed.
Lemma tx_get_Ok d (a d' : DB) : tx_get d = (Ok a, d') ↔ a = d ∧ d' = d.
Proof. unfold tx_get, st_get. naive_solver. Qed.
Lemma tx_put_Ok x d u d' : tx_put x d = (Ok u, d') ↔ d' = x.
Proof. destruct u. unfold tx_put, st_put. naive_solver. Qed.
Lemma tx_lift_Ok {A} (r : result uerror A) d a d' : tx_lift r d = (Ok a, d') ↔ r = Ok a ∧ d' = d.
Proof. unfold tx_lift, st_lift. naive_solver. Qed.
Lemma tx_fail_if_Ok c e d u d' : tx_fail_if c e d = (Ok u, d') ↔ c = false ∧ d' = d.
Proof. destruct u. unfold tx_fail_if, st_fail, st_lift. destruct c; naive_solver. Qed.
Lemma tx_modify_Ok f d u d' : tx_modify f d = (Ok u, d') ↔ d' = f d.
Proof. destruct u. unfold tx_modify. naive_solver. Qed.
Lemma WithTx_Ok {A} (fn : TX A) d a d' : WithTx fn d = (Ok a, d') ↔ fn d = (Ok a, d').
Proof. unfold WithTx. destruct (fn d) as [[a0|e] d1]; naive_solver. Qed.
Lemma WithTx_Err {A} (fn : TX A) d e d' : WithTx fn d = (Err e, d') → d' = d.
Proof. unfold WithTx. destruct (fn d) as [[a|e0] d1]; congruence. Qed.
Lemma fail_if_Err {A} c e0 (f : () → TX A) d e d' :
  (tx_fail_if c e0 ≫= f) d = (Err e, d') → d' = d ∨ f () d = (Err e, d').
Proof. rewrite TX_bind_run. destruct c; cbn; [intros [= <- <-]|]; auto. Qed.
Lemma lift_Err {A B} (r : result uerror A) (f : A → TX B) d e d' :
  (tx_lift r ≫= f) d = (Err e, d') → d' = d ∨ ∃ a, f a d = (Err e, d').
Proof. rewrite TX_bind_run. destruct r; cbn; [eauto|intros [= <- <-]; auto]. Qed.
Lemma lift_domain_Ok {A} (r : result error A) a : lift_domain r = Ok a ↔ r = Ok a.
Proof. destruct r; naive_solver. Qed.

(** Take apart a transaction known to have succeeded. *)
Ltac tx_step H :=
  match type of H with
  | (_ ≫= _) _ = (Ok _, _) => let a := fresh "r" in let d := fresh "d" in let E := fresh "E" in
      apply TX_bind_Ok in H; destruct H as (a & d & E & H); tx_step E
  | tx_get _ = (Ok _, _) => apply tx_get_Ok in H; destruct H as [-> ->]
  | tx_put _ _ = (Ok _, _) => apply tx_put_Ok in H; subst
  | tx_lift _ _ = (Ok _, _) => let E := fresh "E" in apply tx_lift_Ok in H; destruct H as [H ->]
  | tx_fail_if _ _ _ = (Ok _, _) => apply tx_fail_if_Ok in H; destruct H as [H ->]
  | tx_modify _ _ = (Ok _, _) => apply tx_modify_Ok in H; subst
  | WithTx _ _ = (Ok _, _) => apply WithTx_Ok in H; tx_step H
  | _ => idtac
  end.

Lemma tx_for_ind {A} (P : list A → DB → Prop) (f : A → TX unit) (l : list A) (d d' : DB) :
  (∀ x l d d1, P (x :: l) d → f x d = (Ok (), d1) → P l d1) → P l d → tx_for l f d = (Ok (), d') → P [] d'.
Proof.
  intros Hs. revert d. induction l as [|x l IH]; intros d Hp Hf; cbn [tx_for] in Hf.
  - apply tx_lift_Ok in Hf as [_ ->]. done.
  - apply TX_bind_Ok in Hf as ([] & d1 & Hx & Hf). eapply IH, Hf. by eapply Hs.
Qed.

(** ** Newest versions *)

Abbreviation versions := (gmap (ID * ID * Z) VersionRow).

(** [row] is version [n] of record [r] of vault [v], and there is no later one. *)
Definition newest (vm : versions) (v r : ID) (n : Z) (row : VersionRow) : Prop :=
  vm !! (v, r, n) = Some row ∧ ∀ n', is_Some (vm !! (v, r, n')) → n' ≤ n.

(** [L] holds the leaf of the newest version of every record of [v]. *)
Definition leaves_of (vm : versions) (v : ID) (L : gmap ID Leaf) : Prop :=
  ∀ r l, L !! r = Some l ↔ ∃ n row, newest vm v r n row ∧ l = row_leaf ((v, r, n), row).

Definition versions_positive (vm : versions) (v : ID) : Prop := ∀ r n row, vm !! (v, r, n) = Some row → 1 ≤ n ≤ MaxUint64.

Lemma foldr_max_spec (l : list Z) :
  (∀ x, x ∈ l → x ≤ foldr Z.max 0 l) ∧ 0 ≤ foldr Z.max 0 l ∧ (foldr Z.max 0 l = 0 ∨ foldr Z.max 0 l ∈ l).
Proof.
  induction l as [|y l (IH1 & IH2 & IH3)]; cbn.
  - split_and!; [intros x Hx; by apply not_elem_of_nil in Hx|done|by left].
  - split_and!; [intros x [->|Hx%IH1]%elem_of_cons; lia|lia|].
    destruct (Z.max_spec y (foldr Z.max 0 l)) as [[? ->]|[? ->]]; [|right; left].
    destruct IH3 as [?|?]; [by left|right; by right].
Qed.

Lemma max_version_spec d v r :
  (∀ n, is_Some (db_versions d !! (v, r, n)) → n ≤ max_version d v r) ∧ 0 ≤ max_version d v r ∧
  (max_version d v r = 0 ∨ is_Some (db_versions d !! (v, r, max_version d v r))).
Proof.
  destruct (foldr_max_spec ((λ kv : version_entry, kv.1.2) <$>
    filter (λ kv : version_entry, kv.1.1 = (v, r)) (map_to_list (db_versions d)))) as (H1 & H2 & H3).
  fold (max_version d v r) in *. split_and!; [|done|].
  - intros n [row Hr]. apply H1, list_elem_of_fmap. exists ((v, r, n), row). split; [done|].
    apply list_elem_of_filter. split; [done|]. by apply elem_of_map_to_list.
  - destruct H3 as [?|Hin]; [by left|right].
    apply list_elem_of_fmap in Hin as ([[[v' r'] n] row] & E & [Hk Hin]%list_elem_of_filter). cbn in *.
    rewrite E. injection Hk as -> ->. apply elem_of_map_to_list in Hin. rewrite Hin. eauto.
Qed.

Lemma newest_max d v r n row :
  versions_positive (db_versions d) v →
  newest (db_versions d) v r n row ↔ db_versions d !! (v, r, n) = Some row ∧ n = max_version d v r.
Proof.
  intros Hp. destruct (max_version_spec d v r) as (H1 & H2 & H3). split.
  - intros [Hr Hn]. split; [done|]. apply Z.le_antisymm; [apply H1; eauto|].
    destruct H3 as [->|H3]; [|by apply Hn]. apply Hp in Hr. lia.
  - intros [Hr ->]. split; [done|]. apply H1.
Qed.

(** A record with any version has a newest one. *)
Lemma newest_exists vm v r n :
  versions_positive vm v → is_Some (vm !! (v, r, n)) → ∃ n' row, newest vm v r n' row ∧ n ≤ n'.
Proof.
  intros Hp [row Hr].
  pose (d := {| db_accounts := ∅; db_devices := ∅; db_entries := ∅; db_tokens := ∅; db_vaults := ∅; db_ops := ∅; db_members := ∅;
                db_participants := ∅; db_commits := ∅; db_versions := vm; db_invites := ∅ |}).
  destruct (max_version_spec d v r) as (H1 & _ & H3). cbn in H1, H3.
  destruct H3 as [E|[row' Hr']].
  - specialize (H1 n ltac:(eauto)). apply Hp in Hr. lia.
  - exists (max_version d v r), row'. split; [|apply H1; eauto]. apply (newest_max d); done.
Qed.

Lemma newest_unique vm v r n row n' row' : newest vm v r n row → newest vm v r n' row' → n = n' ∧ row = row'.
Proof. intros [Hr Hn] [Hr' Hn']. assert (n = n') as -> by (apply Z.le_antisymm; eauto). split; [done|congruence]. Qed.

Lemma elem_of_current_rows d v kv :
  versions_positive (db_versions d) v →
  kv ∈ current_rows d v ↔ kv.1.1.1 = v ∧ newest (db_versions d) v kv.1.1.2 kv.1.2 kv.2.
Proof.
  intros Hp. destruct kv as [[[v' r] n] row]. unfold current_rows, currentVersion.
  rewrite list_elem_of_filter, elem_of_map_to_list. cbn. split.
  - intros ([-> E%Z.eqb_eq] & Hr). split; [done|]. by apply newest_max.
  - intros [-> [Hr ->]%newest_max]; [|done]. by rewrite Z.eqb_refl.
Qed.

Lemma elem_of_CurrentLeaves d v l :
  versions_positive (db_versions d) v →
  l ∈ CurrentLeaves d v ↔ ∃ r n row, newest (db_versions d) v r n row ∧ l = row_leaf ((v, r, n), row).
Proof.
  intros Hp. unfold CurrentLeaves. rewrite list_elem_of_fmap. split.
  - intros ([[[v' r] n] row] & -> & [E Hn]%elem_of_current_rows); [|done]. cbn in *. subst. eauto.
  - intros (r & n & row & Hn & ->). exists ((v, r, n), row). split; [done|]. by apply elem_of_current_rows.
Qed.

Lemma NoDup_CurrentLeaves d v : versions_positive (db_versions d) v → NoDup (l_Record <$> CurrentLeaves d v).
Proof.
  intros Hp. unfold CurrentLeaves. rewrite <- list_fmap_compose. apply NoDup_fmap_2_strong.
  - intros [[[v1 r1] n1] row1] [[[v2 r2] n2] row2] [E1 H1]%elem_of_current_rows [E2 H2]%elem_of_current_rows E; [|done..].
    cbn in *. subst. by destruct (newest_unique _ _ _ _ _ _ _ H1 H2) as [-> ->].
  - apply NoDup_filter, NoDup_map_to_list.
Qed.

(** What the stored leaves restore to. *)
Lemma restore_current d v L :
  versions_positive (db_versions d) v →
  foldM restoreLeaf ∅ (CurrentLeaves d v) = Ok L ↔ leaves_of (db_versions d) v L.
Proof.
  intros Hp. assert (∀ L, leaves_of (db_versions d) v L → foldM restoreLeaf ∅ (CurrentLeaves d v) = Ok L) as Hr.
  { clear L. intros L HL. apply restore_keyed; [by apply NoDup_CurrentLeaves| |].
    - intros l. rewrite elem_of_CurrentLeaves by done. rewrite (HL (l_Record l) l). split.
      + intros (r & n & row & Hn & ->). eauto.
      + intros (n & row & Hn & E). eauto.
    - intros id l Hl. apply HL in Hl as (n & row & _ & ->). done. }
  split; [|apply Hr]. intros Hf r l. rewrite (restore_loop _ _ _ Hf r), lookup_empty.
  destruct (List.find _ _) as [l'|] eqn:Ef.
  - apply find_some in Ef as [Hin Hd]. bool_simpl. apply list_elem_of_In, elem_of_CurrentLeaves in Hin; [|done].
    destruct Hin as (r' & n & row & Hn & ->). cbn in Hd. subst r'. split.
    + intros [= <-]. eauto.
    + intros (n' & row' & Hn' & ->). by destruct (newest_unique _ _ _ _ _ _ _ Hn Hn') as [-> ->].
  - split; [done|]. intros (n & row & Hn & ->).
    assert (row_leaf ((v, r, n), row) ∈ CurrentLeaves d v) as Hin by (apply elem_of_CurrentLeaves; eauto).
    apply list_elem_of_In, (find_none _ _ Ef) in Hin. by rewrite bool_decide_eq_true_2 in Hin.
Qed.

Lemma leaf_version_newest vm v L r n :
  leaves_of vm v L → versions_positive vm v → is_Some (vm !! (v, r, n)) → n ≤ leaf_version L r.
Proof.
  intros HL Hp Hs. destruct (newest_exists vm v r n Hp Hs) as (n' & row & Hn & ?). unfold leaf_version.
  rewrite (proj2 (HL r (row_leaf ((v, r, n'), row)))); [done|eauto].
Qed.

Lemma leaf_version_range vm v L r : leaves_of vm v L → versions_positive vm v → 0 ≤ leaf_version L r ≤ MaxUint64.
Proof.
  intros HL Hp. unfold leaf_version. destruct (L !! r) as [l|] eqn:E; cbn; [|done].
  apply HL in E as (n & row & [Hn _] & ->). apply Hp in Hn. cbn. lia.
Qed.

(** ** Storing record versions *)

Lemma set_versions_id d : set_versions (db_versions d) d = d.
Proof. by destruct d. Qed.

(** The rows of [vm'] that [vm] lacks are of vault [v] and landed with commit [q]. *)
Record added (v : ID) (q : Z) (vm vm' : versions) : Prop := {
  ad_rows : ∀ k row, vm' !! k = Some row → vm !! k = Some row ∨ k.1.1 = v ∧ 1 ≤ k.2 ≤ MaxUint64 ∧ rv_Seq row = q;
  ad_other : ∀ k, k.1.1 ≠ v → vm' !! k = vm !! k;
}.

Lemma added_positive v q vm vm' : added v q vm vm' → versions_positive vm v → versions_positive vm' v.
Proof. intros [Hr _] Hp r n row [H|(_&H&_)]%Hr; [by eapply Hp|done]. Qed.

Section insert.
Context `{Crypto}.

Lemma insertVersion_Ok v q e d d' :
  insertVersion v q e d = (Ok (), d') →
  ∃ row, d' = set_versions (<[(v, e_Record e, e_Version e) := row]> (db_versions d)) d ∧
         row_leaf ((v, e_Record e, e_Version e), row) = leaf_of e ∧ rv_Seq row = q.
Proof.
  unfold insertVersion. intros Hi. tx_step Hi. tx_step Hi. tx_step Hi. tx_step Hi. apply lift_domain_Ok, Envelope_Digest_Ok in E as (_&_&->).
  eexists. split; [reflexivity|]. done.
Qed.

Lemma newest_insert vm v r n row L :
  leaves_of vm v L → versions_positive vm v → leaf_version L r < n →
  leaves_of (<[(v, r, n) := row]> vm) v (<[r := row_leaf ((v, r, n), row)]> L).
Proof.
  intros HL Hp Hn r' l. assert (newest (<[(v, r, n) := row]> vm) v r n row) as Hnew.
  { split; [by rewrite lookup_insert_eq|]. intros n' Hs. destruct (decide (n' = n)) as [->|]; [done|].
    rewrite lookup_insert_ne in Hs by congruence. eapply leaf_version_newest in Hs; [|done..]. lia. }
  destruct (decide (r' = r)) as [->|Hne].
  - rewrite lookup_insert_eq. split; [intros [= <-]; eauto|].
    intros (n' & row' & Hn' & ->). by destruct (newest_unique _ _ _ _ _ _ _ Hnew Hn') as [-> ->].
  - rewrite lookup_insert_ne by done. rewrite (HL r' l). unfold newest.
    setoid_rewrite lookup_insert_ne; [done|congruence..].
Qed.

(** The versions a commit may write: each record once, at the version after the newest. *)
Definition writable (L : gmap ID Leaf) (e : Envelope) : Prop :=
  e_Version e = leaf_version L (e_Record e) + 1 ∧ e_Version e ≤ MaxUint64.

Lemma insertVersions_Ok v q L es d d' :
  tx_for es (insertVersion v q) d = (Ok (), d') →
  leaves_of (db_versions d) v L → versions_positive (db_versions d) v →
  NoDup (e_Record <$> es) → Forall (writable L) es →
  d' = set_versions (db_versions d') d ∧ added v q (db_versions d) (db_versions d') ∧
  leaves_of (db_versions d') v (install L es).
Proof.
  revert d L. induction es as [|e es IH]; intros d L Hf HL Hp Hnd HF; cbn [tx_for] in Hf.
  - apply tx_lift_Ok in Hf as [_ ->]. rewrite set_versions_id. split_and!; [done| |done]. constructor; auto.
  - apply TX_bind_Ok in Hf as ([] & d1 & Hi & Hf). apply insertVersion_Ok in Hi as (row & -> & Hleaf & Hq).
    cbn in Hnd. apply NoDup_cons in Hnd as [Hnin Hnd]. apply Forall_cons in HF as [[Hv Hm] HF].
    pose proof (leaf_version_range _ _ _ (e_Record e) HL Hp) as Hrange.
    assert (added v q (db_versions d) (<[(v, e_Record e, e_Version e) := row]> (db_versions d))) as Ha.
    { constructor.
      - intros k row' [[<- <-]|[_ Hk]]%lookup_insert_Some; [right|by left]. cbn. split_and!; [done|lia|lia|done].
      - intros k Hk. rewrite lookup_insert_ne; [done|]. intros <-. done. }
    destruct (IH _ (<[e_Record e := leaf_of e]> L) Hf) as (E & [Hr Ho] & Hl); [..|done| |].
    + rewrite <- Hleaf. apply newest_insert; [done..|lia].
    + by eapply added_positive.
    + apply Forall_forall. intros e' He'. rewrite Forall_forall in HF. destruct (HF e' He') as [? ?]. split; [|done].
      unfold leaf_version. rewrite lookup_insert_ne; [done|]. intros Ee. apply Hnin. rewrite Ee. by apply list_elem_of_fmap_2.
    + split_and!; [exact E| |done]. destruct Ha as [Hr1 Ho1]. constructor.
      * intros k row' [Hk|Hk]%Hr; [by apply Hr1|by right].
      * intros k Hk. by rewrite Ho, <- Ho1.
Qed.
End insert.

(** ** Deleting record versions *)

Definition stored_after (vm : versions) (v : ID) : Prop := ∀ r n row, vm !! (v, r, n) = Some row → 1 ≤ rv_Seq row.

Lemma deleteVersions_run v P d :
  stored_after (db_versions d) v → (∀ k row, P k row = true → k.1.1 = v) →
  ∃ q, deleteVersions P d = (Ok q, set_versions (filter (λ kv : version_entry, P kv.1 kv.2 = false) (db_versions d)) d).
Proof.
  intros Hs HP. unfold deleteVersions. rewrite TX_bind_run. unfold tx_get at 1. rewrite st_get_run.
  set (sel := filter _ (map_to_list _)). set (q := foldr Z.max 0 _). destruct (Z.eqb_spec q 0) as [E|E].
  - exists 0. assert (filter (λ kv : version_entry, P kv.1 kv.2 = false) (db_versions d) = db_versions d) as ->;
      [|by rewrite set_versions_id].
    apply map_filter_id. intros k row Hk. cbn. apply not_true_iff_false. intros HPk.
    destruct (foldr_max_spec ((λ kv : version_entry, rv_Seq kv.2) <$> sel)) as (Hmax & _ & _). fold q in Hmax.
    pose proof (HP k row HPk) as Hv. destruct k as [[v' r] n]. cbn in Hv. subst v'.
    specialize (Hs r n row Hk). specialize (Hmax (rv_Seq row)). rewrite E in Hmax.
    assert (rv_Seq row ≤ 0); [|lia]. apply Hmax, list_elem_of_fmap. exists ((v, r, n), row). split; [done|].
    apply list_elem_of_filter. split; [done|]. by apply elem_of_map_to_list.
  - eexists. rewrite TX_bind_run. done.
Qed.

(** [vm'] is [vm] without some superseded versions of vault [v]. *)
Record thinned (v : ID) (vm vm' : versions) : Prop := {
  th_sub : vm' ⊆ vm;
  th_other : ∀ k, k.1.1 ≠ v → vm' !! k = vm !! k;
  th_newest : ∀ r n row, newest vm v r n row → vm' !! (v, r, n) = Some row;
}.

Lemma thinned_refl v vm : thinned v vm vm.
Proof. constructor; [done|done|by intros ??? []]. Qed.

Lemma newest_sub vm vm' v r n row : vm' ⊆ vm → newest vm v r n row → vm' !! (v, r, n) = Some row → newest vm' v r n row.
Proof. intros Hs [_ Hn] Hr. split; [done|]. intros n' [row' Hr']. apply Hn. eexists. by eapply lookup_weaken. Qed.

Lemma thinned_trans v vm1 vm2 vm3 : thinned v vm1 vm2 → thinned v vm2 vm3 → thinned v vm1 vm3.
Proof.
  intros [S1 O1 N1] [S2 O2 N2]. constructor; [by etrans|intros; by rewrite O2, O1|].
  intros r n row Hn. apply N2. eapply newest_sub; eauto.
Qed.

Lemma thinned_positive v vm vm' : thinned v vm vm' → versions_positive vm v → versions_positive vm' v.
Proof. intros [S _ _] Hp r n row Hr. eapply Hp, lookup_weaken; eauto. Qed.
Lemma thinned_stored v vm vm' : thinned v vm vm' → stored_after vm v → stored_after vm' v.
Proof. intros [S _ _] Hp r n row Hr. eapply Hp, lookup_weaken; eauto. Qed.

(** Thinning keeps the newest versions, so the leaves. *)
Lemma thinned_leaves v vm vm' L : thinned v vm vm' → versions_positive vm v → leaves_of vm v L → leaves_of vm' v L.
Proof.
  intros [S O N] Hp HL r l. rewrite (HL r l). split; intros (n & row & Hn & ->); exists n, row; (split; [|done]).
  - eapply newest_sub; eauto.
  - destruct (newest_exists vm v r n Hp) as (n' & row' & Hn' & _); [eexists; eapply lookup_weaken; [apply Hn|done]|].
    assert (newest vm' v r n' row') as Hn2 by (eapply newest_sub; eauto).
    by destruct (newest_unique _ _ _ _ _ _ _ Hn Hn2) as [-> ->].
Qed.

Lemma thinned_filter v vm P :
  (∀ k row, P k row = true → k.1.1 = v) → (∀ r n row, newest vm v r n row → P (v, r, n) row = false) →
  thinned v vm (filter (λ kv : version_entry, P kv.1 kv.2 = false) vm).
Proof.
  intros HP Hn. constructor; [apply map_filter_subseteq| |].
  - intros k Hk. rewrite map_lookup_filter. destruct (vm !! k) as [row|] eqn:E; [|done]. cbn.
    rewrite option_guard_True; [done|]. cbn. destruct (P k row) eqn:EP; [by apply HP in EP|done].
  - intros r n row Hr. apply map_lookup_filter_Some. split; [apply Hr|]. by apply Hn.
Qed.

Lemma DeleteSuperseded_Ok v cutoff d q d' :
  DeleteSuperseded v cutoff d = (Ok q, d') → stored_after (db_versions d) v →
  d' = set_versions (db_versions d') d ∧ thinned v (db_versions d) (db_versions d').
Proof.
  unfold DeleteSuperseded. intros Hd Hs. tx_step Hd. tx_step Hd.
  destruct (deleteVersions_run v (λ k _, supersededAt d v cutoff k) d Hs) as [q' Hr].
  { unfold supersededAt. intros k _ [E _]%andb_true_iff. by bool_simpl. }
  rewrite Hr in Hd. injection Hd as _ <-. split; [done|].
  apply (thinned_filter v _ (λ k _, supersededAt d v cutoff k)).
  - unfold supersededAt. intros k _ [E _]%andb_true_iff. by bool_simpl.
  - intros r n row [_ Hn]. unfold supersededAt. apply andb_false_iff. right. cbn.
    destruct (db_versions d !! (v, r, n + 1)) as [nx|] eqn:E; [|done]. specialize (Hn (n + 1) ltac:(eauto)). lia.
Qed.

Lemma DeleteEpochVersions_Ok v epochs d q d' :
  DeleteEpochVersions v epochs d = (Ok q, d') → stored_after (db_versions d) v → versions_positive (db_versions d) v →
  d' = set_versions (db_versions d') d ∧ thinned v (db_versions d) (db_versions d').
Proof.
  unfold DeleteEpochVersions. intros Hd Hs Hp. destruct (len epochs =? 0).
  { tx_step Hd. rewrite set_versions_id. split; [done|apply thinned_refl]. }
  tx_step Hd. tx_step Hd.
  set (P := λ (k : ID * ID * Z) rv, (k.1.1 =?? v) && bool_decide (rv_Epoch rv ∈ epochs) && (k.2 <? max_version d k.1.1 k.1.2)) in Hd.
  assert (∀ k row, P k row = true → k.1.1 = v) as HP by (unfold P; intros; bool_simpl; done).
  destruct (deleteVersions_run v P d Hs HP) as [q' Hr]. rewrite Hr in Hd. injection Hd as _ <-. split; [done|].
  apply (thinned_filter v _ P); [done|]. intros r n row [_ ->]%newest_max; [|done]. unfold P. cbn. rewrite Z.ltb_irrefl. by rewrite andb_false_r.
Qed.

(** A purge takes every version of the purged records. *)
Lemma DeleteRecords_Ok v ids newest0 d q d' L :
  DeleteRecords v ids newest0 d = (Ok q, d') → stored_after (db_versions d) v → leaves_of (db_versions d) v L →
  d' = set_versions (db_versions d') d ∧ db_versions d' ⊆ db_versions d ∧
  (∀ k, k.1.1 ≠ v → db_versions d' !! k = db_versions d !! k) ∧ leaves_of (db_versions d') v (discard L ids).
Proof.
  revert newest0 d L. induction ids as [|i ids IH]; intros n0 d L Hd Hs HL; cbn [DeleteRecords] in Hd.
  - tx_step Hd. rewrite set_versions_id. done.
  - set (P := λ (k : ID * ID * Z) (_ : VersionRow), (k.1.1 =?? v) && (k.1.2 =?? i)) in Hd.
    assert (∀ k row, P k row = true → k.1.1 = v) as HP by (unfold P; intros; bool_simpl; done).
    destruct (deleteVersions_run v P d Hs HP) as [q' Hr]. rewrite TX_bind_run, Hr in Hd.
    set (vm1 := filter _ (db_versions d)) in *.
    assert (∀ r n, vm1 !! (v, r, n) = if decide (r = i) then None else db_versions d !! (v, r, n)) as Hvm.
    { intros r n. unfold vm1. rewrite map_lookup_filter. destruct (db_versions d !! (v, r, n)); [|by case_decide].
      cbn. unfold P. cbn. rewrite bool_decide_eq_true_2 by done. cbn.
      case_decide as Ei; [rewrite option_guard_False|rewrite option_guard_True]; [done| |done|];
        rewrite bool_decide_eq_false; [by intros []|done]. }
    apply IH with (L := delete i L) in Hd.
    + destruct Hd as (E & Hsub & Ho & Hl). split_and!; [exact E| | |exact Hl].
      * etrans; [exact Hsub|]. apply map_filter_subseteq.
      * intros k Hk. rewrite Ho by done. cbn [db_versions set_versions]. unfold vm1. rewrite map_lookup_filter.
        destruct (db_versions d !! k) as [row|] eqn:Ek; [|done]. cbn. rewrite option_guard_True; [done|].
        destruct (P k row) eqn:EP; [by apply HP in EP|done].
    + intros r n row Hrow. cbn in Hrow. rewrite Hvm in Hrow. case_decide; [done|]. by eapply Hs.
    + intros r l. cbn [db_versions set_versions]. unfold newest. setoid_rewrite Hvm.
      destruct (decide (r = i)) as [->|Hne].
      * rewrite lookup_delete_eq. split; [done|]. by intros (n & row & [? _] & _).
      * rewrite lookup_delete_ne by done. apply HL.
Qed.
