(* ===== verification/ServerLaws.v ===== *)
(** * ServerLaws: the server stores exactly the histories the protocol accepts

    The stored rows of a vault represent a [VaultState] and a [MembershipState]; the use cases of
    [Server] are proved to move them by the domain's own rules, and pruning to leave both as they
    were. *)

From S2P Require Import Prelude Bytes SyncBase Rows Canon Sha2 Envelope Merkle HashChain Head DeviceLog Retention Membership MembershipLog VaultState ServerStore Server StoreLaws.

(** ** Pruning *)

(** Two rows of the vaults table that differ in bookkeeping a prune may change. *)
Record vault_same (a b : Vault) : Prop := {
  vsm_owner : va_Owner b = va_Owner a;
  vsm_seq : va_Seq b = va_Seq a;
  vsm_mseq : va_MembershipSeq b = va_MembershipSeq a;
  vsm_personal : va_Personal b = va_Personal a;
  vsm_deleted : va_Deleted b = va_Deleted a;
}.

#[export] Instance vault_same_pre : PreOrder vault_same.
Proof. split; [intros x; done|]. intros a b c [] []. constructor; congruence. Qed.

#[export] Instance wraps_stripped_pre : PreOrder wraps_stripped.
Proof.
  split.
  - intros ws. unfold wraps_stripped. apply Forall_Forall2_diag, Forall_true. auto.
  - intros a b c Hab. revert c. induction Hab as [|w w' ws ws' Hw _ IH]; intros c Hbc; inversion Hbc as [|? w'' ? c' Hw' Hc]; subst;
      constructor; [|by apply IH]. destruct Hw as [->| ->], Hw' as [->| ->]; auto.
Qed.
#[export] Instance op_stripped_pre : PreOrder op_stripped.
Proof.
  split.
  - intros op. exists (op_Wraps op). split; [reflexivity|by destruct op].
  - intros a b c (ws & Hw & ->) (ws' & Hw' & ->). exists ws'. split; [|done]. cbn in Hw'. by etrans.
Qed.

Record pruned (v : ID) (d d' : DB) : Prop := {
  pr_accounts : db_accounts d' = db_accounts d;
  pr_devices : db_devices d' = db_devices d;
  pr_entries : db_entries d' = db_entries d;
  pr_tokens : db_tokens d' = db_tokens d;
  pr_members : db_members d' = db_members d;
  pr_participants : db_participants d' = db_participants d;
  pr_commits : db_commits d' = db_commits d;
  pr_vaults : ∀ v', option_Forall2 vault_same (db_vaults d !! v') (db_vaults d' !! v');
  pr_ops : ∀ k, option_Forall2 op_stripped (db_ops d !! k) (db_ops d' !! k);
  pr_ops_other : ∀ k, k.1 ≠ v → db_ops d' !! k = db_ops d !! k;
  pr_versions : thinned v (db_versions d) (db_versions d');
}.

Lemma pruned_refl v d : pruned v d d.
Proof. constructor; try done; intros; reflexivity || apply thinned_refl. Qed.
Lemma pruned_trans v d1 d2 d3 : pruned v d1 d2 → pruned v d2 d3 → pruned v d1 d3.
Proof.
  intros [] []. constructor; try congruence.
  - intros v'. eapply (transitivity (R := option_Forall2 vault_same)); [apply pr_vaults0|apply pr_vaults1].
  - intros k. eapply (transitivity (R := option_Forall2 op_stripped)); [apply pr_ops0|apply pr_ops1].
  - intros k Hk. by rewrite pr_ops_other1, pr_ops_other0.
  - by eapply thinned_trans.
Qed.

Lemma pruned_versions v d vm : thinned v (db_versions d) vm → pruned v d (set_versions vm d).
Proof. intros. constructor; try done; intros; reflexivity. Qed.

Lemma pruned_vault v d f : (∀ x, vault_same x (f x)) → pruned v d (UpdateVault v f d).
Proof.
  intros Hf. constructor; try done; try (intros; reflexivity); [|apply thinned_refl].
  intros v'. unfold UpdateVault. cbn. rewrite lookup_alter. case_decide; [subst v'|reflexivity].
  destruct (db_vaults d !! v); cbn; constructor. apply Hf.
Qed.

Lemma RaisePrunedSeq_pruned v q d d' : RaisePrunedSeq v q d = (Ok (), d') → pruned v d d'.
Proof. unfold RaisePrunedSeq. intros ->%tx_modify_Ok. by apply pruned_vault. Qed.
Lemma RecomputeBytes_pruned v d d' : RecomputeBytes v d = (Ok (), d') → pruned v d d'.
Proof. unfold RecomputeBytes. intros ->%tx_modify_Ok. by apply pruned_vault. Qed.

Definition ops_keyed (d : DB) (v : ID) : Prop := ∀ q op, db_ops d !! (v, q) = Some op → op_Seq op = q.

Lemma elem_of_MemberOps d v op : op ∈ MemberOps d v ↔ ∃ q, db_ops d !! (v, q) = Some op.
Proof.
  unfold MemberOps. rewrite list_elem_of_fmap. split.
  - intros ([[v' q] op'] & -> & [Hv Hk]%elem_of_rows). cbn in *. subst. eauto.
  - intros [q Hq]. exists ((v, q), op). split; [done|]. by apply elem_of_rows.
Qed.

Lemma stripRetiredWraps_pruned v retired d d' :
  stripRetiredWraps v retired d = (Ok (), d') → ops_keyed d v → pruned v d d'.
Proof.
  unfold stripRetiredWraps. intros Hs Hk. destruct (len retired =? 0); [tx_step Hs; apply pruned_refl|].
  tx_step Hs. tx_step Hs. unfold ReplaceMemberOps in Hs.
  apply (tx_for_ind (λ l d1, pruned v d d1 ∧
    ∀ op, op ∈ l → ∃ op0, db_ops d !! (v, op_Seq op) = Some op0 ∧ op = op_strip op0)) in Hs; [by apply Hs| |].
  - intros op l d1 d2 [Hp Hl] ->%tx_modify_Ok. split; [|intros op' Hop'; apply Hl; by right].
    destruct (Hl op ltac:(left)) as (op0 & H0 & Eop). destruct Hp. constructor; try done.
    + intros k. cbn. rewrite lookup_alter. case_decide as Hd; [|done]. subst k. specialize (pr_ops0 (v, op_Seq op)).
      rewrite H0 in *. inversion pr_ops0 as [? op1 Ho E1 E2|]. cbn. constructor. rewrite Eop. apply op_strip_stripped.
    + intros k Hne. cbn. rewrite lookup_alter_ne; [by apply pr_ops_other0|]. intros <-. done.
  - split; [apply pruned_refl|]. intros op (op0 & -> & [_ [q Hq]%elem_of_MemberOps]%list_elem_of_filter)%list_elem_of_fmap.
    exists op0. split; [|done]. cbn. by rewrite (Hk q op0 Hq).
Qed.

Lemma ops_keyed_pruned v d d' : pruned v d d' → ops_keyed d v → ops_keyed d' v.
Proof.
  intros Hp Hk q op' Ho. pose proof (pr_ops _ _ _ Hp (v, q)) as Hr. rewrite Ho in Hr.
  inversion Hr as [op ? (ws & _ & ->) E|]. cbn. by eapply Hk.
Qed.

Lemma pruneVault_pruned v m now d d' :
  pruneVault v m now d = (Ok (), d') → ops_keyed d v → stored_after (db_versions d) v → versions_positive (db_versions d) v →
  pruned v d d'.
Proof.
  unfold pruneVault. intros Hp Hk Hs Hv. apply TX_bind_Ok in Hp as (q1 & d1 & H1 & Hp).
  assert (pruned v d d1) as P1.
  { destruct (_ <=? now); [|tx_step H1; apply pruned_refl].
    apply DeleteSuperseded_Ok in H1 as [-> Ht]; [|done]. by apply pruned_versions. }
  apply TX_bind_Ok in Hp as (d1' & d1'' & [-> ->]%tx_get_Ok & Hp).
  apply TX_bind_Ok in Hp as (q2 & d2 & H2 & Hp).
  assert (pruned v d1 d2) as P2.
  { apply DeleteEpochVersions_Ok in H2 as [-> Ht]; [by apply pruned_versions| |].
    - eapply thinned_stored; [apply P1|done].
    - eapply thinned_positive; [apply P1|done]. }
  pose proof (pruned_trans _ _ _ _ P1 P2) as P12.
  apply TX_bind_Ok in Hp as ([] & d3 & H3%stripRetiredWraps_pruned & Hp); [|by eapply ops_keyed_pruned].
  apply TX_bind_Ok in Hp as ([] & d4 & H4 & Hp%RecomputeBytes_pruned).
  assert (pruned v d3 d4) as P4 by (destruct (0 <? _); [by eapply RaisePrunedSeq_pruned|tx_step H4; apply pruned_refl]).
  eauto using pruned_trans.
Qed.

(** ** The state the rows represent *)

(** The bookkeeping of one vault agrees with its rows. *)
Record vault_wf (d : DB) (v : ID) (vt : Vault) : Prop := {
  vw_row : db_vaults d !! v = Some vt;
  vw_seq : 0 ≤ va_Seq vt;
  vw_commits : ∀ q row, db_commits d !! (v, q) = Some row → 1 ≤ q ≤ va_Seq vt ∧ h_Seq (cr_Head row) = q;
  vw_last : va_Seq vt = 0 ∨ is_Some (db_commits d !! (v, va_Seq vt));
  vw_positive : versions_positive (db_versions d) v;
  vw_stored : stored_after (db_versions d) v;
  vw_ops : ops_keyed d v;
}.

Lemma LatestHead_wf d v vt :
  vault_wf d v vt →
  (va_Seq vt = 0 ∧ LatestHead d v = None) ∨
  (∃ row, db_commits d !! (v, va_Seq vt) = Some row ∧ LatestHead d v = Some (cr_Head row) ∧ h_Seq (cr_Head row) = va_Seq vt).
Proof.
  intros []. unfold LatestHead. destruct vw_last0 as [E|[row Hr]].
  - left. split; [done|]. destruct (list.last _) as [[[v' q] row]|] eqn:El; [|done].
    apply last_Some_elem_of, elem_of_rows in El as [Hv Hq]. cbn in *. subst. apply vw_commits0 in Hq. lia.
  - right. exists row. split; [done|]. erewrite rows_last; [|exact Hr|].
    + split; [done|]. by destruct (vw_commits0 _ _ Hr).
    + intros q' a' Hq. destruct (vw_commits0 _ _ Hq). lia.
Qed.

Section state.
Context `{Crypto}.

Lemma CurrentLeaves_nil d v : versions_positive (db_versions d) v → leaves_of (db_versions d) v ∅ → CurrentLeaves d v = [].
Proof.
  intros Hp HL. apply elem_of_nil_inv. intros l Hl. apply elem_of_CurrentLeaves in Hl as (r & n & row & Hn & ->); [|done].
  assert ((∅ : gmap ID Leaf) !! r = Some (row_leaf ((v, r, n), row))) as E by (apply HL; eauto). by rewrite lookup_empty in E.
Qed.

Lemma currentState_Ok d v s :
  versions_positive (db_versions d) v →
  currentState d v = Ok s ↔
  vs_vault s = v ∧ leaves_of (db_versions d) v (vs_leaves s) ∧ from_option (headed s) (s = vault_genesis v) (LatestHead d v).
Proof.
  intros Hp. unfold currentState. rewrite lift_domain_Ok. split.
  - intros (<- & Hl & Hh)%RestoreVaultStateFromLeaves_Ok. split_and!; [done|by apply restore_current|].
    destruct (LatestHead d (vs_vault s)); cbn in *; [done|by destruct Hh].
  - intros (<- & Hl & Hh). destruct (LatestHead d (vs_vault s)) as [h|]; cbn in Hh.
    + apply headed_restored; [done|]. by apply restore_current.
    + rewrite Hh in Hl. rewrite CurrentLeaves_nil; [|done|by apply Hl].
      unfold RestoreVaultStateFromLeaves. rewrite NewVaultState_eq, bind_ok_l. cbn. by rewrite Hh at 2.
Qed.

Lemma replayMembership_Ok d v m :
  replayMembership d v = Ok m ↔ foldM (member_step (signatureCheck d)) (membership_genesis v) (MemberOps d v) = Ok m.
Proof. unfold replayMembership. rewrite NewMembershipState_eq. cbn [lift_domain]. by rewrite bind_ok_l, lift_domain_Ok. Qed.

Lemma MemberOps_pruned v d d' : pruned v d d' → Forall2 op_stripped (MemberOps d v) (MemberOps d' v).
Proof.
  intros Hp. unfold MemberOps.
  rewrite (rows_map (db_ops d) (db_ops d') v (λ kv, default kv.2 (db_ops d' !! kv.1))).
  - apply Forall2_fmap_2, Forall2_fmap_r, Forall_Forall2_diag, Forall_forall. intros [[v' q] op] [Hv Hq]%elem_of_rows.
    cbn in *. pose proof (pr_ops _ _ _ Hp (v', q)) as Hr. rewrite Hq in Hr. by inversion Hr.
  - intros q. cbn. pose proof (pr_ops _ _ _ Hp (v, q)) as Hr. by inversion Hr.
Qed.

Lemma signatureCheck_devices d d' : db_devices d' = db_devices d → signatureCheck d' = signatureCheck d.
Proof. unfold signatureCheck, DeviceByID. by intros ->. Qed.

(** Pruning changes neither the members nor the records of a vault. *)
Lemma replayMembership_pruned v d d' m : pruned v d d' → replayMembership d v = Ok m → replayMembership d' v = Ok m.
Proof.
  intros Hp. rewrite !replayMembership_Ok, (signatureCheck_devices d d') by apply Hp.
  apply replay_stripped, MemberOps_pruned, Hp.
Qed.

Lemma LatestHead_commits d d' v : db_commits d' = db_commits d → LatestHead d' v = LatestHead d v.
Proof. unfold LatestHead. by intros ->. Qed.

Lemma currentState_pruned v d d' s :
  pruned v d d' → versions_positive (db_versions d) v → currentState d v = Ok s → currentState d' v = Ok s.
Proof.
  intros Hp Hv. rewrite !currentState_Ok; [|eapply thinned_positive; [apply Hp|done]|done].
  rewrite (LatestHead_commits d d') by apply Hp. intros (?&?&?). split_and!; [done| |done].
  eapply thinned_leaves; [apply Hp|done|done].
Qed.

Lemma vault_wf_pruned v d d' vt : pruned v d d' → vault_wf d v vt → ∃ vt', vault_wf d' v vt' ∧ vault_same vt vt'.
Proof.
  intros Hp []. pose proof (pr_vaults _ _ _ Hp v) as Hr. rewrite vw_row0 in Hr. inversion Hr as [? vt' Hs E1 E2|]. exists vt'.
  split; [|done]. pose proof (vsm_seq _ _ Hs) as Eseq. constructor; rewrite ?Eseq, ?(pr_commits _ _ _ Hp); try done.
  - eapply thinned_positive; [apply Hp|done].
  - eapply thinned_stored; [apply Hp|done].
  - by eapply ops_keyed_pruned.
Qed.

(** ** Storing a commit *)

Lemma record_ok_writable v a k ep L vm e :
  leaves_of vm v L → versions_positive vm v → record_ok v a k ep L e → writable L e.
Proof.
  intros HL Hp [_ _ Hv Hn _]. apply Envelope_Verify_Validate, Envelope_Validate_Ok in Hv as (_&_&_&Hv&_).
  pose proof (leaf_version_range _ _ _ (e_Record e) HL Hp) as Hr. rewrite Hn in Hv. unfold writable. rewrite Hn.
  destruct (decide (leaf_version L (e_Record e) = MaxUint64)) as [E|E].
  - exfalso. apply Hv. rewrite E. reflexivity.
  - rewrite wrap64_succ; solve_uint.
Qed.

Lemma InsertCommit_Ok v q c received d d' L :
  InsertCommit v q c received d = (Ok (), d') →
  leaves_of (db_versions d) v L → versions_positive (db_versions d) v →
  NoDup (e_Record <$> c_Records c) → Forall (writable L) (c_Records c) →
  d' = set_versions (db_versions d') (set_commits (<[(v, q) := {| cr_CommitID := h_Commit (c_Head c); cr_Head := c_Head c;
         cr_Purged := c_Purged c; cr_Received := received |}]> (db_commits d)) d) ∧
  added v q (db_versions d) (db_versions d') ∧ leaves_of (db_versions d') v (install L (c_Records c)).
Proof.
  unfold InsertCommit. intros Hi HL Hp Hnd HF. tx_step Hi. tx_step Hi. tx_step Hi. tx_step Hi.
  by eapply insertVersions_Ok in Hi.
Qed.

Lemma deletePurged_Ok v ids d d' L :
  deletePurged v ids d = (Ok (), d') → stored_after (db_versions d) v → leaves_of (db_versions d) v L →
  ∃ d1, pruned v d1 d' ∧ db_versions d' = db_versions d1 ∧ d1 = set_versions (db_versions d1) d ∧ db_versions d1 ⊆ db_versions d ∧
    leaves_of (db_versions d1) v (discard L ids).
Proof.
  unfold deletePurged. intros Hd Hs HL. apply TX_bind_Ok in Hd as (q & d1 & Hr & Hd). exists d1.
  destruct (DeleteRecords_Ok v ids 0 d q d1 L Hr Hs HL) as (E & Hsub & _ & Hl). split_and!; [|..|done|done].
  - destruct (q =? 0); [tx_step Hd; apply pruned_refl|by eapply RaisePrunedSeq_pruned].
  - destruct (q =? 0); tx_step Hd; [done|]. unfold RaisePrunedSeq in Hd. by apply tx_modify_Ok in Hd as ->.
  - done.
Qed.

(** The database between storing a commit and pruning: the commit's row and the vault's new position
    are in, and the purged records are out. *)
Record landed (v : ID) (q bytes : Z) (row : CommitRow) (d d' : DB) : Prop := {
  la_accounts : db_accounts d' = db_accounts d;
  la_devices : db_devices d' = db_devices d;
  la_members : db_members d' = db_members d;
  la_ops : db_ops d' = db_ops d;
  la_commits : db_commits d' = <[(v, q) := row]> (db_commits d);
  la_vault : ∀ vt, db_vaults d !! v = Some vt → db_vaults d' !! v = Some {| va_Owner := va_Owner vt; va_Seq := q;
    va_MembershipSeq := va_MembershipSeq vt; va_Bytes := bytes; va_Personal := va_Personal vt; va_Deleted := va_Deleted vt;
    va_PrunedSeq := va_PrunedSeq vt |};
  la_versions : ∀ k x, db_versions d' !! k = Some x → db_versions d !! k = Some x ∨ k.1.1 = v ∧ 1 ≤ k.2 ≤ MaxUint64 ∧ rv_Seq x = q;
}.

Lemma landed_wf v bytes row d d' vt :
  landed v (va_Seq vt + 1) bytes row d d' → h_Seq (cr_Head row) = va_Seq vt + 1 → vault_wf d v vt →
  ∃ vt', vault_wf d' v vt' ∧ va_Seq vt' = va_Seq vt + 1 ∧ va_Deleted vt' = va_Deleted vt.
Proof.
  intros Hl Hrow []. pose proof (la_vault _ _ _ _ _ _ Hl vt vw_row0) as Hv. eexists. split; [|split; [|]].
  1: constructor; [exact Hv|..]; cbn [va_Seq]; rewrite ?(la_commits _ _ _ _ _ _ Hl).
  - lia.
  - intros q' row' [[[= <-] <-]|[_ Hq]]%lookup_insert_Some; [lia|]. apply vw_commits0 in Hq. lia.
  - right. rewrite lookup_insert_eq. eauto.
  - intros r n x [Hx|(_&Hn&_)]%(la_versions _ _ _ _ _ _ Hl); [by eapply vw_positive0|done].
  - intros r n x [Hx|(_&_&->)]%(la_versions _ _ _ _ _ _ Hl); [by eapply vw_stored0|lia].
  - unfold ops_keyed. by rewrite (la_ops _ _ _ _ _ _ Hl).
  - done.
  - done.
Qed.

Lemma landed_head v bytes row d d' vt :
  landed v (va_Seq vt + 1) bytes row d d' → vault_wf d v vt → LatestHead d' v = Some (cr_Head row).
Proof.
  intros Hl []. unfold LatestHead. rewrite (la_commits _ _ _ _ _ _ Hl).
  erewrite rows_last; [done|by rewrite lookup_insert_eq|].
  intros q' a' [[[= <-] _]|[_ Hq]]%lookup_insert_Some; [done|]. apply vw_commits0 in Hq. lia.
Qed.

Lemma landed_membership v q bytes row d d' m :
  landed v q bytes row d d' → replayMembership d v = Ok m → replayMembership d' v = Ok m.
Proof.
  intros Hl. rewrite !replayMembership_Ok, (signatureCheck_devices d d') by apply Hl. unfold MemberOps. by rewrite (la_ops _ _ _ _ _ _ Hl).
Qed.

(** Storing an accepted commit, up to the pruning that ends the transaction. *)
Lemma store_landed v bytes c received d d1 d2 d3 s m vt s' :
  vault_wf d v vt → va_Seq vt < MaxUint64 → currentState d v = Ok s → ApplyCommit s c m (deviceResolver d) = Ok s' →
  InsertCommit v (va_Seq vt + 1) c received d = (Ok (), d1) → UpdateVaultHead v (va_Seq vt + 1) bytes d1 = (Ok (), d2) →
  deletePurged v (c_Purged c) d2 = (Ok (), d3) →
  ∃ dx row, landed v (va_Seq vt + 1) bytes row d dx ∧ pruned v dx d3 ∧ cr_CommitID row = h_Commit (c_Head c) ∧
    cr_Head row = c_Head c ∧ h_Seq (c_Head c) = va_Seq vt + 1 ∧ currentState dx v = Ok s'.
Proof.
  intros Hw Hlt Hs Ha Hi Hu Hdel. pose proof Ha as (a & k & _ & [] & _ & Es')%ApplyCommit_Ok.
  apply currentState_Ok in Hs as (Hvs & HL & Hhd); [|apply Hw]. rewrite Hvs in *.
  assert (h_Seq (c_Head c) = va_Seq vt + 1) as Hq.
  { rewrite cl_seq. destruct (LatestHead_wf _ _ _ Hw) as [[E0 En]|(row & _ & En & Er)]; rewrite En in Hhd; cbn in Hhd.
    - rewrite Hhd, E0. reflexivity.
    - rewrite (hd_cursor _ _ Hhd). cbn. rewrite Er. apply wrap64_succ; [|done]. pose proof (vw_seq _ _ _ Hw). solve_uint. }
  eapply InsertCommit_Ok in Hi as (Ed1 & Had & HL1); [|exact HL|apply Hw|done|].
  2: { eapply Forall_impl; [exact cl_records|]. intros e. apply record_ok_writable with (vm := db_versions d); [done|apply Hw]. }
  unfold UpdateVaultHead in Hu. apply tx_modify_Ok in Hu.
  assert (db_versions d2 = db_versions d1) as Ev2 by by rewrite Hu.
  apply deletePurged_Ok with (L := install (vs_leaves s) (c_Records c)) in Hdel as (dx & Hp & _ & Edx & Hsub & HLx).
  2: { rewrite Ev2. intros r n x [Hx|(_&_&->)]%(ad_rows _ _ _ _ Had); [by eapply (vw_stored _ _ _ Hw)|]. pose proof (vw_seq _ _ _ Hw). lia. }
  2: { by rewrite Ev2. }
  exists dx. eexists. assert (landed v (va_Seq vt + 1) bytes {| cr_CommitID := h_Commit (c_Head c); cr_Head := c_Head c;
    cr_Purged := c_Purged c; cr_Received := received |} d dx) as Hl.
  { rewrite Edx, Hu, Ed1. constructor; try done; cbn [db_vaults db_versions set_versions set_vaults set_commits UpdateVault].
    - intros vt0 H0. by rewrite lookup_alter_eq, H0.
    - intros k0 x Hx. apply (ad_rows _ _ _ _ Had). rewrite <- Ev2. by eapply lookup_weaken. }
  split_and!; [exact Hl|exact Hp|done|done|exact Hq|].
  destruct (landed_wf _ _ _ _ _ _ Hl Hq Hw) as (vt' & Hw' & _). apply currentState_Ok; [apply Hw'|].
  rewrite (landed_head _ _ _ _ _ _ Hl Hw). pose proof (commit_headed _ _ _ _ _ Ha) as Hh. split_and!; [by rewrite Es'|by rewrite Es'|done].
Qed.

Lemma storeCommit_Ok cfg v vt c now d q ms d' :
  storeCommit cfg v vt c now d = (Ok (q, ms), d') → vault_wf d v vt → va_Seq vt < MaxUint64 →
  ∃ m s s' dx bytes row, replayMembership d v = Ok m ∧ currentState d v = Ok s ∧ ApplyCommit s c m (deviceResolver d) = Ok s' ∧
    Len s' ≤ cfg_MaxRecords cfg ∧ q = va_Seq vt + 1 ∧ ms = Members m ∧ landed v q bytes row d dx ∧ pruned v dx d' ∧
    cr_CommitID row = h_Commit (c_Head c) ∧ h_Seq (cr_Head row) = q ∧ currentState dx v = Ok s'.
Proof.
  unfold storeCommit. intros Hc Hw Hlt. assert (wrap64 (va_Seq vt + 1) = va_Seq vt + 1) as Eq
    by (apply wrap64_succ; [pose proof (vw_seq _ _ _ Hw); solve_uint|done]). rewrite Eq in Hc.
  apply TX_bind_Ok in Hc as (bytes & ? & [_ ->]%tx_lift_Ok & Hc). apply TX_bind_Ok in Hc as (? & ? & [-> ->]%tx_get_Ok & Hc).
  apply TX_bind_Ok in Hc as ([m s'] & ? & [Hv ->]%tx_lift_Ok & Hc).
  unfold verifyCommit in Hv. apply bind_Ok in Hv as (m0 & Hm & Hv). apply bind_Ok in Hv as (s & Hs & Hv).
  destruct (ApplyCommit s c m0 (deviceResolver d)) as [s0|] eqn:Ha; [|done]. apply Ok_inj in Hv. injection Hv as -> ->.
  apply TX_bind_Ok in Hc as ([] & ? & [Hlen ->]%tx_fail_if_Ok & Hc). apply TX_bind_Ok in Hc as ([] & ? & [_ ->]%tx_lift_Ok & Hc).
  apply TX_bind_Ok in Hc as ([] & d1 & Hi & Hc). apply TX_bind_Ok in Hc as ([] & d2 & Hu & Hc).
  apply TX_bind_Ok in Hc as ([] & d3 & Hdel & Hc). apply TX_bind_Ok in Hc as ([] & d4 & Hp & [[= <- <-]%Ok_inj ->]%tx_lift_Ok).
  destruct (store_landed v bytes c (now 1%nat) d d1 d2 d3 s m vt s') as (dx & row & Hl & Hpr & Eid & Eh & Eseq & Hcs); [done..|].
  destruct (landed_wf _ _ _ _ _ _ Hl) as (vt1 & Hw1 & _ & _); [by rewrite Eh|done|].
  destruct (vault_wf_pruned _ _ _ _ Hpr Hw1) as (vt2 & Hw2 & _).
  apply pruneVault_pruned in Hp; [|apply Hw2..]. exists m, s, s', dx, bytes, row.
  split_and!; try done; [|by eapply pruned_trans|by rewrite Eh]. apply Z.ltb_ge in Hlen. done.
Qed.

Lemma CommitSeqByID_None d v id q row :
  CommitSeqByID d v id = None → db_commits d !! (v, q) = Some row → cr_CommitID row ≠ id.
Proof.
  unfold CommitSeqByID. intros Hf%fmap_None Hr E. apply elem_of_map_to_list, list_elem_of_In in Hr.
  apply (find_none _ _ Hf) in Hr. cbn in Hr. rewrite !bool_decide_eq_true_2 in Hr; done.
Qed.

Lemma CommitSeqByID_Some d v id q :
  CommitSeqByID d v id = Some q → ∃ row, db_commits d !! (v, q) = Some row ∧ cr_CommitID row = id.
Proof.
  unfold CommitSeqByID. intros ([[v' q'] row] & Hf & [= ->])%fmap_Some. apply find_some in Hf as [Hin Hd]. cbn in Hd. bool_simpl.
  subst. apply list_elem_of_In, elem_of_map_to_list in Hin. eauto.
Qed.

(** The id of the commit just stored is found at its seq. *)
Lemma CommitSeqByID_insert d d' v q row :
  CommitSeqByID d v (cr_CommitID row) = None → db_commits d' = <[(v, q) := row]> (db_commits d) →
  CommitSeqByID d' v (cr_CommitID row) = Some q.
Proof.
  intros Hn E. destruct (CommitSeqByID d' v (cr_CommitID row)) as [q'|] eqn:Es.
  - apply CommitSeqByID_Some in Es as (row' & Hr & Eid). rewrite E in Hr.
    apply lookup_insert_Some in Hr as [[[= ->] _]|[_ Hr]]; [done|]. by destruct (CommitSeqByID_None _ _ _ _ _ Hn Hr).
  - exfalso. eapply (CommitSeqByID_None _ _ _ q row Es); [by rewrite E, lookup_insert_eq|done].
Qed.

(** The guards every commit passes before its transaction, and the two ways it may end. *)
Lemma Service_Commit_Ok cfg p v expect c now d r d' :
  Service_Commit cfg p v expect c now d = (Ok r, d') ↔
  requireAccess p = Ok () ∧ h_Author (c_Head c) = p_Device p ∧ len (c_Records c) + len (c_Purged c) ≤ maxRecordsPerCommit ∧
  ∃ vt role, requireMember d v (p_Account p) = Ok (vt, role) ∧
    match CommitSeqByID d v (h_Commit (c_Head c)) with
    | Some prior => r = (prior, None) ∧ d' = d
    | None => expect = va_Seq vt ∧ ∃ q ms, storeCommit cfg v vt c now d = (Ok (q, ms), d') ∧
        r = (q, Some (ms, {| ev_Vault := v; ev_Seq := q; ev_MembershipSeq := 0; ev_Account := ID_zero; ev_DeviceLogSeq := 0 |}))
    end.
Proof.
  unfold Service_Commit. rewrite TX_bind_Ok. setoid_rewrite tx_lift_Ok. split.
  - intros ([] & ? & [Ha ->] & Hc). apply TX_bind_Ok in Hc as ([] & ? & [Hau ->]%tx_fail_if_Ok & Hc).
    apply TX_bind_Ok in Hc as ([] & ? & [Hlen ->]%tx_fail_if_Ok & Hc). apply (proj1 (WithTx_Ok _ _ _ _)) in Hc.
    apply TX_bind_Ok in Hc as (? & ? & [-> ->]%tx_get_Ok & Hc). apply TX_bind_Ok in Hc as ([vt role] & ? & [Hm ->]%tx_lift_Ok & Hc).
    bool_simpl. apply Z.ltb_ge in Hlen. split_and!; [done..|]. exists vt, role. split; [done|].
    destruct (CommitSeqByID d v _) as [prior|]; [by apply tx_lift_Ok in Hc as [<-%Ok_inj ->]|].
    apply TX_bind_Ok in Hc as ([] & ? & [He ->]%tx_fail_if_Ok & Hc). bool_simpl. apply Z.eqb_eq in He. split; [done|].
    apply TX_bind_Ok in Hc as ([q ms] & d1 & Hc & [<-%Ok_inj ->]%tx_lift_Ok). eauto.
  - intros (Ha & Hau & Hlen & vt & role & Hm & Hc). exists (), d. split; [done|]. apply TX_bind_Ok. exists (), d. split.
    { apply tx_fail_if_Ok. by rewrite bool_decide_eq_true_2. }
    apply TX_bind_Ok. exists (), d. split; [apply tx_fail_if_Ok; split; [by apply Z.ltb_ge|done]|].
    apply (proj2 (WithTx_Ok _ _ _ _)), TX_bind_Ok. exists d, d. split; [done|]. apply TX_bind_Ok. exists (vt, role), d. split; [by apply tx_lift_Ok|].
    destruct (CommitSeqByID d v _) as [prior|]; [destruct Hc as [-> ->]; by apply tx_lift_Ok|].
    destruct Hc as (-> & q & ms & Hc & ->). apply TX_bind_Ok. exists (), d. split; [apply tx_fail_if_Ok; by rewrite Z.eqb_refl|].
    apply TX_bind_Ok. exists (q, ms), d'. split; [done|]. by apply tx_lift_Ok.
Qed.

Lemma requireMember_Ok d v a vt role :
  requireMember d v a = Ok (vt, role) ↔
  db_vaults d !! v = Some vt ∧ va_Deleted vt = false ∧ role = MemberRole d v a ∧ role ≠ RoleNone.
Proof.
  unfold requireMember, VaultByID. destruct (db_vaults d !! v) as [vt'|]; [|naive_solver].
  rewrite !fail_if_Ok, Z.eqb_neq. split; [intros (?&?&[= <- <-]%Ok_inj); done|]. by intros ([= ->]&?&->&?).
Qed.

(** C2. The server's commit is the domain's commit. When it stores a new commit, the members and the
    records its rows represented allowed it by the shared rules, the rows now represent exactly the
    state those rules give - after the purges and the pruning that end the transaction - under the
    same membership and at the next seq, the vault's bookkeeping is still consistent, and every member
    is told. *)
Theorem commit_refines (cfg : Config) (p : Principal) (v : ID) (expect : Z) (c : Commit) (now : nat → Z) (d d' : DB) (vt : Vault)
    (seq : Z) (pub : published) :
  Service_Commit cfg p v expect c now d = (Ok (seq, pub), d') →
  vault_wf d v vt → va_Seq vt < MaxUint64 → CommitSeqByID d v (h_Commit (c_Head c)) = None →
  ∃ m s s' vt', replayMembership d v = Ok m ∧ currentState d v = Ok s ∧ ApplyCommit s c m (deviceResolver d) = Ok s' ∧
    Len s' ≤ cfg_MaxRecords cfg ∧ expect = va_Seq vt ∧ seq = va_Seq vt + 1 ∧
    currentState d' v = Ok s' ∧ replayMembership d' v = Ok m ∧ vault_wf d' v vt' ∧ va_Seq vt' = seq ∧ fst <$> pub = Some (Members m).
Proof.
  intros (_&_&_ & vt0 & role & (Hvt&_)%requireMember_Ok & Hc)%Service_Commit_Ok Hw Hlt Hn. rewrite Hn in Hc.
  rewrite (vw_row _ _ _ Hw) in Hvt. injection Hvt as <-. destruct Hc as (-> & q & ms & Hc & [= -> ->]).
  destruct (storeCommit_Ok _ _ _ _ _ _ _ _ _ Hc Hw Hlt) as (m & s & s' & dx & bytes & row & Hm & Hs & Ha & Hlen & -> & -> & Hl & Hp & _ & Eseq & Hcs).
  destruct (landed_wf _ _ _ _ _ _ Hl Eseq Hw) as (vt1 & Hw1 & E1 & _). destruct (vault_wf_pruned _ _ _ _ Hp Hw1) as (vt2 & Hw2 & Hsame).
  exists m, s, s', vt2. split_and!; try done.
  - eapply currentState_pruned; [exact Hp|apply Hw1|done].
  - eapply replayMembership_pruned, landed_membership; done.
  - by rewrite (vsm_seq _ _ Hsame).
Qed.

(** A client that lost the reply may send its commit again: the server answers with the seq the
    first copy got, whatever expectation and configuration the retry meets, changes nothing and tells
    nobody a second time. *)
Theorem commit_retry (cfg cfg' : Config) (p : Principal) (v : ID) (expect expect' : Z) (c : Commit) (now now' : nat → Z) (d d' : DB)
    (vt : Vault) (seq : Z) (pub : published) :
  Service_Commit cfg p v expect c now d = (Ok (seq, pub), d') → vault_wf d v vt → va_Seq vt < MaxUint64 →
  Service_Commit cfg' p v expect' c now' d' = (Ok (seq, None), d').
Proof.
  intros (Ha & Hau & Hlen & vt0 & role & Hm & Hc)%Service_Commit_Ok Hw Hlt. apply Service_Commit_Ok. split_and!; [done..|].
  destruct (CommitSeqByID d v (h_Commit (c_Head c))) as [prior|] eqn:Hn.
  { destruct Hc as [[= -> ->] ->]. exists vt0, role. by rewrite Hn. }
  apply requireMember_Ok in Hm as (Hvt & Hdel & Hrole & Hnr). rewrite (vw_row _ _ _ Hw) in Hvt. injection Hvt as <-.
  destruct Hc as (_ & q & ms & Hc & [= -> ->]).
  destruct (storeCommit_Ok _ _ _ _ _ _ _ _ _ Hc Hw Hlt) as (m & s & s' & dx & bytes & row & _ & _ & _ & _ & -> & -> & Hl & Hp & Eid & Eseq & _).
  destruct (landed_wf _ _ _ _ _ _ Hl Eseq Hw) as (vt1 & Hw1 & _ & D1). destruct (vault_wf_pruned _ _ _ _ Hp Hw1) as (vt2 & Hw2 & Hsame).
  exists vt2, role. split.
  - apply requireMember_Ok. split_and!; [apply Hw2|by rewrite (vsm_deleted _ _ Hsame), D1| |done].
    unfold MemberRole. by rewrite (pr_members _ _ _ Hp), (la_members _ _ _ _ _ _ Hl).
  - rewrite <- Eid. erewrite CommitSeqByID_insert; [done|by rewrite Eid|]. by rewrite (pr_commits _ _ _ Hp), (la_commits _ _ _ _ _ _ Hl).
Qed.

(** ** Appending to a membership log *)

Lemma replay_seqs check s ops s' :
  foldM (member_step check) s ops = Ok s' → 0 ≤ ms_seq s → ms_seq s + len ops ≤ MaxUint64 →
  ms_seq s' = ms_seq s + len ops ∧ ∀ i op, ops !! i = Some op → op_Seq op = ms_seq s + 1 + Z.of_nat i.
Proof.
  revert s. induction ops as [|op ops IH]; intros s Hr H0 Hl; cbn [foldM] in Hr.
  - apply Ok_inj in Hr as <-. cbn in *. split; [lia|done].
  - destruct (member_step check s op) as [s1|] eqn:E; [|done]. apply member_step_Ok in E as ([] & s2 & _ & E1).
    cbn [length] in Hl. assert (op_Seq op = ms_seq s + 1) as Hq by (rewrite ac_seq; apply wrap64_succ; solve_uint).
    assert (ms_seq s1 = ms_seq s + 1) as Hq1 by (rewrite E1; exact Hq).
    destruct (IH s1 Hr) as [Hs Hi]; [lia|lia|]. cbn [length]. split; [lia|].
    intros [|i] op' Hop; cbn in Hop; [injection Hop as <-; lia|]. apply Hi in Hop. lia.
Qed.

Lemma AppendMemberOp_Ok v op d d' :
  AppendMemberOp v op d = (Ok (), d') →
  ∃ X, d' = set_participants X (set_ops (<[(v, op_Seq op) := op]> (db_ops d)) d).
Proof.
  unfold AppendMemberOp. intros Ha. tx_step Ha. tx_step Ha. tx_step Ha. tx_step Ha.
  apply (tx_for_ind (λ _ d1, ∃ X, d1 = set_participants X (set_ops (<[(v, op_Seq op) := op]> (db_ops d)) d))) in Ha; [done| |].
  - intros x l d1 d2 [X ->] Hx. destruct (ID_IsZero x); [tx_step Hx; eauto|]. apply tx_modify_Ok in Hx as ->.
    eexists. reflexivity.
  - exists (db_participants d). by destruct d.
Qed.

Lemma AppendMemberOps_Ok v ops d d' n :
  AppendMemberOps v ops d = (Ok (), d') →
  (∀ q op, db_ops d !! (v, q) = Some op → q ≤ n) → (∀ i op, ops !! i = Some op → op_Seq op = n + 1 + Z.of_nat i) →
  ops_keyed d v →
  MemberOps d' v = MemberOps d v ++ ops ∧ ops_keyed d' v ∧ ∃ X Y, d' = set_participants X (set_ops Y d).
Proof.
  unfold AppendMemberOps. revert d n. induction ops as [|op ops IH]; intros d n Ha Hn Hi Hk; cbn [tx_for] in Ha.
  - tx_step Ha. rewrite app_nil_r. split_and!; [done|done|]. exists (db_participants d), (db_ops d). by destruct d.
  - apply TX_bind_Ok in Ha as ([] & d1 & Ho & Ha). apply AppendMemberOp_Ok in Ho as [X ->].
    pose proof (Hi 0%nat op eq_refl) as Hq. cbn in Hq.
    destruct (IH _ (n + 1) Ha) as (Em & Hk' & X' & Y & Ed).
    + intros q op' Hop. cbn in Hop. apply lookup_insert_Some in Hop as [[[= <-] _]|[_ Hop]]; [lia|]. apply Hn in Hop. lia.
    + intros i op' Hop. rewrite (Hi (S i) op') by done. lia.
    + intros q op' Hop. cbn in Hop. apply lookup_insert_Some in Hop as [[[= <-] <-]|[_ Hop]]; [done|]. by apply Hk.
    + split_and!; [|done|].
      * rewrite Em. unfold MemberOps. cbn [db_ops set_participants set_ops]. rewrite rows_snoc.
        -- rewrite fmap_app, <- app_assoc. done.
        -- intros q' a' Hq'. apply Hn in Hq'. lia.
      * exists X', Y. rewrite Ed. done.
Qed.

Lemma roles_lookup m a : roles m !! a = if ms_deleted m then None else ms_members m !! a.
Proof.
  unfold roles. destruct (ms_deleted m); [by rewrite lookup_empty|].
  destruct (ms_members m !! a) as [r|] eqn:E.
  - apply elem_of_list_to_map.
    + rewrite <- list_fmap_compose. cbn. rewrite list_fmap_id. rewrite Members_perm. apply NoDup_fst_map_to_list.
    + apply list_elem_of_fmap. exists a. split; [by rewrite (Role_Some _ _ _ E)|]. apply elem_of_Members. eauto.
  - apply not_elem_of_list_to_map. rewrite <- list_fmap_compose. cbn. rewrite list_fmap_id, elem_of_Members, E. by intros [].
Qed.

(** [ReplaceMembers] leaves exactly the given roles in the vault. *)
Lemma replaced_members (v a : ID) (rs : list (ID * Z)) (M : gmap (ID * ID) Z) :
  NoDup rs.*1 → (∀ x, M !! (v, x) = None) →
  foldr (λ p acc, <[(v, p.1) := p.2]> acc) M rs !! (v, a) = (list_to_map rs : gmap ID Z) !! a.
Proof.
  intros Hnd HM. induction rs as [|[x r] rs IH]; cbn; [by rewrite HM, lookup_empty|].
  cbn in Hnd. apply NoDup_cons in Hnd as [_ Hnd]. destruct (decide (x = a)) as [->|Hne].
  - by rewrite !lookup_insert_eq.
  - rewrite !lookup_insert_ne by congruence. by apply IH.
Qed.

Lemma ReplaceMembers_Ok v rs d d' :
  ReplaceMembers v rs d = (Ok (), d') →
  (∀ a, db_members d' !! (v, a) = rs !! a) ∧ d' = set_members (db_members d') d.
Proof.
  unfold ReplaceMembers. intros ->%tx_modify_Ok. split; [|done]. intros a. cbn [db_members set_members].
  rewrite replaced_members, list_to_map_to_list; [done|apply NoDup_fst_map_to_list|].
  intros x. apply map_lookup_filter_None. right. intros r _ Hr. by apply Hr.
Qed.

Lemma stored_seqs d v m :
  replayMembership d v = Ok m → len (MemberOps d v) ≤ MaxUint64 → ops_keyed d v →
  ms_seq m = len (MemberOps d v) ∧ ∀ q op, db_ops d !! (v, q) = Some op → q ≤ ms_seq m.
Proof.
  intros Hr%replayMembership_Ok Hl Hk. apply replay_seqs in Hr as [Hs Hi]; [|done|done]. cbn [membership_genesis ms_seq] in Hs, Hi.
  split; [lia|]. intros q op Hq. rewrite <- (Hk q op Hq).
  assert (op ∈ MemberOps d v) as [i Hop]%list_elem_of_lookup by (apply elem_of_MemberOps; eauto).
  rewrite (Hi _ _ Hop). apply lookup_lt_Some in Hop. lia.
Qed.

(** The database after the operations, the membership position and the member list were written. *)
Lemma append_stored v ops d d1 d2 d3 m m' vt :
  vault_wf d v vt → replayMembership d v = Ok m → foldM (member_step (signatureCheck d)) m ops = Ok m' →
  len (MemberOps d v) + len ops ≤ MaxUint64 →
  AppendMemberOps v ops d = (Ok (), d1) → SetVaultMembershipSeq v (ms_seq m') d1 = (Ok (), d2) →
  ReplaceMembers v (roles m') d2 = (Ok (), d3) →
  ∃ vt', vault_wf d3 v vt' ∧ va_Seq vt' = va_Seq vt ∧ va_MembershipSeq vt' = ms_seq m' ∧ va_Deleted vt' = va_Deleted vt ∧
    replayMembership d3 v = Ok m' ∧ (∀ a, db_members d3 !! (v, a) = roles m' !! a) ∧ db_versions d3 = db_versions d ∧
    db_commits d3 = db_commits d ∧ length (MemberOps d3 v) = (length (MemberOps d v) + length ops)%nat.
Proof.
  intros Hw Hm Hf Hl Ha Hs Hr. destruct (stored_seqs d v m Hm) as [Hseq Hle]; [lia|apply Hw|].
  destruct (replay_seqs _ _ _ _ Hf) as [_ Hi]; [lia|lia|].
  destruct (AppendMemberOps_Ok v ops d d1 (ms_seq m) Ha Hle Hi) as (Em & Hk & X & Y & Ed1); [apply Hw|].
  unfold SetVaultMembershipSeq in Hs. apply tx_modify_Ok in Hs. apply ReplaceMembers_Ok in Hr as [Hmem Ed3].
  assert (db_ops d3 = db_ops d1) as Eo by (by rewrite Ed3, Hs).
  assert (db_devices d3 = db_devices d ∧ db_versions d3 = db_versions d ∧ db_commits d3 = db_commits d) as (Edev & Ever & Ecom)
    by (by rewrite Ed3, Hs, Ed1).
  assert (db_vaults d3 = alter (λ x, {| va_Owner := va_Owner x; va_Seq := va_Seq x; va_MembershipSeq := ms_seq m'; va_Bytes := va_Bytes x;
    va_Personal := va_Personal x; va_Deleted := va_Deleted x; va_PrunedSeq := va_PrunedSeq x |}) v (db_vaults d)) as Ev by (by rewrite Ed3, Hs, Ed1).
  destruct Hw. eexists. split.
  - constructor; [rewrite Ev, lookup_alter_eq, vw_row0; reflexivity|..]; cbn [va_Seq]; rewrite ?Ever, ?Ecom; try done.
    unfold ops_keyed. rewrite Eo. exact Hk.
  - assert (MemberOps d3 v = MemberOps d v ++ ops) as Eall by (rewrite <- Em; unfold MemberOps; by rewrite Eo).
    split_and!; [done|done|done| |done|done|done|by rewrite Eall, length_app].
    apply replayMembership_Ok. rewrite (signatureCheck_devices d d3 Edev), Eall.
    apply replayMembership_Ok in Hm. rewrite foldM_app, Hm, bind_ok_l. exact Hf.
Qed.

Lemma AppendMembership_Ok p v ops now d d' vt pub :
  AppendMembership p v ops now d = (Ok pub, d') → vault_wf d v vt → len (MemberOps d v) + len ops ≤ MaxUint64 →
  ∃ m m' vt', replayMembership d v = Ok m ∧ foldM (member_step (signatureCheck d)) m ops = Ok m' ∧
    replayMembership d' v = Ok m' ∧ (∀ a, MemberRole d' v a = if ms_deleted m' then RoleNone else Role m' a) ∧
    (∀ s, currentState d v = Ok s → currentState d' v = Ok s) ∧
    vault_wf d' v vt' ∧ va_Seq vt' = va_Seq vt ∧ va_MembershipSeq vt' = ms_seq m' ∧
    (ms_pendingRotation m' = true → leaving ops (p_Account p) = true) ∧
    fst <$> pub = Some (unionIDs (Members m) (Members m')) ∧
    length (MemberOps d' v) = (length (MemberOps d v) + length ops)%nat ∧ len ops ≤ maxOpsPerAppend.
Proof.
  unfold AppendMembership. intros Ha Hw Hl. apply TX_bind_Ok in Ha as ([] & ? & [_ ->]%tx_lift_Ok & Ha).
  apply TX_bind_Ok in Ha as ([] & ? & [Hlen ->]%tx_fail_if_Ok & Ha). apply TX_bind_Ok in Ha as ([] & ? & [_ ->]%tx_fail_if_Ok & Ha).
  apply (proj1 (WithTx_Ok _ _ _ _)) in Ha. apply TX_bind_Ok in Ha as (? & ? & [-> ->]%tx_get_Ok & Ha).
  apply TX_bind_Ok in Ha as (? & ? & [_ ->]%tx_lift_Ok & Ha). apply TX_bind_Ok in Ha as (m & ? & [Hm ->]%tx_lift_Ok & Ha).
  destruct (foldM (member_step (signatureCheck d)) m ops) as [m'|] eqn:Hf; [|by apply tx_lift_Ok in Ha as [? _]].
  apply TX_bind_Ok in Ha as ([] & ? & [Hpend ->]%tx_fail_if_Ok & Ha). apply TX_bind_Ok in Ha as ([] & ? & [_ ->]%tx_lift_Ok & Ha).
  apply TX_bind_Ok in Ha as ([] & d1 & H1 & Ha). apply TX_bind_Ok in Ha as ([] & d2 & H2 & Ha).
  apply TX_bind_Ok in Ha as ([] & d3 & H3 & Ha). apply TX_bind_Ok in Ha as ([] & d4 & Hp & [<-%Ok_inj ->]%tx_lift_Ok).
  destruct (append_stored v ops d d1 d2 d3 m m' vt) as (vt3 & Hw3 & Es & Ems & Ed & Hm3 & Hmem & Ever & Ecom & Elen); [done..|].
  apply pruneVault_pruned in Hp; [|apply Hw3..]. destruct (vault_wf_pruned _ _ _ _ Hp Hw3) as (vt4 & Hw4 & Hsame).
  exists m, m', vt4. split_and!; try done.
  - by eapply replayMembership_pruned.
  - intros a. unfold MemberRole. rewrite (pr_members _ _ _ Hp), Hmem, roles_lookup. unfold Role. by destruct (ms_deleted m').
  - intros s Hs. eapply currentState_pruned; [exact Hp|apply Hw3|]. apply currentState_Ok in Hs; [|apply Hw].
    apply currentState_Ok; [apply Hw3|]. by rewrite Ever, (LatestHead_commits d d3 v Ecom).
  - by rewrite (vsm_seq _ _ Hsame).
  - by rewrite (vsm_mseq _ _ Hsame).
  - intros Hpd. rewrite Hpd in Hpend. by destruct (leaving ops (p_Account p)).
  - rewrite <- Elen. symmetry. eapply Forall2_length, MemberOps_pruned, Hp.
  - bool_simpl. by apply Z.ltb_ge.
Qed.

(** C21. An accepted batch of membership operations leaves the vault's stored log replaying to exactly
    the state the batch leads to, its member list - which guards every later request - equal to that
    state's members, empty once the vault is deleted, and its records untouched. It never leaves a
    removed member holding the current key unless that member removed itself, and everyone who was or
    is a member is told. *)
Theorem append_refines (p : Principal) (v : ID) (ops : list MemberOp) (now : Z) (d d' : DB) (vt : Vault) (pub : published) :
  AppendMembership p v ops now d = (Ok pub, d') → vault_wf d v vt → len (MemberOps d v) + len ops ≤ MaxUint64 →
  ∃ m m' vt', replayMembership d v = Ok m ∧ foldM (member_step (signatureCheck d)) m ops = Ok m' ∧
    replayMembership d' v = Ok m' ∧ (∀ a, MemberRole d' v a = if ms_deleted m' then RoleNone else Role m' a) ∧
    (∀ s, currentState d v = Ok s → currentState d' v = Ok s) ∧
    vault_wf d' v vt' ∧ va_Seq vt' = va_Seq vt ∧ va_MembershipSeq vt' = ms_seq m' ∧
    (ms_pendingRotation m' = true → leaving ops (p_Account p) = true) ∧
    fst <$> pub = Some (unionIDs (Members m) (Members m')).
Proof.
  intros Ha Hw Hl. destruct (AppendMembership_Ok p v ops now d d' vt pub Ha Hw Hl) as (m & m' & vt' & ? & ? & ? & ? & ? & ? & ? & ? & ? & ? & _).
  exists m, m', vt'. split_and!; done.
Qed.

(** ** Deleting an account *)

Lemma replay_checked check s ops s' op :
  foldM (member_step check) s ops = Ok s' → op ∈ ops →
  check (op_Author op) (op_AuthorDevice op) (op_SigAlg op) (frames (op_fields op)) (op_Sig op) = Ok ().
Proof.
  revert s. induction ops as [|o ops IH]; intros s Hr Hin; [by apply not_elem_of_nil in Hin|]. cbn [foldM] in Hr.
  destruct (member_step check s o) as [s1|] eqn:E; [|done].
  apply elem_of_cons in Hin as [->|Hin]; [|by eapply IH]. by apply member_step_Ok in E as ([] & _).
Qed.

Lemma deleteSoleVaults_Ok a d d' :
  deleteSoleVaults a d = (Ok (), d') →
  db_devices d' = db_devices d ∧ db_accounts d' = db_accounts d ∧
  ∀ v, is_Some (db_vaults d' !! v) → ∀ q, db_ops d' !! (v, q) = db_ops d !! (v, q).
Proof.
  unfold deleteSoleVaults. intros Hd. tx_step Hd. tx_step Hd.
  apply (tx_for_ind (λ _ d1, db_devices d1 = db_devices d ∧ db_accounts d1 = db_accounts d ∧
    ∀ v, is_Some (db_vaults d1 !! v) → ∀ q, db_ops d1 !! (v, q) = db_ops d !! (v, q))) in Hd; [done| |done].
  intros w l d1 d2 (Hdv & Hac & Ho) Hw. tx_step Hw. tx_step Hw. destruct (MemberCount d1 w <=? 1); [|tx_step Hw; done].
  unfold DeleteVault in Hw. apply tx_modify_Ok in Hw as ->. split_and!; [done|done|].
  intros v Hv q. cbn in Hv |- *. destruct (decide (v = w)) as [->|Hne]; [rewrite lookup_delete_eq in Hv; by destruct Hv|].
  rewrite lookup_delete_ne in Hv by done. rewrite <- (Ho v Hv q), map_lookup_filter.
  destruct (db_ops d1 !! (v, q)); [|done]. cbn. by rewrite option_guard_True.
Qed.

Lemma deleted_devices username d id a device dv :
  AccountByUsername d username = Some (id, a) → db_devices d !! device = Some dv → dv_Account dv = id →
  DeviceByID (DeleteAccountRow username d) device = None.
Proof.
  intros Ha Hd Ei. apply find_some in Ha as [Hin%list_elem_of_In%elem_of_map_to_list Hu]. cbn in Hu. bool_simpl.
  unfold DeviceByID, DeleteAccountRow. cbn. apply map_lookup_filter_None. right. intros dv' Hdv'. cbn.
  rewrite Hd in Hdv'. injection Hdv' as <-. rewrite Ei. intros Hn. apply Hn. apply elem_of_dom. exists a.
  by apply map_lookup_filter_Some.
Qed.

Lemma commit_needs_replay cfg p v expect c now d r d' :
  Service_Commit cfg p v expect c now d = (Ok r, d') → CommitSeqByID d v (h_Commit (c_Head c)) = None →
  ∃ m, replayMembership d v = Ok m.
Proof.
  intros (_&_&_ & vt & role & _ & Hc)%Service_Commit_Ok Hn. rewrite Hn in Hc. destruct Hc as (_ & q & ms & Hc & _).
  unfold storeCommit in Hc. apply TX_bind_Ok in Hc as (bytes & ? & [_ ->]%tx_lift_Ok & Hc).
  apply TX_bind_Ok in Hc as (? & ? & [-> ->]%tx_get_Ok & Hc). apply TX_bind_Ok in Hc as (x & ? & [Hv ->]%tx_lift_Ok & _).
  unfold verifyCommit in Hv. apply bind_Ok in Hv as (m & Hm & _). eauto.
Qed.

Lemma append_needs_replay p v ops now d pub d' :
  AppendMembership p v ops now d = (Ok pub, d') →
  ∃ m vt role, replayMembership d v = Ok m ∧ requireMember d v (p_Account p) = Ok (vt, role) ∧ len ops ≤ maxOpsPerAppend.
Proof.
  unfold AppendMembership. intros Ha. apply TX_bind_Ok in Ha as ([] & ? & [_ ->]%tx_lift_Ok & Ha).
  apply TX_bind_Ok in Ha as ([] & ? & [Hl ->]%tx_fail_if_Ok & Ha). apply TX_bind_Ok in Ha as ([] & ? & [_ ->]%tx_fail_if_Ok & Ha).
  apply (proj1 (WithTx_Ok _ _ _ _)) in Ha. apply TX_bind_Ok in Ha as (? & ? & [-> ->]%tx_get_Ok & Ha).
  apply TX_bind_Ok in Ha as ([vt role] & ? & [Hr ->]%tx_lift_Ok & Ha). apply TX_bind_Ok in Ha as (m & ? & [Hm ->]%tx_lift_Ok & _).
  bool_simpl. exists m, vt, role. split_and!; [done..|]. by apply Z.ltb_ge.
Qed.

(** C37. Deleting an account whose device signed any operation of a vault that other accounts still
    share makes that vault unusable: its stored log no longer replays, so the server refuses every
    new commit and every membership operation - the removal of the deleted member included. *)
Theorem deletion_blocks_shared_vault (username : string) (d d' : DB) (id : ID) (a : Account) (v : ID) (op : MemberOp) (dv : Device) :
  DeleteAccount username d = (Ok (), d') → AccountByUsername d username = Some (id, a) →
  op ∈ MemberOps d v → DeviceByID d (op_AuthorDevice op) = Some dv → dv_Account dv = id → is_Some (VaultByID d' v) →
  is_ok (replayMembership d' v) = false ∧
  (∀ cfg p expect c now, CommitSeqByID d' v (h_Commit (c_Head c)) = None →
     is_ok (fst (Service_Commit cfg p v expect c now d')) = false) ∧
  (∀ p ops now, is_ok (fst (AppendMembership p v ops now d')) = false).
Proof.
  unfold DeleteAccount. intros Hd Ha Hop Hdv Eid Hv. apply (proj1 (WithTx_Ok _ _ _ _)) in Hd.
  apply TX_bind_Ok in Hd as (? & ? & [-> ->]%tx_get_Ok & Hd). rewrite Ha in Hd.
  apply TX_bind_Ok in Hd as ([] & d1 & (Edev & Eac & Eops)%deleteSoleVaults_Ok & ->%tx_modify_Ok).
  assert (DeviceByID (DeleteAccountRow username d1) (op_AuthorDevice op) = None) as Hgone.
  { eapply deleted_devices; [|rewrite Edev; exact Hdv|done]. unfold AccountByUsername. rewrite Eac. exact Ha. }
  assert (∀ m, replayMembership (DeleteAccountRow username d1) v ≠ Ok m) as Hno.
  { intros m Hm%replayMembership_Ok. assert (op ∈ MemberOps (DeleteAccountRow username d1) v) as Hin.
    { apply elem_of_MemberOps in Hop as [q Hq]. apply elem_of_MemberOps. exists q. cbn. by rewrite Eops. }
    apply (replay_checked _ _ _ _ op Hm) in Hin. unfold signatureCheck in Hin. by rewrite Hgone in Hin. }
  split_and!.
  - destruct (replayMembership _ v) as [m|] eqn:E; [by destruct (Hno m)|done].
  - intros cfg p expect c now Hn. destruct (Service_Commit _ _ _ _ _ _ _) as [[r|e] d2] eqn:E; [|done].
    apply commit_needs_replay in E as [m Hm]; [by destruct (Hno m)|done].
  - intros p ops now. destruct (AppendMembership _ _ _ _ _) as [[r|e] d2] eqn:E; [|done].
    apply append_needs_replay in E as (m & _ & _ & Hm & _). by destruct (Hno m).
Qed.

(** ** Creating a vault *)

(** No row refers to vault [v], as the foreign keys ensure while the vault does not exist. *)
Record no_rows (d : DB) (v : ID) : Prop := {
  nr_ops : ∀ q, db_ops d !! (v, q) = None;
  nr_commits : ∀ q, db_commits d !! (v, q) = None;
  nr_versions : ∀ r n, db_versions d !! (v, r, n) = None;
}.

(** A stored vault is consistent, has the one operation that made it, and no records. *)
Lemma vault_created vt op m rs d d1 d2 d' :
  let v := op_Vault op in
  no_rows d v → va_Seq vt = 0 → member_step (signatureCheck d) (membership_genesis v) op = Ok m →
  InsertVault v vt d = (Ok (), d1) → AppendMemberOps v [op] d1 = (Ok (), d2) → ReplaceMembers v rs d2 = (Ok (), d') →
  vault_wf d' v vt ∧ replayMembership d' v = Ok m ∧ currentState d' v = Ok (vault_genesis v) ∧ MemberOps d' v = [op] ∧
  ∀ a, db_members d' !! (v, a) = rs !! a.
Proof.
  intros v [No Nc Nv] Hz Hm Hi Ha Hr. unfold InsertVault in Hi. tx_step Hi. tx_step Hi. apply tx_put_Ok in Hi as ->.
  apply ReplaceMembers_Ok in Hr as [Hmem Hr].
  assert (op_Seq op = 1) as Hq by (apply member_step_Ok in Hm as ([] & _); by rewrite ac_seq).
  apply AppendMemberOps_Ok with (n := 0) in Ha as (Em & Hk & X & Y & ->).
  2: { intros q op' Hop. cbn in Hop. by rewrite No in Hop. }
  2: { intros [|i] op' Hop; [injection Hop as <-; lia|done]. }
  2: { intros q op' Hop. cbn in Hop. by rewrite No in Hop. }
  assert (MemberOps (set_vaults (<[v := vt]> (db_vaults d)) d) v = []) as E0.
  { apply elem_of_nil_inv. intros x [q Hx]%elem_of_MemberOps. cbn in Hx. by rewrite No in Hx. }
  rewrite E0 in Em. cbn [app] in Em. assert (MemberOps d' v = [op]) as Eo by (rewrite Hr; exact Em).
  assert (vault_wf d' v vt) as Hw.
  { rewrite Hr. constructor; cbn; [by rewrite lookup_insert_eq|lia| |by left| | |exact Hk].
    - intros q row Hx. by rewrite Nc in Hx.
    - intros rec n row Hx. by rewrite Nv in Hx.
    - intros rec n row Hx. by rewrite Nv in Hx. }
  split_and!; [exact Hw| | |done|done].
  - apply replayMembership_Ok. rewrite (signatureCheck_devices d d') by (by rewrite Hr). rewrite Eo. cbn [foldM]. by rewrite Hm.
  - apply currentState_Ok; [apply Hw|]. split_and!; [done| |].
    + intros rec l. split; [done|]. intros (n & row & [Hx _] & _). rewrite Hr in Hx. cbn in Hx. by rewrite Nv in Hx.
    + destruct (LatestHead_wf _ _ _ Hw) as [[_ ->]|(row & Hx & _)]; [done|]. rewrite Hr in Hx. cbn in Hx. by rewrite Nc in Hx.
Qed.

Lemma CreateVault_wf p op d d' :
  CreateVault p op d = (Ok (), d') → no_rows d (op_Vault op) →
  ∃ m vt, member_step (signatureCheck d) (membership_genesis (op_Vault op)) op = Ok m ∧ vault_wf d' (op_Vault op) vt ∧ va_Seq vt = 0 ∧
    replayMembership d' (op_Vault op) = Ok m ∧ currentState d' (op_Vault op) = Ok (vault_genesis (op_Vault op)) ∧
    MemberOps d' (op_Vault op) = [op] ∧ ∀ a, db_members d' !! (op_Vault op, a) = roles m !! a.
Proof.
  unfold CreateVault. intros Hc Hno. apply TX_bind_Ok in Hc as ([] & ? & [_ ->]%tx_lift_Ok & Hc).
  apply TX_bind_Ok in Hc as ([] & ? & [_ ->]%tx_fail_if_Ok & Hc). apply (proj1 (WithTx_Ok _ _ _ _)) in Hc.
  apply TX_bind_Ok in Hc as (? & ? & [-> ->]%tx_get_Ok & Hc). apply TX_bind_Ok in Hc as ([] & ? & [_ ->]%tx_fail_if_Ok & Hc).
  rewrite NewMembershipState_eq in Hc. apply TX_bind_Ok in Hc as (? & ? & [<-%Ok_inj ->]%tx_lift_Ok & Hc).
  destruct (member_step (signatureCheck d) (membership_genesis (op_Vault op)) op) as [m|] eqn:Hm; [|by apply tx_lift_Ok in Hc as [? _]].
  apply TX_bind_Ok in Hc as ([] & d1 & Hi & Hc). apply TX_bind_Ok in Hc as ([] & d2 & Ha & Hr).
  match type of Hi with InsertVault _ ?vt _ = _ =>
    destruct (vault_created vt op m (roles m) d d1 d2 d' Hno eq_refl Hm Hi Ha Hr) as (Hw & ? & ? & ? & ?); exists m, vt end.
  split_and!; [done|exact Hw|done|done|done|done|done].
Qed.
End state.

(** ** Examples: an account creates a vault, adds a second account and commits a record *)

#[local] Existing Instance demo_crypto.

Definition srv_sign (op : MemberOp) (fp : hash) : MemberOp :=
  let o sig := {| op_Vault := op_Vault op; op_Seq := op_Seq op; op_Prev := op_Prev op; op_Kind := op_Kind op; op_Author := op_Author op;
     op_AuthorDevice := op_AuthorDevice op; op_Subject := op_Subject op; op_Role := op_Role op; op_Verified := op_Verified op;
     op_Fingerprint := fp; op_Suite := op_Suite op; op_Epoch := op_Epoch op; op_Wraps := op_Wraps op; op_RevokedDevices := [];
     op_RetentionDays := op_RetentionDays op; op_RequireVerified := op_RequireVerified op; op_Shred := op_Shred op;
     op_TimeUnixMilli := op_TimeUnixMilli op; op_SigAlg := SigEd25519; op_Sig := sig |} in
  o (demo_sign demo_author_key (frames (op_fields (o [])))).

Definition srv_account (name : string) (n : Z) : Account := {|
  ac_Username := name; ac_OPAQUERecord := []; ac_Bundle := []; ac_IdentityKey := demo_key n; ac_EncryptionKey := demo_enc n;
  ac_Created := 0; ac_Frozen := false |}.
Definition srv_db0 : DB := {|
  db_accounts := {[ demo_id 1 := srv_account "alice" 1; demo_id 2 := srv_account "bob" 2 ]};
  db_devices := {[ demo_author := {| dv_Account := demo_id 1; dv_SigningKey := demo_author_key; dv_Revoked := false |} ]};
  db_entries := ∅; db_tokens := ∅; db_vaults := ∅; db_ops := ∅; db_members := ∅; db_participants := ∅; db_commits := ∅;
  db_versions := ∅; db_invites := ∅ |}.
Definition srv_p : Principal := {| p_Account := demo_id 1; p_Device := demo_author; p_Kind := TokenAccess |}.
Definition srv_cfg : Config := New {| cfg_PersonalQuota := 0; cfg_TeamQuota := 0; cfg_MaxRecords := 0 |}.
Definition srv_now : nat → Z := λ i, 5000 + Z.of_nat i.

Definition srv_create : MemberOp := srv_sign demo_create (demo_hash 4).
Definition srv_add : MemberOp :=
  srv_sign (demo_mop 2 (sha256 (op_input srv_create)) MemberAdd (demo_id 2) RoleEditor 0 [demo_wrap (demo_id 2) demo_cipher])
           (of_ok (demo_hash 0) (IdentityDigest (demo_key 2))).

Definition srv_db1 : DB := snd (CreateVault srv_p srv_create srv_db0).
Definition srv_db2 : DB := snd (AppendMembership srv_p demo_vault [srv_add] 5000 srv_db1).

Definition srv_commit : Commit :=
  let es := [demo_envelope 31 1 false; demo_envelope 32 1 true] in
  let h sig := {| h_Vault := demo_vault; h_Seq := 1; h_PrevHash := sha256 (genesis_input demo_vault);
    h_MerkleRoot := root_of (leaf_of <$> es); h_CurrentEpoch := 0; h_MembershipSeq := 1;
    h_MembershipHead := sha256 (op_input srv_create); h_Commit := demo_id 50; h_Author := demo_author;
    h_ClientTimeUnixMilli := 1500; h_SigAlg := SigEd25519; h_Sig := sig |} in
  {| c_Head := h (demo_sign demo_author_key (frames (head_fields (h [])))); c_Records := es; c_Purged := [] |}.

Definition srv_result : result uerror (Z * published) * DB := Service_Commit srv_cfg srv_p demo_vault 0 srv_commit srv_now srv_db1.

Lemma run_Ok {A} (a : A) (x : result uerror A * DB) : is_ok (fst x) = true → x = (Ok (of_ok a (fst x)), snd x).
Proof. by destruct x as [[|] ?]. Qed.
Lemma run_unit (x : result uerror unit * DB) : is_ok (fst x) = true → x = (Ok (), snd x).
Proof. by destruct x as [[[]|] ?]. Qed.

Lemma srv_db1_run : CreateVault srv_p srv_create srv_db0 = (Ok (), srv_db1).
Proof. unfold srv_db1. apply run_unit. vm_compute. reflexivity. Qed.

Lemma srv_create_vault : op_Vault srv_create = demo_vault.
Proof. vm_compute. reflexivity. Qed.

Lemma srv_db1_wf : ∃ vt, vault_wf srv_db1 demo_vault vt ∧ va_Seq vt = 0 ∧ MemberOps srv_db1 demo_vault = [srv_create].
Proof.
  pose proof (CreateVault_wf srv_p srv_create srv_db0 srv_db1 srv_db1_run) as Hc. rewrite srv_create_vault in Hc.
  destruct Hc as (m & vt & _ & Hw & Hq & _ & _ & Eo & _); [|exists vt; auto].
  constructor; intros; apply lookup_empty.
Qed.

Lemma srv_commit_run :
  Service_Commit srv_cfg srv_p demo_vault 0 srv_commit srv_now srv_db1
  = (Ok ((of_ok (0, None) (fst srv_result)).1, (of_ok (0, None) (fst srv_result)).2), snd srv_result).
Proof. rewrite <- surjective_pairing. unfold srv_result. apply run_Ok. vm_compute. reflexivity. Qed.

Lemma commit_refines_witness :
  ∃ s s', currentState srv_db1 demo_vault = Ok s ∧ currentState (snd srv_result) demo_vault = Ok s' ∧
    (of_ok (0, None) (fst srv_result)).1 = 1.
Proof.
  destruct srv_db1_wf as (vt & Hw & Hq & _).
  destruct (commit_refines srv_cfg srv_p demo_vault 0 srv_commit srv_now srv_db1 (snd srv_result) vt
              (of_ok (0, None) (fst srv_result)).1 (of_ok (0, None) (fst srv_result)).2)
    as (m & s & s' & vt' & _ & Hs & _ & _ & _ & Eq & Hs' & _).
  - exact srv_commit_run.
  - exact Hw.
  - rewrite Hq. reflexivity.
  - vm_compute. reflexivity.
  - exists s, s'. rewrite Hq in Eq. exact (conj Hs (conj Hs' Eq)).
Defined.

Lemma commit_retry_witness :
  Service_Commit srv_cfg srv_p demo_vault 9 srv_commit srv_now (snd srv_result)
  = (Ok ((of_ok (0, None) (fst srv_result)).1, None), snd srv_result).
Proof.
  destruct srv_db1_wf as (vt & Hw & Hq & _).
  refine (commit_retry srv_cfg srv_cfg srv_p demo_vault 0 9 srv_commit srv_now srv_now srv_db1 (snd srv_result) vt _ _ srv_commit_run Hw _).
  rewrite Hq. reflexivity.
Defined.

Lemma srv_append_run :
  AppendMembership srv_p demo_vault [srv_add] 5000 srv_db1
  = (Ok (of_ok None (fst (AppendMembership srv_p demo_vault [srv_add] 5000 srv_db1))), srv_db2).
Proof. unfold srv_db2. apply run_Ok. vm_compute. reflexivity. Qed.

Lemma append_refines_witness : ∃ m', replayMembership srv_db2 demo_vault = Ok m' ∧ MemberRole srv_db2 demo_vault (demo_id 2) = RoleEditor.
Proof.
  destruct srv_db1_wf as (vt & Hw & _ & Eo).
  destruct (append_refines srv_p demo_vault [srv_add] 5000 srv_db1 srv_db2 vt _ srv_append_run Hw)
    as (m & m' & vt' & _ & _ & Hm & _).
  - rewrite Eo. vm_compute. intros [=].
  - exists m'. split; [exact Hm|]. vm_compute. reflexivity.
Defined.

Definition srv_db3 : DB := snd (DeleteAccount "alice" srv_db2).

Lemma srv_db2_device : DeviceByID srv_db2 (op_AuthorDevice srv_create)
  = Some {| dv_Account := demo_id 1; dv_SigningKey := demo_author_key; dv_Revoked := false |}.
Proof. vm_compute. reflexivity. Qed.
Lemma srv_db2_op : srv_create ∈ MemberOps srv_db2 demo_vault.
Proof. apply list_elem_of_lookup. exists 0%nat. vm_compute. reflexivity. Qed.

Lemma deletion_blocks_shared_vault_witness : is_ok (replayMembership srv_db3 demo_vault) = false.
Proof.
  refine (proj1 (deletion_blocks_shared_vault "alice" srv_db2 srv_db3 (demo_id 1) (srv_account "alice" 1) demo_vault srv_create
            {| dv_Account := demo_id 1; dv_SigningKey := demo_author_key; dv_Revoked := false |} _ _ srv_db2_op srv_db2_device eq_refl _)).
  - unfold srv_db3. apply run_unit. vm_compute. reflexivity.
  - vm_compute. reflexivity.
  - apply (bool_decide_eq_true (is_Some (VaultByID srv_db3 demo_vault))). vm_compute. reflexivity.
Defined.
