(* ===== verification/ServerAuth.v ===== *)
(** * ServerAuth: how accounts come to be and how devices prove themselves

    [internal/syncserver/usecase]: [accounts.go] (invites, registration, freezing), [logins.go],
    [devices.go] (challenges and proofs), [password.go], [admin.go] (invites), the tokens of
    [service.go]; their queries in [internal/syncserver/store]: [accounts.go], [devices.go],
    [admin.go].

    A request runs on the service's state: the database and the maps the server holds in memory, each
    guarded by its mutex. A request with several critical sections lets others run between them:
    [yield] is such a point, and what the others do there is an argument. The readings of the clock
    and of the random source are arguments too, in the order a request takes them; a reading of the
    random source is [None] where it fails. The password protocol is a port ([AKE]). *)

From S2P Require Import Prelude Bytes GoText SyncBase Rows Canon Envelope Merkle Head DeviceLog Retention Membership MembershipLog VaultState Limiter ServerStore Server.

(** ** Ports *)

(** [vaultsync.PasswordAKEServer], and Unicode's table of capitals. Every answer of the protocol may
    depend on the coins it throws, the first argument. [LoginStart]'s session key is not used. *)
Class AKE := {
  ake_RegistrationResponse : bytes → bytes → ID → result uerror bytes;
  ake_ValidateRecord : bytes → result uerror unit;
  ake_LoginStart : bytes → bytes → bytes → ID → result uerror (bytes * bytes);  (* KE2, expected MAC *)
  ake_LoginStartUnknown : bytes → bytes → ID → result uerror bytes;
  ake_LoginFinish : bytes → bytes → bool;
  upper_wide : bytes → bytes;
}.

(** ** Queries *)

Definition InsertAccount (id : ID) (a : Account) : TX unit :=
  d ← tx_get;
  _ ← tx_fail_if (bool_decide (is_Some (db_accounts d !! id)) || bool_decide (is_Some (AccountByUsername d (ac_Username a)))) [EStore];
  tx_put (set_people (<[id := a]> (db_accounts d)) (db_devices d) (db_entries d) (db_tokens d) d).

(** [UPDATE accounts ... WHERE username = ?], with whether it changed a row. *)
Definition SetFrozen (username : string) (frozen : bool) : TX bool :=
  d ← tx_get;
  match AccountByUsername d username with
  | None => tx_lift (Ok false)
  | Some (id, a) =>
      _ ← tx_put (set_people (<[id := {| ac_Username := ac_Username a; ac_OPAQUERecord := ac_OPAQUERecord a; ac_Bundle := ac_Bundle a;
                                         ac_IdentityKey := ac_IdentityKey a; ac_EncryptionKey := ac_EncryptionKey a;
                                         ac_Created := ac_Created a; ac_Frozen := frozen |}]> (db_accounts d))
                             (db_devices d) (db_entries d) (db_tokens d) d);
      tx_lift (Ok true)
  end.

Definition UpdateAccountCredentials (account : ID) (record bundle : bytes) : TX unit :=
  d ← tx_get;
  match db_accounts d !! account with
  | None => tx_lift (Err [ErrNotFound])
  | Some a =>
      tx_put (set_people (<[account := {| ac_Username := ac_Username a; ac_OPAQUERecord := record; ac_Bundle := bundle;
                                          ac_IdentityKey := ac_IdentityKey a; ac_EncryptionKey := ac_EncryptionKey a;
                                          ac_Created := ac_Created a; ac_Frozen := ac_Frozen a |}]> (db_accounts d))
                         (db_devices d) (db_entries d) (db_tokens d) d)
  end.

Definition InsertInvite (codeHash : hash) (expires : Z) : TX unit :=
  d ← tx_get;
  _ ← tx_fail_if (bool_decide (is_Some (db_invites d !! codeHash))) [EStore];
  tx_put (set_invites (<[codeHash := {| inv_Expires := expires; inv_UsedBy := None |}]> (db_invites d)) d).

Definition invite_open (now : Z) (i : Invite) : bool := (inv_UsedBy i =?? None) && (now <? inv_Expires i).

Definition InviteUsable (d : DB) (codeHash : hash) (now : Z) : bool :=
  match db_invites d !! codeHash with Some i => invite_open now i | None => false end.

Definition ConsumeInvite (codeHash : hash) (now : Z) (account : ID) : TX bool :=
  d ← tx_get;
  match db_invites d !! codeHash with
  | Some i =>
      if invite_open now i
      then _ ← tx_put (set_invites (<[codeHash := {| inv_Expires := inv_Expires i; inv_UsedBy := Some account |}]> (db_invites d)) d);
           tx_lift (Ok true)
      else tx_lift (Ok false)
  | None => tx_lift (Ok false)
  end.

(** [DELETE ... WHERE used_by IS NULL AND substr(lower(hex(code_hash)), 1, ?) = ?], with the count; the
    prefix of the model is lower-case hex, as every caller's is. *)
Definition DeleteUnusedInvite (pre : bytes) : TX Z :=
  d ← tx_get;
  let doomed (kv : hash * Invite) := (inv_UsedBy kv.2 =?? None) && (take (length pre) (hex_encode (vec_to_list kv.1)) =?? pre) in
  _ ← tx_put (set_invites (filter (λ kv, doomed kv = false) (db_invites d)) d);
  tx_lift (Ok (len (filter (λ kv, doomed kv = true) (map_to_list (db_invites d))))).

Definition InsertToken (h : hash) (t : Token) : TX unit :=
  d ← tx_get;
  _ ← tx_fail_if (bool_decide (is_Some (db_tokens d !! h)) || negb (bool_decide (is_Some (db_accounts d !! tok_Account t)))) [EStore];
  tx_put (set_people (db_accounts d) (db_devices d) (db_entries d) (<[h := t]> (db_tokens d)) d).

(** [DELETE FROM tokens WHERE account = ? AND (device IS NULL OR device != ?)]. *)
Definition DeleteTokensForAccountExcept (account keep : ID) : TX unit :=
  tx_modify (λ d, set_people (db_accounts d) (db_devices d) (db_entries d)
    (filter (λ kv : hash * Token, ¬ (tok_Account kv.2 = account ∧ (tok_Device kv.2 = ID_zero ∨ tok_Device kv.2 ≠ keep))) (db_tokens d)) d).

Definition DeleteExpiredTokens (now : Z) : TX unit :=
  tx_modify (λ d, set_people (db_accounts d) (db_devices d) (db_entries d)
    (filter (λ kv : hash * Token, ¬ tok_Expires kv.2 ≤ now) (db_tokens d)) d).

(** ** The service *)

Definition pendingLoginTTL : Z := 2 * 60000.
Definition challengeTTL : Z := 60000.
Definition challengeBytes : nat := 32.
Definition accountTokenTTL : Z := 10 * 60000.
Definition accessTokenTTL : Z := 15 * 60000.
Definition maxPasswordRequest : Z := 1024.
Definition maxBundleSize : Z := 4096.

Record pendingLogin := {
  pl_account : ID; pl_username : string; pl_ip : string; pl_known : bool; pl_mac : bytes; pl_expires : Z;
}.
Record challenge := { ch_account : ID; ch_device : ID; ch_expires : Z }.

Record Service := {
  sv_db : DB;
  sv_logins : gmap bytes pendingLogin;
  sv_challenges : gmap bytes challenge;
  sv_limits : limiter;
}.

Definition newService (d : DB) : Service := {| sv_db := d; sv_logins := ∅; sv_challenges := ∅; sv_limits := newLimiter |}.

Definition sv_set_db (v : DB) (s : Service) : Service :=
  {| sv_db := v; sv_logins := sv_logins s; sv_challenges := sv_challenges s; sv_limits := sv_limits s |}.
Definition sv_set_logins (v : gmap bytes pendingLogin) (s : Service) : Service :=
  {| sv_db := sv_db s; sv_logins := v; sv_challenges := sv_challenges s; sv_limits := sv_limits s |}.
Definition sv_set_challenges (v : gmap bytes challenge) (s : Service) : Service :=
  {| sv_db := sv_db s; sv_logins := sv_logins s; sv_challenges := v; sv_limits := sv_limits s |}.
Definition sv_set_limits (v : limiter) (s : Service) : Service :=
  {| sv_db := sv_db s; sv_logins := sv_logins s; sv_challenges := sv_challenges s; sv_limits := v |}.

Definition SV (A : Type) : Type := ST Service uerror A.
#[export] Instance SV_bind : MBind SV := ST_bind.
Definition sv_lift {A} (r : result uerror A) : SV A := st_lift r.
Definition sv_fail_if (c : bool) (e : uerror) : SV unit := if c then st_fail e else st_lift (Ok ()).
Definition sv_get : SV Service := st_get.
Definition sv_modify (f : Service → Service) : SV unit := λ s, (Ok (), f s).

(** [s.cfg.Store.WithTx]. *)
Definition with_tx {A} (fn : TX A) : SV A := λ s, let '(r, d) := WithTx fn (sv_db s) in (r, sv_set_db d s).

(** What the other requests do between two critical sections of this one. *)
Definition yield (env : Service → Service) : SV unit := sv_modify env.

(** [randomBytes]. *)
Definition randomBytes {n} (r : option (array n)) : result uerror bytes :=
  match r with Some v => Ok (vec_to_list v) | None => Err [ERandom] end.

Definition issueToken `{Crypto} (r : option (array 32)) (now : Z) (account device : ID) (kind : TokenKind) (ttl : Z) : TX (bytes * Z) :=
  raw ← tx_lift (randomBytes r);
  let token := base64url_encode raw in
  let expires := wrap64 (now + ttl) in
  _ ← InsertToken (sha256 token) {| tok_Account := account; tok_Device := device; tok_Kind := kind; tok_Expires := expires |};
  tx_lift (Ok (token, expires)).

(** ** Logins ([logins.go]) *)

Definition logins_put (id : bytes) (l : pendingLogin) (now : Z) : SV unit :=
  sv_modify (λ s, sv_set_logins (<[id := l]> (filter (λ kv : bytes * pendingLogin, ¬ pl_expires kv.2 ≤ now) (sv_logins s))) s).

Definition logins_take (id : bytes) (now : Z) : SV (option pendingLogin) := λ s,
  (Ok (match sv_logins s !! id with Some l => if now <? pl_expires l then Some l else None | None => None end),
   sv_set_logins (delete id (sv_logins s)) s).

(** [hmac.New(sha256.New, key)] over a message. *)
Definition hmac_sha256 `{Crypto} (key msg : bytes) : bytes := hmac (λ m, vec_to_list (sha256 m)) key msg.

Definition fakeAccountID `{Crypto} (secret : bytes) (username : string) : ID :=
  default ID_zero (to_array 16 (take 16 (hmac_sha256 secret (bytes_of_string "fake-account" ++ [Byte.x00] ++ bytes_of_string username)))).

(** The pending login and the KE2 that answer KE1, from what the transaction read. *)
Definition answerKE1 `{Crypto, AKE} (secret : bytes) (username ip : string) (ke1 coins : bytes) (expires : Z) (found : option (ID * Account)) :
    result uerror (pendingLogin * bytes) :=
  let unknown :=
    let id := fakeAccountID secret username in
    match ake_LoginStartUnknown coins ke1 id with
    | Err e => Err (umalformed e)
    | Ok ke2 => Ok ({| pl_account := id; pl_username := username; pl_ip := ip; pl_known := false; pl_mac := []; pl_expires := expires |}, ke2)
    end in
  match found with
  | None => unknown
  | Some (id, a) =>
      if ac_Frozen a then unknown else
      match ake_LoginStart coins ke1 (ac_OPAQUERecord a) id with
      | Err e => Err (umalformed e)
      | Ok (ke2, mac) =>
          Ok ({| pl_account := id; pl_username := username; pl_ip := ip; pl_known := true; pl_mac := mac; pl_expires := expires |}, ke2)
      end
  end.

Definition LoginStart `{Crypto, AKE} (secret : bytes) (username ip : string) (ke1 : bytes) (coins : bytes) (r : option (array 16))
    (now : nat → Z) (env : nat → Service → Service) : SV (bytes * ID * bytes) :=
  s ← sv_get;
  let wait := limiter_check (sv_limits s) username ip (now 0%nat) in
  _ ← sv_fail_if (0 <? wait) [RateLimitedError wait];
  _ ← yield (env 0%nat);
  _ ← sv_modify (λ s, sv_set_limits (limiter_fail (sv_limits s) username ip (now 1%nat)) s);
  _ ← yield (env 1%nat);
  s ← sv_get;
  let expires := wrap64 (now 2%nat + pendingLoginTTL) in
  '(pending, ke2) ← sv_lift (answerKE1 secret username ip ke1 coins expires (AccountByUsername (sv_db s) username));
  raw ← sv_lift (randomBytes r);
  let id := hex_encode raw in
  _ ← yield (env 2%nat);
  _ ← logins_put id pending (now 3%nat);
  sv_lift (Ok (id, pl_account pending, ke2)).

Record LoginResult := { lr_AccountToken : bytes; lr_Bundle : bytes; lr_IdentityKey : bytes; lr_EncryptionKey : bytes }.

(** The transaction of [LoginFinish]. *)
Definition finishLogin `{Crypto} (account : ID) (r : option (array 32)) (now : Z) : TX LoginResult :=
  d ← tx_get;
  match AccountByID d account with
  | None => tx_lift (Err [ErrUnauthorized])
  | Some a =>
      _ ← tx_fail_if (ac_Frozen a) [ErrUnauthorized];
      '(token, _) ← issueToken r now account ID_zero TokenAccount accountTokenTTL;
      tx_lift (Ok {| lr_AccountToken := token; lr_Bundle := ac_Bundle a; lr_IdentityKey := ac_IdentityKey a;
                     lr_EncryptionKey := ac_EncryptionKey a |})
  end.

Definition LoginFinish `{Crypto, AKE} (loginID : bytes) (ip : string) (ke3 : bytes) (r : option (array 32)) (now : nat → Z)
    (env : nat → Service → Service) : SV LoginResult :=
  taken ← logins_take loginID (now 0%nat);
  match taken with
  | None => sv_lift (Err [ErrUnauthorized])
  | Some pending =>
      _ ← sv_fail_if (pl_ip pending <>? ip) [ErrUnauthorized];
      _ ← sv_fail_if (negb (pl_known pending) || negb (ake_LoginFinish ke3 (pl_mac pending))) [ErrUnauthorized];
      _ ← yield (env 0%nat);
      _ ← sv_modify (λ s, sv_set_limits (limiter_succeed (sv_limits s) (pl_username pending) ip) s);
      _ ← yield (env 1%nat);
      with_tx (finishLogin (pl_account pending) r (now 1%nat))
  end.

(** ** Device proofs ([devices.go]) *)

Definition activeDevice (d : DB) (account device : ID) : result uerror Device :=
  match AccountByID d account with
  | None => Err [ErrUnauthorized]
  | Some a =>
      fail_if ac_Frozen a with [ErrUnauthorized] ;;
      match DeviceByID d device with
      | None => Err [ErrUnauthorized]
      | Some dv => fail_if dv_Revoked dv || (dv_Account dv <>? account) with [ErrUnauthorized] ;; Ok dv
      end
  end.

(** The loop reads the clock at every entry: [tick k] is its reading at entry [k]. *)
Definition challenges_add (account device : ID) (nonce : bytes) (tick : bytes → Z) (now : Z) : SV unit :=
  sv_modify (λ s, sv_set_challenges
    (<[hex_encode nonce := {| ch_account := account; ch_device := device; ch_expires := wrap64 (now + challengeTTL) |}]>
       (filter (λ kv : bytes * challenge, ¬ ch_expires kv.2 ≤ tick kv.1) (sv_challenges s))) s).

Definition DeviceChallenge (account device : ID) (r : option (array 32)) (tick : bytes → Z) (now : Z) (env : Service → Service) : SV bytes :=
  _ ← with_tx (d ← tx_get; tx_lift (activeDevice d account device));
  nonce ← sv_lift (randomBytes r);
  _ ← yield env;
  _ ← challenges_add account device nonce tick now;
  sv_lift (Ok nonce).

Definition takeChallenge (account device : ID) (nonce : bytes) (now : Z) : SV bool := λ s,
  let key := hex_encode nonce in
  (Ok match sv_challenges s !! key with
      | Some c => (ch_account c =?? account) && (ch_device c =?? device) && (now <? ch_expires c)
      | None => false
      end,
   sv_set_challenges (delete key (sv_challenges s)) s).

(** The transaction of [DeviceVerify]. *)
Definition verifyDevice `{Crypto} (account device : ID) (msg sig : bytes) (r : option (array 32)) (now : Z) : TX (bytes * Z) :=
  d ← tx_get;
  dv ← tx_lift (activeDevice d account device);
  _ ← tx_fail_if (negb (is_ok (VerifySignature SigEd25519 (dv_SigningKey dv) msg sig))) [ErrUnauthorized];
  issueToken r now account device TokenAccess accessTokenTTL.

Definition DeviceVerify `{Crypto} (account device : ID) (nonce sig : bytes) (r : option (array 32)) (now : nat → Z)
    (env : Service → Service) : SV (bytes * Z) :=
  ok ← takeChallenge account device nonce (now 0%nat);
  _ ← sv_fail_if (negb ok) [ErrUnauthorized];
  msg ← sv_lift (lift_domain (DeviceAuthMessage account device nonce));
  _ ← yield env;
  with_tx (verifyDevice account device msg sig r (now 1%nat)).

(** ** Passwords ([password.go]) *)

Definition activeAccount (d : DB) (id : ID) : result uerror Account :=
  match AccountByID d id with
  | None => Err [ErrUnauthorized]
  | Some a => fail_if ac_Frozen a with [ErrFrozen] ;; Ok a
  end.

Definition PasswordStart `{AKE} (p : Principal) (request coins : bytes) (d : DB) : result uerror bytes :=
  fail_if (len request =? 0) || (maxPasswordRequest <? len request) with [ErrMalformed] ;;
  _ ← activeAccount d (p_Account p);
  ake_RegistrationResponse coins request (p_Account p).

Definition PasswordFinish `{Crypto, AKE} (p : Principal) (record bundle sig : bytes) : TX unit :=
  _ ← tx_fail_if ((len bundle =? 0) || (maxBundleSize <? len bundle)) [ErrMalformed];
  match ake_ValidateRecord record with
  | Err e => tx_lift (Err (umalformed e))
  | Ok _ => WithTx (
      d ← tx_get;
      acct ← tx_lift (activeAccount d (p_Account p));
      log ← tx_lift (lift_domain (replayDeviceLog (p_Account p) acct (DeviceEntries d (p_Account p))));
      msg ← tx_lift (lift_domain (RekeyMessage (p_Account p) record bundle));
      _ ← tx_fail_if (negb (is_ok (VerifySignature SigEd25519 (ds_identityKey log) msg sig))) [ErrUnauthorized];
      _ ← UpdateAccountCredentials (p_Account p) record bundle;
      DeleteTokensForAccountExcept (p_Account p) (p_Device p))
  end.

(** ** Invites and registration ([accounts.go], [admin.go]) *)

Definition inviteHash `{Crypto, AKE} (code : bytes) : hash := sha256 (strings_ToUpper upper_wide (TrimSpace code)).

Definition username_rune (r : Z) : bool :=
  ((97 <=? r) && (r <=? 122)) || ((48 <=? r) && (r <=? 57)) || (r =? 46) || (r =? 95) || (r =? 45).
Definition validUsername (name : string) : bool :=
  let b := bytes_of_string name in
  if (len b <? 3) || (64 <? len b) then false else forallb username_rune (runes b).

Definition CreateInvite `{Crypto, AKE} (ttl : Z) (r : option (array 16)) (now : Z) : TX bytes :=
  raw ← tx_lift (randomBytes r);
  let code := base32_encode raw in
  _ ← WithTx (InsertInvite (inviteHash code) (wrap64 (now + ttl)));
  tx_lift (Ok code).

(** [refuseUnless]; the reads of the model do not fail. *)
Definition refuseUnless (pass : bool) : result uerror unit := fail_if negb pass with [ErrForbidden] ;; Ok ().

Definition checkIdentifiersFree (d : DB) (username : string) (account : ID) : result uerror unit :=
  _ ← refuseUnless (negb (bool_decide (is_Some (AccountByUsername d username))));
  refuseUnless (negb (bool_decide (is_Some (AccountByID d account)))).

Definition RegisterStart `{Crypto, AKE} (invite : bytes) (username : string) (account : ID) (request coins : bytes) (now : Z) (d : DB) :
    result uerror bytes :=
  fail_if negb (validUsername username) || ID_IsZero account with [ErrMalformed] ;;
  _ ← refuseUnless (InviteUsable d (inviteHash invite) now);
  _ ← checkIdentifiersFree d username account;
  match ake_RegistrationResponse coins request account with
  | Err e => Err (umalformed e)
  | Ok resp => Ok resp
  end.

Record Registration := {
  rg_Invite : bytes; rg_Username : string; rg_Account : ID; rg_Record : bytes; rg_IdentityKey : bytes; rg_EncryptionKey : bytes;
  rg_Bundle : bytes; rg_Device : DeviceEntry; rg_Vault : MemberOp;
}.

(** The check [verifyGenesis] gives the vault's first operation. *)
Definition genesisCheck `{Crypto} (account : ID) (log : DeviceLogState) : SignatureCheck := λ author dev alg msg sig,
  match DeviceKey log dev with
  | Err _ => Err [ErrBadSignature]
  | Ok key => fail_if author <>? account with [ErrBadSignature] ;; VerifySignature alg key msg sig
  end.

(** The device's id, its row, and the members of the personal vault. *)
Definition verifyGenesis `{Crypto} (id : ID) (a : Account) (entry : DeviceEntry) (create : MemberOp) :
    result uerror (ID * Device * gmap ID Z) :=
  match de_Cert entry with
  | None => Err []
  | Some cert =>
      fail_if negb (de_Op entry =? OpAddDevice) || negb (de_Seq entry =? 1) with [] ;;
      log ← lift_domain (replayDeviceLog id a [entry]);
      let device := dc_Device cert in
      fail_if negb (op_Kind create =? MemberCreate) || (op_Author create <>? id) || (op_AuthorDevice create <>? device) with [] ;;
      m ← lift_domain (NewMembershipState (op_Vault create));
      _ ← lift_domain (member_step (genesisCheck id log) m create);
      Ok (device, {| dv_Account := id; dv_SigningKey := dc_SigningKey cert; dv_Revoked := false |}, {[ id := RoleOwner ]})
  end.

Definition storeRegistration (r : Registration) (a : Account) (device : ID) (dv : Device) (members : gmap ID Z) : TX unit :=
  _ ← InsertAccount (rg_Account r) a;
  _ ← AppendDeviceEntries (rg_Account r) [rg_Device r];
  _ ← insertDevice device dv;
  _ ← InsertVault (op_Vault (rg_Vault r)) {| va_Owner := rg_Account r; va_Seq := 0; va_MembershipSeq := 1; va_Bytes := 0;
                                            va_Personal := true; va_Deleted := false; va_PrunedSeq := 0 |};
  _ ← AppendMemberOps (op_Vault (rg_Vault r)) [rg_Vault r];
  ReplaceMembers (op_Vault (rg_Vault r)) members.

Definition registered (r : Registration) (created : Z) : Account := {|
  ac_Username := rg_Username r; ac_OPAQUERecord := rg_Record r; ac_Bundle := rg_Bundle r; ac_IdentityKey := rg_IdentityKey r;
  ac_EncryptionKey := rg_EncryptionKey r; ac_Created := created; ac_Frozen := false |}.

Definition RegisterFinish `{Crypto, AKE} (r : Registration) (now : nat → Z) : TX unit :=
  _ ← tx_fail_if (negb (validUsername (rg_Username r)) || (len (rg_Bundle r) =? 0) || (maxBundleSize <? len (rg_Bundle r))) [ErrMalformed];
  match ake_ValidateRecord (rg_Record r) with
  | Err e => tx_lift (Err (umalformed e))
  | Ok _ =>
      let account := registered r (now 0%nat) in
      match verifyGenesis (rg_Account r) account (rg_Device r) (rg_Vault r) with
      | Err e => tx_lift (Err (umalformed e))
      | Ok (device, dv, members) => WithTx (
          d ← tx_get;
          _ ← tx_lift (checkIdentifiersFree d (rg_Username r) (rg_Account r));
          _ ← tx_lift (refuseUnless (negb (bool_decide (is_Some (VaultByID d (op_Vault (rg_Vault r)))))));
          consumed ← ConsumeInvite (inviteHash (rg_Invite r)) (now 1%nat) (rg_Account r);
          _ ← tx_lift (refuseUnless consumed);
          storeRegistration r account device dv members)
      end
  end.

(** [Service.SetFrozen]. *)
Definition Service_SetFrozen (username : string) (frozen : bool) : TX unit := WithTx (
  changed ← SetFrozen username frozen;
  tx_fail_if (negb changed) [ErrNotFound]).

(** [strings] compare as SQLite's BINARY collation does. *)
Definition username_le (a b : ID * Account) : Prop :=
  bytes_leb (bytes_of_string (ac_Username a.2)) (bytes_of_string (ac_Username b.2)) = true.
#[export] Instance username_le_dec (a b : ID * Account) : Decision (username_le a b).
Proof. unfold username_le. apply _. Defined.
Definition ListAccounts (d : DB) : list (ID * Account) := merge_sort username_le (map_to_list (db_accounts d)).

Record InviteInfo := { in_ID : bytes; in_Expires : Z; in_Used : bool }.
Definition inviteIDLength : nat := 12.
Definition invite_le (a b : InviteInfo) : Prop := in_Expires a ≤ in_Expires b.
#[export] Instance invite_le_dec (a b : InviteInfo) : Decision (invite_le a b).
Proof. unfold invite_le. apply _. Defined.
(** The store's listing. *)
Definition stored_invites (d : DB) : list InviteInfo :=
  merge_sort invite_le ((λ kv : hash * Invite, {| in_ID := hex_encode (vec_to_list kv.1); in_Expires := inv_Expires kv.2;
    in_Used := bool_decide (is_Some (inv_UsedBy kv.2)) |}) <$> map_to_list (db_invites d)).
Definition ListInvites (d : DB) : list InviteInfo :=
  (λ i, {| in_ID := take inviteIDLength (in_ID i); in_Expires := in_Expires i; in_Used := in_Used i |}) <$> stored_invites d.

(** The pattern [^[0-9a-f]{12}$]. *)
Definition inviteID (id : bytes) : bool :=
  (len id =? Z.of_nat inviteIDLength) && forallb (λ c, in_range 48 57 c || in_range 97 102 c) id.

Definition RevokeInvite (id : bytes) : TX unit :=
  _ ← tx_fail_if (negb (inviteID id)) [ErrInviteNotFound];
  WithTx (
    n ← DeleteUnusedInvite id;
    tx_fail_if (negb (n =? 1)) [ErrInviteNotFound]).

Record ServerStats := { ss_Accounts : Z; ss_Frozen : Z; ss_Vaults : Z; ss_Commits : Z; ss_Bytes : Z }.
Definition Stats (d : DB) : ServerStats :=
  let live := filter (λ kv : ID * Vault, va_Deleted kv.2 = false) (map_to_list (db_vaults d)) in {|
  ss_Accounts := Z.of_nat (size (db_accounts d));
  ss_Frozen := len (filter (λ kv : ID * Account, ac_Frozen kv.2 = true) (map_to_list (db_accounts d)));
  ss_Vaults := len live;
  ss_Commits := Z.of_nat (size (db_commits d));
  ss_Bytes := foldr (λ kv acc, va_Bytes kv.2 + acc) 0 live |}.
