(* ===== verification/ServerRun.v ===== *)
(** * ServerRun: the sync server as one machine

    Every request of [Server] and [ServerAuth] that writes, as a step of the service's state. A
    request of several critical sections lets others run between them, and those are steps of the
    same machine. A small logic says what a transaction keeps; with it, each relation proved of the
    store's writes holds of whole histories of requests. *)

From S2P Require Import Prelude Bytes SyncBase Rows Canon Envelope Merkle Head DeviceLog Retention Membership MembershipLog VaultState Limiter ServerStore Server StoreLaws ServerAuth.

(** ** What a computation keeps *)

(** [m], run from [s], ends in a state related to [s]. *)
Definition keeps {S E A} (R : relation S) (m : ST S E A) (s : S) : Prop := R s (snd (m s)).

Section keeps.
Context {S E : Type} (R : relation S) `{!PreOrder R}.

Lemma keeps_lift {A} (r : result E A) s : keeps R (st_lift r) s.
Proof. unfold keeps. cbn. reflexivity. Qed.
Lemma keeps_bind {A B} (m : ST S E A) (f : A → ST S E B) s :
  keeps R m s → (∀ a s1, m s = (Ok a, s1) → keeps R (f a) s1) → keeps R (m ≫= f) s.
Proof.
  unfold keeps, mbind, ST_bind. intros Hm Hf. destruct (m s) as [[a|e] s1]; [|done]. cbn in Hm. etrans; [exact Hm|]. by apply Hf.
Qed.
End keeps.

Section keeps_tx.
Context (R : relation DB) `{!PreOrder R}.

Lemma keeps_get_bind {B} (f : DB → TX B) d : keeps R (f d) d → keeps R (tx_get ≫= f) d.
Proof. done. Qed.
Lemma keeps_lift_bind {A B} (r : result uerror A) (f : A → TX B) d :
  (∀ a, r = Ok a → keeps R (f a) d) → keeps R (tx_lift r ≫= f) d.
Proof. intros Hf. apply (keeps_bind R); [apply (keeps_lift R)|]. intros a ? [-> ->]%tx_lift_Ok. by apply Hf. Qed.
Lemma keeps_fail_if c e d : keeps R (tx_fail_if c e) d.
Proof. unfold keeps. destruct c; cbn; reflexivity. Qed.
Lemma keeps_fail_if_bind {B} c e (f : () → TX B) d : (c = false → keeps R (f ()) d) → keeps R (tx_fail_if c e ≫= f) d.
Proof. intros Hf. apply (keeps_bind R); [apply keeps_fail_if|]. intros [] ? [Hc ->]%tx_fail_if_Ok. by apply Hf. Qed.
Lemma keeps_put d' d : R d d' → keeps R (tx_put d') d.
Proof. done. Qed.
Lemma keeps_modify f d : R d (f d) → keeps R (tx_modify f) d.
Proof. done. Qed.
Lemma keeps_withtx {A} (fn : TX A) d : keeps R fn d → keeps R (WithTx fn) d.
Proof. unfold keeps, WithTx. destruct (fn d) as [[a|e] d1]; [done|]. cbn. reflexivity. Qed.
Lemma keeps_for {A} (l : list A) (f : A → TX unit) d : (∀ x d1, x ∈ l → keeps R (f x) d1) → keeps R (tx_for l f) d.
Proof.
  revert d. induction l as [|x l IH]; intros d Hf; cbn [tx_for]; [apply (keeps_lift R)|].
  apply (keeps_bind R); [apply Hf; left|]. intros [] d1 _. apply IH. intros y d2 Hy. apply Hf. by right.
Qed.

Lemma keeps_deleteVersions P d : (∀ vm, vm ⊆ db_versions d → R d (set_versions vm d)) → keeps R (deleteVersions P) d.
Proof.
  intros Hv. unfold deleteVersions. apply keeps_get_bind. cbv zeta. destruct (_ =? 0); [apply (keeps_lift R)|].
  apply (keeps_bind R); [|intros; apply (keeps_lift R)]. apply keeps_put, Hv, map_filter_subseteq.
Qed.
Lemma keeps_DeleteRecords v rs n d :
  (∀ d vm, vm ⊆ db_versions d → R d (set_versions vm d)) → keeps R (DeleteRecords v rs n) d.
Proof.
  intros Hv. revert n d. induction rs as [|r rs IH]; intros n d; cbn [DeleteRecords]; [apply (keeps_lift R)|].
  apply (keeps_bind R); [apply keeps_deleteVersions, Hv|]. intros q d1 _. apply IH.
Qed.
End keeps_tx.

(** Follow a transaction to its writes. *)
Ltac keep_step R :=
  match goal with
  | |- keeps _ (tx_get ≫= _) _ => apply (keeps_get_bind R)
  | |- keeps _ (tx_lift _ ≫= _) _ => apply (keeps_lift_bind R); intros ? ?
  | |- keeps _ (tx_fail_if _ _ ≫= _) _ => apply (keeps_fail_if_bind R); intros ?
  | |- keeps _ (tx_lift _) _ => apply (keeps_lift R)
  | |- keeps _ (tx_fail_if _ _) _ => apply (keeps_fail_if R)
  | |- keeps _ (WithTx _) _ => apply (keeps_withtx R)
  | |- keeps _ (tx_put _) _ => apply (keeps_put R)
  | |- keeps _ (tx_modify _) _ => apply (keeps_modify R)
  | |- keeps _ (tx_for _ _) _ => apply (keeps_for R); intros ? ? ?
  | |- keeps _ (deleteVersions _) _ => apply (keeps_deleteVersions R); intros ? ?
  | |- keeps _ (DeleteRecords _ _ _) _ => apply (keeps_DeleteRecords R); intros ? ? ?
  | |- keeps _ (_ ≫= _) _ => apply (keeps_bind R); [|intros ? ? ?]
  | |- keeps _ (match ?x with _ => _ end) _ => destruct x eqn:?
  | |- keeps _ (let _ := _ in _) _ => cbv zeta
  | |- keeps _ ((λ _, _) _) _ => cbv beta
  end.

Ltac head_of t := match t with ?f _ => head_of f | _ => t end.
(** A query or a request by name is opened when it is reached. *)
Ltac keep R := repeat first [keep_step R | match goal with |- keeps _ ?m _ => let h := head_of m in unfold h end].

(** ** Requests *)

(** The requests that are one transaction; account deletion is apart, being the one that removes history. *)
Inductive request `{Crypto, AKE} :=
  | RqCommit (p : Principal) (vault : ID) (expectSeq : Z) (c : Commit) (now : nat → Z)
  | RqCreateVault (p : Principal) (create : MemberOp)
  | RqAppendMembership (p : Principal) (vault : ID) (ops : list MemberOp) (now : Z)
  | RqAppendDeviceLog (p : Principal) (entries : list DeviceEntry)
  | RqPruneAll (now : nat → Z)
  | RqCreateInvite (ttl : Z) (r : option (array 16)) (now : Z)
  | RqRevokeInvite (id : bytes)
  | RqRegisterFinish (r : Registration) (now : nat → Z)
  | RqSetFrozen (username : string) (frozen : bool)
  | RqPasswordFinish (p : Principal) (record bundle sig : bytes).

Definition effect {A} (m : TX A) (d : DB) : DB := snd (m d).

Definition serve `{Crypto, AKE} (cfg : Config) (rq : request) (d : DB) : DB :=
  match rq with
  | RqCommit p v e c now => effect (Service_Commit cfg p v e c now) d
  | RqCreateVault p op => effect (CreateVault p op) d
  | RqAppendMembership p v ops now => effect (AppendMembership p v ops now) d
  | RqAppendDeviceLog p es => effect (AppendDeviceLog p es) d
  | RqPruneAll now => effect (PruneAll now) d
  | RqCreateInvite ttl r now => effect (CreateInvite ttl r now) d
  | RqRevokeInvite id => effect (RevokeInvite id) d
  | RqRegisterFinish r now => effect (RegisterFinish r now) d
  | RqSetFrozen u f => effect (Service_SetFrozen u f) d
  | RqPasswordFinish p rec bun sig => effect (PasswordFinish p rec bun sig) d
  end.

Section run.
Context `{Crypto, AKE} (cfg : Config).

(** [run del n s s']: [n] requests lead from [s] to [s'], overlapping as their critical sections let
    them; [del] tells whether accounts may be deleted. *)
Inductive run (del : bool) : nat → relation Service :=
  | run_none s : run del 0 s s
  | run_more m n s1 s2 s3 : run del m s1 s2 → run del n s2 s3 → run del (m + n) s1 s3
  | run_tx rq s : run del 1 s (sv_set_db (serve cfg rq (sv_db s)) s)
  | run_delete username s : del = true → run del 1 s (sv_set_db (effect (DeleteAccount username) (sv_db s)) s)
  | run_LoginStart secret username ip ke1 coins r now env (n : nat → nat) s :
      (∀ i x, run del (n i) x (env i x)) →
      run del (1 + n 0%nat + n 1%nat + n 2%nat) s (snd (LoginStart secret username ip ke1 coins r now env s))
  | run_LoginFinish id ip ke3 r now env (n : nat → nat) s :
      (∀ i x, run del (n i) x (env i x)) → run del (1 + n 0%nat + n 1%nat) s (snd (LoginFinish id ip ke3 r now env s))
  | run_DeviceChallenge account device r tick now env n s :
      (∀ x, run del n x (env x)) → run del (1 + n) s (snd (DeviceChallenge account device r tick now env s))
  | run_DeviceVerify account device nonce sig r now env n s :
      (∀ x, run del n x (env x)) → run del (1 + n) s (snd (DeviceVerify account device nonce sig r now env s)).

(** A relation between databases, graded by the number of requests, that every transaction respects
    holds along every run. *)
Class run_rel (R : nat → relation DB) (del : bool) := {
  rr_refl d : R 0%nat d d;
  rr_trans m n d1 d2 d3 : R m d1 d2 → R n d2 d3 → R (m + n)%nat d1 d3;
  rr_mono m n d d' : (m ≤ n)%nat → R m d d' → R n d d';
  rr_serve rq d : R 1%nat d (serve cfg rq d);
  rr_delete username d : del = true → R 1%nat d (effect (DeleteAccount username) d);
  rr_login account r now d : R 1%nat d (effect (finishLogin account r now) d);
  rr_device account device msg sig r now d : R 1%nat d (effect (verifyDevice account device msg sig r now) d);
}.

Section rel.
Context (R : nat → relation DB) (del : bool) `{!run_rel R del}.

Definition sv_keeps {A} (n : nat) (m : SV A) (s : Service) : Prop := R n (sv_db s) (sv_db (snd (m s))).

Lemma sv_keeps_same {A} n (m : SV A) s : sv_db (snd (m s)) = sv_db s → sv_keeps n m s.
Proof. unfold sv_keeps. intros ->. eapply rr_mono; [|apply rr_refl]. lia. Qed.
Lemma sv_keeps_bind {A B} a b (m : SV A) (f : A → SV B) s :
  sv_keeps a m s → (∀ x s1, m s = (Ok x, s1) → sv_keeps b (f x) s1) → sv_keeps (a + b) (m ≫= f) s.
Proof.
  unfold sv_keeps. intros Hm Hf. unfold mbind, SV_bind, ST_bind. destruct (m s) as [[x|e] s1] eqn:E; cbn in Hm |- *.
  - eapply rr_trans; [exact Hm|]. by apply Hf.
  - eapply rr_mono; [|exact Hm]. lia.
Qed.
(** A step that leaves the database alone costs nothing. *)
Lemma sv_keeps_quiet {A B} n (m : SV A) (f : A → SV B) s :
  sv_db (snd (m s)) = sv_db s → (∀ x s1, m s = (Ok x, s1) → sv_keeps n (f x) s1) → sv_keeps n (m ≫= f) s.
Proof. intros Hm Hf. apply (sv_keeps_bind 0 n); [by apply sv_keeps_same|done]. Qed.
Lemma sv_fail_if_db c e s : sv_db (snd (sv_fail_if c e s)) = sv_db s.
Proof. by destruct c. Qed.
Lemma sv_keeps_yield n env s : (∀ x, R n (sv_db x) (sv_db (env x))) → sv_keeps n (yield env) s.
Proof. intros He. apply He. Qed.
Lemma sv_keeps_tx {A} (fn : TX A) s : R 1%nat (sv_db s) (effect fn (sv_db s)) → sv_keeps 1 (with_tx fn) s.
Proof.
  unfold sv_keeps, with_tx, WithTx, effect. destruct (fn (sv_db s)) as [[a|e] d] eqn:E; cbn; [done|].
  intros _. eapply rr_mono; [|apply rr_refl]. lia.
Qed.

(** Follow a request through the steps that do not write the database. *)
Ltac quiet := apply sv_keeps_quiet; [try done; try apply sv_fail_if_db|intros ? ? _].

Lemma LoginStart_keeps secret username ip ke1 coins r now env (n : nat → nat) s :
  (∀ i x, R (n i) (sv_db x) (sv_db (env i x))) →
  sv_keeps (1 + n 0%nat + n 1%nat + n 2%nat) (LoginStart secret username ip ke1 coins r now env) s.
Proof.
  intros He. unfold LoginStart. replace (1 + n 0 + n 1 + n 2)%nat with (n 0 + (n 1 + (n 2 + 1)))%nat by lia.
  quiet. cbv zeta. quiet. apply sv_keeps_bind; [by apply sv_keeps_yield|intros ? ? _].
  quiet. apply sv_keeps_bind; [by apply sv_keeps_yield|intros ? ? _]. quiet. cbv zeta. apply sv_keeps_quiet; [done|intros [pending ke2] ? _].
  quiet. apply sv_keeps_bind; [by apply sv_keeps_yield|intros ? ? _]. quiet. by apply sv_keeps_same.
Qed.

Lemma LoginFinish_keeps id ip ke3 r now env (n : nat → nat) s :
  (∀ i x, R (n i) (sv_db x) (sv_db (env i x))) → sv_keeps (1 + n 0%nat + n 1%nat) (LoginFinish id ip ke3 r now env) s.
Proof.
  intros He. unfold LoginFinish. replace (1 + n 0 + n 1)%nat with (n 0 + (n 1 + 1))%nat by lia.
  apply sv_keeps_quiet; [done|intros [pending|] ? _]; [|by apply sv_keeps_same]. quiet. quiet.
  apply sv_keeps_bind; [by apply sv_keeps_yield|intros ? ? _]. quiet. apply sv_keeps_bind; [by apply sv_keeps_yield|intros ? ? _].
  apply sv_keeps_tx, rr_login.
Qed.

Lemma read_db {A} (f : DB → result uerror A) s : sv_db (snd (with_tx (d ← tx_get; tx_lift (f d)) s)) = sv_db s.
Proof. unfold with_tx, WithTx. rewrite TX_bind_run. cbn [tx_get st_get tx_lift st_lift]. destruct (f (sv_db s)); by destruct s. Qed.

Lemma DeviceChallenge_keeps account device r tick now env n s :
  (∀ x, R n (sv_db x) (sv_db (env x))) → sv_keeps (1 + n) (DeviceChallenge account device r tick now env) s.
Proof.
  intros He. unfold DeviceChallenge. rewrite Nat.add_comm. apply sv_keeps_quiet; [apply read_db|intros ? ? _]. quiet.
  apply sv_keeps_bind; [by apply sv_keeps_yield|intros ? ? _]. quiet. by apply sv_keeps_same.
Qed.

Lemma DeviceVerify_keeps account device nonce sig r now env n s :
  (∀ x, R n (sv_db x) (sv_db (env x))) → sv_keeps (1 + n) (DeviceVerify account device nonce sig r now env) s.
Proof.
  intros He. unfold DeviceVerify. rewrite Nat.add_comm. quiet. quiet. quiet.
  apply sv_keeps_bind; [by apply sv_keeps_yield|intros ? ? _]. apply sv_keeps_tx, rr_device.
Qed.

Lemma run_related n s s' : run del n s s' → R n (sv_db s) (sv_db s').
Proof.
  induction 1 as [s|m n s1 s2 s3 _ IH1 _ IH2|rq s|username s Hd|* _ IH|* _ IH|* _ IH|* _ IH].
  - apply rr_refl.
  - by eapply rr_trans.
  - apply rr_serve.
  - by apply rr_delete.
  - by apply LoginStart_keeps.
  - by apply LoginFinish_keeps.
  - by apply DeviceChallenge_keeps.
  - by apply DeviceVerify_keeps.
Qed.
End rel.
End run.

(** ** History is only added to *)

(** Every row is still there, changed at most as [P] allows. *)
Definition map_grow {K A} `{Countable K} (P : relation A) (m m' : gmap K A) : Prop :=
  ∀ k x, m !! k = Some x → ∃ y, m' !! k = Some y ∧ P x y.

Section map_grow.
Context {K A} `{Countable K} (P : relation A) `{!PreOrder P}.
Implicit Types m : gmap K A.

#[export] Instance map_grow_pre : PreOrder (map_grow (K := K) P).
Proof.
  split; [intros m k x Hx; exists x; split; [done|reflexivity]|]. intros m1 m2 m3 H12 H23 k x Hx.
  destruct (H12 k x Hx) as (y & Hy & Pxy). destruct (H23 k y Hy) as (z & Hz & Pyz). exists z. split; [done|by etrans].
Qed.
Lemma map_grow_new m k x : m !! k = None → map_grow P m (<[k := x]> m).
Proof. intros Hn k' y Hy. exists y. split; [|reflexivity]. rewrite lookup_insert_ne; [done|congruence]. Qed.
Lemma map_grow_upd m k x0 x : m !! k = Some x0 → P x0 x → map_grow P m (<[k := x]> m).
Proof.
  intros H0 HP k' y Hy. destruct (decide (k' = k)) as [->|Hne].
  - exists x. rewrite lookup_insert_eq. split; [done|congruence].
  - exists y. rewrite lookup_insert_ne by done. split; [done|reflexivity].
Qed.
Lemma map_grow_alter m k f : (∀ x, P x (f x)) → map_grow P m (alter f k m).
Proof.
  intros Hf k' y Hy. rewrite lookup_alter. destruct (decide (k = k')) as [->|Hne]; rewrite Hy.
  - eauto.
  - exists y. split; [done|reflexivity].
Qed.
End map_grow.

(** What a row may become. *)
Definition account_same (a a' : Account) : Prop :=
  ac_Username a' = ac_Username a ∧ ac_IdentityKey a' = ac_IdentityKey a ∧ ac_EncryptionKey a' = ac_EncryptionKey a ∧ ac_Created a' = ac_Created a.
Definition device_same (dv dv' : Device) : Prop :=
  dv_Account dv' = dv_Account dv ∧ dv_SigningKey dv' = dv_SigningKey dv ∧ (dv_Revoked dv = true → dv_Revoked dv' = true).
Definition vault_later (vt vt' : Vault) : Prop :=
  va_Owner vt' = va_Owner vt ∧ va_Personal vt' = va_Personal vt ∧ va_Deleted vt' = va_Deleted vt ∧ va_PrunedSeq vt ≤ va_PrunedSeq vt'.
(** A used invite is the record of a registration and stays as it is. *)
Definition used_kept (m m' : gmap hash Invite) : Prop :=
  ∀ h i u, m !! h = Some i → inv_UsedBy i = Some u → m' !! h = Some i.

#[export] Instance account_same_pre : PreOrder account_same.
Proof. split; [by intros a|]. intros a b c. unfold account_same. intuition congruence. Qed.
#[export] Instance device_same_pre : PreOrder device_same.
Proof. split; [by intros a|]. intros a b c. unfold device_same. intuition congruence. Qed.
#[export] Instance vault_later_pre : PreOrder vault_later.
Proof. split; [by intros a|]. intros a b c (?&?&?&?) (?&?&?&?). unfold vault_later. split_and!; [congruence..|lia]. Qed.
#[export] Instance used_kept_pre : PreOrder used_kept.
Proof. split; [by intros m h i u|]. intros m1 m2 m3 H12 H23 h i u Hi Hu. eauto. Qed.

Record grows (d d' : DB) : Prop := {
  gr_accounts : map_grow account_same (db_accounts d) (db_accounts d');
  gr_devices : map_grow device_same (db_devices d) (db_devices d');
  gr_entries : map_grow eq (db_entries d) (db_entries d');
  gr_vaults : map_grow vault_later (db_vaults d) (db_vaults d');
  gr_commits : map_grow eq (db_commits d) (db_commits d');
  gr_invites : used_kept (db_invites d) (db_invites d');
}.
#[export] Instance grows_pre : PreOrder grows.
Proof. split; [intros d; constructor; reflexivity|]. intros a b c [] []. constructor; etrans; eassumption. Qed.
Definition invites_kept (d d' : DB) : Prop := used_kept (db_invites d) (db_invites d').
#[export] Instance invites_kept_pre : PreOrder invites_kept.
Proof. split; [intros d; red; reflexivity|]. intros a b c. apply used_kept_pre. Qed.

Lemma not_some {A} (o : option A) : bool_decide (is_Some o) = false → o = None.
Proof. intros Hn. apply eq_None_not_Some. by apply bool_decide_eq_false in Hn. Qed.

Lemma AccountByUsername_row d u id a : AccountByUsername d u = Some (id, a) → db_accounts d !! id = Some a ∧ ac_Username a = u.
Proof. intros [Hin%list_elem_of_In%elem_of_map_to_list Hu]%find_some. cbn in Hu. bool_simpl. done. Qed.

Lemma used_kept_new m h i : m !! h = None → used_kept m (<[h := i]> m).
Proof. intros Hn h' i' u Hi _. rewrite lookup_insert_ne; [done|congruence]. Qed.
Lemma used_kept_open m h i i' : m !! h = Some i → inv_UsedBy i = None → used_kept m (<[h := i']> m).
Proof. intros Hi Hn h' j u Hj Hu. rewrite lookup_insert_ne; [done|congruence]. Qed.
Lemma used_kept_filter m (f : hash * Invite → bool) :
  used_kept m (filter (λ kv, (inv_UsedBy kv.2 =?? None) && f kv = false) m).
Proof.
  intros h i u Hi Hu. apply map_lookup_filter_Some. split; [done|]. cbn. rewrite Hu, bool_decide_eq_false_2; done.
Qed.
Lemma invite_open_unused now i : invite_open now i = true → inv_UsedBy i = None.
Proof. unfold invite_open. intros Ho. by bool_simpl. Qed.

Create HintDb grow.
#[export] Hint Resolve used_kept_open used_kept_filter invite_open_unused : grow.
#[export] Hint Extern 1 (_ = None) => (apply eq_None_not_Some; assumption) || (apply not_some; assumption) : grow.
#[export] Hint Extern 1 (used_kept _ (<[_ := _]> _)) => apply used_kept_new : grow.
#[export] Hint Extern 1 (map_grow _ _ (<[_ := _]> _)) => apply (map_grow_new _); solve [auto with grow] : grow.
#[export] Hint Extern 2 (map_grow _ _ (<[_ := _]> _)) => eapply (map_grow_upd _); [eassumption|done] : grow.
#[export] Hint Extern 1 (map_grow _ _ (alter _ _ _)) => apply (map_grow_alter _); intros ? : grow.
#[export] Hint Extern 1 (vault_later _ _) => unfold vault_later; cbn; split_and!; [done..|lia] : grow.

(** One write of a transaction. *)
Ltac grow_leaf := constructor; cbn; try reflexivity; bool_simpl; eauto with grow.

Ltac keep_effect R := unfold effect; match goal with |- _ (snd (?m ?d)) => change (keeps R m d) end; keep R.

Section history.
Context `{Crypto, AKE} (cfg : Config).

Lemma serve_grows rq d : grows d (serve cfg rq d).
Proof.
  destruct rq; unfold serve; keep_effect grows; grow_leaf.
  match goal with H : AccountByUsername _ _ = Some _ |- _ => apply AccountByUsername_row in H as [] end. eauto with grow.
Qed.

#[export] Instance grows_run : run_rel cfg (λ _, grows) false.
Proof.
  constructor; intros.
  - reflexivity.
  - by etrans.
  - done.
  - apply serve_grows.
  - done.
  - keep_effect grows; grow_leaf.
  - keep_effect grows; grow_leaf.
Qed.

Lemma run_grows n s s' : run cfg false n s s' → grows (sv_db s) (sv_db s').
Proof. apply (run_related cfg (λ _, grows) false). Qed.

#[export] Instance used_run del : run_rel cfg (λ _, invites_kept) del.
Proof.
  constructor; intros.
  - reflexivity.
  - by etrans.
  - done.
  - apply serve_grows.
  - keep_effect invites_kept; red; reflexivity.
  - keep_effect invites_kept; red; reflexivity.
  - keep_effect invites_kept; red; reflexivity.
Qed.

Lemma run_used del n s s' : run cfg del n s s' → invites_kept (sv_db s) (sv_db s').
Proof. apply (run_related cfg (λ _, invites_kept) del). Qed.
End history.
