(* ===== verification/ServerAuthLaws.v ===== *)
(** * ServerAuthLaws: who the server lets in

    What a login, a device proof, a password change and a registration establish, and that a revoked
    device, a spent nonce and a used invite stay so in every history of requests. *)

From S2P Require Import Prelude Bytes GoText SyncBase Rows Sha2 Canon Envelope Merkle Head DeviceLog Retention Membership MembershipLog VaultState Limiter ServerStore Server StoreLaws ServerLaws ServerAuth ServerRun.

(** ** Taking a request apart *)

Lemma SV_bind_Ok {A B} (m : SV A) (f : A → SV B) s b s' :
  (m ≫= f) s = (Ok b, s') ↔ ∃ a s1, m s = (Ok a, s1) ∧ f a s1 = (Ok b, s').
Proof. unfold mbind, SV_bind, ST_bind. destruct (m s) as [[a|e] s1]; naive_solver. Qed.
Lemma sv_lift_Ok {A} (r : result uerror A) s a s' : sv_lift r s = (Ok a, s') ↔ r = Ok a ∧ s' = s.
Proof. unfold sv_lift, st_lift. naive_solver. Qed.
Lemma sv_fail_if_Ok c e s u s' : sv_fail_if c e s = (Ok u, s') ↔ c = false ∧ s' = s.
Proof. destruct u. unfold sv_fail_if, st_fail, st_lift. destruct c; naive_solver. Qed.
Lemma yield_Ok env s u s' : yield env s = (Ok u, s') ↔ s' = env s.
Proof. destruct u. unfold yield, sv_modify. naive_solver. Qed.
Lemma with_tx_Ok {A} (fn : TX A) s a s' :
  with_tx fn s = (Ok a, s') ↔ ∃ d, fn (sv_db s) = (Ok a, d) ∧ s' = sv_set_db d s.
Proof. unfold with_tx, WithTx. destruct (fn (sv_db s)) as [[x|e] d]; naive_solver. Qed.

Lemma activeDevice_Ok d account device dv :
  activeDevice d account device = Ok dv ↔
  (∃ a, db_accounts d !! account = Some a ∧ ac_Frozen a = false) ∧
  db_devices d !! device = Some dv ∧ dv_Revoked dv = false ∧ dv_Account dv = account.
Proof.
  unfold activeDevice, AccountByID, DeviceByID. destruct (db_accounts d !! account) as [a|]; [|naive_solver].
  rewrite fail_if_Ok. destruct (db_devices d !! device) as [dv'|]; [|naive_solver]. rewrite fail_if_Ok, orb_false_iff, negb_false_iff, bool_decide_eq_true.
  split; [intros (? & [? ?] & <-%Ok_inj); split_and!; eauto|]. intros ((a' & Ea & ?) & Ed & ? & ?). injection Ea as <-. injection Ed as ->. done.
Qed.

Lemma activeDevice_Err d account device e : activeDevice d account device = Err e → e = [ErrUnauthorized].
Proof. unfold activeDevice. repeat case_match; naive_solver. Qed.

Lemma DeviceAuthMessage_Ok account device nonce msg :
  DeviceAuthMessage account device nonce = Ok msg →
  msg = frames [bytes_of_string LabelDeviceAuth; vec_to_list account; vec_to_list device; nonce].
Proof.
  unfold DeviceAuthMessage. rewrite NewCanon_fields.
  change (Encoded (fields_canon [bytes_of_string LabelDeviceAuth; vec_to_list account; vec_to_list device; nonce]) = Ok msg →
    msg = frames [bytes_of_string LabelDeviceAuth; vec_to_list account; vec_to_list device; nonce]).
  by intros [_ ->]%Encoded_fields.
Qed.

Lemma RekeyMessage_Ok account record bundle msg :
  RekeyMessage account record bundle = Ok msg → msg = frames [bytes_of_string LabelRekey; vec_to_list account; record; bundle].
Proof.
  unfold RekeyMessage. rewrite NewCanon_fields.
  change (Encoded (fields_canon [bytes_of_string LabelRekey; vec_to_list account; record; bundle]) = Ok msg →
    msg = frames [bytes_of_string LabelRekey; vec_to_list account; record; bundle]).
  by intros [_ ->]%Encoded_fields.
Qed.

Section laws.
Context `{Crypto, AKE}.

(** The token a request returns is the one whose hash was stored. *)
Lemma issueToken_Ok r now account device kind ttl d token expires d' :
  issueToken r now account device kind ttl d = (Ok (token, expires), d') →
  expires = wrap64 (now + ttl) ∧ db_tokens d !! sha256 token = None ∧ is_Some (db_accounts d !! account) ∧
  d' = set_people (db_accounts d) (db_devices d) (db_entries d)
         (<[sha256 token := {| tok_Account := account; tok_Device := device; tok_Kind := kind; tok_Expires := expires |}]> (db_tokens d)) d.
Proof.
  unfold issueToken. intros Hi. apply TX_bind_Ok in Hi as (raw & ? & [Hr ->]%tx_lift_Ok & Hi). cbv zeta in Hi.
  apply TX_bind_Ok in Hi as ([] & d1 & Hins & [[= <- <-]%Ok_inj ->]%tx_lift_Ok). unfold InsertToken in Hins.
  tx_step Hins. tx_step Hins. apply tx_put_Ok in Hins as ->. cbn in *. bool_simpl.
  split_and!; [done|by apply eq_None_not_Some|done|done].
Qed.

Lemma Authenticate_Ok token kinds now d p :
  Authenticate token kinds now d = Ok p ↔
  ∃ t a, db_tokens d !! sha256 token = Some t ∧ now < tok_Expires t ∧ tok_Kind t ∈ kinds ∧
    db_accounts d !! tok_Account t = Some a ∧ ac_Frozen a = false ∧
    (tok_Kind t = TokenAccess → ∃ dv, db_devices d !! tok_Device t = Some dv ∧ dv_Revoked dv = false) ∧
    p = {| p_Account := tok_Account t; p_Device := tok_Device t; p_Kind := tok_Kind t |}.
Proof.
  unfold Authenticate, AccountByID, DeviceByID. destruct (db_tokens d !! sha256 token) as [t|]; [|naive_solver].
  rewrite fail_if_Ok, orb_false_iff, negb_false_iff, Z.leb_gt, bool_decide_eq_true.
  destruct (db_accounts d !! tok_Account t) as [a|] eqn:Ea.
  2: { split; [by intros [_ ?]|]. intros (? & ? & [= <-] & _ & _ & ? & _). congruence. }
  rewrite fail_if_Ok, bind_Ok. split.
  - intros ([? ?] & ? & [] & Hd & <-%Ok_inj). exists t, a. split_and!; try done. intros Hk. rewrite bool_decide_eq_true_2 in Hd by done.
    destruct (db_devices d !! tok_Device t) as [dv|]; [|done]. apply fail_if_Ok in Hd as [? _]. eauto.
  - intros (t' & a' & [= <-] & ? & ? & Ea' & ? & Hd & ->). rewrite Ea in Ea'. injection Ea' as <-. split_and!; [done..|].
    exists (). split; [|done]. destruct (decide (tok_Kind t = TokenAccess)) as [Hk|Hk].
    + rewrite bool_decide_eq_true_2 by done. destruct (Hd Hk) as (dv & -> & ->). done.
    + by rewrite bool_decide_eq_false_2.
Qed.

(** ** Device proofs *)

(** The state a proof of [nonce] leaves its first critical section with. *)
Definition nonce_spent (nonce : bytes) (s : Service) : Service := sv_set_challenges (delete (hex_encode nonce) (sv_challenges s)) s.

Lemma DeviceVerify_Ok account device nonce sig r now env s res s' :
  DeviceVerify account device nonce sig r now env s = (Ok res, s') →
  ∃ c dv d', sv_challenges s !! hex_encode nonce = Some c ∧ ch_account c = account ∧ ch_device c = device ∧ now 0%nat < ch_expires c ∧
    activeDevice (sv_db (env (nonce_spent nonce s))) account device = Ok dv ∧
    VerifySignature SigEd25519 (dv_SigningKey dv) (frames [bytes_of_string LabelDeviceAuth; vec_to_list account; vec_to_list device; nonce]) sig = Ok () ∧
    issueToken r (now 1%nat) account device TokenAccess accessTokenTTL (sv_db (env (nonce_spent nonce s))) = (Ok res, d') ∧
    s' = sv_set_db d' (env (nonce_spent nonce s)).
Proof.
  unfold DeviceVerify. intros (ok & ? & Ht & Hv)%SV_bind_Ok. unfold takeChallenge in Ht. injection Ht as <- <-.
  apply SV_bind_Ok in Hv as ([] & ? & [Hok ->]%sv_fail_if_Ok & Hv). apply SV_bind_Ok in Hv as (msg & ? & [Hm ->]%sv_lift_Ok & Hv).
  apply SV_bind_Ok in Hv as ([] & ? & ->%yield_Ok & Hv). apply with_tx_Ok in Hv as (d & Hv & ->). fold (nonce_spent nonce s) in Hv |- *.
  destruct (sv_challenges s !! hex_encode nonce) as [c|] eqn:Ec; [|done].
  apply negb_false_iff, andb_true_iff in Hok as [[Eac%bool_decide_eq_true Edv%bool_decide_eq_true]%andb_true_iff Hexp%Z.ltb_lt].
  unfold verifyDevice in Hv. apply TX_bind_Ok in Hv as (? & ? & [-> ->]%tx_get_Ok & Hv).
  apply TX_bind_Ok in Hv as (dv & ? & [Ha ->]%tx_lift_Ok & Hv). apply TX_bind_Ok in Hv as ([] & ? & [Hs ->]%tx_fail_if_Ok & Hv).
  bool_simpl. apply lift_domain_Ok, DeviceAuthMessage_Ok in Hm as ->. destruct (VerifySignature _ _ _ _) as [[]|] eqn:Es; [|done].
  exists c, dv, d. split_and!; done.
Qed.

(** A device is given a token only for a proof: the server issued the nonce to this device of this
    account and it has not expired; the account exists and is not frozen, the device is its own and
    unrevoked when the proof is checked, and the device's certified key signed exactly the account,
    the device and the nonce. The token then authenticates that device of that account and nothing
    else, until it expires. *)
Theorem device_proof_sound (account device : ID) (nonce sig : bytes) (r : option (array 32)) (now : nat → Z) (env : Service → Service)
    (s s' : Service) (token : bytes) (expires : Z) :
  DeviceVerify account device nonce sig r now env s = (Ok (token, expires), s') →
  ∃ c s1 a dv,
    sv_challenges s !! hex_encode nonce = Some c ∧ ch_account c = account ∧ ch_device c = device ∧ now 0%nat < ch_expires c ∧
    s1 = env (nonce_spent nonce s) ∧
    db_accounts (sv_db s1) !! account = Some a ∧ ac_Frozen a = false ∧
    db_devices (sv_db s1) !! device = Some dv ∧ dv_Account dv = account ∧ dv_Revoked dv = false ∧
    VerifySignature SigEd25519 (dv_SigningKey dv) (frames [bytes_of_string LabelDeviceAuth; vec_to_list account; vec_to_list device; nonce]) sig = Ok () ∧
    expires = wrap64 (now 1%nat + accessTokenTTL) ∧
    ∀ kinds t p, Authenticate token kinds t (sv_db s') = Ok p ↔
      t < expires ∧ TokenAccess ∈ kinds ∧ p = {| p_Account := account; p_Device := device; p_Kind := TokenAccess |}.
Proof.
  intros (c & dv & d' & Hc & Eac & Edv & Hexp & ((a & Ha & Hf) & Hd & Hr & Hac)%activeDevice_Ok & Hs & (-> & _ & _ & ->)%issueToken_Ok & ->)%DeviceVerify_Ok.
  exists c, (env (nonce_spent nonce s)), a, dv. split_and!; try done. intros kinds t p. rewrite Authenticate_Ok. cbn.
  rewrite lookup_insert_eq. split.
  - intros (tok & a' & [= <-] & Ht & Hk & _ & _ & _ & ->). done.
  - intros (Ht & Hk & ->). eexists _, a. split_and!; try done. intros _. exists dv. done.
Qed.

(** An access token is issued only to a device that is active when the proof is checked. *)
Lemma DeviceVerify_active account device nonce sig r now env s :
  is_ok (activeDevice (sv_db (env (nonce_spent nonce s))) account device) = false →
  is_ok (fst (DeviceVerify account device nonce sig r now env s)) = false.
Proof.
  intros Hno. destruct (DeviceVerify _ _ _ _ _ _ _ s) as [[[token expires]|e] s'] eqn:E; [|done].
  apply DeviceVerify_Ok in E as (c & dv & d' & _ & _ & _ & _ & E & _). by rewrite E in Hno.
Qed.

Lemma revoked_inactive d d' device dv account :
  grows d d' → db_devices d !! device = Some dv → dv_Revoked dv = true → activeDevice d' account device = Err [ErrUnauthorized].
Proof.
  intros Hg Hd Hr. destruct (activeDevice d' account device) as [dv'|e] eqn:E; [|by apply activeDevice_Err in E as ->].
  apply activeDevice_Ok in E as (_ & Hd' & Hr' & _). destruct (gr_devices _ _ Hg device dv Hd) as (dv2 & Hd2 & _ & _ & Hrv).
  rewrite Hd' in Hd2. injection Hd2 as <-. rewrite Hrv in Hr'; done.
Qed.

(** C23. Once a device is revoked it stays out. After any requests, overlapping as they may - account
    deletion apart - it is refused a nonce; it is refused an access token whenever its proof is
    checked, even a proof that was under way while it was revoked; and no access token speaks for it. *)
Theorem revoked_locked_out (cfg : Config) (n : nat) (s s' : Service) (device : ID) (dv : Device) :
  run cfg false n s s' → db_devices (sv_db s) !! device = Some dv → dv_Revoked dv = true →
  (∀ account r tick now env, fst (DeviceChallenge account device r tick now env s') = Err [ErrUnauthorized]) ∧
  (∀ account nonce sig r now env x, sv_db (env (nonce_spent nonce x)) = sv_db s' →
     is_ok (fst (DeviceVerify account device nonce sig r now env x)) = false) ∧
  (∀ token kinds now p, Authenticate token kinds now (sv_db s') = Ok p → p_Kind p = TokenAccess → p_Device p ≠ device).
Proof.
  intros Hg%run_grows Hd Hr. split_and!.
  - intros. unfold DeviceChallenge, mbind, SV_bind, ST_bind, with_tx, WithTx. rewrite TX_bind_run. cbn [tx_get st_get].
    by rewrite (revoked_inactive _ _ _ _ account Hg Hd Hr).
  - intros account nonce sig r now env x E. apply DeviceVerify_active. by rewrite E, (revoked_inactive _ _ _ _ account Hg Hd Hr).
  - intros token kinds now p (t & a & _ & _ & _ & _ & _ & Hdv & ->)%Authenticate_Ok Hk E. cbn in *. destruct (Hdv Hk) as (dv' & Hd' & Hr').
    destruct (gr_devices _ _ Hg device dv Hd) as (dv2 & Hd2 & _ & _ & Hrv). rewrite <- E, Hd' in Hd2. injection Hd2 as <-.
    rewrite Hrv in Hr'; done.
Qed.

(** ** Nonces and logins are used once *)

(** What happens to the nonces, in the order their mutex grants: one is issued, one is presented, or
    the rest of the server's state changes. *)
Inductive nonce_event :=
  | Issue (account device : ID) (nonce : bytes) (tick : bytes → Z) (now : Z)
  | Present (account device : ID) (nonce : bytes) (now : Z)
  | Elsewhere (f : Service → Service).

(** The state after an event, and whether a presented nonce was accepted. *)
Definition nonce_step (s : Service) (e : nonce_event) : Service * bool :=
  match e with
  | Issue account device nonce tick now => (snd (challenges_add account device nonce tick now s), false)
  | Present account device nonce now => let '(r, s') := takeChallenge account device nonce now s in (s', of_ok false r)
  | Elsewhere f => (sv_set_challenges (sv_challenges s) (f s), false)
  end.

Definition accepts (nonce : bytes) (e : nonce_event) (ok : bool) : nat :=
  if e is Present _ _ n _ then if (n =?? nonce) && ok then 1 else 0 else 0.
Definition issues (nonce : bytes) (e : nonce_event) : nat := if e is Issue _ _ n _ _ then if n =?? nonce then 1 else 0 else 0.

(** How often [nonce] was accepted, and how often it was issued. *)
Fixpoint accepted_count (nonce : bytes) (s : Service) (es : list nonce_event) : nat :=
  match es with
  | [] => 0
  | e :: es => let '(s', ok) := nonce_step s e in (accepts nonce e ok + accepted_count nonce s' es)%nat
  end.
Definition issued_count (nonce : bytes) (es : list nonce_event) : nat := sum_list (issues nonce <$> es).

Definition outstanding (nonce : bytes) (s : Service) : nat := if sv_challenges s !! hex_encode nonce is Some _ then 1 else 0.

Lemma nonce_step_bound nonce s e :
  (accepts nonce e (nonce_step s e).2 + outstanding nonce (nonce_step s e).1 ≤ issues nonce e + outstanding nonce s)%nat.
Proof.
  unfold outstanding, issues, accepts. destruct e as [ac dv n tick now|ac dv n now|f]; cbn; [| |lia].
  - destruct (decide (n = nonce)) as [->|Hn].
    + rewrite bool_decide_eq_true_2, lookup_insert_eq by done. lia.
    + rewrite bool_decide_eq_false_2 by done. rewrite lookup_insert_ne by (by intros ?%hex_encode_inj).
      rewrite map_lookup_filter. destruct (sv_challenges s !! hex_encode nonce); cbn; [case_guard; cbn; lia|lia].
  - destruct (decide (n = nonce)) as [->|Hn].
    + rewrite bool_decide_eq_true_2, lookup_delete_eq by done. destruct (sv_challenges s !! hex_encode nonce); cbn; [case_match|]; lia.
    + rewrite bool_decide_eq_false_2 by done. rewrite lookup_delete_ne by (by intros ?%hex_encode_inj). cbn. lia.
Qed.

Lemma accepted_bound nonce es s : (accepted_count nonce s es ≤ issued_count nonce es + outstanding nonce s)%nat.
Proof.
  revert s. induction es as [|e es IH]; intros s; cbn; [lia|]. pose proof (nonce_step_bound nonce s e) as Hb.
  destruct (nonce_step s e) as [s' ok]. cbn in Hb. specialize (IH s'). unfold issued_count in *. lia.
Qed.

(** A nonce proves a device at most as often as the server drew it: whatever is presented, for
    whichever account and device, valid or not, and whatever the rest of the server does in between,
    presenting a nonce spends it. *)
Theorem nonce_single_use (d : DB) (nonce : bytes) (es : list nonce_event) :
  (accepted_count nonce (newService d) es ≤ issued_count nonce es)%nat.
Proof. pose proof (accepted_bound nonce es (newService d)) as Hb. unfold outstanding in Hb. cbn in Hb. rewrite lookup_empty in Hb. lia. Qed.

(** ** Logins *)

Lemma logins_take_gone id now s : sv_logins (snd (logins_take id now s)) !! id = None.
Proof. cbn. apply lookup_delete_eq. Qed.

(** The state a finishing login leaves its first critical section with. *)
Definition login_spent (id : bytes) (s : Service) : Service := sv_set_logins (delete id (sv_logins s)) s.

Lemma LoginFinish_Ok id ip ke3 r now env s res s' :
  LoginFinish id ip ke3 r now env s = (Ok res, s') →
  ∃ l s1 d', sv_logins s !! id = Some l ∧ now 0%nat < pl_expires l ∧ pl_ip l = ip ∧ pl_known l = true ∧
    ake_LoginFinish ke3 (pl_mac l) = true ∧
    (let s0 := env 0%nat (login_spent id s) in s1 = env 1%nat (sv_set_limits (limiter_succeed (sv_limits s0) (pl_username l) ip) s0)) ∧
    finishLogin (pl_account l) r (now 1%nat) (sv_db s1) = (Ok res, d') ∧ s' = sv_set_db d' s1.
Proof.
  unfold LoginFinish. intros (taken & ? & Ht & Hf)%SV_bind_Ok. unfold logins_take in Ht. injection Ht as <- <-.
  fold (login_spent id s) in Hf. destruct (sv_logins s !! id) as [l|]; [|done]. destruct (Z.ltb_spec (now 0%nat) (pl_expires l)); [|done].
  apply SV_bind_Ok in Hf as ([] & ? & [Hip ->]%sv_fail_if_Ok & Hf). apply SV_bind_Ok in Hf as ([] & ? & [Hk ->]%sv_fail_if_Ok & Hf).
  apply SV_bind_Ok in Hf as ([] & ? & ->%yield_Ok & Hf). apply SV_bind_Ok in Hf as ([] & s1 & Hm & Hf). injection Hm as <-.
  apply SV_bind_Ok in Hf as ([] & ? & ->%yield_Ok & Hf). apply with_tx_Ok in Hf as (d' & Hf & ->). bool_simpl.
  eexists l, _, d'. split_and!; try done.
Qed.

(** A login finishes only if the server began it and it is unspent and unexpired, from the address
    that began it, for a username that had an account, with the message the protocol expects; the
    account still exists then and is not frozen. Its token is an account token: it names no device,
    so no request on a vault accepts it. The attempt is spent by then, and a spent one cannot be
    finished. *)
Theorem login_sound (id : bytes) (ip : string) (ke3 : bytes) (r : option (array 32)) (now : nat → Z) (env : nat → Service → Service)
    (s s' : Service) (res : LoginResult) :
  LoginFinish id ip ke3 r now env s = (Ok res, s') →
  ∃ l a, sv_logins s !! id = Some l ∧ now 0%nat < pl_expires l ∧ pl_ip l = ip ∧ pl_known l = true ∧ ake_LoginFinish ke3 (pl_mac l) = true ∧
    db_accounts (sv_db s') !! pl_account l = Some a ∧ ac_Frozen a = false ∧
    lr_Bundle res = ac_Bundle a ∧ lr_IdentityKey res = ac_IdentityKey a ∧ lr_EncryptionKey res = ac_EncryptionKey a ∧
    (∀ kinds t p, Authenticate (lr_AccountToken res) kinds t (sv_db s') = Ok p →
       p = {| p_Account := pl_account l; p_Device := ID_zero; p_Kind := TokenAccount |} ∧ requireAccess p = Err [ErrUnauthorized]) ∧
    ∀ ip' ke3' r' now' env', fst (LoginFinish id ip' ke3' r' now' env' (login_spent id s)) = Err [ErrUnauthorized].
Proof.
  intros (l & s1 & d' & Hl & Hexp & Hip & Hk & Hm & _ & Hf & ->)%LoginFinish_Ok. unfold finishLogin in Hf.
  apply TX_bind_Ok in Hf as (? & ? & [-> ->]%tx_get_Ok & Hf). unfold AccountByID in Hf.
  destruct (db_accounts (sv_db s1) !! pl_account l) as [a|] eqn:Ea; [|by apply tx_lift_Ok in Hf as [? _]].
  apply TX_bind_Ok in Hf as ([] & ? & [Hfr ->]%tx_fail_if_Ok & Hf). apply TX_bind_Ok in Hf as ([token expires] & d1 & Hi & [<-%Ok_inj ->]%tx_lift_Ok).
  apply issueToken_Ok in Hi as (_ & _ & _ & ->). exists l, a. split_and!; try done.
  - intros kinds t p. rewrite Authenticate_Ok. cbn. rewrite lookup_insert_eq. intros (tok & a' & [= <-] & _ & _ & _ & _ & _ & ->). done.
  - intros. unfold LoginFinish, logins_take, mbind, SV_bind, ST_bind. cbn. by rewrite lookup_delete_eq.
Qed.

(** Whether a username has an account that may log in. *)
Definition may_login (found : option (ID * Account)) : bool := if found is Some (_, a) then negb (ac_Frozen a) else false.

Lemma answerKE1_Ok secret username ip ke1 coins expires found l ke2 :
  answerKE1 secret username ip ke1 coins expires found = Ok (l, ke2) →
  pl_known l = may_login found ∧ pl_ip l = ip ∧ pl_username l = username ∧
  (pl_known l = false → pl_account l = fakeAccountID secret username) ∧ (∀ id a, found = Some (id, a) → pl_known l = true → pl_account l = id).
Proof.
  unfold answerKE1, may_login. intros Ha. destruct found as [[id a]|]; [destruct (ac_Frozen a)|].
  - destruct (ake_LoginStartUnknown _ _ _); [|done]. by apply Ok_inj in Ha as [= <- <-].
  - destruct (ake_LoginStart _ _ _ _) as [[? mac]|]; [|done]. apply Ok_inj in Ha as [= <- <-]. cbn. split_and!; try done. by intros ?? [= <- <-].
  - destruct (ake_LoginStartUnknown _ _ _); [|done]. by apply Ok_inj in Ha as [= <- <-].
Qed.

(** Every guess at a password is charged when it begins. While the limiter makes the pair of
    username and address wait, nothing happens. Otherwise the attempt is charged whether or not the
    username exists, whether or not an answer could be made - so nothing about the accounts shows in
    what is counted - and what the server remembers of it can finish only if the username had an
    account that was not frozen; to any other username it answers with the username's own fake id. *)
Theorem login_charged (secret : bytes) (username ip : string) (ke1 coins : bytes) (r : option (array 16)) (now : nat → Z)
    (env : nat → Service → Service) (s : Service) :
  (∀ i x, sv_limits (env i x) = sv_limits x) →
  let wait := limiter_check (sv_limits s) username ip (now 0%nat) in
  let s1 := env 1%nat (sv_set_limits (limiter_fail (sv_limits (env 0%nat s)) username ip (now 1%nat)) (env 0%nat s)) in
  let found := AccountByUsername (sv_db s1) username in
  let '(res, s') := LoginStart secret username ip ke1 coins r now env s in
  if 0 <? wait then res = Err [RateLimitedError wait] ∧ s' = s
  else sv_limits s' = limiter_fail (sv_limits s) username ip (now 1%nat) ∧
    ∀ id account ke2, res = Ok (id, account, ke2) → ∃ l, sv_logins s' !! id = Some l ∧ pl_account l = account ∧ pl_ip l = ip ∧
      pl_known l = may_login found ∧ (pl_known l = false → account = fakeAccountID secret username).
Proof.
  intros He. cbv zeta. unfold LoginStart, mbind, SV_bind, ST_bind. cbn [sv_get st_get].
  destruct (0 <? limiter_check (sv_limits s) username ip (now 0%nat)); [done|]. cbn [sv_fail_if st_lift yield sv_modify sv_lift].
  set (s0 := env 1%nat _). assert (sv_limits s0 = limiter_fail (sv_limits s) username ip (now 1%nat)) as E0 by (subst s0; rewrite He; cbn; by rewrite He).
  destruct (answerKE1 _ _ _ _ _ _ _) as [[l ke2]|e] eqn:Ea; [|by split].
  destruct (randomBytes r) as [raw|e]; [|by split]. cbn. split; [by rewrite He|]. intros id account ke2' [= <- <- <-].
  apply answerKE1_Ok in Ea as (Hk & Hip & _ & Hfake & _). exists l. rewrite lookup_insert_eq. split_and!; eauto.
Qed.

(** ** Passwords *)

(** A password changes only with the consent of the account's current identity key: the key the
    stored device log - replayed from the account's registered keys - names today signed exactly this
    account, record and bundle. Then the record and the bundle are replaced, nothing else of the
    account changes, and of the account's sessions only those of the device that asked remain. *)
Theorem password_change_authorised (p : Principal) (record bundle sig : bytes) (d d' : DB) :
  PasswordFinish p record bundle sig d = (Ok (), d') →
  ∃ a log, db_accounts d !! p_Account p = Some a ∧ ac_Frozen a = false ∧
    replayDeviceLog (p_Account p) a (DeviceEntries d (p_Account p)) = Ok log ∧
    VerifySignature SigEd25519 (ds_identityKey log)
      (frames [bytes_of_string LabelRekey; vec_to_list (p_Account p); record; bundle]) sig = Ok () ∧
    db_accounts d' = <[p_Account p := {| ac_Username := ac_Username a; ac_OPAQUERecord := record; ac_Bundle := bundle;
      ac_IdentityKey := ac_IdentityKey a; ac_EncryptionKey := ac_EncryptionKey a; ac_Created := ac_Created a; ac_Frozen := false |}]> (db_accounts d) ∧
    (∀ token kinds t q, Authenticate token kinds t d' = Ok q → p_Account q = p_Account p → p_Device q = p_Device p ∧ p_Device q ≠ ID_zero) ∧
    (∀ h t, db_tokens d !! h = Some t → tok_Account t ≠ p_Account p → db_tokens d' !! h = Some t).
Proof.
  unfold PasswordFinish. intros Hp. apply TX_bind_Ok in Hp as ([] & ? & [_ ->]%tx_fail_if_Ok & Hp).
  destruct (ake_ValidateRecord record) as [?|]; [|by apply tx_lift_Ok in Hp as [? _]]. apply (proj1 (WithTx_Ok _ _ _ _)) in Hp.
  apply TX_bind_Ok in Hp as (? & ? & [-> ->]%tx_get_Ok & Hp). apply TX_bind_Ok in Hp as (a0 & ? & [Ha ->]%tx_lift_Ok & Hp).
  apply TX_bind_Ok in Hp as (log & ? & [Hl%lift_domain_Ok ->]%tx_lift_Ok & Hp).
  apply TX_bind_Ok in Hp as (msg & ? & [Hm%lift_domain_Ok%RekeyMessage_Ok ->]%tx_lift_Ok & Hp). subst msg.
  apply TX_bind_Ok in Hp as ([] & ? & [Hs ->]%tx_fail_if_Ok & Hp). apply TX_bind_Ok in Hp as ([] & d1 & Hu & Hp).
  unfold activeAccount, AccountByID in Ha. destruct (db_accounts d !! p_Account p) as [a'|] eqn:Ea; [|done].
  apply fail_if_Ok in Ha as [Hf <-%Ok_inj]. unfold UpdateAccountCredentials in Hu. tx_step Hu. rewrite Ea in Hu. apply tx_put_Ok in Hu as ->.
  unfold DeleteTokensForAccountExcept in Hp. apply tx_modify_Ok in Hp as ->. bool_simpl.
  destruct (VerifySignature _ _ _ _) as [[]|] eqn:Es; [|done]. exists a', log. split_and!; try done; cbn.
  - by rewrite Hf.
  - intros token kinds t q (tok & a1 & Ht & _ & _ & _ & _ & _ & ->)%Authenticate_Ok. cbn in *. intros E.
    apply map_lookup_filter_Some in Ht as [_ Hk]. cbn in Hk. destruct (decide (tok_Device tok = ID_zero)); [tauto|].
    destruct (decide (tok_Device tok = p_Device p)); tauto.
  - intros h t Ht Hne. apply map_lookup_filter_Some. split; [done|]. cbn. tauto.
Qed.

(** ** Invites *)

Lemma refuseUnless_Ok b : refuseUnless b = Ok () ↔ b = true.
Proof. unfold refuseUnless. rewrite fail_if_Ok, negb_false_iff. naive_solver. Qed.

Lemma RegisterFinish_Ok r now d d' :
  RegisterFinish r now d = (Ok (), d') →
  ∃ device dv members i, verifyGenesis (rg_Account r) (registered r (now 0%nat)) (rg_Device r) (rg_Vault r) = Ok (device, dv, members) ∧
    AccountByUsername d (rg_Username r) = None ∧ db_accounts d !! rg_Account r = None ∧ db_vaults d !! op_Vault (rg_Vault r) = None ∧
    db_invites d !! inviteHash (rg_Invite r) = Some i ∧ invite_open (now 1%nat) i = true ∧
    storeRegistration r (registered r (now 0%nat)) device dv members
      (set_invites (<[inviteHash (rg_Invite r) := {| inv_Expires := inv_Expires i; inv_UsedBy := Some (rg_Account r) |}]> (db_invites d)) d)
      = (Ok (), d').
Proof.
  unfold RegisterFinish. intros Hr. apply TX_bind_Ok in Hr as ([] & ? & [_ ->]%tx_fail_if_Ok & Hr).
  destruct (ake_ValidateRecord _) as [?|]; [|by apply tx_lift_Ok in Hr as [? _]]. cbv zeta in Hr.
  destruct (verifyGenesis _ _ _ _) as [[[device dv] members]|] eqn:Ev; [|by apply tx_lift_Ok in Hr as [? _]].
  apply (proj1 (WithTx_Ok _ _ _ _)) in Hr. apply TX_bind_Ok in Hr as (? & ? & [-> ->]%tx_get_Ok & Hr).
  apply TX_bind_Ok in Hr as ([] & ? & [Hfree ->]%tx_lift_Ok & Hr). apply TX_bind_Ok in Hr as ([] & ? & [Hv%refuseUnless_Ok ->]%tx_lift_Ok & Hr).
  apply TX_bind_Ok in Hr as (consumed & d1 & Hc & Hr). apply TX_bind_Ok in Hr as ([] & ? & [->%refuseUnless_Ok ->]%tx_lift_Ok & Hr).
  unfold checkIdentifiersFree in Hfree. apply bind_Ok in Hfree as ([] & Hu%refuseUnless_Ok & Hid%refuseUnless_Ok).
  apply negb_true_iff, not_some in Hu, Hid, Hv. unfold ConsumeInvite in Hc. tx_step Hc.
  destruct (db_invites d !! inviteHash (rg_Invite r)) as [i|] eqn:Ei; [|by apply tx_lift_Ok in Hc as [? _]].
  destruct (invite_open (now 1%nat) i) eqn:Eo; [|by apply tx_lift_Ok in Hc as [? _]].
  apply TX_bind_Ok in Hc as ([] & d2 & ->%tx_put_Ok & [_ ->]%tx_lift_Ok). exists device, dv, members, i. split_and!; done.
Qed.

Lemma storeRegistration_invites r a device dv members d d' :
  storeRegistration r a device dv members d = (Ok (), d') → invites_kept d d'.
Proof.
  intros E. assert (keeps invites_kept (storeRegistration r a device dv members) d) as Hk by (keep invites_kept; red; reflexivity).
  unfold keeps in Hk. by rewrite E in Hk.
Qed.

(** An invite registers one account. A registration that succeeded held an invite that was unused
    and unexpired; from then on, through any requests - account deletion included - no code of that
    invite starts or finishes a registration again. *)
Theorem invite_single_use (cfg : Config) (del : bool) (n : nat) (r r' : Registration) (now now' : nat → Z) (s s' : Service) (d : DB) :
  RegisterFinish r now (sv_db s) = (Ok (), d) → run cfg del n (sv_set_db d s) s' →
  inviteHash (rg_Invite r') = inviteHash (rg_Invite r) →
  (∃ i, db_invites (sv_db s) !! inviteHash (rg_Invite r) = Some i ∧ inv_UsedBy i = None ∧ now 1%nat < inv_Expires i) ∧
  is_ok (fst (RegisterFinish r' now' (sv_db s'))) = false ∧
  ∀ username account request coins t, is_ok (RegisterStart (rg_Invite r') username account request coins t (sv_db s')) = false.
Proof.
  intros (device & dv & members & i & _ & _ & _ & _ & Hi & Ho & Hs)%RegisterFinish_Ok Hr E.
  assert (db_invites (sv_db s') !! inviteHash (rg_Invite r) = Some {| inv_Expires := inv_Expires i; inv_UsedBy := Some (rg_Account r) |}) as Hused.
  { eapply (run_used cfg del n _ _ Hr); [|done]. cbn. eapply (storeRegistration_invites _ _ _ _ _ _ _ Hs); [cbn; apply lookup_insert_eq|done]. }
  unfold invite_open in Ho. bool_simpl. apply Z.ltb_lt in H2. split_and!; [eauto| |].
  - destruct (RegisterFinish r' now' (sv_db s')) as [[[]|e] d'] eqn:Er; [|done]. exfalso.
    apply RegisterFinish_Ok in Er as (? & ? & ? & i' & _ & _ & _ & _ & Hi' & Ho' & _). rewrite E, Hused in Hi'. injection Hi' as <-. done.
  - intros. unfold RegisterStart, InviteUsable. rewrite E, Hused. destruct (_ || _); done.
Qed.
End laws.
