(* ===== verification/ServerInv.v ===== *)
(** * ServerInv: what every database the server can reach satisfies

    The table of devices, which authorises every request, is exactly what the signed device logs say;
    tokens speak for existing accounts and for devices of the same account. Both hold after any
    requests, deletions included. *)

From S2P Require Import Prelude Bytes SyncBase Rows Canon Envelope Merkle Head DeviceLog Retention Membership MembershipLog VaultState Limiter ServerStore Server StoreLaws ServerLaws ServerAuth ServerRun ServerAuthLaws.

(** The row of a device a log certifies. *)
Definition log_row (id : ID) (st : deviceStatus) : Device :=
  {| dv_Account := id; dv_SigningKey := dc_SigningKey (st_cert st); dv_Revoked := st_revoked st |}.

(** The rows of account [id] are the devices of its log. *)
Definition devices_match (d : DB) (id : ID) (log : DeviceLogState) : Prop :=
  ∀ x dv, (db_devices d !! x = Some dv ∧ dv_Account dv = id) ↔ (∃ st, ds_devices log !! x = Some st ∧ dv = log_row id st).

Lemma insertDevice_Ok id dv d d' :
  insertDevice id dv d = (Ok (), d') →
  db_devices d !! id = None ∧ d' = set_people (db_accounts d) (<[id := dv]> (db_devices d)) (db_entries d) (db_tokens d) d.
Proof.
  unfold insertDevice. intros (ins & d2 & Hi & [Hins%negb_false_iff ->]%tx_fail_if_Ok)%TX_bind_Ok. subst ins.
  unfold InsertDevice in Hi. tx_step Hi. destruct (bool_decide _) eqn:Eb; [by apply tx_lift_Ok in Hi as [? _]|].
  apply not_some in Eb. by apply TX_bind_Ok in Hi as ([] & d3 & ->%tx_put_Ok & [_ ->]%tx_lift_Ok).
Qed.

Section entries.
Context `{Crypto}.

Lemma op_effect_seq s e msg s' : op_effect s e msg s' → ds_seq s' = ds_seq s.
Proof. by destruct 1. Qed.

Lemma replay_entry_seqs s es s' :
  foldM Apply_step s es = Ok s' → 0 ≤ ds_seq s → ds_seq s + len es ≤ MaxUint64 →
  ds_seq s' = ds_seq s + len es ∧ ∀ i e, es !! i = Some e → de_Seq e = ds_seq s + 1 + Z.of_nat i.
Proof.
  revert s. induction es as [|e es IH]; intros s Hr H0 Hl; cbn [foldM] in Hr.
  - apply Ok_inj in Hr as <-. cbn in *. split; [lia|done].
  - destruct (Apply_step s e) as [s1|] eqn:E; [|done].
    apply Apply_step_Ok, Apply_Ok in E as (_ & Hq & _ & _ & _ & _ & s2 & _ & E1). cbn [length] in Hl.
    assert (de_Seq e = ds_seq s + 1) as Hq' by (rewrite Hq; apply wrap64_succ; solve_uint).
    assert (ds_seq s1 = ds_seq s + 1) as Hs1 by (rewrite E1; exact Hq').
    destruct (IH s1 Hr) as [Hs Hi]; [lia|lia|]. cbn [length]. split; [lia|].
    intros [|i] e' He; cbn in He; [injection He as <-; lia|]. apply Hi in He. lia.
Qed.

(** What one request on the devices of account [id] leaves alone. *)
Record others (id : ID) (d d' : DB) : Prop := {
  ot_accounts : db_accounts d' = db_accounts d;
  ot_entries : db_entries d' = db_entries d;
  ot_rows : ∀ x dv, dv_Account dv ≠ id → (db_devices d' !! x = Some dv ↔ db_devices d !! x = Some dv);
  ot_grow : map_grow device_same (db_devices d) (db_devices d');
  ot_tokens : db_tokens d' ⊆ db_tokens d;
}.
#[export] Instance others_pre id : PreOrder (others id).
Proof.
  split; [intros d; constructor; done|]. intros a b c [] []. constructor; try congruence.
  - intros x dv Hne. by rewrite ot_rows1, ot_rows0.
  - by etrans.
  - by etrans.
Qed.

Lemma syncDevice_match id e log log1 d d1 :
  Apply_step log e = Ok log1 → devices_match d id log → syncDevice id e d = (Ok (), d1) → devices_match d1 id log1 ∧ others id d d1.
Proof.
  intros (_ & _ & _ & _ & _ & _ & s1 & He & ->)%Apply_step_Ok%Apply_Ok Hm Hs. unfold syncDevice in Hs.
  destruct He as [ct Ho Hc _ Hn|st Ho Hl Hr|Ho _ _ _ _]; rewrite Ho in Hs; cbn -[mbind] in Hs.
  - rewrite Hc in Hs. apply insertDevice_Ok in Hs as [Eb ->]. split.
    + intros x dv. cbn. destruct (decide (x = dc_Device ct)) as [->|Hx].
      * rewrite !lookup_insert_eq. split; [intros [[= <-] _]; eauto|]. by intros (st & [= <-] & ->).
      * rewrite !lookup_insert_ne by done. apply Hm.
    + constructor; try done; cbn; [|by apply (map_grow_new _)]. intros x dv Hne. destruct (decide (x = dc_Device ct)) as [->|Hx].
      * rewrite lookup_insert_eq. split; [by intros [= <-]|congruence].
      * by rewrite lookup_insert_ne.
  - destruct (proj2 (Hm (de_Revoked e) (log_row id st))) as [Hrow _]; [eauto|].
    unfold RevokeDevice in Hs. apply TX_bind_Ok in Hs as (rev & d2 & Hi & Hs). tx_step Hi. rewrite Hrow in Hi. cbn -[mbind] in Hi.
    rewrite bool_decide_eq_true_2 in Hi by done. cbn -[mbind] in Hi. apply TX_bind_Ok in Hi as ([] & d3 & ->%tx_put_Ok & [<-%Ok_inj ->]%tx_lift_Ok).
    apply TX_bind_Ok in Hs as ([] & d3 & [_ ->]%tx_fail_if_Ok & Hs). unfold DeleteTokensForDevice in Hs. apply tx_modify_Ok in Hs as ->. split.
    + intros x dv. cbn. destruct (decide (x = de_Revoked e)) as [->|Hx].
      * rewrite !lookup_insert_eq. split; [intros [[= <-] _]; by eexists|]. by intros (st' & [= <-] & ->).
      * rewrite !lookup_insert_ne by done. apply Hm.
    + constructor; try done; cbn; [| |apply map_filter_subseteq].
      * intros x dv Hne. destruct (decide (x = de_Revoked e)) as [->|Hx]; [|by rewrite lookup_insert_ne].
        rewrite lookup_insert_eq, Hrow. split; intros [= <-]; done.
      * by eapply (map_grow_upd _).
  - apply tx_lift_Ok in Hs as [_ ->]. split; [|reflexivity]. intros x dv. apply Hm.
Qed.

Lemma syncDevices_match id es log log1 d d1 :
  foldM Apply_step log es = Ok log1 → devices_match d id log → syncDevices id es d = (Ok (), d1) → devices_match d1 id log1 ∧ others id d d1.
Proof.
  unfold syncDevices. revert log d. induction es as [|e es IH]; intros log d Hf Hm Hs; cbn [foldM tx_for] in Hf, Hs.
  - apply Ok_inj in Hf as <-. apply tx_lift_Ok in Hs as [_ ->]. by split.
  - destruct (Apply_step log e) as [log2|] eqn:E; [|done]. apply TX_bind_Ok in Hs as ([] & d2 & H2 & Hs).
    destruct (syncDevice_match _ _ _ _ _ _ E Hm H2) as [Hm2 Ho2]. destruct (IH _ _ Hf Hm2 Hs) as [Hm1 Ho1]. split; [done|by etrans].
Qed.

Lemma AppendDeviceEntries_Ok id es d d' n :
  AppendDeviceEntries id es d = (Ok (), d') →
  (∀ q e, db_entries d !! (id, q) = Some e → q ≤ n ∧ de_Seq e = q) → (∀ i e, es !! i = Some e → de_Seq e = n + 1 + Z.of_nat i) →
  DeviceEntries d' id = DeviceEntries d id ++ es ∧ (∀ q e, db_entries d' !! (id, q) = Some e → de_Seq e = q) ∧
  (∀ id' q, id' ≠ id → db_entries d' !! (id', q) = db_entries d !! (id', q)) ∧
  d' = set_people (db_accounts d) (db_devices d) (db_entries d') (db_tokens d) d.
Proof.
  unfold AppendDeviceEntries. revert d n. induction es as [|e es IH]; intros d n Ha Hn Hi; cbn [tx_for] in Ha.
  - apply tx_lift_Ok in Ha as [_ ->]. rewrite app_nil_r. split_and!; [done|by intros; eapply Hn|done|by destruct d].
  - apply TX_bind_Ok in Ha as ([] & d1 & Ho & Ha). tx_step Ho. tx_step Ho. apply tx_put_Ok in Ho as ->.
    pose proof (Hi 0%nat e eq_refl) as Hq. cbn in Hq. destruct (IH _ (n + 1) Ha) as (Em & Hk & Hoth & Ed).
    + intros q e' He. cbn in He. apply lookup_insert_Some in He as [[[= <-] <-]|[_ He]]; [lia|]. apply Hn in He. lia.
    + intros i e' He. rewrite (Hi (S i) e') by done. lia.
    + split_and!; [|done| |by rewrite Ed].
      * rewrite Em. unfold DeviceEntries. cbn [db_entries set_people]. rewrite rows_snoc.
        -- rewrite fmap_app, <- app_assoc. done.
        -- intros q' a' Hq'. apply Hn in Hq'. lia.
      * intros id' q Hne. rewrite Hoth by done. cbn. rewrite lookup_insert_ne; [done|congruence].
Qed.

Lemma elem_of_DeviceEntries d id e : e ∈ DeviceEntries d id ↔ ∃ q, db_entries d !! (id, q) = Some e.
Proof.
  unfold DeviceEntries. rewrite list_elem_of_fmap. split.
  - intros ([[id' q] e'] & -> & [Hv Hk]%elem_of_rows). cbn in *. subst. eauto.
  - intros [q Hq]. exists ((id, q), e). split; [done|]. by apply elem_of_rows.
Qed.

(** ** The invariant *)

Definition token_ok (d : DB) (t : Token) : Prop :=
  is_Some (db_accounts d !! tok_Account t) ∧
  match tok_Kind t with
  | TokenAccount => tok_Device t = ID_zero
  | TokenAccess => ∃ dv, db_devices d !! tok_Device t = Some dv ∧ dv_Account dv = tok_Account t
  end.

(** The stored log of an account verifies, answers every revocation with a new key, and says exactly
    which devices the account has; after [k] requests it is at most so long. *)
Record account_ok (k : nat) (d : DB) (id : ID) (a : Account) (log : DeviceLogState) : Prop := {
  ao_log : replayDeviceLog id a (DeviceEntries d id) = Ok log;
  ao_settled : ds_pendingSuccession log = false;
  ao_devices : devices_match d id log;
  ao_length : len (DeviceEntries d id) ≤ 16 * Z.of_nat k;
}.

Record people_inv (k : nat) (d : DB) : Prop := {
  pi_users : ∀ i j a b, db_accounts d !! i = Some a → db_accounts d !! j = Some b → ac_Username a = ac_Username b → i = j;
  pi_devices : ∀ x dv, db_devices d !! x = Some dv → is_Some (db_accounts d !! dv_Account dv);
  pi_entries : ∀ id q e, db_entries d !! (id, q) = Some e → is_Some (db_accounts d !! id) ∧ de_Seq e = q;
  pi_tokens : ∀ h t, db_tokens d !! h = Some t → token_ok d t;
  pi_accounts : ∀ id a, db_accounts d !! id = Some a → ∃ log, account_ok k d id a log;
}.

Lemma account_ok_mono k k' d id a log : (k ≤ k')%nat → account_ok k d id a log → account_ok k' d id a log.
Proof. intros Hk []. constructor; [done..|lia]. Qed.
Lemma people_inv_mono k k' d : (k ≤ k')%nat → people_inv k d → people_inv k' d.
Proof. intros Hk []. constructor; try done. intros id a Ha. destruct (pi_accounts0 id a Ha) as [log Hl]. eauto using account_ok_mono. Qed.

(** Requests that at most touch up accounts and drop or properly issue tokens. *)
Record touched (d d' : DB) : Prop := {
  to_accounts : ∀ id, option_Forall2 account_same (db_accounts d !! id) (db_accounts d' !! id);
  to_devices : db_devices d' = db_devices d;
  to_entries : db_entries d' = db_entries d;
  to_tokens : ∀ h t, db_tokens d' !! h = Some t → db_tokens d !! h = Some t ∨ token_ok d t;
}.

Lemma touched_is_Some d d' id : touched d d' → is_Some (db_accounts d' !! id) ↔ is_Some (db_accounts d !! id).
Proof. intros Ht. pose proof (to_accounts _ _ Ht id) as Hr. inversion Hr; split; eauto; by intros []. Qed.
Lemma touched_token d d' t : touched d d' → token_ok d t ↔ token_ok d' t.
Proof. intros Ht. unfold token_ok. by rewrite (to_devices _ _ Ht), (touched_is_Some _ _ _ Ht). Qed.

#[export] Instance touched_pre : PreOrder touched.
Proof.
  split; [intros d; constructor; [intros; reflexivity|done|done|auto]|]. intros a b c Hab Hbc. constructor.
  - intros id. etrans; [apply Hab|apply Hbc].
  - by rewrite (to_devices _ _ Hbc), (to_devices _ _ Hab).
  - by rewrite (to_entries _ _ Hbc), (to_entries _ _ Hab).
  - intros h t [Ht|Ht]%(to_tokens _ _ Hbc); [by apply (to_tokens _ _ Hab) in Ht|]. right. by apply (touched_token _ _ _ Hab).
Qed.

Lemma account_ok_same k d d' id a a' log :
  account_same a a' → DeviceEntries d' id = DeviceEntries d id →
  (∀ x dv, dv_Account dv = id → (db_devices d' !! x = Some dv ↔ db_devices d !! x = Some dv)) →
  account_ok k d id a log → account_ok k d' id a' log.
Proof.
  intros (_ & Hi & He & _) Ee Hd []. constructor; [|done| |by rewrite Ee].
  - unfold replayDeviceLog in *. by rewrite Ee, Hi, He.
  - intros x dv. rewrite <- (ao_devices0 x dv). split; intros [Hx Hac]; (split; [|done]); by apply (Hd x dv Hac).
Qed.

Lemma touched_inv k d d' : touched d d' → people_inv k d → people_inv k d'.
Proof.
  intros Ht []. pose proof (to_accounts _ _ Ht) as Hac. constructor.
  - intros i j a b Hi Hj E. specialize (Hac i) as Ri. specialize (Hac j) as Rj. rewrite Hi in Ri. rewrite Hj in Rj.
    inversion Ri as [a0 ? (Ea & _) Ei|]; inversion Rj as [b0 ? (Eb & _) Ej|]; subst. eapply pi_users0; [done..|congruence].
  - intros x dv. rewrite (to_devices _ _ Ht), (touched_is_Some _ _ _ Ht). apply pi_devices0.
  - intros id q e. rewrite (to_entries _ _ Ht), (touched_is_Some _ _ _ Ht). apply pi_entries0.
  - intros h t [Hh%pi_tokens0|Hh]%(to_tokens _ _ Ht); by apply (touched_token _ _ _ Ht).
  - intros id a' Ha. specialize (Hac id). rewrite Ha in Hac. inversion Hac as [a ? Hs Ea|]; subst.
    symmetry in Ea. destruct (pi_accounts0 id a Ea) as [log Hl]. exists log. eapply account_ok_same; [done| | |done].
    + unfold DeviceEntries. by rewrite (to_entries _ _ Ht).
    + intros x dv _. by rewrite (to_devices _ _ Ht).
Qed.
End entries.

Section people.
Context `{Crypto, AKE} (cfg : Config).

Lemma account_upd (m : gmap ID Account) k a a' :
  m !! k = Some a → account_same a a' → ∀ id, option_Forall2 account_same (m !! id) (<[k := a']> m !! id).
Proof.
  intros Ha Hs id. destruct (decide (id = k)) as [->|Hne].
  - rewrite lookup_insert_eq, Ha. by constructor.
  - rewrite lookup_insert_ne by done. reflexivity.
Qed.

Lemma touched_tokens d X : X ⊆ db_tokens d → touched d (set_people (db_accounts d) (db_devices d) (db_entries d) X d).
Proof. intros HX. constructor; cbn; [intros; reflexivity|done|done|]. intros h t Ht. left. by eapply lookup_weaken. Qed.
Lemma touched_issue d h t : token_ok d t → touched d (set_people (db_accounts d) (db_devices d) (db_entries d) (<[h := t]> (db_tokens d)) d).
Proof. intros Ht. constructor; cbn; [intros; reflexivity|done|done|]. intros h' t' [[_ <-]|[_ Hl]]%lookup_insert_Some; auto. Qed.

(** One write outside the people's tables. *)
Ltac touched_leaf := constructor; cbn; [intros; reflexivity|done|done|by auto].

(** The requests that write neither devices nor device logs. *)
Definition devices_apart (rq : request) : bool :=
  match rq with RqRegisterFinish _ _ | RqAppendDeviceLog _ _ => false | _ => true end.

Lemma serve_touched rq d : devices_apart rq = true → touched d (serve cfg rq d).
Proof.
  destruct rq; intros Ha; try discriminate Ha; clear Ha; unfold serve; keep_effect touched; try touched_leaf.
  - match goal with E : AccountByUsername _ _ = Some _ |- _ => apply AccountByUsername_row in E as [Hrow _] end.
    constructor; cbn; [by eapply account_upd|done|done|auto].
  - constructor; cbn; [by eapply account_upd|done|done|auto].
  - apply touched_tokens, map_filter_subseteq.
Qed.

Lemma issue_touched {A} r now account device kind ttl (f : bytes * Z → TX A) d :
  (∀ expires, token_ok d {| tok_Account := account; tok_Device := device; tok_Kind := kind; tok_Expires := expires |}) →
  (∀ x d1, keeps touched (f x) d1) → keeps touched (issueToken r now account device kind ttl ≫= f) d.
Proof. intros Ht Hf. apply (keeps_bind touched); [|by intros]. keep touched. by apply touched_issue. Qed.

Lemma finishLogin_touched account r now d : touched d (effect (finishLogin account r now) d).
Proof.
  change (keeps touched (finishLogin account r now) d). unfold finishLogin. keep_step touched. unfold AccountByID.
  destruct (db_accounts d !! account) as [a|] eqn:Ea; [|keep touched]. keep_step touched. apply issue_touched.
  - intros expires. split; cbn; [by rewrite Ea|done].
  - intros [token ?] d1. keep touched.
Qed.

Lemma verifyDevice_touched account device msg sig r now d : touched d (effect (verifyDevice account device msg sig r now) d).
Proof.
  change (keeps touched (verifyDevice account device msg sig r now) d). unfold verifyDevice. do 3 keep_step touched.
  match goal with E : activeDevice _ _ _ = Ok _ |- _ => apply activeDevice_Ok in E as ((acct & Ha & _) & Hd & _ & Hac) end.
  keep touched. apply touched_issue. split; cbn; [by rewrite Ha|eauto].
Qed.

(** Requests on the vaults' tables. *)
Definition same_people (d d' : DB) : Prop :=
  db_accounts d' = db_accounts d ∧ db_devices d' = db_devices d ∧ db_entries d' = db_entries d ∧ db_tokens d' = db_tokens d.
#[export] Instance same_people_pre : PreOrder same_people.
Proof. split; [by intros d|]. intros a b c (?&?&?&?) (?&?&?&?). unfold same_people. split_and!; congruence. Qed.

Lemma same_people_touched d d' : same_people d d' → touched d d'.
Proof. intros (Ea & ? & ? & Et). constructor; [intros; rewrite Ea; reflexivity|done|done|rewrite Et; auto]. Qed.

(** Another account keeps its rows when one account's devices are written. *)
Lemma account_ok_apart k d d' id id' a log :
  id' ≠ id → (∀ q, db_entries d' !! (id', q) = db_entries d !! (id', q)) →
  (∀ x dv, dv_Account dv ≠ id → (db_devices d' !! x = Some dv ↔ db_devices d !! x = Some dv)) →
  account_ok k d id' a log → account_ok k d' id' a log.
Proof.
  intros Hne He Hd. apply account_ok_same; [done| |].
  - unfold DeviceEntries. by rewrite (rows_frame (db_entries d)).
  - intros x dv Hac. apply Hd. congruence.
Qed.

(** One account's row, log and devices are written, and tokens at most dropped. *)
Record owner_step (d d' : DB) (id : ID) (a : Account) : Prop := {
  os_account : db_accounts d' !! id = Some a;
  os_accounts : ∀ i, i ≠ id → db_accounts d' !! i = db_accounts d !! i;
  os_username : ∀ j b, j ≠ id → db_accounts d !! j = Some b → ac_Username b ≠ ac_Username a;
  os_entries : ∀ i q, i ≠ id → db_entries d' !! (i, q) = db_entries d !! (i, q);
  os_keyed : ∀ q e, db_entries d' !! (id, q) = Some e → de_Seq e = q;
  os_rows : ∀ x dv, dv_Account dv ≠ id → (db_devices d' !! x = Some dv ↔ db_devices d !! x = Some dv);
  os_grow : map_grow device_same (db_devices d) (db_devices d');
  os_tokens : db_tokens d' ⊆ db_tokens d;
}.

Lemma owner_inv k k' d d' id a log :
  people_inv k d → (k ≤ k')%nat → owner_step d d' id a → account_ok k' d' id a log → people_inv k' d'.
Proof.
  intros [] Hk [] Hok.
  assert (∀ i, is_Some (db_accounts d !! i) → is_Some (db_accounts d' !! i)) as Hsome.
  { intros i Hi. destruct (decide (i = id)) as [->|Hne]; [eauto|by rewrite os_accounts0]. }
  constructor.
  - intros i j x y Hi Hj E. destruct (decide (i = id)) as [->|Hi'], (decide (j = id)) as [->|Hj'].
    + done.
    + rewrite os_accounts0 in Hj by done. rewrite os_account0 in Hi. injection Hi as <-. by destruct (os_username0 j y).
    + rewrite os_accounts0 in Hi by done. rewrite os_account0 in Hj. injection Hj as <-. by destruct (os_username0 i x).
    + rewrite os_accounts0 in Hi, Hj by done. by eapply pi_users0.
  - intros x dv Hx. destruct (decide (dv_Account dv = id)) as [->|Hne]; [eauto|]. apply os_rows0 in Hx; [|done]. by eapply Hsome, pi_devices0.
  - intros i q e He. destruct (decide (i = id)) as [->|Hne]; [eauto|]. rewrite os_entries0 in He by done.
    destruct (pi_entries0 _ _ _ He). auto.
  - intros h t Ht. eapply lookup_weaken in Ht; [|exact os_tokens0]. destruct (pi_tokens0 _ _ Ht) as [Ha Hd]. split; [by apply Hsome|].
    destruct (tok_Kind t); [done|]. destruct Hd as (dv & Hdv & Hac). destruct (os_grow0 _ _ Hdv) as (dv' & Hdv' & E & _). exists dv'. split; [done|congruence].
  - intros i b Hb. destruct (decide (i = id)) as [->|Hne]; [rewrite os_account0 in Hb; injection Hb as <-; eauto|].
    rewrite os_accounts0 in Hb by done. destruct (pi_accounts0 i b Hb) as [log0 Hl0]. exists log0.
    eapply account_ok_mono, account_ok_apart; [done|exact Hne|intros q; by apply os_entries0|done|done].
Qed.

Lemma replayDeviceLog_app id a es es' log log' :
  replayDeviceLog id a es = Ok log → foldM Apply_step log es' = Ok log' → replayDeviceLog id a (es ++ es') = Ok log'.
Proof.
  unfold replayDeviceLog. intros (s0 & Hn & Hf)%bind_Ok Hf'. rewrite Hn, bind_ok_l, foldM_app, Hf. exact Hf'.
Qed.

Lemma stored_entry_seqs d id a log :
  replayDeviceLog id a (DeviceEntries d id) = Ok log → len (DeviceEntries d id) ≤ MaxUint64 →
  (∀ q e, db_entries d !! (id, q) = Some e → de_Seq e = q) →
  ds_seq log = len (DeviceEntries d id) ∧ ∀ q e, db_entries d !! (id, q) = Some e → q ≤ ds_seq log ∧ de_Seq e = q.
Proof.
  unfold replayDeviceLog. intros (s0 & (_ & _ & _ & ->)%NewDeviceLogState_Ok & Hf)%bind_Ok Hl Hk.
  apply replay_entry_seqs in Hf as [Hs Hi]; [|done|done]. cbn [log_genesis ds_seq] in Hs, Hi. split; [lia|]. intros q e He.
  pose proof (Hk q e He) as Hq. split; [|done].
  assert (e ∈ DeviceEntries d id) as [i Hei]%list_elem_of_lookup by (apply elem_of_DeviceEntries; eauto).
  rewrite (Hi _ _ Hei) in Hq. apply lookup_lt_Some in Hei. lia.
Qed.

Lemma AppendDeviceLog_inv p es k d :
  16 * Z.of_nat k + 16 ≤ MaxUint64 → people_inv k d → people_inv (k + 1) (effect (AppendDeviceLog p es) d).
Proof.
  intros Hk Hinv. unfold effect. destruct (AppendDeviceLog p es d) as [[pub|e] d'] eqn:E; cbn.
  2: { assert (d' = d) as -> by (by apply fail_if_Err in E as [?|E]; [|apply WithTx_Err in E]).
       eapply people_inv_mono; [|done]. lia. }
  unfold AppendDeviceLog in E. apply TX_bind_Ok in E as ([] & ? & [Hlen ->]%tx_fail_if_Ok & E). apply (proj1 (WithTx_Ok _ _ _ _)) in E.
  apply TX_bind_Ok in E as (? & ? & [-> ->]%tx_get_Ok & E). unfold AccountByID in E.
  set (id := p_Account p) in *. destruct (db_accounts d !! id) as [a|] eqn:Ea; [|by apply tx_lift_Ok in E as [? _]].
  apply TX_bind_Ok in E as (log & ? & [Hlog%lift_domain_Ok ->]%tx_lift_Ok & E).
  destruct (foldM Apply_step log es) as [log'|] eqn:Ef; [|by apply tx_lift_Ok in E as [? _]].
  apply TX_bind_Ok in E as ([] & ? & [Hp ->]%tx_fail_if_Ok & E). apply TX_bind_Ok in E as ([] & d1 & H1 & E).
  apply TX_bind_Ok in E as ([] & d2 & H2 & [_ ->]%tx_lift_Ok). bool_simpl. apply Z.ltb_ge in H4.
  destruct (pi_accounts _ _ Hinv id a Ea) as [log0 [Hl0 _ Hm Hc]]. rewrite Hlog in Hl0. apply Ok_inj in Hl0 as <-.
  destruct (stored_entry_seqs d id a log Hlog) as [Hseq Hle]; [lia|intros q e He; by destruct (pi_entries _ _ Hinv _ _ _ He)|].
  destruct (replay_entry_seqs _ _ _ Ef) as [_ Hi]; [lia|lia|].
  destruct (AppendDeviceEntries_Ok id es d d1 (ds_seq log) H1 Hle Hi) as (Em & Hkeyed & Hoth & Ed1).
  assert (db_devices d1 = db_devices d ∧ db_accounts d1 = db_accounts d ∧ db_tokens d1 = db_tokens d) as (E1 & E2 & E3) by (by rewrite Ed1).
  destruct (syncDevices_match id es log log' d1 d2 Ef) as [Hm2 Ho2]; [intros x dv; rewrite E1; apply Hm|done|].
  eapply (owner_inv k (k + 1) d d2 id a log' Hinv); [lia|..].
  - destruct Ho2. constructor; rewrite ?ot_accounts0, ?ot_entries0, ?E1, ?E2, ?E3 in *; try done.
    intros j b Hj Hb Eu. apply Hj. by eapply (pi_users _ _ Hinv).
  - assert (DeviceEntries d2 id = DeviceEntries d id ++ es) as Ee by (rewrite <- Em; unfold DeviceEntries; by rewrite (ot_entries _ _ _ Ho2)).
    constructor; rewrite ?Ee; [by eapply replayDeviceLog_app|done|done|]. rewrite length_app. lia.
Qed.

(** ** Registration *)

(** The rows of the new account, before those of its vault. *)
Definition with_account (r : Registration) (a : Account) (device : ID) (dv : Device) (d : DB) : DB :=
  set_people (<[rg_Account r := a]> (db_accounts d)) (<[device := dv]> (db_devices d))
    (<[(rg_Account r, de_Seq (rg_Device r)) := rg_Device r]> (db_entries d)) (db_tokens d) d.

(** What [storeRegistration] writes after them. *)
Definition storeVault (r : Registration) (members : gmap ID Z) : TX unit :=
  _ ← InsertVault (op_Vault (rg_Vault r)) {| va_Owner := rg_Account r; va_Seq := 0; va_MembershipSeq := 1; va_Bytes := 0;
                                            va_Personal := true; va_Deleted := false; va_PrunedSeq := 0 |};
  _ ← AppendMemberOps (op_Vault (rg_Vault r)) [rg_Vault r];
  ReplaceMembers (op_Vault (rg_Vault r)) members.

Lemma storeRegistration_Ok r a device dv members d d' :
  storeRegistration r a device dv members d = (Ok (), d') →
  db_accounts d !! rg_Account r = None ∧ db_devices d !! device = None ∧
  storeVault r members (with_account r a device dv d) = (Ok (), d').
Proof.
  unfold storeRegistration. intros Hs. apply TX_bind_Ok in Hs as ([] & d1 & Ha & Hs). unfold InsertAccount in Ha.
  apply TX_bind_Ok in Ha as (? & ? & [-> ->]%tx_get_Ok & Ha). apply TX_bind_Ok in Ha as ([] & ? & [[Hn%not_some _]%orb_false_iff ->]%tx_fail_if_Ok & ->%tx_put_Ok).
  apply TX_bind_Ok in Hs as ([] & d2 & He & Hs). unfold AppendDeviceEntries in He. cbn [tx_for] in He.
  apply TX_bind_Ok in He as ([] & d3 & He & [_ ->]%tx_lift_Ok). tx_step He. tx_step He. apply tx_put_Ok in He as ->.
  apply TX_bind_Ok in Hs as ([] & d4 & Hd & Hs). apply insertDevice_Ok in Hd as [Eb ->].
  split_and!; [done|exact Eb|exact Hs].
Qed.

Lemma verifyGenesis_Ok id a entry create device dv members :
  verifyGenesis id a entry create = Ok (device, dv, members) →
  ∃ cert log m, de_Op entry = OpAddDevice ∧ de_Seq entry = 1 ∧ de_Cert entry = Some cert ∧ device = dc_Device cert ∧
    replayDeviceLog id a [entry] = Ok log ∧ ds_pendingSuccession log = false ∧
    ds_devices log = {[ device := {| st_cert := cert; st_revoked := false |} ]} ∧ dv = log_row id {| st_cert := cert; st_revoked := false |} ∧
    op_Kind create = MemberCreate ∧ op_Author create = id ∧ op_AuthorDevice create = device ∧
    member_step (genesisCheck id log) (membership_genesis (op_Vault create)) create = Ok m ∧ members = {[ id := RoleOwner ]}.
Proof.
  unfold verifyGenesis. destruct (de_Cert entry) as [cert|] eqn:Ec; [|done]. intros [Hg Hv]%fail_if_Ok.
  apply bind_Ok in Hv as (log & Hl%lift_domain_Ok & Hv). apply fail_if_Ok in Hv as [Hk Hv]. apply bind_Ok in Hv as (m0 & Hm0%lift_domain_Ok & Hv).
  apply bind_Ok in Hv as (m & Hm%lift_domain_Ok & [= <- <- <-]%Ok_inj). rewrite NewMembershipState_eq in Hm0. apply Ok_inj in Hm0 as <-.
  bool_simpl. rewrite !Z.eqb_eq in *. exists cert, log, m.
  pose proof Hl as Hrep. unfold replayDeviceLog in Hl. apply bind_Ok in Hl as (s0 & (_ & _ & _ & ->)%NewDeviceLogState_Ok & Hf).
  cbn [foldM] in Hf. destruct (Apply_step _ entry) as [s1|] eqn:Es; [|done]. apply Ok_inj in Hf as <-.
  apply Apply_step_Ok, Apply_Ok in Es as (_ & _ & _ & _ & _ & _ & s2 & He & ->).
  destruct He as [ct Ho Hc _ _|st Ho _ _|Ho _ _ _ _]; [|unfold OpAddDevice, OpRevokeDevice, OpSuccession in *; lia..].
  rewrite Ec in Hc. injection Hc as <-. split_and!; try done.
Qed.

Lemma RegisterFinish_Err r now d e d' : RegisterFinish r now d = (Err e, d') → d' = d.
Proof.
  unfold RegisterFinish. intros [?|E]%fail_if_Err; [done|]. destruct (ake_ValidateRecord _); [|by injection E]. cbv zeta in E.
  destruct (verifyGenesis _ _ _ _) as [[[device dv] members]|]; [by apply WithTx_Err in E|by injection E].
Qed.

Lemma storeVault_people r members d d' : storeVault r members d = (Ok (), d') → same_people d d'.
Proof.
  intros E. assert (keeps same_people (storeVault r members) d) as Hk by (keep same_people; done).
  unfold keeps in Hk. by rewrite E in Hk.
Qed.

Lemma RegisterFinish_inv r now k d : people_inv k d → people_inv (k + 1) (effect (RegisterFinish r now) d).
Proof.
  intros Hinv. unfold effect. destruct (RegisterFinish r now d) as [[[]|e] d'] eqn:E; cbn.
  2: { apply RegisterFinish_Err in E as ->. eapply people_inv_mono; [|done]. lia. }
  apply RegisterFinish_Ok in E as (device & dv & members & i & Hg & Hu & Hid & _ & _ & _ & Hs).
  apply verifyGenesis_Ok in Hg as (cert & log & m & _ & Eseq & _ & _ & Hlog & Hp & Hdev & Hdv & _).
  apply storeRegistration_Ok in Hs as (_ & Hnew & (Ea & Ed & Ee & Et)%storeVault_people). cbn in Hnew, Ea, Ed, Ee, Et.
  set (id := rg_Account r) in *. set (a := registered r (now 0%nat)) in *.
  assert (∀ q, db_entries d !! (id, q) = None) as Hno.
  { intros q. apply eq_None_not_Some. intros [e He]. destruct (pi_entries _ _ Hinv _ _ _ He) as [[? Hx] _]. congruence. }
  assert (DeviceEntries d' id = [rg_Device r]) as Een.
  { unfold DeviceEntries. rewrite Ee, rows_snoc by (intros q e He; congruence). rewrite fmap_app. cbn.
    replace (rows_by_seq (db_entries d) id) with (@nil ((ID * Z) * DeviceEntry)); [done|]. symmetry. apply elem_of_nil_inv.
    intros [[i' q] e] [Hi He]%elem_of_rows. cbn in Hi, He. congruence. }
  eapply (owner_inv k (k + 1) d d' id a log Hinv); [lia|constructor|constructor].
  - rewrite Ea. apply lookup_insert_eq.
  - intros j Hj. by rewrite Ea, lookup_insert_ne.
  - intros j b Hj Hb Eu. apply find_none with (x := (j, b)) in Hu; [|by apply list_elem_of_In, elem_of_map_to_list].
    cbn in Hu. bool_simpl. done.
  - intros j q Hj. rewrite Ee, lookup_insert_ne; [done|congruence].
  - intros q e. rewrite Ee. intros [[[= <-] <-]|[_ He]]%lookup_insert_Some; [done|congruence].
  - intros x dv' Hne. rewrite Ed. destruct (decide (x = device)) as [->|Hx]; [|by rewrite lookup_insert_ne].
    rewrite lookup_insert_eq, Hnew. split; [|done]. intros [= <-]. by rewrite Hdv in Hne.
  - rewrite Ed. by apply (map_grow_new _).
  - by rewrite Et.
  - by rewrite Een.
  - done.
  - intros x dv'. rewrite Ed, Hdev. destruct (decide (x = device)) as [->|Hx].
    + rewrite lookup_insert_eq, lookup_singleton_eq, Hdv. split; [intros [[= <-] _]; eauto|]. by intros (st & [= <-] & ->).
    + rewrite lookup_insert_ne, lookup_singleton_ne by done. split; [|by intros (? & ? & _)].
      intros [Hx' Hac]. destruct (pi_devices _ _ Hinv _ _ Hx') as [? Hy]. congruence.
  - rewrite Een. cbn. lia.
Qed.

(** ** Deletion *)

Lemma deleteSoleVaults_people id d d' : deleteSoleVaults id d = (Ok (), d') → same_people d d'.
Proof.
  intros E. assert (keeps same_people (deleteSoleVaults id) d) as Hk by (keep same_people; done).
  unfold keeps in Hk. by rewrite E in Hk.
Qed.

(** The rows of one account go, and no other's. *)
Lemma DeleteAccountRow_lookups k username d id a :
  people_inv k d → AccountByUsername d username = Some (id, a) →
  let d' := DeleteAccountRow username d in
  (∀ i b, db_accounts d' !! i = Some b ↔ db_accounts d !! i = Some b ∧ i ≠ id) ∧
  (∀ x dv, db_devices d' !! x = Some dv ↔ db_devices d !! x = Some dv ∧ dv_Account dv ≠ id) ∧
  (∀ i q e, db_entries d' !! (i, q) = Some e ↔ db_entries d !! (i, q) = Some e ∧ i ≠ id) ∧
  (∀ h t, db_tokens d' !! h = Some t ↔ db_tokens d !! h = Some t ∧ tok_Account t ≠ id).
Proof.
  intros Hinv [Ha Hu]%AccountByUsername_row. cbv zeta.
  assert (∀ i, i ∈ dom (filter (λ kv : ID * Account, ac_Username kv.2 = username) (db_accounts d)) ↔ i = id) as Hg.
  { intros i. rewrite elem_of_dom. split.
    - intros [b [Hb Hub]%map_lookup_filter_Some]. cbn in Hub. eapply (pi_users _ _ Hinv); [done..|]. congruence.
    - intros ->. exists a. by apply map_lookup_filter_Some. }
  unfold DeleteAccountRow. cbn. split_and!; intros; rewrite map_lookup_filter_Some; cbn; by rewrite Hg.
Qed.

Lemma deleted_inv k username d id a :
  people_inv k d → AccountByUsername d username = Some (id, a) → people_inv k (DeleteAccountRow username d).
Proof.
  intros Hinv Hu. destruct (DeleteAccountRow_lookups k username d id a Hinv Hu) as (Ha & Hd & He & Ht). destruct Hinv. constructor.
  - intros i j x y [Hi _]%Ha [Hj _]%Ha. by eapply pi_users0.
  - intros x dv [Hx Hne]%Hd. destruct (pi_devices0 _ _ Hx) as [b Hb]. exists b. by apply Ha.
  - intros i q e [Hi Hne]%He. destruct (pi_entries0 _ _ _ Hi) as [[b Hb] ?]. split; [|done]. exists b. by apply Ha.
  - intros h t [Hh Hne]%Ht. destruct (pi_tokens0 _ _ Hh) as [[b Hb] Hk]. split; [exists b; by apply Ha|].
    destruct (tok_Kind t); [done|]. destruct Hk as (dv & Hdv & Hac). exists dv. split; [|done]. apply Hd. split; [done|congruence].
  - intros i b [Hi Hne]%Ha. destruct (pi_accounts0 i b Hi) as [log Hl]. exists log. eapply account_ok_same; [done| | |exact Hl].
    + unfold DeviceEntries. rewrite (rows_frame (db_entries d)); [done|]. intros q. apply option_eq. intros e. rewrite He. split; [by intros []|by intros].
    + intros x dv Hac. rewrite Hd. split; [by intros []|]. intros Hx. split; [done|congruence].
Qed.

Lemma DeleteAccount_inv username k d : people_inv k d → people_inv k (effect (DeleteAccount username) d).
Proof.
  intros Hinv. unfold effect. destruct (DeleteAccount username d) as [[[]|e] d'] eqn:E; cbn; [|by apply WithTx_Err in E as ->].
  unfold DeleteAccount in E. apply (proj1 (WithTx_Ok _ _ _ _)) in E. apply TX_bind_Ok in E as (? & ? & [-> ->]%tx_get_Ok & E).
  destruct (AccountByUsername d username) as [[id a]|] eqn:Eu; [|by apply tx_lift_Ok in E as [? _]].
  apply TX_bind_Ok in E as ([] & d1 & Hp%deleteSoleVaults_people & ->%tx_modify_Ok). eapply deleted_inv.
  - by eapply touched_inv, Hinv; apply same_people_touched.
  - unfold AccountByUsername in *. destruct Hp as (-> & _). exact Eu.
Qed.

(** The invariant, as long as no log is longer than its positions can count. *)
Definition people_kept (n : nat) (d d' : DB) : Prop :=
  ∀ k, 16 * Z.of_nat (k + n) + 16 ≤ MaxUint64 → people_inv k d → people_inv (k + n) d'.

#[export] Instance people_run del : run_rel cfg people_kept del.
Proof.
  assert (∀ d d', touched d d' → people_kept 1 d d') as Ht.
  { intros d d' Htd k _ Hi. eapply people_inv_mono; [|by eapply touched_inv]. lia. }
  constructor.
  - intros d k _ Hi. eapply people_inv_mono; [|done]. lia.
  - intros m n d1 d2 d3 H12 H23 k Hk Hi. replace (k + (m + n))%nat with (k + m + n)%nat by lia. apply H23; [lia|]. apply H12; [lia|done].
  - intros m n d d' Hmn Hd k Hk Hi. eapply people_inv_mono; [|apply (Hd k); [lia|done]]. lia.
  - intros rq d. destruct (devices_apart rq) eqn:Ea; [by apply Ht, serve_touched|].
    intros k Hk Hi. destruct rq; try discriminate Ea; [apply AppendDeviceLog_inv; [lia|done]|by apply RegisterFinish_inv].
  - intros username d _ k _ Hi. eapply people_inv_mono; [|by apply DeleteAccount_inv]. lia.
  - intros. apply Ht, finishLogin_touched.
  - intros. apply Ht, verifyDevice_touched.
Qed.

Definition empty_db : DB := {|
  db_accounts := ∅; db_devices := ∅; db_entries := ∅; db_tokens := ∅; db_vaults := ∅; db_ops := ∅; db_members := ∅;
  db_participants := ∅; db_commits := ∅; db_versions := ∅; db_invites := ∅ |}.

Lemma people_inv_empty : people_inv 0 empty_db.
Proof. constructor; intros *; cbn; rewrite lookup_empty; done. Qed.

Lemma people_reachable del n s : run cfg del n (newService empty_db) s → 16 * Z.of_nat n + 16 ≤ MaxUint64 → people_inv n (sv_db s).
Proof. intros Hr Hn. exact (run_related cfg people_kept del n _ _ Hr 0%nat Hn people_inv_empty). Qed.

(** C11. In every state the server can reach from an empty database - any requests, overlapping, account
    deletions included, up to some 10^18 of them - every account's stored device log verifies from the
    keys it registered, leaves no revocation unanswered, and the table of devices every request is
    checked against holds exactly the devices that log certifies, each with the key and the revocation
    the log gives it. *)
Theorem device_table_is_the_log (del : bool) (n : nat) (s : Service) (id : ID) (a : Account) :
  run cfg del n (newService empty_db) s → 16 * Z.of_nat n + 16 ≤ MaxUint64 → db_accounts (sv_db s) !! id = Some a →
  ∃ log, replayDeviceLog id a (DeviceEntries (sv_db s) id) = Ok log ∧ ds_pendingSuccession log = false ∧
    ∀ device dv, (DeviceByID (sv_db s) device = Some dv ∧ dv_Account dv = id) ↔
      (∃ st, ds_devices log !! device = Some st ∧ dv = log_row id st).
Proof.
  intros Hr Hn Ha. destruct (pi_accounts _ _ (people_reachable del n s Hr Hn) id a Ha) as [log []]. exists log. done.
Qed.

(** C27. In every reachable state the tables are well formed: usernames are unique, every device and
    every log entry belongs to an account that exists, entries are stored at their own position - and
    whoever a token authenticates is an account that exists, together with a device of that very
    account if the token is an access token, and no device if it is an account token. *)
Theorem reachable_well_formed (del : bool) (n : nat) (s : Service) :
  run cfg del n (newService empty_db) s → 16 * Z.of_nat n + 16 ≤ MaxUint64 →
  (∀ i j a b, AccountByID (sv_db s) i = Some a → AccountByID (sv_db s) j = Some b → ac_Username a = ac_Username b → i = j) ∧
  (∀ device dv, DeviceByID (sv_db s) device = Some dv → is_Some (AccountByID (sv_db s) (dv_Account dv))) ∧
  (∀ id e, e ∈ DeviceEntries (sv_db s) id → is_Some (AccountByID (sv_db s) id) ∧ db_entries (sv_db s) !! (id, de_Seq e) = Some e) ∧
  (∀ token kinds now p, Authenticate token kinds now (sv_db s) = Ok p →
     is_Some (AccountByID (sv_db s) (p_Account p)) ∧
     match p_Kind p with
     | TokenAccount => p_Device p = ID_zero
     | TokenAccess => ∃ dv, DeviceByID (sv_db s) (p_Device p) = Some dv ∧ dv_Account dv = p_Account p ∧ dv_Revoked dv = false
     end).
Proof.
  intros Hr Hn. destruct (people_reachable del n s Hr Hn). split_and!; try done.
  - intros id e [q He]%elem_of_DeviceEntries. destruct (pi_entries0 _ _ _ He) as [? ->]. done.
  - intros token kinds now p (t & a & Ht & _ & _ & Ha & _ & Hd & ->)%Authenticate_Ok. cbn. split; [by exists a|].
    destruct (pi_tokens0 _ _ Ht) as [_ Hk]. destruct (tok_Kind t); [done|]. destruct (Hd eq_refl) as (dv & Hdv & Hrv).
    destruct Hk as (dv' & Hdv' & Hac). exists dv. rewrite Hdv in Hdv'. injection Hdv' as <-. done.
Qed.
End people.
