(* ===== verification/ServerVaults.v ===== *)
(** * ServerVaults: every vault of every reachable database verifies

    The server's requests, in any order and number, keep every vault's stored log and records such
    that they replay and verify by the shared rules, with the member list the log gives - as long as
    no account is deleted, the one request that breaks it. *)

From S2P Require Import Prelude Bytes SyncBase Rows Canon Sha2 Envelope Merkle Head DeviceLog Retention Membership MembershipLog VaultState Limiter ServerStore Server StoreLaws ServerLaws ServerAuth ServerRun ServerAuthLaws ServerInv.

(** ** The rows of the other vaults *)

(** Vault [v] has the same rows, and every device is still there with its account and key. *)
Record same_vault (v : ID) (d d' : DB) : Prop := {
  sv_row : db_vaults d' !! v = db_vaults d !! v;
  sv_ops : ∀ q, db_ops d' !! (v, q) = db_ops d !! (v, q);
  sv_members : ∀ a, db_members d' !! (v, a) = db_members d !! (v, a);
  sv_commits : ∀ q, db_commits d' !! (v, q) = db_commits d !! (v, q);
  sv_versions : ∀ r n, db_versions d' !! (v, r, n) = db_versions d !! (v, r, n);
}.
#[export] Instance same_vault_pre v : PreOrder (same_vault v).
Proof. split; [by intros d|]. intros a b c [] []. constructor; intros; etrans; eauto. Qed.

(** The rows of every vault but those in [X]. *)
Definition same_but (X : list ID) (d d' : DB) : Prop := ∀ v, v ∉ X → same_vault v d d'.
#[export] Instance same_but_pre X : PreOrder (same_but X).
Proof. split; [by intros d v|]. intros a b c H1 H2 v Hv. etrans; [by apply H1|by apply H2]. Qed.

Lemma same_versions v d P : (∀ k x, P k x = true → k.1.1 = v) → keeps (same_but [v]) (deleteVersions P) d.
Proof.
  intros HP. unfold deleteVersions. keep_step (same_but [v]). cbv zeta. destruct (_ =? 0); [keep (same_but [v])|].
  keep (same_but [v]). intros w Hw%not_elem_of_cons. constructor; try done. intros r n. cbn. rewrite map_lookup_filter.
  destruct (db_versions d !! (w, r, n)) as [x|]; [|done]. cbn. rewrite option_guard_True; [done|].
  apply not_true_iff_false. intros E%HP. cbn in E. by destruct Hw.
Qed.

Create HintDb same.
#[export] Hint Extern 1 (_ = true → _ = _) => intros; bool_simpl; done : same.

Lemma DeleteSuperseded_same v cutoff d : keeps (same_but [v]) (DeleteSuperseded v cutoff) d.
Proof. unfold DeleteSuperseded. keep_step (same_but [v]). apply same_versions. intros k x Hs. unfold supersededAt in Hs. by bool_simpl. Qed.
Lemma DeleteEpochVersions_same v es d : keeps (same_but [v]) (DeleteEpochVersions v es) d.
Proof.
  unfold DeleteEpochVersions. destruct (_ =? 0); [keep (same_but [v])|]. keep_step (same_but [v]). apply same_versions. intros k x Hs. by bool_simpl.
Qed.
Lemma DeleteRecords_same v rs n d : keeps (same_but [v]) (DeleteRecords v rs n) d.
Proof.
  revert n d. induction rs as [|r rs IH]; intros n d; cbn [DeleteRecords]; [keep (same_but [v])|].
  keep_step (same_but [v]); [|apply IH]. apply same_versions. intros k x Hs. by bool_simpl.
Qed.

(** A write to one vault's row, or to a row keyed by the vault. *)
Lemma same_alter v f d : same_but [v] d (UpdateVault v f d).
Proof.
  intros w Hw%not_elem_of_cons. constructor; try done. cbn. apply lookup_alter_ne. by destruct Hw as [Hw _]; intros <-.
Qed.
Lemma same_insert v vt d : same_but [v] d (set_vaults (<[v := vt]> (db_vaults d)) d).
Proof. intros w Hw%not_elem_of_cons. constructor; try done. cbn. apply lookup_insert_ne. by destruct Hw as [Hw _]; intros <-. Qed.
Lemma same_op v q op d : same_but [v] d (set_ops (<[(v, q) := op]> (db_ops d)) d).
Proof. intros w Hw%not_elem_of_cons. constructor; try done. intros q'. cbn. apply lookup_insert_ne. destruct Hw as [Hw _]. congruence. Qed.
Lemma same_op_alter v q f d : same_but [v] d (set_ops (alter f (v, q) (db_ops d)) d).
Proof. intros w Hw%not_elem_of_cons. constructor; try done. intros q'. cbn. apply lookup_alter_ne. destruct Hw as [Hw _]. congruence. Qed.
Lemma same_commit v q row d : same_but [v] d (set_commits (<[(v, q) := row]> (db_commits d)) d).
Proof. intros w Hw%not_elem_of_cons. constructor; try done. intros q'. cbn. apply lookup_insert_ne. destruct Hw as [Hw _]. congruence. Qed.
Lemma same_version v r n row d : same_but [v] d (set_versions (<[(v, r, n) := row]> (db_versions d)) d).
Proof. intros w Hw%not_elem_of_cons. constructor; try done. intros r' n'. cbn. apply lookup_insert_ne. destruct Hw as [Hw _]. congruence. Qed.
Lemma same_participants v X d : same_but [v] d (set_participants X d).
Proof. by intros w _. Qed.
Lemma ReplaceMembers_same v rs d : keeps (same_but [v]) (ReplaceMembers v rs) d.
Proof.
  intros w Hw%not_elem_of_cons. destruct Hw as [Hw _]. constructor; try done. intros a. cbn.
  induction (map_to_list rs) as [|[x r] l IH]; cbn.
  - rewrite map_lookup_filter. destruct (db_members d !! (w, a)); [|done]. cbn. by rewrite option_guard_True.
  - rewrite lookup_insert_ne by congruence. exact IH.
Qed.
#[export] Hint Resolve DeleteSuperseded_same DeleteEpochVersions_same DeleteRecords_same ReplaceMembers_same same_alter same_insert same_op
  same_op_alter same_commit same_version same_participants : same.

(** Follow a request on vault [v]. *)
Ltac same v := repeat first [solve [eauto with same] | keep_step (same_but [v])
  | match goal with |- keeps _ ?m _ => let h := head_of m in unfold h end].

Section requests.
Context `{Crypto, AKE} (cfg : Config).

Lemma pruneVault_same v m now d : keeps (same_but [v]) (pruneVault v m now) d.
Proof. same v. Qed.
Hint Resolve pruneVault_same : same.
Lemma Commit_same p v expect c now d : keeps (same_but [v]) (Service_Commit cfg p v expect c now) d.
Proof. same v. Qed.
Lemma AppendMembership_same p v ops now d : keeps (same_but [v]) (AppendMembership p v ops now) d.
Proof. same v. Qed.
Lemma CreateVault_same p op d : keeps (same_but [op_Vault op]) (CreateVault p op) d.
Proof. same (op_Vault op). Qed.
Lemma storeVault_same r members d : keeps (same_but [op_Vault (rg_Vault r)]) (storeVault r members) d.
Proof. same (op_Vault (rg_Vault r)). Qed.
Lemma PruneOne_same v now d : keeps (same_but [v]) (PruneOne v now) d.
Proof. same v. Qed.
End requests.

(** ** A vault that verifies *)

Section vaults.
Context `{Crypto, AKE} (cfg : Config).

(** The vault's bookkeeping is consistent, its log replays to [m], its records verify as [st], and the
    member list that guards its requests is the log's; after [k] requests it is at most so long. *)
Record vault_ok (k : nat) (d : DB) (v : ID) (vt : Vault) (m : MembershipState) (st : VaultState) : Prop := {
  vo_wf : vault_wf d v vt;
  vo_members : replayMembership d v = Ok m;
  vo_records : currentState d v = Ok st;
  vo_roles : ∀ a, MemberRole d v a = if ms_deleted m then RoleNone else Role m a;
  vo_seq : va_Seq vt ≤ Z.of_nat k;
  vo_length : len (MemberOps d v) ≤ 16 * Z.of_nat k;
}.

Record vaults_inv (k : nat) (d : DB) : Prop := {
  vi_vaults : ∀ v vt, db_vaults d !! v = Some vt → ∃ m st, vault_ok k d v vt m st;
  vi_absent : ∀ v, db_vaults d !! v = None → no_rows d v;
}.

Lemma vault_ok_mono k k' d v vt m st : (k ≤ k')%nat → vault_ok k d v vt m st → vault_ok k' d v vt m st.
Proof. intros Hk []. constructor; [done..|lia|lia]. Qed.
Lemma vaults_inv_mono k k' d : (k ≤ k')%nat → vaults_inv k d → vaults_inv k' d.
Proof. intros Hk []. constructor; [|done]. intros v vt Hv. destruct (vi_vaults0 v vt Hv) as (m & st & Ho). eauto using vault_ok_mono. Qed.

Lemma member_step_check check check' s op s' :
  (check (op_Author op) (op_AuthorDevice op) (op_SigAlg op) (frames (op_fields op)) (op_Sig op) = Ok () →
   check' (op_Author op) (op_AuthorDevice op) (op_SigAlg op) (frames (op_fields op)) (op_Sig op) = Ok ()) →
  member_step check s op = Ok s' → member_step check' s op = Ok s'.
Proof. intros Hc ([] & Hs)%member_step_Ok. apply member_step_Ok. split; [constructor; auto|done]. Qed.

Lemma replay_check check check' s ops s' :
  (∀ a x alg msg sig, check a x alg msg sig = Ok () → check' a x alg msg sig = Ok ()) →
  foldM (member_step check) s ops = Ok s' → foldM (member_step check') s ops = Ok s'.
Proof.
  intros Hc. revert s. induction ops as [|op ops IH]; intros s Hf; cbn [foldM] in *; [done|].
  destruct (member_step check s op) as [s1|] eqn:E; [|done]. rewrite (member_step_check check check' s op s1); auto.
Qed.

Lemma signatureCheck_grow d d' a x alg msg sig :
  map_grow device_same (db_devices d) (db_devices d') → signatureCheck d a x alg msg sig = Ok () → signatureCheck d' a x alg msg sig = Ok ().
Proof.
  unfold signatureCheck, DeviceByID. intros Hg. destruct (db_devices d !! x) as [dv|] eqn:E; [|done].
  destruct (Hg x dv E) as (dv' & -> & -> & -> & _). done.
Qed.

Lemma MemberOps_same v d d' : same_vault v d d' → MemberOps d' v = MemberOps d v.
Proof. intros Hs. unfold MemberOps. by rewrite (rows_frame (db_ops d)) by apply Hs. Qed.

Lemma newest_same v d d' r n row : same_vault v d d' → newest (db_versions d') v r n row ↔ newest (db_versions d) v r n row.
Proof. intros Hs. unfold newest. rewrite (sv_versions _ _ _ Hs). by setoid_rewrite (sv_versions _ _ _ Hs). Qed.

Lemma vault_wf_same v d d' vt : same_vault v d d' → vault_wf d v vt → vault_wf d' v vt.
Proof.
  intros Hs Hw. constructor; rewrite ?(sv_row _ _ _ Hs), ?(sv_commits _ _ _ Hs); try apply Hw.
  - intros q row. rewrite (sv_commits _ _ _ Hs). apply Hw.
  - intros r n row. rewrite (sv_versions _ _ _ Hs). apply Hw.
  - intros r n row. rewrite (sv_versions _ _ _ Hs). apply Hw.
  - intros q op. rewrite (sv_ops _ _ _ Hs). apply Hw.
Qed.

Lemma currentState_same v d d' vt st : same_vault v d d' → vault_wf d v vt → currentState d v = Ok st → currentState d' v = Ok st.
Proof.
  intros Hs Hw. pose proof (vault_wf_same _ _ _ _ Hs Hw) as Hw'. rewrite !currentState_Ok by (apply Hw || apply Hw').
  intros (? & HL & Hh). split_and!; [done| |].
  - intros r l. rewrite (HL r l). split; intros (n & row & Hn & ->); exists n, row; (split; [|done]); by apply (newest_same v d d').
  - unfold LatestHead in *. by rewrite (rows_frame (db_commits d)) by apply Hs.
Qed.

Lemma vault_ok_same k d d' v vt m st :
  same_vault v d d' → map_grow device_same (db_devices d) (db_devices d') → vault_ok k d v vt m st → vault_ok k d' v vt m st.
Proof.
  intros Hs Hg []. constructor; [by eapply vault_wf_same| |by eapply currentState_same| |done|by rewrite (MemberOps_same v d d')].
  - apply replayMembership_Ok. rewrite (MemberOps_same v d d' Hs). apply replayMembership_Ok in vo_members0.
    eapply replay_check; [|exact vo_members0]. intros *. by apply signatureCheck_grow.
  - intros a. unfold MemberRole. rewrite (sv_members _ _ _ Hs). apply vo_roles0.
Qed.

Lemma no_rows_same v d d' : same_vault v d d' → no_rows d v → no_rows d' v.
Proof. intros [] [No Nc Nv]. constructor; intros; congruence. Qed.

(** A request on one vault. *)
Lemma one_vault k k' d d' v :
  vaults_inv k d → (k ≤ k')%nat → same_but [v] d d' → map_grow device_same (db_devices d) (db_devices d') →
  (∃ vt m st, vault_ok k' d' v vt m st) → vaults_inv k' d'.
Proof.
  intros [Hv Ha] Hk Hs Hg (vt & m & st & Hok). constructor; intros w.
  - intros wt Hw. destruct (decide (w = v)) as [->|Hne].
    + rewrite (vw_row _ _ _ (vo_wf _ _ _ _ _ _ Hok)) in Hw. injection Hw as <-. eauto.
    + assert (same_vault w d d') as Hsw by (apply Hs; set_solver). rewrite (sv_row _ _ _ Hsw) in Hw.
      destruct (Hv w wt Hw) as (m' & st' & Ho). exists m', st'. eapply vault_ok_mono, vault_ok_same; [exact Hk|exact Hsw|exact Hg|exact Ho].
  - intros Hw. destruct (decide (w = v)) as [->|Hne].
    + by rewrite (vw_row _ _ _ (vo_wf _ _ _ _ _ _ Hok)) in Hw.
    + assert (same_vault w d d') as Hsw by (apply Hs; set_solver). rewrite (sv_row _ _ _ Hsw) in Hw. eapply no_rows_same; [exact Hsw|by apply Ha].
Qed.

(** A request on none. *)
Lemma no_vault k k' d d' :
  vaults_inv k d → (k ≤ k')%nat → same_but [] d d' → map_grow device_same (db_devices d) (db_devices d') → vaults_inv k' d'.
Proof.
  intros [Hv Ha] Hk Hs Hg. assert (∀ w, same_vault w d d') as Hsw by (intros w; apply Hs, not_elem_of_nil). constructor; intros w.
  - intros wt Hw. rewrite (sv_row _ _ _ (Hsw w)) in Hw.
    destruct (Hv w wt Hw) as (m' & st' & Ho). exists m', st'. eapply vault_ok_mono, vault_ok_same; [exact Hk|exact (Hsw w)|exact Hg|exact Ho].
  - intros Hw. rewrite (sv_row _ _ _ (Hsw w)) in Hw. eapply no_rows_same; [exact (Hsw w)|by apply Ha].
Qed.

Lemma pruned_ok k v d d' vt m st : pruned v d d' → vault_ok k d v vt m st → ∃ vt', vault_ok k d' v vt' m st.
Proof.
  intros Hp []. destruct (vault_wf_pruned _ _ _ _ Hp vo_wf0) as (vt' & Hw' & Hsame). exists vt'. constructor.
  - done.
  - by eapply replayMembership_pruned.
  - eapply currentState_pruned; [exact Hp|apply vo_wf0|done].
  - intros a. unfold MemberRole. rewrite (pr_members _ _ _ Hp). apply vo_roles0.
  - by rewrite (vsm_seq _ _ Hsame).
  - by rewrite <- (Forall2_length _ _ _ (MemberOps_pruned v d d' Hp)).
Qed.

Lemma Commit_inv p v expect c now k d :
  Z.of_nat k < MaxUint64 → vaults_inv k d → vaults_inv (k + 1) (effect (Service_Commit cfg p v expect c now) d).
Proof.
  intros Hk Hinv. pose proof (Commit_same cfg p v expect c now d) as Hs. unfold keeps, effect in *.
  destruct (Service_Commit cfg p v expect c now d) as [[[seq pub]|e] d'] eqn:E; cbn in *.
  2: { assert (d' = d) as ->; [|eapply vaults_inv_mono; [|done]; lia].
       unfold Service_Commit in E. apply lift_Err in E as [?|([] & E)]; [done|]. apply fail_if_Err in E as [?|E]; [done|].
       apply fail_if_Err in E as [?|E]; [done|]. by apply WithTx_Err in E. }
  apply Service_Commit_Ok in E as (_ & _ & _ & vt & role & (Hvt & _)%requireMember_Ok & Hc).
  destruct (CommitSeqByID d v _) as [prior|]; [destruct Hc as [_ ->]; eapply vaults_inv_mono; [|done]; lia|].
  destruct Hc as (-> & q & ms & Hc & _). destruct (vi_vaults _ _ Hinv v vt Hvt) as (m & st & []).
  destruct (storeCommit_Ok _ _ _ _ _ _ _ _ _ Hc vo_wf0) as (m0 & s & s' & dx & bytes & row & Hm & _ & _ & _ & -> & _ & Hl & Hp & _ & Eseq & Hcs); [lia|].
  destruct (landed_wf _ _ _ _ _ _ Hl Eseq vo_wf0) as (vt1 & Hw1 & E1 & _). rewrite vo_members0 in Hm. apply Ok_inj in Hm as <-.
  destruct (pruned_ok (k + 1) v dx d' vt1 m s' Hp) as [vt2 Hok].
  - constructor; [done|by eapply landed_membership|done| |lia|].
    + intros a. unfold MemberRole. rewrite (la_members _ _ _ _ _ _ Hl). apply vo_roles0.
    + unfold MemberOps in *. rewrite (la_ops _ _ _ _ _ _ Hl). lia.
  - eapply one_vault; [done|lia|done| |eauto]. rewrite (pr_devices _ _ _ Hp), (la_devices _ _ _ _ _ _ Hl). apply (reflexivity (R := map_grow device_same)).
Qed.

Lemma Append_inv p v ops now k d :
  16 * Z.of_nat k + 16 ≤ MaxUint64 → vaults_inv k d → vaults_inv (k + 1) (effect (AppendMembership p v ops now) d).
Proof.
  intros Hk Hinv. pose proof (AppendMembership_same p v ops now d) as Hs.
  pose proof (gr_devices _ _ (serve_grows cfg (RqAppendMembership p v ops now) d)) as Hg. cbn [serve] in Hg. unfold keeps, effect in *.
  destruct (AppendMembership p v ops now d) as [[pub|e] d'] eqn:E; cbn in *.
  2: { assert (d' = d) as ->; [|eapply vaults_inv_mono; [|done]; lia].
       unfold AppendMembership in E. apply lift_Err in E as [?|([] & E)]; [done|]. apply fail_if_Err in E as [?|E]; [done|].
       apply fail_if_Err in E as [?|E]; [done|]. by apply WithTx_Err in E. }
  destruct (append_needs_replay _ _ _ _ _ _ _ E) as (_ & vt & role & _ & (Hvt & _)%requireMember_Ok & Hlen). unfold maxOpsPerAppend in Hlen.
  destruct (vi_vaults _ _ Hinv v vt Hvt) as (m & st & []).
  destruct (AppendMembership_Ok p v ops now d d' vt pub E vo_wf0) as (m0 & m' & vt' & _ & _ & Hm' & Hr & Hcs & Hw' & Eq & _ & _ & _ & El & _); [lia|].
  eapply one_vault; [done| |done|done|]; [lia|]. exists vt', m', st. constructor; [done|done|by apply Hcs|done|lia|]. rewrite El. lia.
Qed.

Lemma Create_inv p op k d : vaults_inv k d → vaults_inv (k + 1) (effect (CreateVault p op) d).
Proof.
  intros Hinv. pose proof (CreateVault_same p op d) as Hs. pose proof (gr_devices _ _ (serve_grows cfg (RqCreateVault p op) d)) as Hg.
  cbn [serve] in Hg. unfold keeps, effect in *. destruct (CreateVault p op d) as [[[]|e] d'] eqn:E; cbn in *.
  2: { assert (d' = d) as ->; [|eapply vaults_inv_mono; [|done]; lia].
       unfold CreateVault in E. apply lift_Err in E as [?|([] & E)]; [done|]. apply fail_if_Err in E as [?|E]; [done|]. by apply WithTx_Err in E. }
  assert (db_vaults d !! op_Vault op = None) as Hno.
  { pose proof E as E'. unfold CreateVault in E'. apply TX_bind_Ok in E' as ([] & ? & [_ ->]%tx_lift_Ok & E').
    apply TX_bind_Ok in E' as ([] & ? & [_ ->]%tx_fail_if_Ok & E'). apply (proj1 (WithTx_Ok _ _ _ _)) in E'.
    apply TX_bind_Ok in E' as (? & ? & [-> ->]%tx_get_Ok & E'). apply TX_bind_Ok in E' as ([] & ? & [Hn%not_some ->]%tx_fail_if_Ok & _). done. }
  destruct (CreateVault_wf p op d d' E (vi_absent _ _ Hinv _ Hno)) as (m & vt & _ & Hw & Eq & Hm & Hcs & Eo & Hr).
  eapply one_vault; [done| |done|done|]; [lia|]. exists vt, m, (vault_genesis (op_Vault op)). constructor; [done|done|done| |lia|rewrite Eo; cbn; lia].
  intros a. unfold MemberRole. rewrite Hr, roles_lookup. by destruct (ms_deleted m).
Qed.

(** The create operation's signature, checked against the new device log, checks against the new row. *)
Lemma genesis_signature id a entry create device dv members d :
  verifyGenesis id a entry create = Ok (device, dv, members) → db_devices d !! device = Some dv →
  ∃ m, member_step (signatureCheck d) (membership_genesis (op_Vault create)) create = Ok m ∧ ms_deleted m = false ∧
    ms_members m = {[ id := RoleOwner ]} ∧ members = {[ id := RoleOwner ]}.
Proof.
  intros (cert & log & m & _ & _ & _ & _ & _ & _ & Hdev & Hdv & Hk & Hau & Had & Hm & Hmem)%verifyGenesis_Ok Hrow. exists m.
  pose proof Hm as ([] & s1 & Heff%applyKind_Ok & Em)%member_step_Ok.
  assert (ms_members m = {[ id := RoleOwner ]} ∧ ms_deleted m = false) as [Hms Hd].
  { destruct Heff as [| | | | | | | |]; [|match goal with E : op_Kind create = _ |- _ => rewrite Hk in E; discriminate E end..].
    rewrite Em. cbn. by rewrite Hau. }
  split_and!; try done. eapply member_step_check; [|exact Hm]. unfold genesisCheck, signatureCheck, DeviceKey, DeviceByID.
  rewrite Had, Hrow, Hdev, lookup_singleton_eq, Hau, Hdv. cbn. by rewrite bool_decide_eq_true_2.
Qed.

Lemma Register_inv r now k d : vaults_inv k d → vaults_inv (k + 1) (effect (RegisterFinish r now) d).
Proof.
  intros Hinv. unfold effect. destruct (RegisterFinish r now d) as [[[]|e] d'] eqn:E; cbn.
  2: { apply RegisterFinish_Err in E as ->. eapply vaults_inv_mono; [|done]. lia. }
  apply RegisterFinish_Ok in E as (device & dv & members & i & Hg & _ & _ & Hv & _ & _ & Hs).
  apply storeRegistration_Ok in Hs as (_ & Hnew & Hs). set (d1 := with_account _ _ _ _ _) in Hs. cbn in Hnew.
  destruct (genesis_signature _ _ _ _ _ _ _ d1 Hg) as (m & Hm & Hdel & Hms & ->); [cbn; apply lookup_insert_eq|].
  assert (vaults_inv k d1) as Hinv1.
  { eapply no_vault; [done|lia| |]; [by intros w _|]. by apply (map_grow_new _). }
  pose proof (storeVault_same r {[ rg_Account r := RoleOwner ]} d1) as Hsame. pose proof (storeVault_people _ _ _ _ Hs) as (_ & Edev & _).
  unfold keeps in Hsame. rewrite Hs in Hsame. unfold storeVault in Hs. apply TX_bind_Ok in Hs as ([] & d2 & Hi & Hs).
  apply TX_bind_Ok in Hs as ([] & d3 & Ha & Hr). match type of Hi with InsertVault _ ?vt _ = _ =>
    destruct (vault_created vt (rg_Vault r) m _ d1 d2 d3 d' (vi_absent _ _ Hinv1 _ Hv) eq_refl Hm Hi Ha Hr) as (Hw & Hrep & Hcs & Eo & Hmem); set (vt0 := vt) in * end.
  eapply (one_vault k (k + 1) d1 d' (op_Vault (rg_Vault r))); [done|lia|done|by rewrite Edev|].
  exists vt0, m, (vault_genesis (op_Vault (rg_Vault r))). constructor; [done|done|done| |cbn; lia|rewrite Eo; cbn; lia].
  intros a. unfold MemberRole, Role. by rewrite Hmem, Hdel, Hms.
Qed.

(** ** Pruning *)

Definition inv_kept (k : nat) (d d' : DB) : Prop := vaults_inv k d → vaults_inv k d'.
#[export] Instance inv_kept_pre k : PreOrder (inv_kept k).
Proof. split; [intros d Hi; exact Hi|]. intros a b c H1 H2 Hi. auto. Qed.

Lemma PruneOne_inv v now k d : keeps (inv_kept k) (PruneOne v now) d.
Proof.
  intros Hinv. pose proof (PruneOne_same v now d) as Hs. unfold keeps in Hs.
  destruct (PruneOne v now d) as [[[]|e] d'] eqn:E; cbn in *; [|by apply WithTx_Err in E as ->].
  unfold PruneOne in E. apply (proj1 (WithTx_Ok _ _ _ _)) in E. apply TX_bind_Ok in E as (? & ? & [-> ->]%tx_get_Ok & E).
  apply TX_bind_Ok in E as (m & ? & [Hm ->]%tx_lift_Ok & E).
  destruct (db_vaults d !! v) as [vt|] eqn:Ev.
  - destruct (vi_vaults _ _ Hinv v vt Ev) as (m0 & st & Ho). apply pruneVault_pruned in E; [|apply Ho..].
    destruct (pruned_ok k v d d' vt m0 st E Ho) as [vt' Ho'].
    eapply one_vault; [exact Hinv|lia|done|by rewrite (pr_devices _ _ _ E)|eauto].
  - pose proof (vi_absent _ _ Hinv v Ev) as [No Nc Nv]. apply pruneVault_pruned in E.
    2: { intros q op Hop. by rewrite No in Hop. }
    2: { intros r n row Hr. by rewrite Nv in Hr. }
    2: { intros r n row Hr. by rewrite Nv in Hr. }
    assert (db_vaults d' !! v = None) as Ev'.
    { pose proof (pr_vaults _ _ _ E v) as Hr. rewrite Ev in Hr. by inversion Hr. }
    constructor; intros w.
    + intros wt Hw. assert (w ≠ v) as Hne by congruence. assert (same_vault w d d') as Hsw by (apply Hs; set_solver).
      rewrite (sv_row _ _ _ Hsw) in Hw. destruct (vi_vaults _ _ Hinv w wt Hw) as (m' & st' & Ho). exists m', st'.
      eapply vault_ok_same; [exact Hsw|by rewrite (pr_devices _ _ _ E)|exact Ho].
    + intros Hw. destruct (decide (w = v)) as [->|Hne].
      * constructor.
        -- intros q. pose proof (pr_ops _ _ _ E (v, q)) as Hr. rewrite No in Hr. by inversion Hr.
        -- intros q. rewrite (pr_commits _ _ _ E). apply Nc.
        -- intros r n. eapply lookup_weaken_None; [apply Nv|]. apply (pr_versions _ _ _ E).
      * assert (same_vault w d d') as Hsw by (apply Hs; set_solver). rewrite (sv_row _ _ _ Hsw) in Hw.
        eapply no_rows_same; [exact Hsw|by apply (vi_absent _ _ Hinv)].
Qed.

Lemma PruneAll_inv now k d : keeps (inv_kept k) (PruneAll now) d.
Proof. unfold PruneAll. keep_step (inv_kept k). apply (keeps_for (inv_kept k)). intros x d1 _. apply PruneOne_inv. Qed.

(** ** Every history *)

Definition vaults_kept (n : nat) (d d' : DB) : Prop :=
  ∀ k, 16 * Z.of_nat (k + n) + 16 ≤ MaxUint64 → vaults_inv k d → vaults_inv (k + n) d'.

(** Requests that write no vault's rows. *)
Lemma serve_no_vault rq d :
  match rq with
  | RqAppendDeviceLog _ _ | RqCreateInvite _ _ _ | RqRevokeInvite _ | RqSetFrozen _ _ | RqPasswordFinish _ _ _ _ => same_but [] d (serve cfg rq d)
  | _ => True
  end.
Proof. destruct rq; try exact I; unfold serve; keep_effect (same_but []); by intros v _. Qed.

#[export] Instance vaults_run : run_rel cfg vaults_kept false.
Proof.
  assert (∀ d d', same_but [] d d' → grows d d' → vaults_kept 1 d d') as Hno.
  { intros d d' Hs Hg k _ Hi. eapply no_vault; [done|lia|done|apply Hg]. }
  constructor.
  - intros d k _ Hi. eapply vaults_inv_mono; [|done]. lia.
  - intros m n d1 d2 d3 H12 H23 k Hk Hi. replace (k + (m + n))%nat with (k + m + n)%nat by lia. apply H23; [lia|]. apply H12; [lia|done].
  - intros m n d d' Hmn Hd k Hk Hi. eapply vaults_inv_mono; [|apply (Hd k); [lia|done]]. lia.
  - intros rq d. pose proof (serve_no_vault rq d) as Hs. pose proof (serve_grows cfg rq d) as Hg.
    destruct rq; try (by apply Hno); clear Hs Hg; intros k Hk Hi; cbn [serve].
    + apply Commit_inv; [unfold MaxUint64 in *; lia|done].
    + by apply Create_inv.
    + apply Append_inv; [lia|done].
    + eapply vaults_inv_mono; [|by apply PruneAll_inv]. lia.
    + by apply Register_inv.
  - done.
  - intros. apply Hno; keep_effect (same_but []) || keep_effect grows; [by intros v _|grow_leaf].
  - intros. apply Hno; keep_effect (same_but []) || keep_effect grows; [by intros v _|grow_leaf].
Qed.

Lemma vaults_inv_empty : vaults_inv 0 empty_db.
Proof. constructor; [by intros v vt; cbn; rewrite lookup_empty|]. intros v _. constructor; intros; apply lookup_empty. Qed.

(** C1. Every vault of every state the server can reach from an empty database verifies: whatever
    requests came, in whatever order, overlapping and retried, valid or not, up to some 10^18 of
    them, the stored log of operations replays by the membership rules, the stored records and head
    restore to a state whose root the head commits to, the bookkeeping agrees with both, and the
    member list that admits requests is exactly the log's - so long as no account was deleted. *)
Theorem every_vault_verifies (n : nat) (s : Service) (v : ID) (vt : Vault) :
  run cfg false n (newService empty_db) s → 16 * Z.of_nat n + 16 ≤ MaxUint64 → VaultByID (sv_db s) v = Some vt →
  ∃ m st, replayMembership (sv_db s) v = Ok m ∧ currentState (sv_db s) v = Ok st ∧ vault_wf (sv_db s) v vt ∧
    ∀ a, MemberRole (sv_db s) v a = if ms_deleted m then RoleNone else Role m a.
Proof.
  intros Hr Hn Hv. pose proof (run_related cfg vaults_kept false n _ _ Hr 0%nat Hn vaults_inv_empty) as Hi.
  destruct (vi_vaults _ _ Hi v vt Hv) as (m & st & []). exists m, st. done.
Qed.
End vaults.
