(* ===== verification/ServerDemo.v ===== *)
(** * ServerDemo: a server from its first invite on

    An operator creates an invite, a person registers with it, the device proves itself, the person
    logs in and changes the password, and the device is revoked; the theorems of [ServerAuthLaws],
    [ServerInv] and [ServerVaults] applied to it. The signature scheme and the hash are the cheap ones of
    [Sha2]; the password protocol is a stand-in. *)

From S2P Require Import Prelude Bytes GoText SyncBase Rows Sha2 Canon Envelope Merkle Head DeviceLog Retention Membership MembershipLog VaultState Limiter ServerStore Server StoreLaws ServerLaws ServerAuth ServerRun ServerAuthLaws ServerInv ServerVaults.

#[local] Existing Instance demo_crypto.

#[export] Instance demo_ake : AKE := {|
  ake_RegistrationResponse := λ coins req _, Ok (coins ++ req);
  ake_ValidateRecord := λ rec, if rec =?? [] then Err [] else Ok ();
  ake_LoginStart := λ coins ke1 rec _, Ok (ke1 ++ rec, coins);
  ake_LoginStartUnknown := λ coins ke1 _, Ok (ke1 ++ coins);
  ake_LoginFinish := λ ke3 mac, ke3 =?? mac;
  upper_wide := λ b, b |}.

(** The personal vault of the account, created by its first device. *)
Definition reg_create : MemberOp :=
  let o sig := {| op_Vault := demo_id 7; op_Seq := 1; op_Prev := ms_hash demo_m0; op_Kind := MemberCreate; op_Author := demo_account;
    op_AuthorDevice := demo_id 9; op_Subject := ID_zero; op_Role := 0; op_Verified := true; op_Fingerprint := demo_hash 4; op_Suite := Suite1;
    op_Epoch := 0; op_Wraps := [demo_wrap demo_account demo_cipher]; op_RevokedDevices := []; op_RetentionDays := 30;
    op_RequireVerified := true; op_Shred := false; op_TimeUnixMilli := 1000; op_SigAlg := SigEd25519; op_Sig := sig |} in
  o (demo_sign (demo_key 9) (frames (op_fields (o [])))).

Definition reg_now : nat → Z := λ i, 5000 + Z.of_nat i.
Definition reg_draw : option (array 16) := Some (demo_id 3).
Definition reg_invite : request := RqCreateInvite 60000 reg_draw 4000.
Definition reg_alice : Registration := {|
  rg_Invite := base32_encode (vec_to_list (demo_id 3)); rg_Username := "alice"; rg_Account := demo_account; rg_Record := [Byte.x01];
  rg_IdentityKey := demo_key 1; rg_EncryptionKey := demo_enc 1; rg_Bundle := [Byte.x02]; rg_Device := demo_add; rg_Vault := reg_create |}.

Definition do_request (rq : request) (s : Service) : Service := sv_set_db (serve srv_cfg rq (sv_db s)) s.
Definition reg_s0 : Service := newService empty_db.
Definition reg_s1 : Service := do_request reg_invite reg_s0.
Definition reg_s2 : Service := do_request (RqRegisterFinish reg_alice reg_now) reg_s1.

Lemma reg_run : run srv_cfg false 2 reg_s0 reg_s2.
Proof. apply (run_more srv_cfg false 1 1 reg_s0 reg_s1 reg_s2); apply run_tx. Qed.

Lemma reg_registered : RegisterFinish reg_alice reg_now (sv_db reg_s1) = (Ok (), sv_db reg_s2).
Proof. apply run_unit. vm_compute. reflexivity. Qed.

Definition reg_vault : Vault := {| va_Owner := demo_account; va_Seq := 0; va_MembershipSeq := 1; va_Bytes := 0; va_Personal := true;
  va_Deleted := false; va_PrunedSeq := 0 |}.
Lemma reg_limit : 16 * Z.of_nat 2 + 16 ≤ MaxUint64.
Proof. by vm_compute. Qed.

Lemma every_vault_verifies_witness : ∃ m st, replayMembership (sv_db reg_s2) (demo_id 7) = Ok m ∧ currentState (sv_db reg_s2) (demo_id 7) = Ok st.
Proof.
  destruct (every_vault_verifies srv_cfg 2 reg_s2 (demo_id 7) reg_vault reg_run reg_limit) as (m & st & Hm & Hst & _).
  - vm_compute. reflexivity.
  - exists m, st. exact (conj Hm Hst).
Defined.

Lemma device_table_is_the_log_witness :
  ∃ log, replayDeviceLog demo_account (registered reg_alice 5000) (DeviceEntries (sv_db reg_s2) demo_account) = Ok log.
Proof.
  destruct (device_table_is_the_log srv_cfg false 2 reg_s2 demo_account (registered reg_alice 5000) reg_run reg_limit) as (log & Hl & _).
  - vm_compute. reflexivity.
  - exists log. exact Hl.
Defined.

Lemma reachable_well_formed_witness :
  ∃ dv, DeviceByID (sv_db reg_s2) (demo_id 9) = Some dv ∧ is_Some (AccountByID (sv_db reg_s2) (dv_Account dv)).
Proof.
  exists {| dv_Account := demo_account; dv_SigningKey := demo_key 9; dv_Revoked := false |}.
  assert (DeviceByID (sv_db reg_s2) (demo_id 9) = Some {| dv_Account := demo_account; dv_SigningKey := demo_key 9; dv_Revoked := false |})
    as Hd by (vm_compute; reflexivity).
  exact (conj Hd (proj1 (proj2 (reachable_well_formed srv_cfg false 2 reg_s2 reg_run reg_limit)) _ _ Hd)).
Defined.

Lemma invite_single_use_witness : is_ok (fst (RegisterFinish reg_alice reg_now (sv_db reg_s2))) = false.
Proof.
  refine (proj1 (proj2 (invite_single_use srv_cfg false 0 reg_alice reg_alice reg_now reg_now reg_s1 reg_s2 (sv_db reg_s2) reg_registered _ eq_refl))).
  apply run_none.
Defined.

(** The device proves itself. *)
Definition reg_nonce : hash := demo_hash 6.
Definition reg_s3 : Service := snd (DeviceChallenge demo_account (demo_id 9) (Some reg_nonce) (λ _, 5000) 5000 id reg_s2).
Definition reg_proof : bytes :=
  demo_sign (demo_key 9) (frames [bytes_of_string LabelDeviceAuth; vec_to_list demo_account; vec_to_list (demo_id 9); vec_to_list reg_nonce]).
Definition reg_verify : result uerror (bytes * Z) * Service :=
  DeviceVerify demo_account (demo_id 9) (vec_to_list reg_nonce) reg_proof (Some (demo_hash 8)) reg_now id reg_s3.

Lemma sv_run_Ok {A} (a : A) (x : result uerror A * Service) : is_ok (fst x) = true → x = (Ok (of_ok a (fst x)), snd x).
Proof. by destruct x as [[|] ?]. Qed.

Lemma reg_verified :
  DeviceVerify demo_account (demo_id 9) (vec_to_list reg_nonce) reg_proof (Some (demo_hash 8)) reg_now id reg_s3
  = (Ok ((of_ok ([], 0) (fst reg_verify)).1, (of_ok ([], 0) (fst reg_verify)).2), snd reg_verify).
Proof. rewrite <- surjective_pairing. apply sv_run_Ok. vm_compute. reflexivity. Qed.

Lemma device_proof_sound_witness :
  ∃ dv, VerifySignature SigEd25519 (dv_SigningKey dv)
    (frames [bytes_of_string LabelDeviceAuth; vec_to_list demo_account; vec_to_list (demo_id 9); vec_to_list reg_nonce]) reg_proof = Ok ().
Proof.
  destruct (device_proof_sound demo_account (demo_id 9) (vec_to_list reg_nonce) reg_proof (Some (demo_hash 8)) reg_now id reg_s3 (snd reg_verify)
    _ _ reg_verified) as (c & s1 & a & dv & _ & _ & _ & _ & _ & _ & _ & _ & _ & _ & Hs & _).
  exists dv. exact Hs.
Defined.

(** The person logs in. *)
Definition reg_env : nat → Service → Service := λ _ s, s.
Definition reg_login : result uerror (bytes * ID * bytes) * Service :=
  LoginStart [] "alice" "192.0.2.1" [Byte.x07] [Byte.x08] (Some (demo_id 4)) reg_now reg_env reg_s2.
Definition reg_loginID : bytes := (of_ok ([], ID_zero, []) (fst reg_login)).1.1.
Definition reg_finish : result uerror LoginResult * Service :=
  LoginFinish reg_loginID "192.0.2.1" [Byte.x08] (Some (demo_hash 11)) reg_now reg_env (snd reg_login).
Definition reg_result : LoginResult :=
  of_ok {| lr_AccountToken := []; lr_Bundle := []; lr_IdentityKey := []; lr_EncryptionKey := [] |} (fst reg_finish).

Lemma reg_finished : LoginFinish reg_loginID "192.0.2.1" [Byte.x08] (Some (demo_hash 11)) reg_now reg_env (snd reg_login) = (Ok reg_result, snd reg_finish).
Proof. apply sv_run_Ok. vm_compute. reflexivity. Qed.

Lemma login_sound_witness :
  fst (LoginFinish reg_loginID "192.0.2.1" [Byte.x08] (Some (demo_hash 12)) reg_now reg_env (login_spent reg_loginID (snd reg_login)))
  = Err [ErrUnauthorized].
Proof.
  destruct (login_sound reg_loginID "192.0.2.1" [Byte.x08] (Some (demo_hash 11)) reg_now reg_env (snd reg_login) (snd reg_finish) reg_result reg_finished)
    as (l & a & Hrest).
  destruct Hrest as (_ & _ & _ & _ & _ & _ & _ & _ & _ & _ & _ & Hspent). apply Hspent.
Defined.

Lemma login_charged_witness : sv_limits (snd reg_login) = limiter_fail (sv_limits reg_s2) "alice" "192.0.2.1" 5001.
Proof.
  pose proof (login_charged [] "alice" "192.0.2.1" [Byte.x07] [Byte.x08] (Some (demo_id 4)) reg_now reg_env reg_s2 (λ _ _, eq_refl)) as Hc.
  cbv zeta in Hc. fold reg_login in Hc. destruct reg_login as [res s'].
  change (0 <? limiter_check (sv_limits reg_s2) "alice" "192.0.2.1" (reg_now 0)) with false in Hc. exact (proj1 Hc).
Defined.

(** The account changes its password from its device. *)
Definition reg_p : Principal := {| p_Account := demo_account; p_Device := demo_id 9; p_Kind := TokenAccess |}.
Definition reg_consent : bytes :=
  demo_sign (demo_key 1) (frames [bytes_of_string LabelRekey; vec_to_list demo_account; [Byte.x03]; [Byte.x04]]).
Definition reg_d4 : DB := effect (PasswordFinish reg_p [Byte.x03] [Byte.x04] reg_consent) (sv_db (snd reg_finish)).

Lemma reg_rekeyed : PasswordFinish reg_p [Byte.x03] [Byte.x04] reg_consent (sv_db (snd reg_finish)) = (Ok (), reg_d4).
Proof. apply run_unit. vm_compute. reflexivity. Qed.

Lemma password_change_authorised_witness :
  ∃ log, VerifySignature SigEd25519 (ds_identityKey log)
    (frames [bytes_of_string LabelRekey; vec_to_list demo_account; [Byte.x03]; [Byte.x04]]) reg_consent = Ok ().
Proof.
  destruct (password_change_authorised reg_p [Byte.x03] [Byte.x04] reg_consent (sv_db (snd reg_finish)) reg_d4 reg_rekeyed)
    as (a & log & _ & _ & _ & Hs & _).
  exists log. exact Hs.
Defined.

(** The device is revoked, and a request later it is still locked out. *)
Definition reg_s5 : Service := do_request (RqAppendDeviceLog reg_p [demo_rev; demo_succ]) reg_s3.
Definition reg_s6 : Service := do_request (RqSetFrozen "alice" false) reg_s5.

Lemma nonce_spent_db nonce s : sv_db (id (nonce_spent nonce s)) = sv_db s.
Proof. reflexivity. Qed.

Lemma revoked_locked_out_witness :
  is_ok (fst (DeviceVerify demo_account (demo_id 9) (vec_to_list reg_nonce) reg_proof (Some (demo_hash 8)) reg_now id reg_s6)) = false.
Proof.
  refine (proj1 (proj2 (revoked_locked_out srv_cfg 1 reg_s5 reg_s6 (demo_id 9)
    {| dv_Account := demo_account; dv_SigningKey := demo_key 9; dv_Revoked := true |} (run_tx srv_cfg false _ _) _ eq_refl))
    demo_account (vec_to_list reg_nonce) reg_proof (Some (demo_hash 8)) reg_now id reg_s6 (nonce_spent_db _ _)).
  vm_compute. reflexivity.
Defined.
