(* ===== verification/AgentForward.v ===== *)
(** * AgentForward: what a forwarded SSH agent may sign

    [internal/domain/agentforward]: the strict reader of SSH wire data ([reader.go]), login requests
    ([userauth.go]), signature algorithms ([algorithm.go]), authorized_keys lines
    ([authorized_key.go]), session bindings ([bindings.go]), the settings of a connection
    ([config.go]), the request limiter ([limiter.go]) and the approval window ([window.go]).

    A Go string is its bytes; a nil slice that the code tells apart from an empty one is [None]; a
    [time.Time] is its nanoseconds and [now()] an argument. A mutex makes each method one step. *)

From S2P Require Import Prelude Bytes GoText.

(** ** Errors ([errors.go], [internal/domain/agent_forwarding.go]) *)

(** [ErrOther] stands for an error of a port, by its text; [AgentPanic] for a run-time panic and
    [StillWaiting] for a call that has not returned yet. *)
Inductive agent_sentinel :=
  | ErrSignDataRejected | ErrAlgorithmRefused | ErrBindingRefused | ErrHostKeyMismatch | ErrRateLimited
  | ErrInvalidConfig
  | ErrAgentSessionEnded | ErrAgentForwardingDisabled | ErrAgentKeyNotForwardable | ErrAgentSignDenied
  | ErrAgentOperationRefused | ErrNoPendingAgentConfirm
  | ContextCanceled | DeadlineExceeded | ErrOther (text : bytes) | AgentPanic | StillWaiting.

#[export] Instance agent_sentinel_eq_dec : EqDecision agent_sentinel.
Proof. solve_decision. Defined.

(** An error is the values it wraps, outermost first. *)
Abbreviation agent_error := (list agent_sentinel).

Definition reject : agent_error := [ErrSignDataRejected].
Definition refuseAlgorithm : agent_error := [ErrAlgorithmRefused].

(** ** The reader ([reader.go]) *)

Record reader := { rd_buf : bytes; rd_bad : bool }.

(** A reading step: a value, or a run-time panic of the slicing. *)
Abbreviation RD := (ST reader agent_error).

Definition rd_fail {A} (a : A) : RD A :=
  r ← st_get; _ ← st_put {| rd_buf := rd_buf r; rd_bad := true |}; mret a.

Definition byte1 : RD byte :=
  r ← st_get;
  match rd_bad r, rd_buf r with
  | false, b :: buf => _ ← st_put {| rd_buf := buf; rd_bad := false |}; mret b
  | _, _ => rd_fail Byte.x00
  end.

Definition bool1 : RD bool :=
  b ← byte1;
  if byte_to_Z b =? 0 then mret false
  else if byte_to_Z b =? 1 then mret true
  else rd_fail false.

(** [str]: the slice bound [4+n] is a [uint32]. *)
Definition str : RD (option bytes) :=
  r ← st_get;
  if rd_bad r || (len (rd_buf r) <? 4) then rd_fail None else
  let n := be_val (take 4 (rd_buf r)) in
  if len (rd_buf r) - 4 <? n then rd_fail None else
  let hi := wrap32 (4 + n) in
  if hi <? 4 then st_fail [AgentPanic] else
  _ ← st_put {| rd_buf := drop (Z.to_nat hi) (rd_buf r); rd_bad := false |};
  mret (Some (drop 4 (take (Z.to_nat hi) (rd_buf r)))).

Definition reader_done (r : reader) : bool := negb (rd_bad r) && (len (rd_buf r) =? 0).

(** [string(r.str())] and the other uses of a slice for which nil is empty. *)
Definition slice (o : option bytes) : bytes := match o with Some b => b | None => [] end.

(** ** Login requests ([userauth.go]) *)

Definition msgUserAuthRequest : Z := 50.
Definition serviceConnection : bytes := bytes_of_string "ssh-connection".
Definition methodPublicKey : bytes := bytes_of_string "publickey".
Definition methodHostbound : bytes := bytes_of_string "publickey-hostbound-v00@openssh.com".
Definition MaxSessionIDLen : Z := 64.
Definition MaxUserLen : Z := 256.
Definition maxKeyBlobLen : Z := 16 * 1024.

Record UserAuthRequest := {
  ua_SessionID : bytes;
  ua_User : bytes;
  ua_Algorithm : bytes;
  ua_KeyBlob : bytes;
  ua_HostKey : option bytes;
}.

Definition boundedLen (b : bytes) (limit : Z) : bool := (0 <? len b) && (len b <=? limit).

Definition checkLengths (req : UserAuthRequest) (hostbound : bool) : result agent_error unit :=
  fail_if negb (boundedLen (ua_SessionID req) MaxSessionIDLen) with reject ;;
  fail_if negb (boundedLen (ua_KeyBlob req) maxKeyBlobLen) with reject ;;
  fail_if hostbound && negb (boundedLen (slice (ua_HostKey req)) maxKeyBlobLen) with reject ;;
  Ok ().

Definition validateUser (user : bytes) : result agent_error unit :=
  fail_if (len user =? 0) || (MaxUserLen <? len user) || negb (utf8_ValidString user) with reject ;;
  fail_if existsb IsControl (runes user) with reject ;;
  Ok ().

(** The fields in the order they stand on the wire; the host key is read for the hostbound method
    only. *)
Definition readUserAuth : RD (UserAuthRequest * byte * bytes * bytes * bytes * bool) :=
  sessionID ← str;
  msgType ← byte1;
  user ← str;
  service ← str;
  method ← str;
  hasSignature ← bool1;
  algorithm ← str;
  keyBlob ← str;
  hostKey ← (if slice method =?? methodHostbound then str else mret None);
  mret ({| ua_SessionID := slice sessionID; ua_User := []; ua_Algorithm := slice algorithm;
           ua_KeyBlob := slice keyBlob; ua_HostKey := hostKey |},
        msgType, slice user, slice service, slice method, hasSignature).

Definition ParseUserAuthRequest (data : bytes) : result agent_error UserAuthRequest :=
  let '(res, r) := readUserAuth {| rd_buf := data; rd_bad := false |} in
  '(req, msgType, user, service, method, hasSignature) ← res;
  fail_if negb (reader_done r) with reject ;;
  fail_if negb (byte_to_Z msgType =? msgUserAuthRequest) || (service <>? serviceConnection) with reject ;;
  fail_if (method <>? methodPublicKey) && (method <>? methodHostbound) with reject ;;
  fail_if negb hasSignature with reject ;;
  _ ← checkLengths req (method =?? methodHostbound);
  _ ← validateUser user;
  Ok {| ua_SessionID := ua_SessionID req; ua_User := user; ua_Algorithm := ua_Algorithm req;
        ua_KeyBlob := ua_KeyBlob req; ua_HostKey := ua_HostKey req |}.

Definition KeyFormat (blob : bytes) : result agent_error bytes :=
  let '(res, r) := str {| rd_buf := blob; rd_bad := false |} in
  name ← res;
  fail_if rd_bad r || (len (slice name) =? 0) with reject ;;
  Ok (slice name).

(** ** Signature algorithms ([algorithm.go]) *)

Definition FlagRSASHA256 : Z := 2.
Definition FlagRSASHA512 : Z := 4.
Definition keyFormatRSA : bytes := bytes_of_string "ssh-rsa".

(** The map [rsaAlgorithmFor]; a key it lacks gives the empty string. *)
Definition rsaAlgorithmFor (flags : Z) : bytes :=
  if flags =? FlagRSASHA256 then bytes_of_string "rsa-sha2-256"
  else if flags =? FlagRSASHA512 then bytes_of_string "rsa-sha2-512" else [].

Definition signsAsItself (format : bytes) : bool :=
  (format =?? bytes_of_string "ssh-ed25519") || (format =?? bytes_of_string "ecdsa-sha2-nistp256")
  || (format =?? bytes_of_string "ecdsa-sha2-nistp384") || (format =?? bytes_of_string "ecdsa-sha2-nistp521").

Definition SigningAlgorithm (keyFormat algorithm : bytes) (flags : Z) : result agent_error bytes :=
  let rsaFlags := Z.land flags (Z.lor FlagRSASHA256 FlagRSASHA512) in
  fail_if negb (Z.ldiff flags (Z.lor FlagRSASHA256 FlagRSASHA512) =? 0) with refuseAlgorithm ;;
  if keyFormat =?? keyFormatRSA then
    fail_if (rsaAlgorithmFor rsaFlags =?? []) || (algorithm <>? rsaAlgorithmFor rsaFlags) with refuseAlgorithm ;;
    Ok algorithm
  else
    fail_if negb (signsAsItself keyFormat) || (algorithm <>? keyFormat) || negb (rsaFlags =? 0) with refuseAlgorithm ;;
    Ok algorithm.

(** ** Authorized keys ([authorized_key.go]) *)

Definition AuthorizedKeyBlob (line : bytes) : result agent_error bytes :=
  match Fields line with
  | type :: encoded :: _ =>
      match base64_decode encoded with
      | None => Err [ErrInvalidConfig]
      | Some blob =>
          match KeyFormat blob with
          | Err [AgentPanic] => Err [AgentPanic]
          | Err _ => Err [ErrInvalidConfig]
          | Ok format => fail_if format <>? type with [ErrInvalidConfig] ;; Ok blob
          end
      end
  | _ => Err [ErrInvalidConfig]
  end.

(** ** Bindings ([bindings.go]) *)

Definition MaxBindingsPerChannel : Z := 16.

Record Binding := {
  b_SessionID : bytes;
  b_HostKey : bytes;
  b_HostKeyFingerprint : bytes;
  b_Forwarding : bool;
}.

Definition no_binding : Binding :=
  {| b_SessionID := []; b_HostKey := []; b_HostKeyFingerprint := []; b_Forwarding := false |}.

(** The table of one channel. *)
Abbreviation Bindings := (list Binding).

(** [Lookup]; a nil table is empty. *)
Definition Bindings_Lookup (b : Bindings) (sessionID : bytes) : option Binding :=
  list_find (λ e, b_SessionID e = sessionID) b ≫= λ ie, Some ie.2.

Definition Bindings_Add (nb : Binding) (b : Bindings) : result agent_error Bindings :=
  fail_if (len (b_SessionID nb) =? 0) || (MaxSessionIDLen <? len (b_SessionID nb)) || (len (b_HostKey nb) =? 0)
          || (b_HostKeyFingerprint nb =?? []) with [ErrBindingRefused] ;;
  match Bindings_Lookup b (b_SessionID nb) with
  | Some existing => if b_HostKey existing =?? b_HostKey nb then Ok b else Err [ErrBindingRefused]
  | None =>
      fail_if MaxBindingsPerChannel <=? len b with [ErrBindingRefused] ;;
      Ok (b ++ [nb])
  end.

Definition Destination (req : UserAuthRequest) (b : Bindings) : result agent_error (Binding * bool) :=
  match Bindings_Lookup b (ua_SessionID req) with
  | None => Ok (no_binding, false)
  | Some binding =>
      fail_if (match ua_HostKey req with None => false | Some hk => hk <>? b_HostKey binding end)
        with [ErrHostKeyMismatch] ;;
      Ok (binding, true)
  end.

(** ** Limits and settings ([limits.go], [config.go]) *)

(** [time.Duration] is in nanoseconds. *)
Definition Second : Z := 1000000000.
Definition Minute : Z := 60 * Second.
Definition MaxFrameLen : Z := 256 * 1024.
Definition MaxChannelsPerSession : Z := 8.
Definition SignRequestsPerWindow : Z := 10.
Definition SignRequestWindow : Z := 10 * Second.
Definition ConfirmTimeout : Z := 60 * Second.
Definition DefaultWindowMinutes : Z := 15.
Definition MaxWindowMinutes : Z := 60.
Definition MaxForwardedKeys : Z := 16.
Definition maxGrants : Z := 256.

Definition ConfirmEach : bytes := bytes_of_string "each".
Definition ConfirmSessionWindow : bytes := bytes_of_string "session-window".

Record Config := {
  cfg_Enabled : bool;
  cfg_IdentityIDs : list bytes;
  cfg_Confirm : bytes;
  cfg_WindowMinutes : Z;
}.

(** The loop over the key ids, with its set [seen]. *)
Fixpoint checkIDs (seen : gset bytes) (ids : list bytes) : result agent_error unit :=
  match ids with
  | [] => Ok ()
  | id :: ids' => fail_if (id =?? []) || bool_decide (id ∈ seen) with [ErrInvalidConfig] ;; checkIDs ({[id]} ∪ seen) ids'
  end.

Definition Config_Validate (c : option Config) : result agent_error unit :=
  match c with
  | None => Ok ()
  | Some c =>
      fail_if negb ((cfg_Confirm c =?? []) || (cfg_Confirm c =?? ConfirmEach) || (cfg_Confirm c =?? ConfirmSessionWindow))
        with [ErrInvalidConfig] ;;
      fail_if (cfg_WindowMinutes c <? 0) || (MaxWindowMinutes <? cfg_WindowMinutes c) with [ErrInvalidConfig] ;;
      fail_if MaxForwardedKeys <? len (cfg_IdentityIDs c) with [ErrInvalidConfig] ;;
      checkIDs ∅ (cfg_IdentityIDs c)
  end.

Definition ValidateForConnect (c : option Config) : result agent_error unit :=
  _ ← Config_Validate c;
  fail_if (match c with Some c => cfg_Enabled c && (len (cfg_IdentityIDs c) =? 0) | None => false end)
    with [ErrInvalidConfig] ;;
  Ok ().

Definition Config_Active (c : option Config) : bool :=
  match c with Some c => cfg_Enabled c && (0 <? len (cfg_IdentityIDs c)) | None => false end.

Definition Config_Lists (c : option Config) (identityID : bytes) : bool :=
  Config_Active c && (match c with Some c => bool_decide (identityID ∈ cfg_IdentityIDs c) | None => false end).

(** [Window]; [time.Duration(minutes) * time.Minute] is an [int64] product. *)
Definition Config_Window (c : option Config) : Z :=
  match c with
  | None => 0
  | Some c =>
      if cfg_Confirm c <>? ConfirmSessionWindow then 0 else
      let minutes := if cfg_WindowMinutes c =? 0 then DefaultWindowMinutes else cfg_WindowMinutes c in
      wrap_i64 (minutes * Minute)
  end.

(** ** The request limiter ([limiter.go]) *)

Record RequestLimiter := { rl_max : Z; rl_per : Z; rl_times : list Z }.

Definition NewRequestLimiter (maxRequests per : Z) : RequestLimiter :=
  {| rl_max := maxRequests; rl_per := per; rl_times := [] |}.

(** [Allow]: the limiter keeps only the times inside the window even when it refuses. *)
Definition Limiter_Allow (now : Z) (l : RequestLimiter) : result agent_error unit * RequestLimiter :=
  let cutoff := now - rl_per l in
  let kept := filter (λ t, cutoff < t) (rl_times l) in
  if rl_max l <=? len kept then (Err [ErrRateLimited], {| rl_max := rl_max l; rl_per := rl_per l; rl_times := kept |})
  else (Ok (), {| rl_max := rl_max l; rl_per := rl_per l; rl_times := kept ++ [now] |}).

(** ** The approval window ([window.go]) *)

Record Grant := { g_SessionID : bytes; g_IdentityID : bytes; g_Destination : bytes }.

#[export] Instance Grant_eq_dec : EqDecision Grant.
Proof. solve_decision. Defined.
#[export] Program Instance Grant_countable : Countable Grant :=
  inj_countable' (λ g, (g_SessionID g, g_IdentityID g, g_Destination g))
    (λ t, {| g_SessionID := t.1.1; g_IdentityID := t.1.2; g_Destination := t.2 |}) _.
Next Obligation. by intros []. Qed.

(** The grants with their expiry. *)
Abbreviation ApprovalWindow := (gmap Grant Z).
Definition NewApprovalWindow : ApprovalWindow := ∅.

Definition pruneLocked (now : Z) (w : ApprovalWindow) : ApprovalWindow := filter (λ ge, now < ge.2) w.

Definition Window_Allow (now : Z) (g : Grant) (ttl : Z) (w : ApprovalWindow) : result agent_error unit * ApprovalWindow :=
  if (g_SessionID g =?? []) || (g_IdentityID g =?? []) || (g_Destination g =?? []) then (Err [ErrInvalidConfig], w)
  else if (ttl <=? 0) || (MaxWindowMinutes * Minute <? ttl) then (Err [ErrInvalidConfig], w)
  else
    let w := pruneLocked now w in
    if maxGrants <=? Z.of_nat (size w) then (Err [ErrInvalidConfig], w)
    else (Ok (), <[g := now + ttl]> w).

Definition Window_Allows (now : Z) (g : Grant) (w : ApprovalWindow) : bool :=
  if g_Destination g =?? [] then false
  else match w !! g with Some expiry => now <? expiry | None => false end.

Definition ForgetSession (sessionID : bytes) (w : ApprovalWindow) : ApprovalWindow :=
  filter (λ ge, g_SessionID ge.1 ≠ sessionID) w.

(** ** The reader and the wire format *)

(** An SSH string: its length as a big-endian [uint32], then its bytes. *)
Definition sshstr (s : bytes) : bytes := be_bytes 4 (len s) ++ s.

(** The longest string the reader returns: [4+n] must fit a [uint32]. *)
Definition MaxStr : Z := MaxUint32 - 4.

Definition good (buf : bytes) : reader := {| rd_buf := buf; rd_bad := false |}.

Lemma rd_fail_run {A} (a : A) r : rd_fail a r = (Ok a, {| rd_buf := rd_buf r; rd_bad := true |}).
Proof. done. Qed.

Lemma str_unfold r : str r =
  if rd_bad r || (len (rd_buf r) <? 4) then rd_fail None r else
  let n := be_val (take 4 (rd_buf r)) in
  if len (rd_buf r) - 4 <? n then rd_fail None r else
  let hi := wrap32 (4 + n) in
  if hi <? 4 then (Err [AgentPanic], r) else
  (Ok (Some (drop 4 (take (Z.to_nat hi) (rd_buf r)))), good (drop (Z.to_nat hi) (rd_buf r))).
Proof.
  unfold str, st_get, st_put, st_fail, mbind, ST_bind. cbv zeta.
  destruct (rd_bad r || (len (rd_buf r) <? 4)); [done|]. destruct (len (rd_buf r) - 4 <? _); [done|].
  by destruct (wrap32 _ <? 4).
Qed.

Lemma length_sshstr s : length (sshstr s) = (4 + length s)%nat.
Proof. unfold sshstr. by rewrite length_app, length_be_bytes. Qed.

Lemma take_sshstr s rest : take 4 (sshstr s ++ rest) = be_bytes 4 (len s).
Proof. unfold sshstr. rewrite <- app_assoc, take_app_length'; [done|]. by rewrite length_be_bytes. Qed.

Lemma str_run s rest : len s ≤ MaxStr → str (good (sshstr s ++ rest)) = (Ok (Some s), good rest).
Proof.
  intros Hs. unfold MaxStr, MaxUint32 in Hs. rewrite str_unfold. cbn [good rd_buf rd_bad orb].
  rewrite take_sshstr, be_val_bytes, !length_app, length_sshstr.
  rewrite (Z.mod_small (len s)) by (change (256 ^ Z.of_nat 4) with 4294967296; lia). cbv zeta.
  rewrite (proj2 (Z.ltb_ge _ 4)), (proj2 (Z.ltb_ge _ (len s))) by lia.
  unfold wrap32. rewrite Z.mod_small, (proj2 (Z.ltb_ge _ 4)) by lia.
  replace (Z.to_nat (4 + len s)) with (length (sshstr s)) by (rewrite length_sshstr; lia).
  rewrite drop_app_length, take_app_length. unfold sshstr at 1. by rewrite drop_app_length' by (by rewrite length_be_bytes).
Qed.

Lemma str_inv r o r' :
  str r = (Ok o, r') → rd_bad r' = false → ∃ s, o = Some s ∧ r = good (sshstr s ++ rd_buf r') ∧ len s ≤ MaxStr.
Proof.
  rewrite str_unfold. destruct r as [buf bad]. cbn [rd_buf rd_bad].
  destruct (bad || (len buf <? 4)) eqn:E1; [intros [= <- <-]; done|]. bool_simpl. cbv zeta.
  destruct (Z.ltb_spec (len buf - 4) (be_val (take 4 buf))) as [|E2]; [intros [= <- <-]; done|].
  destruct (Z.ltb_spec (wrap32 (4 + be_val (take 4 buf))) 4) as [|E3]; [done|].
  intros [= <- <-] _. apply Z.ltb_ge in H0. subst.
  pose proof (be_val_range (take 4 buf)) as Hr.
  assert (length (take 4 buf) = 4%nat) as Hl by (rewrite length_take; lia). rewrite Hl in Hr.
  change (256 ^ Z.of_nat 4) with 4294967296 in Hr. unfold wrap32 in *.
  assert (4 + be_val (take 4 buf) < 4294967296) as Hn.
  { destruct (decide (4 + be_val (take 4 buf) < 4294967296)); [done|].
    rewrite <- (Z.mod_add _ (-1)), Z.mod_small in E3 by lia. lia. }
  rewrite Z.mod_small by lia. set (n := be_val (take 4 buf)) in *.
  set (s := drop 4 (take (Z.to_nat (4 + n)) buf)).
  assert (len s = n) as Hs by (unfold s; rewrite length_drop, length_take; lia).
  exists s. split; [done|]. split; [|unfold MaxStr, MaxUint32; lia].
  unfold good. cbn [rd_buf]. f_equal. unfold sshstr. rewrite Hs. unfold n at 1. rewrite <- Hl at 1. rewrite be_bytes_val.
  rewrite <- (take_drop (Z.to_nat (4 + n)) buf) at 1. f_equal.
  rewrite <- (take_drop 4 (take (Z.to_nat (4 + n)) buf)) at 1. fold s. rewrite take_take. do 2 f_equal. lia.
Qed.

(** No slicing of a buffer shorter than 4 GiB panics, and reading never lengthens it. *)
Lemma str_total r : len (rd_buf r) ≤ MaxUint32 → ∃ o r', str r = (Ok o, r') ∧ len (rd_buf r') ≤ MaxUint32.
Proof.
  intros Hb. rewrite str_unfold, !rd_fail_run. cbv zeta. repeat case_match; eauto.
  - exfalso. pose proof (be_val_range (take 4 (rd_buf r))). bool_simpl. unfold MaxUint32, wrap32 in *.
    rewrite Z.mod_small in * by lia. lia.
  - do 2 eexists. split; [done|]. cbn. rewrite length_drop. lia.
Qed.

Lemma byte1_run b rest : byte1 (good (b :: rest)) = (Ok b, good rest).
Proof. done. Qed.

Lemma byte1_inv r b r' : byte1 r = (Ok b, r') → rd_bad r' = false → r = good (b :: rd_buf r').
Proof. destruct r as [[|x buf] []]; cbn; intros [= <- <-]; done. Qed.

Lemma byte1_total r : len (rd_buf r) ≤ MaxUint32 → ∃ b r', byte1 r = (Ok b, r') ∧ len (rd_buf r') ≤ MaxUint32.
Proof. destruct r as [[|x buf] []]; cbn; intros; do 2 eexists; (split; [done|]); cbn; lia. Qed.

Definition byte_of_bool (b : bool) : byte := if b then Byte.x01 else Byte.x00.

Lemma bool1_unfold r : bool1 r =
  match byte1 r with
  | (Ok b, r') => if byte_to_Z b =? 0 then (Ok false, r') else if byte_to_Z b =? 1 then (Ok true, r') else rd_fail false r'
  | (Err e, r') => (Err e, r')
  end.
Proof. unfold bool1, mbind, ST_bind. destruct (byte1 r) as [[] ?]; [|done]. repeat case_match; done. Qed.

Lemma bool1_run b rest : bool1 (good (byte_of_bool b :: rest)) = (Ok b, good rest).
Proof. by destruct b. Qed.

Lemma bool1_inv r b r' : bool1 r = (Ok b, r') → rd_bad r' = false → r = good (byte_of_bool b :: rd_buf r').
Proof.
  rewrite bool1_unfold. destruct (byte1 r) as [[x|] r1] eqn:E; [|done].
  destruct (Z.eqb_spec (byte_to_Z x) 0) as [H0|]; [|destruct (Z.eqb_spec (byte_to_Z x) 1) as [H1|]].
  - intros [= <- <-] Hb. rewrite (byte1_inv _ _ _ E Hb). repeat f_equal. by apply (inj byte_to_Z).
  - intros [= <- <-] Hb. rewrite (byte1_inv _ _ _ E Hb). repeat f_equal. by apply (inj byte_to_Z).
  - rewrite rd_fail_run. intros [= <- <-]. done.
Qed.

Lemma bool1_total r : len (rd_buf r) ≤ MaxUint32 → ∃ b r', bool1 r = (Ok b, r') ∧ len (rd_buf r') ≤ MaxUint32.
Proof.
  intros (b & r' & E & Hl)%byte1_total. rewrite bool1_unfold, E, rd_fail_run. repeat case_match; eauto.
Qed.

(** ** Login requests *)

(** A user name the confirmation dialog can show. *)
Definition displayable (user : bytes) : Prop :=
  0 < len user ≤ MaxUserLen ∧ utf8_ValidString user = true ∧ Forall (λ r, IsControl r = false) (runes user).

Record login_wf (req : UserAuthRequest) : Prop := {
  lw_session : 0 < len (ua_SessionID req) ≤ MaxSessionIDLen;
  lw_key : 0 < len (ua_KeyBlob req) ≤ maxKeyBlobLen;
  lw_host : ∀ hk, ua_HostKey req = Some hk → 0 < len hk ≤ maxKeyBlobLen;
  lw_algorithm : len (ua_Algorithm req) ≤ MaxStr;
  lw_user : displayable (ua_User req);
}.

(** RFC 4252, section 7, and the hostbound extension. *)
Definition login_method (req : UserAuthRequest) : bytes :=
  match ua_HostKey req with Some _ => methodHostbound | None => methodPublicKey end.
Definition encodeUserAuth (req : UserAuthRequest) : bytes :=
  sshstr (ua_SessionID req) ++ [byte_of_Z msgUserAuthRequest] ++ sshstr (ua_User req) ++ sshstr serviceConnection
  ++ sshstr (login_method req) ++ [byte_of_bool true] ++ sshstr (ua_Algorithm req) ++ sshstr (ua_KeyBlob req)
  ++ match ua_HostKey req with Some hk => sshstr hk | None => [] end.

Lemma validateUser_Ok user : validateUser user = Ok () ↔ displayable user.
Proof.
  unfold validateUser, displayable. rewrite !fail_if_Ok, !orb_false_iff, negb_false_iff, Z.eqb_neq, Z.ltb_ge.
  rewrite <- not_true_iff_false, existsb_exists, Forall_forall. setoid_rewrite list_elem_of_In.
  split.
  - intros [[[H1 H2] H3] [H4 _]]. split; [lia|]. split; [done|]. intros r Hr. apply not_true_is_false. eauto.
  - intros [H1 [H2 H3]]. split; [split; [lia|done]|]. split; [|done].
    intros (r & Hr & Hc). by rewrite H3 in Hc.
Qed.

Lemma boundedLen_true b limit : boundedLen b limit = true ↔ 0 < len b ≤ limit.
Proof. unfold boundedLen. rewrite andb_true_iff, Z.ltb_lt, Z.leb_le. done. Qed.

Lemma checkLengths_Ok req hostbound : checkLengths req hostbound = Ok () ↔
  0 < len (ua_SessionID req) ≤ MaxSessionIDLen ∧ 0 < len (ua_KeyBlob req) ≤ maxKeyBlobLen ∧
  (hostbound = true → 0 < len (slice (ua_HostKey req)) ≤ maxKeyBlobLen).
Proof.
  unfold checkLengths. rewrite !fail_if_Ok, !negb_false_iff, !boundedLen_true.
  destruct hostbound; cbn [andb]; rewrite ?negb_false_iff, ?boundedLen_true; naive_solver.
Qed.

(** What a clean read of a login leaves in the fields, and the bytes it read. *)
Lemma readUserAuth_inv data req msgType user service method has r :
  readUserAuth (good data) = (Ok (req, msgType, user, service, method, has), r) → rd_bad r = false →
  data = sshstr (ua_SessionID req) ++ [msgType] ++ sshstr user ++ sshstr service ++ sshstr method ++ [byte_of_bool has]
    ++ sshstr (ua_Algorithm req) ++ sshstr (ua_KeyBlob req)
    ++ (match ua_HostKey req with Some hk => sshstr hk | None => [] end) ++ rd_buf r ∧
  len (ua_Algorithm req) ≤ MaxStr ∧ (is_Some (ua_HostKey req) ↔ method = methodHostbound).
Proof.
  unfold readUserAuth. intros Hr Hb.
  repeat (apply st_bind_inv in Hr; destruct Hr as (? & ? & ? & Hr)). apply pair_equal_spec in Hr as [Hr ->].
  apply Ok_inj in Hr. simplify_eq/=.
  assert (x14 = good (match x15 with Some h => sshstr h | None => [] end ++ rd_buf r) ∧
    (is_Some x15 ↔ slice x7 = methodHostbound)) as [-> Hk].
  { case_bool_decide as Hm.
    - destruct (str_inv _ _ _ H7 Hb) as (s & -> & -> & _). done.
    - apply pair_equal_spec in H7 as [H7 <-]. apply Ok_inj in H7 as <-.
      split; [by destruct x14; cbn in Hb; subst|]. split; [by intros []|done]. }
  destruct (str_inv _ _ _ H6 eq_refl) as (s6 & -> & -> & _).
  destruct (str_inv _ _ _ H5 eq_refl) as (s5 & -> & -> & Ha).
  pose proof (bool1_inv _ _ _ H4 eq_refl) as ->.
  destruct (str_inv _ _ _ H3 eq_refl) as (s3 & -> & -> & _).
  destruct (str_inv _ _ _ H2 eq_refl) as (s2 & -> & -> & _).
  destruct (str_inv _ _ _ H1 eq_refl) as (s1 & -> & -> & _).
  pose proof (byte1_inv _ _ _ H0 eq_refl) as ->.
  destruct (str_inv _ _ _ H eq_refl) as (s0 & -> & [= ->] & _). done.
Qed.

Lemma readUserAuth_run sid msgType user service method has alg key hk :
  len sid ≤ MaxStr → len user ≤ MaxStr → len service ≤ MaxStr → len method ≤ MaxStr → len alg ≤ MaxStr →
  len key ≤ MaxStr → (∀ h, hk = Some h → len h ≤ MaxStr) → (is_Some hk ↔ method = methodHostbound) →
  readUserAuth (good (sshstr sid ++ [msgType] ++ sshstr user ++ sshstr service ++ sshstr method ++ [byte_of_bool has]
    ++ sshstr alg ++ sshstr key ++ match hk with Some h => sshstr h | None => [] end)) =
  (Ok ({| ua_SessionID := sid; ua_User := []; ua_Algorithm := alg; ua_KeyBlob := key; ua_HostKey := hk |},
       msgType, user, service, method, has), good []).
Proof.
  intros H1 H2 H3 H4 H5 H6 H7 Hk. unfold readUserAuth.
  do 8 (erewrite st_bind_run by (first [apply str_run|apply byte1_run|apply bool1_run]; done)). cbn [slice].
  assert ((if method =?? methodHostbound then str else mret None)
    (good match hk with Some h => sshstr h | None => [] end) = (Ok hk, good [])) as Hh.
  { destruct hk as [h|].
    - rewrite bool_decide_eq_true_2 by (apply Hk; done). rewrite <- (app_nil_r (sshstr h)). apply str_run; auto.
    - rewrite bool_decide_eq_false_2; [done|]. intros ?%Hk. by destruct H. }
  by erewrite st_bind_run by exact Hh.
Qed.

Lemma ParseUserAuthRequest_Ok data req :
  ParseUserAuthRequest data = Ok req ↔ login_wf req ∧ data = encodeUserAuth req.
Proof.
  unfold ParseUserAuthRequest. change {| rd_buf := data; rd_bad := false |} with (good data). split.
  - destruct (readUserAuth (good data)) as [[[[[[[q msgType] user] service] method] has]|] r] eqn:E; [|done].
    rewrite bind_ok_l, !fail_if_Ok. intros (Hd & Hm & Hme & Hs & H).
    unfold reader_done in Hd. bool_simpl. apply bind_Ok in H as ([] & Hl%checkLengths_Ok & H).
    apply bind_Ok in H as ([] & Hu%validateUser_Ok & <-%Ok_inj). subst.
    destruct (readUserAuth_inv _ _ _ _ _ _ _ _ E) as (-> & Ha & Hk); [by destruct (rd_bad r)|].
    destruct Hl as (? & ? & Hh). split.
    + split; cbn; [done..| |done|done]. intros hk Hhk. rewrite Hhk in Hh. apply Hh, bool_decide_eq_true_2, Hk.
      by rewrite Hhk.
    + unfold encodeUserAuth, login_method. cbn.
      assert (rd_buf r = []) as -> by (apply length_zero_iff_nil; lia). rewrite app_nil_r.
      assert (msgType = byte_of_Z msgUserAuthRequest) as -> by (apply (inj byte_to_Z); by apply Z.eqb_eq).
      do 5 f_equal. assert (method = match ua_HostKey q with Some _ => methodHostbound | None => methodPublicKey end)
        as ->; [|done].
      apply andb_false_iff in Hme as [Hme|Hme]; bool_simpl; subst.
      * destruct (ua_HostKey q); [|done]. by destruct (proj1 Hk).
      * destruct (ua_HostKey q); [done|]. by destruct (proj2 Hk eq_refl).
  - intros [[Hs Hk Hh Ha Hu] ->]. unfold encodeUserAuth.
    assert (∀ b : bytes, len b ≤ 16384 → len b ≤ MaxStr) as Hsmall by (unfold MaxStr, MaxUint32; lia).
    assert (0 < len (ua_User req) ≤ MaxUserLen) as Hul by apply Hu.
    unfold MaxSessionIDLen, maxKeyBlobLen, MaxUserLen in *.
    rewrite readUserAuth_run; try (apply Hsmall; lia); [|by apply Hsmall|apply Hsmall|done| |].
    + rewrite bind_ok_l. change (reader_done (good [])) with true. cbn [negb].
      replace (negb (byte_to_Z (byte_of_Z msgUserAuthRequest) =? msgUserAuthRequest)
        || (serviceConnection <>? serviceConnection)) with false by done.
      rewrite (proj2 (andb_false_iff _ _)).
      2: { unfold login_method. destruct (ua_HostKey req); [right|left]; done. }
      rewrite (proj2 (checkLengths_Ok _ _)), bind_ok_l.
      * rewrite (proj2 (validateUser_Ok _) Hu), bind_ok_l. by destruct req.
      * cbn. split; [done|]. split; [done|]. unfold login_method. destruct (ua_HostKey req); [by auto|done].
    + unfold login_method. case_match; done.
    + intros h Hhk. apply Hsmall. by destruct (Hh h Hhk).
    + unfold login_method. case_match; done.
Qed.

(** Run one read of a buffer known to be short enough. *)
Ltac rd_total_step :=
  match goal with Hb : len (rd_buf ?r) ≤ MaxUint32 |- _ =>
    let E := fresh in let Hb' := fresh in
    first
      [ destruct (str_total r Hb) as (? & ? & E & Hb'); erewrite st_bind_run by exact E
      | destruct (byte1_total r Hb) as (? & ? & E & Hb'); erewrite st_bind_run by exact E
      | destruct (bool1_total r Hb) as (? & ? & E & Hb'); erewrite st_bind_run by exact E ];
    clear Hb E
  end.

(** On a message of the agent protocol, at most [MaxFrameLen] long, the parser never panics: what
    is not a login is refused as such. *)
Lemma readUserAuth_total data : len data ≤ MaxUint32 → ∃ a r, readUserAuth (good data) = (Ok a, r).
Proof.
  intros Hl. unfold readUserAuth.
  assert (len (rd_buf (good data)) ≤ MaxUint32) as Hb by done. revert Hb. generalize (good data). intros r Hb.
  do 8 rd_total_step. case_bool_decide; [rd_total_step|]; unfold mbind, ST_bind; cbn; eauto.
Qed.

(** A displayable name has no control byte: no escape sequence, line break or delete. *)
Lemma displayable_bytes user : displayable user → Forall (λ b, 32 ≤ byte_to_Z b ∧ byte_to_Z b ≠ 127) user.
Proof.
  intros (_ & Hv & Hc). apply Forall_forall. intros b Hb. pose proof (byte_to_Z_range b).
  destruct (decide (byte_to_Z b < 128)) as [Hlt|]; [|lia].
  pose proof (valid_ascii_rune _ _ Hv Hb Hlt) as Hr. eapply Forall_forall in Hc; [|done].
  unfold IsControl in Hc. lia.
Qed.

(** C31. The whole of what a forwarded agent can be made to sign: the exact encoding of a login. *)
Theorem ParseUserAuthRequest_iff data req :
  (ParseUserAuthRequest data = Ok req ↔ login_wf req ∧ data = encodeUserAuth req) ∧
  (ParseUserAuthRequest data = Ok req → Forall (λ b, 32 ≤ byte_to_Z b ∧ byte_to_Z b ≠ 127) (ua_User req)).
Proof.
  split; [apply ParseUserAuthRequest_Ok|]. intros [[] _]%ParseUserAuthRequest_Ok. by apply displayable_bytes.
Qed.

Theorem ParseUserAuthRequest_refuses data :
  len data ≤ MaxFrameLen →
  ParseUserAuthRequest data = Err [ErrSignDataRejected] ↔ ∀ req, login_wf req → data ≠ encodeUserAuth req.
Proof.
  intros Hl. split.
  - intros Hp req Hw ->. by rewrite (proj2 (ParseUserAuthRequest_Ok _ req)) in Hp.
  - intros Hno. destruct (ParseUserAuthRequest data) as [req|e] eqn:E.
    + destruct (proj1 (ParseUserAuthRequest_Ok _ _) E) as [Hw Hd]. by destruct (Hno req Hw).
    + f_equal. revert E. unfold ParseUserAuthRequest. change {| rd_buf := data; rd_bad := false |} with (good data).
      destruct (readUserAuth_total data) as (a & r & Hr); [unfold MaxFrameLen, MaxUint32 in *; lia|]. rewrite Hr. destruct a as [[[[[q ?] ?] ?] ?] ?].
      rewrite bind_ok_l. unfold checkLengths, validateUser, reject, mbind, result_bind.
      repeat case_match; intros; simplify_eq; done.
Qed.

(** ** Algorithms *)

(** The flags of a request are exactly the RSA flags when nothing else is set. *)
Lemma rsa_flags_only flags : Z.ldiff flags 6 = 0 → Z.land flags 6 = flags.
Proof. intros H. pose proof (Z.lor_ldiff_and flags 6) as E. by rewrite H, Z.lor_0_l in E. Qed.

Lemma rsaAlgorithmFor_some flags a : rsaAlgorithmFor flags ≠ [] → a = rsaAlgorithmFor flags →
  (flags = FlagRSASHA256 ∧ a = bytes_of_string "rsa-sha2-256") ∨ (flags = FlagRSASHA512 ∧ a = bytes_of_string "rsa-sha2-512").
Proof.
  unfold rsaAlgorithmFor. destruct (Z.eqb_spec flags FlagRSASHA256); [naive_solver|].
  destruct (Z.eqb_spec flags FlagRSASHA512); naive_solver.
Qed.

Theorem SigningAlgorithm_iff keyFormat algorithm flags alg :
  (SigningAlgorithm keyFormat algorithm flags = Ok alg ↔
    alg = algorithm ∧
    (keyFormat = keyFormatRSA ∧ flags = FlagRSASHA256 ∧ algorithm = bytes_of_string "rsa-sha2-256" ∨
     keyFormat = keyFormatRSA ∧ flags = FlagRSASHA512 ∧ algorithm = bytes_of_string "rsa-sha2-512" ∨
     signsAsItself keyFormat = true ∧ algorithm = keyFormat ∧ flags = 0)) ∧
  SigningAlgorithm keyFormat keyFormatRSA flags = Err [ErrAlgorithmRefused].
Proof.
  unfold SigningAlgorithm. change (Z.lor FlagRSASHA256 FlagRSASHA512) with 6. split; [split|].
  - intros H. apply fail_if_Ok in H as [Hf%negb_false_iff%Z.eqb_eq H]. rewrite (rsa_flags_only _ Hf) in H.
    case_bool_decide as Hk; apply fail_if_Ok in H as [Hg ->%Ok_inj]; (split; [done|]); bool_simpl.
    + destruct (rsaAlgorithmFor_some flags alg) as [[? ?]|[? ?]]; auto.
    + right; right. split; [done|]. split; [done|]. by apply Z.eqb_eq.
  - intros [-> [(-> & -> & ->)|[(-> & -> & ->)|(Hs & -> & ->)]]]; [by vm_compute..|].
    cbn [Z.ldiff Z.land Z.eqb negb]. case_bool_decide as Hk; [by rewrite Hk in Hs|].
    by rewrite Hs, bool_decide_eq_true_2.
  - destruct (negb _) eqn:E; [done|]. case_bool_decide.
    + unfold rsaAlgorithmFor. repeat case_match; done.
    + rewrite (bool_decide_eq_false_2 (keyFormatRSA = keyFormat)) by congruence. by rewrite orb_true_r.
Qed.

Lemma KeyFormat_Ok blob name : KeyFormat blob = Ok name ↔
  ∃ rest, blob = sshstr name ++ rest ∧ 0 < len name ≤ MaxStr.
Proof.
  unfold KeyFormat. change {| rd_buf := blob; rd_bad := false |} with (good blob). split.
  - destruct (str (good blob)) as [[o|] r] eqn:E; [|done]. rewrite bind_ok_l, fail_if_Ok.
    intros [[Hb Hn]%orb_false_iff <-%Ok_inj]. destruct (str_inv _ _ _ E Hb) as (s & -> & [= ->] & Hs).
    exists (rd_buf r). cbn [slice] in *. split; [done|]. lia.
  - intros (rest & -> & Hn & Hs). rewrite str_run, bind_ok_l by done. cbn [slice good rd_bad orb].
    by rewrite (proj2 (Z.eqb_neq _ 0)) by lia.
Qed.

(** ** Authorized keys *)

Definition plain_field (f : bytes) : Prop := f ≠ [] ∧ Forall (λ b, 33 ≤ byte_to_Z b < 127) f.

Lemma plain_not_space z : 33 ≤ z < 127 → IsSpace z = false.
Proof. unfold IsSpace. lia. Qed.

Lemma ascii_decode b s : byte_to_Z b < 128 → decode_runes (b :: s) = (byte_to_Z b, [b]) :: decode_runes s.
Proof.
  intros Hb. cbn [decode_runes]. pose proof (byte_to_Z_range b).
  by rewrite (proj2 (in_range_true 0 127 b)) by lia.
Qed.

Lemma split_fields_plain f s cur : Forall (λ b, 33 ≤ byte_to_Z b < 127) f →
  split_fields (decode_runes (f ++ s)) cur = split_fields (decode_runes s) (cur ++ f).
Proof.
  revert cur. induction f as [|b f IH]; intros cur Hf; [by rewrite app_nil_r|].
  inv Hf. rewrite <- app_comm_cons, ascii_decode by lia. cbn [split_fields].
  rewrite plain_not_space by done. by rewrite IH, <- app_assoc.
Qed.

Lemma split_fields_space f s : f ≠ [] → split_fields (decode_runes (Byte.x20 :: s)) f = f :: Fields s.
Proof.
  intros Hf. rewrite ascii_decode by done. cbn [split_fields].
  change (IsSpace (byte_to_Z Byte.x20)) with true. cbn iota. by rewrite bool_decide_eq_false_2.
Qed.

Lemma Fields_line f1 f2 rest : plain_field f1 → plain_field f2 →
  Fields (f1 ++ [Byte.x20] ++ f2 ++ [Byte.x20] ++ rest) = f1 :: f2 :: Fields rest.
Proof.
  intros [? ?] [? ?]. unfold Fields at 1. rewrite split_fields_plain by done. cbn [app].
  rewrite split_fields_space by done. f_equal. unfold Fields. rewrite split_fields_plain by done. cbn [app].
  by rewrite split_fields_space.
Qed.

Lemma base64_char_plain z : 0 ≤ z < 64 → 33 ≤ byte_to_Z (base64_char z) < 127.
Proof.
  intros Hz. unfold base64_char. repeat case_match; rewrite ?byte_to_of_Z, ?Z.mod_small by lia; try lia; done.
Qed.

Lemma base64_encode_plain b : b ≠ [] → plain_field (base64_encode b).
Proof.
  intros Hb. split; [by destruct b as [|? [|? [|? ?]]]|]. clear Hb.
  induction b as [|x|x y|x y z b IH] using base64_encode_ind; cbn [base64_encode]; [constructor|..];
    byte_ranges; repeat (apply Forall_cons; split); try apply base64_char_plain; try done; try solve_div; constructor.
Qed.

(** The line [ssh-keygen] writes: type, blob in base64, comment. *)
Definition authorizedLine (format blob comment : bytes) : bytes :=
  format ++ [Byte.x20] ++ base64_encode blob ++ [Byte.x20] ++ comment.

Theorem AuthorizedKeyBlob_roundtrip format key comment :
  plain_field format → len format ≤ MaxStr →
  AuthorizedKeyBlob (authorizedLine format (sshstr format ++ key) comment) = Ok (sshstr format ++ key).
Proof.
  intros Hf Hl. unfold AuthorizedKeyBlob, authorizedLine.
  rewrite Fields_line, base64_decode_encode; [|done|by apply base64_encode_plain].
  rewrite (proj2 (KeyFormat_Ok _ format)); [by rewrite bool_decide_eq_true_2|].
  exists key. split; [done|]. destruct Hf as [Hf _]. destruct format; [done|]. cbn [length] in *. lia.
Qed.

(** ** Bindings *)

Record binding_complete (nb : Binding) : Prop := {
  bc_session : 0 < len (b_SessionID nb) ≤ MaxSessionIDLen;
  bc_host : 0 < len (b_HostKey nb);
  bc_fingerprint : b_HostKeyFingerprint nb ≠ [];
}.

(** The table of a channel: one host per session, a bounded number of complete entries. *)
Record bindings_ok (b : Bindings) : Prop := {
  bo_unique : NoDup (b_SessionID <$> b);
  bo_bound : len b ≤ MaxBindingsPerChannel;
  bo_complete : Forall binding_complete b;
}.

Lemma Lookup_Some b s x : NoDup (b_SessionID <$> b) → Bindings_Lookup b s = Some x ↔ x ∈ b ∧ b_SessionID x = s.
Proof.
  intros Hd. unfold Bindings_Lookup. split.
  - destruct (list_find _ b) as [[i y]|] eqn:E; [|done]. intros [= <-].
    apply list_find_Some in E as (Hi & Hs & _). by apply list_elem_of_lookup_2 in Hi.
  - intros [Hx Hs]. destruct (list_find (λ e, b_SessionID e = s) b) as [[i y]|] eqn:E.
    + apply list_find_Some in E as (Hi & Hy & _). cbn. f_equal.
      apply list_elem_of_lookup in Hx as [j Hj].
      assert (i = j) as ->; [|congruence].
      apply (NoDup_lookup _ i j s Hd); rewrite list_lookup_fmap; [rewrite Hi|rewrite Hj]; cbn; congruence.
    + eapply list_find_None, Forall_forall in E; done.
Qed.

Lemma Lookup_None b s : Bindings_Lookup b s = None ↔ s ∉ b_SessionID <$> b.
Proof.
  unfold Bindings_Lookup. destruct (list_find _ b) as [[i y]|] eqn:E; cbn.
  - split; [done|]. intros []. apply list_find_Some in E as (Hi & <- & _).
    apply list_elem_of_lookup_2 in Hi. by apply list_elem_of_fmap_2.
  - split; [|done]. intros _ (y & -> & Hy)%list_elem_of_fmap.
    eapply list_find_None, Forall_forall in E; done.
Qed.

Lemma Bindings_Add_Ok nb b b' : bindings_ok b → Bindings_Add nb b = Ok b' →
  binding_complete nb ∧ bindings_ok b' ∧
  ((b' = b ∧ ∃ e, e ∈ b ∧ b_SessionID e = b_SessionID nb ∧ b_HostKey e = b_HostKey nb) ∨
   (b' = b ++ [nb] ∧ Bindings_Lookup b (b_SessionID nb) = None)).
Proof.
  intros [Hd Hn Hc] H. unfold Bindings_Add in H. apply fail_if_Ok in H as [[[[?%Z.eqb_neq ?%Z.ltb_ge]%orb_false_iff ?%Z.eqb_neq]%orb_false_iff ?%bool_decide_eq_false]%orb_false_iff Hr].
  assert (binding_complete nb) as Hcn by (split; [lia|lia|done]). split; [done|].
  destruct (Bindings_Lookup b (b_SessionID nb)) as [e|] eqn:E.
  - case_bool_decide as Hh; [|done]. apply Ok_inj in Hr as ->. split; [done|]. left. split; [done|].
    exists e. apply Lookup_Some in E as [? ?]; done.
  - apply fail_if_Ok in Hr as [Hl%Z.leb_gt <-%Ok_inj]. split; [|by right]. split.
    + rewrite fmap_app. apply NoDup_app. split; [done|]. split; [|apply NoDup_singleton].
      intros s Hs ->%list_elem_of_singleton. by apply Lookup_None in E.
    + rewrite length_app. cbn. lia.
    + apply Forall_app. split; [done|]. by constructor.
Qed.

(** A channel's table after a sequence of verified binds, those it refused left out. *)
Definition bind_all (b : Bindings) (nbs : list Binding) : Bindings :=
  foldl (λ b nb, match Bindings_Add nb b with Ok b' => b' | Err _ => b end) b nbs.

Lemma bindings_ok_nil : bindings_ok [].
Proof. split; [constructor|done|constructor]. Qed.

Lemma bind_all_ok nbs b : bindings_ok b → bindings_ok (bind_all b nbs).
Proof.
  revert b. induction nbs as [|nb nbs IH]; intros b Hb; [done|]. cbn [bind_all foldl]. apply IH.
  destruct (Bindings_Add nb b) eqn:E; [|done]. by apply Bindings_Add_Ok in E as (_ & ? & _).
Qed.

Lemma bind_all_mono nbs b e : bindings_ok b → e ∈ b → e ∈ bind_all b nbs.
Proof.
  revert b. induction nbs as [|nb nbs IH]; intros b Hb He; [done|]. cbn [bind_all foldl].
  destruct (Bindings_Add nb b) eqn:E; [|by apply IH].
  apply Bindings_Add_Ok in E as (_ & ? & [[-> _]|[-> _]]); [..|done]; apply IH; set_solver.
Qed.

Lemma bind_all_from nbs b e : bindings_ok b → e ∈ bind_all b nbs → e ∈ b ∨ e ∈ nbs.
Proof.
  revert b. induction nbs as [|nb nbs IH]; intros b Hb He; [by left|]. cbn [bind_all foldl] in He.
  destruct (Bindings_Add nb b) eqn:E.
  - apply Bindings_Add_Ok in E as (_ & ? & [[-> _]|[-> _]]); [..|done]; apply IH in He; set_solver.
  - apply IH in He; set_solver.
Qed.

(** A session stays with the host that proved it: whatever binds arrive later on the channel, a
    destination shown as verified is the first proven one, and a hostbound login names it too. *)
Theorem destination_stable nbs more req bnd :
  Destination req (bind_all [] nbs) = Ok (bnd, true) →
  bindings_ok (bind_all [] (nbs ++ more)) ∧
  Destination req (bind_all [] (nbs ++ more)) = Ok (bnd, true) ∧
  bnd ∈ nbs ∧ b_SessionID bnd = ua_SessionID req ∧ (∀ hk, ua_HostKey req = Some hk → hk = b_HostKey bnd).
Proof.
  intros H. pose proof (bind_all_ok nbs [] bindings_ok_nil) as Hb.
  pose proof (bind_all_ok (nbs ++ more) [] bindings_ok_nil) as Hb'.
  unfold Destination in H |- *. destruct (Bindings_Lookup (bind_all [] nbs) _) as [e|] eqn:E; [|done].
  apply fail_if_Ok in H as [Hk [= ->]]. destruct (proj1 (Lookup_Some _ _ _ (bo_unique _ Hb)) E) as [Hin Hs].
  assert (Bindings_Lookup (bind_all [] (nbs ++ more)) (ua_SessionID req) = Some bnd) as ->.
  { apply Lookup_Some; [apply Hb'|]. split; [|done]. unfold bind_all. rewrite foldl_app. by apply bind_all_mono. }
  split; [done|]. rewrite Hk. split; [done|]. split; [|split; [done|]].
  - apply bind_all_from in Hin as [?%elem_of_nil|]; [done..|apply bindings_ok_nil].
  - intros hk Hhk. rewrite Hhk in Hk. by bool_simpl.
Qed.

(** A second host for a bound session is refused, and the table stays as it was. *)
Theorem rebinding_refused nbs nb e :
  e ∈ bind_all [] nbs → b_SessionID e = b_SessionID nb → b_HostKey e ≠ b_HostKey nb →
  Bindings_Add nb (bind_all [] nbs) = Err [ErrBindingRefused].
Proof.
  intros He Hs Hh. pose proof (bind_all_ok nbs [] bindings_ok_nil) as Hb.
  unfold Bindings_Add. case_match; [done|].
  rewrite (proj2 (Lookup_Some _ _ e (bo_unique _ Hb))) by done. by rewrite bool_decide_eq_false_2.
Qed.

(** ** The request limiter *)

(** A session's requests in order: which were allowed, and the limiter they leave. *)
Fixpoint limiter_run (l : RequestLimiter) (calls : list Z) : list Z * RequestLimiter :=
  match calls with
  | [] => ([], l)
  | now :: calls' =>
      let '(res, l') := Limiter_Allow now l in
      let '(allowed, l'') := limiter_run l' calls' in
      (if is_ok res then now :: allowed else allowed, l'')
  end.

(** The allowed requests of the interval of length [per] that ends at [t]. *)
Definition in_interval (per t : Z) (allowed : list Z) : list Z := filter (λ a, t - per < a ≤ t) allowed.

(** What the limiter keeps, of all it has allowed, when the last call was at [last]. *)
Record limiter_inv (max per last : Z) (allowed : list Z) (l : RequestLimiter) : Prop := {
  li_max : rl_max l = max;
  li_per : rl_per l = per;
  li_times : rl_times l = filter (λ a, last - per < a) allowed;
  li_past : Forall (λ a, a ≤ last) allowed;
  li_bound : ∀ t, len (in_interval per t allowed) ≤ max;
}.

Lemma filter_narrow (P Q : Z → Prop) `{∀ x, Decision (P x)} `{∀ x, Decision (Q x)} (l : list Z) :
  Forall (λ x, P x → Q x) l → filter P (filter Q l) = filter P l.
Proof.
  induction 1 as [|x l Hx _ IH]; [done|]. rewrite !filter_cons.
  repeat (case_decide; rewrite ?filter_cons); try (rewrite IH; done); naive_solver.
Qed.

Lemma filter_iff_on (P Q : Z → Prop) `{∀ x, Decision (P x)} `{∀ x, Decision (Q x)} (l : list Z) :
  Forall (λ x, P x ↔ Q x) l → filter P l = filter Q l.
Proof.
  induction 1 as [|x l Hx _ IH]; [done|]. rewrite !filter_cons, IH. repeat case_decide; naive_solver.
Qed.

Lemma filter_le (P Q : Z → Prop) `{∀ x, Decision (P x)} `{∀ x, Decision (Q x)} (l : list Z) :
  (∀ x, P x → Q x) → (length (filter P l) ≤ length (filter Q l))%nat.
Proof.
  intros Himp. induction l as [|x l IH]; [done|]. rewrite !filter_cons. repeat case_decide; cbn; try lia. naive_solver.
Qed.

(** What is kept is what was allowed in the interval that ends now. *)
Lemma limiter_inv_kept max per last now allowed l : limiter_inv max per last allowed l → last ≤ now →
  filter (λ t, now - rl_per l < t) (rl_times l) = filter (λ a, now - per < a) allowed ∧
  in_interval per now allowed = filter (λ a, now - per < a) allowed.
Proof.
  intros [Hm Hp Ht Hpast Hb] Hle. rewrite Ht, Hp. split.
  - apply filter_narrow, Forall_forall. intros; lia.
  - unfold in_interval. apply filter_iff_on. eapply Forall_impl; [exact Hpast|]. cbn. intros; lia.
Qed.

Lemma limiter_step max per last now allowed l : 0 ≤ max → 0 < per → limiter_inv max per last allowed l → last ≤ now →
  (Limiter_Allow now l).1 = (if len (in_interval per now allowed) <? max then Ok () else Err [ErrRateLimited]) ∧
  limiter_inv max per now (allowed ++ if is_ok (Limiter_Allow now l).1 then [now] else []) (Limiter_Allow now l).2.
Proof.
  intros Hmax Hper Hi Hle. pose proof (limiter_inv_kept _ _ _ _ _ _ Hi Hle) as [Hk Hw]. destruct Hi as [Hm Hp Ht Hpast Hb].
  unfold Limiter_Allow. rewrite Hk, Hw, Hm, Z.leb_antisym.
  assert (Forall (λ a, a ≤ now) allowed) as Hpast' by (eapply Forall_impl; [exact Hpast|]; cbn; lia).
  destruct (Z.ltb_spec (len (filter (λ a, now - per < a) allowed)) max) as [Hlt|Hge]; cbn [negb fst snd is_ok].
  - split; [done|]. split; cbn [rl_max rl_per rl_times]; [done..| | |].
    + rewrite filter_app. f_equal. rewrite filter_cons_True by lia. done.
    + apply Forall_app. split; [done|]. by constructor.
    + intros t. unfold in_interval. rewrite filter_app, length_app.
      destruct (decide (now ≤ t)).
      * pose proof (filter_le (λ a, t - per < a ≤ t) (λ a, now - per < a) allowed ltac:(cbn; intros; lia)).
        rewrite filter_cons. case_decide; cbn; lia.
      * rewrite (filter_cons_False (λ a, t - per < a ≤ t)) by lia. rewrite filter_nil, Nat.add_0_r. apply Hb.
  - split; [done|]. rewrite app_nil_r. by split.
Qed.

Lemma limiter_run_inv calls max per last allowed l :
  0 ≤ max → 0 < per → limiter_inv max per last allowed l → StronglySorted Z.le calls → Forall (Z.le last) calls →
  ∃ last', last' ∈ last :: calls ∧
    limiter_inv max per last' (allowed ++ (limiter_run l calls).1) (limiter_run l calls).2.
Proof.
  intros Hmax Hper. revert last allowed l. induction calls as [|now calls IH]; intros last allowed l Hi Hs Hl.
  - exists last. rewrite app_nil_r. split; [by left|done].
  - apply StronglySorted_inv in Hs as [Hs Hn]. inv Hl.
    destruct (limiter_step max per last now allowed l) as [_ Hi']; [done..|].
    destruct (IH now _ _ Hi') as (last' & ? & Hr); [done..|]. exists last'. split; [by right|].
    cbn [limiter_run]. destruct (Limiter_Allow now l) as [res l'] eqn:E. cbn [fst snd] in Hr.
    destruct (limiter_run l' calls) as [al l'']. cbn [fst snd] in Hr |- *. rewrite <- app_assoc in Hr. by destruct (is_ok res).
Qed.

Lemma limiter_inv_new max per last : 0 ≤ max → limiter_inv max per last [] (NewRequestLimiter max per).
Proof. intros. by split. Qed.

(** The bound is exact: a request is refused only while [max] others were allowed in the interval
    that ends with it, and no interval of length [per] holds more than [max] allowed ones. *)
Theorem limiter_exact max per calls now :
  0 ≤ max → 0 < per → StronglySorted Z.le (calls ++ [now]) →
  let '(allowed, l) := limiter_run (NewRequestLimiter max per) calls in
  (∀ t, len (in_interval per t allowed) ≤ max) ∧
  (Limiter_Allow now l).1 = if len (in_interval per now allowed) <? max then Ok () else Err [ErrRateLimited].
Proof.
  intros Hmax Hper Hs. destruct (limiter_run (NewRequestLimiter max per) calls) as [allowed l] eqn:E.
  destruct calls as [|c calls].
  - injection E as <- <-. split; [done|].
    by apply (limiter_step max per now now [] (NewRequestLimiter max per) Hmax Hper (limiter_inv_new _ _ _ Hmax)).
  - apply StronglySorted_app in Hs as (Hle & Hs & _).
    destruct (limiter_run_inv (c :: calls) max per c [] (NewRequestLimiter max per)) as (last & Hlast & Hi);
      [done..|by apply limiter_inv_new|done| |].
    { apply StronglySorted_inv in Hs as [? ?]. by constructor. }
    rewrite E in Hi. cbn [fst snd app] in Hi. split; [apply Hi|].
    apply (limiter_step max per last now allowed l Hmax Hper Hi). apply Hle; set_solver.
Qed.

(** ** The approval window *)

Inductive window_op :=
  | OpAllow (now : Z) (g : Grant) (ttl : Z)
  | OpForget (now : Z) (sessionID : bytes).

Definition op_time (op : window_op) : Z := match op with OpAllow now _ _ | OpForget now _ => now end.

Definition window_step (w : ApprovalWindow) (op : window_op) : ApprovalWindow :=
  match op with
  | OpAllow now g ttl => (Window_Allow now g ttl w).2
  | OpForget _ sessionID => ForgetSession sessionID w
  end.

Definition window_run (h : list window_op) : ApprovalWindow := foldl window_step NewApprovalWindow h.

(** The specification: what the user granted and nobody took back, expired or not. It never prunes;
    it is told by the window only whether an approval was accepted. *)
Definition granted_step (s : ApprovalWindow * ApprovalWindow) (op : window_op) : ApprovalWindow * ApprovalWindow :=
  (window_step s.1 op,
   match op with
   | OpAllow now g ttl => if is_ok (Window_Allow now g ttl s.1).1 then <[g := now + ttl]> s.2 else s.2
   | OpForget _ sessionID => ForgetSession sessionID s.2
   end).
Definition granted (h : list window_op) : ApprovalWindow := (foldl granted_step (NewApprovalWindow, ∅) h).2.

Lemma granted_window h : (foldl granted_step (NewApprovalWindow, ∅) h).1 = window_run h.
Proof.
  unfold window_run. generalize (∅ : ApprovalWindow) as r. generalize NewApprovalWindow as w.
  induction h as [|op h IH]; intros w r; [done|]. cbn [foldl]. unfold granted_step at 2. cbn [fst snd]. apply IH.
Qed.

(** The window is the specification less some expired grants. *)
Record window_inv (last : Z) (w r : ApprovalWindow) : Prop := {
  wi_live : ∀ g, w !! g = r !! g ∨ (w !! g = None ∧ ∃ e, r !! g = Some e ∧ e ≤ last);
  wi_size : Z.of_nat (size w) ≤ maxGrants;
  wi_dest : ∀ g e, r !! g = Some e → g_Destination g ≠ [] ∧ e ≤ last + MaxWindowMinutes * Minute;
}.

Lemma size_filter_le (P : Grant * Z → Prop) `{∀ x, Decision (P x)} (w : ApprovalWindow) :
  (size (filter P w) ≤ size w)%nat.
Proof. rewrite <- !size_dom. apply subseteq_size, dom_filter_subseteq. Qed.

Lemma prune_inv last now w r : last ≤ now → window_inv last w r → window_inv now (pruneLocked now w) r.
Proof.
  intros Hle [Hl Hs Hd]. split.
  - intros g. unfold pruneLocked. destruct (Hl g) as [Hg|(Hg & e & Hr & He)].
    + destruct (w !! g) as [e|] eqn:Ew.
      * destruct (decide (now < e)).
        -- left. rewrite <- Hg. by apply map_lookup_filter_Some.
        -- right. split; [|exists e; split; [done|lia]]. apply map_lookup_filter_None. right. naive_solver.
      * left. rewrite <- Hg. apply map_lookup_filter_None. by left.
    + right. split; [apply map_lookup_filter_None; by left|]. exists e. split; [done|lia].
  - unfold pruneLocked. pose proof (size_filter_le (λ ge, now < ge.2) w). lia.
  - intros g e Hg. destruct (Hd g e Hg). split; [done|lia].
Qed.

Lemma weaken_inv last now w r : last ≤ now → window_inv last w r → window_inv now w r.
Proof.
  intros Hle [Hl Hs Hd]. split; [|done|].
  - intros g. destruct (Hl g) as [|(? & e & ? & ?)]; [by left|right; split; [done|exists e; split; [done|lia]]].
  - intros g e Hg. destruct (Hd g e Hg). split; [done|lia].
Qed.

Lemma Window_Allow_cases now g ttl w :
  ((Window_Allow now g ttl w).1 = Ok () ∧ (Window_Allow now g ttl w).2 = <[g := now + ttl]> (pruneLocked now w) ∧
    g_Destination g ≠ [] ∧ 0 < ttl ≤ MaxWindowMinutes * Minute ∧ Z.of_nat (size (pruneLocked now w)) < maxGrants) ∨
  ((Window_Allow now g ttl w).1 = Err [ErrInvalidConfig] ∧
    ((Window_Allow now g ttl w).2 = w ∨ (Window_Allow now g ttl w).2 = pruneLocked now w)).
Proof.
  unfold Window_Allow. destruct (_ || _ || _) eqn:E1; [by right; auto|].
  destruct ((ttl <=? 0) || _) eqn:E2; [by right; auto|]. cbv zeta.
  destruct (Z.leb_spec maxGrants (Z.of_nat (size (pruneLocked now w)))); [by right; auto|].
  left. apply orb_false_iff in E1 as [_ Hd%bool_decide_eq_false]. apply orb_false_iff in E2 as [?%Z.leb_gt ?%Z.ltb_ge]. done.
Qed.

Lemma window_step_inv last w r op : last ≤ op_time op → window_inv last w r →
  window_inv (op_time op) (granted_step (w, r) op).1 (granted_step (w, r) op).2.
Proof.
  intros Hle Hi. destruct op as [now g ttl|now sid]; cbn [granted_step fst snd op_time window_step] in *.
  - pose proof (prune_inv last now w r Hle Hi) as Hp.
    destruct (Window_Allow_cases now g ttl w) as [(-> & -> & Hd & Ht & Hsz)|[-> [->| ->]]]; cbn [is_ok];
      [|by eapply weaken_inv|done].
    destruct Hp as [Hl Hs Hdr]. split.
    + intros g'. rewrite !lookup_insert. case_decide; [by left|apply Hl].
    + rewrite map_size_insert. case_match; unfold id; lia.
    + intros g' e. rewrite lookup_insert. case_decide; [intros [= <-]; subst; split; [done|lia]|apply Hdr].
  - apply (weaken_inv _ now) in Hi as [Hl Hs Hdr]; [|done]. unfold ForgetSession. split.
    + intros g. rewrite !map_lookup_filter. destruct (Hl g) as [->|(-> & e & -> & He)]; [by left|]. cbn.
      case_guard; [right; eauto|by left].
    + pose proof (size_filter_le (λ ge, g_SessionID ge.1 ≠ sid) w). lia.
    + intros g e (? & _)%map_lookup_filter_Some. by apply Hdr.
Qed.

Lemma window_run_inv h w r last :
  StronglySorted Z.le (op_time <$> h) → Forall (Z.le last) (op_time <$> h) → window_inv last w r →
  ∃ last', last' ∈ last :: (op_time <$> h) ∧
    window_inv last' (foldl granted_step (w, r) h).1 (foldl granted_step (w, r) h).2.
Proof.
  revert w r last. induction h as [|op h IH]; intros w r last Hs Hl Hi; [exists last; split; [by left|done]|].
  cbn [fmap list_fmap] in *. apply StronglySorted_inv in Hs as [Hs Ho]. inv Hl.
  pose proof (window_step_inv _ _ _ op ltac:(done) Hi) as Hi'.
  destruct (granted_step (w, r) op) as [w' r'] eqn:E. cbn [fst snd] in Hi'.
  destruct (IH w' r' (op_time op)) as (last' & ? & ?); [done..|]. exists last'. split; [by right|].
  cbn [foldl]. by rewrite E.
Qed.

Lemma window_inv_empty last : window_inv last ∅ ∅.
Proof. split; [by left|done|done]. Qed.

Lemma window_run_granted h now : StronglySorted Z.le ((op_time <$> h) ++ [now]) →
  ∃ last, last ≤ now ∧ window_inv last (window_run h) (granted h).
Proof.
  intros Hs. rewrite <- granted_window. destruct h as [|op h]; [exists now; split; [lia|apply window_inv_empty]|].
  apply StronglySorted_app in Hs as (Hle & Hs & _).
  destruct (window_run_inv (op :: h) ∅ ∅ (op_time op)) as (last & Hin & Hi); [done| |apply window_inv_empty|].
  - apply StronglySorted_inv in Hs as [_ Hf]. by constructor.
  - exists last. split; [|done]. apply Hle; [|set_solver]. cbn [fmap list_fmap] in *. set_solver.
Qed.

Lemma window_inv_allows last now w r g : last ≤ now → window_inv last w r →
  Window_Allows now g w = match r !! g with Some e => now <? e | None => false end.
Proof.
  intros Hle [Hl Hsz Hd]. unfold Window_Allows. destruct (Hl g) as [->|(-> & e & -> & He)].
  - destruct (r !! g) as [e|] eqn:E; [|by case_match].
    destruct (Hd g e E) as [Hne _]. by rewrite bool_decide_eq_false_2.
  - case_match; symmetry; apply Z.ltb_ge; lia.
Qed.

(** Pruning is not observable: at any moment after the last operation, the window allows exactly
    the grants the user gave, nobody took back and time has not ended, and it never holds more than
    [maxGrants] nor one that outlasts [MaxWindowMinutes]. *)
Theorem window_refines h now g :
  StronglySorted Z.le ((op_time <$> h) ++ [now]) →
  Window_Allows now g (window_run h) = (match granted h !! g with Some e => now <? e | None => false end) ∧
  Z.of_nat (size (window_run h)) ≤ maxGrants ∧
  (∀ e, granted h !! g = Some e → e ≤ now + MaxWindowMinutes * Minute).
Proof.
  intros (last & Hle & Hi)%window_run_granted. split; [by eapply window_inv_allows|]. destruct Hi as [_ Hsz Hd].
  split; [done|]. intros e He. destruct (Hd g e He). lia.
Qed.

(** What the specification says of a grant, as a history: an accepted approval of exactly that
    session, key and destination that no later closing of the session took back. *)
Lemma granted_history h w r g e : (foldl granted_step (w, r) h).2 !! g = Some e →
  (r !! g = Some e ∧ ∀ t, OpForget t (g_SessionID g) ∉ h) ∨
  ∃ h1 now ttl h2, h = h1 ++ OpAllow now g ttl :: h2 ∧ e = now + ttl ∧ 0 < ttl ≤ MaxWindowMinutes * Minute ∧
    ∀ t, OpForget t (g_SessionID g) ∉ h2.
Proof.
  revert w r. induction h as [|op h IH]; intros w r; [intros H; left; split; [done|by intros t ?%elem_of_nil]|].
  cbn [foldl]. destruct (granted_step (w, r) op) as [w' r'] eqn:E. intros H. apply IH in H as [[Hg Hf]|(h1&t&ttl&h2&->&?)].
  2: { right. by exists (op :: h1), t, ttl, h2. }
  unfold granted_step in E. cbn [fst snd] in E. injection E as _ <-. destruct op as [t g' ttl|t sid].
  - destruct (is_ok (Window_Allow t g' ttl w).1) eqn:Ek.
    + destruct (Window_Allow_cases t g' ttl w) as [(_ & _ & _ & Ht & _)|[Hw _]]; [|by rewrite Hw in Ek].
      rewrite lookup_insert in Hg. case_decide.
      * subst. injection Hg as <-. right. by exists [], t, ttl, h.
      * left. split; [done|]. intros t'. rewrite not_elem_of_cons. done.
    + left. split; [done|]. intros t'. rewrite not_elem_of_cons. done.
  - apply map_lookup_filter_Some in Hg as [Hg Hne]. left. split; [done|]. intros t'.
    rewrite not_elem_of_cons. split; [|done]. intros Heq. injection Heq as _ Hs. by apply Hne.
Qed.

Theorem window_justified h now g :
  StronglySorted Z.le ((op_time <$> h) ++ [now]) → Window_Allows now g (window_run h) = true →
  ∃ h1 t ttl h2, h = h1 ++ OpAllow t g ttl :: h2 ∧ t ≤ now < t + ttl ∧ 0 < ttl ≤ MaxWindowMinutes * Minute ∧
    ∀ t', OpForget t' (g_SessionID g) ∉ h2.
Proof.
  intros Hs Ha. destruct (window_run_granted h now Hs) as (last & Hle & Hi).
  rewrite (window_inv_allows _ _ _ _ _ Hle Hi) in Ha.
  destruct (granted h !! g) as [e|] eqn:E; [|done]. apply Z.ltb_lt in Ha.
  apply granted_history in E as [[E _]|(h1 & t & ttl & h2 & -> & -> & Ht & Hf)]; [by rewrite lookup_empty in E|].
  exists h1, t, ttl, h2. split; [done|]. split; [|done]. split; [|done].
  apply (StronglySorted_app_1_elem_of _ _ _ t now) in Hs; [done| |set_solver].
  rewrite fmap_app. cbn. set_solver.
Qed.

(** ** Settings *)

Lemma checkIDs_Ok ids seen : checkIDs seen ids = Ok () ↔ NoDup ids ∧ Forall (λ id, id ≠ [] ∧ id ∉ seen) ids.
Proof.
  revert seen. induction ids as [|id ids IH]; intros seen; cbn [checkIDs].
  { split; [|done]. split; constructor. }
  rewrite fail_if_Ok, IH, orb_false_iff, !bool_decide_eq_false, NoDup_cons, Forall_cons.
  assert (Forall (λ i, i ≠ [] ∧ i ∉ {[id]} ∪ seen) ids ↔ id ∉ ids ∧ Forall (λ i, i ≠ [] ∧ i ∉ seen) ids) as ->.
  { rewrite !Forall_forall. setoid_rewrite not_elem_of_union. setoid_rewrite not_elem_of_singleton. split.
    - intros H. split; [intros Hin; by destruct (H id Hin) as [_ [? _]]|]. intros i Hi. by destruct (H i Hi) as [? [? ?]].
    - intros [Hn H] i Hi. destruct (H i Hi). split; [done|]. split; [by intros ->|done]. }
  tauto.
Qed.

(** What saving a connection's settings guarantees. *)
Theorem Config_Validate_iff c :
  Config_Validate (Some c) = Ok () ↔
  (cfg_Confirm c = [] ∨ cfg_Confirm c = ConfirmEach ∨ cfg_Confirm c = ConfirmSessionWindow) ∧
  0 ≤ cfg_WindowMinutes c ≤ MaxWindowMinutes ∧ len (cfg_IdentityIDs c) ≤ MaxForwardedKeys ∧
  NoDup (cfg_IdentityIDs c) ∧ [] ∉ cfg_IdentityIDs c.
Proof.
  unfold Config_Validate. rewrite !fail_if_Ok, negb_false_iff, !orb_true_iff, !orb_false_iff, !bool_decide_eq_true,
    !Z.ltb_ge, checkIDs_Ok, Forall_forall. split.
  - intros (Hc & Hw & Hl & Hd & Hi). repeat split; try tauto. intros Hin. by apply Hi in Hin as [? _].
  - intros (Hc & Hw & Hl & Hd & Hi). repeat split; try tauto; [by intros ->|by intros ?%elem_of_empty].
Qed.

(** A validated window is a lifetime the approval window accepts, and it does not overflow. *)
Lemma Config_Window_bound c : 0 ≤ cfg_WindowMinutes c ≤ MaxWindowMinutes →
  Config_Window (Some c) = 0 ∧ cfg_Confirm c ≠ ConfirmSessionWindow ∨
  cfg_Confirm c = ConfirmSessionWindow ∧ 0 < Config_Window (Some c) ≤ MaxWindowMinutes * Minute.
Proof.
  unfold MaxWindowMinutes, Config_Window, Minute, Second. intros Hw.
  case_bool_decide as Hc; [right|by left]. split; [done|]. cbn [negb]. cbv zeta.
  destruct (Z.eqb_spec (cfg_WindowMinutes c) 0); [done|].
  rewrite wrap_i64_id by (unfold i64, MinInt64, MaxInt64; lia). lia.
Qed.

(** ** Examples *)

Definition ex_login : UserAuthRequest := {|
  ua_SessionID := bytes_of_string "id"; ua_User := bytes_of_string "git"; ua_Algorithm := bytes_of_string "ssh-ed25519";
  ua_KeyBlob := bytes_of_string "key"; ua_HostKey := Some (bytes_of_string "host") |}.
Definition ex_binding : Binding := {|
  b_SessionID := bytes_of_string "id"; b_HostKey := bytes_of_string "host"; b_HostKeyFingerprint := bytes_of_string "fp";
  b_Forwarding := true |}.
Definition ex_grant : Grant := {|
  g_SessionID := bytes_of_string "tab"; g_IdentityID := bytes_of_string "key"; g_Destination := bytes_of_string "fp" |}.

(** A login is read back; one byte more is refused. *)
Example parse_login : ParseUserAuthRequest (encodeUserAuth ex_login) = Ok ex_login.
Proof. vm_compute. reflexivity. Qed.
Example parse_trailing : ParseUserAuthRequest (encodeUserAuth ex_login ++ [Byte.x00]) = Err [ErrSignDataRejected].
Proof. vm_compute. reflexivity. Qed.
(** Three requests are allowed in ten seconds, the fourth waits until the first is ten seconds old. *)
Example limiter_demo : (limiter_run (NewRequestLimiter 3 10) [0; 1; 2; 9; 10; 11; 11]).1 = [0; 1; 2; 10; 11].
Proof. vm_compute. reflexivity. Qed.

Lemma ParseUserAuthRequest_refuses_witness : ParseUserAuthRequest [Byte.x00] = Err [ErrSignDataRejected].
Proof.
  refine (proj2 (ParseUserAuthRequest_refuses [Byte.x00] _) _); [by vm_compute|].
  intros req _ Hd. apply (f_equal length) in Hd. unfold encodeUserAuth in Hd. rewrite length_app, length_sshstr in Hd.
  cbn in Hd. lia.
Defined.

Lemma AuthorizedKeyBlob_roundtrip_witness :
  AuthorizedKeyBlob (authorizedLine (bytes_of_string "ssh-rsa") (sshstr (bytes_of_string "ssh-rsa") ++ [Byte.x01]) [Byte.x63])
  = Ok (sshstr (bytes_of_string "ssh-rsa") ++ [Byte.x01]).
Proof.
  apply (AuthorizedKeyBlob_roundtrip (bytes_of_string "ssh-rsa") [Byte.x01] [Byte.x63]); [|by vm_compute].
  split; [done|]. repeat (apply Forall_cons; split; [done|]). constructor.
Defined.

Lemma destination_stable_witness :
  Destination ex_login (bind_all [] ([ex_binding] ++ [ex_binding])) = Ok (ex_binding, true).
Proof. apply (destination_stable [ex_binding] [ex_binding] ex_login ex_binding). reflexivity. Defined.

Definition ex_other_host : Binding := {|
  b_SessionID := bytes_of_string "id"; b_HostKey := bytes_of_string "evil"; b_HostKeyFingerprint := bytes_of_string "fq";
  b_Forwarding := true |}.
Lemma rebinding_refused_witness : Bindings_Add ex_other_host (bind_all [] [ex_binding]) = Err [ErrBindingRefused].
Proof. apply (rebinding_refused [ex_binding] ex_other_host ex_binding); [by left|done|done]. Defined.

Lemma limiter_exact_witness :
  (Limiter_Allow 3 (limiter_run (NewRequestLimiter 2 10) [0; 1; 2]).2).1 = Err [ErrRateLimited].
Proof.
  refine (proj2 (limiter_exact 2 10 [0; 1; 2] 3 _ _ _)); [done..|].
  repeat (constructor; [|repeat (constructor; [done|]); constructor]). constructor.
Defined.

Definition ex_history : list window_op := [OpAllow 0 ex_grant Minute; OpForget 1 (bytes_of_string "other")].
Lemma window_refines_witness : Window_Allows 2 ex_grant (window_run ex_history) = true.
Proof.
  refine (eq_trans (proj1 (window_refines ex_history 2 ex_grant _)) _); [|by vm_compute].
  repeat (constructor; [|repeat (constructor; [done|]); constructor]). constructor.
Defined.
Lemma window_justified_witness : ∃ h1 t ttl h2, ex_history = h1 ++ OpAllow t ex_grant ttl :: h2 ∧ t ≤ 2 < t + ttl.
Proof.
  destruct (window_justified ex_history 2 ex_grant) as (h1 & t & ttl & h2 & H & Ht & _).
  - repeat (constructor; [|repeat (constructor; [done|]); constructor]). constructor.
  - vm_compute. reflexivity.
  - exists h1, t, ttl, h2. split; [exact H|exact Ht].
Defined.
