(* ===== verification/AgentPolicy.v ===== *)
(** * AgentPolicy: who may make a forwarded agent sign

    [internal/usecase]: the policy of one session ([agent_session_policy.go], [agent_approval.go]),
    the service that owns every session's policy ([agent_forwarding_service.go]) and its audit events
    ([agent_audit.go]).

    Requests run concurrently. A request is a program in a state monad over the state it shares with
    the others; before each access to that state, and while it waits, [yield] lets the environment
    act: any sequence of steps of other requests, of the user and of the vault ([action]). The
    theorems hold for every such interference. The ports (repositories, signers) are functions in the
    state; the dialog's answers are a stream. Contexts are flags; a policy pointer is a number. *)

From S2P Require Import Prelude Bytes GoText AgentForward.

(** ** Data *)

Definition ProtocolSSH : bytes := bytes_of_string "ssh".

Record SSHIdentity := {
  id_ID : bytes; id_Comment : bytes; id_PublicKey : bytes; id_Fingerprint : bytes; id_AllowForwarding : bool;
}.

(** The fields of [domain.Connection] the policy reads; [cn_Username] is [EffectiveUsername()]. *)
Record Connection := {
  cn_ID : bytes; cn_Name : bytes; cn_Host : bytes; cn_Protocol : bytes; cn_Username : bytes;
  cn_AgentForwarding : option Config;
}.
Definition GetProtocol (c : Connection) : bytes := if cn_Protocol c <>? [] then cn_Protocol c else ProtocolSSH.

Record KnownHost := { kh_Host : bytes; kh_Fingerprint : bytes }.

(** A signer: its public key, and the method of [AlgorithmSigner] if it has it. *)
Record Signer := { sg_PublicKey : bytes; sg_SignWithAlgorithm : option (bytes → bytes → result agent_error bytes) }.

Record AgentSessionInfo := {
  si_SessionID : bytes; si_ConnectionID : bytes; si_ConnectionName : bytes; si_Host : bytes; si_Username : bytes;
}.

Record AgentSignRequest := { sr_KeyBlob : bytes; sr_Data : bytes; sr_Flags : Z; sr_Bindings : Bindings }.

Record forwardableKey := { fk_identity : SSHIdentity; fk_blob : bytes }.

Record approvalRequest := {
  ar_key : forwardableKey; ar_login : UserAuthRequest; ar_dest : Binding; ar_verified : bool; ar_cfg : option Config;
}.

Definition AgentAllowOnce : bytes := bytes_of_string "once".
Definition AgentAllowWindow : bytes := bytes_of_string "window".
Definition AgentDeny : bytes := bytes_of_string "deny".

Record AgentDestinationView := {
  dv_Verified : bool; dv_Fingerprint : bytes; dv_KnownAs : list bytes; dv_ForwardsFurther : bool;
}.
Record AgentConfirmQuestion := {
  q_SessionID : bytes; q_ConnectionName : bytes; q_Host : bytes; q_KeyLabel : bytes; q_KeyFingerprint : bytes;
  q_RemoteUser : bytes; q_Destination : AgentDestinationView; q_WindowMinutes : Z;
}.

Definition AgentEventForwardStarted : bytes := bytes_of_string "agent.forward.started".
Definition AgentEventSignAllowed : bytes := bytes_of_string "agent.sign.allowed".
Definition AgentEventSignDenied : bytes := bytes_of_string "agent.sign.denied".
Definition AgentEventOpRefused : bytes := bytes_of_string "agent.op.refused".

Record AgentAuditEvent := {
  ae_Event : bytes; ae_Session : AgentSessionInfo; ae_KeyFingerprint : bytes; ae_RemoteUser : bytes;
  ae_Destination : bytes; ae_Verified : bool; ae_Reason : bytes;
}.

(** [agentSessionPolicy]: its address stands for the pointer, its limiter and slot are in [World]. *)
Record agentSessionPolicy := { p_addr : nat; p_info : AgentSessionInfo }.

(** One question put to the user, with the answer and its time. *)
Record Approval := {
  ap_policy : agentSessionPolicy; ap_request : approvalRequest; ap_question : AgentConfirmQuestion;
  ap_decision : bytes; ap_time : Z;
}.

(** ** The shared state *)

Record World := {
  w_now : Z;
  w_connections : bytes → result agent_error Connection;
  w_identities : bytes → result agent_error SSHIdentity;
  w_knownHosts : option (result agent_error (list KnownHost));
  w_signers : option (bytes → result agent_error Signer);
  w_confirm : option (list (result agent_error bytes));  (* answers to come; None: no dialog *)
  w_window : ApprovalWindow;
  w_sessions : gmap bytes nat;
  w_limiters : gmap nat RequestLimiter;
  w_slots : gmap nat nat;  (* which request holds a policy's confirmSlot *)
  w_ended : gset nat;  (* policies whose session context is done *)
  w_cancelled : gset nat;  (* requests whose context is done *)
  w_audit : list AgentAuditEvent;
  w_log : list Approval;  (* every answer the user gave *)
}.

Definition set_now (v : Z) (w : World) : World :=
  let '(Build_World _ a b c d e f g h i j k l m) := w in Build_World v a b c d e f g h i j k l m.
Definition set_vault (conns : bytes → result agent_error Connection) (ids : bytes → result agent_error SSHIdentity)
    (w : World) : World :=
  let '(Build_World n _ _ c d e f g h i j k l m) := w in Build_World n conns ids c d e f g h i j k l m.
Definition set_confirm (v : option (list (result agent_error bytes))) (w : World) : World :=
  let '(Build_World n a b c d _ f g h i j k l m) := w in Build_World n a b c d v f g h i j k l m.
Definition set_window (v : ApprovalWindow) (w : World) : World :=
  let '(Build_World n a b c d e _ g h i j k l m) := w in Build_World n a b c d e v g h i j k l m.
Definition set_sessions (v : gmap bytes nat) (w : World) : World :=
  let '(Build_World n a b c d e f _ h i j k l m) := w in Build_World n a b c d e f v h i j k l m.
Definition set_limiters (v : gmap nat RequestLimiter) (w : World) : World :=
  let '(Build_World n a b c d e f g _ i j k l m) := w in Build_World n a b c d e f g v i j k l m.
Definition set_slots (v : gmap nat nat) (w : World) : World :=
  let '(Build_World n a b c d e f g h _ j k l m) := w in Build_World n a b c d e f g h v j k l m.
Definition set_ended (v : gset nat) (w : World) : World :=
  let '(Build_World n a b c d e f g h i _ k l m) := w in Build_World n a b c d e f g h i v k l m.
Definition set_cancelled (v : gset nat) (w : World) : World :=
  let '(Build_World n a b c d e f g h i j _ l m) := w in Build_World n a b c d e f g h i j v l m.
Definition set_audit (v : list AgentAuditEvent) (w : World) : World :=
  let '(Build_World n a b c d e f g h i j k _ m) := w in Build_World n a b c d e f g h i j k v m.
Definition set_log (v : list Approval) (w : World) : World :=
  let '(Build_World n a b c d e f g h i j k l _) := w in Build_World n a b c d e f g h i j k l v.

(** ** The service ([agent_forwarding_service.go]) *)

(** [register]: an earlier policy of the same session id is dead from here on. *)
Definition register (p : agentSessionPolicy) (w : World) : World :=
  let sid := si_SessionID (p_info p) in
  let w := if bool_decide (is_Some (w_sessions w !! sid)) then set_window (ForgetSession sid (w_window w)) w else w in
  set_sessions (<[sid := p_addr p]> (w_sessions w)) w.

Definition forget (p : agentSessionPolicy) (w : World) : World :=
  let sid := si_SessionID (p_info p) in
  if w_sessions w !! sid <>? Some (p_addr p) then w
  else w |> set_sessions (delete sid (w_sessions w)) |> set_window (ForgetSession sid (w_window w)).

Definition isLive (p : agentSessionPolicy) (w : World) : bool :=
  w_sessions w !! si_SessionID (p_info p) =?? Some (p_addr p).

Definition no_event (info : AgentSessionInfo) : AgentAuditEvent :=
  {| ae_Event := []; ae_Session := info; ae_KeyFingerprint := []; ae_RemoteUser := []; ae_Destination := [];
     ae_Verified := false; ae_Reason := [] |}.

Definition ev_set_event (event : bytes) (e : AgentAuditEvent) : AgentAuditEvent :=
  {| ae_Event := event; ae_Session := ae_Session e; ae_KeyFingerprint := ae_KeyFingerprint e;
     ae_RemoteUser := ae_RemoteUser e; ae_Destination := ae_Destination e; ae_Verified := ae_Verified e;
     ae_Reason := ae_Reason e |}.
Definition ev_set_reason (reason : bytes) (e : AgentAuditEvent) : AgentAuditEvent :=
  {| ae_Event := ae_Event e; ae_Session := ae_Session e; ae_KeyFingerprint := ae_KeyFingerprint e;
     ae_RemoteUser := ae_RemoteUser e; ae_Destination := ae_Destination e; ae_Verified := ae_Verified e;
     ae_Reason := reason |}.
Definition ev_set_user (user : bytes) (e : AgentAuditEvent) : AgentAuditEvent :=
  {| ae_Event := ae_Event e; ae_Session := ae_Session e; ae_KeyFingerprint := ae_KeyFingerprint e;
     ae_RemoteUser := user; ae_Destination := ae_Destination e; ae_Verified := ae_Verified e; ae_Reason := ae_Reason e |}.
Definition ev_set_key (fingerprint : bytes) (e : AgentAuditEvent) : AgentAuditEvent :=
  {| ae_Event := ae_Event e; ae_Session := ae_Session e; ae_KeyFingerprint := fingerprint;
     ae_RemoteUser := ae_RemoteUser e; ae_Destination := ae_Destination e; ae_Verified := ae_Verified e;
     ae_Reason := ae_Reason e |}.
Definition ev_set_destination (fingerprint : bytes) (verified : bool) (e : AgentAuditEvent) : AgentAuditEvent :=
  {| ae_Event := ae_Event e; ae_Session := ae_Session e; ae_KeyFingerprint := ae_KeyFingerprint e;
     ae_RemoteUser := ae_RemoteUser e; ae_Destination := fingerprint; ae_Verified := verified; ae_Reason := ae_Reason e |}.

Definition Audit_Record (e : AgentAuditEvent) (w : World) : World := set_audit (w_audit w ++ [e]) w.

(** [PolicyFor], at a fresh address: the policy, or nil when the connection forwards no agent. *)
Definition PolicyFor (addr : nat) (sessionID connectionID : bytes) (w : World) :
    result agent_error (option agentSessionPolicy) * World :=
  match w_connections w connectionID with
  | Err e => (Err e, w)
  | Ok conn =>
      if (GetProtocol conn <>? ProtocolSSH) || negb (Config_Active (cn_AgentForwarding conn)) then (Ok None, w) else
      let policy := {| p_addr := addr;
        p_info := {| si_SessionID := sessionID; si_ConnectionID := cn_ID conn; si_ConnectionName := cn_Name conn;
                     si_Host := cn_Host conn; si_Username := cn_Username conn |} |} in
      let w := set_limiters (<[addr := NewRequestLimiter SignRequestsPerWindow SignRequestWindow]> (w_limiters w)) w in
      let w := register policy w in
      (Ok (Some policy), Audit_Record (ev_set_event AgentEventForwardStarted (no_event (p_info policy))) w)
  end.

(** ** What the others do *)

(** The grant an approved request asks the window for. *)
Definition grant_of (p : agentSessionPolicy) (r : approvalRequest) : Grant :=
  {| g_SessionID := si_SessionID (p_info p); g_IdentityID := id_ID (fk_identity (ar_key r));
     g_Destination := b_HostKeyFingerprint (ar_dest r) |}.

(** [knownNames]. *)
Definition knownNames (fingerprint : bytes) (w : World) : list bytes :=
  match w_knownHosts w with
  | Some (Ok entries) => kh_Host <$> filter (λ e, kh_Fingerprint e = fingerprint) entries
  | _ => []
  end.

(** [question]; [int(d.Minutes())] of a whole number of minutes. *)
Definition question (p : agentSessionPolicy) (r : approvalRequest) (w : World) : AgentConfirmQuestion :=
  let identity := fk_identity (ar_key r) in
  {| q_SessionID := si_SessionID (p_info p);
     q_ConnectionName := si_ConnectionName (p_info p);
     q_Host := si_Host (p_info p);
     q_KeyLabel := if id_Comment identity =?? [] then id_ID identity else id_Comment identity;
     q_KeyFingerprint := id_Fingerprint identity;
     q_RemoteUser := ua_User (ar_login r);
     q_Destination :=
       {| dv_Verified := ar_verified r;
          dv_Fingerprint := b_HostKeyFingerprint (ar_dest r);
          dv_KnownAs := if ar_verified r then knownNames (b_HostKeyFingerprint (ar_dest r)) w else [];
          dv_ForwardsFurther := b_Forwarding (ar_dest r) |};
     q_WindowMinutes := if ar_verified r then Z.quot (Config_Window (ar_cfg r)) Minute else 0 |}.

(** The answer [d] of the user to the question of request [r]. *)
Definition answered (p : agentSessionPolicy) (r : approvalRequest) (d : bytes) (w : World) : Approval :=
  {| ap_policy := p; ap_request := r; ap_question := question p r w; ap_decision := d; ap_time := w_now w |}.

(** The answer opens a window: it was granted, and the question offered one. *)
Definition opens (a : Approval) : bool :=
  (ap_decision a =?? AgentAllowWindow) && negb (q_WindowMinutes (ap_question a) =? 0).

(** [window.Allow] for an answer that opens one, its error logged and dropped. *)
Definition open_window (a : Approval) (w : World) : World :=
  set_window (Window_Allow (w_now w) (grant_of (ap_policy a) (ap_request a))
    (Config_Window (ar_cfg (ap_request a))) (w_window w)).2 w.

(** One step of the environment of request [me]: time passes, the vault is edited, a session starts,
    its context ends or its policy is forgotten, a request is cancelled, another request takes or
    leaves a slot, gets its answer from the user, or opens the window an earlier answer granted. *)
Inductive action :=
  | Tick (d : nat)
  | EditVault (conns : bytes → result agent_error Connection) (ids : bytes → result agent_error SSHIdentity)
  | StartPolicy (p : agentSessionPolicy)
  | EndContext (addr : nat)
  | ForgetPolicy (p : agentSessionPolicy)
  | CancelRequest (rid : nat)
  | TakeSlot (addr rid : nat)
  | FreeSlot (addr : nat)
  | UserAnswers (p : agentSessionPolicy) (r : approvalRequest) (d : bytes)
  | OpenWindow (i : nat).

Definition act (me : nat) (w : World) (a : action) : World :=
  match a with
  | Tick d => set_now (w_now w + Z.of_nat d) w
  | EditVault conns ids => set_vault conns ids w
  | StartPolicy p => register p w
  | EndContext addr => set_ended ({[addr]} ∪ w_ended w) w
  | ForgetPolicy p => forget p w
  | CancelRequest rid => set_cancelled ({[rid]} ∪ w_cancelled w) w
  | TakeSlot addr rid =>
      if bool_decide (w_slots w !! addr = None) && (rid <>? me) then set_slots (<[addr := rid]> (w_slots w)) w else w
  | FreeSlot addr => if w_slots w !! addr =?? Some me then w else set_slots (delete addr (w_slots w)) w
  | UserAnswers p r d => set_log (w_log w ++ [answered p r d w]) w
  | OpenWindow i => match w_log w !! i with
      | Some a => if opens a then open_window a w else w
      | None => w
      end
  end.

(** ** A request *)

(** What a request sees of the others while it yields, and which ready case its [select] takes. *)
Record turn := { t_actions : list action; t_pick : nat }.

Record RunState := { rs_world : World; rs_turns : list turn; rs_event : AgentAuditEvent }.
Abbreviation AP := (ST RunState agent_error).

Definition on_world (f : World → World) : AP unit :=
  λ s, (Ok (), {| rs_world := f (rs_world s); rs_turns := rs_turns s; rs_event := rs_event s |}).
Definition on_event (f : AgentAuditEvent → AgentAuditEvent) : AP unit :=
  λ s, (Ok (), {| rs_world := rs_world s; rs_turns := rs_turns s; rs_event := f (rs_event s) |}).
Definition world : AP World := λ s, (Ok (rs_world s), s).
Definition fail_when (c : bool) (e : agent_error) : AP unit := if c then st_fail e else mret ().

(** Request [me] lets the others run. *)
Definition yield (me : nat) : AP unit := λ s,
  match rs_turns s with
  | [] => (Ok (), s)
  | t :: ts => (Ok (), {| rs_world := foldl (act me) (rs_world s) (t_actions t); rs_turns := ts; rs_event := rs_event s |})
  end.

Definition alive (me : nat) (p : agentSessionPolicy) : AP bool :=
  _ ← yield me; w ← world; mret (negb (bool_decide (p_addr p ∈ w_ended w)) && isLive p w).

Definition limiter_Allow (me : nat) (p : agentSessionPolicy) : AP unit :=
  _ ← yield me; w ← world;
  match w_limiters w !! p_addr p with
  | None => st_fail [AgentPanic]
  | Some l =>
      let '(res, l') := Limiter_Allow (w_now w) l in
      _ ← on_world (set_limiters (<[p_addr p := l']> (w_limiters w)));
      st_lift res
  end.

(** The loop over the keys of a connection; each identity is read from the vault as it then is. *)
Definition forwardable (found : result agent_error SSHIdentity) : list forwardableKey :=
  match found with
  | Err _ => []
  | Ok identity =>
      if negb (id_AllowForwarding identity) then [] else
      match AuthorizedKeyBlob (id_PublicKey identity) with
      | Err _ => []
      | Ok blob => [{| fk_identity := identity; fk_blob := blob |}]
      end
  end.
Fixpoint collectKeys (me : nat) (ids : list bytes) : AP (list forwardableKey) :=
  match ids with
  | [] => mret []
  | id :: ids' =>
      _ ← yield me; w ← world;
      let keys := forwardable (w_identities w id) in
      rest ← collectKeys me ids';
      mret (keys ++ rest)
  end.

Definition forwardableKeys (me : nat) (p : agentSessionPolicy) : AP (list forwardableKey * option Config) :=
  _ ← yield me; w ← world;
  match w_connections w (si_ConnectionID (p_info p)) with
  | Err e => st_fail (ErrAgentForwardingDisabled :: e)
  | Ok conn =>
      let cfg := cn_AgentForwarding conn in
      _ ← fail_when (negb (Config_Active cfg)) [ErrAgentForwardingDisabled];
      keys ← collectKeys me (match cfg with Some c => cfg_IdentityIDs c | None => [] end);
      mret (keys, cfg)
  end.

Definition PublicKeys (me : nat) (p : agentSessionPolicy) : AP (list bytes) :=
  live ← alive me p;
  _ ← fail_when (negb live) [ErrAgentSessionEnded];
  '(keys, _) ← forwardableKeys me p;
  mret (fk_blob <$> keys).

Definition keyFor (me : nat) (p : agentSessionPolicy) (blob : bytes) : AP (forwardableKey * option Config) :=
  '(keys, cfg) ← forwardableKeys me p;
  match list_find (λ k, fk_blob k = blob) keys with
  | Some (_, k) => mret (k, cfg)
  | None => st_fail [ErrAgentKeyNotForwardable]
  end.

Definition signingAlgorithm (req : AgentSignRequest) (login : UserAuthRequest) : result agent_error bytes :=
  format ← KeyFormat (sr_KeyBlob req);
  SigningAlgorithm format (ua_Algorithm login) (sr_Flags req).

(** ** Approval ([agent_approval.go]) *)

(** [acquireConfirmSlot]: wait until a case of the [select] is ready; of several ready cases any may
    be taken. *)
Fixpoint wait_slot (me : nat) (p : agentSessionPolicy) (turns : list turn) (w : World) :
    result agent_error unit * World * list turn :=
  match turns with
  | [] => (Err [StillWaiting], w, [])
  | t :: ts =>
      let w := foldl (act me) w (t_actions t) in
      let ready := (if w_slots w !! p_addr p =?? None then [Ok ()] else [])
                   ++ (if bool_decide (me ∈ w_cancelled w) then [Err [ContextCanceled]] else [])
                   ++ (if bool_decide (p_addr p ∈ w_ended w) then [Err [ErrAgentSessionEnded]] else []) in
      match ready !! (t_pick t mod length ready)%nat with
      | None => wait_slot me p ts w
      | Some (Ok _) => (Ok (), set_slots (<[p_addr p := me]> (w_slots w)) w, ts)
      | Some (Err e) => (Err e, w, ts)
      end
  end.

Definition acquireConfirmSlot (me : nat) (p : agentSessionPolicy) : AP unit := λ s,
  let '(res, w, ts) := wait_slot me p (rs_turns s) (rs_world s) in
  (res, {| rs_world := w; rs_turns := ts; rs_event := rs_event s |}).

(** [defer release()]: the slot is left however the body ends. *)
Definition releasing (p : agentSessionPolicy) (body : AP unit) : AP unit := λ s,
  let '(res, s') := body s in (res, (on_world (λ w, set_slots (delete (p_addr p) (w_slots w)) w) s').2).

(** [cfg.Confirm(ctx, question)]: the next answer. *)
Definition Confirm (me : nat) (p : agentSessionPolicy) (r : approvalRequest) (q : AgentConfirmQuestion) : AP bytes :=
  _ ← yield me; w ← world;
  match w_confirm w with
  | Some (Ok d :: rest) =>
      _ ← on_world (set_confirm (Some rest));
      _ ← on_world (λ w, set_log (w_log w ++
             [{| ap_policy := p; ap_request := r; ap_question := q; ap_decision := d; ap_time := w_now w |}]) w);
      mret d
  | Some (Err e :: rest) => _ ← on_world (set_confirm (Some rest)); st_fail e
  | _ => st_fail [StillWaiting]
  end.

Definition window_Allows (me : nat) (g : Grant) : AP bool :=
  _ ← yield me; w ← world; mret (Window_Allows (w_now w) g (w_window w)).

Definition window_Allow (me : nat) (g : Grant) (ttl : Z) : AP unit :=
  _ ← yield me; on_world (λ w, set_window (Window_Allow (w_now w) g ttl (w_window w)).2 w).

Definition ask (me : nat) (p : agentSessionPolicy) (r : approvalRequest) : AP unit :=
  w ← world;
  match w_confirm w with
  | None => st_fail [ErrAgentSignDenied]
  | Some _ =>
      let q := question p r w in
      decision ← Confirm me p r q;
      if decision =?? AgentAllowOnce then mret ()
      else if decision =?? AgentAllowWindow then
        _ ← fail_when (q_WindowMinutes q =? 0) [ErrAgentSignDenied];
        window_Allow me (grant_of p r) (Config_Window (ar_cfg r))
      else st_fail [ErrAgentSignDenied]
  end.

Definition approve (me : nat) (p : agentSessionPolicy) (r : approvalRequest) : AP unit :=
  let grant := grant_of p r in
  allowed ← window_Allows me grant;
  if ar_verified r && allowed then mret () else
  _ ← acquireConfirmSlot me p;
  releasing p (
    (* a dialog answered while this request waited may have opened the window it needs *)
    allowed ← window_Allows me grant;
    if ar_verified r && allowed then mret () else ask me p r).

(** ** Signing ([agent_session_policy.go]) *)

Definition signWith (me : nat) (p : agentSessionPolicy) (key : forwardableKey) (data algorithm : bytes) : AP bytes :=
  _ ← yield me; w ← world;
  match w_signers w with
  | None => st_fail [ErrAgentSignDenied]
  | Some signerFor =>
      signer ← st_lift (signerFor (id_ID (fk_identity key)));
      _ ← fail_when (sg_PublicKey signer <>? fk_blob key) [ErrAgentKeyNotForwardable];
      match sg_SignWithAlgorithm signer with
      | None => st_fail [ErrAlgorithmRefused]
      | Some signWithAlgorithm => st_lift (signWithAlgorithm data algorithm)
      end
  end.

Definition sign (me : nat) (p : agentSessionPolicy) (req : AgentSignRequest) : AP bytes :=
  live ← alive me p;
  _ ← fail_when (negb live) [ErrAgentSessionEnded];
  _ ← limiter_Allow me p;
  login ← st_lift (ParseUserAuthRequest (sr_Data req));
  _ ← fail_when (ua_KeyBlob login <>? sr_KeyBlob req) [ErrSignDataRejected];
  _ ← on_event (ev_set_user (ua_User login));
  '(key, cfg) ← keyFor me p (sr_KeyBlob req);
  _ ← on_event (ev_set_key (id_Fingerprint (fk_identity key)));
  algorithm ← st_lift (signingAlgorithm req login);
  '(dest, verified) ← st_lift (Destination login (sr_Bindings req));
  _ ← on_event (ev_set_destination (b_HostKeyFingerprint dest) verified);
  _ ← approve me p {| ar_key := key; ar_login := login; ar_dest := dest; ar_verified := verified; ar_cfg := cfg |};
  signWith me p key (sr_Data req) algorithm.

(** The table of [agentRefusalReason], first match wins. *)
Definition refusal_reasons : list (agent_sentinel * bytes) := [
  (ErrAgentSessionEnded, bytes_of_string "session-ended"); (ErrRateLimited, bytes_of_string "rate-limited");
  (ErrSignDataRejected, bytes_of_string "not-a-login"); (ErrAlgorithmRefused, bytes_of_string "algorithm");
  (ErrHostKeyMismatch, bytes_of_string "host-key-mismatch"); (ErrAgentForwardingDisabled, bytes_of_string "disabled");
  (ErrAgentKeyNotForwardable, bytes_of_string "not-forwardable"); (ErrAgentSignDenied, bytes_of_string "denied");
  (ContextCanceled, bytes_of_string "session-ended")].

Definition agentRefusalReason (e : agent_error) : bytes :=
  match list_find (λ r, r.1 ∈ e) refusal_reasons with Some (_, (_, reason)) => reason | None => bytes_of_string "error" end.

(** [Sign]: the outcome is audited either way. *)
Definition Sign (me : nat) (p : agentSessionPolicy) (req : AgentSignRequest) (w : World) (turns : list turn) :
    result agent_error bytes * World :=
  let '(res, s) := sign me p req {| rs_world := w; rs_turns := turns; rs_event := no_event (p_info p) |} in
  let ev := rs_event s in
  let ev := match res with
            | Ok _ => ev_set_event AgentEventSignAllowed ev
            | Err e => ev_set_reason (agentRefusalReason e) (ev_set_event AgentEventSignDenied ev)
            end in
  (res, Audit_Record ev (rs_world s)).

Definition Refuse (p : agentSessionPolicy) (operation : bytes) (w : World) : World :=
  Audit_Record (ev_set_reason operation (ev_set_event AgentEventOpRefused (no_event (p_info p)))) w.

(** ** What every step of the system keeps *)

(** The answer [a] is why grant [g] is in the window until [e]. *)
Definition justifies (now : Z) (a : Approval) (g : Grant) (e : Z) : Prop :=
  opens a = true ∧ grant_of (ap_policy a) (ap_request a) = g ∧
  ∃ t, ap_time a ≤ t ≤ now ∧ e = t + Config_Window (ar_cfg (ap_request a)).

(** Every open window is one the user granted for that session, key and destination, and windows are
    granted for verified destinations only. *)
Record window_ok (w : World) : Prop := {
  wo_log : ∀ a, a ∈ w_log w → ap_time a ≤ w_now w ∧ (opens a = true → ar_verified (ap_request a) = true);
  wo_window : ∀ g e, w_window w !! g = Some e → ∃ a, a ∈ w_log w ∧ justifies (w_now w) a g e;
}.

Definition Vaults : Type := (bytes → result agent_error Connection) → (bytes → result agent_error SSHIdentity) → Prop.

Definition edits (V : Vaults) (acts : list action) : Prop := ∀ c i, EditVault c i ∈ acts → V c i.

(** [V] has every vault a run may still see. *)
Definition vault_in (V : Vaults) (s : RunState) : Prop :=
  V (w_connections (rs_world s)) (w_identities (rs_world s)) ∧ Forall (λ t, edits V (t_actions t)) (rs_turns s).

Record world_evolves (w w' : World) : Prop := {
  we_time : w_now w ≤ w_now w';
  we_log : w_log w `prefix_of` w_log w';
  we_audit : w_audit w' = w_audit w;
  we_ok : window_ok w → window_ok w';
}.

#[export] Instance world_evolves_refl : Reflexive world_evolves.
Proof. split; [lia|done|done|done]. Qed.
#[export] Instance world_evolves_trans : Transitive world_evolves.
Proof. intros x y z [] []. split; [lia|by etrans|congruence|auto]. Qed.

(** A change that touches neither the clock, nor the logs, nor the window. *)
Lemma world_evolves_frame w w' : w_now w' = w_now w → w_log w' = w_log w → w_audit w' = w_audit w →
  w_window w' = w_window w → world_evolves w w'.
Proof. intros Hn Hl Ha Hw. split; rewrite ?Hn, ?Hl; [lia|done|done|]. intros [H1 H2]. split; rewrite ?Hn, ?Hl, ?Hw; done. Qed.

Lemma evolves_sessions v w : world_evolves w (set_sessions v w).
Proof. by destruct w; apply world_evolves_frame. Qed.

Lemma justifies_later now now' a g e : now ≤ now' → justifies now a g e → justifies now' a g e.
Proof. intros Hle (Ho & Hg & t & Ht & He). split; [done|]. split; [done|]. exists t. split; [lia|done]. Qed.

Lemma evolves_now d w : 0 ≤ d → world_evolves w (set_now (w_now w + d) w).
Proof.
  intros Hd. destruct w. split; cbn; [lia|done|done|]. intros [Hl Hw]. split; cbn in *.
  - intros a Ha. destruct (Hl a Ha). split; [lia|done].
  - intros g e Hg. destruct (Hw g e Hg) as (a & Ha & Hj). exists a. split; [done|]. eapply justifies_later; [|done]. lia.
Qed.

(** Grants may be dropped at any time. *)
Lemma evolves_shrink v w : (∀ g e, v !! g = Some e → w_window w !! g = Some e) → world_evolves w (set_window v w).
Proof. intros Hv. destruct w. split; cbn; [lia|done|done|]. intros [Hl Hw]. split; cbn in *; [done|eauto]. Qed.

Lemma evolves_answer p r d w w0 : world_evolves w (set_log (w_log w ++
  [{| ap_policy := p; ap_request := r; ap_question := question p r w0; ap_decision := d; ap_time := w_now w |}]) w).
Proof.
  destruct w. split; cbn; [lia|by apply prefix_app_r|done|]. intros [Hl Hw]. split; cbn in *.
  - intros a [Ha| ->%list_elem_of_singleton]%elem_of_app; [auto|]. cbn. split; [lia|].
    unfold opens. cbn. destruct (ar_verified r); [done|]. by rewrite andb_false_r.
  - intros g e Hg. destruct (Hw g e Hg) as (a & Ha & Hj). exists a. split; [set_solver|done].
Qed.

Lemma evolves_open a w : a ∈ w_log w → opens a = true → world_evolves w (open_window a w).
Proof.
  intros Ha Ho. unfold open_window. destruct w. split; cbn in *; [lia|done|done|]. intros [Hl Hw]. split; cbn in *; [done|].
  intros g e. set (g0 := grant_of (ap_policy a) (ap_request a)). set (ttl := Config_Window _).
  assert (∀ g e, pruneLocked w_now0 w_window0 !! g = Some e → w_window0 !! g = Some e) as Hp.
  { intros g' e' H. by apply map_lookup_filter_Some in H as [? _]. }
  destruct (Window_Allow_cases w_now0 g0 ttl w_window0) as [(_ & -> & _)|[_ [->| ->]]]; [|by apply Hw|by intros ?%Hp%Hw].
  rewrite lookup_insert. case_decide as Hg; [|by intros ?%Hp%Hw]. intros [= <-]. exists a. split; [done|].
  split; [done|]. split; [done|]. exists w_now0. split; [|done]. destruct (Hl a Ha). lia.
Qed.

Lemma forget_window_subset sid v g e : ForgetSession sid v !! g = Some e → v !! g = Some e.
Proof. by intros [? _]%map_lookup_filter_Some. Qed.

Lemma act_evolves me w a : world_evolves w (act me w a).
Proof.
  destruct a; cbn [act]; try (by destruct w; apply world_evolves_frame).
  - apply evolves_now. lia.
  - unfold register. cbv zeta. etrans; [|apply evolves_sessions].
    case_bool_decide; [|done]. apply evolves_shrink, forget_window_subset.
  - unfold forget. cbv zeta. case_match; [done|]. etrans; [|apply evolves_shrink].
    + apply evolves_sessions.
    + intros g e Hg. destruct w. by apply forget_window_subset in Hg.
  - case_match; [|done]. by destruct w; apply world_evolves_frame.
  - case_match; [done|]. by destruct w; apply world_evolves_frame.
  - apply evolves_answer.
  - destruct (w_log w !! i) as [a|] eqn:E; [|done]. destruct (opens a) eqn:Eo; [|done].
    apply evolves_open; [by eapply list_elem_of_lookup_2|done].
Qed.

Lemma acts_evolve me acts w : world_evolves w (foldl (act me) w acts).
Proof. revert w. induction acts as [|a acts IH]; intros w; [done|]. cbn. etrans; [apply act_evolves|apply IH]. Qed.

Definition sees (V : Vaults) (w : World) : Prop := V (w_connections w) (w_identities w).

Lemma act_sees V me w a : sees V w → edits V [a] → sees V (act me w a).
Proof.
  intros Hs He. unfold sees in *. destruct a; cbn [act]; try (by destruct w).
  - destruct w. cbn. apply He. by left.
  - unfold register. by case_bool_decide; destruct w.
  - unfold forget. case_match; by destruct w.
  - case_match; by destruct w.
  - case_match; by destruct w.
  - repeat case_match; [|done..]. by destruct w.
Qed.

Lemma acts_sees V me acts w : sees V w → edits V acts → sees V (foldl (act me) w acts).
Proof.
  revert w. induction acts as [|a acts IH]; intros w Hs He; [done|]. cbn. apply IH.
  - apply act_sees; [done|]. intros c i Hin%list_elem_of_singleton. apply He. rewrite Hin. by left.
  - intros c i Hin. apply He. by right.
Qed.

(** What a program of the request may do to the state: time, the log and the vault only move
    forward, and windows stay justified. *)
Record evolves (s s' : RunState) : Prop := {
  es_world : world_evolves (rs_world s) (rs_world s');
  es_vault : ∀ V, vault_in V s → vault_in V s';
  es_session : ae_Session (rs_event s') = ae_Session (rs_event s);
}.

#[export] Instance evolves_refl : Reflexive evolves.
Proof. by split. Qed.
#[export] Instance evolves_trans : Transitive evolves.
Proof. intros x y z [] []. split; [by etrans|auto|congruence]. Qed.

Definition steady {A} (m : AP A) : Prop := ∀ s r s', m s = (r, s') → evolves s s'.

Lemma steady_ret {A} (a : A) : steady (mret a).
Proof. by intros s r s' [= <- <-]. Qed.
Lemma steady_fail {A} e : steady (st_fail e : AP A).
Proof. by intros s r s' [= <- <-]. Qed.
Lemma steady_lift {A} (r : result agent_error A) : steady (st_lift r).
Proof. by intros s r' s' [= <- <-]. Qed.
Lemma steady_world : steady world.
Proof. by intros s r' s' [= <- <-]. Qed.
Lemma steady_fail_when c e : steady (fail_when c e).
Proof. destruct c; [apply steady_fail|apply steady_ret]. Qed.
Lemma fail_when_Ok c e s u s' : fail_when c e s = (Ok u, s') → c = false ∧ s' = s.
Proof. unfold fail_when. destruct c; [done|]. by intros [= _ <-]. Qed.
Lemma steady_event f : (∀ e, ae_Session (f e) = ae_Session e) → steady (on_event f).
Proof. intros Hf s r' s' [= <- <-]. split; [done|done|apply Hf]. Qed.
Lemma steady_event_user u : steady (on_event (ev_set_user u)).
Proof. by apply steady_event. Qed.
Lemma steady_event_key k : steady (on_event (ev_set_key k)).
Proof. by apply steady_event. Qed.
Lemma steady_event_destination d v : steady (on_event (ev_set_destination d v)).
Proof. by apply steady_event. Qed.
Lemma steady_bind {A B} (m : AP A) (f : A → AP B) : steady m → (∀ a, steady (f a)) → steady (m ≫= f).
Proof.
  intros Hm Hf s r s'. unfold mbind, ST_bind. destruct (m s) as [[a|e] s1] eqn:E; intros H.
  - etrans; [by eapply Hm|by eapply Hf].
  - injection H as <- <-. by eapply Hm.
Qed.
Lemma steady_on_world f : (∀ w, world_evolves w (f w)) → (∀ V w, sees V w → sees V (f w)) → steady (on_world f).
Proof. intros Hf Hv s r s' [= <- <-]. split; cbn; [apply Hf| |done]. intros V [Hs Ht]. split; cbn; [by apply Hv|done]. Qed.
Lemma steady_yield me : steady (yield me).
Proof.
  intros s r s'. unfold yield. destruct (rs_turns s) as [|t ts] eqn:E; intros [= <- <-]; [done|].
  split; cbn; [apply acts_evolve| |done]. intros V [Hs Ht]. rewrite E in Ht. inv Ht. split; [by apply acts_sees|done].
Qed.
Lemma steady_if {A} (c : bool) (m n : AP A) : steady m → steady n → steady (if c then m else n).
Proof. by destruct c. Qed.

Create HintDb agent discriminated.
#[export] Hint Resolve steady_ret steady_fail steady_lift steady_world steady_fail_when steady_bind
  steady_yield steady_if steady_event_user steady_event_key steady_event_destination : agent.

Lemma steady_alive me p : steady (alive me p).
Proof. unfold alive. eauto 10 with agent. Qed.

Lemma steady_limiter me p : steady (limiter_Allow me p).
Proof.
  unfold limiter_Allow. apply steady_bind; [apply steady_yield|]. intros _. apply steady_bind; [apply steady_world|].
  intros w. destruct (w_limiters w !! p_addr p) as [l|]; [|apply steady_fail].
  destruct (Limiter_Allow (w_now w) l) as [res l']. apply steady_bind; [|intros; apply steady_lift].
  apply steady_on_world; [intros w'; by destruct w'; apply world_evolves_frame|by intros V []].
Qed.

Lemma steady_collect me ids : steady (collectKeys me ids).
Proof. induction ids as [|id ids IH]; cbn [collectKeys]; eauto 10 with agent. Qed.
#[export] Hint Resolve steady_alive steady_limiter steady_collect : agent.

Lemma steady_forwardableKeys me p : steady (forwardableKeys me p).
Proof.
  unfold forwardableKeys. apply steady_bind; [apply steady_yield|]. intros _. apply steady_bind; [apply steady_world|].
  intros w. destruct (w_connections w _); eauto 10 with agent.
Qed.
#[export] Hint Resolve steady_forwardableKeys : agent.

Lemma steady_keyFor me p blob : steady (keyFor me p blob).
Proof.
  unfold keyFor. apply steady_bind; [apply steady_forwardableKeys|]. intros [keys cfg].
  destruct (list_find _ keys) as [[? ?]|]; eauto with agent.
Qed.

Lemma steady_allows me g : steady (window_Allows me g).
Proof. unfold window_Allows. eauto 10 with agent. Qed.
#[export] Hint Resolve steady_keyFor steady_allows : agent.

Lemma wait_slot_evolves me p ts w res w' ts' : wait_slot me p ts w = (res, w', ts') →
  world_evolves w w' ∧ ∀ V, sees V w → Forall (λ t, edits V (t_actions t)) ts →
    sees V w' ∧ Forall (λ t, edits V (t_actions t)) ts'.
Proof.
  revert w. induction ts as [|t ts IH]; intros w; cbn [wait_slot]; [by intros [= <- <- <-]|].
  pose proof (acts_evolve me (t_actions t) w) as Ha.
  assert (∀ V, sees V w → Forall (λ t, edits V (t_actions t)) (t :: ts) →
    sees V (foldl (act me) w (t_actions t)) ∧ Forall (λ t, edits V (t_actions t)) ts) as Hv.
  { intros V Hs Ht. inv Ht. split; [by apply acts_sees|done]. }
  set (w1 := foldl (act me) w (t_actions t)) in *. cbv zeta. destruct (_ !! _) as [[[]|e]|].
  - intros [= <- <- <-]. split; [etrans; [done|]; by destruct w1; apply world_evolves_frame|].
    intros V Hs Ht. destruct (Hv V Hs Ht). split; [by destruct w1|done].
  - intros [= <- <- <-]. done.
  - intros H. destruct (IH _ H) as [Hw HV]. split; [by etrans|]. intros V Hs Ht. destruct (Hv V Hs Ht). by apply HV.
Qed.

Lemma steady_acquire me p : steady (acquireConfirmSlot me p).
Proof.
  intros s r s'. unfold acquireConfirmSlot. destruct (wait_slot _ _ _ _) as [[res w] ts] eqn:E.
  intros [= <- <-]. apply wait_slot_evolves in E as [Hw HV]. split; [done| |done]. intros V [Hs Ht]. by apply HV.
Qed.

Lemma steady_releasing p m : steady m → steady (releasing p m).
Proof.
  intros Hm s r s'. unfold releasing. destruct (m s) as [res s1] eqn:E. intros [= <- <-]. etrans; [by eapply Hm|].
  split; cbn; [by destruct (rs_world s1); apply world_evolves_frame| |done].
  intros V [Hs Ht]. split; cbn; [by destruct (rs_world s1)|done].
Qed.

Lemma steady_signWith me p key data alg : steady (signWith me p key data alg).
Proof.
  unfold signWith. apply steady_bind; [apply steady_yield|]. intros _. apply steady_bind; [apply steady_world|].
  intros w. destruct (w_signers w); [|apply steady_fail]. apply steady_bind; [apply steady_lift|]. intros signer.
  apply steady_bind; [apply steady_fail_when|]. intros _. destruct (sg_SignWithAlgorithm signer); eauto with agent.
Qed.
#[export] Hint Resolve steady_acquire steady_releasing steady_signWith : agent.

(** ** Approval *)

(** Between [w] and [w'] the user was asked about exactly this request and said yes. *)
Definition approved_now (w w' : World) (p : agentSessionPolicy) (r : approvalRequest) : Prop :=
  ∃ pre a, w_log w `prefix_of` pre ∧ pre ++ [a] `prefix_of` w_log w' ∧
    ap_policy a = p ∧ ap_request a = r ∧ (ap_decision a = AgentAllowOnce ∨ opens a = true).

(** The user granted a window to the same session, key and destination, both verified, and at some
    moment up to [w'] it was open. *)
Definition approved_before (w' : World) (p : agentSessionPolicy) (r : approvalRequest) : Prop :=
  ar_verified r = true ∧ b_HostKeyFingerprint (ar_dest r) ≠ [] ∧
  ∃ a t e, a ∈ w_log w' ∧ ar_verified (ap_request a) = true ∧ justifies t a (grant_of p r) e ∧ t ≤ w_now w' ∧ t < e.

Lemma approved_now_mono w0 w w' w'' p r :
  world_evolves w0 w → world_evolves w' w'' → approved_now w w' p r → approved_now w0 w'' p r.
Proof.
  intros H0 H1 (pre & a & Hp & Hpa & ?). exists pre, a.
  split; [etrans; [apply H0|done]|]. split; [etrans; [done|apply H1]|done].
Qed.

Lemma approved_before_mono w w' p r : world_evolves w w' → approved_before w p r → approved_before w' p r.
Proof.
  intros [Ht Hl _ _] (Hv & Hd & a & t & e & Ha & ?). split; [done|]. split; [done|]. exists a, t, e.
  split; [by eapply elem_of_prefix|]. intuition lia.
Qed.

Lemma Confirm_spec me p r w0 s res s' : Confirm me p r (question p r w0) s = (res, s') →
  evolves s s' ∧ ∀ d, res = Ok d → ∃ pre a, w_log (rs_world s) `prefix_of` pre ∧ w_log (rs_world s') = pre ++ [a] ∧
    ap_policy a = p ∧ ap_request a = r ∧ ap_question a = question p r w0 ∧ ap_decision a = d.
Proof.
  unfold Confirm, mbind, ST_bind. destruct (yield me s) as [[[]|e] s1] eqn:Ey; [|by destruct s as [? [|[]] ?]].
  assert (evolves s s1) as Hy by by eapply steady_yield. cbn [world].
  assert (∀ rest, evolves s1 (on_world (set_confirm rest) s1).2) as Hc.
  { intros rest. eapply (steady_on_world (set_confirm rest)); [|by intros V []|by apply surjective_pairing].
    intros []. by apply world_evolves_frame. }
  destruct (w_confirm (rs_world s1)) as [[|[d|e] rest]|]; try (intros [= <- <-]; done).
  - intros [= <- <-]. split.
    + etrans; [exact Hy|]. etrans; [apply (Hc (Some rest))|]. split; cbn; [apply evolves_answer| |done].
      intros V [Hs Ht]. split; cbn; [by destruct (rs_world s1)|done].
    + intros d' [= <-]. exists (w_log (rs_world s1)), {| ap_policy := p; ap_request := r; ap_question := question p r w0;
        ap_decision := d; ap_time := w_now (rs_world s1) |}.
      split; [apply Hy|]. cbn. by destruct (rs_world s1).
  - intros [= <- <-]. split; [|done]. etrans; [exact Hy|apply (Hc (Some rest))].
Qed.

Lemma ask_spec me p r s res s' : ask me p r s = (res, s') →
  evolves s s' ∧ (res = Ok () → approved_now (rs_world s) (rs_world s') p r).
Proof.
  unfold ask. unfold mbind at 1, ST_bind at 1. cbn [world]. destruct (w_confirm (rs_world s)) as [?|]; [|by intros [= <- <-]].
  set (q := question p r (rs_world s)). unfold mbind at 1, ST_bind at 1.
  destruct (Confirm me p r q s) as [[d|e] s1] eqn:Ec; apply Confirm_spec in Ec as [Hc Hd]; [|by intros [= <- <-]].
  destruct (Hd d eq_refl) as (pre & a & Hp & Hl & Hpol & Hreq & Hq & Hdec).
  assert (∀ s2, evolves s1 s2 → ap_decision a = AgentAllowOnce ∨ opens a = true → approved_now (rs_world s) (rs_world s2) p r) as Happ.
  { intros s2 He Ho. exists pre, a. split; [done|]. split; [rewrite <- Hl; apply He|done]. }
  case_bool_decide as Ho; [intros [= <- <-]; split; [done|]; intros _; apply Happ; [done|left; congruence]|].
  case_bool_decide as Hw; [|by intros [= <- <-]].
  unfold fail_when. destruct (q_WindowMinutes q =? 0) eqn:Em; [by intros [= <- <-]|].
  assert (opens a = true) as Hop.
  { unfold opens. rewrite Hdec, Hq, Hw. fold q. by rewrite Em, bool_decide_eq_true_2. }
  rewrite (st_bind_run _ _ s1 () s1) by done. unfold window_Allow.
  destruct (yield me s1) as [ry s2] eqn:Ey. assert (evolves s1 s2) as Hy by by eapply steady_yield.
  assert (ry = Ok ()) as -> by (revert Ey; unfold yield; destruct (rs_turns s1); by intros [= <- _]).
  rewrite (st_bind_run _ _ _ _ _ Ey). intros [= <- <-].
  assert (evolves s2 (on_world (open_window a) s2).2) as Hw2.
  { split; cbn.
    - apply evolves_open; [|done]. eapply elem_of_prefix; [|apply Hy]. rewrite Hl. set_solver.
    - intros V [Hs Ht]. split; cbn; [by destruct (rs_world s2)|done].
    - done. }
  unfold open_window in Hw2. rewrite Hpol, Hreq in Hw2.
  split; [etrans; [done|]; etrans; [exact Hy|exact Hw2]|]. intros _. apply Happ; [etrans; [exact Hy|exact Hw2]|by right].
Qed.

Lemma window_Allows_spec me p r s b s' : window_Allows me (grant_of p r) s = (Ok b, s') → window_ok (rs_world s) →
  ar_verified r && b = true → approved_before (rs_world s') p r.
Proof.
  unfold window_Allows. intros Hs Hok Hb. apply andb_true_iff in Hb as [Hv ->].
  apply st_bind_inv in Hs as (? & s1 & Hy & Hs). apply st_bind_inv in Hs as (w & s2 & Hw & Hs).
  injection Hw as <- <-. injection Hs as Ha <-. apply steady_yield in Hy as [[_ _ _ Hy] _]. destruct (Hy Hok) as [Hl Hj].
  unfold Window_Allows in Ha. case_bool_decide as Hd; [done|].
  destruct (w_window (rs_world s1) !! _) as [e|] eqn:E; [|done]. apply Z.ltb_lt in Ha.
  destruct (Hj _ _ E) as (a & Hin & Hju). split; [done|]. split; [done|].
  exists a, (w_now (rs_world s1)), e. split; [done|]. split; [|split; [done|lia]].
  destruct (Hl a Hin) as [_ Hver]. apply Hver, Hju.
Qed.

Lemma yield_ok me s : ∃ s1, yield me s = (Ok (), s1).
Proof. unfold yield. destruct (rs_turns s); eauto. Qed.

Lemma allows_ok me g s : ∃ b s1, window_Allows me g s = (Ok b, s1).
Proof. unfold window_Allows. destruct (yield_ok me s) as [s1 Hy]. rewrite (st_bind_run _ _ _ _ _ Hy). eauto. Qed.

Lemma approve_spec me p r s res s' : approve me p r s = (res, s') →
  evolves s s' ∧ (res = Ok () → window_ok (rs_world s) → approved_now (rs_world s) (rs_world s') p r ∨ approved_before (rs_world s') p r).
Proof.
  unfold approve. cbv zeta. destruct (allows_ok me (grant_of p r) s) as (b & s1 & Ha).
  rewrite (st_bind_run _ _ _ _ _ Ha). pose proof (steady_allows _ _ _ _ _ Ha) as He.
  destruct (ar_verified r && b) eqn:Eb.
  { intros [= <- <-]. split; [done|]. intros _ Hok. right. by eapply window_Allows_spec. }
  unfold mbind at 1, ST_bind at 1. destruct (acquireConfirmSlot me p s1) as [[[]|e] s2] eqn:Eq;
    apply steady_acquire in Eq; [|intros [= <- <-]; split; [by etrans|done]].
  unfold releasing. destruct (allows_ok me (grant_of p r) s2) as (b2 & s3 & Ha2).
  rewrite (st_bind_run _ _ _ _ _ Ha2). pose proof (steady_allows _ _ _ _ _ Ha2) as He2.
  assert (∀ s4, evolves s4 (on_world (λ w, set_slots (delete (p_addr p) (w_slots w)) w) s4).2) as Hrel.
  { intros s4. split; cbn; [by destruct (rs_world s4); apply world_evolves_frame| |done].
    intros V [Hs Ht]. split; cbn; [by destruct (rs_world s4)|done]. }
  assert (evolves s s2) as H02 by by etrans. assert (evolves s s3) as H03 by by etrans.
  destruct (ar_verified r && b2) eqn:Eb2.
  { intros [= <- <-]. split; [etrans; [done|apply Hrel]|]. intros _ Hok. right. eapply approved_before_mono; [apply Hrel|].
    eapply window_Allows_spec; [done|by apply H02|done]. }
  destruct (ask me p r s3) as [ra s4] eqn:Ea. apply ask_spec in Ea as [Hask Happ]. intros [= <- <-].
  split; [etrans; [done|]; etrans; [done|apply Hrel]|]. intros -> _. left.
  eapply approved_now_mono; [apply H03|apply Hrel|]. by apply Happ.
Qed.

(** ** Who signs what *)

(** The vault as some moment of a run had it. *)
Definition seen_vaults (w : World) (turns : list turn) : Vaults := λ c i,
  (c = w_connections w ∧ i = w_identities w) ∨ ∃ t, t ∈ turns ∧ EditVault c i ∈ t_actions t.

Lemma seen_vaults_in w turns ev : vault_in (seen_vaults w turns) {| rs_world := w; rs_turns := turns; rs_event := ev |}.
Proof.
  split; cbn; [by left|]. apply Forall_forall. intros t Ht c i Hin. right. by exists t.
Qed.

(** Both sides consented: a connection [c] that lists the key, and the key itself. *)
Record consent (V : Vaults) (p : agentSessionPolicy) (k : forwardableKey) (cfg : option Config) : Prop := {
  co_connection : ∃ c i conn, V c i ∧ c (si_ConnectionID (p_info p)) = Ok conn ∧ cn_AgentForwarding conn = cfg;
  co_active : Config_Active cfg = true;
  co_key : ∃ c i id, V c i ∧ Config_Lists cfg id = true ∧ i id = Ok (fk_identity k);
  co_flag : id_AllowForwarding (fk_identity k) = true;
  co_blob : AuthorizedKeyBlob (id_PublicKey (fk_identity k)) = Ok (fk_blob k);
}.

Lemma forwardable_spec found k : k ∈ forwardable found → found = Ok (fk_identity k) ∧
  id_AllowForwarding (fk_identity k) = true ∧ AuthorizedKeyBlob (id_PublicKey (fk_identity k)) = Ok (fk_blob k).
Proof.
  unfold forwardable. destruct found as [identity|]; [|by intros ?%elem_of_nil].
  destruct (id_AllowForwarding identity) eqn:Ea; [|by intros ?%elem_of_nil]. cbn [negb].
  destruct (AuthorizedKeyBlob _) eqn:Eb; [|by intros ?%elem_of_nil]. by intros ->%list_elem_of_singleton.
Qed.

Lemma collectKeys_spec me V ids s keys s' : collectKeys me ids s = (Ok keys, s') → vault_in V s →
  ∀ k, k ∈ keys → ∃ c i id, V c i ∧ id ∈ ids ∧ k ∈ forwardable (i id).
Proof.
  revert s keys. induction ids as [|id ids IH]; intros s keys; cbn [collectKeys].
  { intros [= <- <-] _ k ?%elem_of_nil. done. }
  intros H HV k Hk. apply st_bind_inv in H as ([] & s1 & Hy & H). apply st_bind_inv in H as (w & s2 & Hw & H).
  injection Hw as <- <-. apply st_bind_inv in H as (rest & s3 & Hr & H). injection H as <- <-.
  apply steady_yield in Hy as [_ HV1 _]. specialize (HV1 V HV).
  apply elem_of_app in Hk as [Hk|Hk].
  - exists (w_connections (rs_world s1)), (w_identities (rs_world s1)), id. split; [apply HV1|]. split; [by left|done].
  - destruct (IH _ _ Hr HV1 k Hk) as (c & i & id' & ? & ? & ?). exists c, i, id'. split; [done|]. split; [by right|done].
Qed.

Lemma keyFor_spec me p blob V s k cfg s' : keyFor me p blob s = (Ok (k, cfg), s') → vault_in V s →
  consent V p k cfg ∧ fk_blob k = blob.
Proof.
  unfold keyFor, forwardableKeys. intros H HV. apply st_bind_inv in H as ([keys cfg'] & s1 & Hf & H).
  apply st_bind_inv in Hf as ([] & s2 & Hy & Hf). apply st_bind_inv in Hf as (w & s3 & Hw & Hf). injection Hw as <- <-.
  apply steady_yield in Hy as [_ HV1 _]. specialize (HV1 V HV).
  destruct (w_connections (rs_world s2) _) as [conn|] eqn:Ec; [|done].
  unfold fail_when in Hf. destruct (Config_Active (cn_AgentForwarding conn)) eqn:Ea; [|done]. cbn [negb] in Hf.
  rewrite (st_bind_run _ _ s2 () s2) in Hf by done. apply st_bind_inv in Hf as (ks & s4 & Hk & Hf). injection Hf as <- <- <-.
  destruct (list_find _ ks) as [[n k']|] eqn:El; [|done]. injection H as <- <- <-.
  apply list_find_Some in El as (Hin & Hb & _). apply list_elem_of_lookup_2 in Hin. split; [|done].
  destruct (collectKeys_spec _ _ _ _ _ _ Hk HV1 _ Hin) as (c & i & id & HVc & Hid & (Hf & Hfl & Hbl)%forwardable_spec).
  split; [|done| |done|done].
  - exists (w_connections (rs_world s2)), (w_identities (rs_world s2)), conn. split; [apply HV1|done].
  - exists c, i, id. split; [done|]. split; [|done]. unfold Config_Lists. rewrite Ea.
    destruct (cn_AgentForwarding conn); [|done]. by apply bool_decide_eq_true_2.
Qed.

(** Everything that has to be true of a signature the agent gives. *)
Record authorised (p : agentSessionPolicy) (req : AgentSignRequest) (w w' : World) (turns : list turn)
    (r : approvalRequest) (algorithm signature : bytes) : Prop := {
  au_login : login_wf (ar_login r) ∧ sr_Data req = encodeUserAuth (ar_login r) ∧ ua_KeyBlob (ar_login r) = sr_KeyBlob req;
  au_consent : consent (seen_vaults w turns) p (ar_key r) (ar_cfg r) ∧ fk_blob (ar_key r) = sr_KeyBlob req;
  au_algorithm : ∃ format, KeyFormat (sr_KeyBlob req) = Ok format ∧
    SigningAlgorithm format (ua_Algorithm (ar_login r)) (sr_Flags req) = Ok algorithm;
  au_destination : Destination (ar_login r) (sr_Bindings req) = Ok (ar_dest r, ar_verified r);
  au_approved : approved_now w w' p r ∨ approved_before w' p r;
  au_signer : ∃ signerFor signer f, w_signers w' = Some signerFor ∧ signerFor (id_ID (fk_identity (ar_key r))) = Ok signer ∧
    sg_PublicKey signer = sr_KeyBlob req ∧ sg_SignWithAlgorithm signer = Some f ∧ f (sr_Data req) algorithm = Ok signature;
}.

Lemma sign_spec me p req ev w turns sig s' :
  sign me p req {| rs_world := w; rs_turns := turns; rs_event := ev |} = (Ok sig, s') → window_ok w →
  evolves {| rs_world := w; rs_turns := turns; rs_event := ev |} s' ∧
  ∃ r algorithm, authorised p req w (rs_world s') turns r algorithm sig.
Proof.
  set (s := {| rs_world := w; rs_turns := turns; rs_event := ev |}). intros H Hok. unfold sign in H.
  apply st_bind_inv in H as (live & s1 & H1%steady_alive & H).
  apply st_bind_inv in H as ([] & s2 & H2%steady_fail_when & H).
  apply st_bind_inv in H as ([] & s3 & H3%steady_limiter & H).
  apply st_bind_inv in H as (login & s4 & H4 & H). injection H4 as H4 <-.
  apply st_bind_inv in H as ([] & s5 & H5 & H).
  apply st_bind_inv in H as ([] & s6 & H6%steady_event_user & H).
  apply st_bind_inv in H as ([key cfg] & s7 & H7 & H).
  apply st_bind_inv in H as ([] & s8 & H8%steady_event_key & H).
  apply st_bind_inv in H as (algorithm & s9 & H9 & H). injection H9 as H9 <-.
  apply st_bind_inv in H as ([dest verified] & s10 & H10 & H). injection H10 as H10 <-.
  apply st_bind_inv in H as ([] & s11 & H11%steady_event_destination & H).
  set (r := {| ar_key := key; ar_login := login; ar_dest := dest; ar_verified := verified; ar_cfg := cfg |}) in *.
  apply st_bind_inv in H as ([] & s12 & [H12 Happ]%approve_spec & H).
  unfold signWith in H. apply st_bind_inv in H as ([] & s13 & H13%steady_yield & H).
  apply st_bind_inv in H as (w1 & s14 & Hw1 & H). injection Hw1 as <- <-.
  destruct (w_signers (rs_world s13)) as [signerFor|] eqn:Es; [|done].
  apply st_bind_inv in H as (signer & s15 & Hsf & H). injection Hsf as Hsf <-.
  apply st_bind_inv in H as ([] & s16 & Hpk & H).
  apply fail_when_Ok in H5 as [Hkb%negb_false_iff%bool_decide_eq_true ->].
  apply fail_when_Ok in Hpk as [Hpk%negb_false_iff%bool_decide_eq_true ->].
  destruct (sg_SignWithAlgorithm signer) as [f|] eqn:Ef; [|done]. injection H as Hsig <-.
  assert (evolves s s3) as E3 by (do 2 (etrans; [eassumption|]); done).
  assert (evolves s s6) as E6 by (etrans; [exact E3|done]).
  apply keyFor_spec with (V := seen_vaults w turns) in H7 as Hk; [|apply E6, seen_vaults_in].
  apply steady_keyFor in H7.
  assert (evolves s s11) as E11 by (do 3 (etrans; [eassumption|]); done).
  split; [do 2 (etrans; [eassumption|]); done|]. exists r, algorithm. split; cbn.
  - apply ParseUserAuthRequest_Ok in H4 as [? ?]. done.
  - done.
  - by apply bind_Ok in H9.
  - done.
  - destruct Happ as [Hn|Hb]; [done|by apply E11| |].
    + left. eapply approved_now_mono; [apply E11|apply H13|done].
    + right. eapply approved_before_mono; [apply H13|done].
  - exists signerFor, signer, f. destruct Hk as [_ <-]. done.
Qed.

Lemma steady_approve me p r : steady (approve me p r).
Proof. intros s res s' H. by apply approve_spec in H as [? _]. Qed.
#[export] Hint Resolve steady_approve : agent.

Lemma steady_sign me p req : steady (sign me p req).
Proof.
  unfold sign. do 6 (apply steady_bind; [eauto with agent|]; intros ?).
  apply steady_bind; [eauto with agent|]. intros [key cfg]. do 2 (apply steady_bind; [eauto with agent|]; intros ?).
  apply steady_bind; [eauto with agent|]. intros [dest verified]. eauto 10 with agent.
Qed.

Lemma window_ok_audit e w : window_ok w → window_ok (Audit_Record e w).
Proof. destruct w. intros [H1 H2]. by split. Qed.


(** Whatever the answer, exactly one event of the session is recorded, it says which, and a refusal
    has a reason of the fixed list. *)
Theorem sign_audited me p req w turns res w' :
  Sign me p req w turns = (res, w') →
  ∃ ev, w_audit w' = w_audit w ++ [ev] ∧ ae_Session ev = p_info p ∧
    ae_Event ev = (if is_ok res then AgentEventSignAllowed else AgentEventSignDenied) ∧
    ∀ e, res = Err e → ae_Reason ev = agentRefusalReason e ∧
      (ae_Reason ev ∈ (snd <$> refusal_reasons) ∨ ae_Reason ev = bytes_of_string "error").
Proof.
  unfold Sign. destruct (sign _ _ _ _) as [res' s] eqn:E. intros [= <- <-].
  apply steady_sign in E as [[_ _ Ha _] _ Hs]. cbn in Ha, Hs.
  eexists. split; [unfold Audit_Record; rewrite <- Ha; by destruct (rs_world s)|].
  split; [by destruct res'|]. split; [by destruct res'|]. intros e ->. split; [done|]. cbn [ae_Reason ev_set_reason].
  unfold agentRefusalReason. destruct (list_find _ refusal_reasons) as [[i [t reason]]|] eqn:El; [left|by right].
  apply list_find_Some in El as (Hi & _). apply list_elem_of_lookup_2 in Hi.
  apply (list_elem_of_fmap_2 snd _ _ Hi).
Qed.

(** ** Closing a session *)

(** Once its policy is forgotten, a session has no open window. *)
Theorem forget_closes p w g :
  isLive p w = true → g_SessionID g = si_SessionID (p_info p) →
  isLive p (forget p w) = false ∧ w_window (forget p w) !! g = None.
Proof.
  unfold isLive. intros Hl%bool_decide_eq_true Hg.
  assert (forget p w = w |> set_sessions (delete (si_SessionID (p_info p)) (w_sessions w))
                         |> set_window (ForgetSession (si_SessionID (p_info p)) (w_window w))) as ->.
  { unfold forget. by rewrite Hl, bool_decide_eq_true_2. }
  destruct w. cbn in *. split; [by rewrite lookup_delete_eq|].
  apply map_lookup_filter_None_2. right. intros e _ Hne. by apply Hne.
Qed.

(** The turns never start policy [p] again. *)
Definition not_restarted (p : agentSessionPolicy) (turns : list turn) : Prop :=
  Forall (λ t, Forall (λ a, ∀ p', a = StartPolicy p' → p_addr p' ≠ p_addr p) (t_actions t)) turns.

Lemma act_not_live me p w a : isLive p w = false → (∀ p', a = StartPolicy p' → p_addr p' ≠ p_addr p) →
  isLive p (act me w a) = false.
Proof.
  intros Hl Ha. destruct a; cbn [act]; try (by destruct w).
  - unfold register, isLive. apply bool_decide_eq_false_2. specialize (Ha p0 eq_refl).
    assert (∀ w0 v, w_sessions (set_sessions v w0) = v) as -> by by intros [].
    rewrite lookup_insert. case_decide as Hs; [congruence|].
    unfold isLive in Hl. apply bool_decide_eq_false in Hl. case_match; destruct w; exact Hl.
  - unfold forget. case_match; [done|]. unfold isLive in *. apply bool_decide_eq_false in Hl. apply bool_decide_eq_false_2.
    destruct w. cbn in *. rewrite lookup_delete. by destruct (decide _).
  - case_match; [|done]. by destruct w.
  - case_match; [done|]. by destruct w.
  - repeat case_match; [|done..]. by destruct w.
Qed.

Lemma acts_not_live me p acts w : isLive p w = false → Forall (λ a, ∀ p', a = StartPolicy p' → p_addr p' ≠ p_addr p) acts →
  isLive p (foldl (act me) w acts) = false.
Proof.
  revert w. induction acts as [|a acts IH]; intros w Hl Ha; [done|]. inv Ha. cbn. apply IH; [|done]. by apply act_not_live.
Qed.

(** A policy whose session ended, or was replaced by a reconnect, signs and lists nothing: the user
    is not asked and the vault is not read. *)
Theorem dead_policy_refuses me p req w turns :
  isLive p w = false → not_restarted p turns →
  (Sign me p req w turns).1 = Err [ErrAgentSessionEnded] ∧
  (PublicKeys me p {| rs_world := w; rs_turns := turns; rs_event := no_event (p_info p) |}).1 = Err [ErrAgentSessionEnded].
Proof.
  intros Hl Hn. set (s := {| rs_world := w; rs_turns := turns; rs_event := no_event (p_info p) |}).
  assert (∃ s1, alive me p s = (Ok false, s1)) as [s1 Ha].
  { unfold alive. destruct (yield_ok me s) as [s1 Hy]. rewrite (st_bind_run _ _ _ _ _ Hy).
    assert (isLive p (rs_world s1) = false) as Hl1.
    { unfold yield in Hy. cbn in Hy. destruct turns as [|t ts]; injection Hy as <-; [done|].
      inv Hn. cbn. by apply acts_not_live. }
    exists s1. rewrite (st_bind_run _ _ s1 (rs_world s1) s1) by done. rewrite Hl1, andb_false_r. done. }
  split.
  - unfold Sign. fold s. unfold sign. by rewrite (st_bind_run _ _ _ _ _ Ha).
  - unfold PublicKeys. by rewrite (st_bind_run _ _ _ _ _ Ha).
Qed.

(** ** An example: a session asks for a login to a host it proved *)

Definition demo_format : bytes := bytes_of_string "ssh-ed25519".
Definition demo_key : bytes := sshstr demo_format ++ sshstr (bytes_of_string "public").
Definition demo_identity : SSHIdentity := {|
  id_ID := bytes_of_string "key"; id_Comment := []; id_PublicKey := authorizedLine demo_format demo_key [];
  id_Fingerprint := bytes_of_string "SHA256:key"; id_AllowForwarding := true |}.
Definition demo_config : Config := {|
  cfg_Enabled := true; cfg_IdentityIDs := [bytes_of_string "key"]; cfg_Confirm := ConfirmSessionWindow;
  cfg_WindowMinutes := 15 |}.
Definition demo_connection : Connection := {|
  cn_ID := bytes_of_string "conn"; cn_Name := []; cn_Host := []; cn_Protocol := []; cn_Username := [];
  cn_AgentForwarding := Some demo_config |}.
Definition demo_login : UserAuthRequest := {|
  ua_SessionID := bytes_of_string "exchange"; ua_User := bytes_of_string "git"; ua_Algorithm := demo_format;
  ua_KeyBlob := demo_key; ua_HostKey := None |}.
Definition demo_binding : Binding := {|
  b_SessionID := bytes_of_string "exchange"; b_HostKey := bytes_of_string "host";
  b_HostKeyFingerprint := bytes_of_string "SHA256:host"; b_Forwarding := false |}.
Definition demo_request : AgentSignRequest := {|
  sr_KeyBlob := demo_key; sr_Data := encodeUserAuth demo_login; sr_Flags := 0; sr_Bindings := bind_all [] [demo_binding] |}.
Definition demo_signer : Signer := {|
  sg_PublicKey := demo_key; sg_SignWithAlgorithm := Some (λ data algorithm, Ok (algorithm ++ data)) |}.
Definition demo_policy (addr : nat) : agentSessionPolicy := {| p_addr := addr;
  p_info := {| si_SessionID := bytes_of_string "tab"; si_ConnectionID := bytes_of_string "conn"; si_ConnectionName := [];
               si_Host := []; si_Username := [] |} |}.

(** Nothing is forwarded yet; the user will answer one question, with a window. *)
Definition demo_world : World := {|
  w_now := 0; w_connections := λ _, Ok demo_connection; w_identities := λ _, Ok demo_identity;
  w_knownHosts := None; w_signers := Some (λ _, Ok demo_signer); w_confirm := Some [Ok AgentAllowWindow];
  w_window := ∅; w_sessions := ∅; w_limiters := ∅; w_slots := ∅; w_ended := ∅; w_cancelled := ∅; w_audit := []; w_log := [] |}.
Definition demo_started : World := (PolicyFor 1 (bytes_of_string "tab") (bytes_of_string "conn") demo_world).2.
Definition demo_idle (n : nat) : list turn := replicate n {| t_actions := []; t_pick := 0 |}.
Definition demo_signature : bytes := demo_format ++ encodeUserAuth demo_login.

Lemma demo_window_ok : window_ok demo_started.
Proof.
  assert (w_window demo_started = ∅) as Hw by reflexivity.
  split; [by intros a ?%elem_of_nil|]. intros g e. by rewrite Hw, lookup_empty.
Qed.

Lemma demo_signs : (Sign 7 (demo_policy 1) demo_request demo_started (demo_idle 10)).1 = Ok demo_signature.
Proof. vm_compute. reflexivity. Qed.

(** The session ends after its user granted a window, and before the window is recorded. *)
Definition closing_turns : list turn :=
  demo_idle 8 ++ [{| t_actions := [EndContext 1; ForgetPolicy (demo_policy 1)]; t_pick := 0 |}] ++ demo_idle 1.
Definition closed_world : World := (Sign 7 (demo_policy 1) demo_request demo_started closing_turns).2.
Definition reopened_world : World := (PolicyFor 2 (bytes_of_string "tab") (bytes_of_string "conn") closed_world).2.

(** A grant outlives its connection. A session that ends after its user granted a window, and before
    the window is recorded, leaves the grant behind: [forget] has already cleared the session's
    grants, and [register] of the reconnected session finds no earlier policy to clear them for. The
    new policy then signs without asking, although the approval was for the connection before it. *)
Theorem stale_window_after_reconnect :
  isLive (demo_policy 1) closed_world = false ∧ p_addr (demo_policy 1) ∈ w_ended closed_world ∧
  isLive (demo_policy 2) reopened_world = true ∧
  (Sign 8 (demo_policy 2) demo_request reopened_world []).1 = Ok demo_signature ∧
  w_log (Sign 8 (demo_policy 2) demo_request reopened_world []).2 = w_log closed_world.
Proof. split; [by vm_compute|]. split; [by apply (bool_decide_eq_true _); vm_compute|]. repeat split; by vm_compute. Qed.


Lemma sign_audited_witness :
  ∃ ev, w_audit (Sign 7 (demo_policy 1) demo_request demo_started (demo_idle 10)).2 = w_audit demo_started ++ [ev].
Proof.
  destruct (sign_audited 7 (demo_policy 1) demo_request demo_started (demo_idle 10) _ _ (surjective_pairing _)) as (ev & H & _).
  exists ev. exact H.
Defined.

Lemma forget_closes_witness : isLive (demo_policy 1) (forget (demo_policy 1) demo_started) = false.
Proof. by apply (forget_closes (demo_policy 1) demo_started
  {| g_SessionID := bytes_of_string "tab"; g_IdentityID := []; g_Destination := [] |}); vm_compute. Defined.

Lemma dead_policy_refuses_witness :
  (Sign 7 (demo_policy 3) demo_request demo_started (demo_idle 10)).1 = Err [ErrAgentSessionEnded].
Proof.
  apply (dead_policy_refuses 7 (demo_policy 3) demo_request demo_started (demo_idle 10)); [by vm_compute|].
  apply Forall_replicate. constructor.
Defined.
