(* ===== verification/AgentConfirm.v ===== *)
(** * AgentConfirm: where a waiting request meets the user's answer

    [internal/usecase/agent_confirm_prompts.go]. The prompts are a map of pending questions, each
    with the channel its answer goes to (a buffer of one). While [Ask] waits, any calls of [Resolve]
    may arrive, for this request or for others, and the timer or the context may end the wait; when
    several cases of its [select] are ready, any is taken. Request ids come from [newRandomID], a
    parameter: an id not in use. *)

From S2P Require Import Prelude Bytes AgentForward AgentPolicy.

Record pendingAgentConfirm := { pc_sessionID : bytes; pc_allowWindow : bool; pc_answer : nat }.

Inductive ui_event := Shown (requestID : bytes) (q : AgentConfirmQuestion) | Dismissed (requestID : bytes).

Record AgentConfirmPrompts := {
  cp_Timeout : Z;
  cp_pending : gmap bytes pendingAgentConfirm;
  cp_chans : gmap nat (list bytes);  (* the buffers of the answer channels *)
  cp_ui : list ui_event;
}.

Definition cp_set_pending (v : gmap bytes pendingAgentConfirm) (p : AgentConfirmPrompts) : AgentConfirmPrompts :=
  {| cp_Timeout := cp_Timeout p; cp_pending := v; cp_chans := cp_chans p; cp_ui := cp_ui p |}.
Definition cp_set_chans (v : gmap nat (list bytes)) (p : AgentConfirmPrompts) : AgentConfirmPrompts :=
  {| cp_Timeout := cp_Timeout p; cp_pending := cp_pending p; cp_chans := v; cp_ui := cp_ui p |}.
Definition cp_show (e : ui_event) (p : AgentConfirmPrompts) : AgentConfirmPrompts :=
  {| cp_Timeout := cp_Timeout p; cp_pending := cp_pending p; cp_chans := cp_chans p; cp_ui := cp_ui p ++ [e] |}.

Definition timeout (p : AgentConfirmPrompts) : Z := if 0 <? cp_Timeout p then cp_Timeout p else ConfirmTimeout.

(** [register], with the id and the channel it makes. *)
Definition register_prompt (requestID : bytes) (ch : nat) (q : AgentConfirmQuestion) (p : AgentConfirmPrompts) : AgentConfirmPrompts :=
  p |> cp_set_chans (<[ch := []]> (cp_chans p))
    |> cp_set_pending (<[requestID := {| pc_sessionID := q_SessionID q; pc_allowWindow := 0 <? q_WindowMinutes q; pc_answer := ch |}]> (cp_pending p)).

Definition forget_prompt (requestID : bytes) (p : AgentConfirmPrompts) : AgentConfirmPrompts :=
  cp_set_pending (delete requestID (cp_pending p)) p.

(** [Resolve]; a send on a full buffer would block, under the lock. *)
Definition Resolve (sessionID requestID d : bytes) (p : AgentConfirmPrompts) : result agent_error unit * AgentConfirmPrompts :=
  if (d <>? AgentAllowOnce) && (d <>? AgentAllowWindow) && (d <>? AgentDeny) then (Err [ErrNoPendingAgentConfirm], p) else
  match cp_pending p !! requestID with
  | None => (Err [ErrNoPendingAgentConfirm], p)
  | Some pending =>
      if pc_sessionID pending <>? sessionID then (Err [ErrNoPendingAgentConfirm], p)
      else if (d =?? AgentAllowWindow) && negb (pc_allowWindow pending) then (Err [ErrNoPendingAgentConfirm], p)
      else
        let buffer := default [] (cp_chans p !! pc_answer pending) in
        let p := forget_prompt requestID p in
        if 1 <=? len buffer then (Err [StillWaiting], p)
        else (Ok (), cp_set_chans (<[pc_answer pending := buffer ++ [d]]> (cp_chans p)) p)
  end.

(** One call of [Resolve] that arrives during a wait. *)
Record call := { c_session : bytes; c_request : bytes; c_decision : bytes }.

(** The calls in order, with their results. *)
Fixpoint resolve_all (calls : list call) (p : AgentConfirmPrompts) : list (call * result agent_error unit) * AgentConfirmPrompts :=
  match calls with
  | [] => ([], p)
  | c :: calls' =>
      let '(res, p1) := Resolve (c_session c) (c_request c) (c_decision c) p in
      let '(rest, p2) := resolve_all calls' p1 in
      ((c, res) :: rest, p2)
  end.

(** [Ask]: show the question, wait, and on every way out forget the prompt before the dialog is told
    to close. [elapsed] is how long the wait lasted, [ctxErr] what ended the context, if anything. *)
Definition Ask (requestID : bytes) (ch : nat) (q : AgentConfirmQuestion) (calls : list call) (elapsed : Z)
    (ctxErr : option agent_error) (pick : nat) (p : AgentConfirmPrompts) :
    (bytes * result agent_error unit) * list (call * result agent_error unit) * AgentConfirmPrompts :=
  let p := p |> register_prompt requestID ch q |> cp_show (Shown requestID q) in
  let '(results, p) := resolve_all calls p in
  let ready := (match cp_chans p !! ch with Some (d :: _) => [(d, Ok ())] | _ => [] end)
               ++ (if timeout p <=? elapsed then [(AgentDeny, Ok ())] else [])
               ++ (match ctxErr with Some e => [(AgentDeny, Err e)] | None => [] end) in
  match ready !! (pick mod length ready)%nat with
  | None => (([], Err [StillWaiting]), results, p)
  | Some answer => (answer, results, p |> forget_prompt requestID |> cp_show (Dismissed requestID))
  end.

(** ** The prompts stay consistent *)

(** Each pending question has a channel of its own, still empty. *)
Record prompts_ok (p : AgentConfirmPrompts) : Prop := {
  po_empty : ∀ id pd, cp_pending p !! id = Some pd → cp_chans p !! pc_answer pd = Some [];
  po_own : ∀ id1 id2 pd1 pd2, cp_pending p !! id1 = Some pd1 → cp_pending p !! id2 = Some pd2 →
    pc_answer pd1 = pc_answer pd2 → id1 = id2;
}.

(** What [Resolve] does when it accepts, and that it leaves everything alone when it does not. *)
Lemma Resolve_spec sid id d p : prompts_ok p →
  (∃ pd, cp_pending p !! id = Some pd ∧ pc_sessionID pd = sid ∧ (d = AgentAllowWindow → pc_allowWindow pd = true) ∧
     (d = AgentAllowOnce ∨ d = AgentAllowWindow ∨ d = AgentDeny) ∧
     Resolve sid id d p = (Ok (), forget_prompt id p |> cp_set_chans (<[pc_answer pd := [d]]> (cp_chans p)))) ∨
  Resolve sid id d p = (Err [ErrNoPendingAgentConfirm], p).
Proof.
  intros [He Ho]. unfold Resolve. destruct (_ && _ && _) eqn:E1; [by right|].
  destruct (cp_pending p !! id) as [pd|] eqn:E2; [|by right].
  destruct (pc_sessionID pd =?? sid) eqn:Hs; cbn [negb]; [apply bool_decide_eq_true in Hs|by right].
  destruct ((d =?? AgentAllowWindow) && negb (pc_allowWindow pd)) eqn:E3; [by right|].
  rewrite (He _ _ E2). cbn. left. exists pd. split; [done|]. split; [done|]. split; [|split; [|done]].
  - intros ->. rewrite bool_decide_eq_true_2 in E3 by done. by destruct (pc_allowWindow pd).
  - apply andb_false_iff in E1 as [[E1|E1]%andb_false_iff|E1]; bool_simpl; auto.
Qed.

Lemma Resolve_ok sid id d p : prompts_ok p → prompts_ok (Resolve sid id d p).2.
Proof.
  intros Hp. destruct (Resolve_spec sid id d p Hp) as [(pd & Hpd & _ & _ & _ & ->)| ->]; [|done].
  destruct Hp as [He Ho]. split; cbn.
  - intros id' pd' [Hne Hl]%lookup_delete_Some. rewrite lookup_insert. case_decide as Hch; [|eauto].
    destruct Hne. eauto.
  - intros id1 id2 pd1 pd2 [_ H1]%lookup_delete_Some [_ H2]%lookup_delete_Some. eauto.
Qed.

Lemma register_ok id ch q p : prompts_ok p → cp_pending p !! id = None →
  (∀ id' pd, cp_pending p !! id' = Some pd → pc_answer pd ≠ ch) → prompts_ok (register_prompt id ch q p).
Proof.
  intros [He Ho] Hid Hch. split; cbn.
  - intros id' pd. rewrite !lookup_insert. case_decide; [intros [= <-]; cbn; by rewrite decide_True|].
    intros Hl. rewrite decide_False by (intros Heq; by eapply Hch). eauto.
  - intros id1 id2 pd1 pd2. rewrite !lookup_insert. repeat case_decide; intros; simplify_eq/=; eauto.
    + exfalso. by eapply Hch.
    + exfalso. by eapply Hch.
Qed.

(** ** One question, one answer *)

(** The state of the question [q] asked as [id] on [ch]: not answered yet, or answered by one call. *)
Definition waiting (id : bytes) (ch : nat) (q : AgentConfirmQuestion) (p : AgentConfirmPrompts) : Prop :=
  cp_pending p !! id = Some {| pc_sessionID := q_SessionID q; pc_allowWindow := 0 <? q_WindowMinutes q; pc_answer := ch |}.
Definition resolved (id : bytes) (ch : nat) (d : bytes) (p : AgentConfirmPrompts) : Prop :=
  cp_pending p !! id = None ∧ cp_chans p !! ch = Some [d] ∧
  ∀ id' pd, cp_pending p !! id' = Some pd → pc_answer pd ≠ ch.

#[export] Instance unit_result_eq_dec : EqDecision (result agent_error unit).
Proof. solve_decision. Defined.

(** The calls that were accepted for [id]. *)
Definition accepted (id : bytes) (results : list (call * result agent_error unit)) : list call :=
  fst <$> filter (λ cr, c_request cr.1 = id ∧ cr.2 = Ok ()) results.

Lemma resolved_stays id ch d calls p results p' : prompts_ok p → resolved id ch d p →
  resolve_all calls p = (results, p') → resolved id ch d p' ∧ prompts_ok p' ∧ accepted id results = [].
Proof.
  revert p results. induction calls as [|c calls IH]; intros p results Hp Hr; cbn [resolve_all]; [by intros [= <- <-]|].
  destruct (Resolve _ _ _ p) as [res p1] eqn:E. destruct (resolve_all calls p1) as [rest p2] eqn:Er. intros [= <- <-].
  pose proof (Resolve_ok (c_session c) (c_request c) (c_decision c) p Hp) as Hp1. rewrite E in Hp1. cbn in Hp1.
  destruct Hr as (Hid & Hch & Hown).
  assert (resolved id ch d p1 ∧ (c_request c = id → res ≠ Ok ())) as [Hr1 Hne].
  { destruct (Resolve_spec (c_session c) (c_request c) (c_decision c) p Hp) as [(pd & Hpd & _ & _ & _ & E')|E'];
      rewrite E in E'; injection E' as -> ->; [|by split].
    split; [|congruence]. split; [|split]; cbn.
    - rewrite lookup_delete. by destruct (decide _).
    - rewrite lookup_insert. destruct (decide _) as [Heq|]; [by destruct (Hown _ _ Hpd)|done].
    - intros id' pd' [_ Hl]%lookup_delete_Some. by eapply Hown. }
  destruct (IH _ _ Hp1 Hr1 Er) as (? & ? & Ha). split; [done|]. split; [done|].
  unfold accepted in *. rewrite filter_cons. cbn. rewrite decide_False; [done|]. by intros [? ?]; apply Hne.
Qed.

Lemma waiting_resolves id ch q calls p results p' : prompts_ok p → waiting id ch q p →
  resolve_all calls p = (results, p') → prompts_ok p' ∧
  (waiting id ch q p' ∧ accepted id results = [] ∨
   ∃ c, accepted id results = [c] ∧ resolved id ch (c_decision c) p' ∧ c_session c = q_SessionID q ∧
     (c_decision c = AgentAllowWindow → 0 < q_WindowMinutes q)).
Proof.
  revert p results. induction calls as [|c calls IH]; intros p results Hp Hw; cbn [resolve_all]; [intros [= <- <-]; auto|].
  destruct (Resolve _ _ _ p) as [res p1] eqn:E. destruct (resolve_all calls p1) as [rest p2] eqn:Er. intros [= <- <-].
  pose proof (Resolve_ok (c_session c) (c_request c) (c_decision c) p Hp) as Hp1. rewrite E in Hp1. cbn in Hp1.
  destruct (Resolve_spec (c_session c) (c_request c) (c_decision c) p Hp) as [(pd & Hpd & Hs & Hwin & _ & E')|E'];
    rewrite E in E'; injection E' as -> ->.
  - destruct (decide (c_request c = id)) as [Hid|Hid].
    + unfold waiting in Hw. rewrite <- Hid in Hw. rewrite Hw in Hpd. injection Hpd as <-. cbn in Hs, Hwin.
      destruct (resolved_stays id ch (c_decision c) calls _ rest p2 Hp1) as (Hr & Hp2 & Ha); [|done|].
      * split; [|split]; cbn; [rewrite Hid; apply lookup_delete_eq|apply lookup_insert_eq|].
        intros id' pd' [Hne Hl]%lookup_delete_Some Heq. destruct Hne. by eapply (po_own _ Hp _ _ _ _ Hw Hl).
      * split; [done|]. right. exists c. unfold accepted in *. rewrite filter_cons. cbn. rewrite decide_True by done.
        cbn. rewrite Ha. split; [done|]. split; [done|]. split; [done|]. intros Hd. apply Z.ltb_lt. by apply Hwin.
    + destruct (IH _ rest Hp1) as [Hp2 Hcase]; [|done|].
      * unfold waiting in *. cbn. by rewrite lookup_delete_ne.
      * split; [done|]. unfold accepted in *. rewrite filter_cons. cbn. rewrite decide_False by (by intros [? _]). done.
  - destruct (IH _ rest Hp Hw) as [Hp2 Hcase]; [done|]. split; [done|].
    unfold accepted in *. rewrite filter_cons. cbn. rewrite decide_False by (by intros [_ ?]). done.
Qed.

(** An approval that [Ask] returns was given by exactly one call, which named this request and its
    session, and a window only where the question offered one. Without such a call it is a denial.
    When [Ask] has returned, the request is forgotten: no later call is accepted for it. *)
Theorem Ask_answer id ch q calls elapsed ctxErr pick p d err results p' :
  prompts_ok p → cp_pending p !! id = None → (∀ id' pd, cp_pending p !! id' = Some pd → pc_answer pd ≠ ch) →
  Ask id ch q calls elapsed ctxErr pick p = ((d, err), results, p') → err ≠ Err [StillWaiting] →
  prompts_ok p' ∧ (∀ sid d', (Resolve sid id d' p').1 = Err [ErrNoPendingAgentConfirm]) ∧
  (length (accepted id results) ≤ 1)%nat ∧
  (d = AgentDeny ∨ err = Ok () ∧ ∃ c, accepted id results = [c] ∧ c_session c = q_SessionID q ∧ c_decision c = d ∧
     (d = AgentAllowWindow → 0 < q_WindowMinutes q)).
Proof.
  intros Hp Hid Hch. unfold Ask. set (p0 := cp_show _ _).
  assert (prompts_ok p0) as Hp0 by (destruct (register_ok id ch q p Hp Hid Hch) as [? ?]; by split).
  assert (waiting id ch q p0) as Hw by apply lookup_insert_eq.
  destruct (resolve_all calls p0) as [rs p1] eqn:Er.
  destruct (waiting_resolves _ _ _ _ _ _ _ Hp0 Hw Er) as [Hp1 Hcase].
  set (ready := _ ++ _ ++ _). destruct (ready !! _) as [[d0 err0]|] eqn:Epick; intros [= <- <- <- <-] Hne; [|done].
  assert (cp_pending (forget_prompt id p1) !! id = None) as Hf by apply lookup_delete_eq.
  split; [|split; [|split]].
  - destruct Hp1 as [He Ho]. split; cbn.
    + intros id' pd [_ Hl]%lookup_delete_Some. eauto.
    + intros id1 id2 pd1 pd2 [_ H1]%lookup_delete_Some [_ H2]%lookup_delete_Some. eauto.
  - intros sid d'. unfold Resolve. case_match; [done|]. by rewrite (Hf : cp_pending (cp_show _ _) !! id = None).
  - destruct Hcase as [[_ ->]|(c & -> & _)]; cbn; lia.
  - apply list_elem_of_lookup_2 in Epick. unfold ready in Epick. rewrite !elem_of_app in Epick.
    destruct Epick as [Hin|[Hin|Hin]].
    + destruct Hcase as [[Hw1 _]|(c & Ha & Hr & Hs & Hm)].
      * pose proof (po_empty _ Hp1 _ _ Hw1) as Hempty. cbn in Hempty. rewrite Hempty in Hin. by apply elem_of_nil in Hin.
      * destruct Hr as (_ & Hch1 & _). rewrite Hch1 in Hin. apply list_elem_of_singleton in Hin as [= -> ->].
        right. split; [done|]. by exists c.
    + left. case_match; [|by apply elem_of_nil in Hin]. by apply list_elem_of_singleton in Hin as [= -> ->].
    + left. case_match; [|by apply elem_of_nil in Hin]. by apply list_elem_of_singleton in Hin as [= -> ->].
Qed.

(** ** An example: a wrong session is turned away, the right one answers, a second answer is refused *)

Definition ex_prompts : AgentConfirmPrompts := {| cp_Timeout := 0; cp_pending := ∅; cp_chans := ∅; cp_ui := [] |}.
Definition ex_question : AgentConfirmQuestion := {|
  q_SessionID := bytes_of_string "tab"; q_ConnectionName := []; q_Host := []; q_KeyLabel := []; q_KeyFingerprint := [];
  q_RemoteUser := []; q_WindowMinutes := 0;
  q_Destination := {| dv_Verified := false; dv_Fingerprint := []; dv_KnownAs := []; dv_ForwardsFurther := false |} |}.
Definition ex_id : bytes := bytes_of_string "ag-1".
Definition ex_call (session decision : bytes) : call := {| c_session := session; c_request := ex_id; c_decision := decision |}.
Definition ex_calls : list call :=
  [ex_call (bytes_of_string "other") AgentAllowOnce; ex_call (bytes_of_string "tab") AgentAllowWindow;
   ex_call (bytes_of_string "tab") AgentAllowOnce; ex_call (bytes_of_string "tab") AgentDeny].

Lemma ex_asked : (Ask ex_id 1 ex_question ex_calls 0 None 0 ex_prompts).1 =
  ((AgentAllowOnce, Ok ()), zip ex_calls [Err [ErrNoPendingAgentConfirm]; Err [ErrNoPendingAgentConfirm]; Ok (); Err [ErrNoPendingAgentConfirm]]).
Proof. vm_compute. reflexivity. Qed.

Lemma ex_pending id : cp_pending ex_prompts !! id = None.
Proof. apply lookup_empty. Qed.

Lemma ex_prompts_ok : prompts_ok ex_prompts.
Proof.
  split; [intros id pd H|intros id1 id2 pd1 pd2 H]; by rewrite ex_pending in H.
Qed.

Lemma Ask_answer_witness : prompts_ok (Ask ex_id 1 ex_question ex_calls 0 None 0 ex_prompts).2.
Proof.
  refine (proj1 (Ask_answer ex_id 1 ex_question ex_calls 0 None 0 ex_prompts AgentAllowOnce (Ok ()) _ _ ex_prompts_ok
    (ex_pending ex_id) _ _ _)).
  - intros id' pd H. by rewrite ex_pending in H.
  - rewrite (surjective_pairing (Ask _ _ _ _ _ _ _ _)) at 1. rewrite ex_asked. reflexivity.
  - discriminate.
Defined.
