(* ===== verification/WriteQueue.v ===== *)
(** * WriteQueue: the server's writers, one at a time and in order

    [internal/syncserver/store/writequeue.go]. A call of [acquire] is a number, which also stands for
    the channel it makes; [close(next)] adds the channel to the closed ones. Each critical section
    under [q.mu] and each choice of the [select] is one step; between two steps any other call may
    run, so a turn can be handed to a call whose context has just ended. *)

From S2P Require Import Prelude.

(** ** The queue *)

Record writeQueue := { wq_held : bool; wq_waiters : list nat }.

(** Where a call of [acquire] is: before the [select], past its [ctx.Done()] case but not yet under
    the lock again, returned with the turn, or returned for good (after [release], or with an error). *)
Inductive phase := Waiting | GivingUp | Holding | Gone.

#[export] Instance phase_eq_dec : EqDecision phase.
Proof. solve_decision. Defined.

(** The queue, the closed channels, where every call is, and two ghosts: the calls in the order they
    asked, and in the order they were given the turn. *)
Record QState := {
  qs_q : writeQueue;
  qs_closed : gset nat;
  qs_phase : gmap nat phase;
  qs_asked : list nat;
  qs_served : list nat;
}.

Definition newQueue : QState :=
  {| qs_q := {| wq_held := false; wq_waiters := [] |}; qs_closed := ∅; qs_phase := ∅; qs_asked := []; qs_served := [] |}.

Definition set_phase (t : nat) (ph : phase) (s : QState) : QState :=
  {| qs_q := qs_q s; qs_closed := qs_closed s; qs_phase := <[t := ph]> (qs_phase s); qs_asked := qs_asked s;
     qs_served := qs_served s |}.

(** [handOffLocked]. *)
Definition handOffLocked (s : QState) : QState :=
  match wq_waiters (qs_q s) with
  | [] => {| qs_q := {| wq_held := false; wq_waiters := [] |}; qs_closed := qs_closed s; qs_phase := qs_phase s;
             qs_asked := qs_asked s; qs_served := qs_served s |}
  | next :: rest =>
      {| qs_q := {| wq_held := wq_held (qs_q s); wq_waiters := rest |}; qs_closed := {[next]} ∪ qs_closed s;
         qs_phase := qs_phase s; qs_asked := qs_asked s; qs_served := qs_served s ++ [next] |}
  end.

(** The first critical section of [acquire]. *)
Definition acquire_start (t : nat) (s : QState) : QState :=
  if negb (wq_held (qs_q s)) then
    {| qs_q := {| wq_held := true; wq_waiters := wq_waiters (qs_q s) |}; qs_closed := qs_closed s;
       qs_phase := <[t := Holding]> (qs_phase s); qs_asked := qs_asked s ++ [t]; qs_served := qs_served s ++ [t] |}
  else
    {| qs_q := {| wq_held := true; wq_waiters := wq_waiters (qs_q s) ++ [t] |}; qs_closed := qs_closed s;
       qs_phase := <[t := Waiting]> (qs_phase s); qs_asked := qs_asked s ++ [t]; qs_served := qs_served s |}.

(** The critical section of the [ctx.Done()] case: leave the line, or pass on a turn just received. *)
Definition acquire_cancel (t : nat) (s : QState) : QState :=
  match list_find (λ u, u = t) (wq_waiters (qs_q s)) with
  | Some (i, _) =>
      set_phase t Gone {| qs_q := {| wq_held := wq_held (qs_q s); wq_waiters := delete i (wq_waiters (qs_q s)) |};
        qs_closed := qs_closed s; qs_phase := qs_phase s; qs_asked := qs_asked s; qs_served := qs_served s |}
  | None => set_phase t Gone (handOffLocked s)
  end.

Definition release (t : nat) (s : QState) : QState := set_phase t Gone (handOffLocked s).

(** ** Steps *)

Inductive event :=
  | Asks (t : nat)  (* [acquire] is called *)
  | GetsTurn (t : nat)  (* [case <-turn] *)
  | CtxEnds (t : nat)  (* [case <-ctx.Done()] *)
  | Leaves (t : nat)  (* the rest of that case *)
  | Releases (t : nat).

Definition step (s : QState) (e : event) : option QState :=
  match e with
  | Asks t => if qs_phase s !! t is None then Some (acquire_start t s) else None
  | GetsTurn t => if bool_decide (qs_phase s !! t = Some Waiting) && bool_decide (t ∈ qs_closed s)
                  then Some (set_phase t Holding s) else None
  | CtxEnds t => if bool_decide (qs_phase s !! t = Some Waiting) then Some (set_phase t GivingUp s) else None
  | Leaves t => if bool_decide (qs_phase s !! t = Some GivingUp) then Some (acquire_cancel t s) else None
  | Releases t => if bool_decide (qs_phase s !! t = Some Holding) then Some (release t s) else None
  end.

Fixpoint run (s : QState) (es : list event) : option QState :=
  match es with [] => Some s | e :: es' => match step s e with Some s' => run s' es' | None => None end end.

Definition reachable (s : QState) : Prop := ∃ es, run newQueue es = Some s.

(** ** The invariant *)

(** Call [t] has the turn: it returned with it, or it was handed to it and it has not looked yet. *)
Definition owns (s : QState) (t : nat) : Prop :=
  qs_phase s !! t = Some Holding ∨
  (t ∈ qs_closed s ∧ (qs_phase s !! t = Some Waiting ∨ qs_phase s !! t = Some GivingUp)).

Definition in_line (s : QState) (t : nat) : Prop := qs_phase s !! t = Some Waiting ∨ qs_phase s !! t = Some GivingUp.

Record queue_inv (s : QState) : Prop := {
  qi_one : ∀ t u, owns s t → owns s u → t = u;
  qi_held : wq_held (qs_q s) = true → ∃ t, owns s t;
  qi_free : wq_held (qs_q s) = false → wq_waiters (qs_q s) = [] ∧ ∀ t, ¬ owns s t;
  qi_nodup : NoDup (wq_waiters (qs_q s));
  qi_line : ∀ t, t ∈ wq_waiters (qs_q s) ↔ in_line s t ∧ t ∉ qs_closed s;
  qi_closed : ∀ t, t ∈ qs_closed s → is_Some (qs_phase s !! t);
  qi_order : qs_served s ++ wq_waiters (qs_q s) `sublist_of` qs_asked s;
}.

Lemma queue_inv_new : queue_inv newQueue.
Proof.
  assert (∀ t, ¬ owns newQueue t) as Hno by (intros t [H|[H _]]; [discriminate H|set_solver]).
  split; [by intros t u []%Hno|done|done|constructor| |set_solver|done].
  intros t. split; [set_solver|]. intros [[H|H] _]; discriminate H.
Qed.

(** Taking one element out of a list without duplicates. *)
Lemma delete_found (l : list nat) t i u : list_find (λ u, u = t) l = Some (i, u) →
  ∃ l1 l2, l = l1 ++ t :: l2 ∧ delete i l = l1 ++ l2.
Proof.
  intros (Hi & -> & _)%list_find_Some. exists (take i l), (drop (S i) l). split; [by rewrite take_drop_middle|].
  apply delete_take_drop.
Qed.

Lemma owns_phase s t ph u : owns (set_phase t ph s) u ↔
  if decide (u = t) then ph = Holding ∨ (t ∈ qs_closed s ∧ (ph = Waiting ∨ ph = GivingUp)) else owns s u.
Proof.
  unfold owns. cbn. destruct (decide (u = t)) as [->|Hne].
  - rewrite lookup_insert_eq. naive_solver.
  - by rewrite lookup_insert_ne.
Qed.

(** When nobody owns the turn that the queue still marks as held, handing it off restores the
    invariant: the first in line owns it, or nobody does and the queue is free. *)
Record turn_free (s : QState) : Prop := {
  tf_none : ∀ t, ¬ owns s t;
  tf_held : wq_held (qs_q s) = true;
  tf_nodup : NoDup (wq_waiters (qs_q s));
  tf_line : ∀ t, t ∈ wq_waiters (qs_q s) ↔ in_line s t ∧ t ∉ qs_closed s;
  tf_closed : ∀ t, t ∈ qs_closed s → is_Some (qs_phase s !! t);
  tf_order : qs_served s ++ wq_waiters (qs_q s) `sublist_of` qs_asked s;
}.

Lemma handOff_inv s : turn_free s → queue_inv (handOffLocked s).
Proof.
  intros [Hno Hh Hd Hl Hc Ho]. unfold handOffLocked. destruct (wq_waiters (qs_q s)) as [|next rest] eqn:E.
  - split; [by intros t u []%Hno|done|by split|constructor|done|done|done].
  - assert (in_line s next ∧ next ∉ qs_closed s) as [Hin Hnc] by (apply Hl; by left).
    apply NoDup_cons in Hd as [Hnr Hd].
    assert (∀ t, owns {| qs_q := {| wq_held := wq_held (qs_q s); wq_waiters := rest |}; qs_closed := {[next]} ∪ qs_closed s;
      qs_phase := qs_phase s; qs_asked := qs_asked s; qs_served := qs_served s ++ [next] |} t → t = next) as Hone.
    { intros t [H|[[->%elem_of_singleton|H]%elem_of_union Hp]]; cbn in *; [|done|].
      - destruct (Hno t). by left.
      - destruct (Hno t). by right. }
    split; cbn; [| |congruence|done| | |by rewrite <- app_assoc].
    + intros t u Ht%Hone Hu%Hone. congruence.
    + intros _. exists next. right. cbn. split; [set_solver|done].
    + intros t. specialize (Hl t). rewrite elem_of_cons in Hl. split.
      * intros Ht. destruct (proj1 Hl (or_intror Ht)). split; [done|]. intros [->%elem_of_singleton|?]%elem_of_union; done.
      * intros [Hp Hn]. destruct (proj2 Hl) as [->|]; [|set_solver|done]. split; [done|set_solver].
    + intros t [->%elem_of_singleton|?]%elem_of_union; [|auto]. destruct Hin as [H|H]; by rewrite H.
Qed.

Lemma in_line_phase s t ph u : in_line (set_phase t ph s) u ↔
  if decide (u = t) then ph = Waiting ∨ ph = GivingUp else in_line s u.
Proof.
  unfold in_line. cbn. destruct (decide (u = t)) as [->|Hne].
  - rewrite lookup_insert_eq. naive_solver.
  - by rewrite lookup_insert_ne.
Qed.

Lemma phase_is_some s t ph u : is_Some (qs_phase s !! u) → is_Some (qs_phase (set_phase t ph s) !! u).
Proof. cbn. rewrite lookup_insert. by destruct (decide _). Qed.

Lemma set_phase_handOff t ph s : set_phase t ph (handOffLocked s) = handOffLocked (set_phase t ph s).
Proof. unfold handOffLocked. cbn. by destruct (wq_waiters (qs_q s)). Qed.

(** The owner leaves: the turn is free to hand off. *)
Lemma leave_free s t : queue_inv s → owns s t → turn_free (set_phase t Gone s).
Proof.
  intros [Hone Hh Hf Hd Hl Hc Ho] Ht. split; cbn [qs_q qs_closed set_phase qs_served qs_asked]; [| |done| | |done].
  - intros u. rewrite owns_phase. destruct (decide (u = t)) as [->|Hne]; [naive_solver|]. intros Hu. by destruct Hne; apply Hone.
  - destruct (wq_held (qs_q s)); [done|]. by destruct (Hf eq_refl) as [_ []%(λ H, H t)].
  - intros u. rewrite Hl, in_line_phase. destruct (decide (u = t)) as [->|Hne]; [|done]. split; [|naive_solver].
    intros [Hin Hn]. exfalso. destruct Ht as [Ht|[? _]]; [|done]. destruct Hin as [Hin|Hin]; congruence.
  - intros u Hu. by apply phase_is_some, Hc.
Qed.

(** A call moves on without giving up or taking the turn from anyone. *)
Lemma move_inv s t ph ph' : queue_inv s → qs_phase s !! t = Some ph →
  (owns s t ↔ owns (set_phase t ph' s) t) → (t ∈ qs_closed s ∨ (in_line s t ↔ in_line (set_phase t ph' s) t)) →
  queue_inv (set_phase t ph' s).
Proof.
  intros [Hone Hh Hf Hd Hl Hc Ho] Ht Hown Hline.
  assert (∀ u, owns (set_phase t ph' s) u ↔ owns s u) as Heq.
  { intros u. destruct (decide (u = t)) as [->|Hne]; [tauto|]. rewrite owns_phase. by rewrite decide_False. }
  split; cbn [qs_q qs_closed set_phase qs_served qs_asked]; [| | |done| | |done].
  - intros u v. rewrite !Heq. auto.
  - intros H. destruct (Hh H) as [u Hu]. exists u. by apply Heq.
  - intros H. destruct (Hf H) as [? Hn]. split; [done|]. intros u. rewrite Heq. auto.
  - intros u. rewrite Hl. destruct (decide (u = t)) as [->|Hne]; [destruct Hline; tauto|].
    rewrite in_line_phase. by rewrite decide_False.
  - intros u Hu. by apply phase_is_some, Hc.
Qed.

Lemma asks_inv s t : queue_inv s → qs_phase s !! t = None → queue_inv (acquire_start t s).
Proof.
  intros [Hone Hh Hf Hd Hl Hc Ho] Ht. unfold acquire_start.
  assert (t ∉ wq_waiters (qs_q s)) as Hnw by (rewrite Hl; intros [[H|H] _]; congruence).
  assert (t ∉ qs_closed s) as Hnc by (intros [? ?]%Hc; congruence).
  assert (∀ ph q a b u, u ≠ t → owns {| qs_q := q; qs_closed := qs_closed s; qs_phase := <[t := ph]> (qs_phase s); qs_asked := a;
    qs_served := b |} u ↔ owns s u) as Hoth by (intros; unfold owns; cbn; by rewrite lookup_insert_ne).
  assert (∀ ph q a b u, u ≠ t → in_line {| qs_q := q; qs_closed := qs_closed s; qs_phase := <[t := ph]> (qs_phase s); qs_asked := a;
    qs_served := b |} u ↔ in_line s u) as Hlin by (intros; unfold in_line; cbn; by rewrite lookup_insert_ne).
  assert (∀ ph u, u ∈ qs_closed s → is_Some (<[t := ph]> (qs_phase s) !! u)) as Hcl.
  { intros ph u Hu. rewrite lookup_insert_ne by (by intros ->). auto. }
  destruct (wq_held (qs_q s)) eqn:Eh; cbn [negb].
  - split; cbn [qs_q qs_closed qs_phase qs_served qs_asked wq_held wq_waiters]; [| |done| | |eauto|].
    + intros u v Hu Hv. assert (u ≠ t ∧ v ≠ t) as [? ?].
      { split; intros ->; [destruct Hu as [H|[H _]]|destruct Hv as [H|[H _]]]; try done;
          cbn in H; by rewrite lookup_insert_eq in H. }
      apply Hoth in Hu, Hv; auto.
    + intros _. destruct (Hh eq_refl) as [u Hu]. exists u. apply Hoth; [|done]. intros ->.
      destruct Hu as [H|[H _]]; congruence.
    + apply NoDup_app. split; [done|]. split; [set_solver|apply NoDup_singleton].
    + intros u. rewrite elem_of_app, list_elem_of_singleton. destruct (decide (u = t)) as [->|Hne].
      * split; [intros _|by right]. split; [left; apply lookup_insert_eq|done].
      * rewrite Hlin, Hl by done. tauto.
    + rewrite app_assoc. by apply sublist_app.
  - destruct (Hf eq_refl) as [Hw Hno]. rewrite Hw in *.
    split; cbn [qs_q qs_closed qs_phase qs_served qs_asked wq_held wq_waiters]; [| |done|constructor| |eauto|].
    + intros u v Hu Hv. transitivity t.
      * destruct (decide (u = t)); [done|]. apply Hoth in Hu; [|done]. by destruct (Hno u).
      * destruct (decide (v = t)); [done|]. apply Hoth in Hv; [|done]. by destruct (Hno v).
    + intros _. exists t. left. apply lookup_insert_eq.
    + intros u. split; [set_solver|]. intros [Hin Hn]. exfalso. destruct (decide (u = t)) as [->|Hne].
      * destruct Hin as [H|H]; cbn in H; rewrite lookup_insert_eq in H; done.
      * apply Hlin in Hin; [|done]. by apply (elem_of_nil u), Hl.
    + rewrite app_nil_r in *. by apply sublist_app.
Qed.

Lemma cancel_waiting_inv s t i u : queue_inv s → in_line s t → list_find (λ u, u = t) (wq_waiters (qs_q s)) = Some (i, u) →
  queue_inv (acquire_cancel t s).
Proof.
  intros [Hone Hh Hf Hd Hl Hc Ho] Ht E. unfold acquire_cancel. rewrite E.
  destruct (delete_found _ _ _ _ E) as (l1 & l2 & Hw & ->). rewrite Hw in *.
  assert (t ∉ qs_closed s) as Hnc by (apply Hl; set_solver).
  assert (¬ owns s t) as Hnt by (intros [H|[? _]]; [destruct Ht as [?|?]; congruence|done]).
  assert (t ∉ l1 ++ l2 ∧ NoDup (l1 ++ l2)) as [Hnin Hd'].
  { apply NoDup_cons. by rewrite Permutation_middle. }
  set (s1 := {| qs_q := {| wq_held := wq_held (qs_q s); wq_waiters := l1 ++ l2 |}; qs_closed := qs_closed s;
    qs_phase := qs_phase s; qs_asked := qs_asked s; qs_served := qs_served s |}).
  assert (∀ v, owns (set_phase t Gone s1) v ↔ owns s v) as Heq.
  { intros v. rewrite owns_phase. destruct (decide (v = t)) as [->|]; [|done]. cbn. split; [naive_solver|done]. }
  split; cbn [qs_q qs_closed set_phase qs_served qs_asked s1 wq_held wq_waiters]; [| | |done| | |].
  - intros v w. rewrite !Heq. auto.
  - intros H. destruct (Hh H) as [v Hv]. exists v. by apply Heq.
  - intros H. destruct (Hf H) as [Hnil _]. by destruct l1.
  - intros v. rewrite in_line_phase. specialize (Hl v). destruct (decide (v = t)) as [->|Hne]; [naive_solver|].
    change (in_line s1 v) with (in_line s v). rewrite <- Hl. set_solver.
  - intros v Hv. by apply phase_is_some, Hc.
  - etrans; [|exact Ho]. apply sublist_app; [done|]. apply sublist_app; [done|]. by apply sublist_cons.
Qed.

(** The steps on which the turn passes on. *)
Lemma step_inv s e s' : queue_inv s → step s e = Some s' → queue_inv s'.
Proof.
  intros Hi. destruct e as [t|t|t|t|t]; cbn [step].
  - destruct (qs_phase s !! t) eqn:E; [done|]. intros [= <-]. by apply asks_inv.
  - destruct (_ && _) eqn:E; [|done]. intros [= <-]. bool_simpl. eapply move_inv; [done..| |].
    + rewrite owns_phase, decide_True by done. unfold owns. split; [by left|right; auto].
    + by left.
  - case_bool_decide as E; [|done]. intros [= <-]. eapply move_inv; [done..| |].
    + rewrite owns_phase, decide_True by done. unfold owns. rewrite E. naive_solver.
    + right. rewrite in_line_phase, decide_True by done. unfold in_line. rewrite E. naive_solver.
  - case_bool_decide as E; [|done]. intros [= <-].
    destruct (list_find (λ u, u = t) (wq_waiters (qs_q s))) as [[i u]|] eqn:Ef.
    + eapply cancel_waiting_inv; [done|by right|done].
    + unfold acquire_cancel. rewrite Ef, set_phase_handOff. apply handOff_inv, leave_free; [done|].
      right. split; [|by right]. destruct (decide (t ∈ qs_closed s)) as [|Hn]; [done|].
      eapply list_find_None, Forall_forall in Ef; [done|]. apply (qi_line _ Hi). split; [by right|done].
  - case_bool_decide as E; [|done]. intros [= <-]. unfold release. rewrite set_phase_handOff.
    apply handOff_inv, leave_free; [done|by left].
Qed.

Lemma run_inv es s s' : queue_inv s → run s es = Some s' → queue_inv s'.
Proof.
  revert s. induction es as [|e es IH]; intros s Hi; cbn; [by intros [= <-]|].
  destruct (step s e) as [s1|] eqn:E; [|done]. apply IH. by eapply step_inv.
Qed.

Lemma reachable_inv s : reachable s → queue_inv s.
Proof. intros [es H]. eapply run_inv; [apply queue_inv_new|done]. Qed.


(** ** No turn is lost, and nobody waits for more turns than there were callers ahead *)

Lemma handOff_cases s : (wq_waiters (qs_q s) = [] ∧ qs_served (handOffLocked s) = qs_served s) ∨
  ∃ next rest, wq_waiters (qs_q s) = next :: rest ∧ wq_waiters (qs_q (handOffLocked s)) = rest ∧
    qs_served (handOffLocked s) = qs_served s ++ [next].
Proof. unfold handOffLocked. destruct (wq_waiters (qs_q s)) as [|next rest]; [by left|]. right. by exists next, rest. Qed.

(** What a step of the others does to a call at place [k]: nothing, one place forward, or its turn. *)
Definition advanced (t k : nat) (s s' : QState) : Prop :=
  (∃ k', (k' ≤ k)%nat ∧ wq_waiters (qs_q s') !! k' = Some t ∧ qs_served s' = qs_served s) ∨
  (∃ x, qs_served s' = qs_served s ++ [x] ∧ (x = t ∨ ∃ k', (S k' ≤ k)%nat ∧ wq_waiters (qs_q s') !! k' = Some t)).

Lemma handOff_advanced s t k : wq_waiters (qs_q s) !! k = Some t → advanced t k s (handOffLocked s).
Proof.
  intros Hk. destruct (handOff_cases s) as [[Hw _]|(next & rest & Hw & Hr & Hs)]; [by rewrite Hw in Hk|].
  right. exists next. split; [done|]. rewrite Hw in Hk. destruct k as [|k]; simplify_eq/=; [by left|].
  right. exists k. split; [lia|done].
Qed.

Lemma advanced_phase u ph t k s s' : advanced t k s s' → advanced t k s (set_phase u ph s').
Proof. done. Qed.

Lemma step_advanced s e s' t k : queue_inv s → step s e = Some s' → wq_waiters (qs_q s) !! k = Some t →
  qs_phase s !! t = Some Waiting → e ≠ CtxEnds t →
  advanced t k s s' ∧ (t ∈ wq_waiters (qs_q s') → qs_phase s' !! t = Some Waiting).
Proof.
  intros Hi Hs Hk Hp He.
  assert (t ∈ wq_waiters (qs_q s)) as Hin by by eapply list_elem_of_lookup_2.
  assert (t ∉ qs_closed s) as Hnc by by apply (qi_line _ Hi).
  destruct e as [u|u|u|u|u]; cbn [step] in Hs.
  - destruct (qs_phase s !! u) eqn:E; [done|]. injection Hs as <-. unfold acquire_start.
    destruct (wq_held (qs_q s)) eqn:Eh; cbn.
    + split; [|rewrite lookup_insert_ne by congruence; done]. left. exists k. split; [done|]. split; [|done]. by apply lookup_app_l_Some.
    + destruct (qi_free _ Hi Eh) as [Hw _]. by rewrite Hw in Hk.
  - destruct (_ && _) eqn:E; [|done]. injection Hs as <-. bool_simpl. split; [left; by exists k|].
    cbn. rewrite lookup_insert_ne by congruence. done.
  - case_bool_decide as E; [|done]. injection Hs as <-. split; [left; by exists k|].
    cbn. rewrite lookup_insert_ne by congruence. done.
  - case_bool_decide as E; [|done]. injection Hs as <-. unfold acquire_cancel.
    destruct (list_find (λ v, v = u) (wq_waiters (qs_q s))) as [[i v]|] eqn:Ef.
    + split; [|cbn; rewrite lookup_insert_ne by congruence; done]. left.
      apply list_find_Some in Ef as (Hiu & -> & _). cbn.
      destruct (decide (i < k)%nat) as [Hlt|Hge].
      * exists (pred k). split; [lia|]. split; [|done]. rewrite list_lookup_delete_ge by lia. by replace (S (pred k)) with k by lia.
      * exists k. split; [done|]. split; [|done]. rewrite list_lookup_delete_lt; [done|].
        assert (i ≠ k) by congruence. lia.
    + split; [by apply advanced_phase, handOff_advanced|]. rewrite set_phase_handOff. intros _.
      unfold handOffLocked. cbn. destruct (wq_waiters (qs_q s)); cbn; rewrite lookup_insert_ne by congruence; done.
  - case_bool_decide as E; [|done]. injection Hs as <-. unfold release.
    split; [by apply advanced_phase, handOff_advanced|]. rewrite set_phase_handOff. intros _.
    unfold handOffLocked. cbn. destruct (wq_waiters (qs_q s)); cbn; rewrite lookup_insert_ne by congruence; done.
Qed.

Lemma served_grows s e s' : step s e = Some s' → qs_served s `prefix_of` qs_served s'.
Proof.
  assert (∀ s, qs_served s `prefix_of` qs_served (handOffLocked s)) as Hh.
  { intros s0. destruct (handOff_cases s0) as [[_ ->]|(? & ? & _ & _ & ->)]; [done|by apply prefix_app_r]. }
  destruct e as [t|t|t|t|t]; cbn [step]; (case_match; [|done]) || (case_match; [done|]); intros [= <-]; [|done|done| |apply Hh].
  - unfold acquire_start. case_match; [by apply prefix_app_r|done].
  - unfold acquire_cancel. repeat case_match; [done|apply Hh].
Qed.

Lemma run_served es s s' : run s es = Some s' → qs_served s `prefix_of` qs_served s'.
Proof.
  revert s. induction es as [|e es IH]; intros s; cbn; [by intros [= <-]|].
  destruct (step s e) as [s1|] eqn:E; [|done]. intros H. etrans; [by eapply served_grows|eauto].
Qed.

Lemma bounded_wait es s s' t k : queue_inv s → run s es = Some s' → wq_waiters (qs_q s) !! k = Some t →
  qs_phase s !! t = Some Waiting → CtxEnds t ∉ es →
  ∃ more, qs_served s' = qs_served s ++ more ∧ (t ∈ more ∨ (length more ≤ k)%nat).
Proof.
  revert s k. induction es as [|e es IH]; intros s k Hi Hr Hk Hp He; cbn in Hr.
  { injection Hr as <-. exists []. rewrite app_nil_r. split; [done|]. right. cbn. lia. }
  destruct (step s e) as [s1|] eqn:E; [|done]. apply not_elem_of_cons in He as [Hne He].
  destruct (step_advanced _ _ _ _ _ Hi E Hk Hp) as [Ha Hp1]; [congruence|]. pose proof (step_inv _ _ _ Hi E) as Hi1.
  destruct Ha as [(k' & Hle & Hk' & Hs)|(x & Hs & [->|(k' & Hle & Hk')])].
  - destruct (IH s1 k' Hi1 Hr Hk') as (more & Hm & Hc); [by eapply Hp1, list_elem_of_lookup_2|done|].
    exists more. rewrite Hm, Hs. split; [done|]. destruct Hc; [by left|right; lia].
  - apply run_served in Hr as [more Hm]. exists (t :: more). rewrite Hm, Hs, <- app_assoc. split; [done|]. left. by left.
  - destruct (IH s1 k' Hi1 Hr Hk') as (more & Hm & Hc); [by eapply Hp1, list_elem_of_lookup_2|done|].
    exists (x :: more). rewrite Hm, Hs, <- app_assoc. split; [done|]. destruct Hc; [left; by right|right; cbn; lia].
Qed.

(** The owner of the turn can always take it to its end, in at most two steps of its own. *)
Lemma owner_moves s o : queue_inv s → owns s o →
  ∃ es s', (length es ≤ 2)%nat ∧ run s es = Some s' ∧
    ∀ next rest, wq_waiters (qs_q s) = next :: rest → qs_served s' = qs_served s ++ [next].
Proof.
  intros Hi Ho.
  assert (∀ s0 ph, qs_served (set_phase o ph (handOffLocked s0)) = qs_served (handOffLocked s0)) as Hsp by done.
  assert (∀ s0 next rest, wq_waiters (qs_q s0) = next :: rest → qs_served (handOffLocked s0) = qs_served s0 ++ [next]) as Hh.
  { intros s0 next rest H. unfold handOffLocked. by rewrite H. }
  destruct Ho as [Hp|[Hc [Hp|Hp]]].
  - exists [Releases o], (release o s). cbn. rewrite bool_decide_eq_true_2 by done. split; [lia|]. split; [done|]. apply Hh.
  - exists [GetsTurn o; Releases o], (release o (set_phase o Holding s)). cbn [run step].
    rewrite (bool_decide_eq_true_2 (qs_phase s !! o = _)), (bool_decide_eq_true_2 (o ∈ _)) by done. cbn [andb].
    rewrite bool_decide_eq_true_2 by apply lookup_insert_eq. split; [done|]. split; [done|].
    intros next rest H. by apply (Hh (set_phase o Holding s)) in H.
  - exists [Leaves o], (acquire_cancel o s). cbn. rewrite bool_decide_eq_true_2 by done. split; [lia|]. split; [done|].
    unfold acquire_cancel. destruct (list_find (λ u, u = o) _) as [[i u]|] eqn:Ef; [|apply Hh].
    apply list_find_Some in Ef as (Hin & -> & _). apply list_elem_of_lookup_2 in Hin.
    by apply (qi_line _ Hi) in Hin as [_ ?].
Qed.

(** C29. A writer that keeps waiting gets the turn: there is always an owner that can pass it on, and
    after as many turns as there were callers ahead, plus one, it is this writer's. *)
Theorem waiting_writer_served s t k :
  reachable s → wq_waiters (qs_q s) !! k = Some t → qs_phase s !! t = Some Waiting →
  (∃ o es s' next, owns s o ∧ (length es ≤ 2)%nat ∧ run s es = Some s' ∧ qs_served s' = qs_served s ++ [next]) ∧
  (∀ es s', run s es = Some s' → CtxEnds t ∉ es →
    ∃ more, qs_served s' = qs_served s ++ more ∧ ((k < length more)%nat → t ∈ more)).
Proof.
  intros Hi%reachable_inv Hk Hp. split.
  - destruct (wq_waiters (qs_q s)) as [|next rest] eqn:Ew; [done|].
    destruct (wq_held (qs_q s)) eqn:Eh; [|by destruct (qi_free _ Hi Eh); congruence].
    destruct (qi_held _ Hi Eh) as [o Ho]. destruct (owner_moves s o Hi Ho) as (es & s' & Hl & Hr & Hs).
    exists o, es, s', next. split; [done|]. split; [done|]. split; [done|]. by eapply Hs.
  - intros es s' Hr He. destruct (bounded_wait es s s' t k Hi Hr Hk Hp He) as (more & Hm & Hc).
    exists more. split; [done|]. intros Hlt. destruct Hc; [done|lia].
Qed.

(** ** An example: the first of two waiting writers gives up just as it is handed the turn *)

Definition ex_events : list event := [Asks 1; Asks 2; Asks 3; CtxEnds 2; Releases 1; Leaves 2; GetsTurn 3].
Definition ex_state : QState := default newQueue (run newQueue ex_events).
Definition ex_waiting : QState := default newQueue (run newQueue [Asks 1; Asks 2; Asks 3]).

Example ex_handed_on : qs_phase ex_state !! 3%nat = Some Holding ∧ qs_served ex_state = [1; 2; 3]%nat.
Proof. split; vm_compute; reflexivity. Qed.

Lemma ex_waiting_reachable : reachable ex_waiting.
Proof. exists [Asks 1; Asks 2; Asks 3]. vm_compute. reflexivity. Qed.


Lemma waiting_writer_served_witness :
  ∃ o es s' next, owns ex_waiting o ∧ (length es ≤ 2)%nat ∧ run ex_waiting es = Some s' ∧
    qs_served s' = qs_served ex_waiting ++ [next].
Proof. by refine (proj1 (waiting_writer_served ex_waiting 3 1 ex_waiting_reachable _ _)); vm_compute. Defined.
