(* ===== verification/Hub.v ===== *)
(** * Hub: telling devices that something advanced

    [internal/syncserver/usecase/events.go]. A subscription is a number; its channel is a buffer with
    a closed flag. A send on a closed channel and a second [close] panic in Go and are errors here.
    [range] over the map of an account's subscriptions visits each once, in an order the theorems do
    not depend on. Two ghosts per subscription record what it should see and what it has read. *)

From S2P Require Import Prelude Bytes SyncBase Server.

Definition maxSubscriptionsPerAccount : Z := 16.
Definition subscriptionBuffer : Z := 16.

Record subscription := {
  sub_ch : list Event;  (* the buffer of the channel *)
  sub_closed : bool;
  sub_expected : list Event;  (* every event published to its account since it subscribed *)
  sub_received : list Event;  (* what the device has read from the channel *)
}.

Record hub := {
  hb_subs : gmap ID (gset nat);
  hb_all : gmap nat subscription;
}.

Definition newHub : hub := {| hb_subs := ∅; hb_all := ∅ |}.

Inductive hub_error := RateLimited (retryAfterMillis : Z) | SendOnClosed | CloseOfClosed | NoSuchSubscription.

(** [h.subs[account]]: a nil map reads as empty. *)
Definition subs_of (h : hub) (account : ID) : gset nat := default ∅ (hb_subs h !! account).

(** [Subscribe], with the address of the new subscription. *)
Definition Subscribe (account : ID) (sub : nat) (h : hub) : result hub_error hub :=
  fail_if maxSubscriptionsPerAccount <=? Z.of_nat (size (subs_of h account)) with RateLimited 1000 ;;
  Ok {| hb_subs := <[account := {[sub]} ∪ subs_of h account]> (hb_subs h);
        hb_all := <[sub := {| sub_ch := []; sub_closed := false; sub_expected := []; sub_received := [] |}]> (hb_all h) |}.

(** [close(ch)]. *)
Definition close_sub (sub : nat) (s : subscription) (h : hub) : result hub_error hub :=
  fail_if sub_closed s with CloseOfClosed ;;
  Ok {| hb_subs := hb_subs h;
        hb_all := <[sub := {| sub_ch := sub_ch s; sub_closed := true; sub_expected := sub_expected s;
                              sub_received := sub_received s |}]> (hb_all h) |}.

(** The map after [delete(h.subs[account], sub)], without the entry of an account left empty. *)
Definition unlist (account : ID) (sub : nat) (h : hub) : gmap ID (gset nat) :=
  let rest := subs_of h account ∖ {[sub]} in
  if rest =?? ∅ then delete account (hb_subs h) else <[account := rest]> (hb_subs h).

Definition dropLocked (account : ID) (sub : nat) (h : hub) : result hub_error hub :=
  let h := {| hb_subs := unlist account sub h; hb_all := hb_all h |} in
  match hb_all h !! sub with
  | None => Err NoSuchSubscription
  | Some s => if negb (sub_closed s) then close_sub sub s h else Ok h
  end.

(** One subscription of the inner loop: [select] with a default. *)
Definition offer (ev : Event) (account : ID) (h : hub) (sub : nat) : result hub_error hub :=
  match hb_all h !! sub with
  | None => Err NoSuchSubscription
  | Some s =>
      fail_if sub_closed s with SendOnClosed ;;
      let sent := len (sub_ch s) <? subscriptionBuffer in
      let s := {| sub_ch := if sent then sub_ch s ++ [ev] else sub_ch s; sub_closed := false;
                  sub_expected := sub_expected s ++ [ev]; sub_received := sub_received s |} in
      let h := {| hb_subs := hb_subs h; hb_all := <[sub := s]> (hb_all h) |} in
      if sent then Ok h else dropLocked account sub h
  end.

Definition publish_account (ev : Event) (h : hub) (account : ID) : result hub_error hub :=
  foldM (offer ev account) h (elements (subs_of h account)).

Definition publish (accounts : list ID) (ev : Event) (h : hub) : result hub_error hub :=
  foldM (publish_account ev) h accounts.

(** A device reads one event from its channel. *)
Definition receive (sub : nat) (h : hub) : hub :=
  match hb_all h !! sub with
  | Some {| sub_ch := ev :: rest; sub_closed := c; sub_expected := e; sub_received := r |} =>
      {| hb_subs := hb_subs h;
         hb_all := <[sub := {| sub_ch := rest; sub_closed := c; sub_expected := e; sub_received := r ++ [ev] |}]> (hb_all h) |}
  | _ => h
  end.

(** ** Operations in any order *)

Inductive hub_op :=
  | OpSubscribe (account : ID) (sub : nat)
  | OpCancel (account : ID) (sub : nat)  (* the cancel function of a subscription of that account *)
  | OpPublish (accounts : list ID) (ev : Event)
  | OpReceive (sub : nat).

(** A refused subscription leaves the hub alone; everything else has to succeed. [OpCancel] names the
    account the subscription was made with, and an address is used once. *)
Definition hub_step (owner : gmap nat ID) (h : hub) (op : hub_op) : result hub_error (gmap nat ID * hub) :=
  match op with
  | OpSubscribe account sub =>
      match owner !! sub, Subscribe account sub h with
      | None, Ok h' => Ok (<[sub := account]> owner, h')
      | _, _ => Ok (owner, h)
      end
  | OpCancel account sub =>
      if owner !! sub =?? Some account then h' ← dropLocked account sub h; Ok (owner, h') else Ok (owner, h)
  | OpPublish accounts ev => h' ← publish accounts ev h; Ok (owner, h')
  | OpReceive sub => Ok (owner, receive sub h)
  end.

Definition hub_run (ops : list hub_op) : result hub_error (gmap nat ID * hub) :=
  foldM (λ s op, hub_step s.1 s.2 op) (∅, newHub) ops.

(** ** The invariant *)

(** What a subscription may say: at most a full buffer, and what it read and still holds is the
    beginning of what was published to it, all of it as long as it is open ([x]: a subscription that
    is being dropped). *)
Record sub_ok (x : bool) (s : subscription) : Prop := {
  so_bound : len (sub_ch s) ≤ subscriptionBuffer;
  so_prefix : sub_received s ++ sub_ch s `prefix_of` sub_expected s;
  so_all : sub_closed s = false → x = false → sub_received s ++ sub_ch s = sub_expected s;
}.

(** [x] is the subscription being dropped, if any. *)
Record hub_inv (x : option nat) (owner : gmap nat ID) (h : hub) : Prop := {
  hi_open : ∀ a sub, sub ∈ subs_of h a → owner !! sub = Some a ∧ ∃ s, hb_all h !! sub = Some s ∧ sub_closed s = false;
  hi_ok : ∀ sub s, hb_all h !! sub = Some s → sub_ok (bool_decide (x = Some sub)) s;
  hi_listed : ∀ sub s, hb_all h !! sub = Some s → sub_closed s = false → ∃ a, owner !! sub = Some a ∧ sub ∈ subs_of h a;
  hi_bound : ∀ a, Z.of_nat (size (subs_of h a)) ≤ maxSubscriptionsPerAccount;
  hi_known : ∀ sub, is_Some (owner !! sub) ↔ is_Some (hb_all h !! sub);
  hi_tidy : ∀ a, hb_subs h !! a ≠ Some ∅;
}.

Lemma subs_of_insert a v m al b : subs_of {| hb_subs := <[a := v]> m; hb_all := al |} b =
  if decide (a = b) then v else default ∅ (m !! b).
Proof. unfold subs_of. cbn. rewrite lookup_insert. by destruct (decide _). Qed.

Lemma subs_of_delete a m al b : subs_of {| hb_subs := delete a m; hb_all := al |} b =
  if decide (a = b) then ∅ else default ∅ (m !! b).
Proof. unfold subs_of. cbn. rewrite lookup_delete. by destruct (decide _). Qed.

(** The subscriptions of every account after [dropLocked]. *)
Lemma unlist_subs account sub h al b :
  subs_of {| hb_subs := unlist account sub h; hb_all := al |} b =
  if decide (account = b) then subs_of h account ∖ {[sub]} else subs_of h b.
Proof.
  unfold unlist. cbv zeta. case_bool_decide as E; rewrite ?subs_of_insert, ?subs_of_delete; by destruct (decide _).
Qed.

Lemma elem_unlist account sub h al b y :
  y ∈ subs_of {| hb_subs := unlist account sub h; hb_all := al |} b ↔ y ∈ subs_of h b ∧ (account = b → y ≠ sub).
Proof. rewrite unlist_subs. destruct (decide (account = b)) as [<-|]; set_solver. Qed.

(** Unlisting a subscription that is closed, or being closed, restores the invariant. *)
Lemma unlist_inv x owner account sub h s : hub_inv x owner h → (∀ y, x = Some y → y = sub) →
  owner !! sub = Some account → sub_closed s = true → sub_ok true s →
  hub_inv None owner {| hb_subs := unlist account sub h; hb_all := <[sub := s]> (hb_all h) |}.
Proof.
  intros [Ho Hk Hl Hb Hn Ht] Hx Hown Hc Hs. split; cbn [hb_all hb_subs].
  - intros a y [Hy Hne]%elem_unlist. destruct (Ho a y Hy) as (Hoy & sy & Hsy & Hcy). split; [done|]. exists sy.
    assert (sub ≠ y) by (intros <-; apply Hne; congruence). by rewrite lookup_insert_ne.
  - intros y sy. rewrite lookup_insert. destruct (decide (sub = y)) as [<-|Hne]; [intros [= <-]|intros Hy].
    + destruct Hs as [H1 H2 H3]. split; [done|done|]. by rewrite Hc.
    + pose proof (Hk y sy Hy) as Hok. rewrite (bool_decide_eq_false_2 (x = Some y)) in Hok; [done|].
      intros E. apply Hne. symmetry. auto.
  - intros y sy. rewrite lookup_insert. destruct (decide (sub = y)) as [<-|Hne]; [intros [= <-]; congruence|].
    intros Hy Hcy. destruct (Hl y sy Hy Hcy) as (a & Ha & Hin). exists a. split; [done|]. apply elem_unlist. split; [done|congruence].
  - intros a. etrans; [|apply (Hb a)]. apply inj_le, subseteq_size. intros y [? _]%elem_unlist. done.
  - intros y. rewrite lookup_insert. destruct (decide (sub = y)) as [<-|Hne]; [|done]. split; [|by eexists]. by eexists.
  - intros a. unfold unlist. cbv zeta. case_bool_decide as E; rewrite ?lookup_delete, ?lookup_insert;
      destruct (decide (account = a)); try done; try apply Ht. congruence.
Qed.

Lemma dropLocked_inv x owner account sub h : hub_inv x owner h → (∀ y, x = Some y → y = sub) →
  owner !! sub = Some account →
  ∃ h', dropLocked account sub h = Ok h' ∧ hub_inv None owner h' ∧
    ∀ b, subs_of h b ∖ {[sub]} ⊆ subs_of h' b.
Proof.
  intros Hi Hx Hown. unfold dropLocked. cbv zeta. cbn [hb_all].
  destruct (proj1 (hi_known _ _ _ Hi sub)) as [s Hs]; [by eexists|]. rewrite Hs.
  assert (sub_ok true s) as Hok by (destruct (hi_ok _ _ _ Hi sub s Hs) as [? ? ?]; by split).
  assert (∀ al b, subs_of h b ∖ {[sub]} ⊆ subs_of {| hb_subs := unlist account sub h; hb_all := al |} b) as Hsub.
  { intros al b y Hy. apply elem_unlist. set_solver. }
  destruct (sub_closed s) eqn:Ec; cbn [negb].
  - eexists. split; [done|]. split; [|done].
    pose proof (unlist_inv x owner account sub h s Hi Hx Hown Ec Hok) as Hu. by rewrite insert_id in Hu.
  - unfold close_sub. rewrite Ec. eexists. split; [done|]. split; [|done]. cbn [hb_all hb_subs].
    apply (unlist_inv x); [done..|]. destruct Hok as [? ? ?]. by split.
Qed.

(** Changing what one subscription holds. *)
Lemma update_inv x owner h sub s s' : hub_inv None owner h → hb_all h !! sub = Some s → sub_closed s' = sub_closed s →
  (∀ y, x = Some y → y = sub) → sub_ok (bool_decide (x = Some sub)) s' →
  hub_inv x owner {| hb_subs := hb_subs h; hb_all := <[sub := s']> (hb_all h) |}.
Proof.
  intros [Ho Hk Hl Hb Hn Ht] Hs Hc Hx Hok. split; cbn [hb_all hb_subs]; [| | |done| |done].
  - intros a y Hy. destruct (Ho a y Hy) as (Hoy & sy & Hsy & Hcy). split; [done|]. rewrite lookup_insert.
    destruct (decide (sub = y)) as [<-|]; [|by exists sy]. exists s'. split; [done|congruence].
  - intros y sy. rewrite lookup_insert. destruct (decide (sub = y)) as [<-|Hne]; [intros [= <-]; done|].
    intros Hy. rewrite bool_decide_eq_false_2; [by apply Hk in Hy|]. intros E. apply Hne. symmetry. auto.
  - intros y sy. rewrite lookup_insert. destruct (decide (sub = y)) as [<-|Hne]; [|apply Hl].
    intros [= <-] Hcl. eapply Hl; [done|congruence].
  - intros y. rewrite lookup_insert. destruct (decide (sub = y)) as [<-|Hne]; [|done]. rewrite Hn, Hs. split; by eexists.
Qed.

Lemma offer_inv owner ev account h sub : hub_inv None owner h → sub ∈ subs_of h account →
  ∃ h', offer ev account h sub = Ok h' ∧ hub_inv None owner h' ∧ ∀ b, subs_of h b ∖ {[sub]} ⊆ subs_of h' b.
Proof.
  intros Hi Hin. destruct (hi_open _ _ _ Hi account sub Hin) as (Hown & s & Hs & Hc).
  unfold offer. rewrite Hs, Hc. cbv zeta.
  destruct (hi_ok _ _ _ Hi sub s Hs) as [Hbd Hpre Hall]. specialize (Hall Hc eq_refl).
  destruct (Z.ltb_spec (len (sub_ch s)) subscriptionBuffer) as [Hlt|Hge].
  - eexists. split; [done|]. split; [|intros b; unfold subs_of; cbn; set_solver].
    eapply update_inv; [done..|]. split; cbn; [rewrite length_app; cbn; lia|by rewrite app_assoc, Hall|].
    intros _ _. by rewrite app_assoc, Hall.
  - set (h1 := {| hb_subs := hb_subs h; hb_all := _ |}).
    assert (hub_inv (Some sub) owner h1) as Hi1.
    { eapply update_inv; [done..|by intros y [= ->]|]. rewrite bool_decide_eq_true_2 by done.
      split; cbn; [done|rewrite Hall; by apply prefix_app_r|done]. }
    destruct (dropLocked_inv _ _ account sub _ Hi1) as (h' & Hd & Hi' & Hsub); [by intros y [= ->]|done|].
    exists h'. split; [done|]. split; [done|]. exact Hsub.
Qed.

Lemma publish_account_inv owner ev account h : hub_inv None owner h →
  ∃ h', publish_account ev h account = Ok h' ∧ hub_inv None owner h'.
Proof.
  intros Hi. unfold publish_account.
  assert (∀ l h, NoDup l → hub_inv None owner h → (∀ y, y ∈ l → y ∈ subs_of h account) →
    ∃ h', foldM (offer ev account) h l = Ok h' ∧ hub_inv None owner h') as Hgen.
  { clear h Hi. induction l as [|y l IH]; intros h Hd Hi Hl; cbn; [by exists h|]. apply NoDup_cons in Hd as [Hny Hd].
    destruct (offer_inv owner ev account h y Hi) as (h1 & -> & Hi1 & Hsub); [apply Hl; by left|].
    apply IH; [done|done|]. intros z Hz. apply Hsub. apply elem_of_difference. split; [apply Hl; by right|].
    intros ->%elem_of_singleton. done. }
  apply Hgen; [apply NoDup_elements|done|]. intros y. by rewrite elem_of_elements.
Qed.

Lemma publish_inv owner ev accounts h : hub_inv None owner h → ∃ h', publish accounts ev h = Ok h' ∧ hub_inv None owner h'.
Proof.
  revert h. unfold publish. induction accounts as [|a accounts IH]; intros h Hi; cbn; [by exists h|].
  destruct (publish_account_inv owner ev a h Hi) as (h1 & -> & Hi1). by apply IH.
Qed.

Lemma Subscribe_inv owner account sub h h' : hub_inv None owner h → owner !! sub = None → Subscribe account sub h = Ok h' →
  hub_inv None (<[sub := account]> owner) h'.
Proof.
  intros [Ho Hk Hl Hb Hn Ht] Hown H. unfold Subscribe in H. apply fail_if_Ok in H as [Hlt%Z.leb_gt <-%Ok_inj].
  assert (hb_all h !! sub = None) as Hnone.
  { apply eq_None_not_Some. intros Hs. apply Hn in Hs as [? ?]. congruence. }
  assert (∀ a y, y ∈ subs_of h a → y ≠ sub) as Hne by (intros a y [Hy _]%Ho ->; congruence).
  split; cbn [hb_all hb_subs].
  - intros a y. rewrite subs_of_insert. destruct (decide (account = a)) as [<-|Ha].
    + intros [->%elem_of_singleton|Hy]%elem_of_union.
      * rewrite !lookup_insert_eq. split; [done|]. by eexists.
      * pose proof (Hne _ _ Hy). rewrite !lookup_insert_ne by done. auto.
    + intros Hy. change (y ∈ subs_of h a) in Hy. pose proof (Hne _ _ Hy). rewrite !lookup_insert_ne by done. auto.
  - intros y s. rewrite lookup_insert. destruct (decide (sub = y)); [intros [= <-]; by split|apply Hk].
  - intros y s. rewrite !lookup_insert. destruct (decide (sub = y)) as [<-|Hy].
    + intros [= <-] _. exists account. split; [done|]. rewrite subs_of_insert, decide_True by done. set_solver.
    + intros Hs Hc. destruct (Hl y s Hs Hc) as (a & Ha & Hin). exists a. split; [done|]. rewrite subs_of_insert.
      destruct (decide (account = a)) as [<-|]; [set_solver|done].
  - intros a. rewrite subs_of_insert. destruct (decide (account = a)) as [<-|]; [|apply Hb].
    pose proof (size_union_alt {[sub]} (subs_of h account)) as Hu. rewrite Hu, size_singleton.
    pose proof (subseteq_size (subs_of h account ∖ {[sub]}) (subs_of h account) ltac:(set_solver)).
    unfold maxSubscriptionsPerAccount in *. lia.
  - intros y. rewrite !lookup_insert. destruct (decide (sub = y)); [split; by eexists|apply Hn].
  - intros a. rewrite lookup_insert. destruct (decide (account = a)); [|apply Ht]. intros [= E]. set_solver.
Qed.

Lemma receive_inv owner sub h : hub_inv None owner h → hub_inv None owner (receive sub h).
Proof.
  intros Hi. unfold receive. destruct (hb_all h !! sub) as [[[|ev rest] c e r]|] eqn:E; [done| |done].
  destruct (hi_ok _ _ _ Hi sub _ E) as [Hb Hp Ha]. cbn in *. eapply update_inv; [done|exact E|done|done|].
  split; cbn; [lia|by rewrite <- app_assoc|]. intros Hc _. rewrite <- app_assoc. by apply Ha.
Qed.

Lemma hub_inv_new : hub_inv None ∅ newHub.
Proof.
  assert (∀ a, subs_of newHub a = ∅) as Hs by (intros a; unfold subs_of; cbn; by rewrite lookup_empty).
  assert (∀ y, hb_all newHub !! y = None) as Ha by (intros y; apply lookup_empty).
  split.
  - intros a y. rewrite Hs. set_solver.
  - intros y s H. by rewrite Ha in H.
  - intros y s H. by rewrite Ha in H.
  - intros a. by rewrite Hs, size_empty.
  - intros y. rewrite Ha, lookup_empty. done.
  - intros a. cbn. by rewrite lookup_empty.
Qed.

Lemma hub_step_inv owner h op : hub_inv None owner h →
  ∃ owner' h', hub_step owner h op = Ok (owner', h') ∧ hub_inv None owner' h'.
Proof.
  intros Hi. destruct op as [account sub|account sub|accounts ev|sub]; cbn [hub_step].
  - destruct (owner !! sub) eqn:E; [by exists owner, h|].
    destruct (Subscribe account sub h) as [h'|] eqn:Es; [|by exists owner, h].
    exists (<[sub := account]> owner), h'. split; [done|]. by eapply Subscribe_inv.
  - case_bool_decide as E; [|by exists owner, h].
    destruct (dropLocked_inv None owner account sub h Hi) as (h' & -> & Hi' & _); [done|done|]. by exists owner, h'.
  - destruct (publish_inv owner ev accounts h Hi) as (h' & -> & Hi'). by exists owner, h'.
  - exists owner, (receive sub h). split; [done|]. by apply receive_inv.
Qed.

Lemma hub_run_inv ops owner h : hub_inv None owner h →
  ∃ owner' h', foldM (λ s op, hub_step s.1 s.2 op) (owner, h) ops = Ok (owner', h') ∧ hub_inv None owner' h'.
Proof.
  revert owner h. induction ops as [|op ops IH]; intros owner h Hi; cbn; [by exists owner, h|].
  destruct (hub_step_inv owner h op Hi) as (owner' & h' & -> & Hi'). by apply IH.
Qed.

