(* ===== verification/RecoveryKey.v ===== *)
(** * RecoveryKey: the key a user writes down

    [internal/domain/recovery_key.go]. Crockford's base 32 of twenty random bytes, its grouped display,
    and the reading of what a person typed. [strings.ToUpper] is modelled on what the reader tells
    apart: of the letters outside ASCII only dotless i and long s have an ASCII capital, every other
    rune stays one the alphabet lacks. *)

From S2P Require Import Prelude Bytes GoText.

Definition RecoveryKeyBytes : Z := 20.
Definition RecoveryKeyLength : Z := RecoveryKeyBytes * 8 / 5.
Definition RecoveryKeyGroupSize : Z := 4.
Definition recoveryKeyAlphabet : bytes := bytes_of_string "0123456789ABCDEFGHJKMNPQRSTVWXYZ".

(** [unicode.ToUpper] on a rune. *)
Definition ToUpper (r : Z) : Z :=
  if (97 <=? r) && (r <=? 122) then r - 32
  else if r =? 305 then 73
  else if r =? 383 then 83
  else r.

(** [strings.ContainsRune] on an ASCII string. *)
Definition ContainsRune (s : bytes) (r : Z) : bool := existsb (λ c, byte_to_Z c =? r) s.

(** The characters a person adds while copying: the dash and white space. *)
Definition separator (r : Z) : bool := (r =? 45) || (r =? 32) || (r =? 9) || (r =? 10) || (r =? 13).
(** The letters that look like digits. *)
Definition fold_confusable (r : Z) : Z := if r =? 79 then 48 else if (r =? 73) || (r =? 76) then 49 else r.

(** The loop over the runes; [b] is the builder. *)
Fixpoint normalize_loop (rs : list Z) (b : bytes) : option bytes :=
  match rs with
  | [] => Some b
  | r :: rs' =>
      if separator r then normalize_loop rs' b else
      let r := fold_confusable r in
      if negb (ContainsRune recoveryKeyAlphabet r) then None else normalize_loop rs' (b ++ [byte_of_Z r])
  end.

Definition NormalizeRecoveryKey (input : bytes) : bytes * bool :=
  match normalize_loop (ToUpper <$> runes input) [] with
  | None => ([], false)
  | Some key => if negb (len key =? RecoveryKeyLength) then ([], false) else (key, true)
  end.

Definition LooksLikeRecoveryKey (input : bytes) : bool := (NormalizeRecoveryKey input).2.

(** The loop of [FormatRecoveryKey] from group [i] on; [fuel] is the number of groups left. *)
Fixpoint format_groups (fuel : nat) (first : bool) (key : bytes) : bytes :=
  match fuel with
  | O => []
  | S k => (if first then [] else [Byte.x2d]) ++ take (Z.to_nat RecoveryKeyGroupSize) key
           ++ format_groups k false (drop (Z.to_nat RecoveryKeyGroupSize) key)
  end.

Definition FormatRecoveryKey (key : bytes) : bytes :=
  if negb (len key =? RecoveryKeyLength) then key
  else format_groups (Z.to_nat (RecoveryKeyLength / RecoveryKeyGroupSize)) true key.

(** [acc] is a [uint16]. *)
Definition wrap16 (z : Z) : Z := z mod 65536.
Definition alphabet_at (v : Z) : byte := nth (Z.to_nat v) recoveryKeyAlphabet Byte.x00.

(** The inner loop: as many characters as there are whole groups of five bits. It runs at most twice
    a byte; [fuel] bounds it by the bits it has. *)
Fixpoint emit (fuel : nat) (acc bits : Z) (out : bytes) : Z * bytes :=
  match fuel with
  | O => (bits, out)
  | S k => if 5 <=? bits
           then emit k acc (bits - 5) (out ++ [alphabet_at (Z.land (Z.shiftr acc (bits - 5)) 31)])
           else (bits, out)
  end.

Definition encode_byte (st : Z * Z * bytes) (by_ : byte) : Z * Z * bytes :=
  let '(acc, bits, out) := st in
  let acc := Z.lor (wrap16 (Z.shiftl acc 8)) (byte_to_Z by_) in
  let bits := bits + 8 in
  let '(bits, out) := emit (Z.to_nat bits) acc bits out in
  (acc, bits, out).

Definition EncodeRecoveryKey (entropy : bytes) : bytes :=
  if negb (len entropy =? RecoveryKeyBytes) then [] else (foldl encode_byte (0, 0, []) entropy).2.

(** ** Encoding *)

Definition alphabet_value (c : byte) : Z :=
  match list_find (λ d, d = c) recoveryKeyAlphabet with Some (i, _) => Z.of_nat i | None => 0 end.

(** The number a key stands for, in base 32. *)
Definition key_value (key : bytes) : Z := foldl (λ v c, v * 32 + alphabet_value c) 0 key.

Lemma alphabet_value_at v : 0 ≤ v < 32 → alphabet_value (alphabet_at v) = v.
Proof.
  intros Hv. assert (∀ n : nat, (n < 32)%nat → alphabet_value (alphabet_at (Z.of_nat n)) = Z.of_nat n) as H.
  { intros n Hn. do 32 (destruct n as [|n]; [reflexivity|]). lia. }
  rewrite <- (Z2Nat.id v) by lia. apply H. lia.
Qed.

Lemma alphabet_at_elem v : 0 ≤ v < 32 → alphabet_at v ∈ recoveryKeyAlphabet.
Proof.
  intros Hv. unfold alphabet_at. apply list_elem_of_In, nth_In.
  replace (length recoveryKeyAlphabet) with 32%nat by reflexivity. lia.
Qed.

Lemma key_value_snoc key c : key_value (key ++ [c]) = key_value key * 32 + alphabet_value c.
Proof. unfold key_value. by rewrite foldl_app. Qed.

(** What the loops keep: the bits not yet written are the low [bits] of [acc], and together with
    what is written they are the bytes read. *)
Record encoding (read : bytes) (acc bits : Z) (out : bytes) : Prop := {
  en_acc : 0 ≤ acc < 65536;
  en_out : Forall (λ c, c ∈ recoveryKeyAlphabet) out;
  en_len : 5 * len out + bits = 8 * len read;
  en_value : key_value out * 2 ^ bits + acc mod 2 ^ bits = be_val read;
}.

Lemma emit_encoding fuel read acc bits out : 0 ≤ bits → (bits ≤ 5 * Z.of_nat fuel + 4) → encoding read acc bits out →
  ∃ bits' out', emit fuel acc bits out = (bits', out') ∧ 0 ≤ bits' < 5 ∧ encoding read acc bits' out'.
Proof.
  revert bits out. induction fuel as [|fuel IH]; intros bits out Hb Hf He; cbn [emit].
  { exists bits, out. split; [done|]. split; [lia|done]. }
  destruct (Z.leb_spec 5 bits) as [Hle|Hlt]; [|exists bits, out; split; [done|]; split; [lia|done]].
  apply IH; [lia|lia|]. destruct He as [Ha Ho Hl Hv]. set (d := Z.land (Z.shiftr acc (bits - 5)) 31).
  assert (d = (acc / 2 ^ (bits - 5)) mod 32) as Hd.
  { unfold d. rewrite Z.shiftr_div_pow2 by lia. change 31 with (Z.ones 5). by rewrite Z.land_ones by lia. }
  assert (0 ≤ d < 32) as Hdr by (rewrite Hd; apply Z.mod_pos_bound; lia).
  split; [done| |rewrite length_app; cbn [length]; lia|].
  - apply Forall_app. split; [done|]. constructor; [by apply alphabet_at_elem|constructor].
  - rewrite key_value_snoc, alphabet_value_at, <- Hv by done.
    replace (2 ^ bits) with (2 ^ (bits - 5) * 32) by (change 32 with (2 ^ 5); rewrite <- Z.pow_add_r by lia; f_equal; lia).
    assert (0 < 2 ^ (bits - 5)) by lia. rewrite Z.rem_mul_r, <- Hd by lia. ring.
Qed.

Lemma encode_byte_encoding read acc bits out x : 0 ≤ bits < 5 → encoding read acc bits out →
  ∃ acc' bits' out', encode_byte (acc, bits, out) x = (acc', bits', out') ∧ 0 ≤ bits' < 5 ∧
    encoding (read ++ [x]) acc' bits' out'.
Proof.
  intros Hb [Ha Ho Hl Hv]. unfold encode_byte. cbv zeta. pose proof (byte_to_Z_range x) as Hx.
  assert (Z.lor (wrap16 (Z.shiftl acc 8)) (byte_to_Z x) = (acc * 256) mod 65536 + byte_to_Z x) as ->.
  { unfold wrap16. rewrite Z.shiftl_mul_pow2 by lia. change (2 ^ 8) with 256.
    replace ((acc * 256) mod 65536) with (Z.shiftl (acc mod 256) 8).
    - assert (Z.land (Z.shiftl (acc mod 256) 8) (byte_to_Z x) = 0) as Hnc; [|by rewrite <- Z.lxor_lor, <- Z.add_nocarry_lxor].
      apply Z.bits_inj'. intros n Hn. rewrite Z.land_spec, Z.bits_0. destruct (Z.ltb_spec n 8).
      + by rewrite Z.shiftl_spec_low.
      + rewrite andb_comm, <- (Z.mod_small (byte_to_Z x) (2 ^ 8)) by done. by rewrite Z.mod_pow2_bits_high by lia.
    - rewrite Z.shiftl_mul_pow2 by lia. change 65536 with (256 * 256). by rewrite Z.mul_mod_distr_r by lia. }
  set (acc' := (acc * 256) mod 65536 + byte_to_Z x).
  assert (acc' = (acc mod 256) * 256 + byte_to_Z x) as Hacc.
  { unfold acc'. change 65536 with (256 * 256). by rewrite Z.mul_mod_distr_r by lia. }
  destruct (emit_encoding (Z.to_nat (bits + 8)) (read ++ [x]) acc' (bits + 8) out) as (bits' & out' & -> & Hb' & He');
    [lia|lia| |by exists acc', bits', out'].
  pose proof (Z.mod_pos_bound acc 256). split; [lia|done|rewrite length_app; cbn [length]; lia|].
  rewrite be_val_app, be_val_cons. change (be_val []) with 0. change (256 ^ len [x]) with 256. change (256 ^ len []) with 1.
  rewrite <- Hv. rewrite Z.pow_add_r by lia. change (2 ^ 8) with 256.
  assert (acc' mod (2 ^ bits * 256) = (acc mod 2 ^ bits) * 256 + byte_to_Z x) as ->; [|ring].
  assert (0 < 2 ^ bits) by lia. rewrite Hacc, (Z.mul_comm (2 ^ bits)), Z.rem_mul_r by lia.
  rewrite Z.add_comm, (Z.add_comm (_ * 256)). rewrite Z.mod_add, (Z.mod_small (byte_to_Z x)) by lia.
  rewrite Z.div_add, (Z.div_small (byte_to_Z x)), Z.add_0_l by lia.
  replace (acc mod 256 mod 2 ^ bits) with (acc mod 2 ^ bits); [lia|].
  replace 256 with (2 ^ bits * 2 ^ (8 - bits)) by (rewrite <- Z.pow_add_r by lia; change 256 with (2 ^ 8); f_equal; lia).
  rewrite Z.rem_mul_r by lia. rewrite (Z.mul_comm (2 ^ bits)), Z.mod_add, Z.mod_mod by lia. done.
Qed.

Lemma encode_all read acc bits out entropy : 0 ≤ bits < 5 → encoding read acc bits out →
  ∃ acc' bits' out', foldl encode_byte (acc, bits, out) entropy = (acc', bits', out') ∧ 0 ≤ bits' < 5 ∧
    encoding (read ++ entropy) acc' bits' out'.
Proof.
  revert read acc bits out. induction entropy as [|x entropy IH]; intros read acc bits out Hb He.
  - exists acc, bits, out. by rewrite app_nil_r.
  - destruct (encode_byte_encoding read acc bits out x Hb He) as (acc1 & bits1 & out1 & E & Hb1 & He1). cbn [foldl]. rewrite E.
    destruct (IH _ _ _ _ Hb1 He1) as (acc2 & bits2 & out2 & -> & ? & ?). exists acc2, bits2, out2. by rewrite <- app_assoc in *.
Qed.

(** A key is the number its bytes stand for, written in base 32 with no bit left over. *)
Lemma EncodeRecoveryKey_spec entropy : len entropy = RecoveryKeyBytes →
  len (EncodeRecoveryKey entropy) = RecoveryKeyLength ∧ Forall (λ c, c ∈ recoveryKeyAlphabet) (EncodeRecoveryKey entropy) ∧
  key_value (EncodeRecoveryKey entropy) = be_val entropy.
Proof.
  intros Hl. unfold EncodeRecoveryKey. unfold RecoveryKeyBytes in *. rewrite Hl. change (negb (20 =? 20)) with false.
  destruct (encode_all [] 0 0 [] entropy) as (acc & bits & out & -> & Hb & [Ha Ho Hn Hv]); [lia|by split|]. cbn [app fst snd] in *.
  assert (bits = 0) as -> by lia. split; [change RecoveryKeyLength with 32; lia|]. split; [done|].
  rewrite Z.mod_1_r in Hv. lia.
Qed.

(** ** Reading back *)

(** Rune [r] is a way to write the character [c]: itself, in lower case, a letter that looks like the
    digit, or one of the two letters whose capital is [c]. *)
Definition reads_as (r : Z) (c : byte) : bool :=
  let z := byte_to_Z c in
  (r =? z) || ((65 <=? z) && (r =? z + 32)) || ((z =? 48) && ((r =? 79) || (r =? 111)))
  || ((z =? 49) && ((r =? 73) || (r =? 105) || (r =? 76) || (r =? 108) || (r =? 305))) || ((z =? 83) && (r =? 383)).

(** The runes spell the key, with separators anywhere. *)
Inductive spells : list Z → bytes → Prop :=
  | spells_nil : spells [] []
  | spells_sep r rs key : separator r = true → spells rs key → spells (r :: rs) key
  | spells_char r rs c key : c ∈ recoveryKeyAlphabet → reads_as r c = true → spells rs key → spells (r :: rs) (c :: key).

Lemma separator_upper r : separator (ToUpper r) = separator r.
Proof. unfold separator, ToUpper. repeat case_match; lia. Qed.

Lemma alphabet_ind (P : byte → Prop) : Forall P recoveryKeyAlphabet → ∀ c, c ∈ recoveryKeyAlphabet → P c.
Proof. intros H c Hc. by eapply Forall_forall in H. Qed.

Lemma reads_as_char r c : c ∈ recoveryKeyAlphabet → reads_as r c = true ↔ fold_confusable (ToUpper r) = byte_to_Z c.
Proof.
  revert c. apply alphabet_ind. unfold recoveryKeyAlphabet. cbn.
  repeat (apply Forall_cons; split); [..|constructor]; unfold reads_as, fold_confusable, ToUpper, byte_to_Z; cbn -[Z.add];
    repeat case_match; lia.
Qed.

Lemma separator_no_char r c : c ∈ recoveryKeyAlphabet → reads_as r c = true → separator r = false.
Proof.
  intros Hc Hr. apply reads_as_char in Hr; [|done]. revert c Hc Hr. refine (alphabet_ind _ _). unfold recoveryKeyAlphabet. cbn.
  repeat (apply Forall_cons; split); [..|constructor]; unfold separator, fold_confusable, ToUpper, byte_to_Z; cbn -[Z.add];
    repeat case_match; lia.
Qed.

Lemma ContainsRune_true s r : ContainsRune s r = true ↔ ∃ c, c ∈ s ∧ byte_to_Z c = r.
Proof.
  unfold ContainsRune. rewrite existsb_exists. setoid_rewrite <- list_elem_of_In. setoid_rewrite Z.eqb_eq. done.
Qed.

Lemma byte_of_to c r : byte_to_Z c = r → byte_of_Z r = c.
Proof. intros <-. apply byte_of_to_Z. Qed.

Lemma spells_char_inv r rs k : separator r = false → spells (r :: rs) k →
  ∃ c key, k = c :: key ∧ c ∈ recoveryKeyAlphabet ∧ reads_as r c = true ∧ spells rs key.
Proof.
  intros Hs Hk. inversion Hk as [|r' rs' key Hsep Hrest|r' rs' c key Hc Hr Hrest]; subst; [congruence|]. by exists c, key.
Qed.

(** The loop reads exactly what the runes spell. *)
Lemma normalize_loop_spec rs b key : normalize_loop (ToUpper <$> rs) b = Some key ↔ ∃ k, key = b ++ k ∧ spells rs k.
Proof.
  revert b. induction rs as [|r rs IH]; intros b; cbn [fmap list_fmap normalize_loop].
  - split; [intros [= <-]; exists []; split; [by rewrite app_nil_r|constructor]|].
    intros (k & -> & Hk). inv Hk. by rewrite app_nil_r.
  - rewrite separator_upper. destruct (separator r) eqn:Es.
    + rewrite IH. split; intros (k & -> & Hk); exists k; (split; [done|]); [by constructor|].
      inv Hk; [done|]. by erewrite separator_no_char in Es.
    + destruct (ContainsRune recoveryKeyAlphabet _) eqn:Ec; cbn [negb].
      * apply ContainsRune_true in Ec as (c & Hc & Hr). rewrite <- Hr, byte_of_to_Z. rewrite IH.
        split.
        -- intros (k & -> & Hk). exists (c :: k). rewrite <- app_assoc. split; [done|]. constructor; [done| |done]. by apply reads_as_char.
        -- intros (k & -> & Hk). destruct (spells_char_inv _ _ _ Es Hk) as (c' & key' & -> & Hc' & Hr' & Hk').
           apply reads_as_char in Hr'; [|done].
           assert (c' = c) as -> by (apply (inj byte_to_Z); congruence). exists key'. by rewrite <- app_assoc.
      * split; [done|]. intros (k & -> & Hk). destruct (spells_char_inv _ _ _ Es Hk) as (c & key' & -> & Hc & Hr & Hk').
        apply reads_as_char in Hr; [|done]. apply not_true_iff_false in Ec. destruct Ec. apply ContainsRune_true. by exists c.
Qed.

Lemma Normalize_Ok input key : NormalizeRecoveryKey input = (key, true) ↔ len key = RecoveryKeyLength ∧ spells (runes input) key.
Proof.
  unfold NormalizeRecoveryKey. split.
  - destruct (normalize_loop _ []) as [k|] eqn:E; [|done]. apply normalize_loop_spec in E as (k' & -> & Hk).
    destruct (Z.eqb_spec (len ([] ++ k')) RecoveryKeyLength); [|done]. by intros [= <-].
  - intros [Hl Hs]. rewrite (proj2 (normalize_loop_spec _ [] key)) by by exists key. by rewrite Hl.
Qed.

(** Separators may be added and taken away. *)
Lemma spells_app rs1 rs2 k1 k2 : spells rs1 k1 → spells rs2 k2 → spells (rs1 ++ rs2) (k1 ++ k2).
Proof. intros H1 H2. induction H1; cbn; [done|by apply spells_sep|by apply spells_char]. Qed.

Lemma alphabet_ascii c : c ∈ recoveryKeyAlphabet → byte_to_Z c < 128.
Proof. revert c. apply alphabet_ind. unfold recoveryKeyAlphabet. cbn. repeat (apply Forall_cons; split; [done|]). constructor. Qed.

Lemma ascii_runes s : Forall (λ b, byte_to_Z b < 128) s → runes s = byte_to_Z <$> s.
Proof.
  unfold runes. induction 1 as [|b s Hb _ IH]; [done|]. cbn [decode_runes]. pose proof (byte_to_Z_range b).
  rewrite (proj2 (in_range_true 0 127 b)) by lia. cbn. by rewrite IH.
Qed.

Lemma spells_key key : Forall (λ c, c ∈ recoveryKeyAlphabet) key → spells (byte_to_Z <$> key) key.
Proof.
  induction 1 as [|c key Hc _ IH]; cbn; [constructor|]. constructor; [done| |done]. unfold reads_as. by rewrite Z.eqb_refl.
Qed.

(** The display of a key spells it, and is ASCII. *)
Lemma format_groups_spells fuel first key : Forall (λ c, c ∈ recoveryKeyAlphabet) key → length key = (4 * fuel)%nat →
  Forall (λ b, byte_to_Z b < 128) (format_groups fuel first key) ∧ spells (byte_to_Z <$> format_groups fuel first key) key.
Proof.
  revert first key. induction fuel as [|fuel IH]; intros first key Hk Hl; cbn [format_groups].
  { destruct key; [|done]. split; constructor. }
  change (Z.to_nat RecoveryKeyGroupSize) with 4%nat. rewrite <- (take_drop 4 key) in Hk. apply Forall_app in Hk as [Ht Hd].
  destruct (IH false (drop 4 key) Hd) as [Ha Hs]; [rewrite length_drop; lia|]. split.
  - apply Forall_app. split; [destruct first; repeat constructor|]. apply Forall_app. split; [|done].
    eapply Forall_impl; [exact Ht|]. apply alphabet_ascii.
  - rewrite !fmap_app. rewrite <- (take_drop 4 key) at 3.
    assert (spells (byte_to_Z <$> take 4 key ++ format_groups fuel false (drop 4 key)) (take 4 key ++ drop 4 key)) as H.
    { rewrite fmap_app. apply spells_app; [by apply spells_key|done]. }
    rewrite fmap_app in H. destruct first; [done|]. by constructor.
Qed.

(** Two different secrets never get the same key, and the key as displayed is read back as itself. *)
Theorem recovery_key_roundtrip entropy entropy' :
  len entropy = RecoveryKeyBytes → len entropy' = RecoveryKeyBytes →
  (EncodeRecoveryKey entropy = EncodeRecoveryKey entropy' → entropy = entropy') ∧
  NormalizeRecoveryKey (FormatRecoveryKey (EncodeRecoveryKey entropy)) = (EncodeRecoveryKey entropy, true).
Proof.
  intros Hl Hl'. destruct (EncodeRecoveryKey_spec entropy Hl) as (Hk & Ha & Hv).
  destruct (EncodeRecoveryKey_spec entropy' Hl') as (_ & _ & Hv'). split.
  - intros E. apply be_val_inj; [lia|]. congruence.
  - unfold FormatRecoveryKey. rewrite Hk, Z.eqb_refl. cbn [negb].
    change (Z.to_nat (RecoveryKeyLength / RecoveryKeyGroupSize)) with 8%nat. change RecoveryKeyLength with 32 in Hk.
    destruct (format_groups_spells 8 true (EncodeRecoveryKey entropy) Ha) as [Hasc Hs]; [lia|].
    apply Normalize_Ok. split; [done|]. by rewrite ascii_runes.
Qed.

(** What is accepted: exactly the 32 characters, each in one of its readings, with dashes and white
    space anywhere; and the answer is that key. *)
Theorem NormalizeRecoveryKey_iff input key :
  (NormalizeRecoveryKey input = (key, true) ↔ len key = RecoveryKeyLength ∧ spells (runes input) key) ∧
  LooksLikeRecoveryKey input = bool_decide (NormalizeRecoveryKey input ≠ ([], false)).
Proof.
  split; [apply Normalize_Ok|]. unfold LooksLikeRecoveryKey, NormalizeRecoveryKey.
  repeat case_match; cbn; symmetry; apply bool_decide_eq_false_2 || apply bool_decide_eq_true_2; congruence.
Qed.

(** ** Examples *)

Definition ex_entropy : bytes := byte_of_Z <$> [1; 2; 3; 4; 5; 6; 7; 8; 9; 10; 11; 12; 13; 14; 15; 16; 17; 18; 19; 20].
Example ex_display : FormatRecoveryKey (EncodeRecoveryKey ex_entropy) = bytes_of_string "0410-6105-0R3G-G28A-1C60-T3GF-208H-44RM".
Proof. vm_compute. reflexivity. Qed.
(** Read with lower case, an O for the zero, an l and an i for ones. *)
Example ex_typed : NormalizeRecoveryKey (bytes_of_string "o4l0 61o5 0r3g g28a ic60-t3gf-2O8H-44rm") = (EncodeRecoveryKey ex_entropy, true).
Proof. vm_compute. reflexivity. Qed.

Lemma recovery_key_roundtrip_witness :
  NormalizeRecoveryKey (FormatRecoveryKey (EncodeRecoveryKey ex_entropy)) = (EncodeRecoveryKey ex_entropy, true).
Proof. by apply (recovery_key_roundtrip ex_entropy ex_entropy). Defined.
