(* ===== verification/PluginPaths.v ===== *)
(** * PluginPaths: which files of a plugin may travel

    [internal/domain/plugin]: [sync_paths.go] and [manifest_id.go]. A path is its bytes. Comparisons
    that ignore case are of names written in ASCII, and no letter outside ASCII has one of their
    letters as its lower case, so lower-casing the ASCII letters is what the code does. *)

From S2P Require Import Prelude Bytes GoText.

(** [PSyncOther] stands for the reasons [checkSyncSegments] gives, which wrap no sentinel. *)
Inductive psentinel := ErrInvalidManifest | ErrUnsafeSyncPath | PSyncOther.
#[export] Instance psentinel_eq_dec : EqDecision psentinel.
Proof. solve_decision. Defined.
Abbreviation perror := (list psentinel).

(** ** Plugin ids *)

(** [^[a-z0-9][a-z0-9.-]{1,127}$] *)
Definition manifestIDPattern (id : bytes) : bool :=
  match id with
  | [] => false
  | c :: rest => in_class lower_digit c && (1 <=? len rest) && (len rest <=? 127)
      && forallb (in_class ((46, 46) :: (45, 45) :: lower_digit)) rest
  end.

Definition ValidateID (id : bytes) : result perror unit :=
  let id := TrimSpace id in
  fail_if id =?? [] with [ErrInvalidManifest] ;;
  fail_if Contains id [Byte.x2e; Byte.x2e] || contains_any id [Byte.x2f; Byte.x5c] with [ErrInvalidManifest] ;;
  fail_if negb (manifestIDPattern id) with [ErrInvalidManifest] ;;
  Ok ().

(** ** Paths *)

Definition MaxSyncFileBytes : Z := Z.shiftl 8 20.
Definition MaxSyncReceivedFileBytes : Z := Z.shiftl 16 20.
Definition MaxSyncPatterns : Z := 32.
Definition maxSyncPathLen : Z := 256.

Definition dot : bytes := [Byte.x2e].
Definition dotdot : bytes := [Byte.x2e; Byte.x2e].

Definition isWindowsDeviceName (seg : bytes) : bool :=
  let base := cut_before (ascii_lower seg) Byte.x2e in
  bool_decide (base ∈ bytes_of_string <$> ["con"%string; "prn"%string; "aux"%string; "nul"%string])
  || ((len base =? 4) && (HasPrefix base (bytes_of_string "com") || HasPrefix base (bytes_of_string "lpt"))
      && match base !! 3%nat with Some c => in_range 49 57 c | None => false end).

(** A rune below 0x20, or 0x7f. *)
Definition control_rune (r : Z) : bool := (r <? 32) || (r =? 127).

Definition checkSyncSegment (seg : bytes) (pattern : bool) : result perror unit :=
  fail_if (seg =?? []) || (seg =?? dot) || (seg =?? dotdot) with [PSyncOther] ;;
  fail_if ascii_lower seg =?? bytes_of_string "tmp" with [PSyncOther] ;;
  fail_if HasSuffix seg dot || HasSuffix seg [Byte.x20] with [PSyncOther] ;;
  fail_if isWindowsDeviceName seg with [PSyncOther] ;;
  fail_if existsb control_rune (runes seg) with [PSyncOther] ;;
  if negb pattern then Ok () else
  fail_if contains_any seg (bytes_of_string "?[]{}") with [PSyncOther] ;;
  fail_if Contains seg (bytes_of_string "**") && (seg <>? bytes_of_string "**") with [PSyncOther] ;;
  Ok ().

Definition checkSyncSegments (p : bytes) (pattern : bool) : result perror unit :=
  fail_if (p =?? []) || (maxSyncPathLen <? len p) with [PSyncOther] ;;
  fail_if contains_any p [Byte.x5c; Byte.x3a] || HasPrefix p [Byte.x2f] || HasPrefix p [Byte.x7e] || contains_any p [Byte.x24]
    with [PSyncOther] ;;
  foldM (λ _ seg, checkSyncSegment seg pattern) () (Split p Byte.x2f).

Definition ValidSyncFile (rel : bytes) : result perror unit :=
  match checkSyncSegments rel false with Err e => Err (ErrUnsafeSyncPath :: e) | Ok _ => Ok () end.

(** [path.Match] of a pattern whose only special character is the star. *)
Fixpoint path_Match (pat s : bytes) {struct pat} : bool :=
  match pat with
  | [] => s =?? []
  | c :: pat' =>
      if c =?? Byte.x2a then
        (fix star (s : bytes) : bool :=
           path_Match pat' s || match s with [] => false | d :: s' => (d <>? Byte.x2f) && star s' end) s
      else match s with [] => false | d :: s' => (c =?? d) && path_Match pat' s' end
  end.

Fixpoint matchSegments (pat file : list bytes) {struct pat} : bool :=
  match pat with
  | [] => file =?? []
  | p :: pat' =>
      if p =?? bytes_of_string "**" then
        (fix any_rest (from : nat) (file : list bytes) : bool :=
           ((from =? 0)%nat && matchSegments pat' file)
           || match file with [] => false | _ :: file' => any_rest (Nat.pred from) file' end)
          (if pat' =?? [] then 1%nat else 0%nat) file
      else match file with [] => false | f :: file' => path_Match p f && matchSegments pat' file' end
  end.

Record SyncSpec := { sy_Paths : list bytes }.

(** [Validate]; [perSession] says the plugin is isolated per session. *)
Definition SyncSpec_Validate (s : option SyncSpec) (perSession : bool) : result perror unit :=
  match s with
  | None => Ok ()
  | Some s =>
      fail_if perSession && (0 <? len (sy_Paths s)) with [ErrInvalidManifest] ;;
      fail_if MaxSyncPatterns <? len (sy_Paths s) with [ErrInvalidManifest] ;;
      foldM (λ _ p, match checkSyncSegments p true with Err e => Err (ErrInvalidManifest :: e) | Ok _ => Ok () end) () (sy_Paths s)
  end.

Definition SyncSpec_Matches (s : option SyncSpec) (rel : bytes) : bool :=
  match s with
  | None => false
  | Some s => is_ok (ValidSyncFile rel) && existsb (λ p, matchSegments (Split p Byte.x2f) (Split rel Byte.x2f)) (sy_Paths s)
  end.
