(* ===== verification/PluginNet.v ===== *)
(** * PluginNet: which addresses a plugin may reach

    [internal/domain/plugin]: [network_pattern.go], [net_dial_policy.go] and [validateNetworkCaps];
    [internal/infra/plugin/capability]: [net_proxy.go] (dialling and its handles), [net_proxy_match.go] and the
    authorisation of [channel_relay_backend.go] and [channel_udp_relay_backend.go]. An address is Go's [net.IP]: its 4 or 16 bytes, nil being
    the empty string. Name resolution, the network and the random handle ids are arguments of each dial. A dial in
    progress is one step up to the reservation of its slot and one after, other calls come in between. *)

From S2P Require Import Prelude Bytes GoText PluginPaths.

(** [ENetParams] and [ENetIO] stand for errors that wrap no sentinel. *)
Inductive dsentinel := ErrCapabilityDenied | ErrRateLimited | ErrHandleNotFound | ErrNetworkDialFailed | ErrChannelBackendReused | ENetParams | ENetIO.
#[export] Instance dsentinel_eq_dec : EqDecision dsentinel.
Proof. solve_decision. Defined.
Abbreviation derror := (list dsentinel).

(** ** Text: numbers and host names *)

Definition digit_value (c : byte) : option Z := if in_range 48 57 c then Some (byte_to_Z c - 48) else None.
Fixpoint digits_value (acc : Z) (s : bytes) : option Z :=
  match s with [] => Some acc | c :: s' => d ← digit_value c; digits_value (10 * acc + d) s' end.
(** [strconv.Atoi]: a sign, digits, within 64 bits. *)
Definition Atoi (s : bytes) : option Z :=
  let '(neg, ds) := match s with
    | Byte.x2d :: s' => (true, s') | Byte.x2b :: s' => (false, s') | _ => (false, s) end in
  if bool_decide (ds = []) then None else
  v ← digits_value 0 ds;
  let v := if neg : bool then - v else v in
  if (- (MaxInt64 + 1) <=? v) && (v <=? MaxInt64) then Some v else None.

Definition colon : byte := Byte.x3a.
Definition minus : byte := Byte.x2d.
Definition has_byte (c : byte) (s : bytes) : bool := bool_decide (c ∈ s).
(** [strings.Cut] at a one-byte separator. *)
Fixpoint Cut (s : bytes) (sep : byte) : bytes * bytes * bool :=
  match s with
  | [] => ([], [], false)
  | c :: s' => if c =?? sep then ([], s', true) else let '(a, b, ok) := Cut s' sep in (c :: a, b, ok)
  end.

(** ** Outbound patterns ([network_pattern.go]) *)

Record NetworkPattern := { np_Proto : bytes; np_Host : bytes; np_PortSpec : bytes }.

Definition tcp : bytes := bytes_of_string "tcp".
Definition udp : bytes := bytes_of_string "udp".
Definition cutNetworkPatternProto (pattern : bytes) : option (bytes * bytes) :=
  if HasPrefix pattern (tcp ++ [colon]) then Some (tcp, drop 4 pattern)
  else if HasPrefix pattern (udp ++ [colon]) then Some (udp, drop 4 pattern) else None.

Definition isAllDigits (s : bytes) : bool := negb (bool_decide (s = [])) && forallb (in_range 48 57) s.

(** The two ends of a port range, as [SplitN] at the first minus gives them. *)
Definition port_range (spec : bytes) : option (Z * Z) :=
  let '(a, b, _) := Cut spec minus in
  lo ← Atoi (TrimSpace a); hi ← Atoi (TrimSpace b); Some (lo, hi).

Definition validatePortSpec (spec : bytes) : result perror unit :=
  fail_if bool_decide (spec = []) || has_byte Byte.x2a spec with [ErrInvalidManifest] ;;
  if has_byte minus spec then
    match port_range spec with
    | Some (lo, hi) => if (lo <? 1) || (65535 <? hi) || (hi <? lo) then Err [ErrInvalidManifest] else Ok ()
    | None => Err [ErrInvalidManifest]
    end
  else
    match Atoi spec with
    | Some port => if (port <? 1) || (65535 <? port) then Err [ErrInvalidManifest] else Ok ()
    | None => Err [ErrInvalidManifest]
    end.

Definition ParseNetworkPattern (pattern : bytes) : result perror NetworkPattern :=
  let pattern := TrimSpace pattern in
  fail_if bool_decide (pattern = []) || bool_decide (pattern = [Byte.x2a]) with [ErrInvalidManifest] ;;
  match cutNetworkPatternProto pattern with
  | None => Err [ErrInvalidManifest]
  | Some (proto, rest) =>
      fail_if bool_decide (rest = []) || has_byte Byte.x2a rest with [ErrInvalidManifest] ;;
      let '(host, portSpec, ok) := Cut rest colon in
      let host := TrimSpace host in let portSpec := TrimSpace portSpec in
      fail_if negb ok || bool_decide (host = []) || bool_decide (portSpec = []) with [ErrInvalidManifest] ;;
      fail_if bool_decide (is_Some (Atoi portSpec)) && negb (has_byte minus portSpec) && isAllDigits host with [ErrInvalidManifest] ;;
      _ ← validatePortSpec portSpec;
      Ok {| np_Proto := proto; np_Host := host; np_PortSpec := portSpec |}
  end.

Record NetworkCaps := { nc_Outbound : list bytes; nc_AllowArbitraryOutbound : bool; nc_AllowPrivateNetworks : bool }.
Definition validateNetworkCaps (n : NetworkCaps) : result perror unit :=
  fail_if nc_AllowPrivateNetworks n && negb (nc_AllowArbitraryOutbound n) with [ErrInvalidManifest] ;;
  foldM (λ _ p, _ ← ParseNetworkPattern p; Ok ()) () (nc_Outbound n).

(** ** Addresses ([net.IP]) *)

Definition IP := bytes.
Definition IPv4len : nat := 4.
Definition IPv6len : nat := 16.
Definition v4InV6Prefix : bytes := zeros 10 ++ [Byte.xff; Byte.xff].
Definition IPv4 (a b c d : byte) : IP := v4InV6Prefix ++ [a; b; c; d].
Definition To4 (ip : IP) : option IP :=
  if bool_decide (length ip = IPv4len) then Some ip
  else if bool_decide (length ip = IPv6len) && (take 12 ip =?? v4InV6Prefix) then Some (drop 12 ip) else None.
Definition To16 (ip : IP) : option IP :=
  if bool_decide (length ip = IPv4len) then Some (v4InV6Prefix ++ ip)
  else if bool_decide (length ip = IPv6len) then Some ip else None.
Definition IP_Equal (ip x : IP) : bool :=
  if bool_decide (length ip = length x) then ip =?? x
  else if bool_decide (length ip = IPv4len) && bool_decide (length x = IPv6len) then (take 12 x =?? v4InV6Prefix) && (ip =?? drop 12 x)
  else if bool_decide (length ip = IPv6len) && bool_decide (length x = IPv4len) then (take 12 ip =?? v4InV6Prefix) && (drop 12 ip =?? x)
  else false.

(** Byte [i] of an address, and it under a mask. *)
Definition octet (i : nat) (ip : IP) : Z := from_option byte_to_Z 0 (ip !! i).
Definition masked (i : nat) (mask : Z) (ip : IP) : Z := Z.land (octet i ip) mask.
Definition v4_or_v6 (v4 v6 : IP → bool) (ip : IP) : bool :=
  match To4 ip with Some ip4 => v4 ip4 | None => bool_decide (length ip = IPv6len) && v6 ip end.

Definition IsUnspecified (ip : IP) : bool := IP_Equal ip (IPv4 Byte.x00 Byte.x00 Byte.x00 Byte.x00) || IP_Equal ip (zeros 16).
Definition IsLoopback (ip : IP) : bool :=
  match To4 ip with Some ip4 => octet 0 ip4 =? 127 | None => IP_Equal ip (zeros 15 ++ [Byte.x01]) end.
Definition IsPrivate : IP → bool := v4_or_v6
  (λ ip, (octet 0 ip =? 10) || ((octet 0 ip =? 172) && (masked 1 240 ip =? 16)) || ((octet 0 ip =? 192) && (octet 1 ip =? 168)))
  (λ ip, masked 0 254 ip =? 252).
Definition IsMulticast : IP → bool := v4_or_v6 (λ ip, masked 0 240 ip =? 224) (λ ip, octet 0 ip =? 255).
Definition IsLinkLocalMulticast : IP → bool := v4_or_v6
  (λ ip, (octet 0 ip =? 224) && (octet 1 ip =? 0) && (octet 2 ip =? 0)) (λ ip, (octet 0 ip =? 255) && (masked 1 15 ip =? 2)).
Definition IsLinkLocalUnicast : IP → bool := v4_or_v6
  (λ ip, (octet 0 ip =? 169) && (octet 1 ip =? 254)) (λ ip, (octet 0 ip =? 254) && (masked 1 192 ip =? 128)).

(** ** Restricted addresses ([net_dial_policy.go]) *)

Definition isRestrictedIPv4 (ip4 : IP) : bool :=
  ((octet 0 ip4 =? 100) && (64 <=? octet 1 ip4) && (octet 1 ip4 <=? 127))
  || (octet 0 ip4 =? 0)
  || ((octet 0 ip4 =? 169) && (octet 1 ip4 =? 254))
  || ((octet 0 ip4 =? 255) && (octet 1 ip4 =? 255) && (octet 2 ip4 =? 255) && (octet 3 ip4 =? 255)).

Definition embeddedIPv4 (ip : IP) : option IP :=
  ip16 ← To16 ip;
  if (octet 0 ip16 =? 0) && (octet 1 ip16 =? 100) && (octet 2 ip16 =? 255) && (octet 3 ip16 =? 155) then Some (v4InV6Prefix ++ take 4 (drop 12 ip16))
  else if (octet 0 ip16 =? 32) && (octet 1 ip16 =? 2) then Some (v4InV6Prefix ++ take 4 (drop 2 ip16))
  else None.

Definition restricted_kind (ip : IP) : bool :=
  IsUnspecified ip || IsLoopback ip || IsPrivate ip || IsLinkLocalUnicast ip || IsLinkLocalMulticast ip || IsMulticast ip.
(** An embedded address is an IPv4 one, so the recursion ends after one step. *)
Definition IsRestrictedDialIP (ip : IP) : bool :=
  if bool_decide (ip = []) then true else
  if restricted_kind ip then true else
  match To4 ip with
  | Some ip4 => isRestrictedIPv4 ip4
  | None =>
      match embeddedIPv4 ip with
      | Some e => restricted_kind e || match To4 e with Some e4 => isRestrictedIPv4 e4 | None => false end
      | None => false
      end
  end.

(** *** [net.ParseIP] *)

(** [parseIPv4Fields]: the octets read so far, the digits of the one at hand and its value; [prev_dot] after a dot or at the start. *)
Fixpoint parseIPv4Fields (s : bytes) (fields : bytes) (digLen : nat) (val : Z) (prev_dot : bool) : option bytes :=
  match s with
  | [] => if bool_decide (length fields = 3%nat) then Some (fields ++ [byte_of_Z val]) else None
  | c :: s' =>
      match digit_value c with
      | Some d =>
          if bool_decide (digLen = 1%nat) && (val =? 0) then None else
          let val := val * 10 + d in
          if 255 <? val then None else parseIPv4Fields s' fields (S digLen) val false
      | None =>
          if negb (c =?? Byte.x2e) then None else
          if prev_dot || bool_decide (s' = []) || bool_decide (length fields = 3%nat) then None
          else parseIPv4Fields s' (fields ++ [byte_of_Z val]) 0 0 true
      end
  end.
Definition parseIPv4 (s : bytes) : option bytes := parseIPv4Fields s [] 0 0 true.

Definition hex_nibble (c : byte) : option Z :=
  if in_range 48 57 c then Some (byte_to_Z c - 48) else if in_range 97 102 c then Some (byte_to_Z c - 87)
  else if in_range 65 70 c then Some (byte_to_Z c - 55) else None.
(** The hexadecimal number in front: its digits, its value, the rest; [None] when it has more than four digits. *)
Fixpoint hex_number (s : bytes) (off : nat) (acc : Z) : option (nat * Z * bytes) :=
  match s with
  | [] => Some (off, acc, [])
  | c :: s' => match hex_nibble c with
      | Some d => if bool_decide (3 < off)%nat then None else hex_number s' (S off) (16 * acc + d)
      | None => Some (off, acc, s) end
  end.
(** The groups of [parseIPv6]: the bytes read, where the ellipsis is, and what is left; a step per group, of which there are at most eight. *)
Fixpoint ipv6_groups (fuel : nat) (s ip : bytes) (ellipsis : option nat) : option (bytes * option nat * bytes) :=
  match fuel with
  | O => Some (ip, ellipsis, s)
  | S n =>
      '(off, acc, rest) ← hex_number s 0 0;
      if bool_decide (off = 0%nat) then None else
      match rest with
      | Byte.x2e :: _ =>
          if negb (bool_decide (is_Some ellipsis)) && negb (bool_decide (length ip = 12%nat)) then None else
          if bool_decide (16 < length ip + 4)%nat then None else
          v4 ← parseIPv4 s; Some (ip ++ v4, ellipsis, [])
      | [] => Some (ip ++ be_bytes 2 acc, ellipsis, [])
      | c :: rest' =>
          let ip := ip ++ be_bytes 2 acc in
          if negb (c =?? colon) then None else
          match rest' with
          | [] => None
          | Byte.x3a :: more =>
              if bool_decide (is_Some ellipsis) then None else
              if bool_decide (more = []) then Some (ip, Some (length ip), []) else ipv6_groups n more ip (Some (length ip))
          | _ => ipv6_groups n rest' ip ellipsis
          end
      end
  end.
(** A zone makes [net.ParseIP] refuse the address, so only addresses without one are read further. *)
Definition parseIPv6 (s : bytes) : option bytes :=
  if has_byte Byte.x25 s then None else
  let '(lead, s) := match s with Byte.x3a :: Byte.x3a :: s' => (Some 0%nat, s') | _ => (None, s) end in
  if bool_decide (is_Some lead) && bool_decide (s = []) then Some (zeros 16) else
  '(ip, ellipsis, rest) ← ipv6_groups 8 s [] lead;
  if negb (bool_decide (rest = [])) then None else
  if bool_decide (length ip < 16)%nat then
    e ← ellipsis; Some (take e ip ++ zeros (16 - length ip) ++ drop e ip)
  else if bool_decide (is_Some ellipsis) then None else Some ip.
Definition ParseIP (s : bytes) : option IP :=
  match list_find (λ c, c = Byte.x2e ∨ c = colon ∨ c = Byte.x25) s with
  | Some (_, Byte.x2e) => ip ← parseIPv4 s; Some (v4InV6Prefix ++ ip)
  | Some (_, Byte.x3a) => parseIPv6 s
  | _ => None
  end.

Definition AllowResolvedDialIP (patternHost : bytes) (resolved : IP) : bool :=
  if bool_decide (resolved = []) then false else
  if negb (IsRestrictedDialIP resolved) then true else
  match ParseIP (TrimSpace patternHost) with Some explicit => IP_Equal explicit resolved | None => false end.

Example parse_v4 : ParseIP (bytes_of_string "192.168.0.1") = Some (IPv4 Byte.xc0 Byte.xa8 Byte.x00 Byte.x01) ∧ ParseIP (bytes_of_string "1.2.3.04") = None.
Proof. vm_compute. split; reflexivity. Qed.
Example parse_v6 : ParseIP (bytes_of_string "::1") = Some (zeros 15 ++ [Byte.x01]) ∧
  ParseIP (bytes_of_string "64:ff9b::127.0.0.1") = Some ([Byte.x00; Byte.x64; Byte.xff; Byte.x9b] ++ zeros 8 ++ [Byte.x7f; Byte.x00; Byte.x00; Byte.x01]) ∧
  ParseIP (bytes_of_string "fe80::1%eth0") = None ∧ ParseIP (bytes_of_string "1:2:3:4:5:6:7:8:9") = None ∧ ParseIP (bytes_of_string "1::2::3") = None.
Proof. vm_compute. repeat split; reflexivity. Qed.

(** ** The shared policy ([net_proxy_match.go]) *)

Definition shouldAllowResolvedIP (allowArbitrary allowPrivateNetworks : bool) (patternHost : bytes) (ip : IP) : bool :=
  if allowArbitrary && (negb (IsRestrictedDialIP ip) || allowPrivateNetworks) then true else AllowResolvedDialIP patternHost ip.

Definition matchPortSpec (spec : bytes) (port : Z) : bool :=
  let spec := TrimSpace spec in
  if bool_decide (spec = []) || has_byte Byte.x2a spec then false else
  if has_byte minus spec then match port_range spec with Some (lo, hi) => (lo <=? port) && (port <=? hi) | None => false end
  else match Atoi spec with Some want => port =? want | None => false end.

Section proxy.
(** How [strings.EqualFold] compares from the first letter outside ASCII on: Unicode's folding. *)
Context (fold_wide : bytes → bytes → bool).

Fixpoint EqualFold (s t : bytes) : bool :=
  match s, t with
  | [], [] => true
  | a :: s', b :: t' =>
      if (128 <=? byte_to_Z a) || (128 <=? byte_to_Z b) then fold_wide s t
      else (ascii_lower [a] =?? ascii_lower [b]) && EqualFold s' t'
  | _, _ => false
  end.

Fixpoint matchingPatternHost (patterns : list bytes) (host : bytes) (port : Z) : option bytes :=
  match patterns with
  | [] => None
  | pattern :: rest =>
      match ParseNetworkPattern pattern with
      | Ok parsed => if EqualFold (np_Host parsed) host && matchPortSpec (np_PortSpec parsed) port then Some (np_Host parsed)
                     else matchingPatternHost rest host port
      | Err _ => matchingPatternHost rest host port
      end
  end.

(** ** The proxy ([net_proxy.go]) *)

(** A connection: the address and port dialled, and the TCP address at its other end where it reports one. *)
Record Conn := { c_IP : IP; c_Port : Z; c_Remote : option IP }.
Record NetProxy := { px_handles : gmap bytes Conn; px_pendingDials : Z }.
Definition NewNetProxy : NetProxy := {| px_handles := ∅; px_pendingDials := 0 |}.
Definition MaxNetConnectionsPerPlugin : Z := 8.

Record netDialParams := { dp_Network : bytes; dp_Host : bytes; dp_Port : Z }.
(** A manifest without network capabilities has no patterns and no modes. *)
Definition caps_of (caps : option NetworkCaps) : NetworkCaps :=
  default {| nc_Outbound := []; nc_AllowArbitraryOutbound := false; nc_AllowPrivateNetworks := false |} caps.

(** What a dial in progress carries on with. *)
Record pendingDial := { pd_Host : bytes; pd_Port : Z; pd_patternHost : bytes }.

(** [Dial] up to the reserved slot. *)
Definition Dial_begin (caps : NetworkCaps) (req : netDialParams) (p : NetProxy) : result derror (pendingDial * NetProxy) :=
  let network := if bool_decide (dp_Network req = []) then tcp else dp_Network req in
  fail_if negb (network =?? tcp) with [ErrCapabilityDenied] ;;
  fail_if bool_decide (dp_Host req = []) || (dp_Port req <=? 0) || (65535 <? dp_Port req) with [ENetParams] ;;
  let matched := matchingPatternHost (nc_Outbound caps) (dp_Host req) (dp_Port req) in
  fail_if negb (nc_AllowArbitraryOutbound caps) && bool_decide (matched = None) with [ErrCapabilityDenied] ;;
  fail_if MaxNetConnectionsPerPlugin <=? Z.of_nat (size (px_handles p)) + px_pendingDials p with [ErrRateLimited] ;;
  Ok ({| pd_Host := dp_Host req; pd_Port := dp_Port req; pd_patternHost := default [] matched |},
      {| px_handles := px_handles p; px_pendingDials := px_pendingDials p + 1 |}).

(** Dialling an address: no connection, or one with the remote address it reports. *)
Abbreviation network := (IP → Z → option (option IP)).

(** The loop over the resolved addresses. *)
Fixpoint dial_loop (caps : NetworkCaps) (d : pendingDial) (net : network) (addrs : list IP) (dialErr : bool) : result derror Conn :=
  let ok := shouldAllowResolvedIP (nc_AllowArbitraryOutbound caps) (nc_AllowPrivateNetworks caps) (pd_patternHost d) in
  match addrs with
  | [] => Err (if dialErr then [ErrNetworkDialFailed] else [ErrCapabilityDenied])
  | ip :: rest =>
      if negb (ok ip) then dial_loop caps d net rest dialErr else
      match net ip (pd_Port d) with
      | None => dial_loop caps d net rest true
      | Some remote =>
          if match remote with Some ra => negb (ok ra) | None => false end then dial_loop caps d net rest dialErr
          else Ok {| c_IP := ip; c_Port := pd_Port d; c_Remote := remote |}
      end
  end.

(** The rest of [Dial]: [addrs] is what the name resolved to, [handle] the id drawn, [None] where that failed. *)
Definition Dial_finish (caps : NetworkCaps) (d : pendingDial) (addrs : option (list IP)) (net : network) (handle : option bytes) (p : NetProxy) :
    result derror bytes * NetProxy :=
  let released := {| px_handles := px_handles p; px_pendingDials := px_pendingDials p - 1 |} in
  match addrs with
  | None => (Err [ErrNetworkDialFailed], released)
  | Some addrs =>
      match dial_loop caps d net addrs false with
      | Err e => (Err e, released)
      | Ok conn =>
          match handle with
          | None => (Err [ENetIO], released)
          | Some id => (Ok id, {| px_handles := <[id := conn]> (px_handles p); px_pendingDials := px_pendingDials p - 1 |})
          end
      end
  end.

Definition Proxy_Close (id : bytes) (p : NetProxy) : result derror unit * NetProxy :=
  if bool_decide (id = []) then (Err [ENetParams], p) else
  match px_handles p !! id with
  | None => (Err [ErrHandleNotFound], p)
  | Some _ => (Ok (), {| px_handles := delete id (px_handles p); px_pendingDials := px_pendingDials p |})
  end.
Definition Proxy_CloseAll (p : NetProxy) : NetProxy := {| px_handles := ∅; px_pendingDials := px_pendingDials p |}.

(** One plugin's proxy with its dials in progress, as calls of any number of goroutines move it. *)
Inductive proxy_step (caps : NetworkCaps) : NetProxy * list pendingDial → NetProxy * list pendingDial → Prop :=
  | step_begin req p p' d ds : Dial_begin caps req p = Ok (d, p') → proxy_step caps (p, ds) (p', d :: ds)
  | step_finish d ds1 ds2 addrs net handle p :
      (∀ l, addrs = Some l → Forall (λ ip : IP, length ip = IPv4len ∨ length ip = IPv6len) l) →
      (∀ ip port ra, net ip port = Some (Some ra) → length ra = IPv4len ∨ length ra = IPv6len) →
      proxy_step caps (p, ds1 ++ d :: ds2) ((Dial_finish caps d addrs net handle p).2, ds1 ++ ds2)
  | step_close id p ds : proxy_step caps (p, ds) ((Proxy_Close id p).2, ds)
  | step_close_all p ds : proxy_step caps (p, ds) (Proxy_CloseAll p, ds).
Definition proxy_reachable (caps : NetworkCaps) : NetProxy * list pendingDial → Prop := rtc (proxy_step caps) (NewNetProxy, []).

(** ** Relayed channels ([channel_relay_backend.go], [channel_udp_relay_backend.go]) *)

(** [net.SplitHostPort]. *)
Definition last_index (c : byte) (s : bytes) : option nat :=
  match list_find (λ x, x = c) (reverse s) with Some (i, _) => Some (length s - 1 - i)%nat | None => None end.
Definition first_index (c : byte) (s : bytes) : option nat := fst <$> list_find (λ x, x = c) s.
Definition SplitHostPort (hostport : bytes) : option (bytes * bytes) :=
  i ← last_index colon hostport;
  '(host, j, k) ← match hostport with
    | Byte.x5b :: _ =>
        e ← first_index Byte.x5d hostport;
        if bool_decide (S e = i) then Some (take (e - 1) (drop 1 hostport), 1%nat, S e) else None
    | _ => let host := take i hostport in if has_byte colon host then None else Some (host, 0%nat, 0%nat)
    end;
  if has_byte Byte.x5b (drop j hostport) || has_byte Byte.x5d (drop k hostport) then None
  else Some (host, drop (S i) hostport).

Definition only_patterns (proto : bytes) (patterns : list bytes) : list bytes :=
  filter (λ p, match ParseNetworkPattern p with Ok parsed => np_Proto parsed =?? proto | Err _ => false end = true) patterns.

Record RelayBackend := { rb_authorized : bool; rb_target : option (IP * Z) }.
Definition NewRelayBackend : RelayBackend := {| rb_authorized := false; rb_target := None |}.

(** [Authorize] of the relay for [proto]; the purpose is the one the channel was opened for. *)
Definition Authorize (proto purpose : bytes) (caps : option NetworkCaps) (hint : bytes) (lookup : bytes → option (list IP)) (b : RelayBackend) :
    result derror unit * RelayBackend :=
  if negb (purpose =?? proto ++ bytes_of_string "-relay") then (Err [ErrCapabilityDenied], b) else
  match SplitHostPort (TrimSpace hint) with
  | None => (Err [ErrCapabilityDenied], b)
  | Some (host, portStr) =>
      match Atoi portStr with
      | None => (Err [ErrCapabilityDenied], b)
      | Some port =>
          if (port <=? 0) || (65535 <? port) then (Err [ErrCapabilityDenied], b) else
          let caps := caps_of caps in
          let matched := matchingPatternHost (only_patterns proto (nc_Outbound caps)) host port in
          if negb (nc_AllowArbitraryOutbound caps) && bool_decide (matched = None) then (Err [ErrCapabilityDenied], b) else
          match lookup host with
          | None => (Err [ErrNetworkDialFailed], b)
          | Some addrs =>
              match list_find (λ ip, shouldAllowResolvedIP (nc_AllowArbitraryOutbound caps) (nc_AllowPrivateNetworks caps) (default [] matched) ip = true) addrs with
              | None => (Err [ErrCapabilityDenied], b)
              | Some (_, ip) => if rb_authorized b then (Err [ErrChannelBackendReused], b)
                                else (Ok (), {| rb_authorized := true; rb_target := Some (ip, port) |})
              end
          end
      end
  end.
End proxy.
