(* ===== verification/PluginNetLaws.v ===== *)
(** * PluginNetLaws: plugins stay on the addresses they were granted

    The ranges the dial policy withholds, as a table of networks; what every connection of a plugin satisfies, whatever
    its dials race with; and two ways around the intent of the code. *)

From S2P Require Import Prelude Bytes GoText PluginPaths PluginNet.

(** ** Networks *)

(** The bits of a byte and of an address, from the highest. *)
Definition byte_bits (b : byte) : list bool := (λ i, Z.testbit (byte_to_Z b) i) <$> [7; 6; 5; 4; 3; 2; 1; 0].
Definition ip_bits (ip : IP) : list bool := ip ≫= byte_bits.
(** An address in the network [n.1]/[n.2]. *)
Definition in_cidr (ip : IP) (n : bytes * nat) : bool :=
  bool_decide (length ip = length n.1) && (take n.2 (ip_bits ip) =?? take n.2 (ip_bits n.1)).

Definition restricted_networks : list (bytes * nat) :=
  [([Byte.x00; Byte.x00; Byte.x00; Byte.x00], 8%nat);            (* 0.0.0.0/8 *)
   ([Byte.x0a; Byte.x00; Byte.x00; Byte.x00], 8%nat);            (* 10.0.0.0/8 *)
   ([Byte.x64; Byte.x40; Byte.x00; Byte.x00], 10%nat);           (* 100.64.0.0/10 *)
   ([Byte.x7f; Byte.x00; Byte.x00; Byte.x00], 8%nat);            (* 127.0.0.0/8 *)
   ([Byte.xa9; Byte.xfe; Byte.x00; Byte.x00], 16%nat);           (* 169.254.0.0/16 *)
   ([Byte.xac; Byte.x10; Byte.x00; Byte.x00], 12%nat);           (* 172.16.0.0/12 *)
   ([Byte.xc0; Byte.xa8; Byte.x00; Byte.x00], 16%nat);           (* 192.168.0.0/16 *)
   ([Byte.xe0; Byte.x00; Byte.x00; Byte.x00], 4%nat);            (* 224.0.0.0/4 *)
   ([Byte.xff; Byte.xff; Byte.xff; Byte.xff], 32%nat);           (* 255.255.255.255/32 *)
   (zeros 16, 128%nat);                                         (* ::/128 *)
   (zeros 15 ++ [Byte.x01], 128%nat);                           (* ::1/128 *)
   (Byte.xfc :: zeros 15, 7%nat);                               (* fc00::/7 *)
   (Byte.xfe :: Byte.x80 :: zeros 14, 10%nat);                  (* fe80::/10 *)
   (Byte.xff :: zeros 15, 8%nat)].                              (* ff00::/8 *)

(** The IPv4 address inside one of the forms that carry one: mapped, 64:ff9b::, 2002::. *)
Definition stands_for (ip : IP) : IP :=
  if bool_decide (length ip = 16%nat) then
    if take 12 ip =?? v4InV6Prefix then drop 12 ip
    else if take 4 ip =?? [Byte.x00; Byte.x64; Byte.xff; Byte.x9b] then drop 12 ip
    else if take 2 ip =?? [Byte.x20; Byte.x02] then take 4 (drop 2 ip)
    else ip
  else ip.
Definition reserved (ip : IP) : bool := existsb (in_cidr (stands_for ip)) restricted_networks.

(** *** IPv4, byte by byte *)

Lemma reserved_v4 a b c d :
  restricted_kind [a; b; c; d] || isRestrictedIPv4 [a; b; c; d] = existsb (in_cidr [a; b; c; d]) restricted_networks.
Proof.
  destruct a; try reflexivity; destruct b; try reflexivity; destruct c; try reflexivity; destruct d; reflexivity.
Qed.

(** Comparisons of lengths that are known. *)
Ltac known_lengths :=
  repeat match goal with |- context [bool_decide (?a = ?b :> nat)] =>
    let v := eval vm_compute in (bool_decide (a = b)) in change (bool_decide (a = b)) with v end; cbv beta iota; cbn [andb].

Lemma To4_short ip : length ip = 4%nat → To4 ip = Some ip.
Proof. intros Hl. unfold To4. by rewrite bool_decide_eq_true_2. Qed.
Lemma To4_mapped ip4 : length ip4 = 4%nat → To4 (v4InV6Prefix ++ ip4) = Some ip4.
Proof.
  intros Hl. unfold To4. rewrite length_app, Hl. by rewrite take_app_length', drop_app_length' by done.
Qed.
Lemma IP_Equal_mapped ip4 x : length ip4 = 4%nat → (length x = 4%nat ∨ length x = 16%nat) → IP_Equal (v4InV6Prefix ++ ip4) x = IP_Equal ip4 x.
Proof.
  intros Hl [Hx|Hx]; unfold IP_Equal; rewrite length_app, Hl, Hx; known_lengths.
  - rewrite take_app_length', drop_app_length' by done. rewrite (bool_decide_eq_true_2 (v4InV6Prefix = v4InV6Prefix)) by done. done.
  - destruct (decide (v4InV6Prefix ++ ip4 = x)) as [<-|Hn].
    + rewrite take_app_length', drop_app_length' by done. by rewrite !bool_decide_eq_true_2.
    + rewrite bool_decide_eq_false_2 by done. symmetry. apply not_true_iff_false. intros [E1 E2]%andb_true_iff.
      apply bool_decide_eq_true in E1, E2. apply Hn. by rewrite <- (take_drop 12 x), E1, E2.
Qed.
Lemma kind_mapped ip4 : length ip4 = 4%nat → restricted_kind (v4InV6Prefix ++ ip4) = restricted_kind ip4.
Proof.
  intros Hl. unfold restricted_kind, IsUnspecified, IsLoopback, IsPrivate, IsMulticast, IsLinkLocalMulticast, IsLinkLocalUnicast, v4_or_v6.
  rewrite !IP_Equal_mapped, To4_mapped, To4_short by auto. done.
Qed.

(** *** IPv6 *)

Definition bits_byte (l : list bool) : byte := byte_of_Z (foldl (λ v b, 2 * v + Z.b2z b) 0 l).
Lemma bits_byte_bits b : bits_byte (byte_bits b) = b.
Proof. by destruct b. Qed.
Lemma ip_bits_inj ip x : ip_bits ip = ip_bits x → ip = x.
Proof.
  revert x. induction ip as [|b ip IH]; intros [|c x]; [done..|]. intros E. change (byte_bits b ++ ip_bits ip = byte_bits c ++ ip_bits x) in E.
  apply app_inj_1 in E as [E1 E2]; [|done]. f_equal; [|by apply IH]. by rewrite <- (bits_byte_bits b), E1, bits_byte_bits.
Qed.
Lemma length_ip_bits ip : length (ip_bits ip) = (8 * length ip)%nat.
Proof. induction ip as [|b ip IH]; [done|]. change (ip_bits (b :: ip)) with (byte_bits b ++ ip_bits ip). rewrite length_app, IH. cbn. lia. Qed.
Lemma Equal_cidr ip x : length ip = 16%nat → length x = 16%nat → IP_Equal ip x = in_cidr ip (x, 128%nat).
Proof.
  intros Hl Hx. unfold IP_Equal, in_cidr. cbn [fst snd]. rewrite Hl, Hx. known_lengths. rewrite !take_ge by (rewrite length_ip_bits; lia).
  apply bool_decide_ext. split; [by intros ->|apply ip_bits_inj].
Qed.

Lemma reserved_v6 ip : length ip = 16%nat → To4 ip = None → restricted_kind ip = existsb (in_cidr ip) restricted_networks.
Proof.
  intros Hl Ht. unfold restricted_kind, IsLoopback, IsPrivate, IsMulticast, IsLinkLocalMulticast, IsLinkLocalUnicast, v4_or_v6. rewrite Ht, Hl.
  assert (∀ x, length x = 16%nat → IP_Equal ip x = in_cidr ip (x, 128%nat)) as Hfull by (intros x Hx; by apply Equal_cidr).
  assert (IP_Equal ip (IPv4 Byte.x00 Byte.x00 Byte.x00 Byte.x00) = false) as Hz.
  { unfold IP_Equal. rewrite Hl. change (length (IPv4 _ _ _ _)) with 16%nat. known_lengths. apply bool_decide_eq_false. intros ->. done. }
  unfold IsUnspecified. rewrite Hz, (Hfull (zeros 16)) by done. cbn [orb]. clear Hz Ht.
  rewrite (Hfull (zeros 15 ++ [Byte.x01])) by done. clear Hfull. cbn [existsb restricted_networks].
  generalize (in_cidr ip (zeros 16, 128%nat)) as x, (in_cidr ip (zeros 15 ++ [Byte.x01], 128%nat)) as y.
  do 16 (destruct ip as [|?b ip]; [done|]). destruct ip; [|done]. clear Hl. intros x y.
  destruct x; [reflexivity|]. destruct y; [reflexivity|].
  destruct b; try reflexivity; destruct b0; reflexivity.
Qed.

(** The forms that carry an IPv4 address are recognised by their first bytes, and none of them is a restricted network itself. *)
Lemma nat64_prefix ip : length ip = 16%nat →
  (octet 0 ip =? 0) && (octet 1 ip =? 100) && (octet 2 ip =? 255) && (octet 3 ip =? 155) = (take 4 ip =?? [Byte.x00; Byte.x64; Byte.xff; Byte.x9b]).
Proof.
  intros Hl. do 4 (destruct ip as [|?b ip]; [done|]). clear Hl.
  destruct b; try reflexivity; destruct b0; try reflexivity; destruct b1; try reflexivity; destruct b2; reflexivity.
Qed.
Lemma sixto4_prefix ip : length ip = 16%nat → (octet 0 ip =? 32) && (octet 1 ip =? 2) = (take 2 ip =?? [Byte.x20; Byte.x02]).
Proof. intros Hl. do 2 (destruct ip as [|?b ip]; [done|]). clear Hl. destruct b; try reflexivity; destruct b0; reflexivity. Qed.
Lemma wrapper_kind ip : length ip = 16%nat → To4 ip = None →
  take 4 ip = [Byte.x00; Byte.x64; Byte.xff; Byte.x9b] ∨ take 2 ip = [Byte.x20; Byte.x02] → restricted_kind ip = false.
Proof.
  intros Hl Hn Hp. rewrite reserved_v6 by done. clear Hn. do 16 (destruct ip as [|?b ip]; [done|]). destruct ip; [|done].
  destruct Hp as [[= -> -> -> ->]|[= -> ->]]; reflexivity.
Qed.

(** The policy withholds exactly the listed networks, however an IPv4 address is written. *)
Lemma restricted_reserved ip : length ip = IPv4len ∨ length ip = IPv6len → IsRestrictedDialIP ip = reserved ip.
Proof.
  unfold IPv4len, IPv6len. intros Hl. unfold IsRestrictedDialIP. rewrite bool_decide_eq_false_2 by (intros ->; destruct Hl as [Hl|Hl]; done). unfold reserved, stands_for.
  assert (∀ ip4, length ip4 = 4%nat → restricted_kind ip4 || isRestrictedIPv4 ip4 = existsb (in_cidr ip4) restricted_networks) as H4.
  { intros ip4 H4. do 4 (destruct ip4 as [|?a ip4]; [done|]). destruct ip4; [|done]. apply reserved_v4. }
  destruct Hl as [Hl|Hl]; rewrite Hl; known_lengths.
  - rewrite To4_short by done. rewrite <- H4 by done. by destruct (restricted_kind ip).
  - assert (∀ e4, length e4 = 4%nat → (restricted_kind (v4InV6Prefix ++ e4) || match To4 (v4InV6Prefix ++ e4) with Some e => isRestrictedIPv4 e | None => false end)
      = existsb (in_cidr e4) restricted_networks) as Hemb by (intros e4 He; by rewrite kind_mapped, To4_mapped, <- H4).
    destruct (decide (take 12 ip = v4InV6Prefix)) as [Hm|Hm].
    + rewrite (bool_decide_eq_true_2 (take 12 ip = _)) by done. rewrite <- Hemb by (by rewrite length_drop, Hl).
      rewrite <- Hm, take_drop. assert (To4 ip = Some (drop 12 ip)) as ->.
      { unfold To4. rewrite Hl. known_lengths. by rewrite bool_decide_eq_true_2. }
      by destruct (restricted_kind ip).
    + assert (To4 ip = None) as Hn. { unfold To4. rewrite Hl. known_lengths. by rewrite bool_decide_eq_false_2. }
      rewrite (bool_decide_eq_false_2 (take 12 ip = _)) by done. rewrite Hn. unfold embeddedIPv4, To16. rewrite Hl. known_lengths. cbn [mbind option_bind].
      assert ((octet 0 ip =? 0) && (octet 1 ip =? 100) && (octet 2 ip =? 255) && (octet 3 ip =? 155) = (take 4 ip =?? [Byte.x00; Byte.x64; Byte.xff; Byte.x9b])) as -> by by apply nat64_prefix.
      assert ((octet 0 ip =? 32) && (octet 1 ip =? 2) = (take 2 ip =?? [Byte.x20; Byte.x02])) as -> by by apply sixto4_prefix.
      pose proof (reserved_v6 ip Hl Hn) as Hr6.
      case_bool_decide as Ha; [|case_bool_decide as Hb]; [| |by rewrite Hr6; destruct (existsb _ _)].
      * rewrite wrapper_kind by auto. cbn [orb].
        rewrite Hemb; [by rewrite take_ge by (rewrite length_drop; lia)|by rewrite length_take, length_drop, Hl].
      * rewrite wrapper_kind by auto. cbn [orb].
        apply Hemb. by rewrite length_take, length_drop, Hl.
Qed.

(** ** Connections *)

Section proxy.
Context (fold_wide : bytes → bytes → bool).
Implicit Types (caps : NetworkCaps) (ip : IP).

(** The manifest lists a host with a property at this port. *)
Definition listed (caps : NetworkCaps) (port : Z) (P : NetworkPattern → Prop) : Prop :=
  ∃ pattern parsed, pattern ∈ nc_Outbound caps ∧ ParseNetworkPattern pattern = Ok parsed ∧ matchPortSpec (np_PortSpec parsed) port = true ∧ P parsed.
(** The host of a pattern is this address, written out. *)
Definition spells (ip : IP) (host : bytes) : Prop := ∃ lit, ParseIP (TrimSpace host) = Some lit ∧ IP_Equal lit ip = true.

(** What the user granted for an address and a port when the plugin was installed; [P] says which patterns count. *)
Record granted (caps : NetworkCaps) (P : NetworkPattern → Prop) (ip : IP) (port : Z) : Prop := {
  gr_port : 1 ≤ port ≤ 65535;
  gr_listed : nc_AllowArbitraryOutbound caps = false → listed caps port P;
  gr_reserved : reserved ip = true → (nc_AllowArbitraryOutbound caps = true ∧ nc_AllowPrivateNetworks caps = true) ∨
    listed caps port (λ parsed, P parsed ∧ spells ip (np_Host parsed));
}.

(** The host of the policy comes from a pattern. *)
Definition sourced (caps : NetworkCaps) (P : NetworkPattern → Prop) (port : Z) (patternHost : bytes) : Prop :=
  (patternHost = [] ∧ nc_AllowArbitraryOutbound caps = true) ∨ listed caps port (λ parsed, P parsed ∧ np_Host parsed = patternHost).

Lemma matching_listed patterns host port h : matchingPatternHost fold_wide patterns host port = Some h →
  ∃ pattern parsed, pattern ∈ patterns ∧ ParseNetworkPattern pattern = Ok parsed ∧ matchPortSpec (np_PortSpec parsed) port = true ∧ np_Host parsed = h.
Proof.
  induction patterns as [|p ps IH]; [done|]. cbn [matchingPatternHost]. destruct (ParseNetworkPattern p) as [parsed|] eqn:E.
  - destruct (_ && _) eqn:Em.
    + apply andb_true_iff in Em as [_ Em]. intros [= <-]. exists p, parsed. split; [by left|done].
    + intros (p' & q & Hp & Hq)%IH. exists p', q. split; [by right|done].
  - intros (p' & q & Hp & Hq)%IH. exists p', q. split; [by right|done].
Qed.
Lemma AllowResolved_reserved h ip : length ip = IPv4len ∨ length ip = IPv6len → AllowResolvedDialIP h ip = true → reserved ip = true → spells ip h.
Proof.
  intros Hl. unfold AllowResolvedDialIP. rewrite restricted_reserved by done. intros Ha Hr. rewrite Hr in Ha. destruct (bool_decide _); [done|].
  cbn [negb] in Ha. destruct (ParseIP _) as [lit|] eqn:E; [|done]. by exists lit.
Qed.
Lemma allowed_granted caps P port h ip : length ip = IPv4len ∨ length ip = IPv6len → 1 ≤ port ≤ 65535 → sourced caps P port h →
  shouldAllowResolvedIP (nc_AllowArbitraryOutbound caps) (nc_AllowPrivateNetworks caps) h ip = true → granted caps P ip port.
Proof.
  intros Hl Hp Hs Ha. constructor; [done| |].
  - intros Harb. destruct Hs as [[_ ?]|(pt & q & ? & ? & ? & ? & _)]; [congruence|]. by exists pt, q.
  - intros Hr. unfold shouldAllowResolvedIP in Ha. rewrite restricted_reserved, Hr in Ha by done. cbn [negb orb] in Ha.
    destruct (_ && _) eqn:Em; [apply andb_true_iff in Em; by left|right]. apply AllowResolved_reserved in Ha; [|done|done].
    destruct Hs as [[-> _]|(pt & q & Hin & Hq & Hm & HP & Hh)]; [by destruct Ha as (lit & E & _)|]. exists pt, q. by rewrite Hh.
Qed.

Definition any_proto : NetworkPattern → Prop := λ _, True.
Definition conn_ok (caps : NetworkCaps) (c : Conn) : Prop :=
  granted caps any_proto (c_IP c) (c_Port c) ∧ ∀ ra, c_Remote c = Some ra → granted caps any_proto ra (c_Port c).
Definition dial_ok (caps : NetworkCaps) (d : pendingDial) : Prop := 1 ≤ pd_Port d ≤ 65535 ∧ sourced caps any_proto (pd_Port d) (pd_patternHost d).
Record proxy_ok (caps : NetworkCaps) (s : NetProxy * list pendingDial) : Prop := {
  ok_conns : map_Forall (λ _ c, conn_ok caps c) (px_handles s.1); ok_dials : Forall (dial_ok caps) s.2;
  ok_pending : px_pendingDials s.1 = len s.2; ok_bound : Z.of_nat (size (px_handles s.1)) + len s.2 ≤ MaxNetConnectionsPerPlugin;
}.

Lemma begin_ok caps req p d p' : Dial_begin fold_wide caps req p = Ok (d, p') → dial_ok caps d ∧ px_handles p' = px_handles p ∧
  px_pendingDials p' = px_pendingDials p + 1 ∧ Z.of_nat (size (px_handles p)) + px_pendingDials p < MaxNetConnectionsPerPlugin.
Proof.
  unfold Dial_begin. intros [_ [Hp [Ha [Hm Ho]%fail_if_Ok]%fail_if_Ok]%fail_if_Ok]%fail_if_Ok. injection Ho as <- <-.
  apply orb_false_iff in Hp as [[_ Hp1]%orb_false_iff Hp2]. apply Z.leb_gt in Hp1. apply Z.ltb_ge in Hp2. apply Z.leb_gt in Hm.
  split; [|done]. split; [cbn; lia|]. cbn. destruct (matchingPatternHost _ _ _ _) as [h|] eqn:E.
  - right. apply matching_listed in E as (pt & q & ? & ? & ? & ?). by exists pt, q.
  - left. split; [done|]. by destruct (nc_AllowArbitraryOutbound caps).
Qed.
Lemma loop_ok caps d net addrs e c : dial_ok caps d → Forall (λ ip : IP, length ip = IPv4len ∨ length ip = IPv6len) addrs →
  (∀ ip port ra, net ip port = Some (Some ra) → length ra = IPv4len ∨ length ra = IPv6len) →
  dial_loop caps d net addrs e = Ok c → conn_ok caps c.
Proof.
  intros [Hp Hs] Hall Hnet. revert e. induction Hall as [|ip addrs Hl _ IH]; intros e; cbn [dial_loop]; [done|].
  destruct (shouldAllowResolvedIP _ _ _ ip) eqn:Ea; cbn [negb]; [|apply IH]. destruct (net ip (pd_Port d)) as [remote|] eqn:En; [|apply IH].
  destruct (match remote with Some ra => _ | None => _ end) eqn:Er; [apply IH|]. intros [= <-]. split; cbn.
  - by eapply allowed_granted.
  - intros ra ->. apply negb_false_iff in Er. eapply allowed_granted; [by eapply Hnet|done|done|exact Er].
Qed.

Lemma proxy_step_ok caps s s' : proxy_step fold_wide caps s s' → proxy_ok caps s → proxy_ok caps s'.
Proof.
  destruct 1 as [req p p' d ds Hb|d ds1 ds2 addrs net handle p Ha Hn|id p ds|p ds]; intros [Hc Hd Hpend Hbound]; cbn in *.
  - apply begin_ok in Hb as (Hok & Eh & Ep & Hm). constructor; cbn; rewrite ?Eh; [done|by constructor|lia|lia].
  - apply Forall_app in Hd as [Hd1 [Hd2 Hd3]%Forall_cons]. rewrite length_app in *. cbn in Hpend, Hbound.
    assert (proxy_ok caps ({| px_handles := px_handles p; px_pendingDials := px_pendingDials p - 1 |}, ds1 ++ ds2)) as Hrel.
    { constructor; cbn; rewrite ?length_app; [done|by apply Forall_app|lia|lia]. }
    unfold Dial_finish. destruct addrs as [addrs|]; [|done]. destruct (dial_loop caps d net addrs false) as [c|] eqn:El; [|done].
    destruct handle as [id|]; [|done]. constructor; cbn; rewrite ?length_app; [|by apply Forall_app|lia|].
    + apply map_Forall_insert_2; [|done]. eapply loop_ok; [done|by apply Ha|done|done].
    + destruct (px_handles p !! id) as [c0|] eqn:E0; [rewrite map_size_insert_Some by eauto; lia|rewrite map_size_insert_None by done; lia].
  - unfold Proxy_Close. case_bool_decide; [by constructor|]. destruct (px_handles p !! id) eqn:E0; [|by constructor]. constructor; cbn; [|done|done|].
    + by apply map_Forall_delete.
    + rewrite map_size_delete_Some by eauto. lia.
  - constructor; cbn; [apply map_Forall_empty|done|done|]. rewrite map_size_empty. lia.
Qed.
Lemma proxy_reachable_ok caps s : proxy_reachable fold_wide caps s → proxy_ok caps s.
Proof.
  intros Hr. assert (proxy_ok caps (NewNetProxy, [])) as H0 by (constructor; cbn; [apply map_Forall_empty|by constructor|done|by vm_compute]).
  induction Hr as [|s1 s2 s3 Hs _ IH]; [done|]. apply IH. by eapply proxy_step_ok.
Qed.


(** A plugin never holds more than its eight connections, those being dialled included, and the count of reserved
    slots is the number of dials in progress in every interleaving of dials, closes and shutdown. *)
Theorem plugin_slots_bounded (caps : NetworkCaps) (p : NetProxy) (ds : list pendingDial) :
  proxy_reachable fold_wide caps (p, ds) → px_pendingDials p = len ds ∧ Z.of_nat (size (px_handles p)) + len ds ≤ MaxNetConnectionsPerPlugin.
Proof. intros [_ _ Hp Hb]%proxy_reachable_ok. done. Qed.

(** ** Relayed channels *)

Definition of_proto (proto : bytes) : NetworkPattern → Prop := λ q, np_Proto q = proto.
(** The calls of [Authorize] on one backend: the purpose, the hint and what names resolve to. *)
Definition relay_run (proto : bytes) (caps : option NetworkCaps) (b : RelayBackend) (calls : list (bytes * bytes * (bytes → option (list IP)))) : RelayBackend :=
  foldl (λ b c, (Authorize fold_wide proto c.1.1 caps c.1.2 c.2 b).2) b calls.

Lemma Authorize_cases proto purpose (caps : option NetworkCaps) hint lookup b :
  (∀ host l, lookup host = Some l → Forall (λ ip : IP, length ip = IPv4len ∨ length ip = IPv6len) l) →
  (Authorize fold_wide proto purpose caps hint lookup b).2 = b ∨
  rb_authorized b = false ∧ ∃ ip port, (Authorize fold_wide proto purpose caps hint lookup b).2 = {| rb_authorized := true; rb_target := Some (ip, port) |} ∧
    granted (caps_of caps) (of_proto proto) ip port.
Proof.
  intros Hlook. unfold Authorize. destruct (negb _); [by left|]. destruct (SplitHostPort _) as [[host portStr]|]; [|by left].
  destruct (Atoi portStr) as [port|]; [|by left]. destruct (_ || _) eqn:Ep; [by left|]. apply orb_false_iff in Ep as [Ep1%Z.leb_gt Ep2%Z.ltb_ge].
  set (matched := matchingPatternHost _ _ _ _). destruct (_ && _) eqn:Ea; [by left|]. destruct (lookup host) as [addrs|] eqn:El; [|by left].
  destruct (list_find _ addrs) as [[i ip]|] eqn:Ef; [|by left]. destruct (rb_authorized b) eqn:Eb; [by left|]. right. split; [done|].
  exists ip, port. split; [done|]. apply list_find_Some in Ef as (Hi & Hok & _). apply list_elem_of_lookup_2 in Hi.
  eapply (allowed_granted _ _ _ (default [] matched)); [|lia| |exact Hok].
  { specialize (Hlook _ _ El). rewrite Forall_forall in Hlook. by apply Hlook. }
  destruct matched as [h|] eqn:Em.
  - right. apply matching_listed in Em as (pt & q & Hin & Hq & Hm & Hh). apply list_elem_of_filter in Hin as [Hpr Hin]. rewrite Hq in Hpr.
    apply bool_decide_eq_true in Hpr. by exists pt, q.
  - left. split; [done|]. by destruct (nc_AllowArbitraryOutbound _).
Qed.

(** The target of a relayed channel was granted for its own protocol, and stays. Whatever a plugin asks of one backend, and in whatever
    order, the address it is given is covered as a dialled one is, by a pattern of the relay's own protocol where a pattern is needed,
    and nothing asked later moves it. *)
Theorem relay_target_confined (proto : bytes) (caps : option NetworkCaps) (calls later : list (bytes * bytes * (bytes → option (list IP)))) (ip : IP) (port : Z) :
  Forall (λ c : bytes * bytes * (bytes → option (list IP)), ∀ host l, c.2 host = Some l → Forall (λ ip : IP, length ip = IPv4len ∨ length ip = IPv6len) l) (calls ++ later) →
  rb_target (relay_run proto caps NewRelayBackend calls) = Some (ip, port) →
  granted (caps_of caps) (of_proto proto) ip port ∧
  rb_target (relay_run proto caps NewRelayBackend (calls ++ later)) = Some (ip, port).
Proof.
  intros [Hc Hl]%Forall_app Ht.
  assert (∀ b, (rb_authorized b = false → rb_target b = None) → (∀ ip port, rb_target b = Some (ip, port) → granted (caps_of caps) (of_proto proto) ip port) →
    let b' := relay_run proto caps b calls in (rb_authorized b' = false → rb_target b' = None) ∧
      ∀ ip port, rb_target b' = Some (ip, port) → granted (caps_of caps) (of_proto proto) ip port) as Hinv.
  { clear Ht. induction Hc as [|c calls Hc _ IH]; intros b Hb1 Hb2; [done|]. apply IH; clear IH;
      destruct (Authorize_cases proto c.1.1 caps c.1.2 c.2 b Hc) as [->|(_ & ip' & port' & -> & Hg)]; try done. by intros ? ? [= <- <-]. }
  destruct (Hinv NewRelayBackend) as [Ha Hg]; [done|done|]. split; [by apply Hg|]. unfold relay_run in *. rewrite foldl_app.
  revert Ht Ha. generalize (foldl (λ b c, (Authorize fold_wide proto c.1.1 caps c.1.2 c.2 b).2) NewRelayBackend calls) as b. clear -Hl.
  induction Hl as [|c later Hc _ IH]; intros b Ht Ha; [done|]. cbn [foldl].
  destruct (Authorize_cases proto c.1.1 caps c.1.2 c.2 b Hc) as [->|(Hf & _)]; [by apply IH|]. rewrite (Ha Hf) in Ht. done.
Qed.
End proxy.

(** ** A plugin to evaluate *)

Definition nd_ip : IP := IPv4 Byte.xc0 Byte.xa8 Byte.x01 Byte.x01.
Definition nd_host : bytes := bytes_of_string "192.168.1.1".
Definition nd_caps (proto : string) : NetworkCaps := {|
  nc_Outbound := [bytes_of_string (proto ++ ":192.168.1.1:53")%string]; nc_AllowArbitraryOutbound := false; nc_AllowPrivateNetworks := false |}.
Definition nd_dial : netDialParams := {| dp_Network := []; dp_Host := nd_host; dp_Port := 53 |}.
Definition nd_lookup (_ : bytes) : option (list IP) := Some [nd_ip].
Definition nd_net (_ : IP) (_ : Z) : option (option IP) := Some (Some nd_ip).
Definition nd_begun (caps : NetworkCaps) : pendingDial * NetProxy := of_ok ({| pd_Host := []; pd_Port := 0; pd_patternHost := [] |}, NewNetProxy)
  (Dial_begin (λ _ _, false) caps nd_dial NewNetProxy).
Definition nd_end (caps : NetworkCaps) : NetProxy :=
  (Dial_finish caps (nd_begun caps).1 (nd_lookup nd_host) nd_net (Some [Byte.x01]) (nd_begun caps).2).2.

Lemma nd_reachable caps : is_ok (Dial_begin (λ _ _, false) caps nd_dial NewNetProxy) = true → proxy_reachable (λ _ _, false) caps (nd_end caps, []).
Proof.
  intros Hb. assert (Dial_begin (λ _ _, false) caps nd_dial NewNetProxy = Ok ((nd_begun caps).1, (nd_begun caps).2)) as E.
  { unfold nd_begun. destruct (Dial_begin _ _ _ _) as [[d p]|]; [done|done]. }
  eapply rtc_l; [by eapply step_begin|]. apply rtc_once, (step_finish _ caps _ [] []).
  - intros l Hl. apply (inj Some) in Hl as <-. constructor; [by right|constructor].
  - intros ip port ra Hra. apply (inj Some) in Hra. apply (inj Some) in Hra as <-. by right.
Qed.

Definition nd_conn : Conn := {| c_IP := nd_ip; c_Port := 53; c_Remote := Some nd_ip |}.
Lemma plugin_slots_bounded_witness :
  px_pendingDials (nd_end (nd_caps "tcp")) = 0 ∧ Z.of_nat (size (px_handles (nd_end (nd_caps "tcp")))) + 0 ≤ MaxNetConnectionsPerPlugin.
Proof.
  apply (plugin_slots_bounded (λ _ _, false) (nd_caps "tcp") (nd_end (nd_caps "tcp")) []). apply nd_reachable. vm_compute. reflexivity.
Defined.

Definition nd_call : bytes * bytes * (bytes → option (list IP)) := (bytes_of_string "udp-relay", bytes_of_string "192.168.1.1:53", nd_lookup).
Lemma relay_target_confined_witness :
  granted (nd_caps "udp") (of_proto udp) nd_ip 53 ∧
  rb_target (relay_run (λ _ _, false) udp (Some (nd_caps "udp")) NewRelayBackend ([nd_call] ++ [nd_call])) = Some (nd_ip, 53).
Proof.
  apply (relay_target_confined (λ _ _, false) udp (Some (nd_caps "udp")) [nd_call] [nd_call] nd_ip 53).
  - repeat constructor; intros host l Hl; apply (inj Some) in Hl as <-; repeat constructor; by right.
  - vm_compute. reflexivity.
Defined.

(** A pattern for UDP opens TCP. [net.dial], which speaks TCP only, matches the hosts of all patterns and not only
    those of its own protocol: a manifest whose one pattern is for UDP at a private address gets a TCP connection to it, which a relayed channel refuses. *)
Theorem udp_pattern_dials_tcp :
  (∀ pattern q, pattern ∈ nc_Outbound (nd_caps "udp") → ParseNetworkPattern pattern = Ok q → np_Proto q = udp) ∧
  proxy_reachable (λ _ _, false) (nd_caps "udp") (nd_end (nd_caps "udp"), []) ∧ px_handles (nd_end (nd_caps "udp")) !! [Byte.x01] = Some nd_conn ∧
  (Authorize (λ _ _, false) tcp (bytes_of_string "tcp-relay") (Some (nd_caps "udp")) (bytes_of_string "192.168.1.1:53") nd_lookup NewRelayBackend).1
    = Err [ErrCapabilityDenied].
Proof.
  split; [|split; [apply nd_reachable; by vm_compute|split; by vm_compute]].
  intros pattern q ->%list_elem_of_singleton Hq. vm_compute in Hq. injection Hq as <-. by vm_compute.
Qed.
