(* ===== verification/PathSafe.v ===== *)
(** * PathSafe: files a plugin may touch

    [internal/pkg/pathsafe] ([pathsafe.go], [secure_path.go], [secure_open.go], [verify_open.go]) and its use in
    [internal/infra/plugin/capability]: [paths.go], [paths_secure.go] and the paths of [fs_proxy.go], on Unix. What Go's [path/filepath] does to
    the text of a path is written out by its segments. What the kernel says of a path is the record [OS]; checks that follow each other may
    see a changed file system, so each is given its own. The kernel of a file system at rest is [os_at]. *)

From S2P Require Import Prelude Bytes GoText.

(** ** [path/filepath] *)

Definition slash : byte := Byte.x2f.
Definition dot1 : bytes := [Byte.x2e].
Definition dot2 : bytes := [Byte.x2e; Byte.x2e].

Definition rooted (s : bytes) : bool := match s with Byte.x2f :: _ => true | _ => false end.
(** One element of a path, after those kept so far: a [".."] takes the last one back, at the root it disappears, and in
    front of a relative path it stays. *)
Definition clean_step (root : bool) (acc : list bytes) (seg : bytes) : list bytes :=
  if bool_decide (seg = []) || bool_decide (seg = dot1) then acc
  else if bool_decide (seg = dot2) then
    match last acc with
    | None => if root then [] else [dot2]
    | Some l => if negb root && bool_decide (l = dot2) then acc ++ [dot2] else take (length acc - 1) acc
    end
  else acc ++ [seg].
(** The elements of a cleaned path. *)
Definition elements (s : bytes) : list bytes := foldl (clean_step (rooted s)) [] (Split s slash).

Fixpoint join_slash (l : list bytes) : bytes :=
  match l with [] => [] | [x] => x | x :: l' => x ++ slash :: join_slash l' end.
Definition path_of (root : bool) (l : list bytes) : bytes :=
  if root then slash :: join_slash l else if bool_decide (l = []) then dot1 else join_slash l.
Definition Clean (s : bytes) : bytes := path_of (rooted s) (elements s).
(** [filepath.Join] of two elements. *)
Definition Join (a b : bytes) : bytes :=
  if bool_decide (a = []) then (if bool_decide (b = []) then [] else Clean b)
  else if bool_decide (b = []) then Clean a else Clean (a ++ slash :: b).
(** [filepath.Abs]; [cwd] is the working directory. *)
Definition Abs (cwd s : bytes) : bytes := if rooted s then Clean s else Join cwd s.

Fixpoint strip_common (base targ : list bytes) : list bytes * list bytes :=
  match base, targ with
  | b :: base', t :: targ' => if b =?? t then strip_common base' targ' else (base, targ)
  | _, _ => (base, targ)
  end.
(** [filepath.Rel]: the elements the two paths do not share, those of the base as steps up. *)
Definition Rel (base targ : bytes) : option bytes :=
  if Clean targ =?? Clean base then Some dot1
  else if negb (Bool.eqb (rooted base) (rooted targ)) then None
  else
    let '(up, down) := strip_common (elements base) (elements targ) in
    if bool_decide (head up = Some dot2) then None
    else Some (join_slash ((const dot2 <$> up) ++ down)).

(** [filepath.Dir] and [filepath.Base] of a cleaned absolute path. *)
Definition Dir (s : bytes) : bytes := path_of true (take (length (elements s) - 1) (elements s)).
Definition Base (s : bytes) : bytes := default [slash] (last (elements s)).

(** ** [pathsafe.go] *)

Definition UnderRoot (root target : bytes) : bool :=
  if negb (utf8_ValidString root) || negb (utf8_ValidString target) then false else
  if Clean root =?? Clean target then true else
  match Rel (Clean root) (Clean target) with
  | None => false
  | Some rel => negb (rel =?? dot2) && negb (HasPrefix rel (dot2 ++ [slash]))
  end.

(** [EOther] stands for the errors of the operating system and of [filepath]; [EPathFuel] for a check that would call itself without end. *)
Inductive fsentinel := ErrPathDenied | ErrNotExist | ErrFSCapabilityDenied | EOther | EPathFuel.
#[export] Instance fsentinel_eq_dec : EqDecision fsentinel.
Proof. solve_decision. Defined.
Abbreviation ferror := (list fsentinel).

Definition ResolveUnderRoot (cwd root rel : bytes) : result ferror bytes :=
  fail_if negb (utf8_ValidString root) || negb (utf8_ValidString rel) with [EOther] ;;
  let rootAbs := Clean (Abs cwd root) in
  let candidate := if rooted rel then rel else Join rootAbs rel in
  let targetAbs := Clean (Abs cwd candidate) in
  if UnderRoot rootAbs targetAbs then Ok targetAbs else Err [EOther].

(** ** The kernel's answers *)

(** [os.Lstat]: no such file, another failure, or whether it is a symbolic link. *)
Inductive lstat := LNotExist | LFailed | LFound (symlink : bool).
Record OS := { Lstat : bytes → lstat; EvalSymlinks : bytes → option bytes }.

(** ** [secure_path.go] *)

(** [matchRoot]: the root as spelt, else as resolved. *)
Fixpoint match_spelt (absPath : bytes) (roots : list bytes) : option bytes :=
  match roots with
  | [] => None
  | root :: rest => if UnderRoot (Clean root) absPath then Some (Clean root) else match_spelt absPath rest
  end.
Fixpoint match_resolved (os : OS) (absPath : bytes) (roots : list bytes) : option bytes :=
  match roots with
  | [] => None
  | root :: rest =>
      match EvalSymlinks os (Clean root) with
      | Some resolved => if UnderRoot (Clean resolved) absPath then Some (Clean resolved) else match_resolved os absPath rest
      | None => match_resolved os absPath rest
      end
  end.
Definition matchRoot (os : OS) (absPath : bytes) (roots : list bytes) : option bytes :=
  match match_spelt absPath roots with Some r => Some r | None => match_resolved os absPath roots end.

Definition underResolvedRoot (os : OS) (root resolved : bytes) : bool :=
  if UnderRoot root resolved then true else
  match EvalSymlinks os root with Some rootEval => UnderRoot (Clean rootEval) resolved | None => false end.

(** The walk over the segments below the root; [new] is [secureNewPath]. *)
Fixpoint secure_walk (os : OS) (new : bytes → result ferror bytes) (matchedRoot current : bytes) (segments : list bytes) : result ferror bytes :=
  match segments with
  | [] => Ok matchedRoot
  | seg :: rest =>
      if bool_decide (seg = []) || bool_decide (seg = dot1) then secure_walk os new matchedRoot current rest else
      if bool_decide (seg = dot2) then Err [ErrPathDenied] else
      let current := Join current seg in
      match Lstat os current with
      | LNotExist => new current
      | LFailed => Err [EOther]
      | LFound true => Err [ErrPathDenied]
      | LFound false =>
          if bool_decide (rest = []) then
            match EvalSymlinks os current with
            | None => Err [EOther]
            | Some eval => if underResolvedRoot os matchedRoot (Clean eval) then Ok (Clean eval) else Err [ErrPathDenied]
            end
          else secure_walk os new matchedRoot current rest
      end
  end.

(** [SecurePathUnderRoots] and [secureNewPath], which call each other; a nested call asks the kernel anew. *)
Fixpoint secure_path (fuel : nat) (os : nat → OS) (absPath : bytes) (roots : list bytes) : result ferror bytes :=
  match fuel with
  | O => Err [EPathFuel]
  | S n =>
      let absPath := Clean absPath in
      let os0 := os n in
      match matchRoot os0 absPath roots with
      | None => Err [ErrPathDenied]
      | Some matchedRoot =>
          match Rel matchedRoot absPath with
          | None => Err [ErrPathDenied]
          | Some rel =>
              if rel =?? dot1 then Ok matchedRoot else
              secure_walk os0 (λ target,
                if negb (UnderRoot matchedRoot (Dir target)) then Err [ErrPathDenied] else
                evalParent ← secure_path n os (Dir target) [matchedRoot];
                let resolved := Join evalParent (Base target) in
                if underResolvedRoot os0 matchedRoot resolved then Ok resolved else Err [ErrPathDenied])
              matchedRoot matchedRoot (Split rel slash)
          end
      end
  end.
(** A nested call is on a shorter path. *)
Definition SecurePathUnderRoots (os : nat → OS) (absPath : bytes) (roots : list bytes) : result ferror bytes :=
  secure_path (S (length (elements absPath))) os absPath roots.

(** ** Roots and requests of a plugin ([paths.go], [fs_proxy.go]) *)

Definition placeholderPluginData : bytes := bytes_of_string "${pluginData}".
(** [strings.ReplaceAll]. *)
Fixpoint replace_all (fuel : nat) (s old new : bytes) : bytes :=
  match fuel, s with
  | S n, c :: s' => if HasPrefix s old then new ++ replace_all n (drop (length old) s) old new else c :: replace_all n s' old new
  | _, _ => s
  end.
Definition ReplaceAll (s old new : bytes) : bytes := replace_all (length s) s old new.

Definition resolveRoots (cwd : bytes) (patterns : list bytes) (pluginDataDir : bytes) : list bytes :=
  foldl (λ roots pattern,
    let pattern := TrimSpace pattern in
    if bool_decide (pattern = []) then roots else
    let abs := Clean (Abs cwd (ReplaceAll pattern placeholderPluginData pluginDataDir)) in
    if bool_decide (abs ∈ roots) then roots else roots ++ [abs]) [] patterns.

Definition ResolvePath (cwd requestPath pluginDataDir : bytes) (roots : list bytes) : result ferror bytes :=
  if bool_decide (roots = []) then Err [ErrFSCapabilityDenied] else
  let candidate := if rooted requestPath then requestPath else Join pluginDataDir requestPath in
  let abs := Clean (Abs cwd candidate) in
  if existsb (λ root, UnderRoot root abs) roots then Ok abs else Err [ErrFSCapabilityDenied].

(** [resolveSafePath] with the roots of the operation. *)
Definition resolveSafePath (cwd : bytes) (os : nat → OS) (pluginDataDir : bytes) (roots : list bytes) (requestPath : bytes) : result ferror bytes :=
  path ← ResolvePath cwd requestPath pluginDataDir roots;
  match SecurePathUnderRoots os path roots with
  | Ok resolved => Ok resolved
  | Err e => Err (if bool_decide (e = [ErrPathDenied]) then [ErrFSCapabilityDenied] else e)
  end.

(** ** A file system at rest *)

(** Directories, files with their content, and links, by the names that lead to them from the root, none of which is a link. *)
Inductive node := NDir | NFile (content : bytes) | NLink (target : bytes).
#[export] Instance node_eq_dec : EqDecision node.
Proof. solve_decision. Defined.
Abbreviation tree := (gmap (list bytes) node).

(** How the kernel follows a path: the names reached so far, those still to go, and how many links may yet be followed. *)
Definition step_up (acc : list bytes) : list bytes := take (length acc - 1) acc.
Fixpoint walk (fs : tree) (links : nat) : list bytes → list bytes → result lstat (list bytes) :=
  fix go acc todo :=
    match todo with
    | [] => Ok acc
    | seg :: rest =>
        if bool_decide (seg = []) || bool_decide (seg = dot1) then go acc rest
        else if bool_decide (seg = dot2) then go (step_up acc) rest
        else match fs !! (acc ++ [seg]) with
             | None => Err LNotExist
             | Some (NLink t) =>
                 match links with
                 | O => Err LFailed
                 | S n => walk fs n (if rooted t then [] else acc) (Split t slash ++ rest)
                 end
             | Some NDir => go (acc ++ [seg]) rest
             | Some (NFile _) => if bool_decide (rest = []) then Ok (acc ++ [seg]) else Err LFailed
             end
    end.
Definition max_links : nat := 255.
(** Where an absolute path really leads. *)
Definition real (fs : tree) (path : bytes) : result lstat (list bytes) := walk fs max_links [] (Split path slash).
(** The root is a directory. *)
Definition is_dir (fs : tree) (p : list bytes) : bool := bool_decide (p = []) || bool_decide (fs !! p = Some NDir).
(** The entry an absolute path names, the link itself where it is one: its directory and its name; [None] for the root. *)
Definition entry_of (fs : tree) (path : bytes) : result lstat (option (list bytes * bytes)) :=
  match last (elements path) with
  | None => Ok None
  | Some name =>
      dir ← real fs (Dir path);
      if is_dir fs dir then Ok (Some (dir, name)) else Err LFailed
  end.

Definition os_at (fs : tree) : OS := {|
  Lstat := λ path,
    match entry_of fs path with
    | Err e => e
    | Ok None => LFound false
    | Ok (Some (dir, name)) =>
        match fs !! (dir ++ [name]) with None => LNotExist | Some (NLink _) => LFound true | Some _ => LFound false end
    end;
  EvalSymlinks := λ path, match real fs path with Ok q => Some (path_of true q) | Err _ => None end |}.

(** ** Opening and writing ([secure_open.go], [verify_open.go], [file_chunk.go]) *)

Section files.
Context (fs : tree).
Let os : nat → OS := λ _, os_at fs.

Definition os_error (e : lstat) : fsentinel := match e with LNotExist => ErrNotExist | _ => EOther end.

(** [openExistingNoFollow]: the names that really lead to what was opened. *)
Definition openExistingNoFollow (path : bytes) (write : bool) : result ferror (list bytes) :=
  match entry_of fs path with
  | Err e => Err [os_error e]
  | Ok None => if write then Err [EOther] else Ok []
  | Ok (Some (dir, name)) =>
      match fs !! (dir ++ [name]) with
      | None => Err [ErrNotExist]
      | Some (NLink _) => Err [EOther]
      | Some NDir => if write then Err [EOther] else Ok (dir ++ [name])
      | Some (NFile _) => Ok (dir ++ [name])
      end
  end.
(** [VerifyOpenFileUnderRoots], on what [FinalPath] reports. *)
Definition VerifyOpenFileUnderRoots (roots : list bytes) (f : list bytes) : result ferror unit :=
  match SecurePathUnderRoots os (path_of true f) roots with Ok _ => Ok () | Err _ => Err [ErrPathDenied] end.
Definition OpenExistingFile (roots : list bytes) (absPath : bytes) (write : bool) : result ferror (list bytes) :=
  verified ← SecurePathUnderRoots os absPath roots;
  f ← openExistingNoFollow verified write;
  _ ← VerifyOpenFileUnderRoots roots f;
  Ok f.

(** [ReadFileChunk]: the bytes read, the size and whether the end was reached. *)
Definition ReadFileChunk (roots : list bytes) (absPath : bytes) (offset maxBytes : Z) : result ferror (bytes * Z * bool) :=
  let maxBytes := if maxBytes <=? 0 then Z.shiftl 1 20 else maxBytes in
  f ← OpenExistingFile roots absPath false;
  match fs !! f with
  | Some (NFile content) =>
      fail_if (offset <? 0) || (len content <? offset) with [ErrPathDenied] ;;
      let data := take (Z.to_nat (Z.min maxBytes (len content - offset))) (drop (Z.to_nat offset) content) in
      Ok (data, len content, len content <=? offset + len data)
  | _ => Err [ErrPathDenied]
  end.

(** [OpenExistingDir] and its entries. *)
Definition OpenExistingDir (roots : list bytes) (absPath : bytes) : result ferror (list bytes) :=
  verified ← SecurePathUnderRoots os absPath roots;
  f ← match entry_of fs verified with
      | Err e => Err [os_error e]
      | Ok None => Ok []
      | Ok (Some (dir, name)) => match fs !! (dir ++ [name]) with Some NDir => Ok (dir ++ [name]) | None => Err [ErrNotExist] | _ => Err [EOther] end
      end;
  _ ← VerifyOpenFileUnderRoots roots f;
  Ok f.
End files.

(** [createNewNoFollow]: an empty file where there is nothing. *)
Definition createNewNoFollow (fs : tree) (path : bytes) : result ferror (list bytes * tree) :=
  match entry_of fs path with
  | Err e => Err [os_error e]
  | Ok None => Err [EOther]
  | Ok (Some (dir, name)) =>
      match fs !! (dir ++ [name]) with
      | Some _ => Err [EOther]
      | None => Ok (dir ++ [name], <[dir ++ [name] := NFile []]> fs)
      end
  end.
(** The file is removed again when it turns out to lie outside. *)
Definition CreateNewFile (fs : tree) (roots : list bytes) (absPath : bytes) : result ferror (list bytes) * tree :=
  match SecurePathUnderRoots (λ _, os_at fs) absPath roots with
  | Err e => (Err e, fs)
  | Ok verified =>
      match createNewNoFollow fs verified with
      | Err e => (Err e, fs)
      | Ok (f, fs') => match VerifyOpenFileUnderRoots fs' roots f with Ok _ => (Ok f, fs') | Err e => (Err e, delete f fs') end
      end
  end.
(** The file to write, made when it is not there. *)
Definition open_or_create (fs : tree) (roots : list bytes) (absPath : bytes) : result ferror (list bytes) * tree :=
  match OpenExistingFile fs roots absPath true with
  | Ok f => (Ok f, fs)
  | Err e => if bool_decide (ErrNotExist ∈ e) then CreateNewFile fs roots absPath else (Err e, fs)
  end.
Definition WriteExistingFile (fs : tree) (roots : list bytes) (absPath data : bytes) : result ferror unit * tree :=
  match open_or_create fs roots absPath with
  | (Ok f, fs') => (Ok (), <[f := NFile data]> fs')
  | (Err e, fs') => (Err e, fs')
  end.
(** [WriteFileChunk]: at offset 0 the file starts over; a gap is filled with zeros. *)
Definition WriteFileChunk (fs : tree) (roots : list bytes) (absPath : bytes) (offset : Z) (data : bytes) : result ferror unit * tree :=
  if offset <? 0 then (Err [ErrPathDenied], fs) else
  match open_or_create fs roots absPath with
  | (Err e, fs') => (Err e, fs')
  | (Ok f, fs') =>
      let content := if offset =? 0 then [] else match fs' !! f with Some (NFile c) => c | _ => [] end in
      let fs' := if offset =? 0 then <[f := NFile []]> fs' else fs' in
      let end_ := wrap_i64 (offset + len data) in
      if end_ <? 0 then (Err [ErrPathDenied], fs') else
      let grown := content ++ zeros (Z.to_nat (end_ - len content)) in
      (Ok (), <[f := NFile (take (Z.to_nat offset) grown ++ data ++ drop (Z.to_nat end_) grown)]> fs')
  end.

(** ** The requests ([fs_proxy.go]) *)

Record FSProxy := { fp_pluginDataDir : bytes; fp_readRoots : list bytes; fp_writeRoots : list bytes }.
Definition NewFSProxy (cwd : bytes) (read write : list bytes) (pluginDataDir : bytes) : FSProxy := {|
  fp_pluginDataDir := pluginDataDir; fp_readRoots := resolveRoots cwd read pluginDataDir; fp_writeRoots := resolveRoots cwd write pluginDataDir |}.
Definition MaxWriteBytes : Z := Z.shiftl 256 10.
Definition MaxFileBytes : Z := Z.shiftl 16 20.

Definition denied_path {A} (r : result ferror A) : result ferror A :=
  match r with Err [ErrPathDenied] => Err [ErrFSCapabilityDenied] | _ => r end.

(** [fs.write] of decoded content; [writable] is whether the installation may be written to at all. *)
Definition FSProxy_write (cwd : bytes) (p : FSProxy) (fs : tree) (writable : bool) (path data : bytes) (offset : option Z) : result ferror unit * tree :=
  match resolveSafePath cwd (λ _, os_at fs) (fp_pluginDataDir p) (fp_writeRoots p) path with
  | Err e => (Err e, fs)
  | Ok path =>
      if MaxWriteBytes <? len data then (Err [ErrFSCapabilityDenied], fs) else
      if negb writable then (Err [EOther], fs) else
      match offset with
      | None =>
          if MaxFileBytes <? len data then (Err [ErrFSCapabilityDenied], fs) else
          let '(r, fs') := WriteExistingFile fs (fp_writeRoots p) path data in (denied_path r, fs')
      | Some off =>
          if off <? 0 then (Err [EOther], fs) else
          if (MaxFileBytes <? off) || (MaxFileBytes <? off + len data) then (Err [ErrFSCapabilityDenied], fs) else
          let '(r, fs') := WriteFileChunk fs (fp_writeRoots p) path off data in (denied_path r, fs')
      end
  end.
Definition MaxReadBytes : Z := Z.shiftl 256 10.
Definition FSProxy_read (cwd : bytes) (p : FSProxy) (fs : tree) (path : bytes) (offset maxBytes : Z) : result ferror (bytes * Z * bool) :=
  path ← resolveSafePath cwd (λ _, os_at fs) (fp_pluginDataDir p) (fp_readRoots p) path;
  let maxBytes := if (maxBytes <=? 0) || (MaxReadBytes <? maxBytes) then MaxReadBytes else maxBytes in
  fail_if offset <? 0 with [EOther] ;;
  '(data, total, eof) ← denied_path (ReadFileChunk fs (fp_readRoots p) path offset maxBytes);
  fail_if MaxFileBytes <? total with [ErrFSCapabilityDenied] ;;
  Ok (data, total, eof).
