(* ===== verification/PathSafeLaws.v ===== *)
(** * PathSafeLaws: a plugin's files stay under its roots

    The text of paths against the names they stand for; what a checked path really leads to; and what a write
    changes. *)

From S2P Require Import Prelude Bytes GoText PathSafe.

(** ** Paths as names *)

Record proper (seg : bytes) : Prop := { pr_ne : seg ≠ []; pr_dot : seg ≠ dot1; pr_dot2 : seg ≠ dot2; pr_slash : slash ∉ seg }.
Implicit Types (l : list bytes) (seg : bytes).

Lemma Split_ne s sep : Split s sep ≠ [].
Proof. destruct s as [|c s]; [done|]. cbn. case_bool_decide; [done|]. by destruct (Split s sep). Qed.
Lemma Split_joined a s sep : Split (a ++ sep :: s) sep = Split a sep ++ Split s sep.
Proof.
  induction a as [|c a IH]; cbn [app Split].
  - by rewrite bool_decide_eq_true_2.
  - case_bool_decide; rewrite IH; [done|]. pose proof (Split_ne a sep). by destruct (Split a sep).
Qed.
Lemma Split_clean s sep : Forall (λ f, sep ∉ f) (Split s sep).
Proof.
  induction s as [|c s IH]; cbn [Split]; [constructor; [apply not_elem_of_nil|constructor]|]. case_bool_decide as Hc.
  - constructor; [apply not_elem_of_nil|done].
  - destruct (Split s sep) as [|f fs]; inversion_clear IH; constructor; try done; set_solver.
Qed.
Lemma Split_join l : l ≠ [] → Forall proper l → Split (join_slash l) slash = l.
Proof.
  intros Hne Hl. induction Hl as [|x l Hx Hl IH]; [done|]. destruct l as [|y l].
  - cbn. apply Split_no_sep, Hx.
  - change (join_slash (x :: y :: l)) with (x ++ slash :: join_slash (y :: l)). rewrite Split_app by apply Hx. by rewrite IH.
Qed.

Lemma clean_step_proper root acc seg : proper seg → clean_step root acc seg = acc ++ [seg].
Proof. intros []. unfold clean_step. by rewrite !bool_decide_eq_false_2. Qed.
Lemma clean_proper root acc l : Forall proper l → foldl (clean_step root) acc l = acc ++ l.
Proof.
  intros Hl. revert acc. induction Hl as [|x l Hx _ IH]; intros acc; cbn; [by rewrite app_nil_r|].
  by rewrite clean_step_proper, IH, <- app_assoc.
Qed.
Lemma rooted_path l : rooted (path_of true l) = true.
Proof. done. Qed.
Lemma elements_path l : Forall proper l → elements (path_of true l) = l.
Proof.
  intros Hl. unfold elements. rewrite rooted_path. unfold path_of. cbn [Split]. rewrite bool_decide_eq_true_2 by done. cbn [foldl].
  change (clean_step true [] []) with (@nil bytes). destruct l as [|x l]; [done|]. by rewrite Split_join, clean_proper.
Qed.
Lemma elements_proper s : rooted s = true → Forall proper (elements s).
Proof.
  intros Hr. unfold elements. rewrite Hr. pose proof (Split_clean s slash) as Hs. assert (Forall proper []) as H0 by constructor. revert H0.
  generalize (@nil bytes) as acc. induction Hs as [|f fs Hf _ IH]; intros acc Hacc; [done|]. cbn [foldl]. apply IH. unfold clean_step.
  destruct (bool_decide (f = []) || bool_decide (f = dot1)) eqn:E; [done|]. apply orb_false_iff in E as [E1%bool_decide_eq_false E2%bool_decide_eq_false].
  case_bool_decide as E3.
  - destruct (last acc); [|done]. cbn. by apply Forall_take.
  - apply Forall_app. split; [done|]. repeat constructor; done.
Qed.
Lemma Clean_path l : Forall proper l → Clean (path_of true l) = path_of true l.
Proof. intros Hl. unfold Clean. by rewrite rooted_path, elements_path. Qed.
Lemma Clean_rooted s : rooted s = true → Clean s = path_of true (elements s).
Proof. intros Hr. unfold Clean. by rewrite Hr. Qed.
Lemma path_inj l l' : Forall proper l → Forall proper l' → path_of true l = path_of true l' → l = l'.
Proof. intros Hl Hl' E. by rewrite <- (elements_path l), E, elements_path. Qed.
Lemma elements_below l s : Forall proper l → elements (path_of true l ++ slash :: s) = foldl (clean_step true) l (Split s slash).
Proof.
  intros Hl. unfold elements. change (rooted (path_of true l ++ slash :: s)) with true. rewrite Split_joined, foldl_app.
  change (foldl (clean_step true) (elements (path_of true l)) (Split s slash) = foldl (clean_step true) l (Split s slash)). by rewrite elements_path.
Qed.
Lemma Join_proper l seg : Forall proper l → proper seg → Join (path_of true l) seg = path_of true (l ++ [seg]).
Proof.
  intros Hl Hs. unfold Join. rewrite !bool_decide_eq_false_2 by (done || apply Hs). unfold Clean.
  change (rooted (path_of true l ++ slash :: seg)) with true. rewrite elements_below by done. rewrite Split_no_sep by apply Hs. cbn [foldl].
  by rewrite clean_step_proper.
Qed.
Lemma Dir_path l seg : Forall proper (l ++ [seg]) → Dir (path_of true (l ++ [seg])) = path_of true l.
Proof. intros Hl. unfold Dir. rewrite elements_path by done. rewrite length_app, Nat.add_sub, take_app_length. done. Qed.
Lemma Base_path l seg : Forall proper (l ++ [seg]) → Base (path_of true (l ++ [seg])) = seg.
Proof. intros Hl. unfold Base. by rewrite elements_path, last_snoc. Qed.

(** ** [UnderRoot] is the prefix order on names *)

Lemma strip_common_spec a b up down : strip_common a b = (up, down) → ∃ c, a = c ++ up ∧ b = c ++ down ∧ (up = [] ∨ down = [] ∨ head up ≠ head down).
Proof.
  revert b. induction a as [|x a IH]; intros b; cbn [strip_common].
  - intros [= <- <-]. exists []. auto.
  - destruct b as [|y b]; [intros [= <- <-]; exists []; auto|]. case_bool_decide as Hxy.
    + subst. intros (c & -> & -> & Hc)%IH. by exists (y :: c).
    + intros [= <- <-]. exists []. split_and!; [done|done|]. right. right. cbn. congruence.
Qed.
Lemma up_paths (up : list bytes) down : up ≠ [] → let rel := join_slash ((const dot2 <$> up) ++ down) in rel = dot2 ∨ HasPrefix rel (dot2 ++ [slash]) = true.
Proof.
  intros Hup. destruct up as [|x up]; [done|]. cbn. destruct ((const dot2 <$> up) ++ down) as [|y l]; [by left|right]. done.
Qed.
Lemma down_paths down : Forall proper down → down ≠ [] → join_slash down ≠ dot2 ∧ HasPrefix (join_slash down) (dot2 ++ [slash]) = false.
Proof.
  intros Hd Hne. destruct Hd as [|x l Hx Hl]; [done|].
  assert (HasPrefix (join_slash (x :: l)) (dot2 ++ [slash]) = false) as Hp.
  { unfold HasPrefix. apply bool_decide_eq_false. intros E. destruct Hx as [H1 H2 H3 H4].
    destruct x as [|a [|b [|c x]]]; [done|..]; destruct l as [|y l]; cbn in E; simplify_eq; try done; set_solver. }
  split; [|done]. intros E. destruct l as [|y l]; cbn in E; [by apply (pr_dot2 _ Hx)|]. destruct Hx as [H1 H2 H3 H4].
  destruct x as [|a [|b x]]; [done|..]; simplify_eq; by destruct x.
Qed.

Lemma UnderRoot_names r t : Forall proper r → Forall proper t →
  UnderRoot (path_of true r) (path_of true t) = utf8_ValidString (path_of true r) && utf8_ValidString (path_of true t) && bool_decide (r `prefix_of` t).
Proof.
  intros Hr Ht. unfold UnderRoot. destruct (utf8_ValidString (path_of true r)); [|done]. destruct (utf8_ValidString (path_of true t)); [|done]. cbn [negb orb andb].
  rewrite !Clean_path by done. case_bool_decide as E.
  { apply path_inj in E as ->; [|done|done]. symmetry. by apply bool_decide_eq_true. }
  unfold Rel. rewrite !Clean_path by done. rewrite bool_decide_eq_false_2 by congruence. rewrite !rooted_path. cbn [Bool.eqb negb]. rewrite !elements_path by done.
  destruct (strip_common r t) as [up down] eqn:Es. apply strip_common_spec in Es as (c & -> & -> & Hc). apply Forall_app in Hr as [Hr1 Hr2], Ht as [Ht1 Ht2].
  rewrite bool_decide_eq_false_2 by (intros Hh; destruct Hr2 as [|x up Hx]; [done|]; injection Hh as ->; by destruct Hx).
  destruct up as [|x up].
  - rewrite app_nil_r in *. symmetry. rewrite bool_decide_eq_true_2 by by exists down. cbn [fmap list_fmap app].
    destruct (down_paths down) as [E1 E2]; [done|intros ->; by rewrite app_nil_r in E|]. by rewrite bool_decide_eq_false_2, E2.
  - assert (¬ c ++ x :: up `prefix_of` c ++ down) as Hn.
    { intros [k Ek]. rewrite <- app_assoc in Ek. apply app_inv_head in Ek. subst down. cbn in Hc. destruct Hc as [?|[?|?]]; done. }
    rewrite (bool_decide_eq_false_2 _ Hn). destruct (up_paths (x :: up) down) as [->|Hp]; [done|done|]. rewrite Hp. by rewrite andb_false_r.
Qed.
(** What a check means, for the root as it is configured. *)
Lemma UnderRoot_prefix r t : Forall proper r → Forall proper t → UnderRoot (path_of true r) (path_of true t) = true → r `prefix_of` t.
Proof. intros Hr Ht. rewrite UnderRoot_names by done. by intros [_ ?%bool_decide_eq_true]%andb_true_iff. Qed.
Lemma Rel_names r s : Forall proper (r ++ s) → s ≠ [] → Rel (path_of true r) (path_of true (r ++ s)) = Some (join_slash s).
Proof.
  intros Hrs Hs. pose proof Hrs as [Hr Hs']%Forall_app. unfold Rel. rewrite !Clean_path by done. rewrite bool_decide_eq_false_2.
  2: { intros E%path_inj; [|done|done]. apply Hs. apply (f_equal length) in E. rewrite length_app in E. destruct s; [done|cbn in E; lia]. }
  rewrite !rooted_path. cbn [Bool.eqb negb]. rewrite !elements_path by done.
  assert (strip_common r (r ++ s) = ([], s)) as ->.
  { clear. induction r as [|x r IH]; cbn; [by destruct s|]. by rewrite bool_decide_eq_true_2. }
  done.
Qed.

(** ** Where paths really lead *)

(** Names are names, and every entry is in a directory. *)
Definition tree_ok (fs : tree) : Prop := ∀ p n, fs !! p = Some n → Forall proper p ∧ ∃ d name, p = d ++ [name] ∧ is_dir fs d = true.

Section tree.
Context (fs : tree) (Hfs : tree_ok fs).

(** A directory or a file. *)
Definition there (q : list bytes) : Prop := is_dir fs q = true ∨ ∃ c, fs !! q = Some (NFile c).

Lemma is_dir_cases q : is_dir fs q = true ↔ q = [] ∨ fs !! q = Some NDir.
Proof. unfold is_dir. by rewrite orb_true_iff, !bool_decide_eq_true. Qed.
Lemma there_proper q : there q → Forall proper q.
Proof. intros [[->|Hq]%is_dir_cases|[c Hq]]; [constructor|by eapply Hfs..]. Qed.
Lemma parent_dir d name : there (d ++ [name]) → is_dir fs d = true.
Proof.
  intros Ht. assert (∃ n, fs !! (d ++ [name]) = Some n) as [n Hn].
  { destruct Ht as [[E|Hq]%is_dir_cases|[c Hq]]; [by destruct d|eauto..]. }
  apply Hfs in Hn as (_ & d' & name' & [-> _]%app_inj_2 & Hd); [done|done].
Qed.
Lemma there_prefix a b : there (a ++ b) → b ≠ [] → is_dir fs a = true.
Proof.
  induction b as [|x b IH] using rev_ind; [done|]. intros Ht _. rewrite app_assoc in Ht. apply parent_dir in Ht.
  destruct b as [|y b]; [by rewrite app_nil_r in Ht|]. apply IH; [by left|done].
Qed.
Lemma step_up_dir d : is_dir fs d = true → is_dir fs (step_up d) = true.
Proof.
  destruct d as [|name d _] using rev_ind; [done|]. intros Hd. unfold step_up. rewrite length_app, Nat.add_sub, take_app_length.
  apply (parent_dir _ name). by left.
Qed.

(** One step of the kernel. *)
Lemma walk_cons n acc seg rest : walk fs n acc (seg :: rest) =
  if bool_decide (seg = []) || bool_decide (seg = dot1) then walk fs n acc rest
  else if bool_decide (seg = dot2) then walk fs n (step_up acc) rest
  else match fs !! (acc ++ [seg]) with
       | None => Err LNotExist
       | Some (NLink t) => match n with O => Err LFailed | S n => walk fs n (if rooted t then [] else acc) (Split t slash ++ rest) end
       | Some NDir => walk fs n (acc ++ [seg]) rest
       | Some (NFile _) => if bool_decide (rest = []) then Ok (acc ++ [seg]) else Err LFailed
       end.
Proof. by destruct n. Qed.
Lemma walk_nil n acc : walk fs n acc [] = Ok acc.
Proof. by destruct n. Qed.
Lemma walk_name n acc seg rest : proper seg → walk fs n acc (seg :: rest) = match fs !! (acc ++ [seg]) with
  | None => Err LNotExist
  | Some (NLink t) => match n with O => Err LFailed | S n => walk fs n (if rooted t then [] else acc) (Split t slash ++ rest) end
  | Some NDir => walk fs n (acc ++ [seg]) rest
  | Some (NFile _) => if bool_decide (rest = []) then Ok (acc ++ [seg]) else Err LFailed end.
Proof. intros []. rewrite walk_cons. by rewrite (bool_decide_eq_false_2 (seg = [])), (bool_decide_eq_false_2 (seg = dot1)), (bool_decide_eq_false_2 (seg = dot2)). Qed.

(** A path leads to a directory or a file. *)
Lemma walk_there n acc t q : is_dir fs acc = true → walk fs n acc t = Ok q → there q.
Proof.
  revert acc t q. induction n as [n IHn] using lt_wf_ind. intros acc t. revert acc. induction t as [|seg rest IH]; intros acc q Hd.
  - rewrite walk_nil. intros [= <-]. by left.
  - rewrite walk_cons. destruct (_ || _); [by apply IH|]. case_bool_decide; [apply IH; by apply step_up_dir|].
    destruct (fs !! (acc ++ [seg])) as [[|c|lt]|] eqn:E; [|by case_bool_decide; intros [= <-]; right; eauto| |done].
    + apply IH. apply is_dir_cases. by right.
    + destruct n as [|n]; [done|]. apply IHn; [lia|]. by destruct (rooted lt).
Qed.
Lemma walk_dirs n a d rest : is_dir fs (a ++ d) = true → walk fs n a (d ++ rest) = walk fs n (a ++ d) rest.
Proof.
  revert a. induction d as [|x d IH]; intros a Hd; [by rewrite app_nil_r|]. cbn [app].
  assert (is_dir fs (a ++ [x]) = true) as Hx.
  { destruct d as [|y d]; [done|]. apply (there_prefix _ (y :: d)); [|done]. left. by rewrite <- app_assoc. }
  rewrite walk_name.
  - apply is_dir_cases in Hx as [Hx|Hx]; [by destruct a|]. rewrite Hx, IH, <- app_assoc; [done|]. by rewrite <- app_assoc.
  - assert (there (a ++ [x])) as Ht%there_proper by by left. by apply Forall_app in Ht as [_ [? _]%Forall_cons].
Qed.

Lemma real_names l : Forall proper l → real fs (path_of true l) = walk fs max_links [] l.
Proof.
  intros Hl. unfold real, path_of. cbn [Split]. rewrite bool_decide_eq_true_2 by done. rewrite walk_cons. cbn [bool_decide orb].
  rewrite bool_decide_eq_true_2 by done. cbn [orb]. destruct l as [|x l]; [done|]. by rewrite Split_join.
Qed.
Lemma real_there q : there q → real fs (path_of true q) = Ok q.
Proof.
  intros Ht. rewrite real_names by by apply there_proper. destruct q as [|x q _] using rev_ind; [done|].
  pose proof (parent_dir _ _ Ht) as Hd. rewrite (walk_dirs _ [] q [x]) by done. rewrite app_nil_l, walk_name.
  2: { apply there_proper in Ht. by apply Forall_app in Ht as [_ [? _]%Forall_cons]. }
  destruct Ht as [[Ht|Ht]%is_dir_cases|[c Ht]]; [by destruct q|by rewrite Ht, walk_nil|by rewrite Ht].
Qed.
Lemma real_ok_there s q : real fs s = Ok q → there q.
Proof. intros Hr. by eapply walk_there in Hr. Qed.
Lemma real_prefix m f : there f → m `prefix_of` f → real fs (path_of true m) = Ok m.
Proof.
  intros Hf [b ->]. apply real_there. destruct b as [|x b]; [by rewrite app_nil_r in Hf|]. left. by apply (there_prefix _ (x :: b)).
Qed.
Lemma entry_there l seg : Forall proper (l ++ [seg]) → is_dir fs l = true → entry_of fs (path_of true (l ++ [seg])) = Ok (Some (l, seg)).
Proof.
  intros Hp Hd. unfold entry_of. rewrite elements_path, last_snoc, Dir_path by done. rewrite real_there by by left. cbn. by rewrite Hd.
Qed.
Lemma Lstat_there l : there l → Lstat (os_at fs) (path_of true l) = LFound false.
Proof.
  intros Ht. destruct l as [|seg l _] using rev_ind; [done|]. cbn [Lstat os_at]. rewrite entry_there; [|by apply there_proper|by eapply parent_dir].
  destruct Ht as [[Ht|Ht]%is_dir_cases|[c Ht]]; [by destruct l|by rewrite Ht..].
Qed.
Lemma Lstat_absent l seg : Forall proper (l ++ [seg]) → is_dir fs l = true → fs !! (l ++ [seg]) = None → Lstat (os_at fs) (path_of true (l ++ [seg])) = LNotExist.
Proof. intros Hp Hd E. cbn [Lstat os_at]. by rewrite entry_there, E. Qed.

(** ** What the check of an open file shows *)

(** The directory or file is at or below the place a root really leads to. *)
Definition inside (roots : list bytes) (f : list bytes) : Prop := ∃ root rr, root ∈ roots ∧ real fs root = Ok rr ∧ rr `prefix_of` f.

Lemma real_Clean root : rooted root = true → root = Clean root → real fs (path_of true (elements root)) = real fs root.
Proof. intros Hr E. by rewrite <- Clean_rooted, <- E. Qed.
Lemma match_spelt_inv p roots m : match_spelt p roots = Some m → ∃ root, root ∈ roots ∧ m = Clean root ∧ UnderRoot m p = true.
Proof.
  induction roots as [|root roots IH]; [done|]. cbn [match_spelt]. destruct (UnderRoot (Clean root) p) eqn:E.
  - intros [= <-]. exists root. split; [left|done].
  - intros (r & ? & ?)%IH. exists r. split; [by right|done].
Qed.
Lemma match_resolved_inv os p roots m : match_resolved os p roots = Some m →
  ∃ root r, root ∈ roots ∧ EvalSymlinks os (Clean root) = Some r ∧ m = Clean r ∧ UnderRoot m p = true.
Proof.
  induction roots as [|root roots IH]; [done|]. cbn [match_resolved]. destruct (EvalSymlinks os (Clean root)) as [r|] eqn:Er; [destruct (UnderRoot (Clean r) p) eqn:E|].
  - intros [= <-]. exists root, r. split; [left|done].
  - intros (r' & s & ? & ?)%IH. exists r', s. split; [by right|done].
  - intros (r' & s & ? & ?)%IH. exists r', s. split; [by right|done].
Qed.
Lemma verified_inside roots f : Forall (λ root, rooted root = true ∧ root = Clean root) roots → there f →
  VerifyOpenFileUnderRoots fs roots f = Ok () → inside roots f.
Proof.
  intros Hroots Hf Hv. pose proof (there_proper _ Hf) as Hp. unfold VerifyOpenFileUnderRoots, SecurePathUnderRoots in Hv. cbn [secure_path] in Hv.
  rewrite Clean_path in Hv by done. destruct (matchRoot (os_at fs) (path_of true f) roots) as [m|] eqn:Em; [clear Hv|done].
  unfold matchRoot in Em. rewrite Forall_forall in Hroots. destruct (match_spelt (path_of true f) roots) as [m'|] eqn:Es.
  - injection Em as ->. apply match_spelt_inv in Es as (root & Hin & -> & Hu). destruct (Hroots _ Hin) as [Hr Hc]. exists root.
    rewrite Clean_rooted in Hu by done. apply UnderRoot_prefix in Hu; [|by apply elements_proper|done]. exists (elements root). split_and!; [done| |done].
    rewrite <- (real_Clean root) by done. by eapply real_prefix.
  - apply match_resolved_inv in Em as (root & r & Hin & Hev & -> & Hu). destruct (Hroots _ Hin) as [Hr Hc]. exists root. rewrite <- Hc in Hev. cbn [EvalSymlinks os_at] in Hev.
    destruct (real fs root) as [q|] eqn:Eq; [|done]. apply (inj Some) in Hev as <-. pose proof (there_proper _ (real_ok_there _ _ Eq)) as Hq. exists q. split_and!; [done|done|].
    rewrite Clean_path in Hu by done. by apply UnderRoot_prefix in Hu.
Qed.
End tree.

(** ** The roots of a plugin *)

Definition roots_ok (roots : list bytes) : Prop := Forall (λ root, rooted root = true ∧ root = Clean root) roots.

Lemma rooted_Clean s : rooted s = true → rooted (Clean s) = true.
Proof. intros Hs. by rewrite Clean_rooted. Qed.
Lemma Clean_idem s : rooted s = true → Clean (Clean s) = Clean s.
Proof. intros Hs. rewrite (Clean_rooted s) by done. by apply Clean_path, elements_proper. Qed.
Lemma rooted_app a b : rooted a = true → rooted (a ++ b) = true.
Proof. by destruct a as [|[] a]. Qed.
Lemma rooted_Join a b : rooted a = true → rooted (Join a b) = true.
Proof.
  intros Ha. unfold Join. rewrite bool_decide_eq_false_2 by by intros ->. case_bool_decide; apply rooted_Clean; [done|by apply rooted_app].
Qed.
Lemma rooted_Abs cwd s : rooted cwd = true → rooted (Abs cwd s) = true.
Proof. intros Hc. unfold Abs. destruct (rooted s) eqn:E; [by apply rooted_Clean|by apply rooted_Join]. Qed.
Lemma resolveRoots_ok cwd pats dir : rooted cwd = true → roots_ok (resolveRoots cwd pats dir).
Proof.
  intros Hc. unfold resolveRoots. match goal with |- roots_ok (foldl ?f _ _) => set (step := f) end.
  assert (roots_ok []) as Hnil by constructor. revert Hnil. generalize (@nil bytes) as acc.
  induction pats as [|pat pats IH]; intros acc Hacc; [done|]. cbn [foldl]. apply IH. subst step. cbn beta. do 2 (case_bool_decide; [done|]). apply Forall_app. split; [done|].
  apply Forall_singleton. pose proof (rooted_Abs cwd (ReplaceAll (TrimSpace pat) placeholderPluginData dir) Hc). by rewrite Clean_idem, rooted_Clean.
Qed.

(** ** The shape of a checked path *)

(** [filepath.EvalSymlinks] answers with an absolute path. *)
Definition evaluates (os : OS) : Prop := ∀ p r, EvalSymlinks os p = Some r → rooted r = true.
Lemma os_at_evaluates fs : evaluates (os_at fs).
Proof. intros p r. cbn [EvalSymlinks os_at]. destruct (real fs p); [|done]. by intros [= <-]. Qed.

Lemma secure_walk_inv os new m cur segs r : secure_walk os new m cur segs = Ok r →
  r = m ∨ (∃ p eval, EvalSymlinks os p = Some eval ∧ r = Clean eval) ∨ ∃ c, new c = Ok r.
Proof.
  revert cur. induction segs as [|seg rest IH]; intros cur; cbn [secure_walk]; [intros [= <-]; by left|].
  destruct (_ || _); [apply IH|]. case_bool_decide; [done|]. destruct (Lstat os (Join cur seg)) as [| |[]]; [intros Hn; right; right; eauto|done|done|].
  case_bool_decide; [|apply IH]. destruct (EvalSymlinks os (Join cur seg)) as [eval|] eqn:E; [|done]. destruct (underResolvedRoot _ _ _); [|done].
  intros [= <-]. right. left. eauto.
Qed.
Lemma matchRoot_rooted os p roots m : evaluates os → Forall (λ root, rooted root = true) roots → matchRoot os p roots = Some m → rooted m = true ∧ m = Clean m ∧ UnderRoot m p = true.
Proof.
  intros Hos Hr. rewrite Forall_forall in Hr. unfold matchRoot. destruct (match_spelt p roots) as [m'|] eqn:E.
  - intros [= ->]. apply match_spelt_inv in E as (root & Hin%Hr & -> & Hu). by rewrite Clean_idem, rooted_Clean.
  - intros (root & r & _ & Hev%Hos & -> & Hu)%match_resolved_inv. by rewrite Clean_idem, rooted_Clean.
Qed.
Lemma secure_path_rooted n os p roots r : (∀ k, evaluates (os k)) → Forall (λ root, rooted root = true) roots → secure_path n os p roots = Ok r → rooted r = true.
Proof.
  intros Hos. revert p roots r. induction n as [|n IH]; intros p roots r Hr; [done|]. cbn [secure_path].
  destruct (matchRoot (os n) (Clean p) roots) as [m|] eqn:Em; [|done]. apply matchRoot_rooted in Em as (Hm & _); [|done|done].
  destruct (Rel m (Clean p)) as [rel|]; [|done]. case_bool_decide; [by intros [= <-]|].
  intros [->|[(p' & ev & Hev%Hos & ->)|(c & Hc)]]%secure_walk_inv; [done|by apply rooted_Clean|]. cbn beta in Hc.
  destruct (negb _); [done|]. destruct (secure_path n os (Dir c) [m]) as [ep|] eqn:Ep; [|done]. cbn in Hc. destruct (underResolvedRoot _ _ _); [|done].
  injection Hc as <-. apply rooted_Join. eapply IH; [|done]. by apply Forall_singleton.
Qed.
Lemma roots_rooted roots : roots_ok roots → Forall (λ root, rooted root = true) roots.
Proof. intros Hr. eapply Forall_impl; [done|]. by intros ? []. Qed.
Lemma SecurePath_rooted fs p roots r : roots_ok roots → SecurePathUnderRoots (λ _, os_at fs) p roots = Ok r → rooted r = true.
Proof. intros Hr. apply secure_path_rooted; [intros _; apply os_at_evaluates|by apply roots_rooted]. Qed.

(** ** What a write changes *)

(** Where paths lead does not depend on what files hold. *)
Lemma walk_content fs f c c' n acc t : fs !! f = Some (NFile c) → walk (<[f := NFile c']> fs) n acc t = walk fs n acc t.
Proof.
  intros Hf. revert acc t. induction n as [n IHn] using lt_wf_ind. intros acc t. revert acc. induction t as [|seg rest IH]; intros acc; [by rewrite !walk_nil|].
  rewrite !walk_cons. rewrite !IH. destruct (decide (f = acc ++ [seg])) as [->|Hne].
  - by rewrite lookup_insert_eq, Hf.
  - rewrite lookup_insert_ne by done. destruct (fs !! (acc ++ [seg])) as [[]|]; try done. destruct n as [|n]; [done|]. by rewrite IHn by lia.
Qed.
Lemma inside_content fs f c c' roots q : fs !! f = Some (NFile c) → inside fs roots q → inside (<[f := NFile c']> fs) roots q.
Proof. intros Hf (root & rr & Hin & Hr & Hq). exists root, rr. split_and!; [done| |done]. unfold real. by rewrite (walk_content _ _ c). Qed.

Lemma tree_ok_insert fs d name node : tree_ok fs → is_dir fs d = true → proper name → fs !! (d ++ [name]) = None → tree_ok (<[d ++ [name] := node]> fs).
Proof.
  intros Hfs Hd Hn Hnone p n Hp.
  assert (∀ e, is_dir fs e = true → is_dir (<[d ++ [name] := node]> fs) e = true) as Hmono.
  { intros e [->|He]%is_dir_cases; [done|]. apply is_dir_cases. right. rewrite lookup_insert_ne by congruence. done. }
  destruct (decide (p = d ++ [name])) as [->|Hne].
  - split; [apply Forall_app; split; [apply (there_proper fs Hfs); by left|by apply Forall_singleton]|]. exists d, name. auto.
  - rewrite lookup_insert_ne in Hp by congruence. apply Hfs in Hp as (Hp & e & x & -> & He). split; [done|]. exists e, x. auto.
Qed.

Lemma openExisting_inv fs v w f : openExistingNoFollow fs v w = Ok f → there fs f ∧ (w = true → ∃ c, fs !! f = Some (NFile c)).
Proof.
  unfold openExistingNoFollow. destruct (entry_of fs v) as [[[d name]|]|e]; [|by destruct w; intros [= <-]; split; [by left|]|done].
  destruct (fs !! (d ++ [name])) as [[|c|t]|] eqn:E; try done.
  - destruct w; [done|]. intros [= <-]. split; [|done]. left. apply is_dir_cases. by right.
  - intros [= <-]. split; [right; eauto|eauto].
Qed.
Lemma OpenExistingFile_inside fs roots p w f : tree_ok fs → roots_ok roots → OpenExistingFile fs roots p w = Ok f →
  there fs f ∧ inside fs roots f ∧ (w = true → ∃ c, fs !! f = Some (NFile c)).
Proof.
  intros Hfs Hr. unfold OpenExistingFile. intros (v & _ & (f' & [Ht Hw]%openExisting_inv & ([] & Hv & [= ->])%bind_Ok)%bind_Ok)%bind_Ok.
  split_and!; [done| |done]. by apply verified_inside.
Qed.
Lemma entry_inv fs v d name : tree_ok fs → rooted v = true → entry_of fs v = Ok (Some (d, name)) → is_dir fs d = true ∧ proper name.
Proof.
  intros Hfs Hv. unfold entry_of. destruct (last (elements v)) as [x|] eqn:El; [|done]. intros (q & _ & Hq)%bind_Ok.
  destruct (is_dir fs q) eqn:Ed; [|done]. injection Hq as -> ->. split; [done|]. apply elements_proper in Hv. rewrite Forall_forall in Hv.
  apply Hv. apply last_Some in El as [l ->]. set_solver.
Qed.
Lemma createNew_inv fs v f fs' : tree_ok fs → rooted v = true → createNewNoFollow fs v = Ok (f, fs') → fs !! f = None ∧ fs' = <[f := NFile []]> fs ∧ tree_ok fs'.
Proof.
  intros Hfs Hv. unfold createNewNoFollow. destruct (entry_of fs v) as [[[d name]|]|e] eqn:E; [|done..]. apply entry_inv in E as [Hd Hn]; [|done|done].
  destruct (fs !! (d ++ [name])) eqn:El; [done|]. intros [= <- <-]. split_and!; [done|done|]. by apply tree_ok_insert.
Qed.

(** The file that is written to. *)
Record opened (fs : tree) (roots : list bytes) (f : list bytes) (fs' : tree) : Prop := {
  op_tree : tree_ok fs';
  op_fs : fs' = fs ∨ fs !! f = None ∧ fs' = <[f := NFile []]> fs;
  op_file : ∃ c, fs' !! f = Some (NFile c);
  op_inside : inside fs' roots f }.
Lemma open_or_create_inv fs roots p r fs' : tree_ok fs → roots_ok roots → open_or_create fs roots p = (r, fs') →
  match r with Err _ => fs' = fs | Ok f => opened fs roots f fs' end.
Proof.
  intros Hfs Hr. unfold open_or_create. destruct (OpenExistingFile fs roots p true) as [f|e] eqn:Eo.
  { intros [= <- <-]. apply OpenExistingFile_inside in Eo as (_ & Hi & Hc); [|done|done]. split; auto. }
  case_bool_decide; [|by intros [= <- <-]]. unfold CreateNewFile. destruct (SecurePathUnderRoots _ p roots) as [v|] eqn:Ev; [|by intros [= <- <-]].
  apply SecurePath_rooted in Ev; [|done]. destruct (createNewNoFollow fs v) as [[f fs1]|] eqn:Ec; [|by intros [= <- <-]].
  apply createNew_inv in Ec as (Hn & -> & Hok); [|done|done]. destruct (VerifyOpenFileUnderRoots _ roots f) as [[]|] eqn:Ever.
  - intros [= <- <-]. pose proof (lookup_insert_eq fs f (NFile [])) as Hl. split; [done|by right|eauto|]. apply verified_inside; [done|done| |done]. right. eauto.
  - intros [= <- <-]. by rewrite delete_insert_id.
Qed.

Definition size_of (fs : tree) (q : list bytes) : Z := match fs !! q with Some (NFile c) => len c | _ => 0 end.
(** What a write may do: nothing with an error, or give one file inside the roots a content no longer than [max] or than it was. *)
Definition written (fs : tree) (roots : list bytes) (max : Z) (r : result ferror unit) (fs' : tree) : Prop :=
  match r with
  | Err _ => fs' = fs
  | Ok _ => ∃ f fs1 c, opened fs roots f fs1 ∧ fs' = <[f := NFile c]> fs1 ∧ len c <= Z.max max (size_of fs f)
  end.

Lemma opened_size fs roots f fs1 c : opened fs roots f fs1 → fs1 !! f = Some (NFile c) → len c <= size_of fs f.
Proof.
  intros [_ [->|[Hn ->]] _ _] Hl; unfold size_of; [by rewrite Hl|]. rewrite lookup_insert_eq in Hl. injection Hl as <-. by rewrite Hn.
Qed.
Lemma WriteExistingFile_written fs roots p data r fs' max : tree_ok fs → roots_ok roots → len data <= max →
  WriteExistingFile fs roots p data = (r, fs') → written fs roots max r fs'.
Proof.
  intros Hfs Hr Hmax. unfold WriteExistingFile. destruct (open_or_create fs roots p) as [o fs1] eqn:E. apply open_or_create_inv in E; [|done|done].
  destruct o as [f|]; intros [= <- <-]; [|done]. exists f, fs1, data. split_and!; [done|done|lia].
Qed.
Lemma WriteFileChunk_written fs roots p off data r fs' max : tree_ok fs → roots_ok roots → 0 <= off → off + len data <= max → max < 2 ^ 63 →
  WriteFileChunk fs roots p off data = (r, fs') → written fs roots max r fs'.
Proof.
  intros Hfs Hr Hoff Hmax H63. unfold WriteFileChunk. rewrite (proj2 (Z.ltb_ge off 0)) by lia. destruct (open_or_create fs roots p) as [o fs1] eqn:E.
  apply open_or_create_inv in E; [|done|done]. destruct o as [f|]; [|by intros [= <- <-]]. cbn zeta. assert (0 <= len data) by lia.
  rewrite wrap_i64_id by (unfold i64, MinInt64, MaxInt64; lia). rewrite (proj2 (Z.ltb_ge (off + len data) 0)) by lia. intros [= <- <-].
  set (c := take _ _ ++ _). exists f, fs1, c. split_and!; [done|destruct (off =? 0); [by rewrite insert_insert_eq|done]|].
  destruct (op_file _ _ _ _ E) as [c0 Hc0]. pose proof (opened_size _ _ _ _ _ E Hc0) as Hs. subst c. rewrite Hc0.
  rewrite !length_app, length_take, length_drop, length_app. unfold zeros. rewrite length_replicate. destruct (off =? 0); cbn [length]; lia.
Qed.
Lemma written_denied fs roots max r fs' : written fs roots max r fs' → written fs roots max (denied_path r) fs'.
Proof. destruct r as [|[|[] [|]]]; done. Qed.
Lemma FSProxy_write_written cwd p fs writable path data offset r fs' : tree_ok fs → roots_ok (fp_writeRoots p) →
  FSProxy_write cwd p fs writable path data offset = (r, fs') → written fs (fp_writeRoots p) MaxFileBytes r fs'.
Proof.
  intros Hfs Hr. unfold FSProxy_write. destruct (resolveSafePath _ _ _ _ path) as [v|]; [|by intros [= <- <-]].
  destruct (MaxWriteBytes <? len data); [by intros [= <- <-]|]. destruct writable; [|by intros [= <- <-]]. cbn [negb]. destruct offset as [off|].
  - destruct (Z.ltb_spec off 0); [by intros [= <- <-]|]. destruct (_ || _) eqn:E; [by intros [= <- <-]|]. apply orb_false_iff in E as [_ E%Z.ltb_ge].
    destruct (WriteFileChunk fs (fp_writeRoots p) v off data) as [r0 fs0] eqn:Ew. intros [= <- <-]. by eapply written_denied, WriteFileChunk_written.
  - destruct (Z.ltb_spec MaxFileBytes (len data)); [by intros [= <- <-]|]. destruct (WriteExistingFile fs (fp_writeRoots p) v data) as [r0 fs0] eqn:Ew.
    intros [= <- <-]. by eapply written_denied, WriteExistingFile_written.
Qed.
Lemma written_changed fs roots max r fs' q : written fs roots max r fs' → fs' !! q ≠ fs !! q →
  r = Ok () ∧ inside fs' roots q ∧ ∃ c, fs' !! q = Some (NFile c) ∧ len c <= Z.max max (size_of fs q).
Proof.
  destruct r as [[]|]; [|by intros ->]. intros (f & fs1 & c & Ho & -> & Hc) Hq. split; [done|]. destruct Ho as [_ Hfs [c1 Hc1] Hi].
  assert (q = f) as ->.
  { destruct (decide (q = f)) as [|Hne]; [done|]. rewrite lookup_insert_ne in Hq by done. destruct Hfs as [->|[_ ->]]; [done|]. by rewrite lookup_insert_ne in Hq. }
  split; [by eapply inside_content|]. exists c. by rewrite lookup_insert_eq.
Qed.


(** [fs.read] of a plugin: what it returns are bytes of a regular file at or below the place one of the manifest's read roots really
    leads to, from the offset asked for, at most 256 KiB of them and never from a file above 16 MiB. *)
Theorem plugin_reads_confined cwd read write dataDir fs path offset maxBytes chunk total eof :
  rooted cwd = true → tree_ok fs → let p := NewFSProxy cwd read write dataDir in
  FSProxy_read cwd p fs path offset maxBytes = Ok (chunk, total, eof) →
  ∃ q c, inside fs (fp_readRoots p) q ∧ fs !! q = Some (NFile c) ∧ total = len c ∧ len c <= MaxFileBytes ∧
    (∃ post, drop (Z.to_nat offset) c = chunk ++ post) ∧ len chunk <= MaxReadBytes ∧ eof = (len c <=? offset + len chunk).
Proof.
  intros Hcwd Hfs p. unfold FSProxy_read. intros (v & _ & [Hoff Hr]%fail_if_Ok)%bind_Ok.
  apply bind_Ok in Hr as ([[data tot] e] & Hd & [Htot [= <- <- <-]]%fail_if_Ok). apply Z.ltb_ge in Htot.
  set (mb := if _ || _ then MaxReadBytes else maxBytes) in Hd. assert (0 < mb <= MaxReadBytes) as Hmb.
  { subst mb. destruct (_ || _) eqn:E; [done|]. apply orb_false_iff in E as [?%Z.leb_gt ?%Z.ltb_ge]. done. }
  assert (ReadFileChunk fs (fp_readRoots p) v offset mb = Ok (data, tot, e)) as Hread.
  { destruct (ReadFileChunk fs _ v offset mb) as [|[|[] [|]]]; done. }
  unfold ReadFileChunk in Hread. rewrite (proj2 (Z.leb_gt mb 0)) in Hread by lia. apply bind_Ok in Hread as (f & Hopen & Hf).
  apply OpenExistingFile_inside in Hopen as (_ & Hi & _); [|done|by apply resolveRoots_ok]. destruct (fs !! f) as [[|c|]|] eqn:Ef; try done.
  apply fail_if_Ok in Hf as [[Ho1%Z.ltb_ge Ho2%Z.ltb_ge]%orb_false_iff [= <- <- <-]]. exists f, c. split_and!; try done.
  - eexists. by rewrite take_drop.
  - rewrite length_take. lia.
Qed.

(** ** Paths without links below the root *)

Lemma utf8_before a b : utf8_ValidString (a ++ slash :: b) = true → utf8_ValidString a = true.
Proof.
  induction a as [a IH] using (induction_ltof1 _ length); unfold ltof in IH. destruct a as [|x a1]; [done|]. cbn [app utf8_ValidString].
  destruct (in_range 0 127 x); [apply IH; cbn; lia|]. destruct a1 as [|y a2]; cbn [app].
  { destruct (in_range 194 223 x); [done|]. destruct b as [|c b]; [done|]. destruct (in_range 224 239 x); [by repeat case_match|].
    destruct b as [|d b]; [done|]. destruct (in_range 240 244 x); [by repeat case_match|done]. }
  destruct (in_range 194 223 x).
  { intros [-> Hv]%andb_true_iff. cbn [andb]. apply IH; [cbn; lia|done]. }
  destruct a2 as [|z a3]; cbn [app].
  { destruct (in_range 224 239 x); [by rewrite andb_false_r|]. destruct b as [|d b]; [done|]. destruct (in_range 240 244 x); [|done]. by rewrite andb_false_r. }
  destruct (in_range 224 239 x).
  { intros [-> Hv]%andb_true_iff. cbn [andb]. apply IH; [cbn; lia|done]. }
  destruct a3 as [|w a4]; cbn [app]; (destruct (in_range 240 244 x); [|done]); [by rewrite andb_false_r|].
  intros [-> Hv]%andb_true_iff. cbn [andb]. apply IH; [cbn; lia|done].
Qed.
Lemma join_slash_snoc l seg : l ≠ [] → join_slash (l ++ [seg]) = join_slash l ++ slash :: seg.
Proof.
  induction l as [|x l IH]; [done|]. intros _. destruct l as [|y l]; [done|].
  change (x ++ slash :: join_slash ((y :: l) ++ [seg]) = (x ++ slash :: join_slash (y :: l)) ++ slash :: seg). rewrite IH by done. by rewrite <- app_assoc.
Qed.
Lemma utf8_parent l seg : utf8_ValidString (path_of true (l ++ [seg])) = true → utf8_ValidString (path_of true l) = true.
Proof.
  unfold path_of. destruct l as [|x l]; [done|]. rewrite join_slash_snoc by done. rewrite app_comm_cons. apply utf8_before.
Qed.

Lemma utf8_prefix l l' : utf8_ValidString (path_of true (l ++ l')) = true → utf8_ValidString (path_of true l) = true.
Proof.
  induction l' as [|x l' IH] using rev_ind; [by rewrite app_nil_r|]. rewrite app_assoc. intros Hv%utf8_parent. by apply IH.
Qed.
Lemma UnderRoot_valid (r t : bytes) : UnderRoot r t = true → utf8_ValidString r = true ∧ utf8_ValidString t = true.
Proof. unfold UnderRoot. destruct (utf8_ValidString r), (utf8_ValidString t); done. Qed.
(** The root a path is matched with, by its names. *)
Definition matched (os : OS) (roots : list bytes) (l m : list bytes) : Prop :=
  Forall proper m ∧ matchRoot os (path_of true l) roots = Some (path_of true m) ∧ UnderRoot (path_of true m) (path_of true l) = true.
Lemma matched_prefix os roots l m : matched os roots l m → Forall proper l → m `prefix_of` l.
Proof. intros (Hm & _ & Hu) Hl. by apply UnderRoot_prefix in Hu. Qed.
Lemma matched_by os roots root l : root ∈ roots → evaluates os → roots_ok roots → UnderRoot root (path_of true l) = true → ∃ m, matched os roots l m.
Proof.
  intros Hin Hos Hr Hu. assert (∃ r, matchRoot os (path_of true l) roots = Some r) as [r Hm].
  { unfold matchRoot. enough (is_Some (match_spelt (path_of true l) roots)) as [r ->] by eauto. clear Hos. induction Hr as [|r0 roots [Hr0 Hc] _ IH]; [by apply elem_of_nil in Hin|].
    cbn [match_spelt]. destruct (UnderRoot (Clean r0) (path_of true l)) eqn:E; [done|]. apply elem_of_cons in Hin as [->|Hin]; [|by apply IH]. congruence. }
  exists (elements r). pose proof (matchRoot_rooted _ _ _ _ Hos (roots_rooted _ Hr) Hm) as (Hrr & Hc & Hur). rewrite Clean_rooted in Hc by done.
  split; [by apply elements_proper|]. by rewrite <- Hc.
Qed.
Lemma matched_self os m l : Forall proper m → UnderRoot (path_of true m) (path_of true l) = true → matched os [path_of true m] l m.
Proof. intros Hm Hu. split_and!; [done| |done]. unfold matchRoot. cbn [match_spelt]. rewrite Clean_path by done. by rewrite Hu. Qed.

Lemma join_not_dot s : Forall proper s → s ≠ [] → join_slash s ≠ dot1.
Proof.
  intros Hs Hne E. destruct Hs as [|x s Hx Hs]; [done|]. destruct s as [|y s]; cbn in E; [by apply (pr_dot _ Hx)|]. destruct Hx as [Hx _ _ _].
  destruct x as [|a x]; [done|]. simplify_eq. by destruct x.
Qed.

Section exact.
Context (fs : tree) (Hfs : tree_ok fs).

Lemma secure_walk_step new m cur seg rest : there fs (cur ++ [seg]) → rest ≠ [] →
  secure_walk (os_at fs) new m (path_of true cur) (seg :: rest) = secure_walk (os_at fs) new m (path_of true (cur ++ [seg])) rest.
Proof.
  intros Ht Hrest. pose proof (there_proper fs Hfs _ Ht) as [Hc [Hseg _]%Forall_cons]%Forall_app. cbn [secure_walk]. pose proof Hseg as [H1 H2 H3 _].
  rewrite (bool_decide_eq_false_2 (seg = [])), (bool_decide_eq_false_2 (seg = dot1)), (bool_decide_eq_false_2 (seg = dot2)) by done. cbn [orb].
  rewrite Join_proper by done. rewrite Lstat_there by done. by rewrite (bool_decide_eq_false_2 (rest = [])).
Qed.
(** Down the directories that are there. *)
Lemma secure_walk_down new m cur pre seg rest : is_dir fs (cur ++ pre) = true →
  secure_walk (os_at fs) new m (path_of true cur) (pre ++ seg :: rest) = secure_walk (os_at fs) new m (path_of true (cur ++ pre)) (seg :: rest).
Proof.
  revert cur. induction pre as [|x pre IH]; intros cur Hd; [by rewrite app_nil_r|]. cbn [app]. rewrite secure_walk_step.
  - rewrite IH; rewrite <- app_assoc; done.
  - destruct pre as [|y pre]; [by left|]. left. apply (there_prefix fs Hfs _ (y :: pre)); [|done]. left. by rewrite <- app_assoc.
  - by destruct pre.
Qed.
Lemma secure_walk_missing new m cur seg rest : proper seg → Forall proper cur → is_dir fs cur = true → fs !! (cur ++ [seg]) = None →
  secure_walk (os_at fs) new m (path_of true cur) (seg :: rest) = new (path_of true (cur ++ [seg])).
Proof.
  intros Hseg Hc Hd Hn. cbn [secure_walk]. pose proof Hseg as [H1 H2 H3 H4].
  rewrite (bool_decide_eq_false_2 (seg = [])), (bool_decide_eq_false_2 (seg = dot1)), (bool_decide_eq_false_2 (seg = dot2)) by done. cbn [orb].
  rewrite Join_proper by done. rewrite Lstat_absent; [done|done| |done|done]. apply Forall_app. by split; [|constructor].
Qed.
Lemma secure_last new m cur seg : proper seg → Forall proper cur → secure_walk (os_at fs) new m (path_of true cur) [seg] =
  match Lstat (os_at fs) (path_of true (cur ++ [seg])) with
  | LNotExist => new (path_of true (cur ++ [seg]))
  | LFailed => Err [EOther]
  | LFound true => Err [ErrPathDenied]
  | LFound false => match EvalSymlinks (os_at fs) (path_of true (cur ++ [seg])) with
      | None => Err [EOther]
      | Some eval => if underResolvedRoot (os_at fs) m (Clean eval) then Ok (Clean eval) else Err [ErrPathDenied] end
  end.
Proof.
  intros [H1 H2 H3 H4] Hc. cbn [secure_walk].
  rewrite (bool_decide_eq_false_2 (seg = [])), (bool_decide_eq_false_2 (seg = dot1)), (bool_decide_eq_false_2 (seg = dot2)) by done. cbn [orb].
  by rewrite Join_proper.
Qed.

(** The check of a path below its root goes down to the last name. *)
Lemma secure_reaches n roots m l seg : matched (os_at fs) roots (l ++ [seg]) m → Forall proper (l ++ [seg]) → is_dir fs l = true →
  m = l ++ [seg] ∧ secure_path (S n) (λ _, os_at fs) (path_of true (l ++ [seg])) roots = Ok (path_of true (l ++ [seg])) ∨
  m `prefix_of` l ∧ secure_path (S n) (λ _, os_at fs) (path_of true (l ++ [seg])) roots =
    secure_walk (os_at fs) (λ target,
      if negb (UnderRoot (path_of true m) (Dir target)) then Err [ErrPathDenied] else
      evalParent ← secure_path n (λ _, os_at fs) (Dir target) [path_of true m];
      let resolved := Join evalParent (Base target) in
      if underResolvedRoot (os_at fs) (path_of true m) resolved then Ok resolved else Err [ErrPathDenied])
      (path_of true m) (path_of true l) [seg].
Proof.
  intros Hm Hp Hd. pose proof (matched_prefix _ _ _ _ Hm Hp) as [s Hs]. destruct Hm as (Hmp & Hm & _). cbn [secure_path].
  rewrite Clean_path by done. rewrite Hm. destruct s as [|x s _] using rev_ind.
  - left. rewrite app_nil_r in Hs. split; [done|]. rewrite <- Hs. unfold Rel. by rewrite !(bool_decide_eq_true_2 (_ = _)).
  - right. rewrite app_assoc in Hs. apply app_inj_2 in Hs as [-> [= ->]]; [|done]. split; [by exists s|]. rewrite <- app_assoc in *.
    rewrite Rel_names; [|done|by destruct s]. apply Forall_app in Hp as [_ Hp]. rewrite bool_decide_eq_false_2 by (apply join_not_dot; [done|by destruct s]).
    rewrite Split_join; [|by destruct s|done]. by rewrite secure_walk_down.
Qed.
Lemma secure_there n roots m l : matched (os_at fs) roots l m → there fs l → secure_path (S n) (λ _, os_at fs) (path_of true l) roots = Ok (path_of true l).
Proof.
  intros Hm Ht. pose proof (there_proper fs Hfs _ Ht) as Hp. destruct l as [|seg l _] using rev_ind.
  { pose proof (matched_prefix _ _ _ _ Hm Hp) as ->%prefix_nil_inv. destruct Hm as (_ & Hm & _). cbn [secure_path]. rewrite Clean_path by done. by rewrite Hm. }
  destruct (secure_reaches n roots m l seg Hm Hp (parent_dir fs Hfs _ _ Ht)) as [[_ Hr]|[_ Hr]]; rewrite Hr; [done|].
  pose proof Hp as [Hl [Hseg _]%Forall_cons]%Forall_app. rewrite secure_last by done. rewrite Lstat_there by done. cbn [EvalSymlinks os_at].
  rewrite real_there by done. rewrite Clean_path by done. unfold underResolvedRoot. destruct Hm as (_ & _ & ->). done.
Qed.
Lemma secure_new n roots m l seg : matched (os_at fs) roots (l ++ [seg]) m → proper seg → is_dir fs l = true → fs !! (l ++ [seg]) = None →
  secure_path (S (S n)) (λ _, os_at fs) (path_of true (l ++ [seg])) roots = Ok (path_of true (l ++ [seg])).
Proof.
  intros Hm Hseg Hd Hnone. assert (Forall proper l) as Hl by (apply (there_proper fs Hfs); by left). assert (Forall proper (l ++ [seg])) as Hp by (apply Forall_app; by split; [|constructor]).
  destruct (secure_reaches (S n) roots m l seg Hm Hp Hd) as [[_ Hr]|[Hpre Hr]]; rewrite Hr; [done|]. rewrite secure_last by done. rewrite Lstat_absent by done.
  destruct Hm as (Hmp & _ & Hu). pose proof (UnderRoot_valid _ _ Hu) as [Hv1 Hv2%utf8_parent].
  assert (UnderRoot (path_of true m) (path_of true l) = true) as Hul by (rewrite UnderRoot_names, Hv1, Hv2 by done; by apply bool_decide_eq_true).
  rewrite Dir_path, Base_path by done. rewrite Hul. cbn [negb]. rewrite (secure_there n _ m); [|by apply matched_self|by left]. cbn [mbind result_bind].
  rewrite Join_proper by done. unfold underResolvedRoot. by rewrite Hu.
Qed.
End exact.

(** ** Writing and reading back *)

(** The path a request means before it is checked. *)
Definition requested (cwd dataDir path : bytes) : bytes := Clean (Abs cwd (if rooted path then path else Join dataDir path)).
(** The name [name] in the directory [d] can be a file of the roots. *)
Record usable (fs : tree) (roots : list bytes) (d : list bytes) (name : bytes) : Prop := {
  us_dir : is_dir fs d = true;
  us_name : proper name;
  us_file : fs !! (d ++ [name]) = None ∨ ∃ c, fs !! (d ++ [name]) = Some (NFile c);
  us_root : ∃ root, root ∈ roots ∧ UnderRoot root (path_of true (d ++ [name])) = true }.

Lemma usable_proper fs roots d name : tree_ok fs → usable fs roots d name → Forall proper (d ++ [name]).
Proof. intros Hfs [Hd Hn _ _]. apply Forall_app. split; [apply (there_proper fs Hfs); by left|by constructor]. Qed.
Lemma usable_secure fs roots d name : tree_ok fs → roots_ok roots → usable fs roots d name →
  SecurePathUnderRoots (λ _, os_at fs) (path_of true (d ++ [name])) roots = Ok (path_of true (d ++ [name])).
Proof.
  intros Hfs Hr Hu. pose proof (usable_proper _ _ _ _ Hfs Hu) as Hp. destruct Hu as [Hd Hn Hf (root & Hin & Hur)].
  destruct (matched_by (os_at fs) _ _ _ Hin (os_at_evaluates fs) Hr Hur) as [m Hm]. unfold SecurePathUnderRoots. rewrite elements_path by done.
  rewrite length_app, Nat.add_comm. destruct Hf as [Hf|Hf]; [by apply (secure_new fs Hfs _ roots m)|]. apply (secure_there fs Hfs _ roots m); [done|by right].
Qed.
Lemma usable_resolves cwd fs dataDir roots path d name : tree_ok fs → roots_ok roots → usable fs roots d name → requested cwd dataDir path = path_of true (d ++ [name]) →
  resolveSafePath cwd (λ _, os_at fs) dataDir roots path = Ok (path_of true (d ++ [name])).
Proof.
  intros Hfs Hr Hu Hreq. unfold resolveSafePath, ResolvePath. fold (requested cwd dataDir path). rewrite Hreq. pose proof Hu as [_ _ _ (root & Hin & Hur)].
  rewrite bool_decide_eq_false_2 by (intros ->; by apply elem_of_nil in Hin).
  rewrite (proj2 (existsb_exists _ _)) by (exists root; split; [by apply list_elem_of_In|done]). cbn [mbind result_bind].
  by rewrite usable_secure.
Qed.
Lemma usable_open fs roots d name c w : tree_ok fs → roots_ok roots → usable fs roots d name → fs !! (d ++ [name]) = Some (NFile c) →
  OpenExistingFile fs roots (path_of true (d ++ [name])) w = Ok (d ++ [name]).
Proof.
  intros Hfs Hr Hu Hc. unfold OpenExistingFile, VerifyOpenFileUnderRoots, openExistingNoFollow. rewrite usable_secure by done. cbn [mbind result_bind].
  rewrite entry_there; [|done|by eapply usable_proper|apply Hu]. rewrite Hc. cbn [mbind result_bind]. by rewrite usable_secure.
Qed.
Lemma usable_insert fs roots d name c : tree_ok fs → usable fs roots d name → tree_ok (<[d ++ [name] := NFile c]> fs) ∧ usable (<[d ++ [name] := NFile c]> fs) roots d name.
Proof.
  intros Hfs [Hd Hn Hf Hr].
  assert (∀ e, is_dir fs e = true → is_dir (<[d ++ [name] := NFile c]> fs) e = true) as Hmono.
  { intros e [->|He]%is_dir_cases; [done|]. apply is_dir_cases. right. rewrite lookup_insert_ne; [done|]. intros <-. destruct Hf as [|[??]]; congruence. }
  split.
  - destruct Hf as [Hf|[c0 Hf]]; [by apply tree_ok_insert|]. intros p n Hp. destruct (decide (d ++ [name] = p)) as [<-|Hne].
    + apply Hfs in Hf as (Hpr & e & x & E & He). split; [done|]. exists e, x. auto.
    + rewrite lookup_insert_ne in Hp by done. apply Hfs in Hp as (Hpr & e & x & E & He). split; [done|]. exists e, x. auto.
  - split; [by apply Hmono|done| |done]. right. rewrite lookup_insert_eq. eauto.
Qed.
Lemma usable_open_or_create fs roots d name : tree_ok fs → roots_ok roots → usable fs roots d name →
  ∃ fs1, open_or_create fs roots (path_of true (d ++ [name])) = (Ok (d ++ [name]), fs1) ∧ (fs1 = fs ∨ fs1 = <[d ++ [name] := NFile []]> fs).
Proof.
  intros Hfs Hr Hu. pose proof (usable_proper _ _ _ _ Hfs Hu) as Hp. unfold open_or_create. pose proof Hu as [Hd _ Hf _]. destruct Hf as [Hf|[c Hf]].
  - assert (OpenExistingFile fs roots (path_of true (d ++ [name])) true = Err [ErrNotExist]) as ->.
    { unfold OpenExistingFile, openExistingNoFollow. rewrite usable_secure by done. cbn [mbind result_bind]. by rewrite entry_there, Hf. }
    cbn iota. rewrite bool_decide_eq_true_2 by by left. unfold CreateNewFile, createNewNoFollow. rewrite usable_secure by done. rewrite entry_there, Hf by done.
    unfold VerifyOpenFileUnderRoots. destruct (usable_insert fs roots d name [] Hfs Hu) as [Hfs1 Hu1]. rewrite usable_secure by done. eauto.
  - rewrite (usable_open _ _ _ _ c) by done. eauto.
Qed.

(** What a plugin writes it can read back: a [fs.write] without offset of at most 256 KiB to a file, or to a new name in a directory, with no
    link on the way below one of its write roots, replaces the content of exactly that file; and where the path is also
    below a read root, [fs.read] then returns the data, its length and the end of the file. *)
Theorem plugin_write_read_back cwd read write dataDir fs path data d name :
  rooted cwd = true → tree_ok fs → let p := NewFSProxy cwd read write dataDir in
  requested cwd dataDir path = path_of true (d ++ [name]) → usable fs (fp_writeRoots p) d name → usable fs (fp_readRoots p) d name →
  len data <= MaxWriteBytes →
  let fs' := <[d ++ [name] := NFile data]> fs in
  FSProxy_write cwd p fs true path data None = (Ok (), fs') ∧ FSProxy_read cwd p fs' path 0 0 = Ok (data, len data, true).
Proof.
  intros Hcwd Hfs p Hreq Huw Hur Hlen fs'. assert (roots_ok (fp_writeRoots p)) as Hrw by by apply resolveRoots_ok. assert (roots_ok (fp_readRoots p)) as Hrr by by apply resolveRoots_ok.
  assert (len data <= MaxFileBytes) as Hfl by (etrans; [exact Hlen|by vm_compute]). split.
  - unfold FSProxy_write. rewrite (usable_resolves _ _ _ _ _ d name) by done. rewrite (proj2 (Z.ltb_ge MaxWriteBytes _)) by done. rewrite (proj2 (Z.ltb_ge MaxFileBytes _)) by done. cbn [negb]. unfold WriteExistingFile.
    destruct (usable_open_or_create fs _ d name Hfs Hrw Huw) as (fs1 & -> & Hfs1). cbn [denied_path]. subst fs'. destruct Hfs1 as [->| ->]; [done|]. by rewrite insert_insert_eq.
  - subst fs'. destruct (usable_insert fs _ d name data Hfs Hur) as [Hfs' Hur']. unfold FSProxy_read. rewrite (usable_resolves _ _ _ _ _ d name) by done.
    cbn [mbind result_bind Z.leb Z.compare orb Z.ltb]. unfold ReadFileChunk. rewrite (usable_open _ _ _ _ data) by (done || apply lookup_insert_eq).
    cbn [mbind result_bind]. rewrite lookup_insert_eq. change (MaxReadBytes <=? 0) with false. cbn iota. rewrite Z.sub_0_r, (proj2 (Z.ltb_ge (len data) 0)) by lia.
    cbn [Z.ltb Z.compare orb denied_path mbind result_bind Z.to_nat drop]. rewrite Z.min_r by done. rewrite Nat2Z.id, firstn_all. rewrite (proj2 (Z.ltb_ge _ _)) by done.
    rewrite Z.add_0_l, Z.leb_refl. done.
Qed.

(** ** A missing directory *)

Lemma secure_missing fs n m d x rest : tree_ok fs → Forall proper (x :: rest) → is_dir fs (m ++ d) = true → fs !! ((m ++ d) ++ [x]) = None →
  utf8_ValidString (path_of true ((m ++ d) ++ x :: rest)) = true →
  secure_path (S (S n)) (λ _, os_at fs) (path_of true ((m ++ d) ++ x :: rest)) [path_of true m] = Ok (path_of true ((m ++ d) ++ [x])).
Proof.
  intros Hfs Hxr Hd Hn Hv. assert (Forall proper (m ++ d)) as Hmd by (apply (there_proper fs Hfs); by left). pose proof Hmd as [Hm _]%Forall_app.
  pose proof Hxr as [Hx _]%Forall_cons. assert (∀ k, k `prefix_of` d ++ x :: rest → UnderRoot (path_of true m) (path_of true (m ++ k)) = true) as Hunder.
  { intros k [k' Hk]. rewrite UnderRoot_names; [|done|]. 2: { apply (Forall_app _ _ k'). rewrite <- app_assoc, <- Hk, app_assoc. by apply Forall_app. }
    rewrite <- app_assoc, Hk, app_assoc in Hv. rewrite (utf8_prefix (m ++ k) k') by done. rewrite <- app_assoc in Hv. rewrite (utf8_prefix m (k ++ k')) by done.
    apply bool_decide_eq_true. by exists k. }
  cbn [secure_path]. rewrite Clean_path by by apply Forall_app. rewrite <- app_assoc.
  destruct (matched_self (os_at fs) m (m ++ d ++ x :: rest)) as (_ & -> & _); [done|by apply Hunder|].
  rewrite Rel_names; [|rewrite app_assoc; by apply Forall_app|by destruct d]. assert (Forall proper (d ++ x :: rest)) as Hdx by (apply Forall_app in Hmd as [_ ?]; by apply Forall_app).
  rewrite bool_decide_eq_false_2 by (apply join_not_dot; [done|by destruct d]). rewrite Split_join; [|by destruct d|done].
  rewrite secure_walk_down by done. rewrite secure_walk_missing by done. rewrite Dir_path, Base_path by (apply Forall_app; by split; [|constructor]).
  rewrite Hunder by by exists (x :: rest). cbn [negb].
  pose proof (secure_there fs Hfs n [path_of true m] m (m ++ d)) as Hthere. cbn [secure_path] in Hthere. rewrite Hthere; [|apply matched_self; [done|]; apply Hunder; by exists (x :: rest)|by left].
  cbn [mbind result_bind]. rewrite Join_proper by done. unfold underResolvedRoot. rewrite <- app_assoc, Hunder; [done|]. exists rest. by rewrite <- app_assoc.
Qed.

(** A write below a directory that does not exist: the check stops at the first name [x] that is missing and answers with it, so that
    [fs.write] of [d/x/...] makes a regular file [d/x], puts the data there and reports success. *)
Theorem missing_directory_becomes_file cwd read write dataDir fs path data m d x rest :
  rooted cwd = true → tree_ok fs → let p := NewFSProxy cwd read write dataDir in
  fp_writeRoots p = [path_of true m] → requested cwd dataDir path = path_of true ((m ++ d) ++ x :: rest) →
  Forall proper (x :: rest) → utf8_ValidString (path_of true ((m ++ d) ++ x :: rest)) = true →
  is_dir fs (m ++ d) = true → fs !! ((m ++ d) ++ [x]) = None → len data <= MaxWriteBytes →
  FSProxy_write cwd p fs true path data None = (Ok (), <[(m ++ d) ++ [x] := NFile data]> fs).
Proof.
  intros Hcwd Hfs p Hroots Hreq Hxr Hv Hd Hn Hlen. assert (roots_ok (fp_writeRoots p)) as Hrw by by apply resolveRoots_ok.
  assert (Forall proper (m ++ d)) as Hmd by (apply (there_proper fs Hfs); by left). pose proof Hxr as [Hx _]%Forall_cons.
  assert (Forall proper m) as Hm by by apply Forall_app in Hmd as [? _].
  assert (∀ k, k `prefix_of` x :: rest → UnderRoot (path_of true m) (path_of true ((m ++ d) ++ k)) = true) as Hunder.
  { intros k [k' Hk]. rewrite UnderRoot_names; [|done|apply Forall_app; split; [done|]; apply (Forall_app _ k k'); by rewrite <- Hk].
    rewrite Hk, app_assoc in Hv. rewrite (utf8_prefix ((m ++ d) ++ k) k') by done. rewrite <- !app_assoc in Hv. rewrite (utf8_prefix m _ Hv). apply bool_decide_eq_true.
    rewrite <- app_assoc. by apply prefix_app_r. }
  assert (usable fs (fp_writeRoots p) (m ++ d) x) as Hu.
  { split; [done|done|by left|]. exists (path_of true m). split; [rewrite Hroots; by left|]. apply Hunder. by exists rest. }
  assert (len data <= MaxFileBytes) as Hfl by (etrans; [exact Hlen|by vm_compute]).
  unfold FSProxy_write, resolveSafePath, ResolvePath. change (fp_pluginDataDir p) with dataDir. fold (requested cwd dataDir path). rewrite Hreq, Hroots. cbn [existsb].
  rewrite bool_decide_eq_false_2 by done. rewrite (Hunder (x :: rest)) by done. cbn [orb mbind result_bind].
  assert (SecurePathUnderRoots (λ _, os_at fs) (path_of true ((m ++ d) ++ x :: rest)) [path_of true m] = Ok (path_of true ((m ++ d) ++ [x]))) as ->.
  { unfold SecurePathUnderRoots. rewrite elements_path by by apply Forall_app. rewrite length_app, Nat.add_comm. cbn [length Nat.add]. by apply secure_missing. }
  rewrite (proj2 (Z.ltb_ge MaxWriteBytes _)), (proj2 (Z.ltb_ge MaxFileBytes _)) by done. cbn [negb]. unfold WriteExistingFile. rewrite <- Hroots.
  destruct (usable_open_or_create fs _ (m ++ d) x Hfs Hrw Hu) as (fs1 & -> & Hfs1). cbn [denied_path]. destruct Hfs1 as [->| ->]; [done|]. by rewrite insert_insert_eq.
Qed.

(** ** The check ends *)

Lemma secure_walk_fuel os new m cur segs : Forall proper segs → Forall proper cur → secure_walk os new m (path_of true cur) segs = Err [EPathFuel] →
  ∃ pre seg, pre ++ [seg] `prefix_of` segs ∧ new (path_of true (cur ++ pre ++ [seg])) = Err [EPathFuel].
Proof.
  intros Hs. revert cur. induction Hs as [|x segs Hx _ IH]; intros cur Hc; [done|]. cbn [secure_walk]. pose proof Hx as [H1 H2 H3 H4].
  rewrite (bool_decide_eq_false_2 (x = [])), (bool_decide_eq_false_2 (x = dot1)), (bool_decide_eq_false_2 (x = dot2)) by done. cbn [orb].
  rewrite Join_proper by done. destruct (Lstat os _) as [| |[]]; [intros Hn; exists [], x; split; [by exists segs|done]|done|done|].
  case_bool_decide; [by repeat case_match|]. intros (pre & seg & [k ->] & Hn)%IH; [|by apply Forall_app; split; [|constructor]].
  exists (x :: pre), seg. split; [by exists k|]. by rewrite <- app_assoc in Hn.
Qed.
Lemma secure_path_fuel os n p roots : (∀ k, evaluates (os k)) → rooted p = true → Forall (λ root, rooted root = true) roots → (length (elements p) < n)%nat →
  secure_path n os p roots ≠ Err [EPathFuel].
Proof.
  intros Hos. revert p roots. induction n as [|n IH]; intros p roots Hp Hr Hn; [lia|]. cbn [secure_path]. rewrite Clean_rooted by done.
  pose proof (elements_proper p Hp) as He. destruct (matchRoot (os n) _ roots) as [m|] eqn:Em; [|done]. apply matchRoot_rooted in Em as (Hm & Hc & Hu); [|done|done].
  rewrite Clean_rooted in Hc by done. pose proof (elements_proper m Hm) as Hme. set (mm := elements m) in *. rewrite Hc in Hu |- *.
  apply UnderRoot_prefix in Hu as [s Hs]; [|done|done]. rewrite Hs in He, Hn |- *. rewrite length_app in Hn. destruct s as [|y s].
  { rewrite app_nil_r. unfold Rel. by rewrite !(bool_decide_eq_true_2 (_ = _)). }
  rewrite Rel_names by done. apply Forall_app in He as [_ He]. rewrite bool_decide_eq_false_2 by by apply join_not_dot. rewrite Split_join by done.
  intros (pre & seg & [k Hk] & Hnew)%secure_walk_fuel; [|done|done]. rewrite Hk in He, Hn. apply Forall_app in He as [He _].
  rewrite app_assoc in Hnew. rewrite Dir_path in Hnew by (rewrite <- app_assoc; by apply Forall_app). destruct (negb _); [done|].
  assert (Forall proper (mm ++ pre)) as Hpre by (apply Forall_app; split; [done|]; by apply Forall_app in He as [? _]).
  destruct (secure_path n os (path_of true (mm ++ pre)) [path_of true mm]) as [ep|e] eqn:Ep; cbn [mbind result_bind] in Hnew; [by repeat case_match|].
  injection Hnew as ->. revert Ep. apply IH; [done|by repeat constructor|]. rewrite elements_path by done. rewrite !length_app in *. cbn [length] in *. lia.
Qed.

(** The check of a path always ends, whatever the file system answers at each of its questions: each time a missing name makes it start
    over, it does so on a shorter path. *)
Theorem path_check_terminates (os : nat → OS) absPath roots fuel :
  (∀ k, evaluates (os k)) → rooted absPath = true → Forall (λ root, rooted root = true) roots → (S (length (elements absPath)) <= fuel)%nat →
  secure_path fuel os absPath roots ≠ Err [EPathFuel] ∧ SecurePathUnderRoots os absPath roots ≠ Err [EPathFuel].
Proof. intros Hos Hp Hr Hf. split; apply secure_path_fuel; try done; lia. Qed.

(** ** On a small disk *)

#[export] Instance proper_dec seg : Decision (proper seg).
Proof.
  refine (cast_if (decide (seg ≠ [] ∧ seg ≠ dot1 ∧ seg ≠ dot2 ∧ slash ∉ seg))); [by destruct_and!; split|abstract (intros []; naive_solver)].
Defined.

(** The directory [/d] with a file and a link to [/out], where there is a secret. *)
Definition d_ : bytes := bytes_of_string "d".
Definition f_ : bytes := bytes_of_string "f".
Definition link_ : bytes := bytes_of_string "link".
Definition out_ : bytes := bytes_of_string "out".
Definition secret_ : bytes := bytes_of_string "secret".
Definition disk : tree :=
  <[[] ++ [d_] ++ [link_] := NLink (bytes_of_string "/out")]> (<[([] ++ [out_]) ++ [secret_] := NFile (bytes_of_string "key")]> (<[[] ++ [out_] := NDir]> (
  <[([] ++ [d_]) ++ [f_] := NFile (bytes_of_string "old")]> (<[[] ++ [d_] := NDir]> ∅)))).
Lemma disk_ok : tree_ok disk.
Proof.
  assert (tree_ok ∅) as H0 by (intros p n Hp; by rewrite lookup_empty in Hp).
  unfold disk. rewrite app_assoc.
  repeat (apply tree_ok_insert; [|by vm_compute|by apply (bool_decide_unpack _); vm_compute|by vm_compute]). done.
Qed.
Definition roots_demo : list bytes := [bytes_of_string "${pluginData}"].
Definition proxy_demo : FSProxy := NewFSProxy (bytes_of_string "/") roots_demo roots_demo (bytes_of_string "/d").
Definition text_demo : bytes := bytes_of_string "new".

(** A write to the file, and one through the link. *)
Definition write_demo : result ferror unit * tree := FSProxy_write (bytes_of_string "/") proxy_demo disk true f_ text_demo None.
Lemma write_demo_eq : FSProxy_write (bytes_of_string "/") proxy_demo disk true f_ text_demo None = (Ok (), snd write_demo).
Proof. change (write_demo = (Ok (), snd write_demo)). rewrite (surjective_pairing write_demo) at 1. by f_equal. Qed.
Lemma link_refused : fst (FSProxy_write (bytes_of_string "/") proxy_demo disk true (bytes_of_string "link/secret") text_demo None) = Err [ErrFSCapabilityDenied].
Proof. vm_compute. reflexivity. Qed.

Lemma plugin_reads_confined_witness : ∃ q c, inside disk (fp_readRoots proxy_demo) q ∧ disk !! q = Some (NFile c) ∧ 3 = len c ∧ len c <= MaxFileBytes ∧
  (∃ post, drop (Z.to_nat 1) c = bytes_of_string "ld" ++ post) ∧ len (bytes_of_string "ld") <= MaxReadBytes ∧ true = (len c <=? 1 + len (bytes_of_string "ld")).
Proof.
  apply (plugin_reads_confined (bytes_of_string "/") roots_demo roots_demo (bytes_of_string "/d") disk f_ 1 7 (bytes_of_string "ld") 3 true).
  - reflexivity.
  - exact disk_ok.
  - vm_compute. reflexivity.
Defined.
Lemma usable_demo : usable disk (fp_writeRoots proxy_demo) [d_] f_.
Proof.
  split; [by vm_compute|by apply (bool_decide_unpack _); vm_compute|right; by eexists|]. exists (bytes_of_string "/d"). split; [vm_compute; left|by vm_compute].
Qed.
Lemma plugin_write_read_back_witness : let fs' := <[[d_] ++ [f_] := NFile text_demo]> disk in
  FSProxy_write (bytes_of_string "/") proxy_demo disk true f_ text_demo None = (Ok (), fs') ∧
  FSProxy_read (bytes_of_string "/") proxy_demo fs' f_ 0 0 = Ok (text_demo, len text_demo, true).
Proof.
  apply (plugin_write_read_back (bytes_of_string "/") roots_demo roots_demo (bytes_of_string "/d") disk f_ text_demo [d_] f_).
  - reflexivity.
  - exact disk_ok.
  - vm_compute. reflexivity.
  - exact usable_demo.
  - exact usable_demo.
  - vm_compute. discriminate.
Defined.
Lemma missing_directory_becomes_file_witness :
  FSProxy_write (bytes_of_string "/") proxy_demo disk true (bytes_of_string "logs/today") text_demo None = (Ok (), <[([d_] ++ []) ++ [bytes_of_string "logs"] := NFile text_demo]> disk).
Proof.
  apply (missing_directory_becomes_file (bytes_of_string "/") roots_demo roots_demo (bytes_of_string "/d") disk (bytes_of_string "logs/today") text_demo
    [d_] [] (bytes_of_string "logs") [bytes_of_string "today"]).
  - reflexivity.
  - exact disk_ok.
  - vm_compute. reflexivity.
  - vm_compute. reflexivity.
  - repeat constructor; by apply (bool_decide_unpack _); vm_compute.
  - vm_compute. reflexivity.
  - vm_compute. reflexivity.
  - vm_compute. reflexivity.
  - vm_compute. discriminate.
Defined.
Lemma path_check_terminates_witness : let p := bytes_of_string "/d/logs/a/b" in
  secure_path 5 (λ _, os_at disk) p [bytes_of_string "/d"] ≠ Err [EPathFuel] ∧ SecurePathUnderRoots (λ _, os_at disk) p [bytes_of_string "/d"] ≠ Err [EPathFuel].
Proof.
  apply (path_check_terminates (λ _, os_at disk) (bytes_of_string "/d/logs/a/b") [bytes_of_string "/d"] 5).
  - intros k. apply os_at_evaluates.
  - reflexivity.
  - repeat constructor.
  - apply Nat.leb_le. vm_compute. reflexivity.
Defined.
