(* ===== verification/Discovery.v ===== *)
(** * Discovery: the trees plugins draw under a connection

    [internal/domain/discovery] (nodes, branches, limits, sanitising, validation, truncation, icons) and, of
    [internal/usecase], [discovery_tree.go], [discovery_store.go], [discovery_snapshot.go] and the checks of [discovery_invoke.go].
    The store holds its mutex for the whole of every method, so each method is one step on [DiscoveryStore]. *)

From S2P Require Import Prelude Bytes GoText.

(** ** Nodes and branches ([node.go], [tone.go], [role.go], [branch.go], [limits.go]) *)

Definition KindGroup : bytes := bytes_of_string "group".
Definition KindInstance : bytes := bytes_of_string "instance".

Record Status := { st_Tone : bytes; st_Color : bytes; st_Tooltip : bytes }.
Record Action := { ac_ID : bytes; ac_Label : bytes; ac_IconID : bytes; ac_Danger : bool; ac_Confirm : bytes; ac_Multi : bool; ac_Role : bytes }.
Record Node := {
  nd_ID : bytes; nd_ParentID : bytes; nd_Kind : bytes; nd_Label : bytes; nd_IconID : bytes; nd_Order : Z;
  nd_Status : option Status; nd_Actions : list Action; nd_DefaultActionID : bytes }.

Definition tones : list bytes := bytes_of_string <$> ["ok"; "warn"; "error"; "busy"; "neutral"; "unknown"]%string.
Definition ValidTone (t : bytes) : bool := bool_decide (t ∈ tones).
Definition hex_class : list (Z * Z) := [(48, 57); (97, 102); (65, 70)].
(** [^#[0-9a-fA-F]{6}$]. *)
Definition ValidColor (c : bytes) : bool :=
  match c with
  | [] => true
  | h :: ds => bool_decide (h = Byte.x23) && bool_decide (length ds = 6%nat) && forallb (in_class hex_class) ds
  end.
Definition RoleNone : bytes := [].
Definition RoleDelete : bytes := bytes_of_string "delete".
Definition ValidRole (r : bytes) : bool := bool_decide (r = RoleNone) || bool_decide (r = RoleDelete).

Definition BranchLoading : bytes := bytes_of_string "loading".
Definition BranchReady : bytes := bytes_of_string "ready".
Definition BranchError : bytes := bytes_of_string "error".
Definition BranchStale : bytes := bytes_of_string "stale".
Record Truncated := { tr_Shown : Z; tr_Total : Z }.
Record Branch := { br_State : bytes; br_Error : bytes; br_Truncated : option Truncated }.
Definition PluginMayPublishState (s : bytes) : bool := bool_decide (s = BranchLoading) || bool_decide (s = BranchReady) || bool_decide (s = BranchError).

Definition MaxDepth : nat := 8.
Definition MaxChildrenPerPublish : Z := 500.
Definition MaxNodesPerPlugin : Z := 2000.
Definition MaxIDLen : Z := 256.
Definition MaxLabelLen : Z := 128.
Definition MaxTooltipLen : Z := 256.
Definition MaxConfirmLen : Z := 256.
Definition MaxActionsPerNode : Z := 16.

(** ** [sanitize.go], [sanitize_node.go], [validate.go], [truncate.go], [icon_resolve.go] *)

(** Embeddings, overrides and isolates. *)
Definition bidiOverride (r : Z) : bool := ((8234 <=? r) && (r <=? 8238)) || ((8294 <=? r) && (r <=? 8297)).
(** [WriteRune] of a rune that was read: a byte that is not UTF-8 was read as [RuneError]. *)
Definition write_rune (x : Z * bytes) : bytes := if x.1 =? RuneError then [Byte.xef; Byte.xbf; Byte.xbd] else x.2.
Definition SanitizeText (s : bytes) : bytes :=
  concat (write_rune <$> filter (λ x, (bidiOverride x.1 || IsControl x.1) = false) (decode_runes s)).
Definition RuneCountInString (s : bytes) : Z := len (runes s).

Definition sanitize_action (a : Action) : Action := {|
  ac_ID := ac_ID a; ac_Label := SanitizeText (ac_Label a); ac_IconID := ac_IconID a; ac_Danger := ac_Danger a;
  ac_Confirm := SanitizeText (ac_Confirm a); ac_Multi := ac_Multi a; ac_Role := ac_Role a |}.
Definition SanitizeNode (n : Node) : Node := {|
  nd_ID := nd_ID n; nd_ParentID := nd_ParentID n; nd_Kind := nd_Kind n; nd_Label := SanitizeText (nd_Label n); nd_IconID := nd_IconID n; nd_Order := nd_Order n;
  nd_Status := (λ s, {| st_Tone := st_Tone s; st_Color := st_Color s; st_Tooltip := SanitizeText (st_Tooltip s) |}) <$> nd_Status n;
  nd_Actions := sanitize_action <$> nd_Actions n; nd_DefaultActionID := nd_DefaultActionID n |}.

Inductive dsentinel :=
  ErrInvalidNode | ErrDiscoveryLeafParent | ErrDiscoveryDuplicateNode | ErrDiscoveryInvokeSize | ErrDiscoveryNodeNotFound | ErrDiscoveryMixedParents
  | ErrDiscoveryActionUnavailable | ErrDiscoveryBranchNotActionable | ErrDiscoveryNoLeadingSession | EDiverges.
#[export] Instance dsentinel_eq_dec : EqDecision dsentinel.
Proof. solve_decision. Defined.
Abbreviation derr := (list dsentinel).

Definition validateStatus (status : option Status) : result derr unit :=
  match status with
  | None => Ok ()
  | Some s =>
      fail_if negb (ValidTone (st_Tone s)) with [ErrInvalidNode] ;;
      fail_if negb (ValidColor (st_Color s)) with [ErrInvalidNode] ;;
      fail_if MaxTooltipLen <? RuneCountInString (SanitizeText (st_Tooltip s)) with [ErrInvalidNode] ;;
      Ok ()
  end.
(** The loop over the actions, with the ids and roles seen so far. *)
Fixpoint validate_actions_loop (actions : list Action) (ids roles : list bytes) : result derr (list bytes) :=
  match actions with
  | [] => Ok ids
  | a :: rest =>
      fail_if bool_decide (ac_ID a = []) with [ErrInvalidNode] ;;
      fail_if MaxIDLen <? RuneCountInString (ac_ID a) with [ErrInvalidNode] ;;
      fail_if bool_decide (ac_ID a ∈ ids) with [ErrInvalidNode] ;;
      let label := SanitizeText (ac_Label a) in
      fail_if bool_decide (label = []) with [ErrInvalidNode] ;;
      fail_if MaxLabelLen <? RuneCountInString label with [ErrInvalidNode] ;;
      fail_if MaxConfirmLen <? RuneCountInString (SanitizeText (ac_Confirm a)) with [ErrInvalidNode] ;;
      fail_if negb (ValidRole (ac_Role a)) with [ErrInvalidNode] ;;
      if bool_decide (ac_Role a = RoleNone) then validate_actions_loop rest (ac_ID a :: ids) roles else
      fail_if bool_decide (ac_Role a ∈ roles) with [ErrInvalidNode] ;;
      validate_actions_loop rest (ac_ID a :: ids) (ac_Role a :: roles)
  end.
Definition validateActions (n : Node) : result derr unit :=
  fail_if MaxActionsPerNode <? len (nd_Actions n) with [ErrInvalidNode] ;;
  seen ← validate_actions_loop (nd_Actions n) [] [];
  if bool_decide (nd_DefaultActionID n ≠ [] ∧ nd_DefaultActionID n ∉ seen) then Err [ErrInvalidNode] else Ok ().
Definition validateNode (n : Node) : result derr unit :=
  fail_if bool_decide (nd_ID n = []) with [ErrInvalidNode] ;;
  fail_if MaxIDLen <? RuneCountInString (nd_ID n) with [ErrInvalidNode] ;;
  fail_if negb (bool_decide (nd_Kind n = KindGroup)) && negb (bool_decide (nd_Kind n = KindInstance)) with [ErrInvalidNode] ;;
  let label := SanitizeText (nd_Label n) in
  fail_if bool_decide (label = []) with [ErrInvalidNode] ;;
  fail_if MaxLabelLen <? RuneCountInString label with [ErrInvalidNode] ;;
  _ ← validateStatus (nd_Status n);
  validateActions n.
Fixpoint validate_publish_loop (children : list Node) (seen : list bytes) : result derr unit :=
  match children with
  | [] => Ok ()
  | n :: rest =>
      _ ← validateNode n;
      if bool_decide (nd_ID n ∈ seen) then Err [ErrInvalidNode] else validate_publish_loop rest (nd_ID n :: seen)
  end.
Definition ValidatePublish (children : list Node) : result derr unit := validate_publish_loop children [].

Definition TruncateChildren (children : list Node) : list Node * option Truncated :=
  if len children <=? MaxChildrenPerPublish then (children, None)
  else (take (Z.to_nat MaxChildrenPerPublish) children, Some {| tr_Shown := MaxChildrenPerPublish; tr_Total := len children |}).

Definition ResolveIcon (n : Node) (ancestors : list Node) : bytes :=
  if bool_decide (nd_IconID n ≠ []) then nd_IconID n
  else default [] (head (filter (λ i, i ≠ []) (nd_IconID <$> ancestors))).

(** ** One plugin's tree ([discovery_tree.go]) *)

Record discoveryTree := { dt_nodes : gmap bytes Node; dt_children : gmap bytes (list bytes); dt_branches : gmap bytes Branch }.
Definition newDiscoveryTree : discoveryTree := {| dt_nodes := ∅; dt_children := ∅; dt_branches := ∅ |}.
Definition children_of (t : discoveryTree) (id : bytes) : list bytes := default [] (dt_children t !! id).

(** The walk to the root; it gives up at [MaxDepth + 2] nodes. *)
Fixpoint depth_loop (t : discoveryTree) (more : nat) (current : bytes) : nat :=
  if bool_decide (current = []) then 0%nat else
  match dt_nodes t !! current with
  | None => 0%nat
  | Some n => match more with O => 1%nat | S m => S (depth_loop t m (nd_ParentID n)) end
  end.
Definition depthOf (t : discoveryTree) (id : bytes) : nat := depth_loop t (MaxDepth + 1) id.

(** The stack of ids still to be visited, its top last; [None] when the loop runs longer than [fuel]. *)
Fixpoint subtree_loop (t : discoveryTree) (fuel : nat) (pending collected : list bytes) : option (list bytes) :=
  match last pending with
  | None => Some collected
  | Some current =>
      match fuel with
      | O => None
      | S n => subtree_loop t n (take (length pending - 1) pending ++ children_of t current) (collected ++ [current])
      end
  end.
Definition subtree (t : discoveryTree) (id : bytes) : option (list bytes) := subtree_loop t (size (dt_nodes t)) [id] [].

Fixpoint ancestors_loop (t : discoveryTree) (more : nat) (parentID : bytes) : list Node :=
  if bool_decide (parentID = []) then [] else
  match dt_nodes t !! parentID with
  | None => []
  | Some p => p :: match more with O => [] | S m => ancestors_loop t m (nd_ParentID p) end
  end.
Definition ancestors (t : discoveryTree) (n : Node) : list Node := ancestors_loop t (MaxDepth + 1) (nd_ParentID n).

(** [less] of [sortChildIDs]; a missing id reads as the zero node. *)
Definition zero_node : Node := {| nd_ID := []; nd_ParentID := []; nd_Kind := []; nd_Label := []; nd_IconID := []; nd_Order := 0; nd_Status := None; nd_Actions := []; nd_DefaultActionID := [] |}.
Definition less (l r : Node) : bool :=
  if negb (nd_Order l =? nd_Order r) then nd_Order l <? nd_Order r
  else if nd_Label l <>? nd_Label r then negb (bytes_leb (nd_Label r) (nd_Label l))
  else negb (bytes_leb (nd_ID r) (nd_ID l)).
Fixpoint insert_sorted (t : discoveryTree) (id : bytes) (ids : list bytes) : list bytes :=
  match ids with
  | [] => [id]
  | x :: rest => if less (default zero_node (dt_nodes t !! x)) (default zero_node (dt_nodes t !! id)) then x :: insert_sorted t id rest else id :: ids
  end.
(** [sort.SliceStable]: the first of equal elements stays first. *)
Definition sortChildIDs (t : discoveryTree) (ids : list bytes) : list bytes := foldr (insert_sorted t) [] ids.
Definition hasAll (t : discoveryTree) (ids : list bytes) : bool := forallb (λ id, bool_decide (is_Some (dt_nodes t !! id))) ids.

(** ** The store ([discovery_store.go]) *)

(** Trees by connection and plugin. *)
Abbreviation DiscoveryStore := (gmap bytes (gmap bytes discoveryTree)).
Definition NewDiscoveryStore : DiscoveryStore := ∅.
Definition tree_at (s : DiscoveryStore) (connID pluginID : bytes) : option discoveryTree := (s !! connID) ≫= (.!! pluginID).
(** [treeLocked]: the tree, made when there is none; the store that then holds it comes with it. *)
Definition treeLocked (s : DiscoveryStore) (connID pluginID : bytes) : discoveryTree := default newDiscoveryTree (tree_at s connID pluginID).
Definition put_tree (s : DiscoveryStore) (connID pluginID : bytes) (t : discoveryTree) : DiscoveryStore :=
  <[connID := <[pluginID := t]> (default ∅ (s !! connID))]> s.

Definition hostAcceptedBranchState (state : bytes) : bytes := if PluginMayPublishState state then state else BranchReady.

(** [vanishingLocked]; [None] where a walk over a subtree does not end. *)
Definition vanishingLocked (t : discoveryTree) (parentID : bytes) (keeping : list Node) : option (list bytes) :=
  foldr (λ oldID acc, sub ← subtree t oldID; rest ← acc; Some (sub ++ rest)) (Some [])
    (filter (λ oldID, oldID ∉ (nd_ID <$> keeping)) (children_of t parentID)).

(** The children that fit the budget. *)
Fixpoint admit_loop (t : discoveryTree) (budget : Z) (kept : list Node) : list Node :=
  match kept with
  | [] => []
  | c :: rest =>
      match dt_nodes t !! nd_ID c with
      | Some _ => c :: admit_loop t budget rest
      | None => if budget <=? 0 then admit_loop t budget rest else c :: admit_loop t (budget - 1) rest
      end
  end.
Definition admitLocked (t : discoveryTree) (parentID : bytes) (children : list Node) : option (list Node * option Truncated) :=
  let total := len children in
  if (MaxDepth <? depthOf t parentID + 1)%nat then Some ([], Some {| tr_Shown := 0; tr_Total := total |}) else
  let '(kept, truncated) := TruncateChildren children in
  vanishing ← vanishingLocked t parentID kept;
  let budget := MaxNodesPerPlugin - (Z.of_nat (size (dt_nodes t)) - len vanishing) in
  let admitted := admit_loop t budget kept in
  Some (admitted,
    if len admitted <? len kept then
      match truncated with
      | None => Some {| tr_Shown := len admitted; tr_Total := total |}
      | Some r => Some {| tr_Shown := len admitted; tr_Total := tr_Total r |}
      end
    else truncated).

Definition remove_ids (t : discoveryTree) (ids : list bytes) : discoveryTree :=
  foldl (λ t id, {| dt_nodes := delete id (dt_nodes t); dt_children := delete id (dt_children t); dt_branches := delete id (dt_branches t) |}) t ids.
Definition removeVanishedLocked (t : discoveryTree) (parentID : bytes) (keeping : list Node) : option (list bytes * discoveryTree) :=
  removed ← vanishingLocked t parentID keeping;
  Some (removed, remove_ids t removed).

(** The node that is stored: its text cleaned, its parent the one of the envelope. *)
Definition stored_node (parentID : bytes) (child : Node) : Node :=
  let n := SanitizeNode child in {|
  nd_ID := nd_ID n; nd_ParentID := parentID; nd_Kind := nd_Kind n; nd_Label := nd_Label n; nd_IconID := nd_IconID n; nd_Order := nd_Order n;
  nd_Status := nd_Status n; nd_Actions := nd_Actions n; nd_DefaultActionID := nd_DefaultActionID n |}.
Definition put_nodes (t : discoveryTree) (parentID : bytes) (admitted : list Node) : discoveryTree := {|
  dt_nodes := foldl (λ nodes child, <[nd_ID child := stored_node parentID child]> nodes) (dt_nodes t) admitted;
  dt_children := dt_children t; dt_branches := dt_branches t |}.
Definition writeLocked (t : discoveryTree) (parentID : bytes) (admitted : list Node) (branch : Branch) : discoveryTree :=
  let t' := put_nodes t parentID admitted in {|
  dt_nodes := dt_nodes t';
  dt_children := <[parentID := sortChildIDs t' (nd_ID <$> admitted)]> (dt_children t');
  dt_branches := <[parentID := branch]> (dt_branches t') |}.

(** A child of the snapshot that lives under another parent. *)
Definition elsewhere (t : discoveryTree) (parentID : bytes) (child : Node) : bool :=
  match dt_nodes t !! nd_ID child with Some e => nd_ParentID e <>? parentID | None => false end.
(** [ApplySnapshot] on the plugin's tree: the ids that went and the tree, or an error; [Ok None] where the snapshot is dropped. *)
Definition apply_tree (t : discoveryTree) (parentID state errMsg : bytes) (children : list Node) : result derr (option (list bytes * discoveryTree)) :=
  let parent := dt_nodes t !! parentID in
  if bool_decide (parentID ≠ [] ∧ parent = None) then Ok None else
  fail_if match parent with Some p => bool_decide (nd_Kind p = KindInstance) | None => false end with [ErrDiscoveryLeafParent] ;;
  fail_if existsb (elsewhere t parentID) children with [ErrDiscoveryDuplicateNode] ;;
  match admitLocked t parentID children with
  | None => Err [EDiverges]
  | Some (admitted, truncated) =>
      match removeVanishedLocked t parentID admitted with
      | None => Err [EDiverges]
      | Some (removed, t') =>
          Ok (Some (removed, writeLocked t' parentID admitted {| br_State := state; br_Error := SanitizeText errMsg; br_Truncated := truncated |}))
      end
  end.
Definition ApplySnapshot (s : DiscoveryStore) (connID pluginID parentID state errMsg : bytes) (children : list Node) : result derr (list bytes) * DiscoveryStore :=
  match ValidatePublish children with
  | Err e => (Err e, s)
  | Ok _ =>
      let t := treeLocked s connID pluginID in
      match apply_tree t parentID (hostAcceptedBranchState state) errMsg children with
      | Err e => (Err e, put_tree s connID pluginID t)
      | Ok None => (Ok [], put_tree s connID pluginID t)
      | Ok (Some (removed, t')) => (Ok removed, put_tree s connID pluginID t')
      end
  end.

Definition set_state (state : bytes) (b : Branch) : Branch := {| br_State := state; br_Error := br_Error b; br_Truncated := br_Truncated b |}.
Definition map_branches (f : Branch → Branch) (t : discoveryTree) : discoveryTree :=
  {| dt_nodes := dt_nodes t; dt_children := dt_children t; dt_branches := f <$> dt_branches t |}.
Definition SetBranchState (s : DiscoveryStore) (connID pluginID nodeID state : bytes) : DiscoveryStore :=
  match tree_at s connID pluginID with
  | None => s
  | Some t =>
      match dt_branches t !! nodeID with
      | None => s
      | Some b => put_tree s connID pluginID {| dt_nodes := dt_nodes t; dt_children := dt_children t; dt_branches := <[nodeID := set_state state b]> (dt_branches t) |}
      end
  end.
Definition MarkConnectionStale (s : DiscoveryStore) (connID : bytes) : DiscoveryStore := alter (λ trees : gmap bytes discoveryTree, map_branches (set_state BranchStale) <$> trees) connID s.
Definition MarkPluginStale (s : DiscoveryStore) (connID pluginID : bytes) : bool * DiscoveryStore :=
  match tree_at s connID pluginID with
  | None => (false, s)
  | Some t =>
      (existsb (λ kb : bytes * Branch, br_State kb.2 <>? BranchStale) (map_to_list (dt_branches t)), put_tree s connID pluginID (map_branches (set_state BranchStale) t))
  end.
Definition MarkPluginFailed (s : DiscoveryStore) (connID pluginID message : bytes) : bool * DiscoveryStore :=
  let same (b : Branch) : bool := bool_decide (br_State b = BranchError) && bool_decide (br_Error b = message) in
  match tree_at s connID pluginID with
  | None => (false, s)
  | Some t =>
      (existsb (λ kb : bytes * Branch, negb (same kb.2)) (map_to_list (dt_branches t)),
       put_tree s connID pluginID (map_branches (λ b, if same b then b else {| br_State := BranchError; br_Error := SanitizeText message; br_Truncated := br_Truncated b |}) t))
  end.
Definition Store_ClearConnection (s : DiscoveryStore) (connID : bytes) : DiscoveryStore := delete connID s.
(** The ids that went, in no particular order. *)
Definition Store_ClearPlugin (s : DiscoveryStore) (connID pluginID : bytes) : list bytes * DiscoveryStore :=
  match s !! connID with
  | None => ([], s)
  | Some trees =>
      (match trees !! pluginID with Some t => (map_to_list (dt_nodes t)).*1 | None => [] end,
       let trees' := delete pluginID trees in if bool_decide (trees' = ∅) then delete connID s else <[connID := trees']> s)
  end.
Definition HasNode (s : DiscoveryStore) (connID pluginID nodeID : bytes) : bool :=
  match tree_at s connID pluginID with Some t => hasAll t [nodeID] | None => false end.
Definition ConnectionsWithPlugin (s : DiscoveryStore) (pluginID : bytes) : list bytes :=
  (filter (λ kv : bytes * gmap bytes discoveryTree, is_Some (kv.2 !! pluginID)) (map_to_list s)).*1.

(** ** Reading a tree ([discovery_snapshot.go]) *)

(** [viewNodes]: pre-order below a parent; [None] where the recursion goes deeper than [fuel]. *)
Fixpoint view_walk (t : discoveryTree) (fuel : nat) (parentID : bytes) : option (list (Node * bytes)) :=
  match fuel with
  | O => None
  | S n =>
      foldr (λ id acc,
        rest ← acc;
        match dt_nodes t !! id with
        | None => Some rest
        | Some node => below ← view_walk t n id; Some ((node, ResolveIcon node (ancestors t node)) :: below ++ rest)
        end) (Some []) (children_of t parentID)
  end.
(** A tree is at most [MaxDepth] deep, so the root and [MaxDepth] levels below it are walked. *)
Definition viewNodes (t : discoveryTree) : option (list (Node * bytes)) := view_walk t (S MaxDepth) [].

(** ** Actions ([discovery_invoke.go]) *)

Definition MaxNodesPerInvoke : Z := 200.
Definition findDiscoveryAction (n : Node) (actionID : bytes) : option Action := List.find (λ a, bool_decide (ac_ID a = actionID)) (nd_Actions n).
Fixpoint branch_loop (t : discoveryTree) (steps : nat) (current : bytes) : result derr unit :=
  let state := match dt_branches t !! current with Some b => br_State b | None => [] end in
  fail_if bool_decide (state = BranchStale) || bool_decide (state = BranchError) with [ErrDiscoveryBranchNotActionable] ;;
  if bool_decide (current = []) then Ok () else
  match steps with
  | O => Ok ()
  | S n => branch_loop t n (nd_ParentID (default zero_node (dt_nodes t !! current)))
  end.
Definition checkBranchActionable (t : discoveryTree) (parentID : bytes) : result derr unit := branch_loop t (MaxDepth + 1) parentID.
Fixpoint check_nodes (t : discoveryTree) (parentID : bytes) (multi : bool) (actionID : bytes) (nodeIDs : list bytes) : result derr unit :=
  match nodeIDs with
  | [] => Ok ()
  | id :: rest =>
      let n := default zero_node (dt_nodes t !! id) in
      fail_if nd_ParentID n <>? parentID with [ErrDiscoveryMixedParents] ;;
      match findDiscoveryAction n actionID with
      | None => Err [ErrDiscoveryActionUnavailable]
      | Some a => if multi && negb (ac_Multi a) then Err [ErrDiscoveryActionUnavailable] else check_nodes t parentID multi actionID rest
      end
  end.
Definition checkAction (t : discoveryTree) (nodeIDs : list bytes) (actionID : bytes) : result derr unit :=
  let parentID := nd_ParentID (default zero_node (head nodeIDs ≫= (dt_nodes t !!.))) in
  _ ← check_nodes t parentID (1 <? len nodeIDs) actionID nodeIDs;
  checkBranchActionable t parentID.
Definition CheckAction (s : DiscoveryStore) (connID pluginID : bytes) (nodeIDs : list bytes) (actionID : bytes) : result derr unit :=
  match tree_at s connID pluginID with
  | Some t => if hasAll t nodeIDs then checkAction t nodeIDs actionID else Err [ErrDiscoveryNodeNotFound]
  | None => Err [ErrDiscoveryNodeNotFound]
  end.
(** [InvokeAction] up to the call of the plugin: the session it goes to. *)
Definition InvokeAction (s : DiscoveryStore) (leading : option bytes) (connID pluginID : bytes) (nodeIDs : list bytes) (actionID : bytes) : result derr bytes :=
  fail_if bool_decide (nodeIDs = []) || (MaxNodesPerInvoke <? len nodeIDs) with [ErrDiscoveryInvokeSize] ;;
  _ ← CheckAction s connID pluginID nodeIDs actionID;
  match leading with None => Err [ErrDiscoveryNoLeadingSession] | Some sessionID => Ok sessionID end.
