(* ===== verification/DiscoveryLaws.v ===== *)
(** * DiscoveryLaws: the trees stay trees

    Every tree of every reachable store is a tree: acyclic, of bounded depth and size, with its indexes in step. What a
    snapshot changes, what it reports as gone, and which actions are let through. *)

From S2P Require Import Prelude Bytes GoText Discovery.

Implicit Types (t : discoveryTree) (id p q x y : bytes).

(** ** Depth and ancestry *)

Inductive at_depth t : bytes → nat → Prop :=
  | depth_root : at_depth t [] 0
  | depth_node x n d : x ≠ [] → dt_nodes t !! x = Some n → at_depth t (nd_ParentID n) d → at_depth t x (S d).
(** [above t q x]: [q] is [x] or one of its ancestors. *)
Inductive above t (q : bytes) : bytes → Prop :=
  | above_refl : above t q q
  | above_step x n : dt_nodes t !! x = Some n → above t q (nd_ParentID n) → above t q x.

(** The indexes of a tree agree, and its limits hold; what is stored is the cleaned form of a valid node. *)
Record tree_wf t : Prop := {
  wf_id x n : dt_nodes t !! x = Some n → nd_ID n = x ∧ x ≠ [];
  wf_child x n : dt_nodes t !! x = Some n → x ∈ children_of t (nd_ParentID n);
  wf_children p l : dt_children t !! p = Some l →
    NoDup l ∧ len l <= MaxChildrenPerPublish ∧ (p = [] ∨ is_Some (dt_nodes t !! p)) ∧ ∀ c, c ∈ l → ∃ n, dt_nodes t !! c = Some n ∧ nd_ParentID n = p;
  wf_branches p : is_Some (dt_branches t !! p) ↔ is_Some (dt_children t !! p);
  wf_depth x n : dt_nodes t !! x = Some n → ∃ d, at_depth t x d ∧ (d <= MaxDepth)%nat;
  wf_size : Z.of_nat (size (dt_nodes t)) <= MaxNodesPerPlugin;
  wf_clean x n : dt_nodes t !! x = Some n → ∃ c, validateNode c = Ok () ∧ n = stored_node (nd_ParentID n) c }.

Section tree.
Context t (Hwf : tree_wf t).

Lemma at_depth_det x d d' : at_depth t x d → at_depth t x d' → d = d'.
Proof.
  intros H1. revert d'. induction H1 as [|x n d Hx Hn _ IH]; intros d' H2; [by inversion H2|].
  inversion H2 as [|x' n' d'' Hx' Hn' Hd']; subst; [done|]. rewrite Hn in Hn'. injection Hn' as <-. by rewrite (IH _ Hd').
Qed.
Lemma node_depth x n : dt_nodes t !! x = Some n → ∃ d, at_depth t x (S d) ∧ at_depth t (nd_ParentID n) d ∧ (S d <= MaxDepth)%nat.
Proof.
  intros Hn. destruct (wf_depth t Hwf x n Hn) as (d & Hd & Hle). pose proof (wf_id t Hwf x n Hn) as [_ Hx].
  inversion Hd as [E|x' n' d' Hx' Hn' Hd']; subst; [done|]. rewrite Hn in Hn'. injection Hn' as <-. eauto.
Qed.
Lemma above_depth q x d : above t q x → at_depth t x d → ∃ e, at_depth t q e ∧ (e <= d)%nat.
Proof.
  intros Ha. revert d. induction Ha as [|x n Hn _ IH]; intros d Hd; [eauto|].
  destruct (node_depth x n Hn) as (d' & Hx & Hp & _). rewrite (at_depth_det _ _ _ Hd Hx). destruct (IH _ Hp) as (e & He & Hle). exists e. split; [done|lia].
Qed.
Lemma above_trans q x y : above t q x → above t x y → above t q y.
Proof. intros Hqx Hxy. induction Hxy as [|y n Hn _ IH]; [done|]. by eapply above_step. Qed.
Lemma above_equal q x d : above t q x → at_depth t q d → at_depth t x d → q = x.
Proof.
  intros Ha Hq Hx. destruct Ha as [|x n Hn Ha]; [done|]. destruct (node_depth x n Hn) as (e & He & Hp & _).
  pose proof (at_depth_det _ _ _ Hx He) as ->. destruct (above_depth _ _ _ Ha Hp) as (f & Hf & Hle). pose proof (at_depth_det _ _ _ Hq Hf). lia.
Qed.
Lemma above_linear q q' x : above t q x → above t q' x → above t q q' ∨ above t q' q.
Proof.
  intros Ha. induction Ha as [|x n Hn Ha IH]; intros Ha'; [by right|]. inversion Ha' as [|x' n' Hn' Ha'']; subst; [left; by eapply above_step|].
  rewrite Hn in Hn'. injection Hn' as <-. by apply IH.
Qed.
(** A child is not above its parent. *)
Lemma child_not_above c n : dt_nodes t !! c = Some n → ¬ above t c (nd_ParentID n).
Proof.
  intros Hn Ha. destruct (node_depth c n Hn) as (d & Hc & Hp & _). destruct (above_depth _ _ _ Ha Hp) as (e & He & Hle).
  pose proof (at_depth_det _ _ _ Hc He). lia.
Qed.
Lemma in_children p c : c ∈ children_of t p → ∃ n, dt_nodes t !! c = Some n ∧ nd_ParentID n = p.
Proof.
  unfold children_of. destruct (dt_children t !! p) as [l|] eqn:E; cbn; [|by intros ?%elem_of_nil].
  apply (wf_children t Hwf) in E as (_ & _ & _ & Hl). apply Hl.
Qed.
Lemma children_NoDup p : NoDup (children_of t p).
Proof. unfold children_of. destruct (dt_children t !! p) as [l|] eqn:E; cbn; [|constructor]. by apply (wf_children t Hwf) in E as (? & _). Qed.

(** ** The walk over a subtree *)

Lemma depth_loop_at x d more : at_depth t x d → (d <= more)%nat → depth_loop t more x = d.
Proof.
  intros Hd. revert more. induction Hd as [|x n d Hx Hn _ IH]; intros more Hle; [by destruct more|].
  destruct more as [|m]; [lia|]. cbn [depth_loop]. rewrite bool_decide_eq_false_2, Hn by done. f_equal. apply IH. lia.
Qed.

(** What the loop keeps: nothing is listed twice, everything is below the start, and a listed node but the start has its parent collected. *)
Record walking (start : bytes) (pending collected : list bytes) : Prop := {
  wk_NoDup : NoDup (collected ++ pending);
  wk_below x : x ∈ collected ++ pending → above t start x ∧ is_Some (dt_nodes t !! x);
  wk_start : start ∈ collected ++ pending;
  wk_closed x c : x ∈ collected → c ∈ children_of t x → c ∈ collected ++ pending;
  wk_parent x n : x ∈ collected ++ pending → x ≠ start → dt_nodes t !! x = Some n → nd_ParentID n ∈ collected }.

Lemma walking_bound start pending collected : walking start pending collected → (length collected + length pending <= size (dt_nodes t))%nat.
Proof.
  intros [Hnd Hb _ _ _]. rewrite <- length_app, <- size_dom. rewrite <- (size_list_to_set (C := gset bytes)) by done. apply subseteq_size.
  intros x Hx%elem_of_list_to_set. apply elem_of_dom. by apply Hb.
Qed.
Lemma walking_step start pending collected current : walking start (pending ++ [current]) collected →
  walking start (pending ++ children_of t current) (collected ++ [current]).
Proof.
  intros [Hnd Hb Hs Hc Hp]. assert (Hcur : current ∈ collected ++ pending ++ [current]) by set_solver.
  destruct (Hb _ Hcur) as [Hsc [nc Hnc]].
  assert (∀ c, c ∈ children_of t current → c ∉ collected ++ pending ++ [current]) as Hfresh.
  { intros c Hch Hin. apply in_children in Hch as (n & Hn & En). destruct (decide (c = start)) as [->|Hne].
    - apply (child_not_above start n Hn). by rewrite En.
    - specialize (Hp c n Hin Hne Hn). rewrite En in Hp. rewrite app_assoc in Hnd. apply NoDup_app in Hnd as (_ & Hd & _). apply (Hd current); [set_solver|set_solver]. }
  constructor.
  - rewrite (app_assoc (collected ++ [current])). apply NoDup_app. split_and!; [|intros x Hx Hch; apply (Hfresh x Hch); set_solver|apply children_NoDup].
    rewrite <- app_assoc. by rewrite (Permutation_app_comm [current] pending).
  - intros x Hx. destruct (decide (x ∈ children_of t current)) as [Hch|Hch]; [|apply Hb; set_solver].
    apply in_children in Hch as (n & Hn & En). split; [|done]. eapply above_step; [done|]. by rewrite En.
  - set_solver.
  - intros x c Hx Hch. apply elem_of_app in Hx as [Hx|Hx%list_elem_of_singleton]; [specialize (Hc x c Hx Hch)|subst x]; set_solver.
  - intros x n Hx Hne Hn. destruct (decide (x ∈ children_of t current)) as [Hch|Hch].
    + apply in_children in Hch as (n' & Hn' & En). rewrite Hn in Hn'. injection Hn' as <-. rewrite En. set_solver.
    + apply elem_of_app. left. eapply Hp; [|done|done]. set_solver.
Qed.
Lemma subtree_loop_total start fuel pending collected : walking start pending collected → (length collected + fuel >= size (dt_nodes t))%nat →
  ∃ l, subtree_loop t fuel pending collected = Some l ∧ walking start [] l.
Proof.
  revert pending collected. induction fuel as [|fuel IH]; intros pending collected Hw Hf.
  - pose proof (walking_bound _ _ _ Hw). destruct pending as [|x pending]; [eauto|cbn in *; lia].
  - destruct pending as [|current pending _] using rev_ind; [eauto|]. cbn [subtree_loop]. rewrite last_snoc.
    rewrite length_app, Nat.add_sub, take_app_length. apply IH; [by apply walking_step|rewrite length_app; cbn; lia].
Qed.
(** The walk ends, and lists what is below its start, once each. *)
Lemma subtree_spec x : is_Some (dt_nodes t !! x) → ∃ l, subtree t x = Some l ∧ NoDup l ∧ ∀ y, y ∈ l ↔ above t x y ∧ is_Some (dt_nodes t !! y).
Proof.
  intros Hx. destruct (subtree_loop_total x (size (dt_nodes t)) [x] []) as (l & Hl & [Hnd Hb Hs Hc Hp]); [|cbn; lia|].
  { constructor; cbn.
    - apply NoDup_singleton.
    - intros y ->%list_elem_of_singleton. split; [constructor|done].
    - by left.
    - by intros ? ? ?%elem_of_nil.
    - intros y n ->%list_elem_of_singleton. done. }
  exists l. rewrite app_nil_r in *. split_and!; [done|done|]. intros y. split; [apply Hb|].
  intros [Ha Hy]. revert Hy. induction Ha as [|y n Hn Ha IH]; intros _; [done|]. destruct (decide (y = x)) as [->|Hne]; [done|].
  assert (nd_ParentID n ∈ l) as Hpl.
  { apply IH. destruct Ha as [|z m Hm _]; [done|eauto]. }
  eapply Hc; [done|]. by apply (wf_child t Hwf).
Qed.

(** ** What a snapshot removes *)

(** The old children that go, and everything below them. *)
Definition vanishes (p : bytes) (keeping : list Node) (x : bytes) : Prop := ∃ c, c ∈ children_of t p ∧ c ∉ (nd_ID <$> keeping) ∧ above t c x ∧ is_Some (dt_nodes t !! x).

Lemma siblings_disjoint p c c' x : c ∈ children_of t p → c' ∈ children_of t p → above t c x → above t c' x → c = c'.
Proof.
  intros (n & Hn & En)%in_children (n' & Hn' & En')%in_children Ha Ha'.
  destruct (node_depth c n Hn) as (d & Hd & Hp & _), (node_depth c' n' Hn') as (d' & Hd' & Hp' & _). rewrite En in Hp. rewrite En' in Hp'.
  pose proof (at_depth_det _ _ _ Hp Hp') as <-. destruct (above_linear _ _ _ Ha Ha') as [H|H]; [|symmetry]; eapply above_equal; eauto.
Qed.
Lemma vanishing_spec p keeping : ∃ v, vanishingLocked t p keeping = Some v ∧ NoDup v ∧ ∀ x, x ∈ v ↔ vanishes p keeping x.
Proof.
  unfold vanishingLocked, vanishes. assert (∀ c, c ∈ filter (λ o, o ∉ (nd_ID <$> keeping)) (children_of t p) → c ∈ children_of t p) as Hsub by (intros c; by intros [_ ?]%list_elem_of_filter).
  assert (NoDup (filter (λ o, o ∉ (nd_ID <$> keeping)) (children_of t p))) as Hnd by apply NoDup_filter, children_NoDup.
  setoid_rewrite (λ c, and_assoc (c ∈ children_of t p)). setoid_rewrite <- (λ c, and_comm (c ∉ _) (c ∈ children_of t p)).
  setoid_rewrite <- (list_elem_of_filter (λ o, o ∉ (nd_ID <$> keeping)) (children_of t p)).
  revert Hsub Hnd. generalize (filter (λ o, o ∉ (nd_ID <$> keeping)) (children_of t p)) as l. induction l as [|c l IH]; intros Hsub Hnd.
  { exists []. split_and!; [done|constructor|]. intros x. split; [by intros ?%elem_of_nil|by intros (c & ?%elem_of_nil & _)]. }
  apply NoDup_cons in Hnd as [Hc Hnd]. destruct IH as (v & Hv & Hvnd & Hvs); [set_solver|done|]. cbn [foldr]. cbn in Hv. rewrite Hv.
  assert (Hcc : c ∈ children_of t p) by (apply Hsub; left). pose proof (in_children _ _ Hcc) as (n & Hn & _).
  destruct (subtree_spec c) as (s & -> & Hsnd & Hss); [eauto|]. exists (s ++ v). split; [done|]. split.
  - apply NoDup_app. split_and!; [done| |done]. intros x [Hx1 _]%Hss (c' & Hc' & Hx2 & _)%Hvs. apply Hc.
    rewrite (siblings_disjoint p c c' x); [done|done|apply Hsub; by right|done|done].
  - intros x. rewrite elem_of_app, Hss, Hvs. split.
    + intros [[H1 H2]|(c' & H1 & H2)]; [exists c; split; [left|done]|exists c'; split; [by right|done]].
    + intros (c' & [->|H1]%elem_of_cons & H2); [by left|right; eauto].
Qed.
Lemma vanishes_down p keeping x n : dt_nodes t !! x = Some n → vanishes p keeping (nd_ParentID n) → vanishes p keeping x.
Proof. intros Hn (c & H1 & H2 & H3 & _). exists c. split_and!; [done|done|by eapply above_step|eauto]. Qed.
Lemma vanishes_up p keeping x n : dt_nodes t !! x = Some n → vanishes p keeping x →
  vanishes p keeping (nd_ParentID n) ∨ nd_ParentID n = p ∧ x ∉ (nd_ID <$> keeping).
Proof.
  intros Hn (c & Hc & Hk & Ha & _). pose proof (in_children _ _ Hc) as (m & Hm & Em). inversion Ha as [|x' n' Hn' Ha']; subst.
  - right. rewrite Hn in Hm. by injection Hm as <-.
  - rewrite Hn in Hn'. injection Hn' as <-. left. exists c. split_and!; [done|done|done|]. destruct Ha' as [|z k Hz _]; eauto.
Qed.
Lemma parent_stays p keeping : ¬ vanishes p keeping p.
Proof. intros (c & (n & Hn & En)%in_children & _ & Ha & _). apply (child_not_above c n Hn). by rewrite En. Qed.
Lemma kept_stays p keeping x n : dt_nodes t !! x = Some n → nd_ParentID n = p → x ∈ (nd_ID <$> keeping) → ¬ vanishes p keeping x.
Proof. intros Hn En Hk Hv. destruct (vanishes_up _ _ _ _ Hn Hv) as [Hp|[_ ?]]; [|done]. rewrite En in Hp. by eapply parent_stays. Qed.
End tree.

Lemma remove_ids_lookup t v x : dt_nodes (remove_ids t v) !! x = (if decide (x ∈ v) then None else dt_nodes t !! x) ∧
  dt_children (remove_ids t v) !! x = (if decide (x ∈ v) then None else dt_children t !! x) ∧
  dt_branches (remove_ids t v) !! x = (if decide (x ∈ v) then None else dt_branches t !! x).
Proof.
  revert t. induction v as [|y v IH]; intros t; [by destruct (decide (x ∈ [])) as [?%elem_of_nil|]|].
  change (remove_ids t (y :: v)) with (remove_ids {| dt_nodes := delete y (dt_nodes t); dt_children := delete y (dt_children t); dt_branches := delete y (dt_branches t) |} v).
  destruct (IH {| dt_nodes := delete y (dt_nodes t); dt_children := delete y (dt_children t); dt_branches := delete y (dt_branches t) |}) as (-> & -> & ->). cbn.
  destruct (decide (x ∈ v)) as [Hv|Hv], (decide (x ∈ y :: v)) as [Hy|Hy]; [done|by destruct Hy; right| |].
  - apply elem_of_cons in Hy as [->|]; [|done]. by rewrite !lookup_delete_eq.
  - rewrite !lookup_delete_ne; [done|..]; intros ->; apply Hy; left.
Qed.
Lemma put_nodes_in t p admitted c : NoDup (nd_ID <$> admitted) → c ∈ admitted → dt_nodes (put_nodes t p admitted) !! nd_ID c = Some (stored_node p c).
Proof.
  unfold put_nodes. cbn [dt_nodes]. generalize (dt_nodes t) as nodes. induction admitted as [|a l IH]; intros nodes Hnd Hc; [by apply elem_of_nil in Hc|].
  cbn [fmap list_fmap] in Hnd. apply NoDup_cons in Hnd as [Ha Hnd]. cbn [foldl]. apply elem_of_cons in Hc as [->|Hc]; [|by apply IH].
  clear IH. assert (∀ nodes' : gmap bytes Node, nodes' !! nd_ID a = Some (stored_node p a) → foldl (λ nodes child, <[nd_ID child := stored_node p child]> nodes) nodes' l !! nd_ID a = Some (stored_node p a)) as Hrest; [|apply Hrest, lookup_insert_eq].
  clear Hnd. induction l as [|b l IH]; intros nodes' Hn; [done|]. cbn [foldl]. apply IH; [set_solver|]. rewrite lookup_insert_ne; [done|]. set_solver.
Qed.
Lemma put_nodes_out t p admitted x : x ∉ (nd_ID <$> admitted) → dt_nodes (put_nodes t p admitted) !! x = dt_nodes t !! x.
Proof.
  unfold put_nodes. cbn [dt_nodes]. generalize (dt_nodes t) as nodes. induction admitted as [|a l IH]; intros nodes Hx; [done|]. cbn [foldl]. rewrite IH by set_solver.
  rewrite lookup_insert_ne; [done|]. set_solver.
Qed.
Lemma insert_sorted_perm t x l : insert_sorted t x l ≡ₚ x :: l.
Proof. induction l as [|y l IH]; [done|]. cbn [insert_sorted]. destruct (less _ _); [|done]. rewrite IH. apply Permutation_swap. Qed.
Lemma sort_perm t ids : sortChildIDs t ids ≡ₚ ids.
Proof. unfold sortChildIDs. induction ids as [|x ids IH]; [done|]. cbn [foldr]. by rewrite insert_sorted_perm, IH. Qed.

(** ** Which children are admitted *)

Lemma ValidatePublish_ok children : ValidatePublish children = Ok () → NoDup (nd_ID <$> children) ∧ Forall (λ c, validateNode c = Ok () ∧ nd_ID c ≠ []) children.
Proof.
  unfold ValidatePublish. enough (∀ seen, validate_publish_loop children seen = Ok () →
    NoDup (nd_ID <$> children) ∧ Forall (λ c, validateNode c = Ok () ∧ nd_ID c ≠ []) children ∧ ∀ c, c ∈ children → nd_ID c ∉ seen) as H by (intros Hv%H; naive_solver).
  induction children as [|c l IH]; intros seen; [intros _; split_and!; [constructor|constructor|by intros ? ?%elem_of_nil]|]. cbn [validate_publish_loop].
  intros ([] & Hc & Hrest)%bind_Ok. case_bool_decide as Hs; [done|]. apply IH in Hrest as (Hnd & Hall & Hseen). split_and!.
  - cbn. apply NoDup_cons. split; [|done]. intros (c' & E & Hc')%list_elem_of_fmap. apply (Hseen c' Hc'). rewrite <- E. left.
  - constructor; [|done]. split; [done|]. unfold validateNode in Hc. apply fail_if_Ok in Hc as [?%bool_decide_eq_false _]. done.
  - intros c' [->|Hc']%elem_of_cons; [done|]. specialize (Hseen c' Hc'). set_solver.
Qed.
Lemma admit_loop_sublist t budget kept : sublist (admit_loop t budget kept) kept.
Proof.
  revert budget. induction kept as [|c kept IH]; intros budget; [constructor|]. cbn [admit_loop]. destruct (dt_nodes t !! nd_ID c); [by apply sublist_skip|].
  destruct (budget <=? 0); [by apply sublist_cons|by apply sublist_skip].
Qed.
Lemma admit_loop_known t budget kept c : c ∈ kept → is_Some (dt_nodes t !! nd_ID c) → c ∈ admit_loop t budget kept.
Proof.
  revert budget. induction kept as [|k kept IH]; intros budget Hc [n Hn]; [by apply elem_of_nil in Hc|]. cbn [admit_loop]. apply elem_of_cons in Hc as [->|Hc].
  - rewrite Hn. left.
  - destruct (dt_nodes t !! nd_ID k); [right; eauto|]. destruct (budget <=? 0); [eauto|right; eauto].
Qed.
Definition fresh t (c : Node) : Prop := dt_nodes t !! nd_ID c = None.
#[export] Instance fresh_dec t c : Decision (fresh t c).
Proof. unfold fresh. destruct (dt_nodes t !! nd_ID c) eqn:E; [by right|by left]. Defined.
Lemma admit_loop_budget t budget kept : 0 <= budget → len (filter (fresh t) (admit_loop t budget kept)) <= budget.
Proof.
  revert budget. induction kept as [|c kept IH]; intros budget Hb; [done|]. cbn [admit_loop]. destruct (dt_nodes t !! nd_ID c) eqn:E.
  - rewrite filter_cons_False by (unfold fresh; congruence). by apply IH.
  - destruct (Z.leb_spec budget 0); [by apply IH|]. rewrite filter_cons_True by done. cbn [length]. specialize (IH (budget - 1) ltac:(lia)). lia.
Qed.
Lemma filter_agree {A} (P Q : A → Prop) `{!∀ a, Decision (P a), !∀ a, Decision (Q a)} (l : list A) : (∀ a, a ∈ l → P a ↔ Q a) → filter P l = filter Q l.
Proof.
  induction l as [|a l IH]; intros Hpq; [done|]. rewrite !filter_cons. rewrite IH by (intros; apply Hpq; by right). specialize (Hpq a ltac:(left)).
  destruct (decide (P a)), (decide (Q a)); tauto.
Qed.
Lemma TruncateChildren_spec children kept tr : TruncateChildren children = (kept, tr) → sublist kept children ∧ len kept <= MaxChildrenPerPublish.
Proof.
  unfold TruncateChildren. destruct (Z.leb_spec (len children) MaxChildrenPerPublish); intros [= <- <-]; [done|]. split; [apply sublist_take|].
  rewrite length_take. unfold MaxChildrenPerPublish. lia.
Qed.

Record admission t (p : bytes) (children admitted : list Node) (v : list bytes) : Prop := {
  adm_sublist : sublist admitted children;
  adm_len : len admitted <= MaxChildrenPerPublish;
  adm_depth : admitted ≠ [] → ∃ d, at_depth t p d ∧ (S d <= MaxDepth)%nat;
  adm_vanishing : vanishingLocked t p admitted = Some v;
  adm_size : Z.of_nat (size (dt_nodes t)) - len v + len (filter (fresh t) admitted) <= MaxNodesPerPlugin }.
Lemma parent_depth t p : tree_wf t → (p = [] ∨ is_Some (dt_nodes t !! p)) → ∃ d, at_depth t p d ∧ (d <= MaxDepth)%nat.
Proof. intros Hwf [->|[n Hn]]; [exists 0%nat; split; [constructor|lia]|by eapply wf_depth]. Qed.
Lemma vanishing_bound t p keeping v : tree_wf t → vanishingLocked t p keeping = Some v → (length v <= size (dt_nodes t))%nat.
Proof.
  intros Hwf Hv. destruct (vanishing_spec t Hwf p keeping) as (v' & Hv' & Hnd & Hin). rewrite Hv in Hv'. injection Hv' as <-.
  rewrite <- size_dom. rewrite <- (size_list_to_set (C := gset bytes)) by done. apply subseteq_size.
  intros x Hx%elem_of_list_to_set%Hin. destruct Hx as (_ & _ & _ & _ & Hx). by apply elem_of_dom.
Qed.
Lemma admitLocked_spec t p children : tree_wf t → (p = [] ∨ is_Some (dt_nodes t !! p)) →
  ∃ admitted tr v, admitLocked t p children = Some (admitted, tr) ∧ admission t p children admitted v.
Proof.
  intros Hwf Hp. destruct (parent_depth t p Hwf Hp) as (d & Hd & Hdle). unfold admitLocked, depthOf. rewrite (depth_loop_at t p d) by (done || lia).
  destruct (Nat.ltb_spec MaxDepth (d + 1)) as [Hdeep|Hdeep].
  - destruct (vanishing_spec t Hwf p []) as (v & Hv & _). eexists [], _, v. split; [done|]. split; [apply sublist_nil_l|by vm_compute|done|done|]. cbn.
    pose proof (wf_size t Hwf). pose proof (vanishing_bound _ _ _ _ Hwf Hv). lia.
  - destruct (TruncateChildren children) as [kept tr] eqn:Et. apply TruncateChildren_spec in Et as [Hsub Hlen].
    destruct (vanishing_spec t Hwf p kept) as (v & Hv & _). rewrite Hv. cbn [mbind option_bind]. eexists _, _, v. split; [done|].
    set (budget := MaxNodesPerPlugin - (Z.of_nat (size (dt_nodes t)) - len v)). pose proof (wf_size t Hwf). pose proof (vanishing_bound _ _ _ _ Hwf Hv).
    pose proof (admit_loop_sublist t budget kept) as Hadm. split.
    + by etrans.
    + apply sublist_length in Hadm. lia.
    + intros _. exists d. split; [done|lia].
    + rewrite <- Hv. unfold vanishingLocked. f_equal. apply filter_agree. intros o (n & Hn & _)%in_children; [|done].
      split; intros Ho; contradict Ho; apply list_elem_of_fmap in Ho as (c & -> & Hc); apply list_elem_of_fmap_2.
      * eapply admit_loop_known; eauto.
      * eapply elem_of_sublist; eauto.
    + pose proof (admit_loop_budget t budget kept). lia.
Qed.

(** ** The tree after a snapshot *)

Section write.
Context t (p : bytes) (children admitted : list Node) (v : list bytes) (b : Branch).
Context (Hwf : tree_wf t) (Hpar : p = [] ∨ is_Some (dt_nodes t !! p)).
Context (Hnd : NoDup (nd_ID <$> children)) (Hval : Forall (λ c, validateNode c = Ok () ∧ nd_ID c ≠ []) children).
Context (Hhere : ∀ c, c ∈ children → elsewhere t p c = false) (Hadm : admission t p children admitted v).
Let t' : discoveryTree := writeLocked (remove_ids t v) p admitted b.

Lemma adm_in c : c ∈ admitted → c ∈ children.
Proof. intros Hc. eapply elem_of_sublist; [done|apply Hadm]. Qed.
Lemma adm_NoDup : NoDup (nd_ID <$> admitted).
Proof. eapply sublist_NoDup; [exact Hnd|]. apply fmap_sublist, Hadm. Qed.
Lemma v_spec x : x ∈ v ↔ vanishes t p admitted x.
Proof. destruct (vanishing_spec t Hwf p admitted) as (v' & Hv' & _ & Hin). rewrite (adm_vanishing _ _ _ _ _ Hadm) in Hv'. injection Hv' as <-. apply Hin. Qed.
Lemma v_NoDup : NoDup v.
Proof. destruct (vanishing_spec t Hwf p admitted) as (v' & Hv' & Hnd' & _). rewrite (adm_vanishing _ _ _ _ _ Hadm) in Hv'. injection Hv' as <-. done. Qed.
Lemma v_node x : x ∈ v → is_Some (dt_nodes t !! x).
Proof. rewrite v_spec. by intros (_ & _ & _ & _ & ?). Qed.
Lemma adm_known x n : dt_nodes t !! x = Some n → x ∈ (nd_ID <$> admitted) → nd_ParentID n = p.
Proof.
  intros Hn (c & -> & Hc)%list_elem_of_fmap. specialize (Hhere c (adm_in c Hc)). unfold elsewhere in Hhere. rewrite Hn in Hhere.
  apply negb_false_iff, bool_decide_eq_true in Hhere. done.
Qed.
Lemma adm_stays x : x ∈ (nd_ID <$> admitted) → x ∉ v.
Proof.
  intros Hx Hv. pose proof (v_node x Hv) as [n Hn]. apply v_spec in Hv. revert Hv. eapply kept_stays; [done|done|by eapply adm_known|done].
Qed.
Lemma p_stays : p ∉ v.
Proof. rewrite v_spec. by apply parent_stays. Qed.
Lemma root_stays : [] ∉ v.
Proof. intros [n Hn]%v_node. by apply (wf_id t Hwf) in Hn as [_ ?]. Qed.

Lemma new_in c : c ∈ admitted → dt_nodes t' !! nd_ID c = Some (stored_node p c).
Proof. intros Hc. apply put_nodes_in; [apply adm_NoDup|done]. Qed.
Lemma new_out x : x ∉ (nd_ID <$> admitted) → dt_nodes t' !! x = if decide (x ∈ v) then None else dt_nodes t !! x.
Proof. intros Hx. change (dt_nodes (put_nodes (remove_ids t v) p admitted) !! x = if decide (x ∈ v) then None else dt_nodes t !! x). rewrite put_nodes_out by done. apply remove_ids_lookup. Qed.
(** A node of the new tree is a published one or an old one. *)
Lemma new_cases x n : dt_nodes t' !! x = Some n →
  (∃ c, c ∈ admitted ∧ x = nd_ID c ∧ n = stored_node p c) ∨ x ∉ (nd_ID <$> admitted) ∧ x ∉ v ∧ dt_nodes t !! x = Some n.
Proof.
  intros Hn. destruct (decide (x ∈ (nd_ID <$> admitted))) as [(c & -> & Hc)%list_elem_of_fmap|Hx].
  - left. exists c. rewrite new_in in Hn by done. by injection Hn as <-.
  - right. rewrite new_out in Hn by done. by destruct (decide (x ∈ v)).
Qed.
(** An old node that stays keeps its parent. *)
Lemma old_stays x n : dt_nodes t !! x = Some n → x ∉ v → ∃ n', dt_nodes t' !! x = Some n' ∧ nd_ParentID n' = nd_ParentID n.
Proof.
  intros Hn Hv. destruct (decide (x ∈ (nd_ID <$> admitted))) as [Hx|Hx].
  - pose proof (adm_known x n Hn Hx) as ->. apply list_elem_of_fmap in Hx as (c & -> & Hc). rewrite new_in by done. eauto.
  - rewrite new_out by done. rewrite decide_False by done. eauto.
Qed.
Lemma old_parent_stays x n : dt_nodes t !! x = Some n → x ∉ v → nd_ParentID n ∉ v.
Proof. intros Hn Hx Hp. apply Hx. rewrite v_spec in *. by eapply vanishes_down. Qed.
Lemma depth_stays x d : at_depth t x d → x ∉ v → at_depth t' x d.
Proof.
  intros Hd. induction Hd as [|x n d Hx Hn _ IH]; intros Hv; [constructor|]. destruct (old_stays x n Hn Hv) as (n' & Hn' & E). econstructor; [done|done|].
  rewrite E. apply IH. by eapply old_parent_stays.
Qed.
Lemma new_children q : dt_children t' !! q = if decide (q = p) then Some (sortChildIDs (put_nodes (remove_ids t v) p admitted) (nd_ID <$> admitted)) else if decide (q ∈ v) then None else dt_children t !! q.
Proof.
  change (dt_children t' !! q) with (<[p := sortChildIDs (put_nodes (remove_ids t v) p admitted) (nd_ID <$> admitted)]> (dt_children (remove_ids t v)) !! q).
  destruct (decide (q = p)) as [->|Hne]; [by rewrite lookup_insert_eq|]. rewrite lookup_insert_ne by done. apply remove_ids_lookup.
Qed.
Lemma new_branches q : dt_branches t' !! q = if decide (q = p) then Some b else if decide (q ∈ v) then None else dt_branches t !! q.
Proof.
  change (dt_branches t' !! q) with (<[p := b]> (dt_branches (remove_ids t v)) !! q). destruct (decide (q = p)) as [->|Hne]; [by rewrite lookup_insert_eq|].
  rewrite lookup_insert_ne by done. apply remove_ids_lookup.
Qed.
Lemma new_size : Z.of_nat (size (dt_nodes t')) <= MaxNodesPerPlugin.
Proof.
  pose proof (adm_size _ _ _ _ _ Hadm) as Hs. enough (size (dt_nodes t') + length v <= size (dt_nodes t) + length (filter (fresh t) admitted))%nat by lia.
  pose (news := list_to_set (nd_ID <$> filter (fresh t) admitted) : gset bytes). pose (gone := list_to_set v : gset bytes).
  assert (dom (dt_nodes t') ⊆ (dom (dt_nodes t) ∖ gone) ∪ news) as Hsub.
  { intros x [n Hn]%elem_of_dom. apply new_cases in Hn as [(c & Hc & -> & _)|(Hx & Hv & Hn)].
    - destruct (decide (fresh t c)) as [Hf|Hf].
      + apply elem_of_union. right. apply elem_of_list_to_set, list_elem_of_fmap_2, list_elem_of_filter. done.
      + apply elem_of_union. left. apply elem_of_difference. split; [apply elem_of_dom; unfold fresh in Hf; by apply not_eq_None_Some|].
        unfold gone. rewrite elem_of_list_to_set. apply adm_stays. by apply list_elem_of_fmap_2.
    - apply elem_of_union. left. apply elem_of_difference. split; [by apply elem_of_dom_2 in Hn|unfold gone; by rewrite elem_of_list_to_set]. }
  apply subseteq_size in Hsub. rewrite size_union_alt in Hsub. pose proof (subseteq_size (news ∖ (dom (dt_nodes t) ∖ gone)) news ltac:(set_solver)) as Hnews.
  assert (size news <= length (filter (fresh t) admitted))%nat as Hnl.
  { subst news. rewrite size_list_to_set; [by rewrite length_fmap|]. eapply sublist_NoDup; [apply adm_NoDup|]. apply fmap_sublist, sublist_filter. }
  assert (size (dom (dt_nodes t) ∖ gone) + length v = size (dt_nodes t))%nat as Hd.
  { rewrite size_difference by (intros x Hx%elem_of_list_to_set; apply elem_of_dom; by apply v_node).
    assert (size gone = length v) as Hg by (subst gone; apply size_list_to_set, v_NoDup). rewrite Hg, size_dom. pose proof (vanishing_bound t p admitted v Hwf (adm_vanishing _ _ _ _ _ Hadm)). lia. }
  rewrite size_dom in Hsub. lia.
Qed.
Lemma write_wf : tree_wf t'.
Proof.
  pose proof (proj1 (Forall_forall _ _) Hval) as Hval'. constructor.
  - intros x n [(c & Hc & -> & ->)|(_ & _ & Hn)]%new_cases; [|by apply (wf_id t Hwf)]. split; [done|]. by apply Hval', adm_in.
  - intros x n [(c & Hc & -> & ->)|(Hx & Hv & Hn)]%new_cases; unfold children_of; rewrite new_children.
    + cbn. rewrite decide_True by done. cbn. rewrite sort_perm. by apply list_elem_of_fmap_2.
    + destruct (decide (nd_ParentID n = p)) as [Ep|Ep].
      * destruct Hv. apply v_spec. exists x. split_and!; [rewrite <- Ep; by apply (wf_child t Hwf)|done|constructor|eauto].
      * rewrite decide_False by by eapply old_parent_stays. by apply (wf_child t Hwf).
  - intros q l. rewrite new_children. destruct (decide (q = p)) as [->|Hq].
    + intros [= <-]. rewrite sort_perm. split_and!; [apply adm_NoDup|rewrite length_fmap; apply Hadm| |].
      * destruct Hpar as [->|[n Hn]]; [by left|right]. destruct (old_stays p n Hn p_stays) as (n' & Hn' & _). eauto.
      * intros c Hc. rewrite sort_perm in Hc. apply list_elem_of_fmap in Hc as (k & -> & Hk). exists (stored_node p k). by rewrite new_in.
    + destruct (decide (q ∈ v)) as [|Hv]; [done|]. intros Hl. apply (wf_children t Hwf) in Hl as (H1 & H2 & H3 & H4). split_and!; [done|done| |].
      * destruct H3 as [->|[n Hn]]; [by left|right]. destruct (old_stays q n Hn Hv) as (n' & Hn' & _). eauto.
      * intros c Hc. destruct (H4 c Hc) as (n & Hn & En). assert (c ∉ v) as Hcv.
        { rewrite v_spec. intros [Hup|[Hup _]]%(vanishes_up t Hwf p admitted c n Hn); rewrite En in Hup; [|done]. apply Hv. by apply v_spec. }
        destruct (old_stays c n Hn Hcv) as (n' & Hn' & E). exists n'. split; [done|]. by rewrite E.
  - intros q. rewrite new_branches, new_children. destruct (decide (q = p)); [split; eauto|]. destruct (decide (q ∈ v)); [split; by intros []|]. apply (wf_branches t Hwf).
  - intros x n [(c & Hc & -> & ->)|(_ & Hv & Hn)]%new_cases.
    + destruct (adm_depth _ _ _ _ _ Hadm) as (d & Hd & Hle); [intros ->; by apply elem_of_nil in Hc|]. exists (S d). split; [|done].
      econstructor; [by apply Hval', adm_in|by apply new_in|]. cbn. apply depth_stays; [done|apply p_stays].
    + destruct (wf_depth t Hwf x n Hn) as (d & Hd & Hle). exists d. split; [by apply depth_stays|done].
  - apply new_size.
  - intros x n [(c & Hc & -> & ->)|(_ & _ & Hn)]%new_cases; [|by eapply (wf_clean t Hwf)]. exists c. split; [by apply Hval', adm_in|done].
Qed.
End write.

(** ** Every operation of the store *)

Lemma new_tree_wf : tree_wf newDiscoveryTree.
Proof. constructor; cbn; try (by intros ? ? ?; simplify_map_eq); [|by vm_compute]. intros p. by rewrite !lookup_empty. Qed.

(** What an accepted snapshot does to the tree. *)
Record snapshot t (p : bytes) (children : list Node) (b : Branch) (removed : list bytes) (t' : discoveryTree) : Prop := {
  sn_wf : tree_wf t';
  sn_removed x : x ∈ removed ↔ is_Some (dt_nodes t !! x) ∧ dt_nodes t' !! x = None;
  sn_children x : x ∈ children_of t' p → ∃ c, c ∈ children ∧ nd_ID c = x ∧ dt_nodes t' !! x = Some (stored_node p c);
  sn_known c : c ∈ take (Z.to_nat MaxChildrenPerPublish) children → is_Some (dt_nodes t !! nd_ID c) → nd_ID c ∈ children_of t' p;
  sn_others x n : nd_ParentID n ≠ p → dt_nodes t' !! x = Some n → dt_nodes t !! x = Some n;
  sn_index q : q ≠ p → dt_children t' !! q = (if decide (q ∈ removed) then None else dt_children t !! q);
  sn_branch q : dt_branches t' !! q = (if decide (q = p) then Some b else if decide (q ∈ removed) then None else dt_branches t !! q) }.

Lemma take_kept children : (TruncateChildren children).1 = take (Z.to_nat MaxChildrenPerPublish) children.
Proof. unfold TruncateChildren. destruct (Z.leb_spec (len children) MaxChildrenPerPublish); [|done]. cbn [fst]. symmetry. apply take_ge. unfold MaxChildrenPerPublish in *. lia. Qed.
Lemma admitted_known t p children admitted tr c : tree_wf t → (p = [] ∨ is_Some (dt_nodes t !! p)) → elsewhere t p c = false → admitLocked t p children = Some (admitted, tr) →
  c ∈ take (Z.to_nat MaxChildrenPerPublish) children → is_Some (dt_nodes t !! nd_ID c) → c ∈ admitted.
Proof.
  intros Hwf Hp Hhere Ha Hc Hn. destruct (parent_depth t p Hwf Hp) as (d & Hd & _). unfold admitLocked, depthOf in Ha.
  assert (S d <= MaxDepth)%nat as Hdle.
  { destruct Hn as [n Hn]. destruct (node_depth t Hwf _ n Hn) as (e & _ & He & Hle). unfold elsewhere in Hhere. rewrite Hn in Hhere.
    apply negb_false_iff, bool_decide_eq_true in Hhere. rewrite Hhere in He. by rewrite (at_depth_det t _ _ _ Hd He). }
  rewrite (depth_loop_at t p d) in Ha by (done || lia). rewrite (proj2 (Nat.ltb_ge MaxDepth (d + 1))) in Ha by lia.
  rewrite <- take_kept in Hc. destruct (TruncateChildren children) as [kept tr']. destruct (vanishingLocked t p kept); [|done]. cbn in Ha. injection Ha as <- _.
  by apply admit_loop_known.
Qed.
Lemma apply_tree_spec t p state err children : tree_wf t → ValidatePublish children = Ok () →
  match apply_tree t p state err children with
  | Ok (Some (removed, t')) => (p = [] ∨ is_Some (dt_nodes t !! p)) ∧ ∃ tr, snapshot t p children {| br_State := state; br_Error := SanitizeText err; br_Truncated := tr |} removed t'
  | Ok None => True
  | Err e => e ≠ [EDiverges]
  end.
Proof.
  intros Hwf [Hnd Hval]%ValidatePublish_ok. unfold apply_tree. case_bool_decide as Hp; [done|].
  assert (p = [] ∨ is_Some (dt_nodes t !! p)) as Hpar.
  { destruct (decide (p = [])); [by left|right]. apply not_eq_None_Some. tauto. }
  clear Hp. destruct (match dt_nodes t !! p with Some p' => _ | None => false end); [done|].
  destruct (existsb (elsewhere t p) children) eqn:Eh; [done|]. assert (∀ c, c ∈ children → elsewhere t p c = false) as Hhere.
  { intros c Hc. apply not_true_iff_false. intros He. apply not_true_iff_false in Eh. apply Eh. apply existsb_exists. exists c. split; [by apply list_elem_of_In|done]. }
  destruct (admitLocked_spec t p children Hwf Hpar) as (admitted & tr & v & Ha & Hadm). rewrite Ha. unfold removeVanishedLocked.
  rewrite (adm_vanishing _ _ _ _ _ Hadm). cbn [mbind option_bind]. split; [done|]. exists tr. split.
  - by eapply write_wf.
  - intros x. split.
    + intros Hx. split; [by eapply v_node|]. rewrite new_out; try done; [by rewrite decide_True|]. intros Hin. by eapply adm_stays.
    + intros [[n Hn] Hnone]. destruct (decide (x ∈ v)) as [|Hv]; [done|]. edestruct (old_stays t p children admitted v {| br_State := state; br_Error := SanitizeText err; br_Truncated := tr |}) as (n' & Hn' & _); eauto. congruence.
  - intros x. unfold children_of. rewrite new_children by done. rewrite decide_True by done. cbn. rewrite sort_perm. intros (c & -> & Hc)%list_elem_of_fmap.
    exists c. split_and!; [by eapply adm_in|done|]. by eapply new_in.
  - intros c Hc Hn. unfold children_of. rewrite new_children by done. rewrite decide_True by done. cbn. rewrite sort_perm. apply list_elem_of_fmap_2.
    eapply admitted_known; eauto. apply Hhere. eapply elem_of_sublist; [done|apply sublist_take].
  - intros x n Hne Hn. eapply new_cases in Hn as [(c & _ & _ & ->)|(_ & _ & ?)]; [done|done|done..].
  - intros q Hq. rewrite new_children. by rewrite decide_False.
  - intros q. by apply new_branches.
  Unshelve. exact {| br_State := state; br_Error := err; br_Truncated := tr |}.
Qed.

Definition store_wf (s : DiscoveryStore) : Prop := ∀ conn plugin t, tree_at s conn plugin = Some t → tree_wf t.

Lemma tree_at_put s conn plugin t conn' plugin' :
  tree_at (put_tree s conn plugin t) conn' plugin' = if decide (conn' = conn ∧ plugin' = plugin) then Some t else tree_at s conn' plugin'.
Proof.
  unfold tree_at, put_tree. destruct (decide (conn' = conn)) as [->|Hc].
  - rewrite lookup_insert_eq. cbn. destruct (decide (plugin' = plugin)) as [->|Hp].
    + by rewrite lookup_insert_eq, decide_True.
    + rewrite lookup_insert_ne by done. rewrite decide_False by tauto. by destruct (s !! conn).
  - rewrite lookup_insert_ne by done. by rewrite decide_False by tauto.
Qed.
Lemma put_wf s conn plugin t : store_wf s → tree_wf t → store_wf (put_tree s conn plugin t).
Proof. intros Hs Ht c p t'. rewrite tree_at_put. destruct (decide _); [by intros [= <-]|apply Hs]. Qed.
Lemma treeLocked_wf s conn plugin : store_wf s → tree_wf (treeLocked s conn plugin).
Proof. intros Hs. unfold treeLocked. destruct (tree_at s conn plugin) as [t|] eqn:E; cbn; [by eapply Hs|apply new_tree_wf]. Qed.
Lemma branches_wf t (branches : gmap bytes Branch) : tree_wf t → (∀ p, is_Some (branches !! p) ↔ is_Some (dt_branches t !! p)) →
  tree_wf {| dt_nodes := dt_nodes t; dt_children := dt_children t; dt_branches := branches |}.
Proof.
  intros Hwf Hb. pose proof Hwf as [H1 H2 H3 H4 H5 H6 H7]. constructor; cbn; try done.
  - intros p. by rewrite Hb.
  - intros x n Hn. destruct (H5 x n Hn) as (d & Hd & Hle). exists d. split; [|done]. clear -Hd. induction Hd; econstructor; eauto.
Qed.
Lemma map_branches_wf f t : tree_wf t → tree_wf (map_branches f t).
Proof. intros Hwf. apply branches_wf; [done|]. intros p. by rewrite lookup_fmap, fmap_is_Some. Qed.

Inductive store_step : DiscoveryStore → DiscoveryStore → Prop :=
  | step_apply s conn plugin p state err children : store_step s (ApplySnapshot s conn plugin p state err children).2
  | step_state s conn plugin x state : store_step s (SetBranchState s conn plugin x state)
  | step_stale s conn : store_step s (MarkConnectionStale s conn)
  | step_plugin_stale s conn plugin : store_step s (MarkPluginStale s conn plugin).2
  | step_plugin_failed s conn plugin message : store_step s (MarkPluginFailed s conn plugin message).2
  | step_clear s conn : store_step s (Store_ClearConnection s conn)
  | step_clear_plugin s conn plugin : store_step s (Store_ClearPlugin s conn plugin).2.

Lemma apply_wf s conn plugin p state err children : store_wf s → store_wf (ApplySnapshot s conn plugin p state err children).2.
Proof.
  intros Hs. unfold ApplySnapshot. destruct (ValidatePublish children) as [[]|] eqn:Ev; [|done]. pose proof (treeLocked_wf s conn plugin Hs) as Ht.
  pose proof (apply_tree_spec (treeLocked s conn plugin) p (hostAcceptedBranchState state) err children Ht Ev) as Hspec.
  destruct (apply_tree _ _ _ _ _) as [[[removed t']|]|]; cbn; apply put_wf; try done. by destruct Hspec as (_ & tr & [? _ _ _ _ _ _]).
Qed.
Lemma store_step_wf s s' : store_step s s' → store_wf s → store_wf s'.
Proof.
  destruct 1 as [s conn plugin p state err children|s conn plugin x state|s conn|s conn plugin|s conn plugin message|s conn|s conn plugin]; intros Hs.
  - by apply apply_wf.
  - unfold SetBranchState. destruct (tree_at s conn plugin) as [t|] eqn:E; [|done]. destruct (dt_branches t !! x) as [b|] eqn:Eb; [|done].
    apply put_wf; [done|]. apply branches_wf; [by eapply Hs|]. intros p. destruct (decide (p = x)) as [->|]; [rewrite lookup_insert_eq, Eb; split; eauto|by rewrite lookup_insert_ne].
  - intros c p t. unfold MarkConnectionStale, tree_at. destruct (decide (conn = c)) as [<-|Hc]; [|rewrite lookup_alter_ne by done; apply (Hs c p)].
    rewrite lookup_alter_eq. destruct (s !! conn) as [trees|] eqn:Ec; [|done]. cbn [fmap option_fmap option_map mbind option_bind]. rewrite lookup_fmap.
    destruct (trees !! p) as [t0|] eqn:Et; [|done]. intros [= <-]. apply map_branches_wf, (Hs conn p). unfold tree_at. by rewrite Ec.
  - unfold MarkPluginStale. destruct (tree_at s conn plugin) as [t|] eqn:E; [|done]. apply put_wf; [done|]. apply map_branches_wf. by eapply Hs.
  - unfold MarkPluginFailed. destruct (tree_at s conn plugin) as [t|] eqn:E; [|done]. apply put_wf; [done|]. apply map_branches_wf. by eapply Hs.
  - intros c p t. unfold Store_ClearConnection, tree_at. destruct (decide (c = conn)) as [->|Hc]; [by rewrite lookup_delete_eq|]. rewrite lookup_delete_ne by done. apply (Hs c p).
  - unfold Store_ClearPlugin. destruct (s !! conn) as [trees|] eqn:Ec; [|done]. cbn. intros c p t Ht. apply (Hs c p). revert Ht. unfold tree_at.
    case_bool_decide as He; (destruct (decide (c = conn)) as [->|Hc]; [|by rewrite ?lookup_delete_ne, ?lookup_insert_ne by done]).
    + by rewrite lookup_delete_eq.
    + rewrite lookup_insert_eq, Ec. cbn. destruct (decide (p = plugin)) as [->|Hp]; [by rewrite lookup_delete_eq|by rewrite lookup_delete_ne].
Qed.
Definition reachable_store : DiscoveryStore → Prop := rtc store_step NewDiscoveryStore.
Lemma reachable_wf s : reachable_store s → store_wf s.
Proof.
  intros Hr. assert (store_wf NewDiscoveryStore) as H0 by (intros c p t; unfold tree_at, NewDiscoveryStore; by rewrite lookup_empty).
  unfold reachable_store in Hr. induction Hr as [|s1 s2 s3 Hst _ IH]; [done|]. apply IH. by eapply store_step_wf.
Qed.

(** ** What a reader sees *)

Lemma view_walk_spec t fuel p d : tree_wf t → at_depth t p d → (MaxDepth < d + fuel)%nat →
  ∃ l, view_walk t fuel p = Some l ∧ NoDup ((nd_ID ∘ fst) <$> l) ∧
    ∀ x, x ∈ (nd_ID ∘ fst) <$> l ↔ ∃ c, c ∈ children_of t p ∧ above t c x ∧ is_Some (dt_nodes t !! x).
Proof.
  intros Hwf. revert p d. induction fuel as [|fuel IH]; intros p d Hd Hf.
  { exfalso. assert (d <= MaxDepth)%nat; [|lia]. inversion Hd as [|x n e Hx Hn He]; subst; [lia|]. destruct (node_depth t Hwf p n Hn) as (e' & He' & _ & Hle).
    by rewrite (at_depth_det t _ _ _ Hd He'). }
  cbn [view_walk]. assert (∀ c, c ∈ children_of t p → c ∈ children_of t p) as Hsub by done. revert Hsub. pose proof (children_NoDup t Hwf p) as Hnd. revert Hnd.
  generalize (children_of t p) at 1 2 4 5 as cs. induction cs as [|c cs IHc]; intros Hnd Hsub.
  { exists []. split_and!; [done|constructor|]. intros x. split; [by intros ?%elem_of_nil|by intros (c & ?%elem_of_nil & _)]. }
  apply NoDup_cons in Hnd as [Hc Hnd]. destruct IHc as (l & Hl & Hlnd & Hls); [done|set_solver|]. cbn [foldr]. rewrite Hl. cbn [mbind option_bind].
  assert (c ∈ children_of t p) as Hcp by (apply Hsub; left). destruct (in_children t Hwf p c Hcp) as (n & Hn & En). rewrite Hn.
  destruct (node_depth t Hwf c n Hn) as (e & He & Hpe & _). rewrite En in Hpe. pose proof (at_depth_det t _ _ _ Hd Hpe) as <-.
  destruct (IH c (S d) He) as (below & -> & Hbnd & Hbs); [lia|]. cbn [mbind option_bind]. eexists. split; [done|].
  assert (∀ x, x ∈ (nd_ID ∘ fst) <$> ((n, ResolveIcon n (ancestors t n)) :: below) ↔ above t c x ∧ is_Some (dt_nodes t !! x)) as Hsub1.
  { intros x. cbn [fmap list_fmap]. rewrite elem_of_cons. change ((nd_ID ∘ fst) (n, _)) with (nd_ID n). destruct (wf_id t Hwf c n Hn) as [-> _]. rewrite Hbs. split.
    - intros [->|(k & (m & Hm & Em)%in_children & Ha & Hx)]; [split; [constructor|eauto]|split; [|done]|done]. eapply above_trans; [|done]. eapply above_step; [done|]. rewrite Em. constructor.
    - intros [Ha Hx]. clear -Hwf Ha Hx Hn. induction Ha as [|x m Hm Ha IH]; [by left|]. right. destruct (decide (nd_ParentID m = c)) as [E|E].
      + exists x. split_and!; [rewrite <- E; by apply (wf_child t Hwf)|constructor|eauto].
      + destruct IH as [?|(k & Hk & Hak & _)]; [destruct Ha as [|z mz Hz _]; eauto|done|]. exists k. split_and!; [done|by eapply above_step|eauto]. }
  rewrite app_comm_cons, fmap_app. split.
  - apply NoDup_app. split_and!; [|intros x [Hx1 _]%Hsub1 (c' & Hc' & Hx2 & _)%Hls|done].
    + cbn [fmap list_fmap]. apply NoDup_cons. split; [|done]. change ((nd_ID ∘ fst) (n, _)) with (nd_ID n). destruct (wf_id t Hwf c n Hn) as [-> _]. rewrite Hbs.
      intros (k & (m & Hm & Em)%in_children & Ha & _); [|done]. apply (child_not_above t Hwf k m Hm). by rewrite Em.
    + apply Hc. rewrite (siblings_disjoint t Hwf p c c' x); [done|done|apply Hsub; by right|done|done].
  - intros x. rewrite elem_of_app, Hsub1, Hls. split.
    + intros [[H1 H2]|(c' & H1 & H2)]; [exists c; split; [left|done]|exists c'; split; [by right|done]].
    + intros (c' & [->|H1]%elem_of_cons & H2); [by left|right; eauto].
Qed.
Lemma above_root t x n : tree_wf t → dt_nodes t !! x = Some n → ∃ c, c ∈ children_of t [] ∧ above t c x.
Proof.
  intros Hwf Hn. destruct (wf_depth t Hwf x n Hn) as (d & Hd & _). revert n Hn. induction Hd as [|x m d Hx Hm Hd IH]; intros n Hn; [by apply (wf_id t Hwf) in Hn as [_ ?]|].
  rewrite Hm in Hn. injection Hn as <-. destruct (decide (nd_ParentID m = [])) as [E|E].
  - exists x. split; [rewrite <- E; by apply (wf_child t Hwf)|constructor].
  - inversion Hd as [E'|y k e Hy Hk He]; subst; [congruence|]. destruct (IH k Hk) as (c & Hc & Ha). exists c. split; [done|]. by eapply above_step.
Qed.
Lemma viewNodes_spec t : tree_wf t → ∃ l, viewNodes t = Some l ∧ NoDup ((nd_ID ∘ fst) <$> l) ∧ ∀ x, x ∈ (nd_ID ∘ fst) <$> l ↔ is_Some (dt_nodes t !! x).
Proof.
  intros Hwf. destruct (view_walk_spec t (S MaxDepth) [] 0 Hwf) as (l & Hl & Hnd & Hin); [constructor|lia|]. exists l. split_and!; [done|done|]. intros x. rewrite Hin. split.
  - by intros (_ & _ & _ & ?).
  - intros [n Hn]. destruct (above_root t x n Hwf Hn) as (c & Hc & Ha). eauto.
Qed.

(** Refused snapshots are refused for an invalid node. *)
Lemma guard_Err {A} (c : bool) (k : result derr A) e e' : (if c then Err e else k) = Err e' → e' = e ∨ k = Err e'.
Proof. destruct c; [intros [= ->]; by left|by right]. Qed.
Ltac err_inv := repeat match goal with H : (if _ then Err _ else _) = Err _ |- _ => apply guard_Err in H as [->|H]; [reflexivity|] end.
Lemma actions_loop_err actions ids roles e : validate_actions_loop actions ids roles = Err e → e = [ErrInvalidNode].
Proof.
  revert ids roles. induction actions as [|a l IH]; intros ids roles H; [done|]. cbn [validate_actions_loop] in H. cbv zeta in H. err_inv.
  case_bool_decide; [by eapply IH|]. err_inv. by eapply IH.
Qed.
Lemma validateNode_err c e : validateNode c = Err e → e = [ErrInvalidNode].
Proof.
  unfold validateNode. cbv zeta. intros H. err_inv. destruct (validateStatus (nd_Status c)) as [[]|e1] eqn:Es; cbn [mbind result_bind] in H.
  - unfold validateActions in H. err_inv. destruct (validate_actions_loop (nd_Actions c) [] []) as [seen|e2] eqn:Ea; cbn [mbind result_bind] in H.
    + by apply guard_Err in H as [->|H].
    + injection H as <-. by eapply actions_loop_err.
  - injection H as <-. unfold validateStatus in Es. destruct (nd_Status c); [|done]. err_inv. done.
Qed.
Lemma ValidatePublish_err children e : ValidatePublish children = Err e → e = [ErrInvalidNode].
Proof.
  unfold ValidatePublish. generalize (@nil bytes). induction children as [|c l IH]; intros seen; [done|]. cbn [validate_publish_loop].
  destruct (validateNode c) as [[]|e'] eqn:Ec; cbn [mbind result_bind]; [|intros [= <-]; by eapply validateNode_err].
  intros [->|H]%guard_Err; [done|by eapply IH].
Qed.
Lemma ApplySnapshot_ends s conn plugin p state err children : store_wf s → (ApplySnapshot s conn plugin p state err children).1 ≠ Err [EDiverges].
Proof.
  intros Hr. unfold ApplySnapshot. destruct (ValidatePublish children) as [[]|e] eqn:Ev; [|cbn; apply ValidatePublish_err in Ev as ->; done].
  pose proof (apply_tree_spec (treeLocked s conn plugin) p (hostAcceptedBranchState state) err children (treeLocked_wf _ _ _ Hr) Ev) as Hspec.
  destruct (apply_tree _ _ _ _ _) as [[[removed t']|]|e]; [done|done|]. cbn. congruence.
Qed.

(** C16. Whatever plugins publish and whatever happens to their connections, every tree the host holds is a tree: no cycles, every node
    filed under its parent exactly once, at most eight levels, 500 children per branch and 2000 nodes, all of them cleaned
    forms of valid nodes. A reader sees each node exactly once, and no snapshot makes the host walk a subtree without end. *)
Theorem discovery_trees_well_formed s conn plugin t : reachable_store s → tree_at s conn plugin = Some t →
  tree_wf t ∧
  (∃ l, viewNodes t = Some l ∧ NoDup ((nd_ID ∘ fst) <$> l) ∧ ∀ x, x ∈ (nd_ID ∘ fst) <$> l ↔ is_Some (dt_nodes t !! x)) ∧
  ∀ p state err children, (ApplySnapshot s conn plugin p state err children).1 ≠ Err [EDiverges].
Proof.
  intros Hr%reachable_wf Ht. pose proof (Hr _ _ _ Ht) as Hwf. split_and!; [done|by apply viewNodes_spec|]. intros. by apply ApplySnapshot_ends.
Qed.

(** A snapshot for a parent that is there is not dropped. *)
Lemma known_applied t p state err children : p = [] ∨ is_Some (dt_nodes t !! p) → apply_tree t p state err children ≠ Ok None.
Proof.
  intros Hp Et. unfold apply_tree in Et. rewrite bool_decide_eq_false_2 in Et by (intros [H1 H2]; destruct Hp as [?|[? ?]]; congruence).
  destruct (match dt_nodes t !! p with Some p' => _ | None => false end); [done|]. destruct (existsb _ _); [done|].
  destruct (admitLocked t p children) as [[? ?]|]; [|done]. by destruct (removeVanishedLocked _ _ _) as [[? ?]|].
Qed.

(** What a published snapshot does, exactly: the ids it reports as gone are those the tree no longer holds; the parent's children
    are nodes of the snapshot, cleaned and filed under the parent, and every one of the first 500 that was there before stays;
    no node outside the branch changes unless it is gone; the branch takes the published state, other branches keep theirs,
    and no other tree changes. *)
Theorem snapshot_applied s conn plugin p state err children removed s' :
  reachable_store s → ApplySnapshot s conn plugin p state err children = (Ok removed, s') →
  let t := treeLocked s conn plugin in p = [] ∨ is_Some (dt_nodes t !! p) →
  (∀ conn' plugin', (conn', plugin') ≠ (conn, plugin) → tree_at s' conn' plugin' = tree_at s conn' plugin') ∧
  ∃ t' tr, tree_at s' conn plugin = Some t' ∧
    snapshot t p children {| br_State := hostAcceptedBranchState state; br_Error := SanitizeText err; br_Truncated := tr |} removed t'.
Proof.
  intros Hr%reachable_wf Ha t Hp. unfold ApplySnapshot in Ha. fold t in Ha. destruct (ValidatePublish children) as [[]|e] eqn:Ev; [|done].
  pose proof (apply_tree_spec t p (hostAcceptedBranchState state) err children (treeLocked_wf _ _ _ Hr) Ev) as Hspec.
  destruct (apply_tree _ _ _ _ _) as [[[removed' t1]|]|e] eqn:Et; [| |done].
  - injection Ha as <- <-. split; [intros c' p' Hne; rewrite tree_at_put; by rewrite decide_False by (intros [-> ->]; done)|]. destruct Hspec as (_ & tr & Hsn).
    exists t1, tr. by rewrite tree_at_put, decide_True.
  - exfalso. by eapply known_applied.
Qed.

(** A group that is published again as an instance keeps its children, though an instance is a leaf by definition: its branch stays as it was,
    and every further snapshot for it is refused, so that the children stay until the node itself goes. *)
Theorem instance_keeps_children s conn plugin p state err children removed s' c :
  reachable_store s → ApplySnapshot s conn plugin p state err children = (Ok removed, s') →
  let t := treeLocked s conn plugin in p = [] ∨ is_Some (dt_nodes t !! p) →
  c ∈ take (Z.to_nat MaxChildrenPerPublish) children → nd_Kind c = KindInstance → is_Some (dt_nodes t !! nd_ID c) →
  ∃ t' n, tree_at s' conn plugin = Some t' ∧ dt_nodes t' !! nd_ID c = Some n ∧ nd_Kind n = KindInstance ∧ children_of t' (nd_ID c) = children_of t (nd_ID c) ∧
    ∀ state' err' children', ValidatePublish children' = Ok () → (ApplySnapshot s' conn plugin (nd_ID c) state' err' children').1 = Err [ErrDiscoveryLeafParent].
Proof.
  intros Hr%reachable_wf Ha t Hp Hc Hk Hin. unfold ApplySnapshot in Ha. fold t in Ha. destruct (ValidatePublish children) as [[]|e] eqn:Ev; [|done].
  pose proof (treeLocked_wf s conn plugin Hr) as Hwf. fold t in Hwf. pose proof (apply_tree_spec t p (hostAcceptedBranchState state) err children Hwf Ev) as Hspec.
  destruct (apply_tree _ _ _ _ _) as [[[removed' t1]|]|e] eqn:Et; [|exfalso; by eapply known_applied|done]. injection Ha as <- <-. destruct Hspec as (_ & tr & Hsn).
  pose proof (sn_known _ _ _ _ _ _ Hsn c Hc Hin) as Hch. destruct (sn_children _ _ _ _ _ _ Hsn _ Hch) as (c' & Hc' & Eid & Hn).
  assert (c' = c) as ->.
  { apply ValidatePublish_ok in Ev as [Hnd _]. assert (c ∈ children) as Hcc by (eapply elem_of_sublist; [done|apply sublist_take]).
    apply list_elem_of_lookup_1 in Hc' as [i Hi], Hcc as [j Hj]. assert (i = j) as ->; [|congruence]. eapply NoDup_lookup; [exact Hnd|rewrite list_lookup_fmap, Hi; done|rewrite list_lookup_fmap, Hj; cbn; by rewrite Eid]. }
  assert (nd_ID c ≠ p) as Hne.
  { pose proof (child_not_above t1 (sn_wf _ _ _ _ _ _ Hsn) (nd_ID c) _ Hn) as Hno. cbn in Hno. intros E. apply Hno. rewrite E. constructor. }
  exists t1, (stored_node p c). rewrite tree_at_put, decide_True by done. split_and!; [done|done|done| |].
  - unfold children_of. rewrite (sn_index _ _ _ _ _ _ Hsn) by done. rewrite decide_False; [done|]. intros [_ ?]%(sn_removed _ _ _ _ _ _ Hsn). congruence.
  - intros state' err' children' Ev'. unfold ApplySnapshot. rewrite Ev'. unfold treeLocked. rewrite tree_at_put, decide_True by done. change (default newDiscoveryTree (Some t1)) with t1.
    unfold apply_tree. cbv zeta. rewrite Hn. rewrite bool_decide_eq_false_2 by (by intros [_ ?]). cbn [stored_node nd_Kind SanitizeNode]. by rewrite Hk, bool_decide_eq_true_2.
Qed.

(** ** Actions *)

Definition actionable t (q : bytes) : Prop := ∀ b, dt_branches t !! q = Some b → br_State b ≠ BranchStale ∧ br_State b ≠ BranchError.
Lemma branch_loop_iff t steps p d : tree_wf t → at_depth t p d → (d <= steps)%nat → branch_loop t steps p = Ok () ↔ ∀ q, above t q p → actionable t q.
Proof.
  intros Hwf Hd. revert steps.
  assert (∀ q, (let st := match dt_branches t !! q with Some b => br_State b | None => [] end in bool_decide (st = BranchStale) || bool_decide (st = BranchError)) = false ↔ actionable t q) as Hact.
  { intros q. cbv zeta. unfold actionable. rewrite orb_false_iff, !bool_decide_eq_false. destruct (dt_branches t !! q) as [b|]; split.
    - by intros Hb b' [= <-].
    - intros Hb. by apply Hb.
    - by intros _ b'.
    - done. }
  induction Hd as [|x n d Hx Hn _ IH]; intros steps Hle.
  - destruct steps; cbn [branch_loop]; cbv zeta; rewrite (bool_decide_eq_true_2 (_ = [])) by done; rewrite fail_if_Ok, Hact;
      (split; [intros [? _] q Ha; inversion Ha as [|y m Hm]; subst; [done|by apply (wf_id t Hwf) in Hm as [_ ?]]|intros Hq; split; [apply Hq; constructor|done]]).
  - destruct steps as [|steps]; [lia|]. cbn [branch_loop]. cbv zeta. rewrite (bool_decide_eq_false_2 (x = [])) by done. rewrite Hn. cbn [default].
    rewrite fail_if_Ok, Hact. cbn [from_option id]. rewrite IH by lia. split.
    + intros [Hax Hup] q Ha. inversion Ha as [|y m Hm Ha']; subst; [done|]. rewrite Hn in Hm. injection Hm as <-. by apply Hup.
    + intros Hq. split; [apply Hq; constructor|]. intros q Ha. apply Hq. by eapply above_step.
Qed.
(** What a node needs for an action that is asked of several nodes or of one. *)
Definition offers t (multi : bool) (p actionID x : bytes) : Prop :=
  ∃ n a, dt_nodes t !! x = Some n ∧ nd_ParentID n = p ∧ findDiscoveryAction n actionID = Some a ∧ (multi = true → ac_Multi a = true).
Lemma check_nodes_iff t p multi actionID ids : hasAll t ids = true → check_nodes t p multi actionID ids = Ok () ↔ Forall (offers t multi p actionID) ids.
Proof.
  induction ids as [|x ids IH]; intros Hall; [split; [constructor|done]|]. unfold hasAll in Hall. cbn [forallb] in Hall.
  apply andb_true_iff in Hall as [[n Hn]%bool_decide_eq_true Hall]. cbn [check_nodes]. cbv zeta. rewrite Hn. cbn [default from_option id]. rewrite Forall_cons, <- IH by done.
  rewrite fail_if_Ok, negb_false_iff, bool_decide_eq_true. unfold offers. rewrite Hn. destruct (findDiscoveryAction n actionID) as [a|] eqn:Ea.
  - rewrite fail_if_Ok, andb_false_iff, negb_false_iff. split.
    + intros (Hp & Hm & Hrest). split; [|done]. exists n, a. split_and!; [done|done|done|]. destruct Hm; congruence.
    + intros [(n' & a' & [= <-] & Hp & Ha & Hm) Hrest]. rewrite Ea in Ha. injection Ha as <-. split_and!; [done| |done]. destruct multi; [right; by apply Hm|by left].
  - split; [by intros [_ ?]|]. intros [(n' & a' & [= <-] & _ & Ha & _) _]. congruence.
Qed.

(** An action reaches a plugin exactly when it may: one to 200 nodes that the named plugin's tree holds, all below one parent, each
    offering the action (marked for several nodes when several are asked), no branch from theirs up to the root stale or failed,
    and a session leads the connection, which is the one it goes to. *)
Theorem action_relayed_iff s leading conn plugin ids actionID session : reachable_store s →
  InvokeAction s leading conn plugin ids actionID = Ok session ↔
  leading = Some session ∧ ids ≠ [] ∧ len ids <= MaxNodesPerInvoke ∧
  ∃ t p, tree_at s conn plugin = Some t ∧ Forall (offers t (1 <? len ids) p actionID) ids ∧ ∀ q, above t q p → actionable t q.
Proof.
  intros Hr%reachable_wf. unfold InvokeAction. rewrite fail_if_Ok, orb_false_iff, bool_decide_eq_false, Z.ltb_ge. unfold CheckAction.
  destruct (tree_at s conn plugin) as [t|] eqn:Et; [|split; [intros [_ Hb]; by apply bind_Ok in Hb as (? & ? & _)|by intros (_ & _ & _ & t & p & ? & _)]].
  pose proof (Hr _ _ _ Et) as Hwf. destruct (hasAll t ids) eqn:Ha.
  - assert (∀ p, ids ≠ [] → Forall (offers t (1 <? len ids) p actionID) ids → nd_ParentID (default zero_node (head ids ≫= (dt_nodes t !!.))) = p ∧ ∃ d, at_depth t p d ∧ (d <= MaxDepth + 1)%nat) as Hpar.
    { intros p Hne Hall. destruct ids as [|x l]; [done|]. apply Forall_cons in Hall as [(n & a & Hn & <- & _) _]. cbn. rewrite Hn. split; [done|]. destruct (node_depth t Hwf x n Hn) as (d & _ & Hd & Hle). exists d. split; [done|unfold MaxDepth in *; lia]. }
    unfold checkAction. set (p0 := nd_ParentID _) in *. split.
    + intros [[Hne Hlen] Hi]. apply bind_Ok in Hi as ([] & Hi & Hl). apply bind_Ok in Hi as ([] & Hc & Hb). destruct leading as [s0|]; [|done]. injection Hl as ->. split_and!; [done|done|done|].
      apply check_nodes_iff in Hc; [|done]. exists t, p0. destruct (Hpar p0 Hne Hc) as (_ & d & Hd & Hle). split_and!; [done|done|]. by eapply branch_loop_iff.
    + intros (-> & Hne & Hlen & t0 & p & [= <-] & Hall & Hup). destruct (Hpar p Hne Hall) as (Hp0 & d & Hd & Hle). split; [done|]. rewrite Hp0.
      rewrite (proj2 (check_nodes_iff t p _ actionID ids Ha) Hall). cbn [mbind result_bind]. unfold checkBranchActionable.
      by rewrite (proj2 (branch_loop_iff t (MaxDepth + 1) p d Hwf Hd Hle) Hup).
  - split; [intros [_ Hb]; by apply bind_Ok in Hb as (? & ? & _)|]. intros (_ & _ & _ & t0 & p & [= <-] & Hall & _). exfalso. apply not_true_iff_false in Ha. apply Ha.
    unfold hasAll. apply forallb_forall. intros x Hx%list_elem_of_In. rewrite Forall_forall in Hall. destruct (Hall x Hx) as (n & a & Hn & _). apply bool_decide_eq_true. eauto.
Qed.

(** ** A small tree *)

Definition conn_ : bytes := bytes_of_string "c".
Definition plug_ : bytes := bytes_of_string "docker".
Definition group_ : bytes := bytes_of_string "containers".
Definition leaf_ : bytes := bytes_of_string "web".
Definition stop_ : bytes := bytes_of_string "stop".
Definition mk_node (id kind : bytes) (actions : list Action) : Node := {|
  nd_ID := id; nd_ParentID := []; nd_Kind := kind; nd_Label := id; nd_IconID := []; nd_Order := 0; nd_Status := None; nd_Actions := actions; nd_DefaultActionID := [] |}.
Definition stop_action : Action := {| ac_ID := stop_; ac_Label := stop_; ac_IconID := []; ac_Danger := true; ac_Confirm := []; ac_Multi := false; ac_Role := [] |}.
Definition store1 : DiscoveryStore := (ApplySnapshot NewDiscoveryStore conn_ plug_ [] BranchReady [] [mk_node group_ KindGroup []]).2.
Definition store2 : DiscoveryStore := (ApplySnapshot store1 conn_ plug_ group_ BranchReady [] [mk_node leaf_ KindInstance [stop_action]]).2.
Definition tree2 : discoveryTree := treeLocked store2 conn_ plug_.
(** The group published again as an instance. *)
Definition again : list Node := [mk_node group_ KindInstance []].
Definition store3 : DiscoveryStore := (ApplySnapshot store2 conn_ plug_ [] BranchReady [] again).2.

Lemma store2_reachable : reachable_store store2.
Proof. eapply rtc_l; [apply (step_apply NewDiscoveryStore)|]. eapply rtc_l; [apply (step_apply store1)|]. apply rtc_refl. Qed.
Lemma store3_eq : ApplySnapshot store2 conn_ plug_ [] BranchReady [] again = (Ok [], store3).
Proof. rewrite (surjective_pairing (ApplySnapshot store2 conn_ plug_ [] BranchReady [] again)). by f_equal. Qed.
Lemma tree2_at : tree_at store2 conn_ plug_ = Some tree2.
Proof.
  unfold tree2, treeLocked. destruct (tree_at store2 conn_ plug_) as [t|] eqn:E; [done|]. exfalso.
  assert (bool_decide (is_Some (tree_at store2 conn_ plug_)) = true) as H by (vm_compute; reflexivity). rewrite E in H. apply bool_decide_eq_true in H as [? ?]. done.
Qed.

Lemma discovery_trees_well_formed_witness : tree_wf tree2 ∧
  (∃ l, viewNodes tree2 = Some l ∧ NoDup ((nd_ID ∘ fst) <$> l) ∧ ∀ x, x ∈ (nd_ID ∘ fst) <$> l ↔ is_Some (dt_nodes tree2 !! x)) ∧
  ∀ p state err children, (ApplySnapshot store2 conn_ plug_ p state err children).1 ≠ Err [EDiverges].
Proof. apply (discovery_trees_well_formed store2 conn_ plug_ tree2); [exact store2_reachable|exact tree2_at]. Defined.
Lemma snapshot_applied_witness :
  (∀ conn' plugin', (conn', plugin') ≠ (conn_, plug_) → tree_at store3 conn' plugin' = tree_at store2 conn' plugin') ∧
  ∃ t' tr, tree_at store3 conn_ plug_ = Some t' ∧
    snapshot (treeLocked store2 conn_ plug_) [] again {| br_State := hostAcceptedBranchState BranchReady; br_Error := SanitizeText []; br_Truncated := tr |} [] t'.
Proof.
  apply (snapshot_applied store2 conn_ plug_ [] BranchReady [] again [] store3).
  - exact store2_reachable.
  - exact store3_eq.
  - left. reflexivity.
Defined.
Lemma instance_keeps_children_witness : children_of (treeLocked store2 conn_ plug_) group_ = [leaf_] ∧
  ∃ t' n, tree_at store3 conn_ plug_ = Some t' ∧ dt_nodes t' !! group_ = Some n ∧ nd_Kind n = KindInstance ∧ children_of t' group_ = children_of (treeLocked store2 conn_ plug_) group_ ∧
    ∀ state' err' children', ValidatePublish children' = Ok () → (ApplySnapshot store3 conn_ plug_ group_ state' err' children').1 = Err [ErrDiscoveryLeafParent].
Proof.
  split; [vm_compute; reflexivity|].
  apply (instance_keeps_children store2 conn_ plug_ [] BranchReady [] again [] store3 (mk_node group_ KindInstance [])).
  - exact store2_reachable.
  - exact store3_eq.
  - left. reflexivity.
  - left.
  - reflexivity.
  - apply (bool_decide_unpack _). vm_compute. exact I.
Defined.
Lemma action_relayed_iff_witness : InvokeAction store2 (Some conn_) conn_ plug_ [leaf_] stop_ = Ok conn_ ∧
  ∃ t p, tree_at store2 conn_ plug_ = Some t ∧ Forall (offers t (1 <? len [leaf_]) p stop_) [leaf_] ∧ ∀ q, above t q p → actionable t q.
Proof.
  assert (InvokeAction store2 (Some conn_) conn_ plug_ [leaf_] stop_ = Ok conn_) as H by (vm_compute; reflexivity). split; [exact H|].
  apply (action_relayed_iff store2 (Some conn_) conn_ plug_ [leaf_] stop_ conn_ store2_reachable) in H as (_ & _ & _ & H). exact H.
Defined.
