(* ===== verification/DiscoveryLeader.v ===== *)
(** * DiscoveryLeader: which session carries a connection's discovery traffic

    Of [internal/usecase]: [discovery_leader.go], [plugin_session_authorizer.go], the observed sets of [discovery_observer.go] and the path of
    [discovery_publish.go], as one machine. A method that holds its mutex throughout is one step; what [SessionClosed] does after
    releasing it, the reconciliation of a connection's authorizations that runs in the background, and a publish on its way
    to the store are threads, whose steps interleave with everything else. *)

From S2P Require Import Prelude Bytes GoText Discovery.

(** ** The authorizations of plugins ([plugin_session_authorizer.go]) *)

(** What the registry and the settings say of a plugin. *)
Record PluginPolicy := { pp_allowMulti : bool; pp_granted : bool; pp_perPlugin : bool }.
Abbreviation Authorizer := (gset (bytes * bytes)).
Definition bound_count (a : Authorizer) (pluginID : bytes) : nat := size (filter (λ b : bytes * bytes, b.1 = pluginID) a).
Definition enforceMultiSessionPolicyLocked (pol : PluginPolicy) (boundCount : nat) : bool :=
  if bool_decide (boundCount = 0%nat) then true
  else if negb (pp_allowMulti pol) then negb (pp_perPlugin pol)
  else pp_granted pol.
(** [None] is [ErrSessionNotBound]. *)
Definition BindSession (policy : bytes → PluginPolicy) (a : Authorizer) (pluginID sessionID : bytes) : option Authorizer :=
  let pluginID := TrimSpace pluginID in let sessionID := TrimSpace sessionID in
  if bool_decide (pluginID = []) || bool_decide (sessionID = []) then None else
  if bool_decide ((pluginID, sessionID) ∈ a) then Some a else
  if enforceMultiSessionPolicyLocked (policy pluginID) (bound_count a pluginID) then Some ({[(pluginID, sessionID)]} ∪ a) else None.
Definition UnbindSession (a : Authorizer) (pluginID sessionID : bytes) : Authorizer :=
  let pluginID := TrimSpace pluginID in let sessionID := TrimSpace sessionID in
  if bool_decide (pluginID = []) || bool_decide (sessionID = []) then a else a ∖ {[(pluginID, sessionID)]}.
Definition AuthorizeSessionRPC (a : Authorizer) (pluginID processSessionID : bytes) (isolation : bytes) (targetSessionID : bytes) : bool :=
  let target := TrimSpace targetSessionID in
  if bool_decide (target = []) then false
  else if bool_decide (isolation = bytes_of_string "per-session") then bool_decide (processSessionID ≠ []) && bool_decide (target = processSessionID)
  else if bool_decide (isolation = bytes_of_string "per-plugin") then bool_decide ((pluginID, target) ∈ a)
  else false.

(** ** The leader ([discovery_leader.go]) *)

(** A plugin and a session. *)
Abbreviation discoveryBinding := (bytes * bytes)%type.
Record discoveryConnection := { dc_protocol : bytes; dc_ready : list bytes }.
Record DiscoveryLeader := { dl_conns : gmap bytes discoveryConnection; dl_sessionConn : gmap bytes bytes; dl_bound : gmap bytes (list discoveryBinding) }.
Definition NewDiscoveryLeader : DiscoveryLeader := {| dl_conns := ∅; dl_sessionConn := ∅; dl_bound := ∅ |}.
Record DiscoveryPluginTarget := { pt_PluginID : bytes; pt_ParentProtocols : list bytes }.
Definition discoveryAddressable (target : DiscoveryPluginTarget) (protocol : bytes) : bool :=
  if bool_decide (protocol = []) then false else bool_decide (protocol ∈ pt_ParentProtocols target).

Definition Leading (l : DiscoveryLeader) (connID : bytes) : option (bytes * bytes) :=
  conn ← dl_conns l !! connID;
  s ← head (dc_ready conn);
  Some (s, dc_protocol conn).
Definition ConnectionForSession (l : DiscoveryLeader) (sessionID : bytes) : option bytes := dl_sessionConn l !! sessionID.

(** The part of [SessionReady] under the mutex: whether the session now leads. *)
Definition SessionReady (l : DiscoveryLeader) (sessionID connID protocol : bytes) : bool * DiscoveryLeader :=
  let conn := default {| dc_protocol := []; dc_ready := [] |} (dl_conns l !! connID) in
  let conn := {| dc_protocol := if bool_decide (protocol = []) then dc_protocol conn else protocol; dc_ready := dc_ready conn |} in
  if bool_decide (sessionID ∈ dc_ready conn) then
    (false, {| dl_conns := <[connID := conn]> (dl_conns l); dl_sessionConn := dl_sessionConn l; dl_bound := dl_bound l |})
  else
    let ready := dc_ready conn ++ [sessionID] in
    (bool_decide (head ready = Some sessionID),
     {| dl_conns := <[connID := {| dc_protocol := dc_protocol conn; dc_ready := ready |}]> (dl_conns l);
        dl_sessionConn := <[sessionID := connID]> (dl_sessionConn l); dl_bound := dl_bound l |}).

(** The list without the session, which is in it once. *)
Fixpoint remove_session (sessions : list bytes) (sessionID : bytes) : list bytes :=
  match sessions with [] => [] | s :: rest => if bool_decide (s = sessionID) then rest else s :: remove_session rest sessionID end.
Inductive closing := ClosedNothing | ClosedLeader | ClosedLast.
(** The part of [SessionClosed] under the mutex: the session goes from the list, the connection with its last one. *)
Definition SessionClosed (l : DiscoveryLeader) (sessionID connID : bytes) : closing * DiscoveryLeader :=
  match dl_conns l !! connID with
  | None => (ClosedNothing, l)
  | Some conn =>
      if bool_decide (sessionID ∉ dc_ready conn) then (ClosedNothing, l) else
      let wasLeader := bool_decide (head (dc_ready conn) = Some sessionID) in
      let ready := remove_session (dc_ready conn) sessionID in
      let conns := if bool_decide (ready = []) then delete connID (dl_conns l) else <[connID := {| dc_protocol := dc_protocol conn; dc_ready := ready |}]> (dl_conns l) in
      (if bool_decide (ready = []) then ClosedLast else if wasLeader then ClosedLeader else ClosedNothing,
       {| dl_conns := conns; dl_sessionConn := delete sessionID (dl_sessionConn l); dl_bound := dl_bound l |})
  end.

(** The order of the plugins: by their id. *)
Fixpoint insert_binding (b : discoveryBinding) (l : list discoveryBinding) : list discoveryBinding :=
  match l with
  | [] => [b]
  | x :: rest => if bytes_leb b.1 x.1 then b :: l else x :: insert_binding b rest
  end.
Definition desiredBindings (plugins : list DiscoveryPluginTarget) (l : DiscoveryLeader) (connID : bytes) : list discoveryBinding :=
  match Leading l connID with
  | None => []
  | Some (sessionID, protocol) =>
      if bool_decide (protocol = []) then [] else
      foldr insert_binding [] ((λ target, (pt_PluginID target, sessionID)) <$> filter (λ target, discoveryAddressable target protocol = true) plugins)
  end.
Definition containsBinding (l : list discoveryBinding) (want : discoveryBinding) : bool := bool_decide (want ∈ l).
Definition set_bound (l : DiscoveryLeader) (connID : bytes) (kept : list discoveryBinding) : DiscoveryLeader := {|
  dl_conns := dl_conns l; dl_sessionConn := dl_sessionConn l;
  dl_bound := if bool_decide (kept = []) then delete connID (dl_bound l) else <[connID := kept]> (dl_bound l) |}.
Definition bound_of (l : DiscoveryLeader) (connID : bytes) : list discoveryBinding := default [] (dl_bound l !! connID).
Definition HoldsBindings (l : DiscoveryLeader) (pluginID : bytes) : bool :=
  existsb (λ kv : bytes * list discoveryBinding, existsb (λ b, bool_decide (b.1 = pluginID)) kv.2) (map_to_list (dl_bound l)).

(** ** The observed sets ([discovery_observer.go]) *)

Abbreviation DiscoveryObserver := (gmap bytes (gset bytes)).
Definition SetObserved (o : DiscoveryObserver) (connID : bytes) (nodeIDs : list bytes) : DiscoveryObserver := <[connID := list_to_set nodeIDs]> o.
Definition Retain (o : DiscoveryObserver) (connID : bytes) (removed : list bytes) : DiscoveryObserver := alter (λ ids : gset bytes, ids ∖ list_to_set removed) connID o.
Definition IsObserved (o : DiscoveryObserver) (connID nodeID : bytes) : bool := match o !! connID with Some ids => bool_decide (nodeID ∈ ids) | None => false end.
(** The set is there afterwards, empty where there was none. *)
Definition ConnectionChanged (o : DiscoveryObserver) (connID : bytes) : DiscoveryObserver := <[connID := default ∅ (o !! connID)]> o.
Definition Observer_ClearConnection (o : DiscoveryObserver) (connID : bytes) : DiscoveryObserver := delete connID o.

(** ** The machine *)

Record payload := { pl_SessionID : bytes; pl_NodeID : bytes; pl_State : bytes; pl_Error : bytes; pl_Children : list Node }.
(** [syncBindings] once it holds the gate: the bindings still to release, those kept, those still to grant, and one that is
    granted and whose plugin is being started. *)
Record sync := { sy_conn : bytes; sy_observe : bool; sy_release : list discoveryBinding; sy_kept : list discoveryBinding; sy_grant : list discoveryBinding; sy_starting : option discoveryBinding }.
Inductive thread :=
  | TReconcile (connID : bytes) (observe : bool)
  | TSync (sy : sync)
  | TObserve (connID : bytes)
  | TClose (connID : bytes)
  | TClear (connID : bytes)
  | TForget (connID : bytes)
  | TPublish (pluginID connID : bytes) (p : payload)
  | TApply (pluginID connID : bytes) (p : payload)
  | TRetain (connID : bytes) (removed : list bytes).
Record machine := { mc_leader : DiscoveryLeader; mc_auth : Authorizer; mc_store : DiscoveryStore; mc_observed : DiscoveryObserver; mc_threads : list thread }.
Definition start : machine := {| mc_leader := NewDiscoveryLeader; mc_auth := ∅; mc_store := NewDiscoveryStore; mc_observed := ∅; mc_threads := [] |}.

Definition gate_free (threads : list thread) (connID : bytes) : Prop := ∀ sy, TSync sy ∈ threads → sy_conn sy ≠ connID.
(** [leadingConnectionFor]. *)
Definition leadingConnectionFor (l : DiscoveryLeader) (sessionID : bytes) : option bytes :=
  connID ← ConnectionForSession l sessionID;
  '(leading, _) ← Leading l connID;
  if bool_decide (leading = sessionID) then Some connID else None.

(** What [SessionReady] and [SessionClosed] leave to be done. *)
Definition after_ready (leads : bool) (connID : bytes) : list thread := if leads then [TReconcile connID true] else [].
Definition after_closed (c : closing) (connID : bytes) : list thread :=
  match c with ClosedNothing => [] | ClosedLeader => [TClose connID] | ClosedLast => [TReconcile connID false; TClear connID] end.
(** The reconciliation with the gate in hand: what the connection should hold now, against what it holds. *)
Definition begin_sync (plugins : list DiscoveryPluginTarget) (l : DiscoveryLeader) (connID : bytes) (observe : bool) : sync :=
  let desired := desiredBindings plugins l connID in
  let previous := bound_of l connID in
  {| sy_conn := connID; sy_observe := observe; sy_release := filter (λ b, containsBinding desired b = false) previous;
     sy_kept := filter (λ b, containsBinding desired b = true) previous; sy_grant := desired; sy_starting := None |}.
(** Its next step, [None] when there is none: release, then grant each that is wanted, start its plugin, and take the grant back where
    that fails; [started] is whether [EnsureRunning] succeeds. *)
Definition sync_next (policy : bytes → PluginPolicy) (started : bool) (a : Authorizer) (sy : sync) : option (Authorizer * sync) :=
  let next release kept grant starting := {| sy_conn := sy_conn sy; sy_observe := sy_observe sy; sy_release := release; sy_kept := kept; sy_grant := grant; sy_starting := starting |} in
  match sy_starting sy with
  | Some w =>
      Some (if started then (a, next (sy_release sy) (sy_kept sy ++ [w]) (sy_grant sy) None)
            else (UnbindSession a w.1 w.2, next (sy_release sy) (sy_kept sy) (sy_grant sy) None))
  | None =>
      match sy_release sy, sy_grant sy with
      | b :: rest, _ => Some (UnbindSession a b.1 b.2, next rest (sy_kept sy) (sy_grant sy) None)
      | [], [] => None
      | [], w :: rest =>
          Some (if containsBinding (sy_kept sy) w then (a, next [] (sy_kept sy) rest None)
                else match BindSession policy a w.1 w.2 with
                     | Some a' => (a', next [] (sy_kept sy) rest (Some w))
                     | None => (a, next [] (sy_kept sy) rest None)
                     end)
      end
  end.

Section steps.
Context (plugins : list DiscoveryPluginTarget) (policy : bytes → PluginPolicy).

(** One step: an event from outside, or the next step of a thread. *)
Inductive mstep : machine → machine → Prop :=
  | ev_ready l a st o ts sessionID connID protocol leads l' : SessionReady l sessionID connID protocol = (leads, l') →
      mstep {| mc_leader := l; mc_auth := a; mc_store := st; mc_observed := o; mc_threads := ts |}
            {| mc_leader := l'; mc_auth := a; mc_store := st; mc_observed := o; mc_threads := ts ++ after_ready leads connID |}
  | ev_closed l a st o ts sessionID connID c l' : SessionClosed l sessionID connID = (c, l') →
      mstep {| mc_leader := l; mc_auth := a; mc_store := st; mc_observed := o; mc_threads := ts |}
            {| mc_leader := l'; mc_auth := a; mc_store := st; mc_observed := o; mc_threads := ts ++ after_closed c connID |}
  | ev_observed l a st o ts connID nodeIDs :
      mstep {| mc_leader := l; mc_auth := a; mc_store := st; mc_observed := o; mc_threads := ts |}
            {| mc_leader := l; mc_auth := a; mc_store := st; mc_observed := SetObserved o connID nodeIDs; mc_threads := ts |}
  | ev_publish l a st o ts pluginID p connID : AuthorizeSessionRPC a pluginID [] (bytes_of_string "per-plugin") (pl_SessionID p) = true →
      leadingConnectionFor l (pl_SessionID p) = Some connID →
      mstep {| mc_leader := l; mc_auth := a; mc_store := st; mc_observed := o; mc_threads := ts |}
            {| mc_leader := l; mc_auth := a; mc_store := st; mc_observed := o; mc_threads := ts ++ [TPublish pluginID connID p] |}
  | th_begin l a st o ts1 ts2 connID observe : gate_free (ts1 ++ ts2) connID →
      mstep {| mc_leader := l; mc_auth := a; mc_store := st; mc_observed := o; mc_threads := ts1 ++ TReconcile connID observe :: ts2 |}
            {| mc_leader := l; mc_auth := a; mc_store := st; mc_observed := o; mc_threads := ts1 ++ TSync (begin_sync plugins l connID observe) :: ts2 |}
  | th_sync l a st o ts1 ts2 sy started a' sy' : sync_next policy started a sy = Some (a', sy') →
      mstep {| mc_leader := l; mc_auth := a; mc_store := st; mc_observed := o; mc_threads := ts1 ++ TSync sy :: ts2 |}
            {| mc_leader := l; mc_auth := a'; mc_store := st; mc_observed := o; mc_threads := ts1 ++ TSync sy' :: ts2 |}
  | th_synced l a st o ts1 ts2 sy : sync_next policy true a sy = None →
      mstep {| mc_leader := l; mc_auth := a; mc_store := st; mc_observed := o; mc_threads := ts1 ++ TSync sy :: ts2 |}
            {| mc_leader := set_bound l (sy_conn sy) (sy_kept sy); mc_auth := a; mc_store := st; mc_observed := o;
               mc_threads := ts1 ++ (if sy_observe sy then [TObserve (sy_conn sy)] else []) ++ ts2 |}
  | th_observe l a st o ts1 ts2 connID :
      mstep {| mc_leader := l; mc_auth := a; mc_store := st; mc_observed := o; mc_threads := ts1 ++ TObserve connID :: ts2 |}
            {| mc_leader := l; mc_auth := a; mc_store := st; mc_observed := ConnectionChanged o connID; mc_threads := ts1 ++ ts2 |}
  | th_close l a st o ts1 ts2 connID :
      mstep {| mc_leader := l; mc_auth := a; mc_store := st; mc_observed := o; mc_threads := ts1 ++ TClose connID :: ts2 |}
            {| mc_leader := l; mc_auth := a; mc_store := MarkConnectionStale st connID; mc_observed := o; mc_threads := ts1 ++ TReconcile connID true :: ts2 |}
  | th_clear l a st o ts1 ts2 connID :
      mstep {| mc_leader := l; mc_auth := a; mc_store := st; mc_observed := o; mc_threads := ts1 ++ TClear connID :: ts2 |}
            {| mc_leader := l; mc_auth := a; mc_store := Store_ClearConnection st connID; mc_observed := o; mc_threads := ts1 ++ TForget connID :: ts2 |}
  | th_forget l a st o ts1 ts2 connID :
      mstep {| mc_leader := l; mc_auth := a; mc_store := st; mc_observed := o; mc_threads := ts1 ++ TForget connID :: ts2 |}
            {| mc_leader := l; mc_auth := a; mc_store := st; mc_observed := Observer_ClearConnection o connID; mc_threads := ts1 ++ ts2 |}
  | th_publish l a st o ts1 ts2 pluginID connID p (allowed : bool) :
      mstep {| mc_leader := l; mc_auth := a; mc_store := st; mc_observed := o; mc_threads := ts1 ++ TPublish pluginID connID p :: ts2 |}
            {| mc_leader := l; mc_auth := a; mc_store := st; mc_observed := o;
               mc_threads := ts1 ++ (if allowed && IsObserved o connID (pl_NodeID p) then [TApply pluginID connID p] else []) ++ ts2 |}
  | th_apply l a st o ts1 ts2 pluginID connID p r st' : ApplySnapshot st connID pluginID (pl_NodeID p) (pl_State p) (pl_Error p) (pl_Children p) = (r, st') →
      mstep {| mc_leader := l; mc_auth := a; mc_store := st; mc_observed := o; mc_threads := ts1 ++ TApply pluginID connID p :: ts2 |}
            {| mc_leader := l; mc_auth := a; mc_store := st'; mc_observed := o;
               mc_threads := ts1 ++ (match r with Ok (_ :: _ as removed) => [TRetain connID removed] | _ => [] end) ++ ts2 |}
  | th_retain l a st o ts1 ts2 connID removed :
      mstep {| mc_leader := l; mc_auth := a; mc_store := st; mc_observed := o; mc_threads := ts1 ++ TRetain connID removed :: ts2 |}
            {| mc_leader := l; mc_auth := a; mc_store := st; mc_observed := Retain o connID removed; mc_threads := ts1 ++ ts2 |}.
Definition reachable : machine → Prop := rtc mstep start.
End steps.
