(* ===== verification/DiscoveryLeaderLaws.v ===== *)
(** * DiscoveryLeaderLaws: authorizations follow the leading session

    In every interleaving, once nothing is left to be reconciled, the sessions plugins are authorized for are the leading ones. And a publish
    that races the end of a connection leaves a tree behind that the next session shows. *)

From S2P Require Import Prelude Bytes GoText Discovery DiscoveryLaws DiscoveryLeader.

Implicit Types (l : DiscoveryLeader) (ts : list thread) (b : discoveryBinding).

Definition leads l (connID sessionID : bytes) : Prop := ∃ protocol, Leading l connID = Some (sessionID, protocol).
Definition trimmed b : bytes * bytes := (TrimSpace b.1, TrimSpace b.2).
(** A reconciliation of the connection is still to start. *)
Definition due ts (connID : bytes) : Prop := (∃ o, TReconcile connID o ∈ ts) ∨ TClose connID ∈ ts.
Definition has_sync ts (sy : sync) : Prop := TSync sy ∈ ts.
Definition sync_conns ts : list bytes := omap (λ th, match th with TSync sy => Some (sy_conn sy) | _ => None end) ts.
(** What a connection's threads account for. *)
Definition accounted l ts b : Prop :=
  (∃ sy, has_sync ts sy ∧ (b ∈ sy_release sy ∨ b ∈ sy_kept sy ∨ sy_starting sy = Some b)) ∨ (∃ connID, gate_free ts connID ∧ b ∈ bound_of l connID).

Record inv l (a : Authorizer) ts : Prop := {
  iv_grants g : g ∈ a → ∃ b, accounted l ts b ∧ trimmed b = g;
  iv_names g : g ∈ a → g.1 ≠ [] ∧ g.2 ≠ [];
  iv_gate : NoDup (sync_conns ts);
  iv_sync sy : has_sync ts sy → ¬ due ts (sy_conn sy) → ∀ b, b ∈ sy_kept sy ∨ b ∈ sy_grant sy ∨ sy_starting sy = Some b → leads l (sy_conn sy) b.2;
  iv_idle connID : gate_free ts connID → ¬ due ts connID → ∀ b, b ∈ bound_of l connID → leads l connID b.2 }.

(** ** Threads *)

Lemma mid_in th ts1 x ts2 : th ∈ ts1 ++ x :: ts2 ↔ th = x ∨ th ∈ ts1 ++ ts2.
Proof. set_solver. Qed.
Lemma sync_conns_in ts connID : connID ∈ sync_conns ts ↔ ∃ sy, has_sync ts sy ∧ sy_conn sy = connID.
Proof.
  unfold sync_conns, has_sync. rewrite list_elem_of_omap. split.
  - intros (th & Hin & Hth). destruct th; try done. injection Hth as <-. eauto.
  - intros (sy & Hin & <-). exists (TSync sy). done.
Qed.
Lemma gate_free_iff ts connID : gate_free ts connID ↔ connID ∉ sync_conns ts.
Proof. rewrite sync_conns_in. unfold gate_free, has_sync. naive_solver. Qed.
Lemma sync_conns_mid ts1 th ts2 : sync_conns (ts1 ++ th :: ts2) ≡ₚ sync_conns [th] ++ sync_conns (ts1 ++ ts2).
Proof. unfold sync_conns. rewrite !omap_app. cbn. destruct th; try done. cbn. symmetry. apply Permutation_middle. Qed.

(** Threads other than reconciliations do not matter. *)
Definition same_syncs ts ts' : Prop := (∀ sy, has_sync ts sy ↔ has_sync ts' sy) ∧ sync_conns ts ≡ₚ sync_conns ts' ∧ ∀ connID, due ts connID → due ts' connID.
Lemma gate_free_same ts ts' connID : same_syncs ts ts' → gate_free ts connID ↔ gate_free ts' connID.
Proof. intros (_ & Hp & _). by rewrite !gate_free_iff, Hp. Qed.
(** The leader may change on connections that are due. *)
Lemma inv_same l l' a ts ts' : inv l a ts → same_syncs ts ts' → (∀ connID, bound_of l' connID = bound_of l connID) →
  (∀ connID s, ¬ due ts' connID → leads l connID s → leads l' connID s) → inv l' a ts'.
Proof.
  intros [H1 H2 H3 H4 H5] Hs Hb Hl. pose proof Hs as (Hsy & Hp & Hd). constructor.
  - intros g Hg. destruct (H1 g Hg) as (b & Hacc & E). exists b. split; [|done]. destruct Hacc as [(sy & Hin & Hb')|(c & Hc & Hb')].
    + left. exists sy. by rewrite <- Hsy.
    + right. exists c. rewrite <- (gate_free_same ts ts') by done. by rewrite Hb.
  - done.
  - by rewrite <- Hp.
  - intros sy Hin%Hsy Hnd b Hb'. apply Hl; [done|]. eapply H4; eauto.
  - intros c Hc Hnd b Hb'. apply Hl; [done|]. rewrite Hb in Hb'. eapply H5; eauto. by rewrite (gate_free_same ts ts').
Qed.
Definition plain (th : thread) : Prop := match th with TReconcile _ _ | TSync _ | TClose _ => False | _ => True end.
Lemma same_syncs_refl ts : same_syncs ts ts.
Proof. done. Qed.
Lemma same_app ts ts' : Forall (λ th, match th with TSync _ => False | _ => True end) ts' → same_syncs ts (ts ++ ts').
Proof.
  intros Hall. assert (sync_conns ts' = []) as E.
  { unfold sync_conns. induction Hall as [|th l Hth _ IH]; [done|]. destruct th; try done. }
  rewrite Forall_forall in Hall. split_and!.
  - intros sy. unfold has_sync. rewrite elem_of_app. split; [by left|]. intros [?|Hin%Hall]; done.
  - unfold sync_conns. rewrite omap_app. fold (sync_conns ts'). by rewrite E, app_nil_r.
  - intros c [[o Ho]|Hc]; [left; exists o|right]; set_solver.
Qed.
(** A plain thread goes on as plain threads, or ends. *)
Lemma same_plain ts1 th ts2 ts' : plain th → Forall plain ts' → same_syncs (ts1 ++ th :: ts2) (ts1 ++ ts' ++ ts2).
Proof.
  intros Hth Hall. assert (sync_conns ts' = []) as E.
  { unfold sync_conns. induction Hall as [|x l Hx _ IH]; [done|]. destruct x; try done. }
  rewrite Forall_forall in Hall. split_and!.
  - intros sy. unfold has_sync. rewrite mid_in, !elem_of_app. split.
    + intros [<-|[?|?]]; [done|by left|by right; right].
    + intros [?|[Hin%Hall|?]]; [by right; left|done|by right; right].
  - rewrite sync_conns_mid. unfold sync_conns. rewrite !omap_app. fold (sync_conns ts'). rewrite E. by destruct th.
  - intros c Hd. unfold due in *. setoid_rewrite mid_in in Hd. destruct Hd as [(o & [<-|Hin])|[<-|Hin]]; [done| |done|]; [left; exists o|right]; set_solver.
Qed.

(** ** Events *)

Lemma leads_iff l connID s : leads l connID s ↔ ∃ conn, dl_conns l !! connID = Some conn ∧ head (dc_ready conn) = Some s.
Proof.
  unfold leads, Leading. destruct (dl_conns l !! connID) as [conn|]; cbn; [|naive_solver]. destruct (head (dc_ready conn)) as [s'|] eqn:E; cbn; naive_solver.
Qed.
Lemma ready_leads l sessionID connID protocol ld l' : SessionReady l sessionID connID protocol = (ld, l') →
  (∀ c, bound_of l' c = bound_of l c) ∧ ∀ c s, (ld = true → c ≠ connID) → leads l c s → leads l' c s.
Proof.
  unfold SessionReady. intros E. split; [by case_bool_decide; injection E as <- <-|]. intros c s Hne Hl. rewrite leads_iff in Hl |- *. destruct Hl as (conn & Hc & Hh).
  destruct (decide (c = connID)) as [->|Hcc].
  - rewrite Hc in E. cbn [default from_option id] in E. case_bool_decide; injection E as <- <-; cbn; rewrite lookup_insert_eq; eexists; (split; [done|]); cbn; [done|].
    destruct (dc_ready conn); [done|]. done.
  - exists conn. split; [|done]. case_bool_decide; injection E as <- <-; cbn; by rewrite lookup_insert_ne.
Qed.
Lemma remove_head sessions sessionID s : head sessions = Some s → s ≠ sessionID → head (remove_session sessions sessionID) = Some s.
Proof. destruct sessions as [|x sessions]; [done|]. intros [= ->] Hne. cbn. by rewrite bool_decide_eq_false_2. Qed.
Lemma closed_leads l sessionID connID k l' : SessionClosed l sessionID connID = (k, l') →
  (∀ c, bound_of l' c = bound_of l c) ∧ ∀ c s, (k ≠ ClosedNothing → c ≠ connID) → leads l c s → leads l' c s.
Proof.
  unfold SessionClosed. destruct (dl_conns l !! connID) as [conn|] eqn:Ec; [|by intros [= <- <-]]. case_bool_decide as Hin; [by intros [= <- <-]|].
  intros E. split; [by injection E as <- <-|]. intros c s Hne Hl. rewrite leads_iff in Hl |- *. destruct Hl as (conn' & Hc & Hh). destruct (decide (c = connID)) as [->|Hcc].
  - rewrite Ec in Hc. injection Hc as <-. injection E as <- <-. case_bool_decide as Hr; [by destruct Hne|]. case_bool_decide as Hl; [by destruct Hne|].
    cbn. rewrite lookup_insert_eq. eexists. split; [done|]. cbn. apply remove_head; [done|congruence].
  - exists conn'. split; [|done]. injection E as <- <-. cbn. case_bool_decide; [by rewrite lookup_delete_ne|by rewrite lookup_insert_ne].
Qed.

Lemma inv_ready l a ts sessionID connID protocol ld l' : SessionReady l sessionID connID protocol = (ld, l') → inv l a ts → inv l' a (ts ++ after_ready ld connID).
Proof.
  intros [Hb Hl]%ready_leads Hi. eapply inv_same; [done|apply same_app; by destruct ld; repeat constructor|done|]. intros c s Hd Hs. apply Hl; [|done].
  intros -> ->. apply Hd. left. exists true. set_solver.
Qed.
Lemma inv_closed l a ts sessionID connID k l' : SessionClosed l sessionID connID = (k, l') → inv l a ts → inv l' a (ts ++ after_closed k connID).
Proof.
  intros [Hb Hl]%closed_leads Hi. eapply inv_same; [done|apply same_app; by destruct k; repeat constructor|done|]. intros c s Hd Hs. apply Hl; [|done].
  intros Hk ->. apply Hd. destruct k; [done| |]; [right|left; exists false]; set_solver.
Qed.

(** ** Reconciliation *)

Lemma insert_binding_perm b bs : insert_binding b bs ≡ₚ b :: bs.
Proof. induction bs as [|x bs IH]; [done|]. cbn [insert_binding]. destruct (bytes_leb b.1 x.1); [done|]. rewrite IH. apply Permutation_swap. Qed.
Lemma desired_leads plugins l connID b : b ∈ desiredBindings plugins l connID → leads l connID b.2.
Proof.
  unfold desiredBindings, leads. destruct (Leading l connID) as [[s protocol]|]; [|by intros ?%elem_of_nil]. case_bool_decide; [by intros ?%elem_of_nil|].
  assert (∀ bs : list discoveryBinding, foldr insert_binding [] bs ≡ₚ bs) as Hperm by (induction bs as [|x bs IH]; [done|]; cbn; by rewrite insert_binding_perm, IH).
  rewrite Hperm. intros (target & -> & _)%list_elem_of_fmap. eauto.
Qed.
Lemma begin_accounts plugins l connID o b : b ∈ bound_of l connID ↔ b ∈ sy_release (begin_sync plugins l connID o) ∨ b ∈ sy_kept (begin_sync plugins l connID o).
Proof. cbn. rewrite !list_elem_of_filter. destruct (containsBinding (desiredBindings plugins l connID) b); naive_solver. Qed.

Lemma inv_begin plugins l a ts1 ts2 connID o : gate_free (ts1 ++ ts2) connID → inv l a (ts1 ++ TReconcile connID o :: ts2) →
  inv l a (ts1 ++ TSync (begin_sync plugins l connID o) :: ts2).
Proof.
  intros Hg [H1 H2 H3 H4 H5]. set (sy0 := begin_sync plugins l connID o).
  assert (Hs : ∀ sy, has_sync (ts1 ++ TReconcile connID o :: ts2) sy ↔ has_sync (ts1 ++ ts2) sy) by (intros sy; unfold has_sync; rewrite mid_in; naive_solver).
  assert (Hs' : ∀ sy, has_sync (ts1 ++ TSync sy0 :: ts2) sy ↔ sy = sy0 ∨ has_sync (ts1 ++ ts2) sy) by (intros sy; unfold has_sync; rewrite mid_in; naive_solver).
  assert (Hgf : ∀ c, gate_free (ts1 ++ TReconcile connID o :: ts2) c ↔ gate_free (ts1 ++ ts2) c) by (intros c; unfold gate_free; split; intros Hf sy Hsy; apply Hf; revert Hsy; apply Hs).
  assert (Hdue : ∀ c, c ≠ connID → due (ts1 ++ TReconcile connID o :: ts2) c → due (ts1 ++ TSync sy0 :: ts2) c).
  { intros c Hc. unfold due. setoid_rewrite mid_in. intros [(o' & [E|Hin])|[E|Hin]]; [congruence|left; eauto|done|auto]. }
  constructor.
  - intros g Hg'. destruct (H1 g Hg') as (b & Hacc & E). exists b. split; [|done]. destruct Hacc as [(sy & Hin%Hs & Hb)|(c & Hc%Hgf & Hb)].
    + left. exists sy. split; [apply Hs'; by right|done].
    + destruct (decide (c = connID)) as [->|Hne].
      * left. exists sy0. split; [apply Hs'; by left|]. apply (begin_accounts plugins _ _ o) in Hb. tauto.
      * right. exists c. split; [|done]. intros sy [->|Hsy]%Hs'; [done|by apply Hc].
  - done.
  - rewrite sync_conns_mid in H3 |- *. cbn in H3 |- *. apply NoDup_cons. split; [by apply gate_free_iff|done].
  - intros sy [->|Hsy]%Hs' Hnd b Hb.
    + cbn in Hb. destruct Hb as [[Hc%bool_decide_eq_true _]%list_elem_of_filter|[Hb|?]]; [by eapply desired_leads|by eapply desired_leads|done].
    + eapply H4; [by apply Hs| |done]. intros Hd. apply Hnd, Hdue; [|done]. by apply Hg.
  - intros c Hc Hnd b Hb. assert (c ≠ connID) as Hne by (intros ->; apply (Hc sy0); [by apply Hs'; left|done]). eapply H5; [|intros Hd; by apply Hnd, Hdue|done].
    apply Hgf. intros sy Hsy. apply Hc. apply Hs'. by right.
Qed.

(** What one step of a reconciliation does. *)
Definition held_by (sy : sync) b : Prop := b ∈ sy_release sy ∨ b ∈ sy_kept sy ∨ sy_starting sy = Some b.
Definition wanted_by (sy : sync) b : Prop := b ∈ sy_kept sy ∨ b ∈ sy_grant sy ∨ sy_starting sy = Some b.
Lemma unbind_spec (a : Authorizer) b (g : bytes * bytes) : (∀ g : bytes * bytes, g ∈ a → g.1 ≠ [] ∧ g.2 ≠ []) → g ∈ UnbindSession a b.1 b.2 → g ∈ a ∧ g ≠ trimmed b.
Proof.
  intros Hn. unfold UnbindSession. case_match eqn:E; [|set_solver]. intros Hg. split; [done|]. intros ->. apply Hn in Hg as [H1 H2]. cbn in H1, H2.
  apply orb_true_iff in E as [?%bool_decide_eq_true|?%bool_decide_eq_true]; done.
Qed.
Lemma bind_spec (policy : bytes → PluginPolicy) (a a' : Authorizer) b (g : bytes * bytes) : BindSession policy a b.1 b.2 = Some a' → g ∈ a' → g ∈ a ∨ g = trimmed b ∧ g.1 ≠ [] ∧ g.2 ≠ [].
Proof.
  unfold BindSession. case_match eqn:E; [done|]. apply orb_false_iff in E as [H1%bool_decide_eq_false H2%bool_decide_eq_false].
  case_bool_decide; [by intros [= <-]; left|]. destruct (enforceMultiSessionPolicyLocked _ _); [|done]. intros [= <-] [->%elem_of_singleton|?]%elem_of_union; [by right|by left].
Qed.
Lemma sync_next_spec (policy : bytes → PluginPolicy) (started : bool) (a : Authorizer) (sy : sync) (a' : Authorizer) (sy' : sync) : (∀ g : bytes * bytes, g ∈ a → g.1 ≠ [] ∧ g.2 ≠ []) → sync_next policy started a sy = Some (a', sy') →
  sy_conn sy' = sy_conn sy ∧ (∀ b, wanted_by sy' b → wanted_by sy b) ∧
  ∀ g : bytes * bytes, g ∈ a' → (g ∈ a ∧ ∀ b, held_by sy b → trimmed b = g → held_by sy' b) ∨ (∃ b, held_by sy' b ∧ trimmed b = g) ∧ g.1 ≠ [] ∧ g.2 ≠ [].
Proof.
  intros Hn. unfold sync_next, wanted_by, held_by. destruct (sy_starting sy) as [w|].
  - destruct started; intros [= <- <-]; cbn; (split; [done|]); (split; [set_solver|]).
    + intros g Hg. left. split; [done|]. set_solver.
    + intros g [Hg Hne]%unbind_spec; [|done]. left. split; [done|]. intros b [Hb|[Hb|[= ->]]] E; [by left|by right; left|congruence].
  - destruct (sy_release sy) as [|b0 rest]; [destruct (sy_grant sy) as [|w rest]; [done|]|].
    + destruct (containsBinding (sy_kept sy) w); [|destruct (BindSession policy a w.1 w.2) as [a1|] eqn:Eb]; intros [= <- <-]; cbn; (split; [done|]); (split; [set_solver|]); intros g Hg.
      * left. split; [done|]. set_solver.
      * destruct (bind_spec _ _ _ _ _ Eb Hg) as [Hg'|(-> & Hn1 & Hn2)]; [left; split; [done|]; set_solver|right]. split; [|done]. exists w. auto.
      * left. split; [done|]. set_solver.
    + intros [= <- <-]. cbn. split; [done|]. split; [set_solver|]. intros g [Hg Hne]%unbind_spec; [|done]. left. split; [done|].
      intros b [[->|Hb]%elem_of_cons|[Hb|?]] E; [congruence|by left|by right; left|done].
Qed.
Lemma sync_mid_syncs ts1 sy ts2 s : has_sync (ts1 ++ TSync sy :: ts2) s ↔ s = sy ∨ has_sync (ts1 ++ ts2) s.
Proof. unfold has_sync. rewrite mid_in. naive_solver. Qed.
Lemma due_mid ts1 sy ts2 c : due (ts1 ++ TSync sy :: ts2) c ↔ due (ts1 ++ ts2) c.
Proof. unfold due. setoid_rewrite mid_in. naive_solver. Qed.
Lemma gate_free_mid ts1 sy ts2 c : gate_free (ts1 ++ TSync sy :: ts2) c ↔ sy_conn sy ≠ c ∧ gate_free (ts1 ++ ts2) c.
Proof.
  unfold gate_free. split.
  - intros Hf. split; [apply Hf, mid_in; by left|]. intros s Hs. apply Hf, mid_in. by right.
  - intros [H1 H2] s Hs. apply mid_in in Hs as [[= ->]|Hs]; [done|by apply H2].
Qed.
Lemma inv_sync_step (policy : bytes → PluginPolicy) (started : bool) l (a : Authorizer) ts1 ts2 sy a' sy' : sync_next policy started a sy = Some (a', sy') → inv l a (ts1 ++ TSync sy :: ts2) → inv l a' (ts1 ++ TSync sy' :: ts2).
Proof.
  intros Hn [H1 H2 H3 H4 H5]. apply sync_next_spec in Hn as (Hc & Hw & Hg); [|done]. constructor.
  - intros g [[Hin Hkeep]|[(b & Hb & E) _]]%Hg.
    + destruct (H1 g Hin) as (b & Hacc & E). exists b. split; [|done]. destruct Hacc as [(s & [->|Hs]%sync_mid_syncs & Hb)|(c & Hf & Hb)].
      * left. exists sy'. split; [apply sync_mid_syncs; by left|]. by apply Hkeep.
      * left. exists s. split; [apply sync_mid_syncs; by right|done].
      * right. exists c. split; [|done]. rewrite gate_free_mid in Hf |- *. by rewrite Hc.
    + exists b. split; [|done]. left. exists sy'. split; [apply sync_mid_syncs; by left|done].
  - intros g [[Hin _]|[_ ?]]%Hg; [by apply H2|done].
  - rewrite sync_conns_mid in H3 |- *. cbn in H3 |- *. by rewrite Hc.
  - intros s [->|Hs]%sync_mid_syncs Hnd b Hb; rewrite due_mid in Hnd.
    + rewrite Hc in Hnd |- *. eapply H4; [apply sync_mid_syncs; by left|by rewrite due_mid|]. by apply Hw.
    + eapply H4; [apply sync_mid_syncs; by right|by rewrite due_mid|done].
  - intros c Hf Hnd b Hb. rewrite gate_free_mid in Hf. rewrite due_mid in Hnd. rewrite Hc in Hf. eapply H5; [by rewrite gate_free_mid|by rewrite due_mid|done].
Qed.
Lemma bound_set l connID kept c : bound_of (set_bound l connID kept) c = if decide (c = connID) then kept else bound_of l c.
Proof.
  unfold bound_of, set_bound. cbn. case_bool_decide as E; destruct (decide (c = connID)) as [->|Hne].
  - by rewrite lookup_delete_eq, E.
  - by rewrite lookup_delete_ne.
  - by rewrite lookup_insert_eq.
  - by rewrite lookup_insert_ne.
Qed.
Lemma inv_synced (policy : bytes → PluginPolicy) l a ts1 ts2 sy : sync_next policy true a sy = None → inv l a (ts1 ++ TSync sy :: ts2) →
  inv (set_bound l (sy_conn sy) (sy_kept sy)) a (ts1 ++ (if sy_observe sy then [TObserve (sy_conn sy)] else []) ++ ts2).
Proof.
  intros Hn [H1 H2 H3 H4 H5]. assert (sy_release sy = [] ∧ sy_starting sy = None) as [Hr Hst].
  { unfold sync_next in Hn. destruct (sy_starting sy); [done|]. by destruct (sy_release sy), (sy_grant sy). }
  rewrite sync_conns_mid in H3. cbn in H3. apply NoDup_cons in H3 as [Hfree Hnd]. apply gate_free_iff in Hfree.
  assert (inv (set_bound l (sy_conn sy) (sy_kept sy)) a (ts1 ++ ts2)) as Hi.
  { constructor.
    - intros g Hg. destruct (H1 g Hg) as (b & Hacc & E). exists b. split; [|done]. destruct Hacc as [(s & [->|Hs]%sync_mid_syncs & Hb)|(c & [Hne Hf]%gate_free_mid & Hb)].
      + right. exists (sy_conn sy). split; [done|]. rewrite bound_set, decide_True by done. rewrite Hr, Hst in Hb. destruct Hb as [?%elem_of_nil|[Hb|?]]; done.
      + left. exists s. done.
      + right. exists c. split; [done|]. by rewrite bound_set, decide_False.
    - done.
    - done.
    - intros s Hs Hd b Hb. eapply (H4 s); [apply sync_mid_syncs; by right|by rewrite due_mid|done].
    - intros c Hf Hd b. rewrite bound_set. destruct (decide (c = sy_conn sy)) as [->|Hne]; intros Hb.
      + eapply (H4 sy); [apply sync_mid_syncs; by left|by rewrite due_mid|by left].
      + eapply (H5 c); [rewrite gate_free_mid; done|by rewrite due_mid|done]. }
  destruct (sy_observe sy); [|done]. eapply inv_same; [exact Hi| |done|done]. split_and!.
  - intros s. unfold has_sync. change (TSync s ∈ ts1 ++ ts2 ↔ TSync s ∈ ts1 ++ TObserve (sy_conn sy) :: ts2). rewrite mid_in. naive_solver.
  - change (sync_conns (ts1 ++ ts2) ≡ₚ sync_conns (ts1 ++ TObserve (sy_conn sy) :: ts2)). by rewrite sync_conns_mid.
  - intros c. change (due (ts1 ++ ts2) c → due (ts1 ++ TObserve (sy_conn sy) :: ts2) c). unfold due. setoid_rewrite mid_in. naive_solver.
Qed.

(** ** Every interleaving *)

Section reachable.
Context (plugins : list DiscoveryPluginTarget) (policy : bytes → PluginPolicy).

Lemma inv_step m m' : mstep plugins policy m m' → inv (mc_leader m) (mc_auth m) (mc_threads m) → inv (mc_leader m') (mc_auth m') (mc_threads m').
Proof.
  destruct 1 as [| | | | |l a st o ts1 ts2 sy started a' sy' Hn|l a st o ts1 ts2 sy Hn|l a st o ts1 ts2 c|l a st o ts1 ts2 c|l a st o ts1 ts2 c|l a st o ts1 ts2 c
    |l a st o ts1 ts2 pl c p al|l a st o ts1 ts2 pl c p r st' Ha|l a st o ts1 ts2 c removed]; cbn; intros Hi.
  - by eapply inv_ready.
  - by eapply inv_closed.
  - done.
  - eapply inv_same; [done|apply same_app; by repeat constructor|done|done].
  - by apply inv_begin.
  - by eapply inv_sync_step.
  - by eapply inv_synced.
  - eapply inv_same; [done|apply (same_plain ts1 (TObserve c) ts2 []); [done|by constructor]|done|done].
  - eapply inv_same; [done| |done|done]. split_and!.
    + intros s. unfold has_sync. rewrite !mid_in. naive_solver.
    + by rewrite !sync_conns_mid.
    + intros c'. unfold due. setoid_rewrite mid_in. naive_solver.
  - eapply inv_same; [done|apply (same_plain ts1 (TClear c) ts2 [TForget c]); [done|by repeat constructor]|done|done].
  - eapply inv_same; [done|apply (same_plain ts1 (TForget c) ts2 []); [done|by constructor]|done|done].
  - eapply inv_same; [done|apply same_plain; [done|by case_match; repeat constructor]|done|done].
  - eapply inv_same; [done|apply same_plain; [done|by repeat case_match; repeat constructor]|done|done].
  - eapply inv_same; [done|apply (same_plain ts1 (TRetain c removed) ts2 []); [done|by constructor]|done|done].
Qed.
Lemma inv_start : inv NewDiscoveryLeader ∅ [].
Proof.
  constructor; [set_solver|set_solver|constructor|by intros sy ?%elem_of_nil|]. intros c _ _ b Hb.
  change (bound_of NewDiscoveryLeader c) with (@nil discoveryBinding) in Hb. by apply elem_of_nil in Hb.
Qed.
Lemma inv_reachable m : reachable plugins policy m → inv (mc_leader m) (mc_auth m) (mc_threads m).
Proof.
  intros Hr. unfold reachable in Hr. assert (inv (mc_leader start) (mc_auth start) (mc_threads start)) as H0 by apply inv_start.
  revert H0. induction Hr as [|m1 m2 m3 Hs _ IH]; [done|]. intros Hi. apply IH. by eapply inv_step.
Qed.
End reachable.

Definition reconciling (th : thread) : Prop := match th with TReconcile _ _ | TSync _ | TClose _ => True | _ => False end.

(** C15. However sessions come up and go down, plugins start or fail to, and the background reconciliations interleave with all of it: once none of
    them is left to run, every session a plugin is authorized for by discovery is the one that leads its connection now. No stale
    authorization stays behind, whichever event came last. *)
Theorem authorizations_follow_leader plugins policy m pluginID sessionID :
  reachable plugins policy m → Forall (λ th, ¬ reconciling th) (mc_threads m) → (pluginID, sessionID) ∈ mc_auth m →
  ∃ connID b, b ∈ bound_of (mc_leader m) connID ∧ (pluginID, sessionID) = trimmed b ∧ leads (mc_leader m) connID b.2.
Proof.
  intros Hr%inv_reachable Hq Hg. rewrite Forall_forall in Hq. destruct (iv_grants _ _ _ Hr _ Hg) as (b & [(sy & Hin & _)|(connID & Hf & Hb)] & E); [by apply Hq in Hin|].
  exists connID, b. split_and!; [done|done|]. eapply (iv_idle _ _ _ Hr); [done| |done]. intros [[o Ho]|Hc]; [by apply Hq in Ho|by apply Hq in Hc].
Qed.

(** ** Running a schedule *)

Inductive event := EReady (sessionID connID protocol : bytes) | EClosed (sessionID connID : bytes) | EObserved (connID : bytes) (ids : list bytes)
  | EPublish (pluginID : bytes) (p : payload) | EThread (i : nat) (flag : bool).
Definition with_threads (m : machine) (ts : list thread) : machine :=
  {| mc_leader := mc_leader m; mc_auth := mc_auth m; mc_store := mc_store m; mc_observed := mc_observed m; mc_threads := ts |}.
Definition gate_freeb (ts : list thread) (connID : bytes) : bool := forallb (λ th, match th with TSync sy => negb (bool_decide (sy_conn sy = connID)) | _ => true end) ts.
Section run.
Context (plugins : list DiscoveryPluginTarget) (policy : bytes → PluginPolicy).

Definition run_thread (m : machine) (ts1 : list thread) (th : thread) (ts2 : list thread) (flag : bool) : option machine :=
  let l := mc_leader m in let a := mc_auth m in let st := mc_store m in let o := mc_observed m in
  match th with
  | TReconcile c ob => if gate_freeb (ts1 ++ ts2) c then Some (with_threads m (ts1 ++ TSync (begin_sync plugins l c ob) :: ts2)) else None
  | TSync sy =>
      match sync_next policy flag a sy with
      | Some (a', sy') => Some {| mc_leader := l; mc_auth := a'; mc_store := st; mc_observed := o; mc_threads := ts1 ++ TSync sy' :: ts2 |}
      | None => Some {| mc_leader := set_bound l (sy_conn sy) (sy_kept sy); mc_auth := a; mc_store := st; mc_observed := o;
                        mc_threads := ts1 ++ (if sy_observe sy then [TObserve (sy_conn sy)] else []) ++ ts2 |}
      end
  | TObserve c => Some {| mc_leader := l; mc_auth := a; mc_store := st; mc_observed := ConnectionChanged o c; mc_threads := ts1 ++ ts2 |}
  | TClose c => Some {| mc_leader := l; mc_auth := a; mc_store := MarkConnectionStale st c; mc_observed := o; mc_threads := ts1 ++ TReconcile c true :: ts2 |}
  | TClear c => Some {| mc_leader := l; mc_auth := a; mc_store := Store_ClearConnection st c; mc_observed := o; mc_threads := ts1 ++ TForget c :: ts2 |}
  | TForget c => Some {| mc_leader := l; mc_auth := a; mc_store := st; mc_observed := Observer_ClearConnection o c; mc_threads := ts1 ++ ts2 |}
  | TPublish pl c p => Some (with_threads m (ts1 ++ (if flag && IsObserved o c (pl_NodeID p) then [TApply pl c p] else []) ++ ts2))
  | TApply pl c p =>
      let '(r, st') := ApplySnapshot st c pl (pl_NodeID p) (pl_State p) (pl_Error p) (pl_Children p) in
      Some {| mc_leader := l; mc_auth := a; mc_store := st'; mc_observed := o; mc_threads := ts1 ++ (match r with Ok (_ :: _ as removed) => [TRetain c removed] | _ => [] end) ++ ts2 |}
  | TRetain c removed => Some {| mc_leader := l; mc_auth := a; mc_store := st; mc_observed := Retain o c removed; mc_threads := ts1 ++ ts2 |}
  end.
Definition run1 (m : machine) (e : event) : option machine :=
  match e with
  | EReady s c pr => let '(ld, l') := SessionReady (mc_leader m) s c pr in
      Some {| mc_leader := l'; mc_auth := mc_auth m; mc_store := mc_store m; mc_observed := mc_observed m; mc_threads := mc_threads m ++ after_ready ld c |}
  | EClosed s c => let '(k, l') := SessionClosed (mc_leader m) s c in
      Some {| mc_leader := l'; mc_auth := mc_auth m; mc_store := mc_store m; mc_observed := mc_observed m; mc_threads := mc_threads m ++ after_closed k c |}
  | EObserved c ids => Some {| mc_leader := mc_leader m; mc_auth := mc_auth m; mc_store := mc_store m; mc_observed := SetObserved (mc_observed m) c ids; mc_threads := mc_threads m |}
  | EPublish pl p =>
      if AuthorizeSessionRPC (mc_auth m) pl [] (bytes_of_string "per-plugin") (pl_SessionID p) then
        match leadingConnectionFor (mc_leader m) (pl_SessionID p) with Some c => Some (with_threads m (mc_threads m ++ [TPublish pl c p])) | None => None end
      else None
  | EThread i flag => match mc_threads m !! i with Some th => run_thread m (take i (mc_threads m)) th (drop (S i) (mc_threads m)) flag | None => None end
  end.
Definition run (m : machine) (script : list event) : option machine := foldl (λ acc e, m ← acc; run1 m e) (Some m) script.

Lemma gate_freeb_iff ts connID : gate_freeb ts connID = true → gate_free ts connID.
Proof.
  unfold gate_freeb. rewrite forallb_forall. intros Hall sy Hin%list_elem_of_In%Hall. cbn in Hin. by apply negb_true_iff, bool_decide_eq_false in Hin.
Qed.
Lemma run1_step m e m' : run1 m e = Some m' → mstep plugins policy m m'.
Proof.
  destruct m as [l a st o ts]. destruct e as [s c pr|s c|c ids|pl p|i flag]; cbn [run1 mc_leader mc_auth mc_store mc_observed mc_threads].
  - destruct (SessionReady l s c pr) as [ld l'] eqn:E. intros [= <-]. by eapply ev_ready.
  - destruct (SessionClosed l s c) as [k l'] eqn:E. intros [= <-]. by eapply ev_closed.
  - intros [= <-]. constructor.
  - destruct (AuthorizeSessionRPC a pl [] _ (pl_SessionID p)) eqn:Ea; [|done]. destruct (leadingConnectionFor l (pl_SessionID p)) as [c|] eqn:El; [|done]. intros [= <-]. by constructor.
  - destruct (ts !! i) as [th|] eqn:Ei; [|done]. pose proof (take_drop_middle ts i th Ei) as Hmid. revert Hmid. clear Ei.
    generalize (take i ts), (drop (S i) ts). intros ts1 ts2 <-.
    destruct th as [c ob|sy|c|c|c|c|pl c p|pl c p|c removed]; cbn [run_thread mc_leader mc_auth mc_store mc_observed with_threads].
    + destruct (gate_freeb (ts1 ++ ts2) c) eqn:Eg; [|done]. intros [= <-]. apply th_begin. by apply gate_freeb_iff.
    + destruct (sync_next policy flag a sy) as [[a' sy']|] eqn:En; intros [= <-]; [by eapply th_sync|]. apply th_synced.
      unfold sync_next in En |- *. destruct (sy_starting sy); [done|]. by destruct (sy_release sy), (sy_grant sy).
    + intros [= <-]. constructor.
    + intros [= <-]. constructor.
    + intros [= <-]. constructor.
    + intros [= <-]. constructor.
    + intros [= <-]. constructor.
    + destruct (ApplySnapshot st c pl _ _ _ _) as [r st'] eqn:Ea. intros [= <-]. by constructor.
    + intros [= <-]. constructor.
Qed.
Lemma run_reachable script m m' : reachable plugins policy m → run m script = Some m' → reachable plugins policy m'.
Proof.
  unfold run. revert m. induction script as [|e script IH]; intros m Hr; [by intros [= <-]|]. cbn [foldl mbind option_bind].
  destruct (run1 m e) as [m1|] eqn:E; [|clear; induction script as [|x script IH]; [done|apply IH]]. apply IH.
  eapply rtc_r; [exact Hr|]. by eapply run1_step.
Qed.
End run.

(** ** A publish that races the end of its connection *)

Definition ssh_ : bytes := bytes_of_string "ssh".
Definition plugins_demo : list DiscoveryPluginTarget := [{| pt_PluginID := plug_; pt_ParentProtocols := [ssh_] |}].
Definition policy_demo (_ : bytes) : PluginPolicy := {| pp_allowMulti := false; pp_granted := false; pp_perPlugin := true |}.
Definition s1_ : bytes := bytes_of_string "s1".
Definition publish_demo : payload := {| pl_SessionID := s1_; pl_NodeID := []; pl_State := BranchReady; pl_Error := []; pl_Children := [mk_node leaf_ KindInstance [stop_action]] |}.
(** The session comes up and its plugin is authorized. *)
Definition opening : list event := [EReady s1_ conn_ ssh_; EThread 0 true; EThread 0 true; EThread 0 true; EThread 0 true; EThread 0 true].
(** A snapshot passes its checks; the session closes and everything of the connection is cleared; then the snapshot reaches the store. *)
Definition race : list event := opening ++ [EObserved conn_ [[]]; EPublish plug_ publish_demo; EThread 0 true; EClosed s1_ conn_;
  EThread 2 true; EThread 2 true; EThread 1 true; EThread 1 true; EThread 1 true; EThread 0 true].
Definition after_script (script : list event) : machine := default start (run plugins_demo policy_demo start script).
Lemma after_reachable script : bool_decide (is_Some (run plugins_demo policy_demo start script)) = true → reachable plugins_demo policy_demo (after_script script).
Proof.
  intros [m Hm]%bool_decide_eq_true. unfold after_script. rewrite Hm. cbn. eapply run_reachable; [|exact Hm]. apply rtc_refl.
Qed.

(** The tree of a connection can outlive it. A snapshot that passed its checks while the connection's last session closed is stored after the
    teardown cleared the tree: nothing is left to run, no session leads the connection, and still its tree is there. The next session
    of the connection finds it, and without any publish through that session an action on its nodes goes out. *)
Theorem tree_outlives_connection : ∃ m, reachable plugins_demo policy_demo m ∧ mc_threads m = [] ∧ mc_auth m = ∅ ∧ Leading (mc_leader m) conn_ = None ∧
  ∀ sessionID protocol, let l' := (SessionReady (mc_leader m) sessionID conn_ protocol).2 in
    InvokeAction (mc_store m) (fst <$> Leading l' conn_) conn_ plug_ [leaf_] stop_ = Ok sessionID.
Proof.
  exists (after_script race). split; [apply after_reachable; by vm_compute|]. split; [by vm_compute|]. split; [apply (bool_decide_unpack _); by vm_compute|].
  assert (dl_conns (mc_leader (after_script race)) !! conn_ = None) as Hc by by vm_compute. split; [unfold Leading; by rewrite Hc|].
  intros s protocol l'. assert (fst <$> Leading l' conn_ = Some s) as ->.
  { unfold l', SessionReady. rewrite Hc. cbn [default from_option id dc_ready]. rewrite bool_decide_eq_false_2 by apply not_elem_of_nil. unfold Leading. cbn. by rewrite lookup_insert_eq. }
  unfold InvokeAction. assert (CheckAction (mc_store (after_script race)) conn_ plug_ [leaf_] stop_ = Ok ()) as -> by by vm_compute. done.
Qed.

Lemma authorizations_follow_leader_witness : ∃ connID b, b ∈ bound_of (mc_leader (after_script opening)) connID ∧ (plug_, s1_) = trimmed b ∧ leads (mc_leader (after_script opening)) connID b.2.
Proof.
  apply (authorizations_follow_leader plugins_demo policy_demo (after_script opening) plug_ s1_).
  - apply after_reachable. vm_compute. reflexivity.
  - assert (mc_threads (after_script opening) = []) as -> by (vm_compute; reflexivity). constructor.
  - apply (bool_decide_unpack _). vm_compute. exact I.
Defined.
