(* ===== verification/EmbedTunnel.v ===== *)
(** * EmbedTunnel: the tunnels between a plugin and its page in the browser

    Of [internal/usecase]: [embed_tunnel_service.go], [embed_tunnel_protocol.go], [embed_tunnel_refusal.go],
    [embed_tunnel_codec.go] and [channel_embed_backend.go], with the constants of [internal/domain/embed_tunnel.go], the
    limiter of [internal/pkg/ratelimit] and the pumps of [internal/infra/embed/broker_handler.go]. Entries, sockets and subscriptions are shared by pointer in the code: here
    they live under addresses, and the maps hold addresses. A section under the mutex of the service is one function;
    what runs between two sections is a step of the machine of [EmbedWorld]. Times are nanoseconds since the zero time. *)

From S2P Require Import Prelude Bytes GoText.

(** ** Constants ([domain/embed_tunnel.go], [domain/plugin/channel_limits.go]) *)

Definition Second : Z := 1000000000.
Definition DefaultEmbedTokenTTL : Z := 8 * 3600 * Second.
Definition MaxTunnelFrameSize : Z := 64 * 1024.
Definition DefaultTunnelBandwidthBytesPerSec : Z := 32 * 1024 * 1024.
Definition DefaultTunnelBurstBytes : Z := DefaultTunnelBandwidthBytesPerSec.
Definition MaxTunnelsPerSession : Z := 8.
Definition PurposeExec : bytes := bytes_of_string "exec".
Definition PurposeEmbedStream : bytes := bytes_of_string "embed-stream".
Definition PurposeTCPRelay : bytes := bytes_of_string "tcp-relay".
Definition PurposeUDPRelay : bytes := bytes_of_string "udp-relay".
Definition InitialCredit (purpose : bytes) : nat :=
  if bool_decide (purpose ∈ [PurposeExec; PurposeTCPRelay; PurposeUDPRelay]) then 4
  else if bool_decide (purpose = PurposeEmbedStream) then 8 else 0.
Definition embedWSSendQueueDepth : nat := InitialCredit PurposeEmbedStream.

(** ** Errors ([embed_tunnel_refusal.go]) *)

Inductive EmbedRefusalCause :=
  | EmbedRefusedFrameTooLarge | EmbedRefusedRateLimited | EmbedRefusedTabInactive | EmbedRefusedWSBufferFull
  | EmbedRefusedTunnelNotAttached | EmbedRefusedTunnelClosed | EmbedRefusedTunnelUnknown | EmbedRefusedSessionGone.
#[export] Instance cause_eq_dec : EqDecision EmbedRefusalCause.
Proof. solve_decision. Defined.

(** The last one is an [EmbedFrameRefusedError], which wraps the error it classifies. *)
Inductive eerr :=
  | ErrSessionNotFound | ErrInvalidManifest | ErrTooManyTunnels | ErrRandom | ErrHandleNotFound | ErrPluginUnknown | ErrBase64
  | ErrRateLimited | ErrTerminalBackpressure | ErrCapabilityDenied | ErrChannelBackendReused | EIndexOutOfRange
  | Refused (cause : EmbedRefusalCause) (sentinel : eerr).
Definition EmbedRefusalCauseOf (e : eerr) : option EmbedRefusalCause := if e is Refused c _ then Some c else None.

(** ** Data *)

Record EmbedRegistration := {
  er_Token : bytes; er_SessionID : bytes; er_PluginID : bytes; er_UIEntry : bytes; er_TunnelIDs : list bytes; er_ExpiresAt : Z; er_Revoked : bool }.
Record SessionEmbedDescriptor := {
  sd_SessionID : bytes; sd_PluginID : bytes; sd_UIUrl : bytes; sd_TunnelUrl : bytes; sd_Sandbox : list bytes; sd_ExpiresAt : Z }.
Definition revoke_registration (r : EmbedRegistration) : EmbedRegistration :=
  {| er_Token := er_Token r; er_SessionID := er_SessionID r; er_PluginID := er_PluginID r; er_UIEntry := er_UIEntry r;
     er_TunnelIDs := er_TunnelIDs r; er_ExpiresAt := er_ExpiresAt r; er_Revoked := true |}.

(** A frame a plugin offers. Besides the bytes it carries who offered it, for which tunnel, on which channel if on one, and a number of its
    own, so that two frames of the same bytes are told apart; no operation looks at these. *)
Record frame := { fr_id : nat; fr_plugin : bytes; fr_session : bytes; fr_tunnel : bytes; fr_chan : option nat; fr_data : bytes }.
#[export] Instance frame_eq_dec : EqDecision frame.
Proof. solve_decision. Defined.

(** [send] holds at most [embedWSSendQueueDepth] frames; [done] is whether the channel is closed. *)
Record embedWSConn := { ws_send : list frame; ws_done : bool }.

(** The token bucket of [golang.org/x/time/rate]: [rate.NewLimiter] and [AllowN] at a time. *)
Class RateBucket (L : Type) := { NewLimiter : Z → Z → L; bucket_AllowN : Z → Z → L → bool * L }.
Definition ratelimit_New {L} `{RateBucket L} (bytesPerSec burst : Z) : L :=
  NewLimiter (if bytesPerSec <? 1 then 1 else bytesPerSec) (if burst <? 1 then 1 else burst).
Definition AllowN {L} `{RateBucket L} (now n : Z) (l : L) : bool * L := bucket_AllowN now n l.

Record embedEntry {L : Type} := {
  en_reg : EmbedRegistration; en_tunnelOpen : gmap bytes bool; en_limiter : L; en_wsConns : gmap bytes nat; en_active : bool }.
Arguments embedEntry : clear implicits.

Record EmbedTunnelService {L : Type} := {
  et_entries : gmap bytes nat;
  et_sessionToken : gmap bytes bytes;
  et_sessionActive : gmap bytes bool;
  et_outbound : gmap bytes (gmap bytes nat);
  et_notify : bool;
  et_baseURL : bytes;
  et_entry : gmap nat (embedEntry L);
  et_conn : gmap nat embedWSConn;
  et_sub : gmap nat bool;
  et_next : nat;
  et_panicked : bool }.
Arguments EmbedTunnelService : clear implicits.

(** ** The service ([embed_tunnel_service.go]) *)

Section Service.
Context {L : Type} `{RateBucket L}.
Implicit Types s : EmbedTunnelService L.

Definition NewEmbedTunnelService (notify : bool) (baseURL : bytes) : EmbedTunnelService L :=
  {| et_entries := ∅; et_sessionToken := ∅; et_sessionActive := ∅; et_outbound := ∅; et_notify := notify; et_baseURL := baseURL;
     et_entry := ∅; et_conn := ∅; et_sub := ∅; et_next := 0; et_panicked := false |}.

Definition set_entry (a : nat) (e : embedEntry L) s : EmbedTunnelService L :=
  {| et_entries := et_entries s; et_sessionToken := et_sessionToken s; et_sessionActive := et_sessionActive s; et_outbound := et_outbound s;
     et_notify := et_notify s; et_baseURL := et_baseURL s; et_entry := <[a := e]> (et_entry s); et_conn := et_conn s; et_sub := et_sub s;
     et_next := et_next s; et_panicked := et_panicked s |}.
Definition set_conn (c : nat) (k : embedWSConn) s : EmbedTunnelService L :=
  {| et_entries := et_entries s; et_sessionToken := et_sessionToken s; et_sessionActive := et_sessionActive s; et_outbound := et_outbound s;
     et_notify := et_notify s; et_baseURL := et_baseURL s; et_entry := et_entry s; et_conn := <[c := k]> (et_conn s); et_sub := et_sub s;
     et_next := et_next s; et_panicked := et_panicked s |}.
Definition set_tables (entries : gmap bytes nat) (tokens : gmap bytes bytes) (active : gmap bytes bool) s : EmbedTunnelService L :=
  {| et_entries := entries; et_sessionToken := tokens; et_sessionActive := active; et_outbound := et_outbound s;
     et_notify := et_notify s; et_baseURL := et_baseURL s; et_entry := et_entry s; et_conn := et_conn s; et_sub := et_sub s;
     et_next := et_next s; et_panicked := et_panicked s |}.
Definition set_outbound (o : gmap bytes (gmap bytes nat)) (subs : gmap nat bool) s : EmbedTunnelService L :=
  {| et_entries := et_entries s; et_sessionToken := et_sessionToken s; et_sessionActive := et_sessionActive s; et_outbound := o;
     et_notify := et_notify s; et_baseURL := et_baseURL s; et_entry := et_entry s; et_conn := et_conn s; et_sub := subs;
     et_next := et_next s; et_panicked := et_panicked s |}.
(** A fresh address. *)
Definition bump s : EmbedTunnelService L :=
  {| et_entries := et_entries s; et_sessionToken := et_sessionToken s; et_sessionActive := et_sessionActive s; et_outbound := et_outbound s;
     et_notify := et_notify s; et_baseURL := et_baseURL s; et_entry := et_entry s; et_conn := et_conn s; et_sub := et_sub s;
     et_next := S (et_next s); et_panicked := et_panicked s |}.
Definition panic s : EmbedTunnelService L :=
  {| et_entries := et_entries s; et_sessionToken := et_sessionToken s; et_sessionActive := et_sessionActive s; et_outbound := et_outbound s;
     et_notify := et_notify s; et_baseURL := et_baseURL s; et_entry := et_entry s; et_conn := et_conn s; et_sub := et_sub s;
     et_next := et_next s; et_panicked := true |}.

(** [close(conn.done)]: closing a closed channel panics. *)
Definition close_done (c : nat) s : EmbedTunnelService L :=
  match et_conn s !! c with
  | Some k => if ws_done k then panic s else set_conn c {| ws_send := ws_send k; ws_done := true |} s
  | None => panic s
  end.

Definition mintEmbedToken (random : option bytes) : result eerr bytes :=
  match random with Some buf => Ok (hex_encode buf) | None => Err ErrRandom end.
Definition embedUIPath (token uiEntry : bytes) : bytes := bytes_of_string "/embed/s/" ++ token ++ bytes_of_string "/ui/index.html".
Definition embedTunnelPath (token tunnelID : bytes) : bytes := bytes_of_string "/embed/s/" ++ token ++ bytes_of_string "/tunnel/" ++ tunnelID.
(** [strings.Index]. *)
Fixpoint Index (u p : bytes) : option nat :=
  if HasPrefix u p then Some 0%nat else match u with [] => None | _ :: u' => S <$> Index u' p end.
Definition extractEmbedToken (uiURL : bytes) : bytes :=
  let prefix := bytes_of_string "/embed/s/" in
  match Index uiURL prefix with
  | None => []
  | Some idx => default [] (head (Split (drop (idx + length prefix) uiURL) Byte.x2f))
  end.

Definition descriptor s (sessionID token mainTunnel : bytes) (reg : EmbedRegistration) : SessionEmbedDescriptor :=
  {| sd_SessionID := sessionID; sd_PluginID := er_PluginID reg; sd_UIUrl := et_baseURL s ++ embedUIPath token (er_UIEntry reg);
     sd_TunnelUrl := et_baseURL s ++ embedTunnelPath token mainTunnel;
     sd_Sandbox := [bytes_of_string "allow-scripts"; bytes_of_string "allow-same-origin"]; sd_ExpiresAt := er_ExpiresAt reg |}.

(** The registration with its defaults: the tunnels before the checks, the lifetime and the token after them. *)
Definition default_tunnels (reg : EmbedRegistration) : EmbedRegistration :=
  {| er_Token := er_Token reg; er_SessionID := er_SessionID reg; er_PluginID := er_PluginID reg; er_UIEntry := er_UIEntry reg;
     er_TunnelIDs := if bool_decide (er_TunnelIDs reg = []) then [bytes_of_string "main"] else er_TunnelIDs reg;
     er_ExpiresAt := er_ExpiresAt reg; er_Revoked := er_Revoked reg |}.
Definition with_token (now : Z) (token : bytes) (reg : EmbedRegistration) : EmbedRegistration :=
  {| er_Token := token; er_SessionID := er_SessionID reg; er_PluginID := er_PluginID reg; er_UIEntry := er_UIEntry reg; er_TunnelIDs := er_TunnelIDs reg;
     er_ExpiresAt := if er_ExpiresAt reg =? 0 then now + DefaultEmbedTokenTTL else er_ExpiresAt reg; er_Revoked := er_Revoked reg |}.

Definition Register (now : Z) (random : option bytes) (reg : EmbedRegistration) s : result eerr SessionEmbedDescriptor * EmbedTunnelService L :=
  if bool_decide (er_SessionID reg = []) || bool_decide (er_PluginID reg = []) then (Err ErrInvalidManifest, s) else
  let reg := default_tunnels reg in
  if MaxTunnelsPerSession <? len (er_TunnelIDs reg) then (Err ErrTooManyTunnels, s) else
  match mintEmbedToken random with
  | Err e => (Err e, s)
  | Ok token =>
      let reg := with_token now token reg in
      let entries := match et_sessionToken s !! er_SessionID reg with Some oldToken => delete oldToken (et_entries s) | None => et_entries s end in
      let entry := {| en_reg := reg; en_tunnelOpen := foldl (λ m id, <[id := true]> m) ∅ (er_TunnelIDs reg);
        en_limiter := ratelimit_New DefaultTunnelBandwidthBytesPerSec DefaultTunnelBurstBytes; en_wsConns := ∅;
        en_active := default true (et_sessionActive s !! er_SessionID reg) |} in
      let a := et_next s in
      let s' := set_tables (<[token := a]> entries) (<[er_SessionID reg := token]> (et_sessionToken s)) (et_sessionActive s) (set_entry a entry (bump s)) in
      match er_TunnelIDs reg with
      | [] => (Err EIndexOutOfRange, panic s')
      | mainTunnel :: _ => (Ok (descriptor s' (er_SessionID reg) token mainTunnel reg), s')
      end
  end.

Definition with_reg (r : EmbedRegistration) (e : embedEntry L) : embedEntry L :=
  {| en_reg := r; en_tunnelOpen := en_tunnelOpen e; en_limiter := en_limiter e; en_wsConns := en_wsConns e; en_active := en_active e |}.
Definition with_tunnels (open : gmap bytes bool) (conns : gmap bytes nat) (active : bool) (e : embedEntry L) : embedEntry L :=
  {| en_reg := en_reg e; en_tunnelOpen := open; en_limiter := en_limiter e; en_wsConns := conns; en_active := active |}.
Definition with_limiter (l : L) (e : embedEntry L) : embedEntry L :=
  {| en_reg := en_reg e; en_tunnelOpen := en_tunnelOpen e; en_limiter := l; en_wsConns := en_wsConns e; en_active := en_active e |}.

Definition entry_of s (token : bytes) : option (nat * embedEntry L) :=
  a ← et_entries s !! token; e ← et_entry s !! a; Some (a, e).

(** The loop over the sockets meets them in any order. *)
Definition RevokeBySession (sessionID : bytes) s : EmbedTunnelService L :=
  match et_sessionToken s !! sessionID with
  | None => s
  | Some token =>
      let s' := match entry_of s token with
                | Some (a, e) => foldr close_done (set_entry a (with_reg (revoke_registration (en_reg e)) e) s) (map_to_list (en_wsConns e)).*2
                | None => s
                end in
      set_tables (delete token (et_entries s')) (delete sessionID (et_sessionToken s')) (delete sessionID (et_sessionActive s')) s'
  end.

(** [entryForSession] and [entryForSessionLocked], which are the same. *)
Definition entryForSession s (sessionID : bytes) : result eerr (nat * embedEntry L) :=
  match et_sessionToken s !! sessionID with
  | None => Err ErrSessionNotFound
  | Some token =>
      match entry_of s token with
      | Some (a, e) => if er_Revoked (en_reg e) then Err ErrSessionNotFound else Ok (a, e)
      | None => Err ErrSessionNotFound
      end
  end.

(** A token that is known, not revoked and not expired. *)
Definition live_entry (now : Z) (token : bytes) s : option (nat * embedEntry L) :=
  match entry_of s token with
  | Some (a, e) => if er_Revoked (en_reg e) || (er_ExpiresAt (en_reg e) <? now) then None else Some (a, e)
  | None => None
  end.
Definition Lookup (now : Z) (token : bytes) s : result eerr EmbedRegistration :=
  match live_entry now token s with Some (_, e) => Ok (en_reg e) | None => Err ErrSessionNotFound end.
Definition UIEntryForToken (now : Z) (token : bytes) s : result eerr bytes := er_UIEntry <$> Lookup now token s.

Definition GetDescriptor (sessionID : bytes) s : result eerr (option SessionEmbedDescriptor) :=
  match et_sessionToken s !! sessionID with
  | None => Ok None
  | Some token =>
      match entry_of s token with
      | None => Ok None
      | Some (_, e) =>
          if er_Revoked (en_reg e) then Ok None else
          match er_TunnelIDs (en_reg e) with
          | [] => Err EIndexOutOfRange
          | mainTunnel :: _ => Ok (Some (descriptor s sessionID token mainTunnel (en_reg e)))
          end
      end
  end.

Definition OpenTunnel (sessionID tunnelID : bytes) s : result eerr unit * EmbedTunnelService L :=
  match entryForSession s sessionID with
  | Err e => (Err e, s)
  | Ok (a, e) =>
      match en_tunnelOpen e !! tunnelID with
      | None => (Err ErrHandleNotFound, s)
      | Some _ => (Ok (), set_entry a (with_tunnels (<[tunnelID := true]> (en_tunnelOpen e)) (en_wsConns e) (en_active e) e) s)
      end
  end.

Definition CloseTunnel (sessionID tunnelID : bytes) s : result eerr unit * EmbedTunnelService L :=
  match entryForSession s sessionID with
  | Err e => (Err e, s)
  | Ok (a, e) =>
      let open := match en_tunnelOpen e !! tunnelID with Some _ => <[tunnelID := false]> (en_tunnelOpen e) | None => en_tunnelOpen e end in
      let s' := match en_wsConns e !! tunnelID with Some c => close_done c s | None => s end in
      (Ok (), set_entry a (with_tunnels open (delete tunnelID (en_wsConns e)) (en_active e) e) s')
  end.

Definition SetSessionActive (sessionID : bytes) (active : bool) s : EmbedTunnelService L :=
  let s' := set_tables (et_entries s) (et_sessionToken s) (<[sessionID := active]> (et_sessionActive s)) s in
  match et_sessionToken s' !! sessionID with
  | None => s'
  | Some token =>
      match entry_of s' token with
      | Some (a, e) => set_entry a (with_tunnels (en_tunnelOpen e) (en_wsConns e) active e) s'
      | None => s'
      end
  end.

(** The address of the new socket, and the registration. *)
Definition AttachWebSocket (now : Z) (token tunnelID : bytes) s : result eerr (nat * EmbedRegistration) * EmbedTunnelService L :=
  match live_entry now token s with
  | None => (Err ErrSessionNotFound, s)
  | Some (a, e) =>
      match en_tunnelOpen e !! tunnelID with
      | None => (Err ErrHandleNotFound, s)
      | Some _ =>
          let s := match en_wsConns e !! tunnelID with Some old => close_done old s | None => s end in
          let c := et_next s in
          let s := set_conn c {| ws_send := []; ws_done := false |} (bump s) in
          let active := default false (et_sessionActive s !! er_SessionID (en_reg e)) in
          (Ok (c, en_reg e), set_entry a (with_tunnels (<[tunnelID := true]> (en_tunnelOpen e)) (<[tunnelID := c]> (en_wsConns e)) active e) s)
      end
  end.

(** [RouteTunnelFrameFromPlugin] up to the end of its section: the socket the frame is for, or why it is refused. *)
Definition RouteTunnelFrameFromPlugin_begin (now : Z) (sessionID tunnelID data : bytes) s : result eerr nat * EmbedTunnelService L :=
  if MaxTunnelFrameSize <? len data then (Err (Refused EmbedRefusedFrameTooLarge ErrRateLimited), s) else
  match entryForSession s sessionID with
  | Err err => (Err (Refused EmbedRefusedSessionGone err), s)
  | Ok (a, e) =>
      if negb (en_active e) then (Err (Refused EmbedRefusedTabInactive ErrTerminalBackpressure), s) else
      let '(ok, l) := AllowN now (len data) (en_limiter e) in
      let s := set_entry a (with_limiter l e) s in
      if negb ok then (Err (Refused EmbedRefusedRateLimited ErrRateLimited), s) else
      match en_wsConns e !! tunnelID with
      | Some c => (Ok c, s)
      | None =>
          (Err (match en_tunnelOpen e !! tunnelID with
                | None => Refused EmbedRefusedTunnelUnknown ErrHandleNotFound
                | Some true => Refused EmbedRefusedTunnelNotAttached ErrTerminalBackpressure
                | Some false => Refused EmbedRefusedTunnelClosed ErrHandleNotFound
                end), s)
      end
  end.
(** Its [select]: the frame is queued if there is room. *)
Definition RouteTunnelFrameFromPlugin_send (c : nat) (f : frame) s : result eerr unit * EmbedTunnelService L :=
  match et_conn s !! c with
  | Some k =>
      if bool_decide (length (ws_send k) < embedWSSendQueueDepth)%nat then (Ok (), set_conn c {| ws_send := ws_send k ++ [f]; ws_done := ws_done k |} s)
      else (Err (Refused EmbedRefusedWSBufferFull ErrTerminalBackpressure), s)
  | None => (Err EIndexOutOfRange, s)
  end.

Definition outboundSubLocked s (sessionID tunnelID : bytes) : option nat := et_outbound s !! sessionID ≫= lookup tunnelID.
(** [RouteTunnelFrameToPlugin] up to the end of its section: the entry, whether a notifier is set, the subscription. *)
Definition RouteTunnelFrameToPlugin_begin (sessionID tunnelID : bytes) s : result eerr (nat * bool * option nat) :=
  match entryForSession s sessionID with
  | Err e => Err e
  | Ok (a, _) => Ok (a, et_notify s, outboundSubLocked s sessionID tunnelID)
  end.
(** Its last part, once no subscription took the frame: the plugin to notify. The entry is read without the mutex. *)
Definition RouteTunnelFrameToPlugin_legacy (a : nat) (notify : bool) s : option bytes :=
  match et_entry s !! a with
  | Some e => if negb (en_active e) then None else if negb notify then None else Some (er_PluginID (en_reg e))
  | None => None
  end.

(** [sub.stop()]: once. *)
Definition stop_sub (sub : nat) (subs : gmap nat bool) : gmap nat bool := <[sub := true]> subs.
Definition mark_open (sessionID tunnelID : bytes) s : EmbedTunnelService L :=
  match entryForSession s sessionID with
  | Ok (a, e) =>
      match en_tunnelOpen e !! tunnelID with
      | Some _ => set_entry a (with_tunnels (<[tunnelID := true]> (en_tunnelOpen e)) (en_wsConns e) (en_active e) e) s
      | None => s
      end
  | Err _ => s
  end.
(** The subscription that was there before is stopped right after the section, and counted with it here. *)
Definition SubscribeOutbound (sessionID tunnelID : bytes) s : option nat * EmbedTunnelService L :=
  if bool_decide (sessionID = []) || bool_decide (tunnelID = []) then (None, s) else
  let sub := et_next s in
  let byTunnel := default ∅ (et_outbound s !! sessionID) in
  let subs := <[sub := false]> (et_sub s) in
  let subs := match byTunnel !! tunnelID with Some prev => stop_sub prev subs | None => subs end in
  (Some sub, mark_open sessionID tunnelID (set_outbound (<[sessionID := <[tunnelID := sub]> byTunnel]> (et_outbound s)) subs (bump s))).
(** The function it returns. *)
Definition unsubscribe (sessionID tunnelID : bytes) (sub : nat) s : EmbedTunnelService L :=
  let o := match et_outbound s !! sessionID with
           | Some byTunnel =>
               if bool_decide (byTunnel !! tunnelID = Some sub) then
                 let byTunnel' := delete tunnelID byTunnel in
                 if bool_decide (byTunnel' = ∅) then delete sessionID (et_outbound s) else <[sessionID := byTunnel']> (et_outbound s)
               else et_outbound s
           | None => et_outbound s
           end in
  set_outbound o (stop_sub sub (et_sub s)) s.
End Service.

(** ** Sessions and the calls of plugins ([session_registry.go], [embed_tunnel_protocol.go]) *)

Definition SessionConnecting : bytes := bytes_of_string "connecting".
Definition SessionClosedState : bytes := bytes_of_string "closed".
(** What the embedding asks of a session. *)
Record sessionEntry := {
  se_pluginID : bytes; se_Protocol : bytes; se_State : bytes; se_Surface : bytes; se_embedDescriptor : option SessionEmbedDescriptor }.
Abbreviation SessionRegistry := (gmap bytes sessionEntry).
Definition newSessionEntry (protocol : bytes) : sessionEntry :=
  {| se_pluginID := []; se_Protocol := protocol; se_State := SessionConnecting; se_Surface := []; se_embedDescriptor := None |}.
(** [registry.Mutate] by [RunSession]: the plugin of the protocol takes the session. *)
Definition run_session (sessionID pluginID : bytes) (r : SessionRegistry) : SessionRegistry :=
  alter (λ e, {| se_pluginID := pluginID; se_Protocol := se_Protocol e; se_State := se_State e; se_Surface := se_Surface e;
                 se_embedDescriptor := se_embedDescriptor e |}) sessionID r.

Definition PluginIDForSession (r : SessionRegistry) (sessionID : bytes) : option bytes :=
  match r !! sessionID with
  | Some e => if bool_decide (se_pluginID e = []) then None else if bool_decide (se_State e = SessionClosedState) then None else Some (se_pluginID e)
  | None => None
  end.
Definition assertPluginSession (r : SessionRegistry) (pluginID sessionID : bytes) : result eerr unit :=
  match r !! sessionID with
  | Some e => if bool_decide (se_pluginID e = pluginID) then Ok () else Err ErrSessionNotFound
  | None => Err ErrSessionNotFound
  end.

(** [Manifest.EmbedEntryForProtocol]: the protocols a plugin contributes, each with the entry of its page. *)
Definition defaultEmbedEntry : bytes := bytes_of_string "ui/embed.html".
Fixpoint Manifest_EmbedEntryForProtocol (contributions : list (bytes * bytes)) (protocolID : bytes) : bytes :=
  match contributions with
  | [] => defaultEmbedEntry
  | (id, embedEntry) :: rest =>
      if bool_decide (TrimSpace id = TrimSpace protocolID) then
        let entry := TrimSpace embedEntry in if bool_decide (entry = []) then defaultEmbedEntry else entry
      else Manifest_EmbedEntryForProtocol rest protocolID
  end.
(** [PluginRegistry.EmbedEntryForProtocol], given the manifests of the installed plugins. *)
Definition EmbedEntryForProtocol (manifests : gmap bytes (list (bytes * bytes))) (pluginID protocol : bytes) : result eerr bytes :=
  match manifests !! pluginID with Some m => Ok (Manifest_EmbedEntryForProtocol m protocol) | None => Err ErrPluginUnknown end.

(** [HandlePluginRegisterEmbed] up to the call of [Register]. *)
Definition HandlePluginRegisterEmbed_begin (manifests : gmap bytes (list (bytes * bytes))) (r : SessionRegistry) (now : Z)
    (pluginID sessionID uiEntry : bytes) (tunnelIDs : list bytes) : result eerr EmbedRegistration :=
  let protocol := match r !! sessionID with Some e => if bool_decide (se_pluginID e = pluginID) then se_Protocol e else [] | None => [] end in
  if bool_decide (protocol = []) then Err ErrSessionNotFound else
  expected ← EmbedEntryForProtocol manifests pluginID protocol;
  let uiEntry := TrimSpace uiEntry in
  let uiEntry := if bool_decide (uiEntry = []) then expected else uiEntry in
  if negb (bool_decide (uiEntry = expected)) then Err ErrInvalidManifest else
  Ok {| er_Token := []; er_SessionID := sessionID; er_PluginID := pluginID; er_UIEntry := uiEntry; er_TunnelIDs := tunnelIDs;
        er_ExpiresAt := now + DefaultEmbedTokenTTL; er_Revoked := false |}.
(** And after it: the session keeps the descriptor, if it is still there. *)
Definition store_descriptor (sessionID : bytes) (desc : SessionEmbedDescriptor) (r : SessionRegistry) : SessionRegistry :=
  alter (λ e, {| se_pluginID := se_pluginID e; se_Protocol := se_Protocol e; se_State := se_State e; se_Surface := bytes_of_string "embed";
                 se_embedDescriptor := Some desc |}) sessionID r.

Definition decodeTunnelData (dataBase64 : bytes) : result eerr bytes :=
  match base64_decode dataBase64 with Some d => Ok d | None => Err ErrBase64 end.

(** What a call of a plugin goes on with once the session is known to be its own: marking a tunnel open, a frame, closing a tunnel. *)
Inductive tunnel_call := CallOpen | CallFrame (data : bytes) | CallClose.
Definition HandlePluginTunnelOpen_begin (r : SessionRegistry) (pluginID sessionID : bytes) : result eerr tunnel_call :=
  _ ← assertPluginSession r pluginID sessionID; Ok CallOpen.
Definition HandlePluginTunnelFrame_begin (r : SessionRegistry) (pluginID sessionID dataBase64 : bytes) (eof : bool) : result eerr tunnel_call :=
  _ ← assertPluginSession r pluginID sessionID;
  if eof then Ok CallClose else data ← decodeTunnelData dataBase64; Ok (CallFrame data).
Definition HandlePluginTunnelClose_begin (r : SessionRegistry) (pluginID sessionID : bytes) : result eerr tunnel_call :=
  _ ← assertPluginSession r pluginID sessionID; Ok CallClose.

(** ** The channel of a plugin ([channel_embed_backend.go]) *)

Definition embedDefaultTunnelID : bytes := bytes_of_string "main".
Definition embedAckCeiling : Z := 120 * Second.
Definition embedDeliverRetryInterval : Z := 25000000.

(** The subscription it has to undo stands for the function [unsubscribe]. *)
Record ChannelEmbedBackend := {
  cb_pluginID : bytes; cb_hasEmbedCap : bool; cb_parentSessionID : bytes; cb_tunnelID : bytes; cb_authorized : bool;
  cb_unsubscribe : option nat; cb_closed : bool }.
Definition NewChannelEmbedBackend (pluginID : bytes) (hasEmbedCap : bool) : ChannelEmbedBackend :=
  {| cb_pluginID := pluginID; cb_hasEmbedCap := hasEmbedCap; cb_parentSessionID := []; cb_tunnelID := embedDefaultTunnelID;
     cb_authorized := false; cb_unsubscribe := None; cb_closed := false |}.
Definition Authorize (r : SessionRegistry) (purpose parentSessionID hint : bytes) (b : ChannelEmbedBackend) : result eerr ChannelEmbedBackend :=
  if negb (bool_decide (purpose = PurposeEmbedStream)) then Err ErrCapabilityDenied else
  if negb (cb_hasEmbedCap b) then Err ErrCapabilityDenied else
  let parentSessionID := TrimSpace parentSessionID in
  if bool_decide (parentSessionID = []) then Err ErrCapabilityDenied else
  if negb (bool_decide (PluginIDForSession r parentSessionID = Some (cb_pluginID b))) then Err ErrCapabilityDenied else
  let tunnelID := TrimSpace hint in
  let tunnelID := if bool_decide (tunnelID = []) then embedDefaultTunnelID else tunnelID in
  if cb_authorized b then Err ErrChannelBackendReused else
  Ok {| cb_pluginID := cb_pluginID b; cb_hasEmbedCap := cb_hasEmbedCap b; cb_parentSessionID := parentSessionID; cb_tunnelID := tunnelID;
        cb_authorized := true; cb_unsubscribe := cb_unsubscribe b; cb_closed := cb_closed b |}.
(** The check [Wire] starts with. *)
Definition Wire_begin (b : ChannelEmbedBackend) : result eerr (bytes * bytes) :=
  if bool_decide (cb_parentSessionID b = []) || cb_closed b then Err ErrCapabilityDenied else Ok (cb_parentSessionID b, cb_tunnelID b).
(** Its section once it has subscribed. *)
Definition Wire_subscribed (sub : option nat) (b : ChannelEmbedBackend) : ChannelEmbedBackend :=
  {| cb_pluginID := cb_pluginID b; cb_hasEmbedCap := cb_hasEmbedCap b; cb_parentSessionID := cb_parentSessionID b; cb_tunnelID := cb_tunnelID b;
     cb_authorized := cb_authorized b; cb_unsubscribe := sub; cb_closed := cb_closed b |}.
(** The section of [CloseRemote]: the subscription that is left to undo. *)
Definition CloseRemote_begin (b : ChannelEmbedBackend) : option nat * ChannelEmbedBackend :=
  (if cb_closed b then None else cb_unsubscribe b,
   {| cb_pluginID := cb_pluginID b; cb_hasEmbedCap := cb_hasEmbedCap b; cb_parentSessionID := cb_parentSessionID b; cb_tunnelID := cb_tunnelID b;
      cb_authorized := cb_authorized b; cb_unsubscribe := None; cb_closed := true |}).

(** How [deliverFrame] waits on a refusal. *)
Inductive waiting := WaitPaused | WaitCharged | WaitNever.
Definition refusal_wait (cause : EmbedRefusalCause) : waiting :=
  match cause with
  | EmbedRefusedTabInactive => WaitPaused
  | EmbedRefusedWSBufferFull | EmbedRefusedRateLimited | EmbedRefusedTunnelNotAttached => WaitCharged
  | EmbedRefusedSessionGone | EmbedRefusedTunnelClosed | EmbedRefusedTunnelUnknown | EmbedRefusedFrameTooLarge => WaitNever
  end.
Definition error_wait (e : eerr) : waiting := match EmbedRefusalCauseOf e with Some c => refusal_wait c | None => WaitNever end.
(** One turn of its loop: what the sink answers, whether the context ends during the wait, how long the wait took. *)
Record attempt := { at_result : result eerr unit; at_ctxDone : bool; at_waited : Z }.
Inductive outcome := Accepted | ClosedWith (e : eerr) | ClosedByContext.
(** Of the attempts from number [i] on, with [spent] of the ceiling used: how it ends, and after how many attempts. [None] means the fuel ran out. *)
Fixpoint deliverFrame (fuel : nat) (ceiling : Z) (answers : nat → attempt) (i : nat) (spent : Z) : option (outcome * nat) :=
  match fuel with
  | O => None
  | S fuel' =>
      let a := answers i in
      match at_result a with
      | Ok _ => Some (Accepted, S i)
      | Err e =>
          let goes_on spent := if at_ctxDone a then Some (ClosedByContext, S i) else deliverFrame fuel' ceiling answers (S i) spent in
          match error_wait e with
          | WaitNever => Some (ClosedWith e, S i)
          | WaitPaused => goes_on spent
          | WaitCharged => if ceiling <=? spent then Some (ClosedWith e, S i) else goes_on (spent + at_waited a)
          end
      end
  end.

(** ** The broker of the browser's requests ([infra/embed/broker_handler.go]) *)

Definition maxFailedLookups : nat := 20.
Definition failedLookupWindow : Z := 60 * Second.
Definition withinWindow (window : list Z) (cutoff : Z) : list Z := filter (λ t, cutoff < t) window.
(** The times of the failed lookups by remote host; the host comes from [failureKey]. *)
Definition recordFailedLookup (key : bytes) (now : Z) (failures : gmap bytes (list Z)) : bool * gmap bytes (list Z) :=
  let cutoff := now - failedLookupWindow in
  let filtered := withinWindow (default [] (failures !! key)) cutoff ++ [now] in
  let others := omap (λ window, let live := withinWindow window cutoff in if bool_decide (live = []) then None else Some live) (delete key failures) in
  (bool_decide (maxFailedLookups ≤ length filtered)%nat, <[key := filtered]> others).

Inductive response := NotFound | TooManyRequests | Unauthorized | ServeUI (reg : EmbedRegistration) (rel : option bytes) | ServeTunnel (reg : EmbedRegistration) (tunnelID : bytes).
(** [strings.SplitN(rest, "/", 3)]. *)
Definition SplitN3 (rest : bytes) : list bytes :=
  match Split rest Byte.x2f with
  | a :: b :: c :: more => [a; b; foldl (λ acc x, acc ++ Byte.x2f :: x) c more]
  | l => l
  end.
Definition ServeHTTP {L} `{RateBucket L} (now : Z) (key path : bytes) (s : EmbedTunnelService L) (failures : gmap bytes (list Z)) : response * gmap bytes (list Z) :=
  let prefix := bytes_of_string "/embed/s/" in
  if negb (HasPrefix path prefix) then (NotFound, failures) else
  match SplitN3 (drop (length prefix) path) with
  | token :: route :: more =>
      if bool_decide (token = []) || bool_decide (route = []) then (NotFound, failures) else
      match Lookup now token s with
      | Err _ => let '(throttled, failures') := recordFailedLookup key now failures in
                 (if throttled then TooManyRequests else Unauthorized, failures')
      | Ok reg =>
          if bool_decide (route = bytes_of_string "ui") then (ServeUI reg (head more), failures) else
          if bool_decide (route = bytes_of_string "tunnel") then
            (match more with tunnelID :: _ => if bool_decide (tunnelID = []) then NotFound else ServeTunnel reg tunnelID | [] => NotFound end, failures)
          else (NotFound, failures)
      end
  | _ => (NotFound, failures)
  end.
