(* ===== verification/EmbedWorld.v ===== *)
(** * EmbedWorld: embedding as one machine

    The service of [EmbedTunnel] together with what calls it: sessions that open and close ([session_lifecycle_service.go]), the calls of
    plugins, the channels of plugins with their pumps ([channel_embed_backend.go]), and the sockets of browsers with theirs
    ([infra/embed/broker_handler.go]). Each section under a mutex is one step, and any other step may run between two of them. *)

From S2P Require Import Prelude Bytes GoText EmbedTunnel.

(** Where [pumpWSToPlugin] is: before its check of [conn.Done()], in [ws.ReadMessage], handing a frame to a subscription, past it, returned. *)
Inductive pump :=
  | PCheck | PRead | PDeliver (data : bytes) (entry : nat) (notify : bool) (sub : nat) | PLegacy (data : bytes) (entry : nat) (notify : bool) | PGone.
(** A call of [serveTunnel] past [AttachWebSocket], by the address of its socket; [sk_wire] is what [pumpPluginToWS] wrote. *)
Record socket := {
  sk_token : bytes; sk_plugin : bytes; sk_session : bytes; sk_tunnel : bytes; sk_in : pump; sk_writing : bool; sk_wire : list frame }.

(** Calls between two of their sections. *)
Inductive call :=
  | TRegister (reg : EmbedRegistration)  (* [HandlePluginRegisterEmbed], before [Register] *)
  | TDescriptor (sessionID : bytes) (desc : SessionEmbedDescriptor)  (* and after it *)
  | TRevoke (sessionID : bytes)  (* [CloseSession], before [RevokeBySession] *)
  | TOpen (sessionID tunnelID : bytes) | TClose (sessionID tunnelID : bytes) | TFrame (f : frame)  (* past [assertPluginSession] *)
  | TSend (f : frame) (conn : nat).  (* [RouteTunnelFrameFromPlugin] before its [select] *)

(** The inbound pump of a channel: not started, in [Recv], with a frame to offer, before the [select], returned. *)
Inductive inbound := IIdle | IRecv | IHand (f : frame) | ISend (f : frame) (conn : nat) | IEnded.
(** [Wire]: to come, past the start of the inbound pump, past [SubscribeOutbound], returned. *)
Inductive wiring := WNew | WStarted | WSubscribed (sub : option nat) | WReturned.
(** [cn_out]: the subscription its outbound pump reads from; [cn_undo]: the one [CloseRemote] has still to undo. *)
Record channel := { cn_b : ChannelEmbedBackend; cn_in : inbound; cn_wire : wiring; cn_out : option nat; cn_undo : option nat }.

(** Input of a browser that reached a plugin, by notification or through a channel, and the socket it came from. *)
Record input := { in_plugin : bytes; in_session : bytes; in_tunnel : bytes; in_data : bytes; in_socket : nat; in_channel : option nat }.

(** [w_owner], [w_opened] and [w_minted] remember which plugin ran a session and which session ids and tokens were drawn. *)
Record world {L : Type} := {
  w_svc : EmbedTunnelService L;
  w_registry : SessionRegistry;
  w_calls : gmap nat call;
  w_socks : gmap nat socket;
  w_chans : gmap nat channel;
  w_inputs : list input;
  w_next : nat;
  w_owner : gmap bytes bytes;
  w_opened : gset bytes;
  w_minted : gset bytes }.
Arguments world : clear implicits.

Inductive call_kind := KOpen | KFrame (dataBase64 : bytes) (eof : bool) | KClose.
Inductive event :=
  | OpenSession (sessionID protocol : bytes) | RunSession (sessionID pluginID : bytes) | CloseSession (sessionID : bytes)
  | TabActive (sessionID : bytes) (active : bool)
  | PluginRegisters (now : Z) (pluginID sessionID uiEntry : bytes) (tunnelIDs : list bytes)
  | PluginCalls (pluginID sessionID tunnelID : bytes) (kind : call_kind)
  | Proceeds (t : nat) (now : Z) (random : option bytes)
  | Attaches (now : Z) (token tunnelID : bytes)
  | SocketWrites (c : nat) | WriterEnds (c : nat) | PumpChecks (c : nat) | BrowserSends (c : nat) (data : bytes) | ReaderEnds (c : nat)
  | SubTakes (c ch : nat) | SubStopped (c : nat) | InputCancelled (c : nat) | InputNotifies (c : nat)
  | ChannelOpens (pluginID : bytes) (hasEmbedCap : bool) (purpose parentSessionID hint : bytes)
  | ChannelWires (ch : nat) | ChannelSubscribes (ch : nat) | ChannelReturns (ch : nat)
  | ChannelReceives (ch : nat) (data : bytes) | ChannelOffers (ch : nat) (now : Z) | ChannelSends (ch : nat) | ChannelGivesUp (ch : nat)
  | ChannelEnds (ch : nat) | ChannelCloses (ch : nat) | ChannelUndoes (ch : nat) | OutboundEnds (ch : nat).

Section World.
Context {L : Type} `{RateBucket L} (manifests : gmap bytes (list (bytes * bytes))).
Implicit Types w : world L.

Definition NewWorld (notify : bool) (baseURL : bytes) : world L :=
  {| w_svc := NewEmbedTunnelService notify baseURL; w_registry := ∅; w_calls := ∅; w_socks := ∅; w_chans := ∅; w_inputs := []; w_next := 0;
     w_owner := ∅; w_opened := ∅; w_minted := ∅ |}.
Definition set_svc (s : EmbedTunnelService L) w : world L :=
  {| w_svc := s; w_registry := w_registry w; w_calls := w_calls w; w_socks := w_socks w; w_chans := w_chans w; w_inputs := w_inputs w;
     w_next := w_next w; w_owner := w_owner w; w_opened := w_opened w; w_minted := w_minted w |}.
Definition set_registry (r : SessionRegistry) w : world L :=
  {| w_svc := w_svc w; w_registry := r; w_calls := w_calls w; w_socks := w_socks w; w_chans := w_chans w; w_inputs := w_inputs w;
     w_next := w_next w; w_owner := w_owner w; w_opened := w_opened w; w_minted := w_minted w |}.
Definition set_calls (c : gmap nat call) w : world L :=
  {| w_svc := w_svc w; w_registry := w_registry w; w_calls := c; w_socks := w_socks w; w_chans := w_chans w; w_inputs := w_inputs w;
     w_next := w_next w; w_owner := w_owner w; w_opened := w_opened w; w_minted := w_minted w |}.
Definition set_sock (c : nat) (k : socket) w : world L :=
  {| w_svc := w_svc w; w_registry := w_registry w; w_calls := w_calls w; w_socks := <[c := k]> (w_socks w); w_chans := w_chans w; w_inputs := w_inputs w;
     w_next := w_next w; w_owner := w_owner w; w_opened := w_opened w; w_minted := w_minted w |}.
Definition set_chan (ch : nat) (k : channel) w : world L :=
  {| w_svc := w_svc w; w_registry := w_registry w; w_calls := w_calls w; w_socks := w_socks w; w_chans := <[ch := k]> (w_chans w); w_inputs := w_inputs w;
     w_next := w_next w; w_owner := w_owner w; w_opened := w_opened w; w_minted := w_minted w |}.
Definition add_input (i : input) w : world L :=
  {| w_svc := w_svc w; w_registry := w_registry w; w_calls := w_calls w; w_socks := w_socks w; w_chans := w_chans w; w_inputs := w_inputs w ++ [i];
     w_next := w_next w; w_owner := w_owner w; w_opened := w_opened w; w_minted := w_minted w |}.
Definition next w : world L :=
  {| w_svc := w_svc w; w_registry := w_registry w; w_calls := w_calls w; w_socks := w_socks w; w_chans := w_chans w; w_inputs := w_inputs w;
     w_next := S (w_next w); w_owner := w_owner w; w_opened := w_opened w; w_minted := w_minted w |}.
Definition set_drawn (owner : gmap bytes bytes) (opened minted : gset bytes) w : world L :=
  {| w_svc := w_svc w; w_registry := w_registry w; w_calls := w_calls w; w_socks := w_socks w; w_chans := w_chans w; w_inputs := w_inputs w;
     w_next := w_next w; w_owner := owner; w_opened := opened; w_minted := minted |}.
Definition add_call (k : call) w : world L := next (set_calls (<[w_next w := k]> (w_calls w)) w).
Definition end_call (t : nat) w : world L := set_calls (delete t (w_calls w)) w.
Definition set_call (t : nat) (k : call) w : world L := set_calls (<[t := k]> (w_calls w)) w.

(** ** Calls of plugins and sessions *)

Definition plugin_call (pluginID sessionID tunnelID : bytes) (kind : call_kind) w : option (world L) :=
  let r := match kind with
           | KOpen => HandlePluginTunnelOpen_begin (w_registry w) pluginID sessionID
           | KFrame d eof => HandlePluginTunnelFrame_begin (w_registry w) pluginID sessionID d eof
           | KClose => HandlePluginTunnelClose_begin (w_registry w) pluginID sessionID
           end in
  match r with
  | Ok CallOpen => Some (add_call (TOpen sessionID tunnelID) w)
  | Ok CallClose => Some (add_call (TClose sessionID tunnelID) w)
  | Ok (CallFrame d) =>
      Some (add_call (TFrame {| fr_id := w_next w; fr_plugin := pluginID; fr_session := sessionID; fr_tunnel := tunnelID; fr_chan := None; fr_data := d |}) w)
  | Err _ => Some w
  end.

(** The next section of a call. A token that was drawn before is not drawn again. *)
Definition proceed (t : nat) (now : Z) (random : option bytes) w : option (world L) :=
  k ← w_calls w !! t;
  match k with
  | TRevoke sid => Some (end_call t (set_svc (RevokeBySession sid (w_svc w)) w))
  | TRegister reg =>
      if (match random with Some buf => bool_decide (hex_encode buf ∈ w_minted w) | None => false end) then None else
      let '(r, s) := Register now random reg (w_svc w) in
      match r with
      | Ok desc => Some (set_call t (TDescriptor (er_SessionID reg) desc) (set_svc s
                     (set_drawn (w_owner w) (w_opened w) (match random with Some buf => {[hex_encode buf]} | None => ∅ end ∪ w_minted w) w)))
      | Err _ => Some (end_call t (set_svc s w))
      end
  | TDescriptor sid desc => Some (end_call t (set_registry (store_descriptor sid desc (w_registry w)) w))
  | TOpen sid tid => Some (end_call t (set_svc (OpenTunnel sid tid (w_svc w)).2 w))
  | TClose sid tid => Some (end_call t (set_svc (CloseTunnel sid tid (w_svc w)).2 w))
  | TFrame f =>
      let '(r, s) := RouteTunnelFrameFromPlugin_begin now (fr_session f) (fr_tunnel f) (fr_data f) (w_svc w) in
      Some (match r with Ok c => set_call t (TSend f c) | Err _ => end_call t end (set_svc s w))
  | TSend f c => Some (end_call t (set_svc (RouteTunnelFrameFromPlugin_send c f (w_svc w)).2 w))
  end.

(** ** Sockets ([serveTunnel] and its pumps) *)

Definition attach (now : Z) (token tunnelID : bytes) w : world L :=
  let '(r, s) := AttachWebSocket now token tunnelID (w_svc w) in
  match r with
  | Ok (c, reg) => set_sock c {| sk_token := token; sk_plugin := er_PluginID reg; sk_session := er_SessionID reg; sk_tunnel := tunnelID; sk_in := PCheck;
                                 sk_writing := true; sk_wire := [] |} (set_svc s w)
  | Err _ => set_svc s w
  end.
Definition with_in (p : pump) (k : socket) : socket :=
  {| sk_token := sk_token k; sk_plugin := sk_plugin k; sk_session := sk_session k; sk_tunnel := sk_tunnel k; sk_in := p; sk_writing := sk_writing k; sk_wire := sk_wire k |}.
Definition with_out (writing : bool) (wire : list frame) (k : socket) : socket :=
  {| sk_token := sk_token k; sk_plugin := sk_plugin k; sk_session := sk_session k; sk_tunnel := sk_tunnel k; sk_in := sk_in k; sk_writing := writing; sk_wire := wire |}.

(** One frame from the queue to the browser. *)
Definition socket_writes (c : nat) w : option (world L) :=
  k ← w_socks w !! c;
  conn ← et_conn (w_svc w) !! c;
  match ws_send conn with
  | f :: rest => if sk_writing k then Some (set_sock c (with_out true (sk_wire k ++ [f]) k) (set_svc (set_conn c {| ws_send := rest; ws_done := ws_done conn |} (w_svc w)) w)) else None
  | [] => None
  end.
Definition pump_checks (c : nat) w : option (world L) :=
  k ← w_socks w !! c;
  conn ← et_conn (w_svc w) !! c;
  if sk_in k is PCheck then Some (set_sock c (with_in (if ws_done conn then PGone else PRead) k) w) else None.
Definition browser_sends (c : nat) (data : bytes) w : option (world L) :=
  k ← w_socks w !! c;
  if sk_in k is PRead then
    Some (set_sock c (with_in
      (if MaxTunnelFrameSize <? len data then PCheck else
       match RouteTunnelFrameToPlugin_begin (sk_session k) (sk_tunnel k) (w_svc w) with
       | Err _ => PCheck
       | Ok (a, notify, Some sub) => PDeliver data a notify sub
       | Ok (a, notify, None) => PLegacy data a notify
       end) k) w)
  else None.
(** [sub.ch <- data] meets the outbound pump of a channel. *)
Definition sub_takes (c ch : nat) w : option (world L) :=
  k ← w_socks w !! c;
  n ← w_chans w !! ch;
  if sk_in k is PDeliver data _ _ sub then
    if bool_decide (cn_out n = Some sub) then
      Some (add_input {| in_plugin := cb_pluginID (cn_b n); in_session := cb_parentSessionID (cn_b n); in_tunnel := cb_tunnelID (cn_b n); in_data := data;
                         in_socket := c; in_channel := Some ch |} (set_sock c (with_in PCheck k) w))
    else None
  else None.
Definition sub_stopped (c : nat) w : option (world L) :=
  k ← w_socks w !! c;
  if sk_in k is PDeliver data a notify sub then
    if bool_decide (et_sub (w_svc w) !! sub = Some true) then Some (set_sock c (with_in (PLegacy data a notify) k) w) else None
  else None.
Definition input_cancelled (c : nat) w : option (world L) :=
  k ← w_socks w !! c;
  if sk_in k is PDeliver _ _ _ _ then Some (set_sock c (with_in PCheck k) w) else None.
Definition input_notifies (c : nat) w : option (world L) :=
  k ← w_socks w !! c;
  if sk_in k is PLegacy data a notify then
    let w' := set_sock c (with_in PCheck k) w in
    Some (match RouteTunnelFrameToPlugin_legacy a notify (w_svc w) with
          | Some pluginID => add_input {| in_plugin := pluginID; in_session := sk_session k; in_tunnel := sk_tunnel k; in_data := data; in_socket := c; in_channel := None |} w'
          | None => w'
          end)
  else None.

(** ** Channels *)

Definition with_inbound (i : inbound) (n : channel) : channel :=
  {| cn_b := cn_b n; cn_in := i; cn_wire := cn_wire n; cn_out := cn_out n; cn_undo := cn_undo n |}.
Definition with_wiring (x : wiring) (n : channel) : channel :=
  {| cn_b := cn_b n; cn_in := cn_in n; cn_wire := x; cn_out := cn_out n; cn_undo := cn_undo n |}.
Definition with_output (o : option nat) (n : channel) : channel :=
  {| cn_b := cn_b n; cn_in := cn_in n; cn_wire := cn_wire n; cn_out := o; cn_undo := cn_undo n |}.
Definition with_backend (b : ChannelEmbedBackend) (undo : option nat) (n : channel) : channel :=
  {| cn_b := b; cn_in := cn_in n; cn_wire := cn_wire n; cn_out := cn_out n; cn_undo := undo |}.
Definition close_remote (n : channel) : channel :=
  let '(u, b) := CloseRemote_begin (cn_b n) in with_backend b (match u with Some x => Some x | None => cn_undo n end) n.

Definition channel_opens (pluginID : bytes) (hasEmbedCap : bool) (purpose parentSessionID hint : bytes) w : world L :=
  match Authorize (w_registry w) purpose parentSessionID hint (NewChannelEmbedBackend pluginID hasEmbedCap) with
  | Ok b => next (set_chan (w_next w) {| cn_b := b; cn_in := IIdle; cn_wire := WNew; cn_out := None; cn_undo := None |} w)
  | Err _ => w
  end.
Definition channel_wires (ch : nat) w : option (world L) :=
  n ← w_chans w !! ch;
  if cn_wire n is WNew then
    Some (set_chan ch (match Wire_begin (cn_b n) with Ok _ => with_inbound IRecv (with_wiring WStarted n) | Err _ => with_wiring WReturned n end) w)
  else None.
Definition channel_subscribes (ch : nat) w : option (world L) :=
  n ← w_chans w !! ch;
  if cn_wire n is WStarted then
    let '(sub, s) := SubscribeOutbound (cb_parentSessionID (cn_b n)) (cb_tunnelID (cn_b n)) (w_svc w) in
    Some (set_chan ch (with_wiring (WSubscribed sub) n) (set_svc s w))
  else None.
Definition channel_returns (ch : nat) w : option (world L) :=
  n ← w_chans w !! ch;
  if cn_wire n is WSubscribed sub then
    Some (set_chan ch (with_output sub (with_wiring WReturned (with_backend (Wire_subscribed sub (cn_b n)) (cn_undo n) n))) w)
  else None.
Definition channel_receives (ch : nat) (data : bytes) w : option (world L) :=
  n ← w_chans w !! ch;
  if cn_in n is IRecv then
    Some (next (set_chan ch (with_inbound (IHand {| fr_id := w_next w; fr_plugin := cb_pluginID (cn_b n); fr_session := cb_parentSessionID (cn_b n);
      fr_tunnel := cb_tunnelID (cn_b n); fr_chan := Some ch; fr_data := data |}) n) w))
  else None.
(** A refusal that is not waited on ends the pump and detaches. *)
Definition channel_refused (e : eerr) (f : frame) (n : channel) : channel :=
  match error_wait e with WaitNever => close_remote (with_inbound IEnded n) | _ => with_inbound (IHand f) n end.
Definition channel_offers (ch : nat) (now : Z) w : option (world L) :=
  n ← w_chans w !! ch;
  if cn_in n is IHand f then
    let '(r, s) := RouteTunnelFrameFromPlugin_begin now (fr_session f) (fr_tunnel f) (fr_data f) (w_svc w) in
    Some (set_chan ch (match r with Ok c => with_inbound (ISend f c) n | Err e => channel_refused e f n end) (set_svc s w))
  else None.
Definition channel_sends (ch : nat) w : option (world L) :=
  n ← w_chans w !! ch;
  if cn_in n is ISend f c then
    let '(r, s) := RouteTunnelFrameFromPlugin_send c f (w_svc w) in
    Some (set_chan ch (match r with Ok _ => with_inbound IRecv n | Err e => channel_refused e f n end) (set_svc s w))
  else None.
(** The ceiling is used up, or the context ended. *)
Definition channel_gives_up (ch : nat) w : option (world L) :=
  n ← w_chans w !! ch;
  if cn_in n is IHand _ then Some (set_chan ch (close_remote (with_inbound IEnded n)) w) else None.
Definition channel_ends (ch : nat) w : option (world L) :=
  n ← w_chans w !! ch;
  if cn_in n is IRecv then Some (set_chan ch (close_remote (with_inbound IEnded n)) w) else None.
Definition channel_closes (ch : nat) w : option (world L) := n ← w_chans w !! ch; Some (set_chan ch (close_remote n) w).
Definition channel_undoes (ch : nat) w : option (world L) :=
  n ← w_chans w !! ch;
  sub ← cn_undo n;
  Some (set_chan ch (with_backend (cn_b n) None n) (set_svc (unsubscribe (cb_parentSessionID (cn_b n)) (cb_tunnelID (cn_b n)) sub (w_svc w)) w)).
Definition outbound_ends (ch : nat) w : option (world L) := n ← w_chans w !! ch; Some (set_chan ch (with_output None n) w).

(** ** Steps

    Calls come from installed plugins, whose ids are not empty; a session is run once, by one plugin, and an id that was drawn is not
    drawn again. *)

Definition step w (e : event) : option (world L) :=
  match e with
  | OpenSession sid protocol =>
      if bool_decide (sid ∈ w_opened w) then None else
      Some (set_registry (<[sid := newSessionEntry protocol]> (w_registry w)) (set_drawn (w_owner w) ({[sid]} ∪ w_opened w) (w_minted w) w))
  | RunSession sid plugin =>
      if bool_decide (w_owner w !! sid = None) && bool_decide (is_Some (w_registry w !! sid)) && negb (bool_decide (plugin = [])) then
        Some (set_registry (run_session sid plugin (w_registry w)) (set_drawn (<[sid := plugin]> (w_owner w)) (w_opened w) (w_minted w) w))
      else None
  | CloseSession sid =>
      match w_registry w !! sid with Some _ => Some (add_call (TRevoke sid) (set_registry (delete sid (w_registry w)) w)) | None => Some w end
  | TabActive sid active => Some (set_svc (SetSessionActive sid active (w_svc w)) w)
  | PluginRegisters now plugin sid ui tids =>
      if bool_decide (plugin = []) then None else
      match HandlePluginRegisterEmbed_begin manifests (w_registry w) now plugin sid ui tids with
      | Ok reg => Some (add_call (TRegister reg) w)
      | Err _ => Some w
      end
  | PluginCalls plugin sid tid kind => if bool_decide (plugin = []) then None else plugin_call plugin sid tid kind w
  | Proceeds t now random => proceed t now random w
  | Attaches now token tid => Some (attach now token tid w)
  | SocketWrites c => socket_writes c w
  | WriterEnds c => k ← w_socks w !! c; Some (set_sock c (with_out false (sk_wire k) k) w)
  | PumpChecks c => pump_checks c w
  | BrowserSends c data => browser_sends c data w
  | ReaderEnds c => k ← w_socks w !! c; if sk_in k is PRead then Some (set_sock c (with_in PGone k) w) else None
  | SubTakes c ch => sub_takes c ch w
  | SubStopped c => sub_stopped c w
  | InputCancelled c => input_cancelled c w
  | InputNotifies c => input_notifies c w
  | ChannelOpens plugin cap purpose parent hint => Some (channel_opens plugin cap purpose parent hint w)
  | ChannelWires ch => channel_wires ch w
  | ChannelSubscribes ch => channel_subscribes ch w
  | ChannelReturns ch => channel_returns ch w
  | ChannelReceives ch data => channel_receives ch data w
  | ChannelOffers ch now => channel_offers ch now w
  | ChannelSends ch => channel_sends ch w
  | ChannelGivesUp ch => channel_gives_up ch w
  | ChannelEnds ch => channel_ends ch w
  | ChannelCloses ch => channel_closes ch w
  | ChannelUndoes ch => channel_undoes ch w
  | OutboundEnds ch => outbound_ends ch w
  end.
Fixpoint run w (es : list event) : option (world L) :=
  match es with [] => Some w | e :: es' => w' ← step w e; run w' es' end.
End World.
