(* ===== verification/EmbedLaws.v ===== *)
(** * EmbedLaws: frames and input stay with the plugin, the session and the tunnel they are for

    Invariants of the machine of [EmbedWorld], and what follows from them. *)

From S2P Require Import Prelude Bytes GoText EmbedTunnel EmbedWorld.

(** ** The service *)

Section ServiceLaws.
Context {L : Type} `{RateBucket L}.
Implicit Types (s : EmbedTunnelService L) (e : embedEntry L).

(** What never changes of an entry. *)
Definition ids (e : embedEntry L) : bytes * bytes * bytes := (er_Token (en_reg e), er_SessionID (en_reg e), er_PluginID (en_reg e)).

Record svc_inv (owner : gmap bytes bytes) (minted : gset bytes) s : Prop := {
  si_tok : ∀ S t, et_sessionToken s !! S = Some t → ∃ a e, et_entries s !! t = Some a ∧ et_entry s !! a = Some e ∧ er_SessionID (en_reg e) = S;
  si_ent : ∀ t a, et_entries s !! t = Some a → ∃ e, et_entry s !! a = Some e ∧ er_Token (en_reg e) = t ∧ et_sessionToken s !! er_SessionID (en_reg e) = Some t ∧ er_Revoked (en_reg e) = false;
  si_own : ∀ a e, et_entry s !! a = Some e → owner !! er_SessionID (en_reg e) = Some (er_PluginID (en_reg e)) ∧ er_Token (en_reg e) ∈ minted;
  si_next : ∀ a, (et_next s ≤ a)%nat → et_entry s !! a = None ∧ et_conn s !! a = None ∧ et_sub s !! a = None;
  si_live : ∀ t a e tid c, et_entries s !! t = Some a → et_entry s !! a = Some e → en_wsConns e !! tid = Some c → ∃ k, et_conn s !! c = Some k ∧ ws_done k = false;
  si_inj : ∀ a1 e1 t1 a2 e2 t2 c, et_entry s !! a1 = Some e1 → et_entry s !! a2 = Some e2 → en_wsConns e1 !! t1 = Some c → en_wsConns e2 !! t2 = Some c → a1 = a2 ∧ t1 = t2;
  si_conn : ∀ a e tid c, et_entry s !! a = Some e → en_wsConns e !! tid = Some c → is_Some (et_conn s !! c);
  si_depth : ∀ c k, et_conn s !! c = Some k → (length (ws_send k) ≤ embedWSSendQueueDepth)%nat;
  si_tunnels : ∀ a e, et_entry s !! a = Some e → er_TunnelIDs (en_reg e) ≠ [] ∧ len (er_TunnelIDs (en_reg e)) ≤ MaxTunnelsPerSession
    ∧ (∀ tid, is_Some (en_tunnelOpen e !! tid) → tid ∈ er_TunnelIDs (en_reg e)) ∧ (∀ tid, is_Some (en_wsConns e !! tid) → tid ∈ er_TunnelIDs (en_reg e));
  si_panic : et_panicked s = false;
}.

Lemma svc_inv_new owner minted notify url : svc_inv owner minted (NewEmbedTunnelService notify url).
Proof. split; cbn; intros; rewrite ?lookup_empty in *; done. Qed.

Lemma svc_inv_grow owner minted owner' minted' s : owner ⊆ owner' → minted ⊆ minted' → svc_inv owner minted s → svc_inv owner' minted' s.
Proof. intros Ho Hm [? ? Hown ? ? ? ? ? ? ?]. split; try done. intros a e [Hs Ht]%Hown. split; [by eapply lookup_weaken|set_solver]. Qed.

Lemma entry_of_Some s token a e : entry_of s token = Some (a, e) ↔ et_entries s !! token = Some a ∧ et_entry s !! a = Some e.
Proof.
  unfold entry_of. destruct (et_entries s !! token) as [a'|]; cbn; [|naive_solver]. destruct (et_entry s !! a') eqn:Ee; cbn; naive_solver.
Qed.
Lemma entryForSession_Ok s S a e : entryForSession s S = Ok (a, e) →
  ∃ t, et_sessionToken s !! S = Some t ∧ et_entries s !! t = Some a ∧ et_entry s !! a = Some e ∧ er_Revoked (en_reg e) = false.
Proof.
  unfold entryForSession. destruct (et_sessionToken s !! S) as [t|]; [|done]. destruct (entry_of s t) as [[a' e']|] eqn:Ee; [|done].
  apply entry_of_Some in Ee as [??]. destruct (er_Revoked _) eqn:Er; [done|]. intros [= <- <-]. by exists t.
Qed.
Lemma live_entry_Some now token s a e : live_entry now token s = Some (a, e) →
  et_entries s !! token = Some a ∧ et_entry s !! a = Some e ∧ er_Revoked (en_reg e) = false ∧ now ≤ er_ExpiresAt (en_reg e).
Proof.
  unfold live_entry. destruct (entry_of s token) as [[a' e']|] eqn:Ee; [|done]. apply entry_of_Some in Ee as [??].
  destruct (er_Revoked _) eqn:Er; [done|]. cbn. destruct (Z.ltb_spec (er_ExpiresAt (en_reg e')) now); [done|]. intros [= <- <-]. done.
Qed.
(** The entry of a session is registered for it. *)
Lemma entryForSession_session owner minted s S a e : svc_inv owner minted s → entryForSession s S = Ok (a, e) →
  et_entry s !! a = Some e ∧ er_SessionID (en_reg e) = S ∧ et_entries s !! er_Token (en_reg e) = Some a.
Proof.
  intros Hi (t & Ht & Ha & He & _)%entryForSession_Ok. destruct (si_tok _ _ _ Hi _ _ Ht) as (a' & e' & Ha' & He' & HS). simplify_eq.
  destruct (si_ent _ _ _ Hi _ _ Ha) as (e'' & He'' & <- & _). simplify_eq. done.
Qed.

(** Changing an entry in place, without new sockets; only an entry that no token leads to may be revoked. *)
Lemma set_entry_inv owner minted s a e e' : svc_inv owner minted s → et_entry s !! a = Some e → ids e' = ids e →
  er_TunnelIDs (en_reg e') = er_TunnelIDs (en_reg e) → er_Revoked (en_reg e') = er_Revoked (en_reg e) ∨ (∀ t, et_entries s !! t ≠ Some a) →
  (∀ tid, is_Some (en_tunnelOpen e' !! tid) → is_Some (en_tunnelOpen e !! tid)) → en_wsConns e' ⊆ en_wsConns e → svc_inv owner minted (set_entry a e' s).
Proof.
  intros [Htok Hent Hown Hnext Hlive Hinj Hconn Hdepth Htun Hpan] He [= Hr1 Hr2 Hr3] Hr4 Hr Ho Hw.
  assert (∀ b x, <[a:=e']> (et_entry s) !! b = Some x → ∃ y, et_entry s !! b = Some y ∧ ids x = ids y ∧ en_wsConns x ⊆ en_wsConns y) as Hold.
  { intros b x. destruct (decide (b = a)) as [->|].
    - rewrite lookup_insert_eq. intros [= <-]. exists e. unfold ids. by rewrite Hr1, Hr2, Hr3.
    - rewrite lookup_insert_ne by done. eauto. }
  split; cbn; try done.
  - intros S t (b & y & Hb & Hy & HS)%Htok. destruct (decide (b = a)) as [->|]; [|exists b, y; by rewrite lookup_insert_ne].
    exists a, e'. rewrite lookup_insert_eq. simplify_eq. done.
  - intros t b Hb. destruct (Hent _ _ Hb) as (y & Hy & Hy1 & Hy2 & Hy3). destruct (decide (b = a)) as [->|]; [|exists y; by rewrite lookup_insert_ne].
    exists e'. rewrite lookup_insert_eq. simplify_eq. rewrite Hr1, Hr2. split_and!; [done..|]. destruct Hr as [->|Hr]; [done|]. by apply Hr in Hb.
  - intros b x (y & Hy & [= -> -> ->] & _)%Hold. by eapply Hown.
  - intros b Hb. rewrite lookup_insert_ne; [by apply Hnext|]. intros ->. apply Hnext in Hb as [Hb _]. congruence.
  - intros t b x tid c Hb (y & Hy & _ & Hsub)%Hold Hc. eapply Hlive; [done..|]. by eapply lookup_weaken.
  - intros a1 e1 t1 a2 e2 t2 c (y1 & Hy1 & _ & Hs1)%Hold (y2 & Hy2 & _ & Hs2)%Hold Hc1 Hc2. eapply Hinj; [done|done|by eapply lookup_weaken..].
  - intros b x tid c (y & Hy & _ & Hsub)%Hold Hc. eapply Hconn; [done|]. by eapply lookup_weaken.
  - intros b x. destruct (decide (b = a)) as [->|]; [|rewrite lookup_insert_ne by done; apply Htun].
    rewrite lookup_insert_eq. intros [= <-]. destruct (Htun _ _ He) as (Ht1 & Ht2 & Ht3 & Ht4). rewrite Hr4. split_and!; [done|done|by intros tid ?%Ho%Ht3|].
    intros tid [c Hc]. apply Ht4. exists c. by eapply lookup_weaken.
Qed.

(** Changing sockets in place; those of live entries stay open. *)
Definition set_conns (m : gmap nat embedWSConn) s : EmbedTunnelService L :=
  {| et_entries := et_entries s; et_sessionToken := et_sessionToken s; et_sessionActive := et_sessionActive s; et_outbound := et_outbound s;
     et_notify := et_notify s; et_baseURL := et_baseURL s; et_entry := et_entry s; et_conn := m; et_sub := et_sub s;
     et_next := et_next s; et_panicked := et_panicked s |}.
Lemma set_conns_inv owner minted s m : svc_inv owner minted s → (∀ c, is_Some (m !! c) ↔ is_Some (et_conn s !! c)) →
  (∀ c k, m !! c = Some k → (length (ws_send k) ≤ embedWSSendQueueDepth)%nat) →
  (∀ t a e tid c k, et_entries s !! t = Some a → et_entry s !! a = Some e → en_wsConns e !! tid = Some c → m !! c = Some k → ws_done k = false) →
  svc_inv owner minted (set_conns m s).
Proof.
  intros [Htok Hent Hown Hnext Hlive Hinj Hconn Hdepth Htun Hpan] Hd Hl Ho. split; cbn; try done.
  - intros a Ha. destruct (Hnext a Ha) as (? & Hc & ?). split_and!; [done| |done]. apply eq_None_not_Some. rewrite Hd, Hc. by intros [].
  - intros t a e tid c Ht Ha Hc. destruct (Hlive _ _ _ _ _ Ht Ha Hc) as (k & Hk & _). destruct (proj2 (Hd c)) as [k' Hk']; eauto.
  - intros a e tid c Ha Hc. apply Hd. eauto.
Qed.
Lemma set_conn_inv owner minted s c k k' : svc_inv owner minted s → et_conn s !! c = Some k → (length (ws_send k') ≤ embedWSSendQueueDepth)%nat →
  (ws_done k' = false ∨ ∀ t a e tid, et_entries s !! t = Some a → et_entry s !! a = Some e → en_wsConns e !! tid ≠ Some c) → svc_inv owner minted (set_conn c k' s).
Proof.
  intros Hi Hk Hl Ho. apply (set_conns_inv _ _ s (<[c:=k']> (et_conn s)) Hi).
  - intros c'. destruct (decide (c' = c)) as [->|]; [rewrite lookup_insert_eq, Hk|rewrite lookup_insert_ne by done]; done.
  - intros c' x. destruct (decide (c' = c)) as [->|]; [rewrite lookup_insert_eq; intros [= <-]; done|rewrite lookup_insert_ne by done; apply Hi].
  - intros t a e tid c' x Ht Ha Hc. destruct (decide (c' = c)) as [->|]; [rewrite lookup_insert_eq; intros [= <-]; destruct Ho as [|Ho]; [done|by destruct (Ho _ _ _ _ Ht Ha Hc)]|].
    rewrite lookup_insert_ne by done. destruct (si_live _ _ _ Hi _ _ _ _ _ Ht Ha Hc) as (y & ? & ?). congruence.
Qed.

(** Closing sockets that are open and distinct. *)
Definition closed (k : embedWSConn) : embedWSConn := {| ws_send := ws_send k; ws_done := true |}.
Lemma close_done_open c k s : et_conn s !! c = Some k → ws_done k = false → close_done c s = set_conns (<[c := closed k]> (et_conn s)) s.
Proof. intros Hk Hd. unfold close_done. by rewrite Hk, Hd. Qed.
Lemma close_all_open cs s : NoDup cs → (∀ c, c ∈ cs → ∃ k, et_conn s !! c = Some k ∧ ws_done k = false) →
  ∃ m, foldr close_done s cs = set_conns m s ∧ (∀ c, m !! c = if decide (c ∈ cs) then closed <$> et_conn s !! c else et_conn s !! c).
Proof.
  induction 1 as [|c cs Hc Hn IH]; intros Ho; cbn.
  - exists (et_conn s). split; [by destruct s|]. intros c. rewrite decide_False; [done|set_solver].
  - destruct IH as (m & -> & Hm); [intros c' ?; apply Ho; set_solver|]. destruct (Ho c) as (k & Hk & Hd); [set_solver|].
    exists (<[c := closed k]> m). split.
    + apply (close_done_open c k (set_conns m s)); [|done]. cbn. rewrite Hm, decide_False by done. done.
    + intros c'. destruct (decide (c' = c)) as [->|]; [rewrite lookup_insert_eq, decide_True by set_solver; by rewrite Hk|].
      rewrite lookup_insert_ne, Hm by done. destruct (decide (c' ∈ cs)); [rewrite decide_True|rewrite decide_False]; set_solver.
Qed.

(** *** Each operation keeps the invariant *)

Lemma opened_tunnels (l : list bytes) (m : gmap bytes bool) tid : is_Some (foldl (λ m id, <[id := true]> m) m l !! tid) → tid ∈ l ∨ is_Some (m !! tid).
Proof.
  revert m. induction l as [|x l IH]; intros m; cbn; [auto|]. intros [?|Hm]%IH; [set_solver|]. destruct (decide (x = tid)) as [->|]; [set_solver|].
  rewrite lookup_insert_ne in Hm by done. auto.
Qed.
Lemma embed_Register_inv owner minted s now random reg r s' : svc_inv owner minted s → owner !! er_SessionID reg = Some (er_PluginID reg) → er_Revoked reg = false →
  (∀ buf, random = Some buf → hex_encode buf ∉ minted) → Register now random reg s = (r, s') →
  svc_inv owner (match random with Some buf => {[hex_encode buf]} | None => ∅ end ∪ minted) s'.
Proof.
  intros Hi Hown Hrev Hfr. unfold Register.
  destruct (_ || _); [intros [= _ <-]; eapply svc_inv_grow; [done| |done]; set_solver|].
  destruct (Z.ltb_spec MaxTunnelsPerSession (len (er_TunnelIDs (default_tunnels reg)))) as [|Hlen]; [intros [= _ <-]; eapply svc_inv_grow; [done| |done]; set_solver|].
  destruct random as [buf|]; cbn [mintEmbedToken]; [|intros [= _ <-]; eapply svc_inv_grow; [done| |done]; set_solver].
  specialize (Hfr buf eq_refl). set (token := hex_encode buf) in *.
  set (rg := with_token now token (default_tunnels reg)). cbv zeta. fold rg.
  assert (er_TunnelIDs rg ≠ []) as Hne by (cbn; case_bool_decide; done).
  assert (er_SessionID rg = er_SessionID reg) as HS by done. rewrite HS.
  set (e := {| en_reg := rg; en_tunnelOpen := _; en_limiter := _; en_wsConns := ∅; en_active := _ |}).
  assert (er_TunnelIDs (en_reg e) ≠ [] ∧ len (er_TunnelIDs (en_reg e)) ≤ MaxTunnelsPerSession) as [Hne' Hlen'] by done.
  assert (∀ tid, is_Some (en_tunnelOpen e !! tid) → tid ∈ er_TunnelIDs (en_reg e)) as Hopen.
  { intros tid [Hin|He]%opened_tunnels; [exact Hin|]. rewrite lookup_empty in He. by destruct He. }
  destruct (er_TunnelIDs rg) as [|mainTunnel rest] eqn:Et; [done|]. intros [= _ <-]. clear Et.
  destruct Hi as [Htok Hent Hown' Hnext Hlive Hinj Hconn Hdepth Htun Hpan].
  assert (∀ tid, en_wsConns e !! tid = None) as He0 by (intros; apply lookup_empty).
  set (entries := match et_sessionToken s !! er_SessionID reg with Some oldToken => delete oldToken (et_entries s) | None => et_entries s end).
  assert (et_entries s !! token = None) as Hnt. { apply eq_None_not_Some. intros [a Ha]. apply Hent in Ha as (y & Hy & Ht & _). apply Hown' in Hy as [_ Hy]. congruence. }
  assert (∀ t a, entries !! t = Some a ↔ et_entries s !! t = Some a ∧ et_sessionToken s !! er_SessionID reg ≠ Some t) as Hentries.
  { intros t a. subst entries. destruct (et_sessionToken s !! er_SessionID reg) as [old|] eqn:Eo; [|naive_solver].
    rewrite lookup_delete_Some. naive_solver. }
  assert (∀ a, et_entry s !! a ≠ None → a ≠ et_next s) as Hold. { intros a Ha ->. apply Ha. by apply Hnext. }
  assert (∀ a x, <[et_next s := e]> (et_entry s) !! a = Some x → a = et_next s ∧ x = e ∨ a ≠ et_next s ∧ et_entry s !! a = Some x) as Hcase.
  { intros a x. destruct (decide (a = et_next s)) as [->|]; [rewrite lookup_insert_eq; naive_solver|rewrite lookup_insert_ne by done; naive_solver]. }
  split; cbn; fold e; fold entries; try done.
  - intros S t. destruct (decide (S = er_SessionID reg)) as [->|HneS].
    + rewrite lookup_insert_eq. intros [= <-]. exists (et_next s), e. by rewrite !lookup_insert_eq.
    + rewrite lookup_insert_ne by done. intros Ht. destruct (Htok _ _ Ht) as (a & x & Ha & Hx & HSx). exists a, x.
      assert (t ≠ token) by (intros ->; congruence). assert (a ≠ et_next s) by (apply Hold; congruence). rewrite !lookup_insert_ne by done. split_and!; [|done..].
      apply Hentries. split; [done|]. intros Ho. destruct (Htok _ _ Ho) as (a' & x' & Ha' & Hx' & HSx'). by simplify_eq.
  - intros t a. destruct (decide (t = token)) as [->|Hnt'].
    + rewrite lookup_insert_eq. intros [= <-]. exists e. rewrite !lookup_insert_eq. done.
    + rewrite lookup_insert_ne by done. intros [Ha Ho]%Hentries. destruct (Hent _ _ Ha) as (x & Hx & Hxt & HxS & Hxr). exists x.
      assert (a ≠ et_next s) by (apply Hold; congruence). rewrite lookup_insert_ne by done. split_and!; [done..| |done].
      rewrite lookup_insert_ne; [done|]. intros Heq. rewrite Heq in Ho. congruence.
  - intros a x [[_ ->]|[_ Hx]]%Hcase; [split; [done|set_solver]|]. destruct (Hown' _ _ Hx). split; [done|set_solver].
  - intros a Ha. rewrite lookup_insert_ne by lia. apply Hnext. lia.
  - intros t a x tid c Ht [[-> ->]|[Hna Hx]]%Hcase; [by rewrite He0|]. destruct (decide (t = token)) as [->|]; [rewrite lookup_insert_eq in Ht; congruence|].
    rewrite lookup_insert_ne in Ht by done. apply Hentries in Ht as [Ht _]. by eapply Hlive.
  - intros a1 e1 t1 a2 e2 t2 c [[_ ->]|[_ Hx1]]%Hcase [[_ ->]|[_ Hx2]]%Hcase; try by rewrite He0. by apply Hinj.
  - intros a x tid c [[_ ->]|[_ Hx]]%Hcase; [by rewrite He0|by eapply Hconn].
  - intros a x [[_ ->]|[_ Hx]]%Hcase; [|by eapply Htun]. split_and!; [done|done|done|by intros tid; rewrite He0; intros []].
Qed.

Lemma RevokeBySession_inv owner minted s S : svc_inv owner minted s → svc_inv owner minted (RevokeBySession S s).
Proof.
  intros Hi. unfold RevokeBySession. destruct (et_sessionToken s !! S) as [t|] eqn:Et; [|done].
  destruct (si_tok _ _ _ Hi _ _ Et) as (a & e & Ha & He & HS). rewrite (proj2 (entry_of_Some _ _ _ _) (conj Ha He)).
  set (e' := with_reg (revoke_registration (en_reg e)) e).
  destruct (close_all_open (map_to_list (en_wsConns e)).*2 (set_entry a e' s)) as (m & -> & Hm).
  - apply NoDup_fmap_2_strong; [|apply NoDup_map_to_list]. intros [t1 c1] [t2 c2] H1%elem_of_map_to_list H2%elem_of_map_to_list Hc. cbn in Hc. subst c2.
    destruct (si_inj _ _ _ Hi _ _ _ _ _ _ _ He He H1 H2) as [_ ->]. done.
  - intros c ([tid c'] & -> & Hc%elem_of_map_to_list)%list_elem_of_fmap. cbn. by eapply (si_live _ _ _ Hi).
  - change (svc_inv owner minted (set_conns m (set_entry a e' (set_tables (delete t (et_entries s)) (delete S (et_sessionToken s)) (delete S (et_sessionActive s)) s)))).
    set (s1 := set_tables _ _ _ s).
    assert (svc_inv owner minted s1) as Hi1.
    { destruct Hi as [Htok Hent Hown Hnext Hlive Hinj Hconn Hdepth Htun Hpan]. split; cbn; try done.
      - intros S' t' [Hne Ht']%lookup_delete_Some. destruct (Htok _ _ Ht') as (a' & x & Ha' & Hx & HSx). exists a', x. split_and!; [|done..].
        apply lookup_delete_Some. split; [intros <-; simplify_eq|done].
      - intros t' a' [Hne Ha']%lookup_delete_Some. destruct (Hent _ _ Ha') as (x & Hx & Hxt & HxS & Hxr). exists x. split_and!; [done..| |done].
        apply lookup_delete_Some. split; [intros Hx'; rewrite <-Hx' in HxS; congruence|done].
      - intros t' a' x tid c [_ ?]%lookup_delete_Some. by eapply Hlive. }
    assert (∀ t', et_entries s1 !! t' ≠ Some a) as Hdead.
    { intros t' Ha'. cbn in Ha'. apply lookup_delete_Some in Ha' as [Hne Ha']. destruct (si_ent _ _ _ Hi _ _ Ha) as (x & Hx & Hxt & _). destruct (si_ent _ _ _ Hi _ _ Ha') as (y & Hy & Hyt & _). congruence. }
    apply set_conns_inv.
    + apply set_entry_inv with e; auto.
    + intros c. rewrite Hm. cbn. case_decide; [apply fmap_is_Some|done].
    + intros c k. rewrite Hm. cbn. case_decide; [|apply Hi]. intros (k' & Hk' & ->)%fmap_Some. cbn. by eapply Hi.
    + cbn. intros t' a' x tid c k Ht' Hx Hc. assert (a' ≠ a) by (intros ->; by apply Hdead in Ht'). rewrite lookup_insert_ne in Hx by done. rewrite Hm. cbn. rewrite decide_False.
      * intros Hk. destruct (si_live _ _ _ Hi1 _ _ _ _ _ Ht' Hx Hc) as (k' & Hk' & ?). cbn in Hk'. congruence.
      * intros ([tid' c'] & -> & Hc'%elem_of_map_to_list)%list_elem_of_fmap. cbn in Hc. destruct (si_inj _ _ _ Hi _ _ _ _ _ _ _ He Hx Hc' Hc). congruence.
Qed.

(** The ways an operation changes an entry, as instances of [set_entry_inv]. *)
Lemma with_tunnels_inv owner minted s a e open conns active : svc_inv owner minted s → et_entry s !! a = Some e →
  (∀ tid, is_Some (open !! tid) → is_Some (en_tunnelOpen e !! tid)) → conns ⊆ en_wsConns e → svc_inv owner minted (set_entry a (with_tunnels open conns active e) s).
Proof. intros Hi He Ho Hc. apply set_entry_inv with e; auto. Qed.
Lemma insert_open (m : gmap bytes bool) (tid0 : bytes) b v tid : m !! tid0 = Some v → is_Some (<[tid0 := b]> m !! tid) → is_Some (m !! tid).
Proof. intros Hm. destruct (decide (tid = tid0)) as [->|]; [rewrite Hm; eauto|by rewrite lookup_insert_ne]. Qed.

Lemma OpenTunnel_inv owner minted s S tid : svc_inv owner minted s → svc_inv owner minted (OpenTunnel S tid s).2.
Proof.
  intros Hi. unfold OpenTunnel. destruct (entryForSession s S) as [[a e]|] eqn:Ee; [|done]. destruct (en_tunnelOpen e !! tid) eqn:Et; [|done].
  eapply entryForSession_session in Ee as (He & _); [|done]. apply with_tunnels_inv; eauto using insert_open.
Qed.
Lemma mark_open_inv owner minted s S tid : svc_inv owner minted s → svc_inv owner minted (mark_open S tid s).
Proof.
  intros Hi. unfold mark_open. destruct (entryForSession s S) as [[a e]|] eqn:Ee; [|done]. destruct (en_tunnelOpen e !! tid) eqn:Et; [|done].
  eapply entryForSession_session in Ee as (He & _); [|done]. apply with_tunnels_inv; eauto using insert_open.
Qed.
Lemma set_active_inv owner minted s act : svc_inv owner minted s → svc_inv owner minted (set_tables (et_entries s) (et_sessionToken s) act s).
Proof. by intros []. Qed.
Lemma SetSessionActive_inv owner minted s S b : svc_inv owner minted s → svc_inv owner minted (SetSessionActive S b s).
Proof.
  intros Hi. unfold SetSessionActive. apply (set_active_inv _ _ _ (<[S := b]> (et_sessionActive s))) in Hi. revert Hi. set (s1 := set_tables _ _ _ s). intros Hi.
  destruct (et_sessionToken s1 !! S) as [t|]; [|done]. destruct (entry_of s1 t) as [[a e]|] eqn:Ee; [|done].
  apply entry_of_Some in Ee as [_ Ee]. apply with_tunnels_inv; eauto.
Qed.

(** Closing the socket of one tunnel of a live entry: the state before the entry takes its next value. *)
Lemma close_one owner minted s a e tid c : svc_inv owner minted s → et_entries s !! er_Token (en_reg e) = Some a → et_entry s !! a = Some e → en_wsConns e !! tid = Some c →
  ∃ k, et_conn s !! c = Some k ∧ close_done c s = set_conn c (closed k) s
    ∧ svc_inv owner minted (set_entry a (with_tunnels (en_tunnelOpen e) (delete tid (en_wsConns e)) (en_active e) e) (set_conn c (closed k) s)).
Proof.
  intros Hi Ha He Hc. destruct (si_live _ _ _ Hi _ _ _ _ _ Ha He Hc) as (k & Hk & Hd). exists k. split_and!; [done|by apply close_done_open|].
  set (e' := with_tunnels _ _ _ e). change (svc_inv owner minted (set_conn c (closed k) (set_entry a e' s))). eapply set_conn_inv; [|exact Hk|exact (si_depth _ _ _ Hi _ _ Hk)|].
  - apply with_tunnels_inv; eauto. apply delete_subseteq.
  - right. cbn. intros t a' x tid' _ Hx Hc'. destruct (decide (a' = a)) as [->|].
    + rewrite lookup_insert_eq in Hx. simplify_eq. cbn in Hc'. apply lookup_delete_Some in Hc' as [Hne Hc']. by destruct (si_inj _ _ _ Hi _ _ _ _ _ _ _ He He Hc Hc').
    + rewrite lookup_insert_ne in Hx by done. by destruct (si_inj _ _ _ Hi _ _ _ _ _ _ _ He Hx Hc Hc').
Qed.
Lemma set_entry_twice a e e' s : set_entry a e' (set_entry a e s) = set_entry a e' s.
Proof. unfold set_entry. cbn. by rewrite insert_insert_eq. Qed.

Lemma CloseTunnel_inv owner minted s S tid : svc_inv owner minted s → svc_inv owner minted (CloseTunnel S tid s).2.
Proof.
  intros Hi. unfold CloseTunnel. destruct (entryForSession s S) as [[a e]|] eqn:Ee; [|done].
  eapply entryForSession_session in Ee as (He & _ & Ha); [|done]. cbn [snd]. set (open := match en_tunnelOpen e !! tid with Some _ => _ | None => _ end).
  assert (∀ t, is_Some (open !! t) → is_Some (en_tunnelOpen e !! t)) as Ho.
  { subst open. destruct (en_tunnelOpen e !! tid) eqn:Et; eauto using insert_open. }
  destruct (en_wsConns e !! tid) as [c|] eqn:Ec.
  - destruct (close_one _ _ _ _ _ _ _ Hi Ha He Ec) as (k & Hk & -> & Hi'). rewrite <-(set_entry_twice a (with_tunnels (en_tunnelOpen e) (delete tid (en_wsConns e)) (en_active e) e)).
    eapply set_entry_inv; [exact Hi'|apply lookup_insert_eq|auto..].
  - rewrite delete_id by done. apply with_tunnels_inv; auto.
Qed.

(** A new socket. *)
Lemma bump_inv owner minted s : svc_inv owner minted s → svc_inv owner minted (bump s).
Proof. intros []. split; cbn; auto with lia. Qed.
Lemma add_conn_inv owner minted s a e open tid active : svc_inv owner minted s → et_entry s !! a = Some e → en_tunnelOpen e !! tid ≠ None →
  (∀ t, is_Some (open !! t) → is_Some (en_tunnelOpen e !! t)) →
  svc_inv owner minted (set_entry a (with_tunnels open (<[tid := et_next s]> (en_wsConns e)) active e) (set_conn (et_next s) {| ws_send := []; ws_done := false |} (bump s))).
Proof.
  intros [Htok Hent Hown Hnext Hlive Hinj Hconn Hdepth Htun Hpan] He Ht Ho. set (e' := with_tunnels _ _ _ e). set (c := et_next s).
  assert (∀ b x, <[a:=e']> (et_entry s) !! b = Some x → ∃ y, et_entry s !! b = Some y ∧ en_reg x = en_reg y ∧
    ∀ t c', en_wsConns x !! t = Some c' → c' = c ∧ b = a ∧ t = tid ∨ c' ≠ c ∧ en_wsConns y !! t = Some c') as Hold.
  { intros b x. assert (∀ y t c', et_entry s !! b = Some y → en_wsConns y !! t = Some c' → c' ≠ c) as Hne.
    { intros y t c' Hy Hc' ->. apply (Hconn b y) in Hc' as [? Hc']; [|done]. destruct (Hnext c) as (_ & ? & _); [done|congruence]. }
    destruct (decide (b = a)) as [->|].
    - rewrite lookup_insert_eq. intros [= <-]. exists e. split_and!; [done..|]. intros t c'. cbn. destruct (decide (t = tid)) as [->|]; [rewrite lookup_insert_eq; naive_solver|].
      rewrite lookup_insert_ne by done. eauto.
    - rewrite lookup_insert_ne by done. eauto 10. }
  assert (∀ c' k, et_conn s !! c' = Some k → c' ≠ c) as Hcn. { intros c' k Hk ->. destruct (Hnext c) as (_ & ? & _); [done|congruence]. }
  split; cbn; try done.
  - intros S t (b & y & Hb & Hy & HS)%Htok. destruct (decide (b = a)) as [->|]; [exists a, e'; rewrite lookup_insert_eq; by simplify_eq|exists b, y; by rewrite lookup_insert_ne].
  - intros t b (y & Hy & HS)%Hent. destruct (decide (b = a)) as [->|]; [exists e'; rewrite lookup_insert_eq; by simplify_eq|exists y; by rewrite lookup_insert_ne].
  - intros b x (y & Hy & -> & _)%Hold. by eapply Hown.
  - intros b Hb. destruct (Hnext b) as (Hb1 & Hb2 & Hb3); [lia|]. rewrite !lookup_insert_ne; [done|unfold c; lia|]. intros ->. congruence.
  - intros t b x t' c' Hb (y & Hy & _ & Hc)%Hold [[-> _]|[Hne Hc']]%Hc; [rewrite lookup_insert_eq; eauto|]. rewrite lookup_insert_ne by done. by eapply Hlive.
  - intros a1 e1 t1 a2 e2 t2 c' (y1 & Hy1 & _ & Hs1)%Hold (y2 & Hy2 & _ & Hs2)%Hold [(? & ? & ?)|[? Hc1]]%Hs1 [(? & ? & ?)|[? Hc2]]%Hs2; subst; try done. by eapply Hinj.
  - intros b x t c' (y & Hy & _ & Hc)%Hold [[-> _]|[Hne Hc']]%Hc; [rewrite lookup_insert_eq; eauto|]. rewrite lookup_insert_ne by done. by eapply Hconn.
  - intros c' k. destruct (decide (c' = c)) as [->|]; [rewrite lookup_insert_eq; intros [= <-]; cbn; lia|rewrite lookup_insert_ne by done; apply Hdepth].
  - intros b x. destruct (decide (b = a)) as [->|]; [|rewrite lookup_insert_ne by done; apply Htun].
    rewrite lookup_insert_eq. intros [= <-]. destruct (Htun _ _ He) as (Ht1 & Ht2 & Ht3 & Ht4). split_and!; [done|done|by intros t ?%Ho%Ht3|].
    intros t. cbn. destruct (decide (t = tid)) as [->|]; [|rewrite lookup_insert_ne by done; apply Ht4]. intros _. apply Ht3. by destruct (en_tunnelOpen e !! tid).
Qed.
Lemma AttachWebSocket_inv owner minted s now token tid r s' : svc_inv owner minted s → AttachWebSocket now token tid s = (r, s') → svc_inv owner minted s'.
Proof.
  intros Hi. unfold AttachWebSocket. destruct (live_entry now token s) as [[a e]|] eqn:El; [|by intros [= _ <-]].
  destruct (en_tunnelOpen e !! tid) as [v|] eqn:Et; [|by intros [= _ <-]]. apply live_entry_Some in El as (Ha & He & _).
  destruct (si_ent _ _ _ Hi _ _ Ha) as (e1 & He1 & <- & _). simplify_eq. destruct (en_wsConns e !! tid) as [c|] eqn:Ec.
  - destruct (close_one _ _ _ _ _ _ _ Hi Ha He Ec) as (k & Hk & -> & Hi'). intros [= _ <-]. clear r.
    eapply (add_conn_inv _ _ _ a) in Hi'; [|apply lookup_insert_eq|cbn; by rewrite Et|intros t; apply (insert_open _ tid true v t Et)].
    cbn [with_tunnels en_wsConns] in Hi'. rewrite insert_delete_eq in Hi'.
    match type of Hi' with svc_inv _ _ (set_entry a ?e2 _) => rewrite <-(set_entry_twice a (with_tunnels (en_tunnelOpen e) (delete tid (en_wsConns e)) (en_active e) e)) end.
    exact Hi'.
  - intros [= _ <-]. apply add_conn_inv; [done..|by rewrite Et|]. intros t. by apply (insert_open _ tid true v t).
Qed.

Lemma Route_begin_inv owner minted s now S tid data r s' : svc_inv owner minted s → RouteTunnelFrameFromPlugin_begin now S tid data s = (r, s') → svc_inv owner minted s'.
Proof.
  intros Hi. unfold RouteTunnelFrameFromPlugin_begin. destruct (_ <? _); [by intros [= _ <-]|]. destruct (entryForSession s S) as [[a e]|] eqn:Ee; [|by intros [= _ <-]].
  destruct (negb (en_active e)); [by intros [= _ <-]|]. destruct (AllowN now (len data) (en_limiter e)) as [ok l].
  eapply entryForSession_session in Ee as (He & _); [|done]. assert (svc_inv owner minted (set_entry a (with_limiter l e) s)) by (apply set_entry_inv with e; auto).
  destruct (negb ok); [by intros [= _ <-]|]. destruct (en_wsConns e !! tid); by intros [= _ <-].
Qed.
Lemma Route_send_inv owner minted s c f : svc_inv owner minted s → svc_inv owner minted (RouteTunnelFrameFromPlugin_send c f s).2.
Proof.
  intros Hi. unfold RouteTunnelFrameFromPlugin_send. destruct (et_conn s !! c) as [k|] eqn:Ek; [|done]. case_bool_decide as Hl; [|done]. cbn [snd].
  assert (length (ws_send k ++ [f]) ≤ embedWSSendQueueDepth)%nat as Hl' by (rewrite length_app; cbn; lia).
  apply (set_conns_inv _ _ s (<[c:=_]> (et_conn s)) Hi).
  - intros c'. destruct (decide (c' = c)) as [->|]; [rewrite lookup_insert_eq, Ek|rewrite lookup_insert_ne by done]; done.
  - intros c' x. destruct (decide (c' = c)) as [->|]; [rewrite lookup_insert_eq; intros [= <-]; done|rewrite lookup_insert_ne by done; apply Hi].
  - intros t a e tid c' x Ht Ha Hc. destruct (si_live _ _ _ Hi _ _ _ _ _ Ht Ha Hc) as (y & Hy & Hd).
    destruct (decide (c' = c)) as [->|]; [rewrite lookup_insert_eq; intros [= <-]; cbn; congruence|rewrite lookup_insert_ne by done; congruence].
Qed.

Lemma set_outbound_inv owner minted s o subs : svc_inv owner minted s → (∀ a, (et_next s ≤ a)%nat → subs !! a = None) → svc_inv owner minted (set_outbound o subs s).
Proof. intros [? ? ? Hnext] Hs. split; cbn; try done. intros a Ha. destruct (Hnext a Ha) as (? & ? & _). auto. Qed.
Lemma SubscribeOutbound_inv owner minted s S tid : svc_inv owner minted s → (∀ byT sub, et_outbound s !! S = Some byT → byT !! tid = Some sub → (sub < et_next s)%nat) →
  svc_inv owner minted (SubscribeOutbound S tid s).2.
Proof.
  intros Hi Hs. unfold SubscribeOutbound. destruct (_ || _); [done|]. cbn [snd]. apply mark_open_inv, set_outbound_inv; [by apply bump_inv|]. cbn. intros a Ha.
  assert (et_sub s !! a = None) as Hn by (apply Hi; lia). unfold stop_sub. destruct (default ∅ (et_outbound s !! S) !! tid) as [prev|] eqn:Ep.
  - assert (prev < et_next s)%nat. { destruct (et_outbound s !! S) as [byT|] eqn:Eb; [by eapply Hs|]. change ((∅ : gmap bytes nat) !! tid = Some prev) in Ep. by rewrite lookup_empty in Ep. } rewrite !lookup_insert_ne by lia. done.
  - rewrite lookup_insert_ne by lia. done.
Qed.
Lemma unsubscribe_inv owner minted s S tid sub : svc_inv owner minted s → (sub < et_next s)%nat → svc_inv owner minted (unsubscribe S tid sub s).
Proof. intros Hi Hs. apply set_outbound_inv; [done|]. intros a Ha. unfold stop_sub. rewrite lookup_insert_ne by lia. by apply Hi. Qed.

(** *** What operations keep

    All but [Register], [AttachWebSocket], the queueing of a frame and the writing of one: entries keep their ids, no tunnel gets a socket, queues keep their frames. *)

Record svc_keeps s s' : Prop := {
  kp_next : (et_next s ≤ et_next s')%nat;
  kp_ids : ∀ a, ids <$> et_entry s' !! a = ids <$> et_entry s !! a;
  kp_conns : ∀ a e' tid c, et_entry s' !! a = Some e' → en_wsConns e' !! tid = Some c → ∃ e, et_entry s !! a = Some e ∧ en_wsConns e !! tid = Some c;
  kp_send : ∀ c, ws_send <$> et_conn s' !! c = ws_send <$> et_conn s !! c;
}.
#[export] Instance svc_keeps_preorder : PreOrder svc_keeps.
Proof.
  split; [intros s; split; eauto|]. intros s1 s2 s3 [n12 i12 c12 d12] [n23 i23 c23 d23]. split; [lia|congruence| |congruence].
  intros a e tid c Ha Hc. destruct (c23 _ _ _ _ Ha Hc) as (e2 & ? & ?). eauto.
Qed.
Lemma keeps_set_entry s a e e' : et_entry s !! a = Some e → ids e' = ids e → en_wsConns e' ⊆ en_wsConns e → svc_keeps s (set_entry a e' s).
Proof.
  intros He Hi Hw. split; cbn; [lia| | |done].
  - intros b. destruct (decide (b = a)) as [->|]; [rewrite lookup_insert_eq, He; cbn; by rewrite Hi|by rewrite lookup_insert_ne].
  - intros b x tid c. destruct (decide (b = a)) as [->|]; [rewrite lookup_insert_eq; intros [= <-] Hc; exists e; split; [done|by eapply lookup_weaken]|].
    rewrite lookup_insert_ne by done. eauto.
Qed.
Lemma keeps_close_done s c : svc_keeps s (close_done c s).
Proof.
  unfold close_done. destruct (et_conn s !! c) as [k|] eqn:Ek; [|split; cbn; eauto]. destruct (ws_done k); [split; cbn; eauto|].
  split; cbn; eauto. intros c'. destruct (decide (c' = c)) as [->|]; [by rewrite lookup_insert_eq, Ek|by rewrite lookup_insert_ne].
Qed.
Lemma keeps_close_all s cs : svc_keeps s (foldr close_done s cs).
Proof. induction cs as [|c cs IH]; cbn; [done|]. etrans; [exact IH|apply keeps_close_done]. Qed.
Lemma close_done_frame c s : et_entry (close_done c s) = et_entry s ∧ et_next (close_done c s) = et_next s ∧ et_outbound (close_done c s) = et_outbound s
  ∧ et_entries (close_done c s) = et_entries s ∧ et_sessionToken (close_done c s) = et_sessionToken s.
Proof. unfold close_done. destruct (et_conn s !! c) as [k|]; [destruct (ws_done k)|]; done. Qed.
Lemma close_all_frame cs s : et_entry (foldr close_done s cs) = et_entry s ∧ et_outbound (foldr close_done s cs) = et_outbound s.
Proof. induction cs as [|c cs IH]; cbn; [done|]. destruct (close_done_frame c (foldr close_done s cs)) as (-> & _ & -> & _). done. Qed.

Lemma RevokeBySession_keeps s S : svc_keeps s (RevokeBySession S s) ∧ et_outbound (RevokeBySession S s) = et_outbound s.
Proof.
  unfold RevokeBySession. destruct (et_sessionToken s !! S) as [t|]; [|done]. destruct (entry_of s t) as [[a e]|] eqn:Ee; [|split; [split; cbn; eauto|done]].
  apply entry_of_Some in Ee as [_ He]. set (s1 := set_entry a _ s). assert (svc_keeps s (foldr close_done s1 (map_to_list (en_wsConns e)).*2)) as [].
  { etrans; [|apply keeps_close_all]. by apply keeps_set_entry with e. }
  split; [by split|]. cbn. by destruct (close_all_frame (map_to_list (en_wsConns e)).*2 s1) as [_ ->].
Qed.
Lemma OpenTunnel_keeps s S tid : svc_keeps s (OpenTunnel S tid s).2 ∧ et_outbound (OpenTunnel S tid s).2 = et_outbound s.
Proof.
  unfold OpenTunnel. destruct (entryForSession s S) as [[a e]|] eqn:Ee; [|done]. destruct (en_tunnelOpen e !! tid); [|done].
  apply entryForSession_Ok in Ee as (_ & _ & _ & He & _). split; [|done]. by apply keeps_set_entry with e.
Qed.
Lemma mark_open_keeps s S tid : svc_keeps s (mark_open S tid s) ∧ et_outbound (mark_open S tid s) = et_outbound s.
Proof.
  unfold mark_open. destruct (entryForSession s S) as [[a e]|] eqn:Ee; [|done]. destruct (en_tunnelOpen e !! tid); [|done].
  apply entryForSession_Ok in Ee as (_ & _ & _ & He & _). split; [|done]. by apply keeps_set_entry with e.
Qed.
Lemma CloseTunnel_keeps s S tid : svc_keeps s (CloseTunnel S tid s).2 ∧ et_outbound (CloseTunnel S tid s).2 = et_outbound s.
Proof.
  unfold CloseTunnel. destruct (entryForSession s S) as [[a e]|] eqn:Ee; [|done]. apply entryForSession_Ok in Ee as (_ & _ & _ & He & _). cbn [snd].
  destruct (en_wsConns e !! tid) as [c|]; [|split; [|done]; apply keeps_set_entry with e; [done..|apply delete_subseteq]].
  destruct (close_done_frame c s) as (Hf & _ & Ho & _). split; [|done].
  etrans; [apply keeps_close_done|]. apply keeps_set_entry with e; [by rewrite Hf|done|apply delete_subseteq].
Qed.
Lemma SetSessionActive_keeps s S b : svc_keeps s (SetSessionActive S b s) ∧ et_outbound (SetSessionActive S b s) = et_outbound s.
Proof.
  unfold SetSessionActive. set (s1 := set_tables _ _ _ s). assert (svc_keeps s s1) as Hk by (split; cbn; eauto).
  destruct (et_sessionToken s1 !! S) as [t|]; [|done]. destruct (entry_of s1 t) as [[a e]|] eqn:Ee; [|done]. apply entry_of_Some in Ee as [_ He].
  split; [|done]. etrans; [exact Hk|]. by apply keeps_set_entry with e.
Qed.
Lemma Route_begin_keeps now S tid data s r s' : RouteTunnelFrameFromPlugin_begin now S tid data s = (r, s') → svc_keeps s s' ∧ et_outbound s' = et_outbound s.
Proof.
  unfold RouteTunnelFrameFromPlugin_begin. destruct (_ <? _); [by intros [= _ <-]|]. destruct (entryForSession s S) as [[a e]|] eqn:Ee; [|by intros [= _ <-]].
  destruct (negb (en_active e)); [by intros [= _ <-]|]. destruct (AllowN now (len data) (en_limiter e)) as [ok l]. apply entryForSession_Ok in Ee as (_ & _ & _ & He & _).
  assert (svc_keeps s (set_entry a (with_limiter l e) s)) by by apply keeps_set_entry with e.
  destruct (negb ok); [by intros [= _ <-]|]. destruct (en_wsConns e !! tid); by intros [= _ <-].
Qed.
(** The socket a frame is routed to is the one of its session and its tunnel. *)
Lemma Route_begin_socket owner minted now S tid data s c s' : svc_inv owner minted s → RouteTunnelFrameFromPlugin_begin now S tid data s = (Ok c, s') →
  ∃ a e, et_entry s !! a = Some e ∧ er_SessionID (en_reg e) = S ∧ en_wsConns e !! tid = Some c.
Proof.
  intros Hi. unfold RouteTunnelFrameFromPlugin_begin. destruct (_ <? _); [done|]. destruct (entryForSession s S) as [[a e]|] eqn:Ee; [|done].
  destruct (negb (en_active e)); [done|]. destruct (AllowN now (len data) (en_limiter e)) as [ok l]. eapply entryForSession_session in Ee as (He & HS & _); [|done].
  destruct (negb ok); [done|]. destruct (en_wsConns e !! tid) eqn:Ec; [|done]. intros [= <- _]. eauto.
Qed.

Lemma SubscribeOutbound_keeps s S tid : svc_keeps s (SubscribeOutbound S tid s).2.
Proof. unfold SubscribeOutbound. destruct (_ || _); [done|]. cbn [snd]. etrans; [|apply mark_open_keeps]. split; cbn; eauto. Qed.
Lemma unsubscribe_keeps s S tid sub : svc_keeps s (unsubscribe S tid sub s).
Proof. split; cbn; eauto. Qed.

Lemma SubscribeOutbound_lookup s S tid r s' : SubscribeOutbound S tid s = (r, s') →
  (r = None ∧ s' = s) ∨ (r = Some (et_next s) ∧ et_next s' = Datatypes.S (et_next s) ∧
    ∀ S' tid', outboundSubLocked s' S' tid' = if decide (S' = S ∧ tid' = tid) then Some (et_next s) else outboundSubLocked s S' tid').
Proof.
  unfold SubscribeOutbound. destruct (_ || _); [intros [= <- <-]; by left|]. intros [= <- <-]. right. split; [done|]. set (s1 := set_outbound _ _ (bump s)).
  destruct (mark_open_keeps s1 S tid) as [_ Ho]. split.
  - unfold mark_open. destruct (entryForSession s1 S) as [[a e]|]; [|done]. by destruct (en_tunnelOpen e !! tid).
  - intros S' tid'. unfold outboundSubLocked. rewrite Ho. cbn. destruct (decide (S' = S)) as [->|].
    + rewrite lookup_insert_eq. cbn. destruct (decide (tid' = tid)) as [->|]; [rewrite lookup_insert_eq, decide_True; done|].
      rewrite lookup_insert_ne, decide_False by naive_solver. destruct (et_outbound s !! S); [done|]. apply lookup_empty.
    + rewrite lookup_insert_ne, decide_False by naive_solver. done.
Qed.
Lemma unsubscribe_lookup s S tid sub S' tid' sub' : outboundSubLocked (unsubscribe S tid sub s) S' tid' = Some sub' → outboundSubLocked s S' tid' = Some sub'.
Proof.
  unfold outboundSubLocked, unsubscribe. cbn. destruct (et_outbound s !! S) as [byT|] eqn:Eb; [|done]. case_bool_decide; [|done]. case_bool_decide.
  - intros (m & [_ Hm]%lookup_delete_Some & Ht)%bind_Some. by rewrite Hm.
  - destruct (decide (S' = S)) as [->|]; [|by rewrite lookup_insert_ne]. rewrite lookup_insert_eq, Eb. cbn. intros [_ Ht]%lookup_delete_Some. done.
Qed.

Lemma AttachWebSocket_Err now token tid s err s' : AttachWebSocket now token tid s = (Err err, s') → s' = s.
Proof.
  unfold AttachWebSocket. destruct (live_entry now token s) as [[a e]|]; [|by intros [= _ <-]]. destruct (en_tunnelOpen e !! tid); [done|by intros [= _ <-]].
Qed.
(** A socket that is attached is new and empty, and the one of its tunnel from then on. *)
Lemma close_done_conn c c' s x' : et_conn (close_done c s) !! c' = Some x' → ∃ x, et_conn s !! c' = Some x ∧ (ws_done x = true ∨ c' = c → ws_done x' = true).
Proof.
  unfold close_done. destruct (et_conn s !! c) as [k|] eqn:Ek; [destruct (ws_done k) eqn:Ed|]; cbn.
  - intros Hx. exists x'. split; [done|]. intros [?| ->]; [done|congruence].
  - destruct (decide (c' = c)) as [->|]; [rewrite lookup_insert_eq; intros [= <-]; eauto|rewrite lookup_insert_ne by done]. intros Hx. exists x'. naive_solver.
  - intros Hx. exists x'. split; [done|]. intros [?| ->]; [done|congruence].
Qed.
Lemma AttachWebSocket_Ok now token tid s c reg s' : AttachWebSocket now token tid s = (Ok (c, reg), s') →
  ∃ a e e', et_entries s !! token = Some a ∧ et_entry s !! a = Some e ∧ en_reg e = reg ∧ c = et_next s ∧ et_next s' = S (et_next s)
    ∧ et_entry s' = <[a := e']> (et_entry s) ∧ en_reg e' = reg ∧ en_wsConns e' = <[tid := c]> (en_wsConns e)
    ∧ et_conn s' !! c = Some {| ws_send := []; ws_done := false |} ∧ (∀ c', c' ≠ c → ws_send <$> et_conn s' !! c' = ws_send <$> et_conn s !! c')
    ∧ et_outbound s' = et_outbound s ∧ now ≤ er_ExpiresAt reg ∧ et_entries s' = et_entries s
    ∧ (∀ c' x', c' ≠ c → et_conn s' !! c' = Some x' → ∃ x, et_conn s !! c' = Some x ∧ (ws_done x = true ∨ en_wsConns e !! tid = Some c' → ws_done x' = true)).
Proof.
  unfold AttachWebSocket. destruct (live_entry now token s) as [[a e]|] eqn:El; [|done]. destruct (en_tunnelOpen e !! tid); [|done].
  apply live_entry_Some in El as (Ha & He & _ & Hx). set (s1 := match en_wsConns e !! tid with Some old => close_done old s | None => s end).
  assert (et_entry s1 = et_entry s ∧ et_next s1 = et_next s ∧ et_outbound s1 = et_outbound s ∧ et_entries s1 = et_entries s ∧ svc_keeps s s1) as (Hf1 & Hf2 & Hf3 & Hf4 & Hk).
  { subst s1. destruct (en_wsConns e !! tid) as [old|]; [|done]. destruct (close_done_frame old s) as (? & ? & ? & ? & _). split_and!; try done. apply keeps_close_done. }
  assert (∀ c' x', et_conn s1 !! c' = Some x' → ∃ x, et_conn s !! c' = Some x ∧ (ws_done x = true ∨ en_wsConns e !! tid = Some c' → ws_done x' = true)) as Hdn.
  { subst s1. destruct (en_wsConns e !! tid) as [old|]; [|intros c' x' Hx'; exists x'; naive_solver]. intros c' x' Hx'. destruct (close_done_conn _ _ _ _ Hx') as (x & Hx0 & Hd).
    exists x. split; [done|]. intros [?|Hc]; [by auto|]. injection Hc as ->. auto. }
  rewrite Hf2. set (active := default false _). intros [= <- <- <-]. exists a, e, (with_tunnels (<[tid := true]> (en_tunnelOpen e)) (<[tid := et_next s]> (en_wsConns e)) active e).
  cbn. rewrite Hf1, Hf2. split_and!; try done.
  - by rewrite lookup_insert_eq.
  - intros c' Hc. rewrite lookup_insert_ne by done. apply Hk.
  - intros c' x' Hc. rewrite lookup_insert_ne by done. apply Hdn.
Qed.
Lemma Register_effect now random reg s r s' : Register now random reg s = (r, s') → et_outbound s' = et_outbound s ∧ et_conn s' = et_conn s ∧
  (s' = s ∨ ∃ buf e, random = Some buf ∧ et_entry s' = <[et_next s := e]> (et_entry s) ∧ en_wsConns e = ∅ ∧ et_next s' = S (et_next s)
    ∧ er_Token (en_reg e) = hex_encode buf ∧ ∀ t a, et_entries s' !! t = Some a → t = hex_encode buf ∨ et_entries s !! t = Some a).
Proof.
  unfold Register. destruct (_ || _); [intros [= _ <-]; auto|]. destruct (_ <? _); [intros [= _ <-]; auto|]. destruct random as [buf|]; cbn [mintEmbedToken]; [|intros [= _ <-]; auto].
  cbv zeta. set (entries := match _ with Some oldToken => delete oldToken (et_entries s) | None => et_entries s end).
  assert (∀ t a, <[hex_encode buf := et_next s]> entries !! t = Some a → t = hex_encode buf ∨ et_entries s !! t = Some a) as He.
  { intros t a. destruct (decide (t = hex_encode buf)); [by left|]. rewrite lookup_insert_ne by done. subst entries.
    destruct (et_sessionToken s !! _); [intros [_ ?]%lookup_delete_Some|]; by right. }
  destruct (er_TunnelIDs _); intros [= _ <-]; cbn; (split_and!; [done|done|right; eauto 10]).
Qed.
End ServiceLaws.
