(* ===== verification/EmbedInv.v ===== *)
(** * EmbedInv: invariants of the machine of embedding

    Three groups: whose the registrations, sockets, frames and channels are; where the input of a browser goes; where each frame of a plugin is. *)

From S2P Require Import Prelude Bytes GoText EmbedTunnel EmbedWorld EmbedLaws.

Section Inv.
Context {L : Type} `{RateBucket L} (manifests : gmap bytes (list (bytes * bytes))).
Implicit Types (w : world L) (s : EmbedTunnelService L) (e : embedEntry L).

(** ** Ownership *)

(** What a socket is for; this never changes. *)
Definition who (k : socket) : bytes * bytes * bytes * bytes := (sk_token k, sk_plugin k, sk_session k, sk_tunnel k).
Definition sock_for w (c : nat) (f : frame) : Prop := ∃ k, w_socks w !! c = Some k ∧ sk_session k = fr_session f ∧ sk_tunnel k = fr_tunnel f.
Definition frame_ok w (f : frame) : Prop := w_owner w !! fr_session f = Some (fr_plugin f) ∧ (fr_id f < w_next w)%nat.
Definition call_ok w (k : call) : Prop :=
  match k with
  | TRegister reg => w_owner w !! er_SessionID reg = Some (er_PluginID reg) ∧ er_Revoked reg = false
  | TFrame f => frame_ok w f ∧ fr_chan f = None
  | TSend f c => frame_ok w f ∧ fr_chan f = None ∧ sock_for w c f
  | _ => True
  end.
Definition of_channel (ch : nat) (n : channel) (f : frame) : Prop :=
  fr_chan f = Some ch ∧ fr_session f = cb_parentSessionID (cn_b n) ∧ fr_tunnel f = cb_tunnelID (cn_b n).
Definition chan_ok w (ch : nat) (n : channel) : Prop :=
  (ch < w_next w)%nat ∧ w_owner w !! cb_parentSessionID (cn_b n) = Some (cb_pluginID (cn_b n)) ∧
  match cn_in n with
  | IHand f => frame_ok w f ∧ of_channel ch n f
  | ISend f c => frame_ok w f ∧ of_channel ch n f ∧ sock_for w c f
  | _ => True
  end.

Record base_inv w : Prop := {
  bi_svc : svc_inv (w_owner w) (w_minted w) (w_svc w);
  bi_reg : ∀ S x, w_registry w !! S = Some x → se_pluginID x ≠ [] → w_owner w !! S = Some (se_pluginID x);
  bi_sock : ∀ c k, w_socks w !! c = Some k → w_owner w !! sk_session k = Some (sk_plugin k) ∧ is_Some (et_conn (w_svc w) !! c);
  bi_conn : ∀ c, is_Some (et_conn (w_svc w) !! c) → is_Some (w_socks w !! c);
  bi_entry : ∀ a e tid c, et_entry (w_svc w) !! a = Some e → en_wsConns e !! tid = Some c →
    ∃ k, w_socks w !! c = Some k ∧ sk_token k = er_Token (en_reg e) ∧ sk_session k = er_SessionID (en_reg e) ∧ sk_tunnel k = tid;
  bi_call : ∀ t k, w_calls w !! t = Some k → call_ok w k;
  bi_chan : ∀ ch n, w_chans w !! ch = Some n → chan_ok w ch n;
}.

(** What only grows. *)
Record grows w w' : Prop := {
  gr_next : (w_next w ≤ w_next w')%nat;
  gr_owner : w_owner w ⊆ w_owner w';
  gr_socks : ∀ c k, w_socks w !! c = Some k → ∃ k', w_socks w' !! c = Some k' ∧ who k' = who k;
}.
Lemma frame_ok_grows w w' f : grows w w' → frame_ok w f → frame_ok w' f.
Proof. intros [Hn Ho _] [H1 H2]. split; [by eapply lookup_weaken|lia]. Qed.
Lemma sock_for_grows w w' c f : grows w w' → sock_for w c f → sock_for w' c f.
Proof. intros [_ _ Hs] (k & Hk & H1 & H2). apply Hs in Hk as (k' & Hk' & [= _ _ Hs1 Hs2]). exists k'. split_and!; congruence. Qed.
Lemma call_ok_grows w w' k : grows w w' → call_ok w k → call_ok w' k.
Proof.
  intros Hg. destruct k; cbn; try done.
  - intros [??]. split; [|done]. eapply lookup_weaken; [done|apply Hg].
  - intros [? ?]. eauto using frame_ok_grows.
  - intros (? & ? & ?). eauto using frame_ok_grows, sock_for_grows.
Qed.
Lemma chan_ok_grows w w' ch n : grows w w' → chan_ok w ch n → chan_ok w' ch n.
Proof.
  intros Hg (Hc & Ho & Hi). split; [destruct Hg; lia|]. split; [eapply lookup_weaken; [done|apply Hg]|]. destruct (cn_in n); try done.
  - destruct Hi. eauto using frame_ok_grows.
  - destruct Hi as (? & ? & ?). eauto using frame_ok_grows, sock_for_grows.
Qed.
Hint Resolve call_ok_grows chan_ok_grows : core.

(** One lemma for each part of the state that a step writes. *)
Lemma grows_same w w' : w_next w' = w_next w → w_owner w' = w_owner w → w_socks w' = w_socks w → grows w w'.
Proof. intros Hn Ho Hs. split; [lia|by rewrite Ho|]. intros c k Hk. exists k. by rewrite Hs. Qed.
Lemma base_svc w s : base_inv w → svc_inv (w_owner w) (w_minted w) s → (∀ a, ids <$> et_entry s !! a = ids <$> et_entry (w_svc w) !! a) →
  (∀ a e' tid c, et_entry s !! a = Some e' → en_wsConns e' !! tid = Some c → ∃ e, et_entry (w_svc w) !! a = Some e ∧ en_wsConns e !! tid = Some c) →
  (∀ c, is_Some (et_conn s !! c) ↔ is_Some (et_conn (w_svc w) !! c)) → base_inv (set_svc s w).
Proof.
  intros [Hsvc Hreg Hsock Hconn Hent Hcall Hchan] Hs Hids Hcs Hd. assert (grows w (set_svc s w)) by by apply grows_same. split; cbn; eauto.
  - intros c k [Ho Hk]%Hsock. split; [done|by apply Hd].
  - intros c Hc. by apply Hconn, Hd.
  - intros a x tid c Ha Hc. destruct (Hcs _ _ _ _ Ha Hc) as (y & Hy & Hyc). destruct (Hent _ _ _ _ Hy Hyc) as (k & Hk & Hk1 & Hk2 & Hk3). exists k.
    specialize (Hids a). rewrite Ha, Hy in Hids. cbn in Hids. injection Hids as Hi1 Hi2 Hi3. by rewrite Hi1, Hi2.
Qed.
Lemma base_keeps w s : base_inv w → svc_inv (w_owner w) (w_minted w) s → svc_keeps (w_svc w) s → base_inv (set_svc s w).
Proof.
  intros Hb Hs [_ Hids Hcs Hd]. apply base_svc; try done. intros c. specialize (Hd c). destruct (et_conn s !! c), (et_conn (w_svc w) !! c); naive_solver.
Qed.
Lemma base_conn w c k k' : base_inv w → et_conn (w_svc w) !! c = Some k → svc_inv (w_owner w) (w_minted w) (set_conn c k' (w_svc w)) → base_inv (set_svc (set_conn c k' (w_svc w)) w).
Proof.
  intros Hb Hk Hs. apply base_svc; [done..|eauto|]. intros c'. cbn. destruct (decide (c' = c)) as [->|]; [rewrite lookup_insert_eq, Hk|rewrite lookup_insert_ne by done]; done.
Qed.
Lemma base_calls w m : base_inv w → (∀ t k, m !! t = Some k → call_ok w k) → base_inv (set_calls m w).
Proof. intros [Hsvc Hreg Hsock Hconn Hent Hcall Hchan] Hm. assert (grows w (set_calls m w)) by by apply grows_same. split; cbn; eauto. Qed.
Lemma base_set_call w t k : base_inv w → call_ok w k → base_inv (set_call t k w).
Proof.
  intros Hb Hk. apply base_calls; [done|]. intros t' k'. destruct (decide (t' = t)) as [->|]; [rewrite lookup_insert_eq; by intros [= <-]|].
  rewrite lookup_insert_ne by done. apply Hb.
Qed.
Lemma base_end_call w t : base_inv w → base_inv (end_call t w).
Proof. intros Hb. apply base_calls; [done|]. intros t' k' [_ ?]%lookup_delete_Some. by eapply Hb. Qed.
Lemma base_next w : base_inv w → base_inv (next w).
Proof.
  intros [Hsvc Hreg Hsock Hconn Hent Hcall Hchan]. assert (grows w (next w)) by (split; cbn; [lia|done|eauto]). split; cbn; eauto.
Qed.
Lemma base_add_input w i : base_inv w → base_inv (add_input i w).
Proof. intros [Hsvc Hreg Hsock Hconn Hent Hcall Hchan]. assert (grows w (add_input i w)) by by apply grows_same. split; cbn; eauto. Qed.
Lemma base_registry w r : base_inv w → (∀ S x, r !! S = Some x → se_pluginID x ≠ [] → w_owner w !! S = Some (se_pluginID x)) → base_inv (set_registry r w).
Proof. intros [Hsvc Hreg Hsock Hconn Hent Hcall Hchan] Hr. assert (grows w (set_registry r w)) by by apply grows_same. split; cbn; eauto. Qed.
Lemma base_drawn w owner opened minted : base_inv w → w_owner w ⊆ owner → w_minted w ⊆ minted → base_inv (set_drawn owner opened minted w).
Proof.
  intros [Hsvc Hreg Hsock Hconn Hent Hcall Hchan] Ho Hm. assert (grows w (set_drawn owner opened minted w)) by (split; cbn; [lia|done|eauto]). split; cbn; eauto using lookup_weaken.
  - by eapply svc_inv_grow.
  - intros c k [??]%Hsock. eauto using lookup_weaken.
Qed.
Lemma grows_sock w c k k' : w_socks w !! c = Some k → who k' = who k → grows w (set_sock c k' w).
Proof.
  intros Hk Hw. split; cbn; [lia|done|]. intros c' x Hx. destruct (decide (c' = c)) as [->|]; [exists k'; rewrite lookup_insert_eq; split; congruence|exists x; by rewrite lookup_insert_ne].
Qed.
Lemma base_sock w c k k' : base_inv w → w_socks w !! c = Some k → who k' = who k → base_inv (set_sock c k' w).
Proof.
  intros [Hsvc Hreg Hsock Hconn Hent Hcall Hchan] Hk Hw. pose proof (grows_sock w c k k' Hk Hw) as Hg. split; cbn; eauto.
  - intros c' x. destruct (decide (c' = c)) as [->|]; [rewrite lookup_insert_eq; intros [= <-]|rewrite lookup_insert_ne by done; apply Hsock].
    injection Hw as _ -> -> _. by apply Hsock.
  - intros c' Hc. destruct (decide (c' = c)) as [->|]; [rewrite lookup_insert_eq; eauto|rewrite lookup_insert_ne by done; eauto].
  - intros a x tid c' Ha Hc. destruct (Hent _ _ _ _ Ha Hc) as (y & Hy & Hyw). destruct (gr_socks _ _ Hg _ _ Hy) as (y' & Hy' & [= Hw1 Hw2 Hw3 Hw4]). exists y'.
    by rewrite Hw1, Hw3, Hw4.
Qed.
Lemma base_chan w ch n : base_inv w → chan_ok w ch n → base_inv (set_chan ch n w).
Proof.
  intros [Hsvc Hreg Hsock Hconn Hent Hcall Hchan] Hn. assert (grows w (set_chan ch n w)) by by apply grows_same. split; cbn; eauto.
  intros ch' x. destruct (decide (ch' = ch)) as [->|]; [rewrite lookup_insert_eq; intros [= <-]; eauto|rewrite lookup_insert_ne by done; eauto].
Qed.

(** ** Input *)

Definition holds (n : channel) (sub : nat) : Prop := cn_out n = Some sub ∨ cn_wire n = WSubscribed (Some sub).
(** A subscription that, if a channel holds it, the channel holds for this session and tunnel. *)
Definition sub_for w (sub : nat) (S tid : bytes) : Prop :=
  (sub < et_next (w_svc w))%nat ∧ ∀ ch n, w_chans w !! ch = Some n → holds n sub → cb_parentSessionID (cn_b n) = S ∧ cb_tunnelID (cn_b n) = tid.
Definition entry_for s (a : nat) (S : bytes) : Prop := ∃ e, et_entry s !! a = Some e ∧ er_SessionID (en_reg e) = S.
Definition pump_ok w (k : socket) : Prop :=
  match sk_in k with
  | PDeliver _ a _ sub => entry_for (w_svc w) a (sk_session k) ∧ sub_for w sub (sk_session k) (sk_tunnel k)
  | PLegacy _ a _ => entry_for (w_svc w) a (sk_session k)
  | _ => True
  end.
Definition uses (n : channel) (sub : nat) : Prop := holds n sub ∨ cb_unsubscribe (cn_b n) = Some sub ∨ cn_undo n = Some sub.
(** An input that came from a socket of the plugin's session, on the tunnel it is told. *)
Definition input_ok w (i : input) : Prop :=
  ∃ k, w_socks w !! in_socket i = Some k ∧ in_plugin i = sk_plugin k ∧ in_session i = sk_session k ∧ in_tunnel i = sk_tunnel k.

Record sub_inv w : Prop := {
  su_out : ∀ S tid sub, outboundSubLocked (w_svc w) S tid = Some sub → sub_for w sub S tid;
  su_chan : ∀ ch n sub, w_chans w !! ch = Some n → uses n sub → (sub < et_next (w_svc w))%nat;
  su_pump : ∀ c k, w_socks w !! c = Some k → pump_ok w k;
  su_input : ∀ i, i ∈ w_inputs w → input_ok w i;
}.
Lemma sub_same w w' : w_svc w' = w_svc w → w_chans w' = w_chans w → w_socks w' = w_socks w → w_inputs w' = w_inputs w → sub_inv w → sub_inv w'.
Proof.
  intros Hs Hc Hk Hi [Hout Hchan Hpump Hin]. split; unfold pump_ok, sub_for, input_ok; rewrite ?Hs, ?Hc, ?Hk, ?Hi; done.
Qed.
Lemma pump_ok_weaken w w' k : (∀ a S, entry_for (w_svc w) a S → entry_for (w_svc w') a S) → (∀ sub S tid, sub_for w sub S tid → sub_for w' sub S tid) → pump_ok w k → pump_ok w' k.
Proof. intros He Hs. unfold pump_ok. destruct (sk_in k); naive_solver. Qed.
Lemma sub_svc w s : sub_inv w → (et_next (w_svc w) ≤ et_next s)%nat → (∀ a S, entry_for (w_svc w) a S → entry_for s a S) →
  (∀ S tid sub, outboundSubLocked s S tid = Some sub → outboundSubLocked (w_svc w) S tid = Some sub) → sub_inv (set_svc s w).
Proof.
  intros [Hout Hchan Hpump Hin] Hn He Ho. assert (∀ sub S tid, sub_for w sub S tid → sub_for (set_svc s w) sub S tid) as Hf by (intros sub S tid [??]; split; [cbn; lia|done]).
  split; cbn; eauto using pump_ok_weaken. intros ch n sub Hch Hu. specialize (Hchan _ _ _ Hch Hu). lia.
Qed.
Lemma keeps_entry_for s s' a S : svc_keeps s s' → entry_for s a S → entry_for s' a S.
Proof.
  intros [_ Hids _ _] (e & He & HS). specialize (Hids a). rewrite He in Hids. cbn in Hids. apply fmap_Some in Hids as (e' & He' & [= _ Hs _]). exists e'. split; [done|congruence].
Qed.
Lemma sub_keeps w s : sub_inv w → svc_keeps (w_svc w) s → (∀ S tid sub, outboundSubLocked s S tid = Some sub → outboundSubLocked (w_svc w) S tid = Some sub) → sub_inv (set_svc s w).
Proof. intros Hs Hk Ho. apply sub_svc; [done|apply Hk| |done]. intros a S. by apply keeps_entry_for. Qed.
Lemma sub_keeps_eq w s : sub_inv w → svc_keeps (w_svc w) s ∧ et_outbound s = et_outbound (w_svc w) → sub_inv (set_svc s w).
Proof. intros Hs [Hk Ho]. apply sub_keeps; [done..|]. intros S tid sub. unfold outboundSubLocked. by rewrite Ho. Qed.
Lemma sub_conn w c k' : sub_inv w → sub_inv (set_svc (set_conn c k' (w_svc w)) w).
Proof. intros Hs. by apply sub_svc. Qed.
Lemma input_ok_sock w c k i : (∀ x, w_socks w !! c = Some x → who k = who x) → input_ok w i → input_ok (set_sock c k w) i.
Proof.
  intros Hw (x & Hx & H1 & H2 & H3). destruct (decide (in_socket i = c)) as [<-|Hne].
  - specialize (Hw _ Hx). injection Hw as _ Hw1 Hw2 Hw3. exists k. cbn. rewrite lookup_insert_eq. split_and!; congruence.
  - exists x. cbn. rewrite lookup_insert_ne; done.
Qed.
(** A socket that changes, or a new one. *)
Lemma sub_sock w c k : sub_inv w → (∀ x, w_socks w !! c = Some x → who k = who x) → pump_ok w k → sub_inv (set_sock c k w).
Proof.
  intros [Hout Hchan Hpump Hin] Hw Hp. split; [exact Hout|exact Hchan| |by intros i ?%Hin; apply input_ok_sock]. cbn.
  intros c' x. destruct (decide (c' = c)) as [->|]; [rewrite lookup_insert_eq; by intros [= <-]|]. rewrite lookup_insert_ne by done. apply Hpump.
Qed.
(** A channel that changes without holding more, or a new one that holds nothing. *)
Lemma sub_set_chan w ch n : sub_inv w → (∀ sub, holds n sub → ∃ x, w_chans w !! ch = Some x ∧ holds x sub ∧ cb_parentSessionID (cn_b n) = cb_parentSessionID (cn_b x) ∧ cb_tunnelID (cn_b n) = cb_tunnelID (cn_b x)) →
  (∀ sub, uses n sub → (sub < et_next (w_svc w))%nat) → sub_inv (set_chan ch n w).
Proof.
  intros [Hout Hchan Hpump Hin] Hh Hu.
  assert (∀ sub S tid, sub_for w sub S tid → sub_for (set_chan ch n w) sub S tid) as Hf.
  { intros sub S tid [Hl Hf]. split; [done|]. cbn. intros ch' x. destruct (decide (ch' = ch)) as [->|]; [|rewrite lookup_insert_ne by done; apply Hf].
    rewrite lookup_insert_eq. intros [= <-] Hx. destruct (Hh _ Hx) as (y & Hy & Hy1 & -> & ->). by eapply Hf. }
  split; [by intros S tid sub ?%Hout%Hf| |intros c k Hk; apply (pump_ok_weaken w); [intros a S HS; exact HS|exact Hf|exact (Hpump _ _ Hk)]|exact Hin]. cbn.
  intros ch' x sub. destruct (decide (ch' = ch)) as [->|]; [rewrite lookup_insert_eq; intros [= <-]; apply Hu|rewrite lookup_insert_ne by done; apply Hchan].
Qed.
Lemma sub_add_input w i : sub_inv w → input_ok w i → sub_inv (add_input i w).
Proof. intros [Hout Hchan Hpump Hin] Hi. split; cbn; try done. intros j [Hj|Hj%list_elem_of_singleton]%elem_of_app; [by apply Hin|by subst j]. Qed.
(** A channel subscribes. *)
Lemma sub_subscribe w ch n sub s : sub_inv w → w_chans w !! ch = Some n → SubscribeOutbound (cb_parentSessionID (cn_b n)) (cb_tunnelID (cn_b n)) (w_svc w) = (sub, s) →
  sub_inv (set_chan ch (with_wiring (WSubscribed sub) n) (set_svc s w)).
Proof.
  intros Hsub Hn Hs. pose proof (SubscribeOutbound_keeps (w_svc w) (cb_parentSessionID (cn_b n)) (cb_tunnelID (cn_b n))) as Hk. rewrite Hs in Hk. cbn in Hk.
  apply SubscribeOutbound_lookup in Hs as [[-> ->]|(-> & Hnx & Hl)].
  - apply sub_set_chan; [by destruct w|..].
    + intros x [Hx|Hx]; [|done]. exists n. cbn. split_and!; try done. by left.
    + cbn. intros x [[Hx|Hx]|Hx]; [|done|]; eapply (su_chan _ Hsub _ _ _ Hn); unfold uses, holds; auto.
  - destruct Hsub as [Hout Hchan Hpump Hin]. set (S := cb_parentSessionID (cn_b n)) in *. set (tid := cb_tunnelID (cn_b n)) in *. set (x := et_next (w_svc w)) in *.
    set (n' := with_wiring (WSubscribed (Some x)) n).
    assert (∀ ch' y sub', <[ch := n']> (w_chans w) !! ch' = Some y → holds y sub' → sub' = x ∧ ch' = ch ∧ y = n' ∨ ∃ z, w_chans w !! ch' = Some z ∧ holds z sub' ∧ cn_b y = cn_b z) as Hcase.
    { intros ch' y sub'. destruct (decide (ch' = ch)) as [->|]; [rewrite lookup_insert_eq; intros [= <-]|rewrite lookup_insert_ne by done; eauto].
      intros [Hy|[= ->]]; [|by left]. right. exists n. split_and!; try done. by left. }
    assert (∀ sub' S' tid', sub_for w sub' S' tid' → sub_for (set_chan ch n' (set_svc s w)) sub' S' tid') as Hf.
    { intros sub' S' tid' [Hl' Hf]. split; [cbn; lia|]. cbn. intros ch' y Hy Hh. destruct (Hcase _ _ _ Hy Hh) as [(-> & _)|(z & Hz & Hhz & ->)]; [fold x in Hl'; lia|by eapply Hf]. }
    split; cbn [set_chan set_svc w_svc w_chans w_socks w_inputs].
    + intros S' tid' sub'. rewrite Hl. case_decide as Hd; [|by intros ?%Hout%Hf]. intros [= <-]. destruct Hd as [-> ->]. split; [cbn; lia|].
      cbn. intros ch' y Hy Hh. destruct (Hcase _ _ _ Hy Hh) as [(_ & _ & ->)|(z & Hz & Hhz & _)]; [done|].
      exfalso. assert (x < x)%nat; [|lia]. eapply (Hchan _ _ _ Hz). by left.
    + intros ch' y sub' Hy [Hh|Hh].
      * destruct (Hcase _ _ _ Hy Hh) as [(-> & _)|(z & Hz & Hhz & _)]; [lia|]. assert (sub' < x)%nat; [|lia]. eapply (Hchan _ _ _ Hz). by left.
      * assert (sub' < x)%nat; [|lia]. destruct (decide (ch' = ch)) as [->|]; [rewrite lookup_insert_eq in Hy; injection Hy as <-; eapply (Hchan _ _ _ Hn); by right|].
        rewrite lookup_insert_ne in Hy by done. eapply (Hchan _ _ _ Hy). by right.
    + intros c k Hk'. eapply pump_ok_weaken; [| |by eapply Hpump]; [intros a S'; by apply keeps_entry_for|done].
    + done.
Qed.

(** ** Every step keeps both groups *)

Definition own_inv w : Prop := base_inv w ∧ sub_inv w.
Lemma own_new notify url : own_inv (NewWorld notify url).
Proof.
  split; split; cbn; try (intros; set_solver).
  - apply svc_inv_new.
  - intros c [? Hc]. by rewrite lookup_empty in Hc.
Qed.
Lemma own_add_call w k : own_inv w → call_ok (next w) k → own_inv (add_call k w).
Proof.
  intros [Hb Hs] Hk. split; [|by apply (sub_same w)]. apply (base_calls (next w)); [by apply base_next|]. cbn. intros t x.
  destruct (decide (t = w_next w)) as [->|]; [rewrite lookup_insert_eq; by intros [= <-]|]. rewrite lookup_insert_ne by done.
  intros Hx. apply (base_next w) in Hb. by apply (bi_call _ Hb) in Hx.
Qed.
Lemma own_end_call w t : own_inv w → own_inv (end_call t w).
Proof. intros [Hb Hs]. split; [by apply base_end_call|by apply (sub_same w)]. Qed.
Lemma own_set_call w t k : own_inv w → call_ok w k → own_inv (set_call t k w).
Proof. intros [Hb Hs] Hk. split; [by apply base_set_call|by apply (sub_same w)]. Qed.
Lemma own_next w : own_inv w → own_inv (next w).
Proof. intros [Hb Hs]. split; [by apply base_next|by apply (sub_same w)]. Qed.
Lemma own_registry w r : own_inv w → (∀ S x, r !! S = Some x → se_pluginID x ≠ [] → w_owner w !! S = Some (se_pluginID x)) → own_inv (set_registry r w).
Proof. intros [Hb Hs] Hr. split; [by apply base_registry|by apply (sub_same w)]. Qed.
Lemma own_drawn w owner opened minted : own_inv w → w_owner w ⊆ owner → w_minted w ⊆ minted → own_inv (set_drawn owner opened minted w).
Proof. intros [Hb Hs] Ho Hm. split; [by apply base_drawn|by apply (sub_same w)]. Qed.
Lemma own_keeps w s : own_inv w → svc_inv (w_owner w) (w_minted w) s → svc_keeps (w_svc w) s ∧ et_outbound s = et_outbound (w_svc w) → own_inv (set_svc s w).
Proof. intros [Hb Hs] Hi Hk. split; [apply base_keeps; [done..|apply Hk]|by apply sub_keeps_eq]. Qed.
Lemma own_conn w c k k' : own_inv w → et_conn (w_svc w) !! c = Some k → svc_inv (w_owner w) (w_minted w) (set_conn c k' (w_svc w)) → own_inv (set_svc (set_conn c k' (w_svc w)) w).
Proof. intros [Hb Hs] Hk Hi. split; [by eapply base_conn|by apply sub_conn]. Qed.
Lemma own_sock w c k k' : own_inv w → w_socks w !! c = Some k → who k' = who k → pump_ok w k' → own_inv (set_sock c k' w).
Proof. intros [Hb Hs] Hk Hw Hp. split; [by eapply base_sock|apply sub_sock; [done| |done]]. intros x Hx. congruence. Qed.

Lemma assertPluginSession_Ok w pluginID sessionID : base_inv w → pluginID ≠ [] → assertPluginSession (w_registry w) pluginID sessionID = Ok () →
  w_owner w !! sessionID = Some pluginID.
Proof.
  intros Hb Hne. unfold assertPluginSession. destruct (w_registry w !! sessionID) as [x|] eqn:Ex; [|done]. case_bool_decide as Hx; [|done]. intros _. subst pluginID.
  by apply Hb.
Qed.
Lemma plugin_call_own w pluginID sessionID tunnelID kind w' : own_inv w → pluginID ≠ [] → plugin_call pluginID sessionID tunnelID kind w = Some w' → own_inv w'.
Proof.
  intros Ho Hne. unfold plugin_call. set (r := match kind with KOpen => _ | KFrame _ _ => _ | KClose => _ end).
  assert (∀ x, r = Ok x → w_owner w !! sessionID = Some pluginID) as Hr.
  { intros x Hx. apply assertPluginSession_Ok; [apply Ho|done|]. revert Hx. subst r.
    destruct kind; cbn; unfold HandlePluginTunnelOpen_begin, HandlePluginTunnelFrame_begin, HandlePluginTunnelClose_begin; destruct (assertPluginSession _ _ _) as [[]|]; done. }
  destruct r as [[| |]|]; [| | |by intros [= <-]]; specialize (Hr _ eq_refl); intros [= <-]; apply own_add_call; try done.
  repeat split; cbn; [done|lia].
Qed.
Lemma register_begin_own w now pluginID sessionID uiEntry tunnelIDs reg : own_inv w → pluginID ≠ [] →
  HandlePluginRegisterEmbed_begin manifests (w_registry w) now pluginID sessionID uiEntry tunnelIDs = Ok reg → call_ok (next w) (TRegister reg).
Proof.
  intros [Hb _] Hne. unfold HandlePluginRegisterEmbed_begin. cbv zeta. case_bool_decide as Hp; [done|]. destruct (EmbedEntryForProtocol _ _ _) as [x|]; [|done]. cbn.
  destruct (negb _); [done|]. intros [= <-]. cbn. split; [|done]. destruct (w_registry w !! sessionID) as [y|] eqn:Ey; [|done].
  case_bool_decide as Hy; [|done]. subst pluginID. by apply Hb.
Qed.
Lemma entry_for_insert s s' e a S : et_entry s' = <[et_next s := e]> (et_entry s) → et_entry s !! et_next s = None → entry_for s a S → entry_for s' a S.
Proof. intros He Hn (x & Hx & HS). exists x. rewrite He, lookup_insert_ne; [done|]. intros <-. congruence. Qed.
Lemma register_own w now random reg r s' : own_inv w → call_ok w (TRegister reg) → (∀ buf, random = Some buf → hex_encode buf ∉ w_minted w) → Register now random reg (w_svc w) = (r, s') →
  own_inv (set_svc s' (set_drawn (w_owner w) (w_opened w) (match random with Some buf => {[hex_encode buf]} | None => ∅ end ∪ w_minted w) w)).
Proof.
  intros Ho [Hr1 Hr2] Hf HR. pose proof (embed_Register_inv _ _ _ _ _ _ _ _ (bi_svc _ (proj1 Ho)) Hr1 Hr2 Hf HR) as Hi. destruct (Register_effect _ _ _ _ _ _ HR) as (Hout & Hc & He).
  set (w1 := set_drawn _ _ _ w). assert (own_inv w1) as [Hb1 Hs1] by (apply own_drawn; [done|done|set_solver]).
  destruct He as [->|(buf & e & _ & He & Hw & Hn & _)]; [by destruct w; split|]. destruct (si_next _ _ _ (bi_svc _ Hb1) (et_next (w_svc w))) as (Hnone & _); [cbn; lia|]. cbn in Hnone. split.
  - destruct Hb1 as [Hsvc Hreg Hsock Hconn Hent Hcall Hchan]. assert (grows w1 (set_svc s' w1)) by by apply grows_same. split; cbn; eauto; try (rewrite Hc; eauto).
    rewrite He. intros a x tid c. destruct (decide (a = et_next (w_svc w))) as [->|]; [rewrite lookup_insert_eq; intros [= <-]; by rewrite Hw, lookup_empty|].
    rewrite lookup_insert_ne by done. apply Hent.
  - apply sub_svc; [done|cbn; lia|intros a S; by eapply entry_for_insert|]. intros S tid sub. unfold outboundSubLocked. by rewrite Hout.
Qed.
Lemma store_descriptor_lookup sid desc r S x : store_descriptor sid desc r !! S = Some x → ∃ y, r !! S = Some y ∧ se_pluginID x = se_pluginID y.
Proof. unfold store_descriptor. intros Hx%lookup_alter_Some. naive_solver. Qed.
Lemma route_begin_own w now S tid data r s : own_inv w → RouteTunnelFrameFromPlugin_begin now S tid data (w_svc w) = (r, s) → own_inv (set_svc s w).
Proof. intros Ho Hr. apply own_keeps; [done|eapply Route_begin_inv; [apply Ho|done]|by eapply Route_begin_keeps]. Qed.
Lemma route_begin_sock w now f c s : base_inv w → RouteTunnelFrameFromPlugin_begin now (fr_session f) (fr_tunnel f) (fr_data f) (w_svc w) = (Ok c, s) → sock_for w c f.
Proof.
  intros Hb Hr. eapply Route_begin_socket in Hr as (a & e & He & HS & Hc); [|apply Hb]. destruct (bi_entry _ Hb _ _ _ _ He Hc) as (k & Hk & _ & Hk1 & Hk2). exists k. split_and!; congruence.
Qed.
Lemma route_send_own w c f : own_inv w → own_inv (set_svc (RouteTunnelFrameFromPlugin_send c f (w_svc w)).2 w).
Proof.
  intros Ho. pose proof (Route_send_inv _ _ _ c f (bi_svc _ (proj1 Ho))) as Hi. revert Hi. unfold RouteTunnelFrameFromPlugin_send.
  destruct (et_conn (w_svc w) !! c) as [k|] eqn:Ek; [case_bool_decide|]; intros Hi; [by eapply own_conn|by destruct w..].
Qed.
Lemma proceed_own w t now random w' : own_inv w → proceed t now random w = Some w' → own_inv w'.
Proof.
  intros Ho. unfold proceed. destruct (w_calls w !! t) as [k|] eqn:Ek; [|done]. pose proof (bi_call _ (proj1 Ho) _ _ Ek) as Hk. cbn. pose proof (bi_svc _ (proj1 Ho)) as Hi. destruct k.
  - destruct (match random with Some _ => _ | None => _ end) eqn:Ef; [done|]. destruct (Register now random reg (w_svc w)) as [r s] eqn:ER.
    assert (∀ buf, random = Some buf → hex_encode buf ∉ w_minted w) as Hf. { intros buf ->. by apply bool_decide_eq_false in Ef. }
    pose proof (register_own _ _ _ _ _ _ Ho Hk Hf ER) as Hr. destruct r; intros [= <-]; [by apply own_set_call|].
    apply own_end_call. unfold Register in ER. destruct (_ || _); [injection ER as _ <-; by destruct w|]. destruct (_ <? _); [injection ER as _ <-; by destruct w|].
    destruct random; cbn in ER; [|injection ER as _ <-; by destruct w]. destruct (bool_decide (er_TunnelIDs reg = [])) eqn:Ed; [done|].
    destruct (er_TunnelIDs reg) eqn:Et; done.
  - intros [= <-]. apply own_end_call, own_registry; [done|]. intros S x (y & Hy & ->)%store_descriptor_lookup. by apply Ho.
  - intros [= <-]. apply own_end_call, own_keeps; [done|by apply RevokeBySession_inv|apply RevokeBySession_keeps].
  - intros [= <-]. apply own_end_call, own_keeps; [done|by apply OpenTunnel_inv|apply OpenTunnel_keeps].
  - intros [= <-]. apply own_end_call, own_keeps; [done|by apply CloseTunnel_inv|apply CloseTunnel_keeps].
  - destruct (RouteTunnelFrameFromPlugin_begin _ _ _ _ _) as [r s] eqn:ER. pose proof (route_begin_own _ _ _ _ _ _ _ Ho ER) as Ho'. intros [= <-].
    destruct r; [|by apply own_end_call]. apply own_set_call; [done|]. destruct Hk as [Hk1 Hk2]. split_and!; [exact Hk1|exact Hk2|]. exact (route_begin_sock _ _ _ _ _ (proj1 Ho) ER).
  - intros [= <-]. by apply own_end_call, route_send_own.
Qed.

Lemma attach_own w now token tid : own_inv w → own_inv (attach now token tid w).
Proof.
  intros Ho. unfold attach. destruct (AttachWebSocket now token tid (w_svc w)) as [r s] eqn:EA. pose proof (AttachWebSocket_inv _ _ _ _ _ _ _ _ (bi_svc _ (proj1 Ho)) EA) as Hi.
  destruct r as [[c reg]|]; [|apply AttachWebSocket_Err in EA as ->; by destruct w].
  apply AttachWebSocket_Ok in EA as (a & e & e' & Ha & He & <- & -> & Hn & Hent' & Hreg' & Hws & Hc & Hc' & Hout & _). destruct Ho as [[Hsvc Hreg Hsock Hconn Hent Hcall Hchan] Hs].
  set (c := et_next (w_svc w)) in *. set (k := {| sk_token := token |}). destruct (si_ent _ _ _ Hsvc _ _ Ha) as (e0 & He0 & Htok & _). assert (e0 = e) as -> by congruence.
  assert (w_socks w !! c = None) as Hnew. { apply eq_None_not_Some. intros [x Hx]. apply Hsock in Hx as [_ [y Hy]]. destruct (si_next _ _ _ Hsvc c) as (_ & Hz & _); [done|congruence]. }
  assert (∀ c', c' ≠ c → is_Some (et_conn s !! c') ↔ is_Some (et_conn (w_svc w) !! c')) as Hdom.
  { intros c' Hne. specialize (Hc' c' Hne). destruct (et_conn s !! c'), (et_conn (w_svc w) !! c'); naive_solver. }
  assert (grows w (set_sock c k (set_svc s w))) as Hg. { split; cbn; [lia|done|]. intros c' x Hx. exists x. rewrite lookup_insert_ne; [done|]. intros ->. congruence. }
  split; [split; cbn; eauto|].
  - intros c' x. destruct (decide (c' = c)) as [->|]; [rewrite lookup_insert_eq, Hc; intros [= <-]; split; [|by eauto]; by apply (si_own _ _ _ Hsvc _ _ He)|].
    rewrite lookup_insert_ne, Hdom by done. apply Hsock.
  - intros c' Hc0. destruct (decide (c' = c)) as [->|]; [rewrite lookup_insert_eq; eauto|]. rewrite lookup_insert_ne by done. apply Hconn. by apply Hdom.
  - intros a' x tid' c' Hx Hxc. rewrite Hent' in Hx. assert (∃ y, et_entry (w_svc w) !! a' = Some y ∧ en_reg x = en_reg y ∧ (en_wsConns y !! tid' = Some c' ∨ c' = c ∧ a' = a ∧ tid' = tid)) as (y & Hy & Hry & Hcase).
    { destruct (decide (a' = a)) as [->|]; [|rewrite lookup_insert_ne in Hx by done; eauto]. rewrite lookup_insert_eq in Hx. injection Hx as <-. exists e. split_and!; [done..|].
      rewrite Hws in Hxc. destruct (decide (tid' = tid)) as [->|]; [rewrite lookup_insert_eq in Hxc; naive_solver|rewrite lookup_insert_ne in Hxc by done; auto]. }
    rewrite Hry. destruct Hcase as [Hyc|(-> & -> & ->)].
    + destruct (Hent _ _ _ _ Hy Hyc) as (z & Hz & Hzw). exists z. rewrite lookup_insert_ne; [done|]. intros <-. congruence.
    + assert (y = e) as -> by congruence. exists k. rewrite lookup_insert_eq. split_and!; try done.
  - apply sub_sock; [|cbn; intros x; by rewrite Hnew|done]. apply sub_svc; [done|cbn; lia| |intros S tid' sub; unfold outboundSubLocked; by rewrite Hout].
    intros a' S (x & Hx & HS). unfold entry_for. rewrite Hent'. destruct (decide (a' = a)) as [->|]; [exists e'; rewrite lookup_insert_eq; split; [done|]; rewrite Hreg'; congruence|].
    exists x. by rewrite lookup_insert_ne.
Qed.

Lemma socket_writes_own w c w' : own_inv w → socket_writes c w = Some w' → own_inv w'.
Proof.
  intros Ho. unfold socket_writes. destruct (w_socks w !! c) as [k|] eqn:Ek; [|done]. cbn. destruct (et_conn (w_svc w) !! c) as [conn|] eqn:Ec; [|done]. cbn.
  destruct (ws_send conn) as [|f rest] eqn:Es; [done|]. destruct (sk_writing k); [|done]. intros [= <-].
  assert (own_inv (set_svc (set_conn c {| ws_send := rest; ws_done := ws_done conn |} (w_svc w)) w)) as Ho'.
  { eapply own_conn; [done..|]. pose proof (bi_svc _ (proj1 Ho)) as Hi. pose proof (si_depth _ _ _ Hi _ _ Ec) as Hd. rewrite Es in Hd. cbn in Hd.
    eapply set_conn_inv; [done|done|cbn; lia|]. cbn. destruct (ws_done conn) eqn:Ew; [|by left]. right. intros t a e tid Ht Ha Hc.
    destruct (si_live _ _ _ Hi _ _ _ _ _ Ht Ha Hc) as (k' & ? & ?). congruence. }
  apply (own_sock _ _ k); [done|done|done|]. exact (su_pump _ (proj2 Ho') _ _ Ek).
Qed.
Lemma pump_checks_own w c w' : own_inv w → pump_checks c w = Some w' → own_inv w'.
Proof.
  intros Ho. unfold pump_checks. destruct (w_socks w !! c) as [k|] eqn:Ek; [|done]. cbn. destruct (et_conn (w_svc w) !! c) as [conn|]; [|done]. cbn.
  destruct (sk_in k); try done. intros [= <-]. apply (own_sock _ _ k); try done. cbn. by destruct (ws_done conn).
Qed.
Lemma browser_sends_own w c data w' : own_inv w → browser_sends c data w = Some w' → own_inv w'.
Proof.
  intros Ho. unfold browser_sends. destruct (w_socks w !! c) as [k|] eqn:Ek; [|done]. cbn. destruct (sk_in k); try done. intros [= <-]. apply (own_sock _ _ k); try done.
  destruct (_ <? _); [done|]. unfold RouteTunnelFrameToPlugin_begin. destruct (entryForSession (w_svc w) (sk_session k)) as [[a e]|] eqn:Ee; [|done].
  eapply entryForSession_session in Ee as (He & HS & _); [|apply Ho]. destruct (outboundSubLocked _ _ _) as [sub|] eqn:Eo; cbn; [|by exists e].
  split; [by exists e|]. by apply (su_out _ (proj2 Ho)).
Qed.
Lemma sub_takes_own w c ch w' : own_inv w → sub_takes c ch w = Some w' → own_inv w'.
Proof.
  intros Ho. unfold sub_takes. destruct (w_socks w !! c) as [k|] eqn:Ek; [|done]. cbn. destruct (w_chans w !! ch) as [n|] eqn:En; [|done]. cbn.
  destruct (sk_in k) as [| |data a notify sub| |] eqn:Ein; try done. case_bool_decide as Hs; [|done]. intros [= <-].
  pose proof (su_pump _ (proj2 Ho) _ _ Ek) as Hp. unfold pump_ok in Hp. rewrite Ein in Hp. destruct Hp as [_ [_ Hf]]. destruct (Hf _ _ En) as [HS Ht]; [by left|].
  assert (own_inv (set_sock c (with_in PCheck k) w)) as [Hb Hs'] by by apply (own_sock _ _ k).
  split; [by apply base_add_input|]. apply sub_add_input; [done|]. exists (with_in PCheck k). cbn. rewrite lookup_insert_eq. split_and!; [done| |done|done].
  destruct (bi_sock _ (proj1 Ho) _ _ Ek) as [Hk _]. destruct (bi_chan _ (proj1 Ho) _ _ En) as (_ & Hn & _). congruence.
Qed.
Lemma sub_stopped_own w c w' : own_inv w → sub_stopped c w = Some w' → own_inv w'.
Proof.
  intros Ho. unfold sub_stopped. destruct (w_socks w !! c) as [k|] eqn:Ek; [|done]. cbn. destruct (sk_in k) as [| |data a notify sub| |] eqn:Ein; try done.
  case_bool_decide; [|done]. intros [= <-]. apply (own_sock _ _ k); try done. pose proof (su_pump _ (proj2 Ho) _ _ Ek) as Hp. unfold pump_ok in Hp. rewrite Ein in Hp. apply Hp.
Qed.
Lemma input_cancelled_own w c w' : own_inv w → input_cancelled c w = Some w' → own_inv w'.
Proof.
  intros Ho. unfold input_cancelled. destruct (w_socks w !! c) as [k|] eqn:Ek; [|done]. cbn. destruct (sk_in k); try done. intros [= <-]. by apply (own_sock _ _ k).
Qed.
Lemma input_notifies_own w c w' : own_inv w → input_notifies c w = Some w' → own_inv w'.
Proof.
  intros Ho. unfold input_notifies. destruct (w_socks w !! c) as [k|] eqn:Ek; [|done]. cbn. destruct (sk_in k) as [| | |data a notify|] eqn:Ein; try done. intros [= <-].
  assert (own_inv (set_sock c (with_in PCheck k) w)) as [Hb Hs'] by by apply (own_sock _ _ k).
  unfold RouteTunnelFrameToPlugin_legacy. destruct (et_entry (w_svc w) !! a) as [e|] eqn:Ee; [|done]. destruct (negb _); [done|]. destruct (negb _); [done|].
  split; [by apply base_add_input|]. apply sub_add_input; [done|]. exists (with_in PCheck k). cbn. rewrite lookup_insert_eq. split_and!; [done| |done|done].
  pose proof (su_pump _ (proj2 Ho) _ _ Ek) as Hp. unfold pump_ok in Hp. rewrite Ein in Hp. destruct Hp as (e' & He' & HS). assert (e' = e) as -> by congruence.
  destruct (si_own _ _ _ (bi_svc _ (proj1 Ho)) _ _ Ee) as [Ho1 _]. destruct (bi_sock _ (proj1 Ho) _ _ Ek) as [Hk _]. congruence.
Qed.

(** A channel that changes for its own session and tunnel, without holding more. *)
Definition same_target (n n' : channel) : Prop :=
  cb_parentSessionID (cn_b n') = cb_parentSessionID (cn_b n) ∧ cb_tunnelID (cn_b n') = cb_tunnelID (cn_b n) ∧ cb_pluginID (cn_b n') = cb_pluginID (cn_b n).
Lemma own_chan w ch n n' : own_inv w → w_chans w !! ch = Some n → same_target n n' → (∀ sub, holds n' sub → holds n sub) → (∀ sub, uses n' sub → uses n sub) →
  chan_ok w ch n' → own_inv (set_chan ch n' w).
Proof.
  intros [Hb Hs] Hn (Ht1 & Ht2 & _) Hh Hu Hk. split; [by apply base_chan|]. apply sub_set_chan; [done| |intros sub Hx%Hu; by eapply (su_chan _ Hs)].
  intros sub Hx%Hh. exists n. done.
Qed.
Lemma chan_ok_in w ch n i : chan_ok w ch n → match i with IHand f => frame_ok w f ∧ of_channel ch n f | ISend f c => frame_ok w f ∧ of_channel ch n f ∧ sock_for w c f | _ => True end →
  chan_ok w ch (with_inbound i n).
Proof. intros (H1 & H2 & _) Hi. split; [done|]. split; [done|]. destruct i; exact Hi. Qed.
Lemma own_inbound w ch n i : own_inv w → w_chans w !! ch = Some n → match i with IHand f => frame_ok w f ∧ of_channel ch n f | ISend f c => frame_ok w f ∧ of_channel ch n f ∧ sock_for w c f | _ => True end →
  own_inv (set_chan ch (with_inbound i n) w).
Proof. intros Ho Hn Hi. eapply own_chan; [done|done|done|done|done|]. apply chan_ok_in; [by apply Ho|done]. Qed.
Lemma own_close_remote w ch n i : own_inv w → w_chans w !! ch = Some n → match i with IHand _ | ISend _ _ => i = cn_in n | _ => True end → own_inv (set_chan ch (close_remote (with_inbound i n)) w).
Proof.
  intros Ho Hn Hi. pose proof (bi_chan _ (proj1 Ho) _ _ Hn) as (H1 & H2 & H3). eapply own_chan; [done|done|done|..].
  - intros sub. by destruct n as [[]].
  - intros sub. unfold uses, holds, close_remote. destruct n as [[? ? ? ? ? [u|] [] ] ? ? ? [d|]]; cbn; naive_solver.
  - split; [done|]. split; [done|]. unfold close_remote. cbn. destruct i; try done; rewrite <-Hi in H3; exact H3.
Qed.
Lemma own_refused w ch n err f : own_inv w → w_chans w !! ch = Some n → frame_ok w f → of_channel ch n f → own_inv (set_chan ch (channel_refused err f n) w).
Proof. intros Ho Hn Hf Hc. unfold channel_refused. destruct (error_wait err); [by apply own_inbound|by apply own_inbound|by apply own_close_remote]. Qed.

Lemma channel_opens_own w pluginID cap purpose parent hint : own_inv w → own_inv (channel_opens pluginID cap purpose parent hint w).
Proof.
  intros Ho. unfold channel_opens. destruct (Authorize _ _ _ _ _) as [b|] eqn:Ea; [|done].
  assert (w_owner w !! cb_parentSessionID b = Some (cb_pluginID b) ∧ cb_unsubscribe b = None) as [Hb Hu].
  { revert Ea. unfold Authorize. destruct (negb _); [done|]. destruct (negb _); [done|]. case_bool_decide; [done|]. case_bool_decide as Hp; [|done]. cbn. intros [= <-]. cbn. split; [|done].
    cbn in Hp. unfold PluginIDForSession in Hp. destruct (w_registry w !! TrimSpace parent) as [x|] eqn:Ex; [|done]. case_bool_decide as Hx; [done|]. case_bool_decide; [done|].
    injection Hp as <-. by apply Ho. }
  set (n := {| cn_b := b |}). change (own_inv (set_chan (w_next w) n (next w))). apply own_next in Ho as [Hb' Hs']. split.
  - apply base_chan; [done|]. split; [cbn; lia|]. done.
  - apply sub_set_chan; [done|by intros sub [|]|]. intros sub [[|]|[|]]; try done. cbn in *. congruence.
Qed.
Lemma own_wiring w ch n x : own_inv w → w_chans w !! ch = Some n → (∀ sub, x ≠ WSubscribed (Some sub)) → own_inv (set_chan ch (with_wiring x n) w).
Proof.
  intros Ho Hn Hx. eapply own_chan; [done|done|done| | |exact (bi_chan _ (proj1 Ho) _ _ Hn)].
  - intros sub [Hs|Hs]; [by left|by apply Hx in Hs].
  - intros sub [[Hs|Hs]|Hs]; [left; by left|by apply Hx in Hs|by right].
Qed.
Lemma channel_wires_own w ch w' : own_inv w → channel_wires ch w = Some w' → own_inv w'.
Proof.
  intros Ho. unfold channel_wires. destruct (w_chans w !! ch) as [n|] eqn:En; [|done]. cbn. destruct (cn_wire n) eqn:Ew; try done. intros [= <-].
  destruct (Wire_begin (cn_b n)); [|by apply own_wiring]. assert (own_inv (set_chan ch (with_wiring WStarted n) w)) as Ho' by by apply own_wiring.
  eapply (own_inbound _ ch _ IRecv) in Ho'; [|apply lookup_insert_eq|done]. unfold set_chan in *. cbn in *. by rewrite insert_insert_eq in Ho'.
Qed.
Lemma channel_subscribes_own w ch w' : own_inv w → channel_subscribes ch w = Some w' → own_inv w'.
Proof.
  intros Ho. unfold channel_subscribes. destruct (w_chans w !! ch) as [n|] eqn:En; [|done]. cbn. destruct (cn_wire n) eqn:Ew; try done.
  destruct (SubscribeOutbound _ _ _) as [sub s] eqn:Es. intros [= <-]. destruct Ho as [Hb Hs]. split; [|by apply sub_subscribe].
  pose proof (SubscribeOutbound_inv _ _ _ (cb_parentSessionID (cn_b n)) (cb_tunnelID (cn_b n)) (bi_svc _ Hb)) as Hi.
  pose proof (SubscribeOutbound_keeps (w_svc w) (cb_parentSessionID (cn_b n)) (cb_tunnelID (cn_b n))) as Hk. rewrite Es in Hi, Hk. cbn [snd] in *.
  assert (base_inv (set_svc s w)) as Hb'.
  { apply base_keeps; [done| |done]. apply Hi. intros byT x Hbt Hx. apply (su_out _ Hs (cb_parentSessionID (cn_b n)) (cb_tunnelID (cn_b n))). unfold outboundSubLocked. by rewrite Hbt. }
  apply base_chan; [done|]. exact (bi_chan _ Hb' _ _ En).
Qed.
Lemma channel_returns_own w ch w' : own_inv w → channel_returns ch w = Some w' → own_inv w'.
Proof.
  intros Ho. unfold channel_returns. destruct (w_chans w !! ch) as [n|] eqn:En; [|done]. cbn. destruct (cn_wire n) as [| |sub|] eqn:Ew; try done. intros [= <-].
  pose proof (bi_chan _ (proj1 Ho) _ _ En) as (H1 & H2 & H3). eapply own_chan; [done|done|done| | |by split_and!].
  - intros x [Hx|Hx]; [|done]. right. cbn in Hx. congruence.
  - intros x [[Hx|Hx]|[Hx|Hx]]; [|done| |right; by right]; left; right; cbn in Hx; congruence.
Qed.
Lemma channel_receives_own w ch data w' : own_inv w → channel_receives ch data w = Some w' → own_inv w'.
Proof.
  intros Ho. unfold channel_receives. destruct (w_chans w !! ch) as [n|] eqn:En; [|done]. cbn. destruct (cn_in n) eqn:Ei; try done. intros [= <-].
  pose proof (bi_chan _ (proj1 Ho) _ _ En) as (H1 & H2 & H3). set (f := {| fr_id := w_next w |}). change (own_inv (set_chan ch (with_inbound (IHand f) n) (next w))).
  apply own_next in Ho. apply own_inbound; [done|done|]. split; [split; [done|cbn; lia]|done].
Qed.
Lemma channel_offers_own w ch now w' : own_inv w → channel_offers ch now w = Some w' → own_inv w'.
Proof.
  intros Ho. unfold channel_offers. destruct (w_chans w !! ch) as [n|] eqn:En; [|done]. cbn. destruct (cn_in n) as [| |f| |] eqn:Ei; try done.
  destruct (RouteTunnelFrameFromPlugin_begin _ _ _ _ _) as [r s] eqn:ER. intros [= <-]. pose proof (route_begin_own _ _ _ _ _ _ _ Ho ER) as Ho'.
  pose proof (bi_chan _ (proj1 Ho) _ _ En) as (H1 & H2 & H3). rewrite Ei in H3. destruct H3 as [Hf Hc].
  destruct r; [|by apply own_refused]. apply own_inbound; [done|done|]. split_and!; [done..|]. exact (route_begin_sock _ _ _ _ _ (proj1 Ho) ER).
Qed.
Lemma channel_sends_own w ch w' : own_inv w → channel_sends ch w = Some w' → own_inv w'.
Proof.
  intros Ho. unfold channel_sends. destruct (w_chans w !! ch) as [n|] eqn:En; [|done]. cbn. destruct (cn_in n) as [| | |f c|] eqn:Ei; try done.
  pose proof (route_send_own _ c f Ho) as Ho'. destruct (RouteTunnelFrameFromPlugin_send _ _ _) as [r s]. cbn in Ho'. intros [= <-].
  pose proof (bi_chan _ (proj1 Ho) _ _ En) as (H1 & H2 & H3). rewrite Ei in H3. destruct H3 as (Hf & Hc & _). destruct r; [by apply own_inbound|by apply own_refused].
Qed.
Lemma channel_undoes_own w ch w' : own_inv w → channel_undoes ch w = Some w' → own_inv w'.
Proof.
  intros [Hb Hs]. unfold channel_undoes. destruct (w_chans w !! ch) as [n|] eqn:En; [|done]. cbn. destruct (cn_undo n) as [sub|] eqn:Eu; [|done]. cbn. intros [= <-].
  set (s := unsubscribe _ _ sub (w_svc w)). assert (own_inv (set_svc s w)) as Ho.
  { split; [apply base_keeps; [done|apply unsubscribe_inv; [apply Hb|]|apply unsubscribe_keeps]|apply sub_keeps; [done|apply unsubscribe_keeps|]].
    - eapply (su_chan _ Hs _ _ _ En). right. by right.
    - intros S tid x. apply unsubscribe_lookup. }
  eapply own_chan; [done|exact En|done|done| |exact (bi_chan _ (proj1 Ho) _ _ En)]. intros x [Hx|[Hx|Hx]]; [by left|right; by left|done].
Qed.
Lemma outbound_ends_own w ch w' : own_inv w → outbound_ends ch w = Some w' → own_inv w'.
Proof.
  intros Ho. unfold outbound_ends. destruct (w_chans w !! ch) as [n|] eqn:En; [|done]. cbn. intros [= <-]. eapply own_chan; [done|done|done| | |exact (bi_chan _ (proj1 Ho) _ _ En)].
  - intros x [Hx|Hx]; [done|by right].
  - intros x [[Hx|Hx]|Hx]; [done|left; by right|by right].
Qed.
Lemma run_session_own w sid plugin : own_inv w → w_owner w !! sid = None → plugin ≠ [] →
  own_inv (set_registry (run_session sid plugin (w_registry w)) (set_drawn (<[sid := plugin]> (w_owner w)) (w_opened w) (w_minted w) w)).
Proof.
  intros Ho Hn Hp. apply own_registry; [apply own_drawn; [done|by apply insert_subseteq|done]|]. cbn. intros S x Hx Hne. unfold run_session in Hx.
  destruct (decide (S = sid)) as [->|]; [|rewrite lookup_alter_ne in Hx by done; rewrite lookup_insert_ne by done; by apply Ho].
  rewrite lookup_alter_eq in Hx. apply fmap_Some in Hx as (y & _ & ->). by rewrite lookup_insert_eq.
Qed.

Lemma step_own w (ev : event) w' : own_inv w → step manifests w ev = Some w' → own_inv w'.
Proof.
  intros Ho. destruct ev; cbn [step].
  - case_bool_decide; [done|]. intros [= <-]. apply own_registry; [apply own_drawn; [done|done|done]|]. intros S x. destruct (decide (S = sessionID)) as [->|]; [rewrite lookup_insert_eq; by intros [= <-]|].
    rewrite lookup_insert_ne by done. apply Ho.
  - case_bool_decide; [|done]. case_bool_decide; [|done]. case_bool_decide; [done|]. intros [= <-]. by apply run_session_own.
  - destruct (w_registry w !! sessionID); [|by intros [= <-]]. intros [= <-]. apply own_add_call; [|done]. apply own_registry; [done|]. intros S x [_ Hx]%lookup_delete_Some. by apply Ho.
  - intros [= <-]. apply own_keeps; [done|apply SetSessionActive_inv, Ho|apply SetSessionActive_keeps].
  - case_bool_decide; [done|]. destruct (HandlePluginRegisterEmbed_begin _ _ _ _ _ _ _) as [reg|] eqn:Er; [|by intros [= <-]]. intros [= <-]. apply own_add_call; [done|]. by eapply register_begin_own.
  - case_bool_decide; [done|]. by apply plugin_call_own.
  - by apply proceed_own.
  - intros [= <-]. by apply attach_own.
  - by apply socket_writes_own.
  - destruct (w_socks w !! c) as [k|] eqn:Ek; [|done]. cbn. intros [= <-]. apply (own_sock _ _ k); try done. exact (su_pump _ (proj2 Ho) _ _ Ek).
  - by apply pump_checks_own.
  - by apply browser_sends_own.
  - destruct (w_socks w !! c) as [k|] eqn:Ek; [|done]. cbn. destruct (sk_in k); try done. intros [= <-]. by apply (own_sock _ _ k).
  - by apply sub_takes_own.
  - by apply sub_stopped_own.
  - by apply input_cancelled_own.
  - by apply input_notifies_own.
  - intros [= <-]. by apply channel_opens_own.
  - by apply channel_wires_own.
  - by apply channel_subscribes_own.
  - by apply channel_returns_own.
  - by apply channel_receives_own.
  - by apply channel_offers_own.
  - by apply channel_sends_own.
  - unfold channel_gives_up. destruct (w_chans w !! ch) as [n|] eqn:En; [|done]. cbn. destruct (cn_in n); try done. intros [= <-]. by apply own_close_remote.
  - unfold channel_ends. destruct (w_chans w !! ch) as [n|] eqn:En; [|done]. cbn. destruct (cn_in n); try done. intros [= <-]. by apply own_close_remote.
  - unfold channel_closes. destruct (w_chans w !! ch) as [n|] eqn:En; [|done]. cbn [mbind option_bind]. intros Hw. apply (inj Some) in Hw as <-.
    assert (close_remote n = close_remote (with_inbound (cn_in n) n)) as -> by by destruct n as [[]].
    apply own_close_remote; [done..|]. by destruct (cn_in n).
  - by apply channel_undoes_own.
  - by apply outbound_ends_own.
Qed.
Lemma run_own w es w' : own_inv w → run manifests w es = Some w' → own_inv w'.
Proof.
  revert w. induction es as [|ev es IH]; intros w Ho; cbn; [by intros [= <-]|]. destruct (step manifests w ev) as [w1|] eqn:E1; [|done]. cbn. apply IH. by eapply step_own.
Qed.
End Inv.
