(* ===== verification/EmbedPlaces.v ===== *)
(** * EmbedPlaces: where each frame of a plugin is

    A frame is in the hand of the call or the channel that offers it, or in what one socket was given: queued or written to the browser. *)

From S2P Require Import Prelude Bytes GoText EmbedTunnel EmbedWorld EmbedLaws EmbedInv.

Inductive holder := HCall (t : nat) | HChan (ch : nat).
#[export] Instance holder_eq_dec : EqDecision holder.
Proof. solve_decision. Defined.

Section Places.
Context {L : Type} `{RateBucket L} (manifests : gmap bytes (list (bytes * bytes))).
Implicit Types (w : world L) (s : EmbedTunnelService L).

(** What a socket was given so far: what the browser got, then the queue. *)
Definition log w (c : nat) : list frame := default [] (sk_wire <$> w_socks w !! c) ++ default [] (ws_send <$> et_conn (w_svc w) !! c).
Definition call_frame (k : call) : option frame := match k with TFrame f | TSend f _ => Some f | _ => None end.
Definition in_frame (n : channel) : option frame := match cn_in n with IHand f | ISend f _ => Some f | _ => None end.
Definition hand w (h : holder) : option frame := match h with HCall t => w_calls w !! t ≫= call_frame | HChan ch => w_chans w !! ch ≫= in_frame end.

Record place_inv w : Prop := {
  pl_for : ∀ c f, f ∈ log w c → sock_for w c f ∧ frame_ok w f;
  pl_nodup : ∀ c, NoDup (fr_id <$> log w c);
  pl_one : ∀ c1 c2 f1 f2, f1 ∈ log w c1 → f2 ∈ log w c2 → fr_id f1 = fr_id f2 → c1 = c2;
  pl_hand : ∀ h f c f', hand w h = Some f → f' ∈ log w c → fr_id f' ≠ fr_id f;
  pl_hands : ∀ h1 h2 f1 f2, hand w h1 = Some f1 → hand w h2 = Some f2 → fr_id f1 = fr_id f2 → h1 = h2;
  pl_order : ∀ c ch, StronglySorted lt (fr_id <$> filter (λ f, fr_chan f = Some ch) (log w c));
  pl_later : ∀ ch f c f', hand w (HChan ch) = Some f → f' ∈ log w c → fr_chan f' = Some ch → (fr_id f' < fr_id f)%nat;
}.
Lemma place_new notify url : place_inv (NewWorld notify url).
Proof.
  assert (∀ c, log (NewWorld notify url) c = []) as Hl by done. assert (∀ h, hand (NewWorld notify url) h = None) as Hh by by intros [].
  split; intros *; rewrite ?Hl, ?Hh; try done; try (by intros ?%elem_of_nil); constructor.
Qed.

(** Steps that give no socket a frame and put none in a hand. *)
Record quiet w w' : Prop := {
  qt_grows : grows w w';
  qt_log : ∀ c, log w' c = log w c;
  qt_hand : ∀ h f, hand w' h = Some f → hand w h = Some f;
}.
Lemma grows_trans w1 w2 w3 : grows w1 w2 → grows w2 w3 → grows w1 w3.
Proof.
  intros [n1 o1 s1] [n2 o2 s2]. split; [lia|by etrans|]. intros c k (k2 & Hk2 & Hw2)%s1. apply s2 in Hk2 as (k3 & Hk3 & Hw3). exists k3. split; [done|congruence].
Qed.
#[export] Instance quiet_preorder : PreOrder quiet.
Proof.
  split; [intros w; split; [by apply grows_same|done|done]|]. intros w1 w2 w3 [g1 l1 h1] [g2 l2 h2]. split; [by eapply grows_trans|congruence|auto].
Qed.
Lemma place_quiet w w' : quiet w w' → place_inv w → place_inv w'.
Proof.
  intros [Hg Hl Hh] [P1 P2 P3 P4 P5 P6 P7]. split; intros *; rewrite ?Hl; eauto. intros [? ?]%P1. eauto using sock_for_grows, frame_ok_grows.
Qed.
Lemma quiet_svc w s : (∀ c, ws_send <$> et_conn s !! c = ws_send <$> et_conn (w_svc w) !! c) → quiet w (set_svc s w).
Proof. intros Hs. split; [by apply grows_same| |by intros []]. intros c. unfold log. cbn. by rewrite Hs. Qed.
Lemma quiet_keeps w s : svc_keeps (w_svc w) s → quiet w (set_svc s w).
Proof. intros [_ _ _ Hs]. by apply quiet_svc. Qed.
Lemma quiet_registry w r : quiet w (set_registry r w).
Proof. split; [by apply grows_same|done|by intros []]. Qed.
Lemma quiet_next w : quiet w (next w).
Proof. split; [split; cbn; [lia|done|eauto]|done|by intros []]. Qed.
Lemma quiet_add_input w i : quiet w (add_input i w).
Proof. split; [by apply grows_same|done|by intros []]. Qed.
Lemma quiet_drawn w owner opened minted : w_owner w ⊆ owner → quiet w (set_drawn owner opened minted w).
Proof. intros Ho. split; [split; cbn; [lia|done|eauto]|done|by intros []]. Qed.
Lemma quiet_set_call w t k : (∀ f, call_frame k = Some f → w_calls w !! t ≫= call_frame = Some f) → quiet w (set_call t k w).
Proof.
  intros Hk. split; [by apply grows_same|done|]. intros [t'|ch] f; [|done]. cbn. destruct (decide (t' = t)) as [->|]; [rewrite lookup_insert_eq; cbn; apply Hk|by rewrite lookup_insert_ne].
Qed.
Lemma quiet_add_call w k : call_frame k = None → quiet w (add_call k w).
Proof. intros Hk. etrans; [apply (quiet_set_call w (w_next w) k); by rewrite Hk|apply quiet_next]. Qed.
Lemma quiet_end_call w t : quiet w (end_call t w).
Proof.
  split; [by apply grows_same|done|]. intros [t'|ch] f; [|done]. cbn. destruct (decide (t' = t)) as [->|]; [by rewrite lookup_delete_eq|by rewrite lookup_delete_ne].
Qed.
Lemma quiet_sock w c k k' : w_socks w !! c = Some k → who k' = who k → sk_wire k' = sk_wire k → quiet w (set_sock c k' w).
Proof.
  intros Hk Hw Hl. split; [by eapply grows_sock| |by intros []]. intros c'. unfold log. cbn. destruct (decide (c' = c)) as [->|]; [by rewrite lookup_insert_eq, Hk; cbn; rewrite Hl|by rewrite lookup_insert_ne].
Qed.
Lemma quiet_chan w ch n' : (∀ f, in_frame n' = Some f → w_chans w !! ch ≫= in_frame = Some f) → quiet w (set_chan ch n' w).
Proof.
  intros Hn. split; [by apply grows_same|done|]. intros [t|ch'] f; [done|]. cbn. destruct (decide (ch' = ch)) as [->|]; [rewrite lookup_insert_eq; cbn; apply Hn|by rewrite lookup_insert_ne].
Qed.

(** A new frame, in a hand that was empty. *)
Lemma place_offer w w' h f : place_inv w → own_inv w → grows w w' → (∀ c, log w' c = log w c) → (∀ h' f', h' ≠ h → hand w' h' = Some f' → hand w h' = Some f') →
  hand w' h = Some f → fr_id f = w_next w → place_inv w'.
Proof.
  intros [P1 P2 P3 P4 P5 P6 P7] [Hb _] Hg Hl Hh Hf Hid.
  assert (∀ h' f', hand w h' = Some f' → fr_id f' < w_next w)%nat as Hold.
  { intros [t|ch] f'; cbn; intros (k & Hk & Hf')%bind_Some.
    - apply Hb in Hk. destruct k; try done; injection Hf' as <-; by destruct Hk as [[] _].
    - apply (bi_chan _ Hb) in Hk as (_ & _ & Hk). unfold in_frame in Hf'. destruct (cn_in k); try done; injection Hf' as <-; by destruct Hk as [[] _]. }
  assert (∀ h' f', hand w' h' = Some f' → h' = h ∧ f' = f ∨ h' ≠ h ∧ hand w h' = Some f') as Hcase.
  { intros h' f' Hf'. destruct (decide (h' = h)) as [->|]; [left; split; [done|congruence]|right; auto]. }
  assert (∀ c f', f' ∈ log w c → fr_id f' < w_next w)%nat as Hlog by (intros c f' Hf'; by destruct (P1 _ _ Hf') as [_ []]).
  split; intros *; rewrite ?Hl; eauto.
  - intros [? ?]%P1. eauto using sock_for_grows, frame_ok_grows.
  - intros [[-> ->]|[_ Hx]]%Hcase Hf'; [apply Hlog in Hf'; lia|by eapply P4].
  - intros [[-> ->]|[_ Hx]]%Hcase [[-> ->]|[_ Hy]]%Hcase Heq; [done|apply Hold in Hy; lia|apply Hold in Hx; lia|by eapply P5].
  - intros [[_ ->]|[_ Hx]]%Hcase Hf' Hc; [apply Hlog in Hf'; lia|by eapply P7].
Qed.

(** A frame goes from a hand to a queue. *)
Lemma place_give w w' h f c : place_inv w → grows w w' → hand w h = Some f → sock_for w c f → frame_ok w f → (∀ ch, fr_chan f = Some ch → h = HChan ch) →
  log w' c = log w c ++ [f] → (∀ c', c' ≠ c → log w' c' = log w c') → hand w' h = None → (∀ h' f', hand w' h' = Some f' → hand w h' = Some f') → place_inv w'.
Proof.
  intros [P1 P2 P3 P4 P5 P6 P7] Hg Hf Hsk Hok Hch Hl Hl' Hn Hh.
  assert (∀ c' x, x ∈ log w' c' → x ∈ log w c' ∨ c' = c ∧ x = f) as Hcase.
  { intros c' x. destruct (decide (c' = c)) as [->|]; [rewrite Hl; intros [?|?%list_elem_of_singleton]%elem_of_app; auto|rewrite Hl' by done; auto]. }
  assert (∀ h' f', hand w' h' = Some f' → h' ≠ h) as Hne by (intros h' f' Hf' ->; congruence).
  split.
  - intros c' x [[? ?]%P1|[-> ->]]%Hcase; eauto using sock_for_grows, frame_ok_grows.
  - intros c'. destruct (decide (c' = c)) as [->|]; [|by rewrite Hl']. rewrite Hl, fmap_app. apply NoDup_app. split_and!; [done| |apply NoDup_singleton].
    intros i (x & -> & Hx)%list_elem_of_fmap. cbn. rewrite list_elem_of_singleton. by eapply P4.
  - intros c1 c2 x y [Hx|[-> ->]]%Hcase [Hy|[-> ->]]%Hcase; [by eapply P3|intros He; by destruct (P4 _ _ _ _ Hf Hx)|intros He; by destruct (P4 _ _ _ _ Hf Hy)|done].
  - intros h' f' c' x Hf' [Hx|[-> ->]]%Hcase; [by eapply P4; [apply Hh|]|]. intros He. apply (Hne _ _ Hf'). eapply P5; [by apply Hh|done|done].
  - intros h1 h2 f1 f2 H1%Hh H2%Hh. by eapply P5.
  - intros c' ch. destruct (decide (c' = c)) as [->|]; [|by rewrite Hl']. rewrite Hl, filter_app, fmap_app. rewrite filter_cons, filter_nil. case_decide as Hx; [|by rewrite app_nil_r].
    pose proof (Hch _ Hx) as ->. apply StronglySorted_app_2; [|done|constructor; constructor].
    intros i j (x & -> & [Hxc Hxl]%list_elem_of_filter)%list_elem_of_fmap. cbn. rewrite list_elem_of_singleton. intros ->. by eapply P7.
  - intros ch f' c' x Hf' [Hx|[-> ->]]%Hcase Hxc; [by eapply P7; [apply Hh|..]|]. apply Hch in Hxc. by apply Hne in Hf'.
Qed.

(** ** Every step keeps the places *)

Lemma send_outcome w c f : base_inv w → (∃ k, w_socks w !! c = Some k) →
  (∃ err, RouteTunnelFrameFromPlugin_send c f (w_svc w) = (Err err, w_svc w)) ∨
  ∃ s, RouteTunnelFrameFromPlugin_send c f (w_svc w) = (Ok (), s) ∧ ∀ w', w_svc w' = s → w_socks w' = w_socks w → log w' c = log w c ++ [f] ∧ ∀ c', c' ≠ c → log w' c' = log w c'.
Proof.
  intros Hb [k Hk]. unfold RouteTunnelFrameFromPlugin_send. destruct (et_conn (w_svc w) !! c) as [x|] eqn:Ex; [|left; eauto]. case_bool_decide; [|left; eauto].
  right. eexists. split; [done|]. intros w' Hs Hso. unfold log. rewrite Hs, Hso. cbn. rewrite lookup_insert_eq, Hk, Ex. cbn. split; [by rewrite app_assoc|].
  intros c' Hne. by rewrite lookup_insert_ne.
Qed.
Lemma plugin_call_place w pluginID sessionID tunnelID kind w' : own_inv w → place_inv w → plugin_call pluginID sessionID tunnelID kind w = Some w' → place_inv w'.
Proof.
  intros Ho Hp. unfold plugin_call. destruct (match kind with KOpen => _ | KFrame _ _ => _ | KClose => _ end) as [[|d|]|]; intros [= <-];
    [eapply place_quiet; [by apply quiet_add_call|done]| |eapply place_quiet; [by apply quiet_add_call|done]|done].
  set (f := {| fr_id := w_next w; fr_plugin := pluginID; fr_session := sessionID; fr_tunnel := tunnelID; fr_chan := None; fr_data := d |}).
  apply (place_offer w _ (HCall (w_next w)) f); try done.
  - split; cbn; [lia|done|eauto].
  - intros [t|ch] x Hne; [|done]. cbn. rewrite lookup_insert_ne; [done|congruence].
  - cbn. by rewrite lookup_insert_eq.
Qed.
Lemma proceed_place w t now random w' : own_inv w → place_inv w → proceed t now random w = Some w' → place_inv w'.
Proof.
  intros Ho Hp. unfold proceed. destruct (w_calls w !! t) as [k|] eqn:Ek; [|done]. pose proof (bi_call _ (proj1 Ho) _ _ Ek) as Hk. cbn [mbind option_bind]. destruct k.
  - destruct (match random with Some _ => _ | None => _ end); [done|]. destruct (Register now random reg (w_svc w)) as [r s] eqn:ER.
    apply Register_effect in ER as (_ & Hc & _). destruct r; intros [= <-]; (eapply place_quiet; [|done]).
    + etrans; [|by apply quiet_set_call]. etrans; [by apply quiet_drawn|]. apply quiet_svc. cbn. by rewrite Hc.
    + etrans; [|apply quiet_end_call]. apply quiet_svc. by rewrite Hc.
  - intros [= <-]. eapply place_quiet; [|done]. etrans; [apply quiet_registry|apply quiet_end_call].
  - intros [= <-]. eapply place_quiet; [|done]. etrans; [apply quiet_keeps, RevokeBySession_keeps|apply quiet_end_call].
  - intros [= <-]. eapply place_quiet; [|done]. etrans; [apply quiet_keeps, OpenTunnel_keeps|apply quiet_end_call].
  - intros [= <-]. eapply place_quiet; [|done]. etrans; [apply quiet_keeps, CloseTunnel_keeps|apply quiet_end_call].
  - destruct (RouteTunnelFrameFromPlugin_begin _ _ _ _ _) as [r s] eqn:ER. apply Route_begin_keeps in ER as [Hks _]. intros [= <-]. eapply place_quiet; [|done].
    etrans; [by apply quiet_keeps|]. destruct r; [|apply quiet_end_call]. apply quiet_set_call. cbn. by rewrite Ek.
  - destruct Hk as (Hok & Hch & Hsk). destruct (send_outcome w conn f (proj1 Ho)) as [[err ->]|(s & -> & Hl)]; [by destruct Hsk as (x & ? & _); exists x|..]; intros [= <-].
    + eapply place_quiet; [|done]. etrans; [|apply quiet_end_call]. by apply quiet_svc.
    + destruct (Hl (end_call t (set_svc s w))) as [Hl1 Hl2]; [done..|]. apply (place_give w _ (HCall t) f conn); try done.
      * by apply grows_same.
      * cbn. by rewrite Ek.
      * congruence.
      * cbn. by rewrite lookup_delete_eq.
      * apply (quiet_end_call w t).
Qed.
Lemma attach_place w now token tid : own_inv w → place_inv w → place_inv (attach now token tid w).
Proof.
  intros Ho Hp. unfold attach. destruct (AttachWebSocket now token tid (w_svc w)) as [r s] eqn:EA. destruct r as [[c reg]|]; [|apply AttachWebSocket_Err in EA as ->; by destruct w].
  apply AttachWebSocket_Ok in EA as (a & e & e' & _ & _ & _ & -> & _ & _ & _ & _ & Hc & Hc' & _). set (c := et_next (w_svc w)) in *.
  assert (et_conn (w_svc w) !! c = None) as Hn by by apply (si_next _ _ _ (bi_svc _ (proj1 Ho)) c).
  assert (w_socks w !! c = None) as Hnew. { apply eq_None_not_Some. intros [x Hx]. apply (bi_sock _ (proj1 Ho)) in Hx as [_ [y Hy]]. congruence. }
  eapply place_quiet; [|done]. split; [|intros c'; unfold log; cbn|by intros []].
  - split; cbn; [lia|done|]. intros c' x Hx. exists x. rewrite lookup_insert_ne; [done|]. intros ->. congruence.
  - destruct (decide (c' = c)) as [->|]; [by rewrite lookup_insert_eq, Hc, Hnew, Hn|]. rewrite lookup_insert_ne by done. by rewrite Hc'.
Qed.
Lemma socket_writes_place w c w' : place_inv w → socket_writes c w = Some w' → place_inv w'.
Proof.
  intros Hp. unfold socket_writes. destruct (w_socks w !! c) as [k|] eqn:Ek; [|done]. cbn. destruct (et_conn (w_svc w) !! c) as [x|] eqn:Ex; [|done]. cbn.
  destruct (ws_send x) as [|f rest] eqn:Es; [done|]. destruct (sk_writing k); [|done]. intros [= <-]. eapply place_quiet; [|done]. split; [|intros c'; unfold log; cbn|by intros []].
  - eapply grows_trans; [|by apply (grows_sock _ c k)]. by apply grows_same.
  - destruct (decide (c' = c)) as [->|]; [|by rewrite !lookup_insert_ne]. rewrite !lookup_insert_eq, Ek, Ex. cbn. by rewrite Es, <-app_assoc.
Qed.
(** Steps of the pump that reads from the browser. *)
Lemma quiet_pump w c k p : w_socks w !! c = Some k → quiet w (set_sock c (with_in p k) w).
Proof. intros Hk. by eapply quiet_sock. Qed.
Lemma channel_receives_place w ch data w' : own_inv w → place_inv w → channel_receives ch data w = Some w' → place_inv w'.
Proof.
  intros Ho Hp. unfold channel_receives. destruct (w_chans w !! ch) as [n|] eqn:En; [|done]. cbn. destruct (cn_in n) eqn:Ei; try done. intros [= <-].
  set (f := {| fr_id := w_next w |}). apply (place_offer w _ (HChan ch) f); try done.
  - split; cbn; [lia|done|eauto].
  - intros [t|ch'] x Hne; [done|]. cbn. rewrite lookup_insert_ne; [done|congruence].
  - cbn. by rewrite lookup_insert_eq.
Qed.
Lemma refused_frame err f n x : in_frame (channel_refused err f n) = Some x → x = f.
Proof. unfold channel_refused, close_remote. destruct (error_wait err); cbn; [by intros [= <-]|by intros [= <-]|done]. Qed.
Lemma channel_offers_place w ch now w' : place_inv w → channel_offers ch now w = Some w' → place_inv w'.
Proof.
  intros Hp. unfold channel_offers. destruct (w_chans w !! ch) as [n|] eqn:En; [|done]. cbn. destruct (cn_in n) as [| |f| |] eqn:Ei; try done.
  destruct (RouteTunnelFrameFromPlugin_begin _ _ _ _ _) as [r s] eqn:ER. apply Route_begin_keeps in ER as [Hks _]. intros [= <-]. eapply place_quiet; [|done].
  etrans; [by apply quiet_keeps|]. apply quiet_chan. cbn. rewrite En. unfold in_frame at 2. cbn. rewrite Ei. destruct r; [done|]. by intros x ->%refused_frame.
Qed.
Lemma channel_sends_place w ch w' : own_inv w → place_inv w → channel_sends ch w = Some w' → place_inv w'.
Proof.
  intros Ho Hp. unfold channel_sends. destruct (w_chans w !! ch) as [n|] eqn:En; [|done]. cbn [mbind option_bind]. destruct (cn_in n) as [| | |f c|] eqn:Ei; try done.
  pose proof (bi_chan _ (proj1 Ho) _ _ En) as (_ & _ & Hk). rewrite Ei in Hk. destruct Hk as (Hok & (Hch & _) & Hsk).
  assert (hand w (HChan ch) = Some f) as Hh by (cbn; rewrite En; unfold in_frame; cbn; by rewrite Ei).
  destruct (send_outcome w c f (proj1 Ho)) as [[err ->]|(s & -> & Hl)]; [by destruct Hsk as (x & ? & _); exists x|..]; intros [= <-].
  - eapply place_quiet; [|done]. etrans; [by apply quiet_svc|]. apply quiet_chan. intros x ->%refused_frame. exact Hh.
  - destruct (Hl (set_chan ch (with_inbound IRecv n) (set_svc s w))) as [Hl1 Hl2]; [done..|]. apply (place_give w _ (HChan ch) f c); try done.
    + by apply grows_same.
    + intros ch' Hch'. congruence.
    + cbn. by rewrite lookup_insert_eq.
    + by apply (quiet_chan w ch (with_inbound IRecv n)).
Qed.

Lemma quiet_same_in w ch n n' : w_chans w !! ch = Some n → cn_in n' = cn_in n → quiet w (set_chan ch n' w).
Proof. intros Hn Hi. apply quiet_chan. unfold in_frame at 1. rewrite Hi, Hn. cbn. done. Qed.
Lemma channel_wires_place w ch w' : place_inv w → channel_wires ch w = Some w' → place_inv w'.
Proof.
  intros Hp. unfold channel_wires. destruct (w_chans w !! ch) as [n|] eqn:En; [|done]. cbn. destruct (cn_wire n); try done. intros [= <-]. eapply place_quiet; [|done].
  destruct (Wire_begin (cn_b n)); [by apply quiet_chan|by eapply quiet_same_in].
Qed.
Lemma channel_subscribes_place w ch w' : place_inv w → channel_subscribes ch w = Some w' → place_inv w'.
Proof.
  intros Hp. unfold channel_subscribes. destruct (w_chans w !! ch) as [n|] eqn:En; [|done]. cbn. destruct (cn_wire n); try done.
  pose proof (SubscribeOutbound_keeps (w_svc w) (cb_parentSessionID (cn_b n)) (cb_tunnelID (cn_b n))) as Hk. destruct (SubscribeOutbound _ _ _) as [sub s]. intros [= <-].
  eapply place_quiet; [|done]. etrans; [by apply quiet_keeps|]. by eapply quiet_same_in.
Qed.
Lemma channel_undoes_place w ch w' : place_inv w → channel_undoes ch w = Some w' → place_inv w'.
Proof.
  intros Hp. unfold channel_undoes. destruct (w_chans w !! ch) as [n|] eqn:En; [|done]. cbn. destruct (cn_undo n); [|done]. cbn. intros [= <-].
  eapply place_quiet; [|done]. etrans; [by apply quiet_keeps, unsubscribe_keeps|]. by eapply quiet_same_in.
Qed.
Lemma pump_places w c w' : place_inv w →
  pump_checks c w = Some w' ∨ (∃ data, browser_sends c data w = Some w') ∨ (∃ ch, sub_takes c ch w = Some w') ∨ sub_stopped c w = Some w' ∨ input_cancelled c w = Some w'
  ∨ input_notifies c w = Some w' → place_inv w'.
Proof.
  intros Hp Hs. eapply place_quiet; [|exact Hp]. destruct (w_socks w !! c) as [k|] eqn:Ek.
  - destruct Hs as [Hs|[[data Hs]|[[ch Hs]|[Hs|[Hs|Hs]]]]]; revert Hs.
    + unfold pump_checks. rewrite Ek. cbn. destruct (et_conn _ !! c); [|done]. cbn. destruct (sk_in k); try done. intros [= <-]. by apply quiet_pump.
    + unfold browser_sends. rewrite Ek. cbn. destruct (sk_in k); try done. intros [= <-]. by apply quiet_pump.
    + unfold sub_takes. rewrite Ek. cbn. destruct (w_chans w !! ch); [|done]. cbn. destruct (sk_in k); try done. case_bool_decide; [|done]. intros [= <-].
      etrans; [by apply (quiet_pump w c k PCheck)|apply quiet_add_input].
    + unfold sub_stopped. rewrite Ek. cbn. destruct (sk_in k); try done. case_bool_decide; [|done]. intros [= <-]. by apply quiet_pump.
    + unfold input_cancelled. rewrite Ek. cbn. destruct (sk_in k); try done. intros [= <-]. by apply quiet_pump.
    + unfold input_notifies. rewrite Ek. cbn. destruct (sk_in k); try done. intros [= <-].
      destruct (RouteTunnelFrameToPlugin_legacy _ _ _); [etrans; [by apply (quiet_pump w c k PCheck)|apply quiet_add_input]|by apply quiet_pump].
  - destruct Hs as [Hs|[[data Hs]|[[ch Hs]|[Hs|[Hs|Hs]]]]]; revert Hs; unfold pump_checks, browser_sends, sub_takes, sub_stopped, input_cancelled, input_notifies; by rewrite Ek.
Qed.
Lemma step_place w (ev : event) w' : own_inv w → place_inv w → step manifests w ev = Some w' → place_inv w'.
Proof.
  intros Ho Hp. destruct ev; cbn [step].
  - case_bool_decide; [done|]. intros [= <-]. eapply place_quiet; [|done]. etrans; [by apply quiet_drawn|apply quiet_registry].
  - case_bool_decide; [|done]. case_bool_decide; [|done]. case_bool_decide; [done|]. intros [= <-]. eapply place_quiet; [|done]. etrans; [by apply quiet_drawn, insert_subseteq|apply quiet_registry].
  - destruct (w_registry w !! sessionID); [|by intros [= <-]]. intros [= <-]. eapply place_quiet; [|done]. etrans; [apply quiet_registry|by apply quiet_add_call].
  - intros [= <-]. eapply place_quiet; [|done]. apply quiet_keeps, SetSessionActive_keeps.
  - case_bool_decide; [done|]. destruct (HandlePluginRegisterEmbed_begin _ _ _ _ _ _ _); intros [= <-]; [|done]. eapply place_quiet; [|done]. by apply quiet_add_call.
  - case_bool_decide; [done|]. by apply plugin_call_place.
  - by apply proceed_place.
  - intros [= <-]. by apply attach_place.
  - by apply socket_writes_place.
  - destruct (w_socks w !! c) as [k|] eqn:Ek; [|done]. cbn. intros [= <-]. eapply place_quiet; [|done]. by eapply quiet_sock.
  - eauto using pump_places.
  - eauto using pump_places.
  - destruct (w_socks w !! c) as [k|] eqn:Ek; [|done]. cbn. destruct (sk_in k); try done. intros [= <-]. eapply place_quiet; [|done]. by apply quiet_pump.
  - intros Hs. eapply pump_places; [done|]. eauto 10.
  - intros Hs. eapply pump_places; [done|]. eauto 10.
  - intros Hs. eapply pump_places; [done|]. eauto 10.
  - intros Hs. eapply pump_places; [done|]. eauto 10.
  - intros [= <-]. unfold channel_opens. destruct (Authorize _ _ _ _ _); [|done]. eapply place_quiet; [|done]. etrans; [|apply quiet_next]. by apply quiet_chan.
  - by apply channel_wires_place.
  - by apply channel_subscribes_place.
  - unfold channel_returns. destruct (w_chans w !! ch) as [n|] eqn:En; [|done]. cbn. destruct (cn_wire n); try done. intros [= <-]. eapply place_quiet; [|done]. by eapply quiet_same_in.
  - by apply channel_receives_place.
  - by apply channel_offers_place.
  - by apply channel_sends_place.
  - unfold channel_gives_up. destruct (w_chans w !! ch) as [n|] eqn:En; [|done]. cbn. destruct (cn_in n); try done. intros [= <-]. eapply place_quiet; [|done]. by apply quiet_chan.
  - unfold channel_ends. destruct (w_chans w !! ch) as [n|] eqn:En; [|done]. cbn. destruct (cn_in n); try done. intros [= <-]. eapply place_quiet; [|done]. by apply quiet_chan.
  - unfold channel_closes. destruct (w_chans w !! ch) as [n|] eqn:En; [|done]. cbn. intros [= <-]. eapply place_quiet; [|done]. by eapply quiet_same_in.
  - by apply channel_undoes_place.
  - unfold outbound_ends. destruct (w_chans w !! ch) as [n|] eqn:En; [|done]. cbn. intros [= <-]. eapply place_quiet; [|done]. by eapply quiet_same_in.
Qed.
Lemma run_place w es w' : own_inv w → place_inv w → run manifests w es = Some w' → own_inv w' ∧ place_inv w'.
Proof.
  revert w. induction es as [|ev es IH]; intros w Ho Hp; cbn; [by intros [= <-]|]. destruct (step manifests w ev) as [w1|] eqn:E1; [|done]. cbn. apply IH; [by eapply step_own|by eapply step_place].
Qed.
End Places.
