(* ===== verification/EmbedSafety.v ===== *)
(** * EmbedSafety: what embedding guarantees, and where it falls short

    The theorems on the machine of [EmbedWorld]: frames and input reach only their own plugin, session and tunnel; no operation closes a channel twice, and queues stay
    within the credit window; a token that was revoked is dead, with its sockets; offering a frame ends. Then runs that show defects of the code. *)

From S2P Require Import Prelude Bytes GoText EmbedTunnel EmbedWorld EmbedLaws EmbedInv EmbedPlaces.

(** ** Tokens that died *)

Section Calm.
Context {L : Type} `{RateBucket L} (manifests : gmap bytes (list (bytes * bytes))).
Implicit Types (w : world L) (s : EmbedTunnelService L).

(** What all operations but [Register] and [AttachWebSocket] keep: sockets stay closed, an open socket stays with its entry, no token comes back. *)
Record svc_calm s s' : Prop := {
  cm_done : ∀ c x', et_conn s' !! c = Some x' → ∃ x, et_conn s !! c = Some x ∧ (ws_done x = true → ws_done x' = true);
  cm_open : ∀ a e tid c x', et_entry s !! a = Some e → en_wsConns e !! tid = Some c → et_conn s' !! c = Some x' → ws_done x' = false →
    ∃ e', et_entry s' !! a = Some e' ∧ ids e' = ids e ∧ en_wsConns e' !! tid = Some c;
  cm_ids : ∀ a e', et_entry s' !! a = Some e' → ∃ e, et_entry s !! a = Some e ∧ ids e' = ids e;
  cm_entries : et_entries s' ⊆ et_entries s;
}.
#[export] Instance svc_calm_preorder : PreOrder svc_calm.
Proof.
  split; [intros s; split; eauto; done|]. intros s1 s2 s3 [d12 o12 i12 e12] [d23 o23 i23 e23]. split.
  - intros c x3 (x2 & Hx2 & H23)%d23. apply d12 in Hx2 as (x1 & Hx1 & H12). eauto.
  - intros a e tid c x3 Ha Hc Hx3 Hd. destruct (d23 _ _ Hx3) as (x2 & Hx2 & H23). destruct (o12 a e tid c x2) as (e2 & He2 & Hi2 & Hc2); [done..|by destruct (ws_done x2); [specialize (H23 eq_refl); congruence|]|].
    destruct (o23 _ _ _ _ _ He2 Hc2 Hx3 Hd) as (e3 & He3 & Hi3 & Hc3). exists e3. split_and!; [done|congruence|done].
  - intros a e3 (e2 & He2 & Hi3)%i23. apply i12 in He2 as (e1 & He1 & Hi2). exists e1. split; [done|congruence].
  - by etrans.
Qed.
Lemma calm_set_entry s a e e' : et_entry s !! a = Some e → ids e' = ids e → en_wsConns e' = en_wsConns e → svc_calm s (set_entry a e' s).
Proof.
  intros He Hi Hw. split; cbn; [eauto| | |done].
  - intros b x tid c x' Hb Hc _ _. destruct (decide (b = a)) as [->|]; [|exists x; by rewrite lookup_insert_ne]. assert (x = e) as -> by congruence.
    exists e'. rewrite lookup_insert_eq. split_and!; [done|done|congruence].
  - intros b x. destruct (decide (b = a)) as [->|]; [rewrite lookup_insert_eq; intros [= <-]; eauto|rewrite lookup_insert_ne by done; eauto].
Qed.
Lemma calm_tables s entries tokens active : entries ⊆ et_entries s → svc_calm s (set_tables entries tokens active s).
Proof. intros He. split; cbn; eauto. Qed.
Lemma calm_outbound s o subs : svc_calm s (set_outbound o subs s).
Proof. split; cbn; eauto; done. Qed.
Lemma calm_bump s : svc_calm s (bump s).
Proof. split; cbn; eauto; done. Qed.
Lemma calm_conn s c k k' : et_conn s !! c = Some k → (ws_done k = true → ws_done k' = true) → svc_calm s (set_conn c k' s).
Proof.
  intros Hk Hd. split; cbn; [|eauto|eauto|done]. intros c' x'. destruct (decide (c' = c)) as [->|]; [rewrite lookup_insert_eq; intros [= <-]; eauto|rewrite lookup_insert_ne by done; eauto].
Qed.
Lemma calm_close_done s c : svc_calm s (close_done c s).
Proof.
  unfold close_done. destruct (et_conn s !! c) as [k|] eqn:Ek; [|split; cbn; eauto; done]. destruct (ws_done k); [split; cbn; eauto; done|]. by eapply calm_conn.
Qed.
Lemma calm_close_all s cs : svc_calm s (foldr close_done s cs).
Proof. induction cs as [|c cs IH]; cbn; [done|]. etrans; [exact IH|apply calm_close_done]. Qed.
Lemma RevokeBySession_calm s S : svc_calm s (RevokeBySession S s).
Proof.
  unfold RevokeBySession. destruct (et_sessionToken s !! S) as [t|]; [|done]. destruct (entry_of s t) as [[a e]|] eqn:Ee.
  - apply entry_of_Some in Ee as [_ He]. etrans; [|apply calm_tables, delete_subseteq]. etrans; [|apply calm_close_all]. by eapply calm_set_entry.
  - apply calm_tables, delete_subseteq.
Qed.
Lemma mark_open_calm s S tid : svc_calm s (mark_open S tid s).
Proof.
  unfold mark_open. destruct (entryForSession s S) as [[a e]|] eqn:Ee; [|done]. destruct (en_tunnelOpen e !! tid); [|done].
  apply entryForSession_Ok in Ee as (_ & _ & _ & He & _). by eapply calm_set_entry.
Qed.
Lemma OpenTunnel_calm s S tid : svc_calm s (OpenTunnel S tid s).2.
Proof.
  unfold OpenTunnel. destruct (entryForSession s S) as [[a e]|] eqn:Ee; [|done]. destruct (en_tunnelOpen e !! tid); [|done].
  apply entryForSession_Ok in Ee as (_ & _ & _ & He & _). by eapply calm_set_entry.
Qed.
(** Taking a tunnel's socket away after closing it. *)
Lemma calm_drop s a e e' tid c k : et_entry s !! a = Some e → en_wsConns e !! tid = Some c → et_conn s !! c = Some k → ws_done k = true → ids e' = ids e →
  en_wsConns e' = delete tid (en_wsConns e) → svc_calm s (set_entry a e' s).
Proof.
  intros He Hc Hk Hd Hi Hw. split; cbn; [eauto| | |done].
  - intros b x tid' c' x' Hb Hc' Hx' Hd'. destruct (decide (b = a)) as [->|]; [|exists x; by rewrite lookup_insert_ne]. assert (x = e) as -> by congruence.
    exists e'. rewrite lookup_insert_eq, Hw. split_and!; [done|done|]. apply lookup_delete_Some. split; [intros <-; congruence|done].
  - intros b x. destruct (decide (b = a)) as [->|]; [rewrite lookup_insert_eq; intros [= <-]; eauto|rewrite lookup_insert_ne by done; eauto].
Qed.
Lemma CloseTunnel_calm owner minted s S tid : svc_inv owner minted s → svc_calm s (CloseTunnel S tid s).2.
Proof.
  intros Hi. unfold CloseTunnel. destruct (entryForSession s S) as [[a e]|] eqn:Ee; [|done]. eapply entryForSession_session in Ee as (He & _ & Ha); [|done]. cbn [snd].
  destruct (en_wsConns e !! tid) as [c|] eqn:Ec; [|eapply calm_set_entry; [done|done|cbn; by rewrite delete_id]].
  destruct (close_one _ _ _ _ _ _ _ Hi Ha He Ec) as (k & Hk & -> & _). etrans; [by apply (calm_conn s c k (closed k))|]. eapply (calm_drop _ a e _ tid c (closed k)); try done. cbn. by rewrite lookup_insert_eq.
Qed.
Lemma SetSessionActive_calm s S b : svc_calm s (SetSessionActive S b s).
Proof.
  unfold SetSessionActive. set (s1 := set_tables _ _ _ s). assert (svc_calm s s1) as Hc by by apply calm_tables.
  destruct (et_sessionToken s1 !! S) as [t|]; [|done]. destruct (entry_of s1 t) as [[a e]|] eqn:Ee; [|done]. apply entry_of_Some in Ee as [_ He]. etrans; [exact Hc|]. by eapply calm_set_entry.
Qed.
Lemma Route_begin_calm now S tid data s r s' : RouteTunnelFrameFromPlugin_begin now S tid data s = (r, s') → svc_calm s s'.
Proof.
  unfold RouteTunnelFrameFromPlugin_begin. destruct (_ <? _); [by intros [= _ <-]|]. destruct (entryForSession s S) as [[a e]|] eqn:Ee; [|by intros [= _ <-]].
  destruct (negb (en_active e)); [by intros [= _ <-]|]. destruct (AllowN now (len data) (en_limiter e)) as [ok l]. apply entryForSession_Ok in Ee as (_ & _ & _ & He & _).
  assert (svc_calm s (set_entry a (with_limiter l e) s)) by by eapply calm_set_entry.
  destruct (negb ok); [by intros [= _ <-]|]. destruct (en_wsConns e !! tid); by intros [= _ <-].
Qed.
Lemma Route_send_calm s c f : svc_calm s (RouteTunnelFrameFromPlugin_send c f s).2.
Proof. unfold RouteTunnelFrameFromPlugin_send. destruct (et_conn s !! c) as [k|] eqn:Ek; [|done]. case_bool_decide; [|done]. by eapply calm_conn. Qed.
Lemma SubscribeOutbound_calm s S tid : svc_calm s (SubscribeOutbound S tid s).2.
Proof. unfold SubscribeOutbound. destruct (_ || _); [done|]. cbn [snd]. etrans; [|apply mark_open_calm]. etrans; [apply calm_bump|apply calm_outbound]. Qed.

(** An open socket is the one its entry has for the tunnel, and a token has one entry. *)
Record open_inv w : Prop := {
  oi_open : ∀ c k x, w_socks w !! c = Some k → et_conn (w_svc w) !! c = Some x → ws_done x = false →
    ∃ a e, et_entry (w_svc w) !! a = Some e ∧ er_Token (en_reg e) = sk_token k ∧ en_wsConns e !! sk_tunnel k = Some c;
  oi_token : ∀ a1 e1 a2 e2, et_entry (w_svc w) !! a1 = Some e1 → et_entry (w_svc w) !! a2 = Some e2 → er_Token (en_reg e1) = er_Token (en_reg e2) → a1 = a2;
}.
(** A token that was drawn, leads nowhere, and whose sockets are closed. *)
Record dead (t : bytes) w : Prop := {
  de_minted : t ∈ w_minted w;
  de_entry : et_entries (w_svc w) !! t = None;
  de_socks : ∀ c k x, w_socks w !! c = Some k → sk_token k = t → et_conn (w_svc w) !! c = Some x → ws_done x = true;
}.
Record calm w w' : Prop := {
  ca_svc : svc_calm (w_svc w) (w_svc w');
  ca_socks : ∀ c k', w_socks w' !! c = Some k' → ∃ k, w_socks w !! c = Some k ∧ who k' = who k;
  ca_minted : w_minted w ⊆ w_minted w';
}.
Lemma calm_inv w w' : calm w w' → open_inv w → open_inv w' ∧ ∀ t, dead t w → dead t w'.
Proof.
  intros [[Hd Ho Hi He] Hs Hm] [Oo Ot]. split; [split|intros t [D1 D2 D3]; split].
  - intros c k' x' Hk' Hx' Hd'. destruct (Hs _ _ Hk') as (k & Hk & [= Hw1 _ _ Hw2]). destruct (Hd _ _ Hx') as (x & Hx & Hdx).
    destruct (Oo c k x) as (a & e & Ha & Ht & Hc); [done..|by destruct (ws_done x); [specialize (Hdx eq_refl); congruence|]|].
    destruct (Ho _ _ _ _ _ Ha Hc Hx' Hd') as (e' & He' & [= Hi1 _ _] & Hc'). exists a, e'. split_and!; [done|congruence|congruence].
  - intros a1 e1 a2 e2 (y1 & Hy1 & [= -> _ _])%Hi (y2 & Hy2 & [= -> _ _])%Hi. by apply Ot.
  - set_solver.
  - apply eq_None_not_Some. intros [a Ha]. eapply lookup_weaken in Ha; [|exact He]. congruence.
  - intros c k' x' Hk' Ht Hx'. destruct (Hs _ _ Hk') as (k & Hk & [= Hw1 _ _ Hw2]). destruct (Hd _ _ Hx') as (x & Hx & Hdx). apply Hdx. eapply D3; [done|congruence|done].
Qed.
#[export] Instance calm_preorder : PreOrder calm.
Proof.
  split; [intros w; split; [done|eauto|done]|]. intros w1 w2 w3 [v12 s12 m12] [v23 s23 m23]. split; [by etrans| |by etrans].
  intros c k3 (k2 & Hk2 & Hw3)%s23. apply s12 in Hk2 as (k1 & Hk1 & Hw2). exists k1. split; [done|congruence].
Qed.
Lemma calm_same w w' : w_svc w' = w_svc w → w_socks w' = w_socks w → w_minted w' = w_minted w → calm w w'.
Proof. intros Hs Hk Hm. split; rewrite ?Hs, ?Hk, ?Hm; eauto; done. Qed.
Lemma calm_svc w s : svc_calm (w_svc w) s → calm w (set_svc s w).
Proof. intros Hs. split; cbn; eauto. Qed.
Lemma calm_sock w c k k' : w_socks w !! c = Some k → who k' = who k → calm w (set_sock c k' w).
Proof. intros Hk Hw. split; cbn; [done| |done]. intros c' x. destruct (decide (c' = c)) as [->|]; [rewrite lookup_insert_eq; intros [= <-]; eauto|rewrite lookup_insert_ne by done; eauto]. Qed.

Lemma proceed_calm w t now random w' : own_inv w → proceed t now random w = Some w' → (∀ reg, w_calls w !! t ≠ Some (TRegister reg)) → calm w w'.
Proof.
  intros Ho. unfold proceed. destruct (w_calls w !! t) as [k|] eqn:Ek; [|done]. cbn [mbind option_bind]. pose proof (bi_svc _ (proj1 Ho)) as Hi. destruct k; intros Hw Hn; try (injection Hw as <-).
  - by destruct (Hn reg).
  - by apply calm_same.
  - etrans; [apply calm_svc, RevokeBySession_calm|by apply calm_same].
  - etrans; [apply calm_svc, OpenTunnel_calm|by apply calm_same].
  - etrans; [by eapply calm_svc, CloseTunnel_calm|by apply calm_same].
  - destruct (RouteTunnelFrameFromPlugin_begin _ _ _ _ _) as [r s] eqn:ER. injection Hw as <-. etrans; [by eapply calm_svc, Route_begin_calm|]. destruct r; by apply calm_same.
  - etrans; [apply calm_svc, Route_send_calm|by apply calm_same].
Qed.
Lemma channel_calm w ch n s : w_chans w !! ch = Some n → svc_calm (w_svc w) s → ∀ n', calm w (set_chan ch n' (set_svc s w)).
Proof. intros Hn Hs n'. etrans; [by apply calm_svc|by apply calm_same]. Qed.
Lemma pump_calm w c w' : pump_checks c w = Some w' ∨ (∃ data, browser_sends c data w = Some w') ∨ (∃ ch, sub_takes c ch w = Some w') ∨ sub_stopped c w = Some w'
  ∨ input_cancelled c w = Some w' ∨ input_notifies c w = Some w' → calm w w'.
Proof.
  unfold pump_checks, browser_sends, sub_takes, sub_stopped, input_cancelled, input_notifies. destruct (w_socks w !! c) as [k|] eqn:Ek; [|naive_solver]. cbn.
  assert (∀ p, calm w (set_sock c (with_in p k) w)) as Hp by (intros p; by eapply calm_sock).
  intros [Hs|[[data Hs]|[[ch Hs]|[Hs|[Hs|Hs]]]]]; revert Hs.
  - destruct (et_conn _ !! c); [|done]. cbn. destruct (sk_in k); try done. intros [= <-]. apply Hp.
  - destruct (sk_in k); try done. intros [= <-]. apply Hp.
  - destruct (w_chans w !! ch); [|done]. cbn. destruct (sk_in k); try done. case_bool_decide; [|done]. intros [= <-]. etrans; [apply (Hp PCheck)|by apply calm_same].
  - destruct (sk_in k); try done. case_bool_decide; [|done]. intros [= <-]. apply Hp.
  - destruct (sk_in k); try done. intros [= <-]. apply Hp.
  - destruct (sk_in k); try done. intros [= <-]. destruct (RouteTunnelFrameToPlugin_legacy _ _ _); [etrans; [apply (Hp PCheck)|by apply calm_same]|apply Hp].
Qed.
(** All steps but two are calm. *)
Lemma step_calm w (ev : event) w' : own_inv w → step manifests w ev = Some w' →
  calm w w' ∨ (∃ t now random reg, ev = Proceeds t now random ∧ w_calls w !! t = Some (TRegister reg)) ∨ ∃ now token tid, ev = Attaches now token tid.
Proof.
  intros Ho. destruct ev; cbn [step]; try (intros Hs; left; eapply pump_calm; eauto 10; fail).
  - case_bool_decide; [done|]. intros [= <-]. left. by apply calm_same.
  - case_bool_decide; [|done]. case_bool_decide; [|done]. case_bool_decide; [done|]. intros [= <-]. left. by apply calm_same.
  - destruct (w_registry w !! sessionID); intros [= <-]; left; by apply calm_same.
  - intros [= <-]. left. apply calm_svc, SetSessionActive_calm.
  - case_bool_decide; [done|]. destruct (HandlePluginRegisterEmbed_begin _ _ _ _ _ _ _); intros [= <-]; left; by apply calm_same.
  - case_bool_decide; [done|]. unfold plugin_call. destruct (match kind with KOpen => _ | KFrame _ _ => _ | KClose => _ end) as [[| |]|]; intros [= <-]; left; by apply calm_same.
  - intros Hp. destruct (w_calls w !! t) as [k|] eqn:Ek; [|unfold proceed in Hp; by rewrite Ek in Hp]. destruct k; [right; left; eauto 10|left; eapply proceed_calm; [done|done|]; intros; congruence..].
  - eauto 10.
  - unfold socket_writes. destruct (w_socks w !! c) as [k|] eqn:Ek; [|done]. cbn. destruct (et_conn (w_svc w) !! c) as [x|] eqn:Ex; [|done]. cbn.
    destruct (ws_send x) as [|f rest]; [done|]. destruct (sk_writing k); [|done]. intros [= <-]. left.
    etrans; [by apply calm_svc, (calm_conn _ c x {| ws_send := rest; ws_done := ws_done x |})|by eapply calm_sock].
  - destruct (w_socks w !! c) as [k|] eqn:Ek; [|done]. cbn. intros [= <-]. left. by eapply calm_sock.
  - destruct (w_socks w !! c) as [k|] eqn:Ek; [|done]. cbn. destruct (sk_in k); try done. intros [= <-]. left. by eapply calm_sock.
  - intros [= <-]. left. unfold channel_opens. destruct (Authorize _ _ _ _ _); by apply calm_same.
  - unfold channel_wires. destruct (w_chans w !! ch) as [n|]; [|done]. cbn. destruct (cn_wire n); try done. intros [= <-]. left. by apply calm_same.
  - unfold channel_subscribes. destruct (w_chans w !! ch) as [n|] eqn:En; [|done]. cbn. destruct (cn_wire n); try done.
    pose proof (SubscribeOutbound_calm (w_svc w) (cb_parentSessionID (cn_b n)) (cb_tunnelID (cn_b n))) as Hc. destruct (SubscribeOutbound _ _ _). intros [= <-]. left. by eapply channel_calm.
  - unfold channel_returns. destruct (w_chans w !! ch) as [n|]; [|done]. cbn. destruct (cn_wire n); try done. intros [= <-]. left. by apply calm_same.
  - unfold channel_receives. destruct (w_chans w !! ch) as [n|]; [|done]. cbn. destruct (cn_in n); try done. intros [= <-]. left. by apply calm_same.
  - unfold channel_offers. destruct (w_chans w !! ch) as [n|] eqn:En; [|done]. cbn. destruct (cn_in n); try done. destruct (RouteTunnelFrameFromPlugin_begin _ _ _ _ _) as [r s] eqn:ER.
    intros [= <-]. left. eapply channel_calm; [done|]. by eapply Route_begin_calm.
  - unfold channel_sends. destruct (w_chans w !! ch) as [n|] eqn:En; [|done]. cbn. destruct (cn_in n) as [| | |f c|]; try done. pose proof (Route_send_calm (w_svc w) c f) as Hc.
    destruct (RouteTunnelFrameFromPlugin_send _ _ _) as [r s]. intros [= <-]. left. by eapply channel_calm.
  - unfold channel_gives_up. destruct (w_chans w !! ch) as [n|]; [|done]. cbn. destruct (cn_in n); try done. intros [= <-]. left. by apply calm_same.
  - unfold channel_ends. destruct (w_chans w !! ch) as [n|]; [|done]. cbn. destruct (cn_in n); try done. intros [= <-]. left. by apply calm_same.
  - unfold channel_closes. destruct (w_chans w !! ch) as [n|]; [|done]. cbn. intros [= <-]. left. by apply calm_same.
  - unfold channel_undoes. destruct (w_chans w !! ch) as [n|] eqn:En; [|done]. cbn. destruct (cn_undo n); [|done]. cbn. intros [= <-]. left. eapply channel_calm; [done|]. apply calm_outbound.
  - unfold outbound_ends. destruct (w_chans w !! ch) as [n|]; [|done]. cbn. intros [= <-]. left. by apply calm_same.
Qed.

Lemma open_same w w' : w_svc w' = w_svc w → w_socks w' = w_socks w → w_minted w' = w_minted w → open_inv w → open_inv w' ∧ ∀ t, dead t w → dead t w'.
Proof. intros Hs Hk Hm. by apply calm_inv, calm_same. Qed.
Lemma register_open w t now random reg w' : own_inv w → open_inv w → w_calls w !! t = Some (TRegister reg) → proceed t now random w = Some w' → open_inv w' ∧ ∀ t, dead t w → dead t w'.
Proof.
  intros Ho Hp Hk. unfold proceed. rewrite Hk. cbn [mbind option_bind]. destruct (match random with Some _ => _ | None => _ end) eqn:Ef; [done|].
  destruct (Register now random reg (w_svc w)) as [r s] eqn:ER. apply Register_effect in ER as (_ & Hc & He).
  set (m := match random with Some buf => {[hex_encode buf]} | None => ∅ end ∪ w_minted w). set (w1 := set_svc s (set_drawn (w_owner w) (w_opened w) m w)).
  assert (∀ m', w_minted w ⊆ m' → open_inv (set_svc s (set_drawn (w_owner w) (w_opened w) m' w)) ∧ ∀ t, dead t w → dead t (set_svc s (set_drawn (w_owner w) (w_opened w) m' w))) as H1.
  { intros m' Hm. destruct He as [->|(buf & e & -> & He & Hw & Hn & Ht & Hen)]; [apply calm_inv; [|done]; split; cbn; eauto; done|].
    apply bool_decide_eq_false in Ef. destruct Hp as [Oo Ot]. pose proof (bi_svc _ (proj1 Ho)) as Hi. destruct (si_next _ _ _ Hi (et_next (w_svc w))) as (Hnone & _); [lia|].
    split; [split|intros t' [D1 D2 D3]; split]; cbn.
    - rewrite Hc, He. intros c k x Hck Hx Hd. destruct (Oo _ _ _ Hck Hx Hd) as (a & y & Ha & Hy & Hyc). exists a, y. rewrite lookup_insert_ne; [done|]. intros <-. congruence.
    - rewrite He. assert (∀ a y, et_entry (w_svc w) !! a = Some y → er_Token (en_reg y) ≠ er_Token (en_reg e)) as Hfresh.
      { intros a y [_ Hy]%(si_own _ _ _ Hi). rewrite Ht. congruence. }
      intros a1 e1 a2 e2. destruct (decide (a1 = et_next (w_svc w))) as [->|], (decide (a2 = et_next (w_svc w))) as [->|]; rewrite ?lookup_insert_eq, ?lookup_insert_ne by done; [done|..|by apply Ot].
      + intros [= <-] H2 Heq. by destruct (Hfresh _ _ H2).
      + intros H2 [= <-] Heq. by destruct (Hfresh _ _ H2).
    - set_solver.
    - apply eq_None_not_Some. intros [a [->|Ha]%Hen]; [done|congruence].
    - rewrite Hc. exact D3. }
  destruct r as [desc|]; intros [= <-].
  - destruct (H1 m) as [Ho1 Hd1]; [set_solver|]. destruct (open_same w1 (set_call t (TDescriptor (er_SessionID reg) desc) w1)) as [Ho2 Hd2]; [done..|]. split; [exact Ho2|]. intros t' Hd. by apply Hd2, Hd1.
  - destruct (H1 (w_minted w)) as [Ho1 Hd1]; [done|]. apply (open_same _ (end_call t (set_svc s w))) in Ho1 as [Ho2 Hd2]; [|done..]. split; [exact Ho2|]. intros t' Hd. by apply Hd2, Hd1.
Qed.
Lemma attach_open w now token tid : own_inv w → open_inv w → open_inv (attach now token tid w) ∧ ∀ t, dead t w → dead t (attach now token tid w).
Proof.
  intros Ho Hp. unfold attach. destruct (AttachWebSocket now token tid (w_svc w)) as [r s] eqn:EA.
  destruct r as [[c reg]|]; [|apply AttachWebSocket_Err in EA as ->; by apply (open_same w)].
  apply AttachWebSocket_Ok in EA as (a & e & e' & Ha & He & <- & -> & _ & Hent & Hreg & Hws & Hc & _ & _ & _ & Hen & Hd). pose proof (bi_svc _ (proj1 Ho)) as Hi.
  set (c := et_next (w_svc w)) in *. destruct (si_ent _ _ _ Hi _ _ Ha) as (e0 & He0 & Htok & _). assert (e0 = e) as -> by congruence. clear He0.
  assert (w_socks w !! c = None) as Hnew. { apply eq_None_not_Some. intros [x Hx]. apply (bi_sock _ (proj1 Ho)) in Hx as [_ [y Hy]]. destruct (si_next _ _ _ Hi c) as (_ & Hz & _); [done|congruence]. }
  set (k := {| sk_token := token; sk_plugin := er_PluginID (en_reg e); sk_session := er_SessionID (en_reg e); sk_tunnel := tid; sk_in := PCheck; sk_writing := true; sk_wire := [] |}).
  assert (∀ c' k', <[c:=k]> (w_socks w) !! c' = Some k' → c' = c ∧ k' = k ∨ c' ≠ c ∧ w_socks w !! c' = Some k') as Hcase.
  { intros c' k'. destruct (decide (c' = c)) as [->|]; [rewrite lookup_insert_eq|rewrite lookup_insert_ne by done]; naive_solver. }
  destruct Hp as [Oo Ot]. split; [split|intros t [D1 D2 D3]; split]; cbn.
  - intros c' k' x [[-> ->]|[Hne Hk']]%Hcase Hx Hdx.
    + exists a, e'. rewrite Hent, lookup_insert_eq, Hws, lookup_insert_eq. split_and!; [done|cbn; congruence|done].
    + destruct (Hd _ _ Hne Hx) as (y & Hy & Hyd). assert (ws_done y = false) as Hyf by (destruct (ws_done y); [rewrite Hyd in Hdx; [done|by left]|done]).
      destruct (Oo _ _ _ Hk' Hy Hyf) as (a' & z & Ha' & Hz & Hzc). destruct (decide (a' = a)) as [->|]; [|exists a', z; by rewrite Hent, lookup_insert_ne].
      assert (z = e) as -> by congruence. exists a, e'. rewrite Hent, lookup_insert_eq, Hws. split_and!; [done|congruence|].
      rewrite lookup_insert_ne; [done|]. intros Heq. rewrite <-Heq in Hzc. rewrite Hyd in Hdx; [done|by right].
  - rewrite Hent. assert (∀ b x, <[a:=e']> (et_entry (w_svc w)) !! b = Some x → ∃ y, et_entry (w_svc w) !! b = Some y ∧ en_reg x = en_reg y) as Hold.
    { intros b x. destruct (decide (b = a)) as [->|]; [rewrite lookup_insert_eq; intros [= <-]; eauto|rewrite lookup_insert_ne by done; eauto]. }
    intros a1 e1 a2 e2 (y1 & Hy1 & ->)%Hold (y2 & Hy2 & ->)%Hold. by apply Ot.
  - done.
  - by rewrite Hen.
  - intros c' k' x [[-> ->]|[Hne Hk']]%Hcase Ht Hx; [cbn in Ht; congruence|]. destruct (Hd _ _ Hne Hx) as (y & Hy & Hyd). apply Hyd. left. by eapply D3.
Qed.
Lemma step_open w (ev : event) w' : own_inv w → open_inv w → step manifests w ev = Some w' → open_inv w' ∧ ∀ t, dead t w → dead t w'.
Proof.
  intros Ho Hp Hs. destruct (step_calm _ _ _ Ho Hs) as [Hc|[(t & now & random & reg & -> & Hk)|(now & token & tid & ->)]]; [by eapply calm_inv|by eapply register_open|].
  injection Hs as <-. by apply attach_open.
Qed.
Lemma run_open w es w' : own_inv w → open_inv w → run manifests w es = Some w' → own_inv w' ∧ open_inv w' ∧ ∀ t, dead t w → dead t w'.
Proof.
  revert w. induction es as [|ev es IH]; intros w Ho Hp; cbn; [by intros [= <-]|]. destruct (step manifests w ev) as [w1|] eqn:E1; [|done]. cbn. intros Hr.
  destruct (step_open _ _ _ Ho Hp E1) as [Hp1 Hd1]. destruct (IH w1) as (Ho2 & Hp2 & Hd2); [by eapply step_own|done|done|]. split_and!; auto.
Qed.
Lemma open_new notify url : open_inv (NewWorld notify url).
Proof. split; cbn; intros *; by rewrite lookup_empty. Qed.

(** Revoking kills the token of the session. *)
Lemma revoke_dead w S t : own_inv w → open_inv w → et_sessionToken (w_svc w) !! S = Some t → dead t (set_svc (RevokeBySession S (w_svc w)) w).
Proof.
  intros [Hb _] [Oo Ot] Ht. pose proof (bi_svc _ Hb) as Hi. destruct (si_tok _ _ _ Hi _ _ Ht) as (a & e & Ha & He & HS).
  destruct (si_ent _ _ _ Hi _ _ Ha) as (e0 & He0 & Htok & _). assert (e0 = e) as -> by congruence. unfold RevokeBySession. rewrite Ht.
  rewrite (proj2 (entry_of_Some _ _ _ _) (conj Ha He)). set (e' := with_reg (revoke_registration (en_reg e)) e).
  destruct (close_all_open (map_to_list (en_wsConns e)).*2 (set_entry a e' (w_svc w))) as (m & -> & Hm).
  - apply NoDup_fmap_2_strong; [|apply NoDup_map_to_list]. intros [t1 c1] [t2 c2] H1%elem_of_map_to_list H2%elem_of_map_to_list Hc. cbn in Hc. subst c2.
    destruct (si_inj _ _ _ Hi _ _ _ _ _ _ _ He He H1 H2) as [_ ->]. done.
  - intros c ([tid c'] & -> & Hc%elem_of_map_to_list)%list_elem_of_fmap. cbn. by eapply (si_live _ _ _ Hi).
  - split; cbn.
    + rewrite <-Htok. by eapply (si_own _ _ _ Hi).
    + by rewrite lookup_delete_eq.
    + intros c k x Hk Hkt. rewrite Hm. cbn. intros Hx. destruct (decide (c ∈ _)) as [Hin|Hin]; [apply fmap_Some in Hx as (y & _ & ->); done|].
      destruct (ws_done x) eqn:Ed; [done|]. destruct (Oo _ _ _ Hk Hx Ed) as (a' & y & Ha' & Hyt & Hyc). assert (a' = a) as -> by (eapply Ot; [done|exact He|congruence]).
      assert (y = e) as -> by congruence. destruct Hin. apply list_elem_of_fmap. exists (sk_tunnel k, c). split; [done|]. by apply elem_of_map_to_list.
Qed.
Lemma dead_refused t w now tid : dead t w → Lookup now t (w_svc w) = Err ErrSessionNotFound ∧ AttachWebSocket now t tid (w_svc w) = (Err ErrSessionNotFound, w_svc w).
Proof. intros [_ Hn _]. unfold Lookup, AttachWebSocket, live_entry, entry_of. by rewrite Hn. Qed.
End Calm.

(** ** The guarantees *)

(** The three groups hold wherever a run leads. *)
Lemma reached {L} `{RateBucket L} manifests notify url es (w : world L) : run manifests (NewWorld notify url) es = Some w → own_inv w ∧ place_inv w ∧ open_inv w.
Proof.
  intros Hr. destruct (run_place manifests _ _ _ (own_new _ _) (place_new _ _) Hr) as [Ho Hp]. destruct (run_open manifests _ _ _ (own_new _ _) (open_new _ _) Hr) as (_ & Hop & _). done.
Qed.

(** A bucket that is never empty, to run examples with. *)
#[export] Instance free_bucket : RateBucket unit := {| NewLimiter := λ _ _, tt; bucket_AllowN := λ _ _ l, (true, l) |}.
Definition ex_plugin : bytes := bytes_of_string "vnc-plugin".
Definition ex_session : bytes := bytes_of_string "s1".
Definition ex_main : bytes := bytes_of_string "main".
Definition ex_manifests : gmap bytes (list (bytes * bytes)) := {[ex_plugin := [(bytes_of_string "vnc", [])]]}.
Definition ex_token (n : nat) : bytes := hex_encode (repeat (byte_of_Z (Z.of_nat n)) 32).
Definition ex_random (n : nat) : option bytes := Some (repeat (byte_of_Z (Z.of_nat n)) 32).
(** A session of the plugin that is registered, active, and has a socket. *)
Definition ex_attached : list event :=
  [OpenSession ex_session (bytes_of_string "vnc"); RunSession ex_session ex_plugin; TabActive ex_session true; PluginRegisters 1000 ex_plugin ex_session [] []; Proceeds 0 1000 (ex_random 1);
   Proceeds 0 1000 None; Attaches 2000 (ex_token 1) ex_main].
(** It sends two frames on a channel and one by a call; the browser has got the first. *)
Definition ex_frames : list event :=
  ex_attached ++ [ChannelOpens ex_plugin true PurposeEmbedStream ex_session []; ChannelWires 1; ChannelSubscribes 1; ChannelReturns 1; ChannelReceives 1 [Byte.x01]; ChannelOffers 1 3000; ChannelSends 1;
   ChannelReceives 1 [Byte.x02]; ChannelOffers 1 3000; ChannelSends 1; SocketWrites 1; PluginCalls ex_plugin ex_session ex_main (KFrame (bytes_of_string "Aw==") false);
   Proceeds 4 4000 None; Proceeds 4 4000 None; PumpChecks 1; BrowserSends 1 [Byte.x09]; SubTakes 1 1].
Definition ex_world (es : list event) : world unit := default (NewWorld true []) (run ex_manifests (NewWorld true []) es).
Definition runs (es : list event) : bool := if run ex_manifests (NewWorld (L := unit) true []) es is Some _ then true else false.
Lemma ex_ran es : runs es = true → run ex_manifests (NewWorld true []) es = Some (ex_world es).
Proof. unfold runs, ex_world. by destruct (run _ _ es). Qed.
Lemma run_app {L} `{RateBucket L} manifests (w : world L) es es' : run manifests w (es ++ es') = run manifests w es ≫= λ w', run manifests w' es'.
Proof. revert w. induction es as [|ev es IH]; intros w; cbn [run app]; [done|]. destruct (step manifests w ev); [apply IH|done]. Qed.
Lemma ex_ran_more es es' : runs es = true → runs (es ++ es') = true → run ex_manifests (ex_world es) es' = Some (ex_world (es ++ es')).
Proof. intros H1%ex_ran H2%ex_ran. rewrite run_app, H1 in H2. exact H2. Qed.
Lemma ex_frames_log : fr_data <$> log (ex_world ex_frames) 1 = [[Byte.x01]; [Byte.x02]; [Byte.x03]].
Proof. vm_compute. reflexivity. Qed.
Lemma ex_frames_input : in_data <$> w_inputs (ex_world ex_frames) = [[Byte.x09]].
Proof. vm_compute. reflexivity. Qed.

(** C17. Whatever sessions, plugins, channels and browsers do and in whatever order: every frame that a socket was given, queued or written, was offered by the plugin that runs the session of the
    socket, for that session and that tunnel. No frame is given twice, to one socket or to two, and the frames of one channel are in the order in which the channel received them. *)
Theorem embed_frames_confined {L} `{RateBucket L} manifests notify url es (w : world L) : run manifests (NewWorld notify url) es = Some w →
  (∀ c k f, w_socks w !! c = Some k → f ∈ log w c →
     w_owner w !! sk_session k = Some (sk_plugin k) ∧ fr_plugin f = sk_plugin k ∧ fr_session f = sk_session k ∧ fr_tunnel f = sk_tunnel k) ∧
  (∀ c, NoDup (fr_id <$> log w c)) ∧ (∀ c1 c2 f1 f2, f1 ∈ log w c1 → f2 ∈ log w c2 → fr_id f1 = fr_id f2 → c1 = c2) ∧
  (∀ c ch, StronglySorted lt (fr_id <$> filter (λ f, fr_chan f = Some ch) (log w c))).
Proof.
  intros ([Hb _] & Hp & _)%reached. split_and!; [|apply Hp..]. intros c k f Hk Hf. destruct (bi_sock _ Hb _ _ Hk) as [Ho _]. destruct (pl_for _ Hp _ _ Hf) as [(k' & Hk' & Hs & Ht) [Hfo _]].
  assert (k' = k) as -> by congruence. split_and!; [done|congruence..].
Qed.
Lemma embed_frames_confined_witness : length (log (ex_world ex_frames) 1) = 3%nat ∧
  (∀ c, NoDup (fr_id <$> log (ex_world ex_frames) c)) ∧ ∀ f, f ∈ log (ex_world ex_frames) 1 → fr_plugin f = ex_plugin.
Proof.
  assert (run ex_manifests (NewWorld true []) ex_frames = Some (ex_world ex_frames)) as Hr by (apply ex_ran; vm_compute; reflexivity).
  split; [vm_compute; reflexivity|]. destruct (embed_frames_confined _ _ _ _ _ Hr) as (H1 & H2 & _). split; [exact H2|]. intros f Hf.
  assert (∃ k, w_socks (ex_world ex_frames) !! 1%nat = Some k ∧ sk_plugin k = ex_plugin) as (k & Hk & <-) by (vm_compute; eauto). by destruct (H1 _ _ _ Hk Hf) as (_ & -> & _).
Defined.

(** C18. What a browser types into a socket reaches only the plugin that runs the session of the socket, as input of that session and that tunnel, whether by a notification or through a channel. *)
Theorem embed_input_confined {L} `{RateBucket L} manifests notify url es (w : world L) i : run manifests (NewWorld notify url) es = Some w → i ∈ w_inputs w →
  w_owner w !! in_session i = Some (in_plugin i) ∧
  ∃ k, w_socks w !! in_socket i = Some k ∧ sk_plugin k = in_plugin i ∧ sk_session k = in_session i ∧ sk_tunnel k = in_tunnel i.
Proof.
  intros ([Hb Hs] & _ & _)%reached Hi. destruct (su_input _ Hs _ Hi) as (k & Hk & H1 & H2 & H3). split; [|by exists k]. destruct (bi_sock _ Hb _ _ Hk) as [Ho _]. congruence.
Qed.
Lemma embed_input_confined_witness : ∃ i, i ∈ w_inputs (ex_world ex_frames) ∧ in_data i = [Byte.x09] ∧ w_owner (ex_world ex_frames) !! in_session i = Some (in_plugin i).
Proof.
  assert (run ex_manifests (NewWorld true []) ex_frames = Some (ex_world ex_frames)) as Hr by (apply ex_ran; vm_compute; reflexivity).
  pose proof ex_frames_input as Hin. destruct (w_inputs (ex_world ex_frames)) as [|i l] eqn:Ei; [discriminate Hin|]. exists i.
  assert (i ∈ w_inputs (ex_world ex_frames)) as Hi by (rewrite Ei; by left). split; [by left|]. split; [by injection Hin|].
  by destruct (embed_input_confined _ _ _ _ _ i Hr Hi).
Defined.

(** C35. No run closes a channel that is closed already, which would panic; a queue never holds more than the credit window of eight frames; a registration has one to eight tunnels, and
    only they have sockets. *)
Theorem embed_bounded {L} `{RateBucket L} manifests notify url es (w : world L) : run manifests (NewWorld notify url) es = Some w →
  et_panicked (w_svc w) = false ∧ (∀ c k, et_conn (w_svc w) !! c = Some k → (length (ws_send k) ≤ 8)%nat) ∧
  (∀ a e, et_entry (w_svc w) !! a = Some e → 1 ≤ len (er_TunnelIDs (en_reg e)) ≤ 8 ∧ ∀ tid, is_Some (en_wsConns e !! tid) → tid ∈ er_TunnelIDs (en_reg e)).
Proof.
  intros ([Hb _] & _ & _)%reached. pose proof (bi_svc _ Hb) as Hi. split_and!; [apply Hi|apply Hi|]. intros a e Ha. destruct (si_tunnels _ _ _ Hi _ _ Ha) as (H1 & H2 & _ & H4).
  split; [|done]. unfold MaxTunnelsPerSession in H2. destruct (er_TunnelIDs (en_reg e)); [done|]. cbn [length] in *. lia.
Qed.
Lemma embed_bounded_witness : et_panicked (w_svc (ex_world ex_frames)) = false.
Proof.
  assert (run ex_manifests (NewWorld true []) ex_frames = Some (ex_world ex_frames)) as Hr by (apply ex_ran; vm_compute; reflexivity).
  by destruct (embed_bounded _ _ _ _ _ Hr).
Defined.

(** C19. When a closing session has revoked its embedding, the token it had is dead for good: no later lookup and no later attach accepts it, and every socket attached with it has been told to end. *)
Theorem revoked_token_dead {L} `{RateBucket L} manifests notify url es (w : world L) t now random sessionID token es' (w' : world L) :
  run manifests (NewWorld notify url) es = Some w → w_calls w !! t = Some (TRevoke sessionID) → et_sessionToken (w_svc w) !! sessionID = Some token →
  run manifests w (Proceeds t now random :: es') = Some w' →
  (∀ now' tid, Lookup now' token (w_svc w') = Err ErrSessionNotFound ∧ (AttachWebSocket now' token tid (w_svc w')).1 = Err ErrSessionNotFound) ∧
  (∀ c k x, w_socks w' !! c = Some k → sk_token k = token → et_conn (w_svc w') !! c = Some x → ws_done x = true).
Proof.
  intros (Ho & _ & Hp)%reached Ht Htok Hr. cbn [run step] in Hr. unfold proceed in Hr. rewrite Ht in Hr. cbn [mbind option_bind] in Hr.
  set (w1 := end_call t (set_svc (RevokeBySession sessionID (w_svc w)) w)) in Hr. assert (own_inv w1 ∧ open_inv w1) as [Ho1 Hp1].
  { split; [apply own_end_call, own_keeps; [done|apply RevokeBySession_inv, Ho|apply RevokeBySession_keeps]|]. eapply calm_inv; [|done]. etrans; [apply calm_svc, RevokeBySession_calm|by apply calm_same]. }
  assert (dead token w1) as Hd by (destruct (revoke_dead _ _ _ Ho Hp Htok); by split). destruct (run_open manifests _ _ _ Ho1 Hp1 Hr) as (_ & _ & Hdd). apply Hdd in Hd.
  split; [|apply Hd]. intros now' tid. destruct (dead_refused _ _ now' tid Hd) as [-> ->]. done.
Qed.
Definition ex_closing : list event := ex_frames ++ [CloseSession ex_session].
Lemma revoked_token_dead_witness : Lookup 5000 (ex_token 1) (w_svc (ex_world ex_closing)) ≠ Err ErrSessionNotFound ∧
  Lookup 5000 (ex_token 1) (w_svc (ex_world (ex_closing ++ [Proceeds 5 4500 None; PumpChecks 1]))) = Err ErrSessionNotFound.
Proof.
  split; [vm_compute; discriminate|].
  assert (run ex_manifests (NewWorld true []) ex_closing = Some (ex_world ex_closing)) as Hr by (apply ex_ran; vm_compute; reflexivity).
  assert (run ex_manifests (ex_world ex_closing) [Proceeds 5 4500 None; PumpChecks 1] = Some (ex_world (ex_closing ++ [Proceeds 5 4500 None; PumpChecks 1]))) as Hr'.
  { apply ex_ran_more; vm_compute; reflexivity. }
  eapply (proj1 (revoked_token_dead ex_manifests true [] ex_closing (ex_world ex_closing) 5 4500 None ex_session (ex_token 1) [PumpChecks 1] _ Hr _ _ Hr') 5000 ex_main).
  Unshelve. all: vm_compute; reflexivity.
Defined.

(** ** Offering a frame ends *)

(** A refusal that is waited on, and one whose wait is not charged. *)
Definition waits (a : attempt) : Prop := ∃ e, at_result a = Err e ∧ error_wait e ≠ WaitNever ∧ at_ctxDone a = false.
Definition is_paused (a : attempt) : bool := match at_result a with Err e => if error_wait e is WaitPaused then true else false | Ok _ => false end.
Fixpoint paused (answers : nat → attempt) (i n : nat) : nat :=
  match n with O => 0 | S n' => (if is_paused (answers i) then 1 else 0) + paused answers (S i) n' end.
Definition ends_with (ceiling : Z) (o : outcome) (a : attempt) : Prop :=
  match o with
  | Accepted => at_result a = Ok ()
  | ClosedWith e => at_result a = Err e ∧ error_wait e ≠ WaitPaused
  | ClosedByContext => at_ctxDone a = true ∧ ∃ e, at_result a = Err e ∧ error_wait e ≠ WaitNever
  end.
Lemma deliver_ends answers ceiling interval fuel i spent p : 0 < interval → (∀ j, interval ≤ at_waited (answers j)) → (paused answers i fuel ≤ p)%nat →
  Z.max 0 (ceiling - spent) ≤ interval * (Z.of_nat fuel - Z.of_nat p - 1) →
  ∃ o j, deliverFrame fuel ceiling answers i spent = Some (o, S j) ∧ (i ≤ j < i + fuel)%nat ∧ (∀ m, (i ≤ m < j)%nat → waits (answers m)) ∧ ends_with ceiling o (answers j).
Proof.
  intros Hint Hw. revert i spent p. induction fuel as [|fuel IH]; intros i spent p Hp Hc; [exfalso; cbn in Hp; nia|]. cbn [deliverFrame].
  assert (∀ o, ends_with ceiling o (answers i) → ∃ o' j, Some (o, S i) = Some (o', S j) ∧ (i ≤ j < i + S fuel)%nat ∧ (∀ m, (i ≤ m < j)%nat → waits (answers m)) ∧ ends_with ceiling o' (answers j)) as Hend.
  { intros o Ho. exists o, i. split_and!; [done|lia|lia|intros m ?; lia|done]. }
  cbn [paused] in Hp. unfold is_paused in Hp. destruct (at_result (answers i)) as [[]|e] eqn:Er; [by apply Hend|]. destruct (error_wait e) eqn:Ew; cbn in Hp.
  - destruct (at_ctxDone (answers i)) eqn:Ec; [apply Hend; split; [done|]; exists e; by rewrite Ew|].
    destruct (IH (S i) spent (p - 1)%nat) as (o & j & Hd & Hj & Hall & Ho); [lia|nia|]. exists o, j. split_and!; [exact Hd|lia|lia| |done].
    intros m Hm. destruct (decide (m = i)) as [->|]; [exists e; by rewrite Ew|apply Hall; lia].
  - destruct (Z.leb_spec ceiling spent); [apply Hend; split; [done|by rewrite Ew]|]. destruct (at_ctxDone (answers i)) eqn:Ec; [apply Hend; split; [done|]; exists e; by rewrite Ew|].
    specialize (Hw i). assert (Z.max 0 (ceiling - (spent + at_waited (answers i))) ≤ interval * (Z.of_nat fuel - Z.of_nat p - 1)) as Hc'.
    { assert (1 ≤ Z.of_nat fuel - Z.of_nat p) by nia. assert (0 ≤ interval * (Z.of_nat fuel - Z.of_nat p - 1)) by nia. lia. }
    destruct (IH (S i) (spent + at_waited (answers i)) p) as (o & j & Hd & Hj & Hall & Ho); [lia|done|]. exists o, j. split_and!; [done|lia|lia| |done].
    intros m Hm. destruct (decide (m = i)) as [->|]; [exists e; by rewrite Ew|apply Hall; lia].
  - apply Hend. split; [done|by rewrite Ew].
Qed.
(** Offering one frame ends: when the tab is in the background for at most [p] of the attempts, after at most 4801 + [p] of them, since every charged wait takes the retry interval at least and the ceiling
    is two minutes. It ends by the frame being accepted, by a refusal that is terminal or past the ceiling, or by the end of the context, and every attempt before was a refusal it waited on: no frame is
    dropped on the way, and none is offered again once accepted. *)
Theorem deliverFrame_ends (answers : nat → attempt) (p : nat) : (∀ j, embedDeliverRetryInterval ≤ at_waited (answers j)) → (paused answers 0 (4801 + p) ≤ p)%nat →
  ∃ o j, deliverFrame (4801 + p) embedAckCeiling answers 0 0 = Some (o, S j) ∧ (j < 4801 + p)%nat ∧ (∀ m, (m < j)%nat → waits (answers m)) ∧ ends_with embedAckCeiling o (answers j).
Proof.
  intros Hw Hp. destruct (deliver_ends answers embedAckCeiling embedDeliverRetryInterval (4801 + p) 0 0 p) as (o & j & Hd & Hj & Hall & Ho); [done|done|done| |].
  - unfold embedAckCeiling, embedDeliverRetryInterval, Second. lia.
  - exists o, j. split_and!; [exact Hd|lia|intros m ?; apply Hall; lia|done].
Qed.
Definition ex_busy (i : nat) : attempt :=
  {| at_result := Err (Refused EmbedRefusedWSBufferFull ErrTerminalBackpressure); at_ctxDone := false; at_waited := embedDeliverRetryInterval |}.
Lemma ex_busy_paused i n : paused ex_busy i n = 0%nat.
Proof. revert i. induction n as [|n IH]; intros i; cbn; [done|apply IH]. Qed.
Lemma deliverFrame_ends_witness : ∃ o j, deliverFrame (4801 + 0) embedAckCeiling ex_busy 0 0 = Some (o, S j) ∧ ends_with embedAckCeiling o (ex_busy j).
Proof.
  destruct (deliverFrame_ends ex_busy 0) as (o & j & Hd & _ & _ & Ho); [intros j; cbn; lia|rewrite ex_busy_paused; lia|]. exists o, j. split; [exact Hd|exact Ho].
Defined.

(** ** Defects *)

(** [HandlePluginRegisterEmbed] sees the session, the session closes and revokes, then [Register] runs. *)
Definition ex_late_register : list event :=
  [OpenSession ex_session (bytes_of_string "vnc"); RunSession ex_session ex_plugin; PluginRegisters 1000 ex_plugin ex_session [] []; CloseSession ex_session; Proceeds 1 1100 None;
   Proceeds 0 1200 (ex_random 1); Proceeds 0 1200 None].

(** The plugin registers again, the browser types into the socket of the first token, the session closes. *)
Definition ex_replaced : list event :=
  ex_attached ++ [PluginRegisters 3000 ex_plugin ex_session [] []; Proceeds 1 3000 (ex_random 2); Proceeds 1 3000 None; PumpChecks 1; BrowserSends 1 [Byte.x09]; InputNotifies 1;
   CloseSession ex_session; Proceeds 2 4000 None].
(** Registering again replaces the token and not the sockets: the old token is refused, yet what is typed into its socket reaches the plugin, and when the session closes the socket is not told to end. *)
Theorem replaced_token_keeps_socket : ∃ w : world unit, run ex_manifests (NewWorld true []) ex_replaced = Some w ∧ w_calls w = ∅ ∧ Lookup 3500 (ex_token 1) (w_svc w) = Err ErrSessionNotFound ∧
  in_data <$> w_inputs w = [[Byte.x09]] ∧ sk_token <$> w_socks w !! 1%nat = Some (ex_token 1) ∧ ws_done <$> et_conn (w_svc w) !! 1%nat = Some false.
Proof.
  exists (ex_world ex_replaced). split; [apply ex_ran; vm_compute; reflexivity|]. split_and!; [|vm_compute; reflexivity..]. apply map_to_list_empty_iff. vm_compute. reflexivity.
Qed.

(** The plugin ends its channel while [Wire] is between starting the inbound pump and subscribing; then the browser types. *)
Definition ex_leaked : list event :=
  ex_attached ++ [ChannelOpens ex_plugin true PurposeEmbedStream ex_session []; ChannelWires 1; ChannelEnds 1; ChannelSubscribes 1; ChannelReturns 1; OutboundEnds 1; ChannelCloses 1;
   PumpChecks 1; BrowserSends 1 [Byte.x09]].
Lemma no_reader (w : world unit) c : forallb (λ p, bool_decide (cn_out p.2 = None)) (map_to_list (w_chans w)) = true → ∀ ch, sub_takes c ch w = None.
Proof.
  intros Hall ch. unfold sub_takes. destruct (w_socks w !! c) as [k|]; [|done]. cbn. destruct (w_chans w !! ch) as [n|] eqn:En; [|done]. cbn.
  assert (cn_out n = None) as ->; [|by destruct (sk_in k)]. apply elem_of_map_to_list in En. rewrite forallb_forall in Hall.
  apply list_elem_of_In, Hall in En. by apply bool_decide_eq_true in En.
Qed.
(** A channel that ends while it is being wired leaves its subscription behind: the channel is closed and has nothing left to undo, but the tunnel still hands input to the subscription, which no pump reads
    and nobody ends. The input neither reaches the plugin nor falls back to a notification, and the socket reads no more. *)
Theorem closed_channel_holds_input : ∃ w : world unit, run ex_manifests (NewWorld true []) ex_leaked = Some w ∧
  (cb_closed ∘ cn_b <$> w_chans w !! 1%nat) = Some true ∧ (cn_undo <$> w_chans w !! 1%nat) = Some None ∧ is_Some (outboundSubLocked (w_svc w) ex_session ex_main) ∧
  w_inputs w = [] ∧ (∀ ch, sub_takes 1 ch w = None) ∧ sub_stopped 1 w = None ∧ pump_checks 1 w = None.
Proof.
  exists (ex_world ex_leaked). split; [apply ex_ran; vm_compute; reflexivity|].
  split_and!; [vm_compute; reflexivity|vm_compute; reflexivity|vm_compute; eauto|vm_compute; reflexivity| |vm_compute; reflexivity..].
  apply no_reader. vm_compute. reflexivity.
Qed.

(** A session whose tab nobody spoke of. *)
Definition ex_unreported : list event :=
  [OpenSession ex_session (bytes_of_string "vnc"); RunSession ex_session ex_plugin; PluginRegisters 1000 ex_plugin ex_session [] []; Proceeds 0 1000 (ex_random 1); Proceeds 0 1000 None].
(** A registration starts active, but attaching a socket sets it to what was reported of the tab, which is inactive if nothing was: the frame a plugin offers is refused because no socket is attached, and once
    one is attached because the tab is inactive. *)
Theorem attaching_deactivates : runs ex_unreported = true ∧ runs (ex_unreported ++ [Attaches 2000 (ex_token 1) ex_main]) = true ∧
  (RouteTunnelFrameFromPlugin_begin 1500 ex_session ex_main [] (w_svc (ex_world ex_unreported))).1 = Err (Refused EmbedRefusedTunnelNotAttached ErrTerminalBackpressure) ∧
  (RouteTunnelFrameFromPlugin_begin 2500 ex_session ex_main [] (w_svc (ex_world (ex_unreported ++ [Attaches 2000 (ex_token 1) ex_main])))).1 = Err (Refused EmbedRefusedTabInactive ErrTerminalBackpressure).
Proof. split_and!; vm_compute; reflexivity. Qed.

(** ** The token in a URL *)

(** An origin in which no slash is followed by the letter e. *)
Fixpoint plain_origin (u : bytes) : bool :=
  match u with [] => true | c :: u' => negb (bool_decide (c = Byte.x2f) && match u' with d :: _ => bool_decide (d = Byte.x65) | [] => false end) && plain_origin u' end.
Lemma Index_origin u rest : plain_origin u = true → Index (u ++ bytes_of_string "/embed/s/" ++ rest) (bytes_of_string "/embed/s/") = Some (length u).
Proof.
  change (bytes_of_string "/embed/s/") with [Byte.x2f; Byte.x65; Byte.x6d; Byte.x62; Byte.x65; Byte.x64; Byte.x2f; Byte.x73; Byte.x2f]. set (p := [_; _; _; _; _; _; _; _; _]).
  induction u as [|c u IH]; intros Hu; [reflexivity|]. cbn in Hu. apply andb_true_iff in Hu as [Hc Hu].
  assert (HasPrefix ((c :: u) ++ p ++ rest) p = false) as Hn.
  { apply bool_decide_eq_false. intros Heq. destruct u as [|d u]; cbn in Heq; [discriminate Heq|]. injection Heq as -> -> _. done. }
  change (Index ((c :: u) ++ p ++ rest) p) with (if HasPrefix ((c :: u) ++ p ++ rest) p then Some 0%nat else S <$> Index (u ++ p ++ rest) p). by rewrite Hn, IH.
Qed.
Lemma hex_no_slash b : Byte.x2f ∉ hex_encode b.
Proof. induction b as [|x b IH]; cbn; [apply not_elem_of_nil|]. rewrite !not_elem_of_cons. split_and!; [by destruct x|by destruct x|exact IH]. Qed.
(** The token a plugin is told is the one its page is served under: [extractEmbedToken] finds it in the URL of the descriptor, for every origin of that form and every drawn token. *)
Theorem token_roundtrip origin buf uiEntry : plain_origin origin = true → extractEmbedToken (origin ++ embedUIPath (hex_encode buf) uiEntry) = hex_encode buf.
Proof.
  intros Ho. unfold extractEmbedToken, embedUIPath. rewrite Index_origin by done. rewrite <-length_app, app_assoc, drop_app_length.
  change (bytes_of_string "/ui/index.html") with (Byte.x2f :: bytes_of_string "ui/index.html"). by rewrite Split_app by apply hex_no_slash.
Qed.
Lemma token_roundtrip_witness : extractEmbedToken (bytes_of_string "http://127.0.0.1:52731" ++ embedUIPath (ex_token 1) []) = ex_token 1.
Proof. apply token_roundtrip. vm_compute. reflexivity. Defined.
