(* ===== verification/KnownHosts.v ===== *)
(** * KnownHosts: which stored line vouches for a host

    [internal/domain/known_host_match.go] and the store of [internal/infra/persistence/knownhosts_repo.go].
    OpenSSH's hashed host names are HMAC-SHA1 over the name; SHA-1 is written out. Reading a line's
    key is the SSH library's part, the class [SSHLines]. *)

From S2P Require Import Prelude Bytes GoText SyncBase.

(** ** SHA-1 *)

Definition rotl32 (n x : Z) : Z := Z.lor (wrap32 (Z.shiftl x n)) (Z.shiftr x (32 - n)).

Definition sha1_pad (m : bytes) : bytes :=
  let fill := ((64 - (length m + 9) mod 64) mod 64)%nat in m ++ Byte.x80 :: zeros fill ++ be_bytes 8 (8 * len m).

(** The schedule, newest word first. *)
Fixpoint sha1_schedule (n : nat) (w : list Z) : list Z :=
  match n with
  | O => w
  | S k => sha1_schedule k (rotl32 1 (Z.lxor (Z.lxor (nth 2 w 0) (nth 7 w 0)) (Z.lxor (nth 13 w 0) (nth 15 w 0))) :: w)
  end.

Definition sha1_f (t b c d : Z) : Z * Z :=
  if t <? 20 then (Z.lor (Z.land b c) (Z.land (Z.lxor b MaxUint32) d), 0x5A827999)
  else if t <? 40 then (Z.lxor (Z.lxor b c) d, 0x6ED9EBA1)
  else if t <? 60 then (Z.lor (Z.lor (Z.land b c) (Z.land b d)) (Z.land c d), 0x8F1BBCDC)
  else (Z.lxor (Z.lxor b c) d, 0xCA62C1D6).

Definition sha1_round (st : list Z) (tw : Z * Z) : list Z :=
  match st with
  | [a; b; c; d; e] =>
      let '(f, k) := sha1_f tw.1 b c d in [wrap32 (rotl32 5 a + f + e + k + tw.2); a; rotl32 30 b; c; d]
  | _ => st
  end.

Fixpoint sha1_words (n : nat) (b : bytes) : list Z :=
  match n with O => [] | S k => be_val (take 4 b) :: sha1_words k (drop 4 b) end.

Fixpoint sha1_blocks (n : nat) (st : list Z) (b : bytes) : list Z :=
  match n, b with
  | O, _ | _, [] => st
  | S k, _ =>
      let w := rev (sha1_schedule 64 (rev (sha1_words 16 (take 64 b)))) in
      sha1_blocks k (zip_with (λ x y, wrap32 (x + y)) st (foldl sha1_round st (zip (Z.of_nat <$> seq 0 80) w))) (drop 64 b)
  end.

Definition sha1 (m : bytes) : bytes :=
  let p := sha1_pad m in
  concat (be_bytes 4 <$> sha1_blocks (length p) [0x67452301; 0xEFCDAB89; 0x98BADCFE; 0x10325476; 0xC3D2E1F0] p).

(** ** Matching a host ([known_host_match.go]) *)

Definition pipe : byte := Byte.x7c.
Definition IsHashedKnownHost (lineHost : bytes) : bool := HasPrefix lineHost (bytes_of_string "|1|").

Definition hashedKnownHostMatches (entry host : bytes) : bool :=
  match Split entry pipe with
  | [_; one; salt64; want64] =>
      if one <>? bytes_of_string "1" then false else
      match base64_decode salt64, base64_decode want64 with
      | Some salt, Some want => hmac sha1 salt host =?? want
      | _, _ => false
      end
  | _ => false
  end.

Definition KnownHostMatches (lineHost host : bytes) : bool :=
  if IsHashedKnownHost lineHost then hashedKnownHostMatches lineHost (TrimSpace host)
  else TrimSpace lineHost =?? TrimSpace host.

(** ** The store ([knownhosts_repo.go]) *)

(** A public key: its type and its wire form. *)
Record PublicKey := { pub_Type : bytes; pub_Marshal : bytes }.
#[export] Instance PublicKey_eq_dec : EqDecision PublicKey.
Proof. solve_decision. Defined.

(** [ssh.ParseKnownHosts] on one entry: its marker, its hosts and its key; [ssh.MarshalAuthorizedKey]. *)
Class SSHLines := {
  ParseKnownHosts : bytes → option (bytes * list bytes * PublicKey);
  MarshalAuthorizedKey : PublicKey → bytes;
}.

Inductive host_error := ErrUnknownHost | ErrHostKeyMismatch.

Section repo.
Context `{SSHLines}.

Definition parseKnownHostLine (line : bytes) : option (bytes * PublicKey) :=
  let line := TrimSpace line in
  if (line =?? []) || HasPrefix line [Byte.x23] then None else
  match ParseKnownHosts (line ++ [Byte.x0a]) with
  | Some (_, h :: _, key) => Some (h, key)
  | _ => None
  end.

(** The lines of a host, with their keys. *)
Definition host_keys (lines : list bytes) (host : bytes) : list PublicKey :=
  omap (λ l, match parseKnownHostLine l with
             | Some (h, key) => if KnownHostMatches h host then Some key else None
             | None => None end) lines.

Definition KnownHosts_Check (lines : list bytes) (host : bytes) (remoteKey : PublicKey) : result host_error unit :=
  let keys := host_keys lines host in
  if existsb (λ k, (pub_Type k =?? pub_Type remoteKey) && (pub_Marshal k =?? pub_Marshal remoteKey)) keys then Ok ()
  else if keys =?? [] then Err ErrUnknownHost else Err ErrHostKeyMismatch.

Definition formatKnownHostLine (host : bytes) (key : PublicKey) : bytes :=
  TrimSpace host ++ [Byte.x20] ++ TrimSpace (MarshalAuthorizedKey key).

Definition filterKnownHosts (lines : list bytes) (drop : bytes → PublicKey → bool) : list bytes :=
  filter (λ l, match parseKnownHostLine l with Some (h, k) => negb (drop h k) | None => false end = true) lines.

Definition KnownHosts_Add (lines : list bytes) (host : bytes) (key : PublicKey) : list bytes :=
  lines ++ [formatKnownHostLine host key].
Definition KnownHosts_Remove (lines : list bytes) (host : bytes) : list bytes :=
  filterKnownHosts lines (λ h _, KnownHostMatches h host).
Definition KnownHosts_Replace (lines : list bytes) (host : bytes) (newKey : PublicKey) : list bytes :=
  filterKnownHosts lines (λ h k, KnownHostMatches h host && (pub_Type k =?? pub_Type newKey)) ++ [formatKnownHostLine host newKey].
End repo.

(** The digests of FIPS 180 and of RFC 2202, and a hashed host as OpenSSH writes it. *)
Example sha1_abc : hex_encode (sha1 (bytes_of_string "abc")) = bytes_of_string "a9993e364706816aba3e25717850c26c9cd0d89d".
Proof. vm_compute. reflexivity. Qed.
Example hmac_sha1_jefe : hex_encode (hmac sha1 (bytes_of_string "Jefe") (bytes_of_string "what do ya want for nothing?")) =
  bytes_of_string "effcdf6ae5eb2fa2d27416d5f184df9c259a7c79".
Proof. vm_compute. reflexivity. Qed.
Example hashed_host : KnownHostMatches (bytes_of_string "|1|AAECAwQFBgcICQoLDA0ODxAREhM=|/vGHEQmgsSrggHW81/s0OAW0mAs=")
  (bytes_of_string "github.com ") = true.
Proof. vm_compute. reflexivity. Qed.
