(* ===== verification/VaultData.v ===== *)
(** * VaultData: what the encrypted vault of a device holds

    [internal/domain]: [vault_data.go], [vault_sync.go], [vault_sync_plugins.go], [connection.go],
    [jump.go], [users.go], [identities.go], [folder.go], [peer_trust.go], [app_settings.go],
    [lockout.go], [plugin_trust_change.go], [credential_binding.go], [forward_rule.go].

    A Go string is its bytes; a nil map or slice is the empty one, which no code here tells apart; a
    pointer is an option; a [time.Time] its nanoseconds. JSON text inside an item is of the type
    [raw], a parameter until [SyncTrust] says what is done with it. *)

From S2P Require Import Prelude Bytes GoText SyncBase AgentForward.

(** The errors of the domain this code returns, by sentinel; [DomainError] is one without. *)
Inductive dsentinel :=
  | ErrInvalidConnectionConfig | ErrBindingMissing | ErrBindingSuspended | ErrCredentialOutsideVault
  | ErrInvalidForwardRule | DomainError.
#[export] Instance dsentinel_eq_dec : EqDecision dsentinel.
Proof. solve_decision. Defined.
Abbreviation derror := (list dsentinel).

(** ** Folders, users and hops *)

Record ConnectionFolder := { fo_ID : bytes; fo_Name : bytes; fo_ParentID : bytes; fo_Order : Z; fo_VaultID : bytes }.

Definition Folder_Validate (f : ConnectionFolder) : result derror unit :=
  fail_if fo_Name f =?? [] with [ErrInvalidConnectionConfig] ;; Ok ().

Definition AuthMethodKey : bytes := bytes_of_string "key".
Definition AuthMethodPassword : bytes := bytes_of_string "password".
Definition AuthMethodPlugin : bytes := bytes_of_string "plugin".

Record PluginAuthConfig := { pa_PluginID : bytes; pa_AuthMethodID : bytes; pa_Fields : gmap bytes bytes }.
Record KeyAuthConfig := { ka_IdentityIDs : list bytes }.
Record PasswordAuthConfig := { pw_VaultRef : bytes }.

Record ConnectionUser := {
  cu_ID : bytes; cu_Username : bytes; cu_Auth : bytes;
  cu_KeyAuth : option KeyAuthConfig; cu_PassAuth : option PasswordAuthConfig; cu_PluginAuth : option PluginAuthConfig;
  cu_Label : bytes; cu_CredentialSource : bytes;
}.

Definition CredentialSourcePersonal : bytes := bytes_of_string "personal".

(** The switch over the authentication method [User_Validate] and [Hop_Validate] share. *)
Definition auth_ok (auth : bytes) (k : option KeyAuthConfig) (p : option PasswordAuthConfig) (g : option PluginAuthConfig) : bool :=
  if auth =?? AuthMethodKey then match k with Some k => ka_IdentityIDs k <>? [] | None => false end
  else if auth =?? AuthMethodPassword then match p with Some p => pw_VaultRef p <>? [] | None => false end
  else if auth =?? AuthMethodPlugin then
    match g with Some g => (pa_PluginID g <>? []) && (pa_AuthMethodID g <>? []) | None => false end
  else false.

Definition User_Validate (u : ConnectionUser) : result derror unit :=
  fail_if cu_Username u =?? [] with [ErrInvalidConnectionConfig] ;;
  if cu_CredentialSource u =?? [] then
    fail_if negb (auth_ok (cu_Auth u) (cu_KeyAuth u) (cu_PassAuth u) (cu_PluginAuth u)) with [ErrInvalidConnectionConfig] ;; Ok ()
  else if cu_CredentialSource u =?? CredentialSourcePersonal then
    fail_if (cu_Auth u <>? AuthMethodKey) && (cu_Auth u <>? AuthMethodPassword) with [ErrInvalidConnectionConfig] ;; Ok ()
  else Err [ErrInvalidConnectionConfig].

Definition MinPort : Z := 1.
Definition MaxPort : Z := 65535.
Definition MaxTagLength : Z := 30.
Definition DefaultSSHPort : Z := 22.

Record JumpHop := {
  jh_ID : bytes; jh_Host : bytes; jh_Port : Z; jh_Username : bytes; jh_Auth : bytes;
  jh_KeyAuth : option KeyAuthConfig; jh_PassAuth : option PasswordAuthConfig; jh_PluginAuth : option PluginAuthConfig;
}.
#[export] Instance PluginAuthConfig_eq_dec : EqDecision PluginAuthConfig.
Proof. solve_decision. Defined.
#[export] Instance KeyAuthConfig_eq_dec : EqDecision KeyAuthConfig.
Proof. solve_decision. Defined.
#[export] Instance PasswordAuthConfig_eq_dec : EqDecision PasswordAuthConfig.
Proof. solve_decision. Defined.
#[export] Instance JumpHop_eq_dec : EqDecision JumpHop.
Proof. solve_decision. Defined.

Definition bad_port (p : Z) : bool := (p <? MinPort) || (MaxPort <? p).

Definition Hop_Validate (h : JumpHop) : result derror unit :=
  fail_if jh_Host h =?? [] with [ErrInvalidConnectionConfig] ;;
  fail_if bad_port (jh_Port h) with [ErrInvalidConnectionConfig] ;;
  fail_if jh_Username h =?? [] with [ErrInvalidConnectionConfig] ;;
  fail_if negb (auth_ok (jh_Auth h) (jh_KeyAuth h) (jh_PassAuth h) (jh_PluginAuth h)) with [ErrInvalidConnectionConfig] ;;
  Ok ().

(** [ValidateUniqueHopIDs], [validateUniqueUserIDs]: the ids that are not empty occur once. *)
Fixpoint unique_ids (seen : gset bytes) (ids : list bytes) : result derror unit :=
  match ids with
  | [] => Ok ()
  | id :: ids' =>
      if id =?? [] then unique_ids seen ids' else
      fail_if bool_decide (id ∈ seen) with [ErrInvalidConnectionConfig] ;;
      unique_ids ({[id]} ∪ seen) ids'
  end.

Definition Hops_ValidateStrict (hops : list JumpHop) : result derror unit :=
  foldM (λ _ h, Hop_Validate h) () hops.

(** ** Port forwarding rules *)

Record ForwardRule := {
  fr_ID : bytes; fr_Kind : bytes; fr_BindAddress : bytes; fr_BindPort : Z; fr_TargetHost : bytes; fr_TargetPort : Z;
  fr_PluginID : bytes; fr_ProviderID : bytes; fr_Enabled : bool; fr_AllowRemoteGateway : bool;
}.

(** ** Connections *)

Record Connection := {
  cn_ID : bytes; cn_FolderID : bytes; cn_Name : bytes; cn_Host : bytes; cn_Port : Z; cn_Order : Z;
  cn_Protocol : bytes; cn_Users : list ConnectionUser; cn_DefaultUserID : bytes; cn_Tags : list bytes;
  cn_Hops : list JumpHop;   (* JumpChain.Hops *)
  cn_ForwardRules : list ForwardRule; cn_PluginFields : gmap bytes bytes;
  cn_AgentForwarding : option Config; cn_VaultID : bytes;
}.

Definition connProtocolSSH : bytes := bytes_of_string "ssh".
Definition GetProtocol (c : Connection) : bytes := if cn_Protocol c <>? [] then cn_Protocol c else connProtocolSSH.

Definition DefaultUser (c : Connection) : option ConnectionUser :=
  snd <$> list_find (λ u, cu_ID u = cn_DefaultUserID c) (cn_Users c).

Definition Connection_Validate (c : Connection) : result derror unit :=
  fail_if negb ((GetProtocol c <>? connProtocolSSH) && (cn_Port c =? 0)) && bad_port (cn_Port c) with [ErrInvalidConnectionConfig] ;;
  fail_if existsb (λ h, bad_port (jh_Port h)) (cn_Hops c) with [ErrInvalidConnectionConfig] ;;
  fail_if existsb (λ t, MaxTagLength <? len t) (cn_Tags c) with [ErrInvalidConnectionConfig] ;;
  _ ← unique_ids ∅ (jh_ID <$> cn_Hops c);
  match Config_Validate (cn_AgentForwarding c) with Err _ => Err [ErrInvalidConnectionConfig] | Ok _ => Ok () end.

Definition validateUsersForConnect (c : Connection) : result derror unit :=
  fail_if cn_Users c =?? [] with [ErrInvalidConnectionConfig] ;;
  _ ← unique_ids ∅ (cu_ID <$> cn_Users c);
  fail_if cn_DefaultUserID c =?? [] with [ErrInvalidConnectionConfig] ;;
  match DefaultUser c with
  | None => Err [ErrInvalidConnectionConfig]
  | Some u => User_Validate u
  end.

Definition Connection_ValidateForConnect (c : Connection) : result derror unit :=
  fail_if cn_Host c =?? [] with [ErrInvalidConnectionConfig] ;;
  _ ← Connection_Validate c;
  if GetProtocol c =?? connProtocolSSH then
    _ ← validateUsersForConnect c;
    match ValidateForConnect (cn_AgentForwarding c) with
    | Err _ => Err [ErrInvalidConnectionConfig]
    | Ok _ => Hops_ValidateStrict (cn_Hops c)
    end
  else fail_if bad_port (cn_Port c) && negb (cn_Port c =? 0) with [ErrInvalidConnectionConfig] ;; Ok ().

Definition cn_set_VaultID (v : bytes) (c : Connection) : Connection := {|
  cn_ID := cn_ID c; cn_FolderID := cn_FolderID c; cn_Name := cn_Name c; cn_Host := cn_Host c; cn_Port := cn_Port c;
  cn_Order := cn_Order c; cn_Protocol := cn_Protocol c; cn_Users := cn_Users c; cn_DefaultUserID := cn_DefaultUserID c;
  cn_Tags := cn_Tags c; cn_Hops := cn_Hops c; cn_ForwardRules := cn_ForwardRules c; cn_PluginFields := cn_PluginFields c;
  cn_AgentForwarding := cn_AgentForwarding c; cn_VaultID := v |}.
Definition fo_set_VaultID (v : bytes) (f : ConnectionFolder) : ConnectionFolder := {|
  fo_ID := fo_ID f; fo_Name := fo_Name f; fo_ParentID := fo_ParentID f; fo_Order := fo_Order f; fo_VaultID := v |}.

(** The zero values of Go. *)
Definition ConnectionFolder_zero : ConnectionFolder :=
  {| fo_ID := []; fo_Name := []; fo_ParentID := []; fo_Order := 0; fo_VaultID := [] |}.
Definition Connection_zero : Connection := {|
  cn_ID := []; cn_FolderID := []; cn_Name := []; cn_Host := []; cn_Port := 0; cn_Order := 0; cn_Protocol := []; cn_Users := [];
  cn_DefaultUserID := []; cn_Tags := []; cn_Hops := []; cn_ForwardRules := []; cn_PluginFields := ∅; cn_AgentForwarding := None;
  cn_VaultID := [] |}.

(** ** Keys, passwords and trusted peers *)

Record SSHIdentity := {
  si_ID : bytes; si_VaultID : bytes; si_Comment : bytes; si_KeyType : bytes; si_Encrypted : bool; si_Bits : Z;
  si_PublicKey : bytes; si_Fingerprint : bytes; si_Policy : bytes; si_Cache : bytes; si_CacheTTLSeconds : Z;
  si_AllowPlugins : bool; si_AllowForwarding : bool; si_NonExportable : bool; si_MigrationPending : bool;
  si_CreatedAt : Z; si_Source : bytes;
}.
Definition si_set_VaultID (v : bytes) (i : SSHIdentity) : SSHIdentity := {|
  si_ID := si_ID i; si_VaultID := v; si_Comment := si_Comment i; si_KeyType := si_KeyType i; si_Encrypted := si_Encrypted i;
  si_Bits := si_Bits i; si_PublicKey := si_PublicKey i; si_Fingerprint := si_Fingerprint i; si_Policy := si_Policy i;
  si_Cache := si_Cache i; si_CacheTTLSeconds := si_CacheTTLSeconds i; si_AllowPlugins := si_AllowPlugins i;
  si_AllowForwarding := si_AllowForwarding i; si_NonExportable := si_NonExportable i; si_MigrationPending := si_MigrationPending i;
  si_CreatedAt := si_CreatedAt i; si_Source := si_Source i |}.
Definition SSHIdentity_zero : SSHIdentity := {|
  si_ID := []; si_VaultID := []; si_Comment := []; si_KeyType := []; si_Encrypted := false; si_Bits := 0; si_PublicKey := [];
  si_Fingerprint := []; si_Policy := []; si_Cache := []; si_CacheTTLSeconds := 0; si_AllowPlugins := false;
  si_AllowForwarding := false; si_NonExportable := false; si_MigrationPending := false; si_CreatedAt := 0; si_Source := [] |}.

Record IdentityBlob := { ib_PEMData : bytes; ib_DataKey : bytes; ib_Legacy : bool }.

Record PasswordBlob := { pb_Value : bytes; pb_Label : bytes; pb_VaultID : bytes }.
Definition pb_set_VaultID (v : bytes) (p : PasswordBlob) : PasswordBlob :=
  {| pb_Value := pb_Value p; pb_Label := pb_Label p; pb_VaultID := v |}.
Definition PasswordBlob_zero : PasswordBlob := {| pb_Value := []; pb_Label := []; pb_VaultID := [] |}.

Record PeerTrustEntry := { pt_Scope : bytes; pt_Subject : bytes; pt_Material : bytes; pt_AddedAt : Z }.

(** ** Settings *)

Record LockoutSettings := { lo_Enabled : bool; lo_IdleTimeout : Z; lo_LockOnMinimize : bool }.
Definition LockoutSettings_zero : LockoutSettings := {| lo_Enabled := false; lo_IdleTimeout := 0; lo_LockOnMinimize := false |}.
Definition DefaultLockoutSettings : LockoutSettings :=
  {| lo_Enabled := false; lo_IdleTimeout := 5 * Minute; lo_LockOnMinimize := false |}.

Record TerminalSettings := { te_FontFamily : bytes; te_FontSize : Z; te_FontColor : bytes }.
Definition DefaultTerminalSettings : TerminalSettings := {|
  te_FontFamily := bytes_of_string "Cascadia Code, Consolas, Courier New, monospace"; te_FontSize := 14;
  te_FontColor := bytes_of_string "#cccccc" |}.

Record PingSettings := { pi_Enabled : bool; pi_Mode : bytes; pi_IntervalSeconds : Z; pi_MaxConcurrent : Z }.
Definition DefaultPingSettings : PingSettings :=
  {| pi_Enabled := true; pi_Mode := bytes_of_string "interval"; pi_IntervalSeconds := 5; pi_MaxConcurrent := 16 |}.

Record TransferSettings := {
  tr_SpeedLimitKbps : Z; tr_ConnectionTimeoutSec : Z; tr_MaxConcurrent : Z;
  tr_DefaultUploadExistsAction : bytes; tr_DefaultDownloadExistsAction : bytes;
}.
Definition DefaultTransferSettings : TransferSettings := {|
  tr_SpeedLimitKbps := 0; tr_ConnectionTimeoutSec := 15; tr_MaxConcurrent := 4;
  tr_DefaultUploadExistsAction := []; tr_DefaultDownloadExistsAction := [] |}.

Record SessionHotkeysSettings := { sh_Create : bytes; sh_Next : bytes; sh_Prev : bytes; sh_Close : bytes }.
Definition DefaultSessionHotkeysSettings : SessionHotkeysSettings := {|
  sh_Create := bytes_of_string "Ctrl+Shift+N"; sh_Next := bytes_of_string "Ctrl+Tab";
  sh_Prev := bytes_of_string "Ctrl+Shift+Tab"; sh_Close := bytes_of_string "Ctrl+Shift+Q" |}.

Record LocalTerminalSettings := { lt_ShellID : bytes; lt_OpenHotkey : bytes }.
Definition DefaultLocalTerminalSettings : LocalTerminalSettings :=
  {| lt_ShellID := []; lt_OpenHotkey := bytes_of_string "Ctrl+Shift+T" |}.

Record TerminalToolsSettings := { tt_SearchHotkey : bytes; tt_MultiInputHotkey : bytes; tt_MultiInputStopHotkey : bytes }.
Definition DefaultTerminalToolsSettings : TerminalToolsSettings := {|
  tt_SearchHotkey := bytes_of_string "Ctrl+Shift+F"; tt_MultiInputHotkey := bytes_of_string "Alt+M";
  tt_MultiInputStopHotkey := bytes_of_string "Alt+Shift+M" |}.

Record AuditLogSettings := {
  au_Enabled : bool; au_RetentionMode : bytes; au_RetentionDays : Z; au_RetentionCount : Z; au_ShowUsername : bool;
  au_ShowConnection : bool;
}.
Definition DefaultAuditLogSettings : AuditLogSettings := {|
  au_Enabled := false; au_RetentionMode := bytes_of_string "days"; au_RetentionDays := 30; au_RetentionCount := 100;
  au_ShowUsername := false; au_ShowConnection := false |}.

Record PluginSettings := {
  ps_TrustedPublisherKeys : list bytes; ps_RequireSignedPlugins : bool;
  ps_SecretAccessGranted : gmap bytes bool; ps_AuthProviderAccessGranted : gmap bytes bool;
  ps_TunnelProviderAccessGranted : gmap bytes bool; ps_MultiSessionAccessGranted : gmap bytes bool;
  ps_ArbitraryNetworkAccessGranted : gmap bytes bool; ps_Disabled : gmap bytes bool;
  ps_AllowUnsandboxedFallback : bool;
}.
Definition PluginSettings_zero : PluginSettings := {|
  ps_TrustedPublisherKeys := []; ps_RequireSignedPlugins := false; ps_SecretAccessGranted := ∅; ps_AuthProviderAccessGranted := ∅;
  ps_TunnelProviderAccessGranted := ∅; ps_MultiSessionAccessGranted := ∅; ps_ArbitraryNetworkAccessGranted := ∅; ps_Disabled := ∅;
  ps_AllowUnsandboxedFallback := false |}.
Definition DefaultPluginSettings : PluginSettings := {|
  ps_TrustedPublisherKeys := []; ps_RequireSignedPlugins := true; ps_SecretAccessGranted := ∅; ps_AuthProviderAccessGranted := ∅;
  ps_TunnelProviderAccessGranted := ∅; ps_MultiSessionAccessGranted := ∅; ps_ArbitraryNetworkAccessGranted := ∅; ps_Disabled := ∅;
  ps_AllowUnsandboxedFallback := false |}.

Record EmbedSettings := { em_SuspendTcpWhenInactive : bool }.
Record DebugSettings := { db_LogWindowEnabled : bool; db_LogLevel : bytes }.
Record UpdateSettings := { up_CheckOnStartup : option bool }.
Record ReconnectSettings := { rc_AutoReconnect : option bool; rc_PreserveContext : option bool }.

Record AppSettings := {
  as_Lockout : LockoutSettings; as_Terminal : TerminalSettings; as_Theme : bytes; as_Language : bytes; as_UIScalePercent : Z;
  as_Ping : PingSettings; as_Transfer : TransferSettings; as_SessionHotkeys : SessionHotkeysSettings;
  as_LocalTerminal : LocalTerminalSettings; as_TerminalTools : TerminalToolsSettings; as_ExternalEditorPath : bytes;
  as_AuditLog : AuditLogSettings; as_Plugins : PluginSettings; as_Embed : EmbedSettings; as_Debug : DebugSettings;
  as_Updates : UpdateSettings; as_Reconnect : ReconnectSettings;
}.

(** The settings [NewVaultData] starts with. *)
Definition NewSettings : AppSettings := {|
  as_Lockout := DefaultLockoutSettings; as_Terminal := DefaultTerminalSettings; as_Theme := bytes_of_string "dark"; as_Language := [];
  as_UIScalePercent := 100; as_Ping := DefaultPingSettings; as_Transfer := DefaultTransferSettings;
  as_SessionHotkeys := DefaultSessionHotkeysSettings; as_LocalTerminal := DefaultLocalTerminalSettings;
  as_TerminalTools := DefaultTerminalToolsSettings; as_ExternalEditorPath := []; as_AuditLog := DefaultAuditLogSettings;
  as_Plugins := DefaultPluginSettings; as_Embed := {| em_SuspendTcpWhenInactive := false |};
  as_Debug := {| db_LogWindowEnabled := false; db_LogLevel := [] |}; as_Updates := {| up_CheckOnStartup := None |};
  as_Reconnect := {| rc_AutoReconnect := None; rc_PreserveContext := None |} |}.

(** The zero value the section codecs and [Classify] start from. *)
Definition AppSettings_zero : AppSettings := {|
  as_Lockout := LockoutSettings_zero; as_Terminal := {| te_FontFamily := []; te_FontSize := 0; te_FontColor := [] |}; as_Theme := [];
  as_Language := []; as_UIScalePercent := 0;
  as_Ping := {| pi_Enabled := false; pi_Mode := []; pi_IntervalSeconds := 0; pi_MaxConcurrent := 0 |};
  as_Transfer := {| tr_SpeedLimitKbps := 0; tr_ConnectionTimeoutSec := 0; tr_MaxConcurrent := 0; tr_DefaultUploadExistsAction := [];
    tr_DefaultDownloadExistsAction := [] |};
  as_SessionHotkeys := {| sh_Create := []; sh_Next := []; sh_Prev := []; sh_Close := [] |};
  as_LocalTerminal := {| lt_ShellID := []; lt_OpenHotkey := [] |};
  as_TerminalTools := {| tt_SearchHotkey := []; tt_MultiInputHotkey := []; tt_MultiInputStopHotkey := [] |}; as_ExternalEditorPath := [];
  as_AuditLog := {| au_Enabled := false; au_RetentionMode := []; au_RetentionDays := 0; au_RetentionCount := 0; au_ShowUsername := false;
    au_ShowConnection := false |};
  as_Plugins := PluginSettings_zero; as_Embed := {| em_SuspendTcpWhenInactive := false |};
  as_Debug := {| db_LogWindowEnabled := false; db_LogLevel := [] |}; as_Updates := {| up_CheckOnStartup := None |};
  as_Reconnect := {| rc_AutoReconnect := None; rc_PreserveContext := None |} |}.

(** ** When a change of the plugin settings weakens trust ([plugin_trust_change.go]) *)

Definition granted (m : gmap bytes bool) (plugin : bytes) : bool := default false (m !! plugin).

Definition hasNewTrustedKey (old next : list bytes) : bool := existsb (λ k, negb (bool_decide (k ∈ old))) next.

Definition grant_widened (old next : gmap bytes bool) : bool :=
  existsb (λ p : bytes * bool, p.2 && negb (granted old p.1)) (map_to_list next).

Definition grantsWidened (old next : PluginSettings) : bool :=
  existsb (λ p : gmap bytes bool * gmap bytes bool, grant_widened p.1 p.2)
    [(ps_SecretAccessGranted old, ps_SecretAccessGranted next);
     (ps_AuthProviderAccessGranted old, ps_AuthProviderAccessGranted next);
     (ps_TunnelProviderAccessGranted old, ps_TunnelProviderAccessGranted next);
     (ps_MultiSessionAccessGranted old, ps_MultiSessionAccessGranted next);
     (ps_ArbitraryNetworkAccessGranted old, ps_ArbitraryNetworkAccessGranted next)].

Definition PluginTrustWeakened (old next : PluginSettings) : bool :=
  if ps_RequireSignedPlugins old && negb (ps_RequireSignedPlugins next) then true
  else if negb (ps_AllowUnsandboxedFallback old) && ps_AllowUnsandboxedFallback next then true
  else if hasNewTrustedKey (ps_TrustedPublisherKeys old) (ps_TrustedPublisherKeys next) then true
  else grantsWidened old next.

(** ** Sync state in the vault *)

(** JSON text, [json.RawMessage]. *)
Class RawJSON := { raw : Type }.

Section with_raw.
Context `{RawJSON}.

Record SyncConflict := {
  sc_ID : bytes; sc_RecordType : string; sc_ItemKey : bytes; sc_Path : list string; sc_Local : option raw; sc_Remote : option raw;
  sc_AtUnixMilli : Z; sc_VaultID : bytes;
}.
Definition sc_set_VaultID (v : bytes) (c : SyncConflict) : SyncConflict := {|
  sc_ID := sc_ID c; sc_RecordType := sc_RecordType c; sc_ItemKey := sc_ItemKey c; sc_Path := sc_Path c; sc_Local := sc_Local c;
  sc_Remote := sc_Remote c; sc_AtUnixMilli := sc_AtUnixMilli c; sc_VaultID := v |}.

Record SyncTeam := { st_Vault : bytes }.
Record SyncContact := { ct_Account : bytes; ct_IdentityDigest : bytes; ct_Username : bytes; ct_Verified : bool }.

Record CredentialBinding := {
  bi_VaultID : bytes; bi_ConnectionID : bytes; bi_UserID : bytes; bi_IdentityID : bytes; bi_PasswordID : bytes; bi_SuspendedBy : bytes;
}.
Definition slash : bytes := bytes_of_string "/".
Definition Binding_Key (b : CredentialBinding) : bytes := bi_VaultID b ++ slash ++ bi_ConnectionID b ++ slash ++ bi_UserID b.
Definition bi_set_SuspendedBy (a : bytes) (b : CredentialBinding) : CredentialBinding := {|
  bi_VaultID := bi_VaultID b; bi_ConnectionID := bi_ConnectionID b; bi_UserID := bi_UserID b; bi_IdentityID := bi_IdentityID b;
  bi_PasswordID := bi_PasswordID b; bi_SuspendedBy := a |}.

Definition PluginSourceGitHub : bytes := bytes_of_string "github".
Definition PluginSourceManual : bytes := bytes_of_string "manual".
Record SyncPluginSource := { so_Kind : bytes; so_Repo : bytes; so_Tag : bytes }.
Record SyncPlugin := {
  sp_ID : bytes; sp_Version : bytes; sp_Source : SyncPluginSource; sp_ManifestDigest : bytes; sp_SumsDigest : bytes;
  sp_PublisherKey : bytes;
}.

Record SyncPluginFile := { pf_Plugin : bytes; pf_Path : bytes; pf_Mode : Z; pf_SHA256 : bytes; pf_Content : bytes }.
Definition newline : bytes := [Byte.x0a].
Definition PluginFile_Key (f : SyncPluginFile) : bytes := pf_Plugin f ++ newline ++ pf_Path f.

Record SyncPendingKeys := { pk_IdentitySeed : bytes; pk_EncryptionSeed : bytes; pk_EncryptionKey : bytes }.
Record SyncAccount := {
  sa_ServerURL : bytes; sa_ServerIdentity : bytes; sa_Username : bytes; sa_Account : bytes; sa_Device : bytes; sa_DeviceSeed : bytes;
  sa_IdentitySeed : bytes; sa_EncryptionSeed : bytes; sa_EncryptionKey : bytes; sa_GenesisIdentityKey : bytes;
  sa_GenesisEncryptionKey : bytes; sa_Pending : option SyncPendingKeys; sa_RekeyPending : bool; sa_JoinPending : bool;
}.

Record VaultSync := {
  vy_Conflicts : list SyncConflict; vy_Contacts : list SyncContact; vy_Bindings : list CredentialBinding; vy_Teams : list SyncTeam;
  vy_Plugins : list SyncPlugin; vy_PluginFiles : list SyncPluginFile; vy_PluginFilesOnDisk : gmap bytes bytes;
  vy_PluginDataOff : list bytes; vy_PluginsHere : gmap bytes bytes; vy_PluginsRemovedElsewhere : list bytes;
  vy_AcknowledgedDevices : list bytes; vy_Account : option SyncAccount;
}.
Definition VaultSync_zero : VaultSync := {|
  vy_Conflicts := []; vy_Contacts := []; vy_Bindings := []; vy_Teams := []; vy_Plugins := []; vy_PluginFiles := [];
  vy_PluginFilesOnDisk := ∅; vy_PluginDataOff := []; vy_PluginsHere := ∅; vy_PluginsRemovedElsewhere := [];
  vy_AcknowledgedDevices := []; vy_Account := None |}.

(** [y] with the six synced lists replaced. *)
Definition vy_with (cs : list SyncConflict) (ct : list SyncContact) (bs : list CredentialBinding) (ts : list SyncTeam)
    (ps : list SyncPlugin) (fs : list SyncPluginFile) (y : VaultSync) : VaultSync := {|
  vy_Conflicts := cs; vy_Contacts := ct; vy_Bindings := bs; vy_Teams := ts; vy_Plugins := ps; vy_PluginFiles := fs;
  vy_PluginFilesOnDisk := vy_PluginFilesOnDisk y; vy_PluginDataOff := vy_PluginDataOff y; vy_PluginsHere := vy_PluginsHere y;
  vy_PluginsRemovedElsewhere := vy_PluginsRemovedElsewhere y; vy_AcknowledgedDevices := vy_AcknowledgedDevices y;
  vy_Account := vy_Account y |}.

(** ** The vault *)

Record VaultData := {
  vd_Version : Z;
  vd_Folders : list ConnectionFolder; vd_Connections : list Connection;
  vd_Identities : gmap bytes SSHIdentity; vd_KeyBlobs : gmap bytes IdentityBlob;
  vd_KnownHosts : list bytes;
  vd_Passwords : gmap bytes PasswordBlob; vd_PluginSecrets : gmap bytes bytes;
  vd_PeerTrust : list PeerTrustEntry;
  vd_Settings : option AppSettings; vd_Sync : option VaultSync;
}.

Definition CurrentVaultVersion : Z := 5.
Definition NewVaultData : VaultData := {|
  vd_Version := CurrentVaultVersion; vd_Folders := []; vd_Connections := []; vd_Identities := ∅; vd_KeyBlobs := ∅; vd_KnownHosts := [];
  vd_Passwords := ∅; vd_PluginSecrets := ∅; vd_PeerTrust := []; vd_Settings := Some NewSettings; vd_Sync := None |}.

(** Assignments to a field. *)
Definition set_Folders (v : list ConnectionFolder) (d : VaultData) : VaultData := {|
  vd_Version := vd_Version d; vd_Folders := v; vd_Connections := vd_Connections d; vd_Identities := vd_Identities d;
  vd_KeyBlobs := vd_KeyBlobs d; vd_KnownHosts := vd_KnownHosts d; vd_Passwords := vd_Passwords d;
  vd_PluginSecrets := vd_PluginSecrets d; vd_PeerTrust := vd_PeerTrust d; vd_Settings := vd_Settings d; vd_Sync := vd_Sync d |}.
Definition set_Connections (v : list Connection) (d : VaultData) : VaultData := {|
  vd_Version := vd_Version d; vd_Folders := vd_Folders d; vd_Connections := v; vd_Identities := vd_Identities d;
  vd_KeyBlobs := vd_KeyBlobs d; vd_KnownHosts := vd_KnownHosts d; vd_Passwords := vd_Passwords d;
  vd_PluginSecrets := vd_PluginSecrets d; vd_PeerTrust := vd_PeerTrust d; vd_Settings := vd_Settings d; vd_Sync := vd_Sync d |}.
(** The keys and their blobs change together. *)
Definition set_Identities (v : gmap bytes SSHIdentity) (b : gmap bytes IdentityBlob) (d : VaultData) : VaultData := {|
  vd_Version := vd_Version d; vd_Folders := vd_Folders d; vd_Connections := vd_Connections d; vd_Identities := v;
  vd_KeyBlobs := b; vd_KnownHosts := vd_KnownHosts d; vd_Passwords := vd_Passwords d;
  vd_PluginSecrets := vd_PluginSecrets d; vd_PeerTrust := vd_PeerTrust d; vd_Settings := vd_Settings d; vd_Sync := vd_Sync d |}.
Definition set_KnownHosts (v : list bytes) (d : VaultData) : VaultData := {|
  vd_Version := vd_Version d; vd_Folders := vd_Folders d; vd_Connections := vd_Connections d; vd_Identities := vd_Identities d;
  vd_KeyBlobs := vd_KeyBlobs d; vd_KnownHosts := v; vd_Passwords := vd_Passwords d;
  vd_PluginSecrets := vd_PluginSecrets d; vd_PeerTrust := vd_PeerTrust d; vd_Settings := vd_Settings d; vd_Sync := vd_Sync d |}.
Definition set_Passwords (v : gmap bytes PasswordBlob) (d : VaultData) : VaultData := {|
  vd_Version := vd_Version d; vd_Folders := vd_Folders d; vd_Connections := vd_Connections d; vd_Identities := vd_Identities d;
  vd_KeyBlobs := vd_KeyBlobs d; vd_KnownHosts := vd_KnownHosts d; vd_Passwords := v;
  vd_PluginSecrets := vd_PluginSecrets d; vd_PeerTrust := vd_PeerTrust d; vd_Settings := vd_Settings d; vd_Sync := vd_Sync d |}.
Definition set_PluginSecrets (v : gmap bytes bytes) (d : VaultData) : VaultData := {|
  vd_Version := vd_Version d; vd_Folders := vd_Folders d; vd_Connections := vd_Connections d; vd_Identities := vd_Identities d;
  vd_KeyBlobs := vd_KeyBlobs d; vd_KnownHosts := vd_KnownHosts d; vd_Passwords := vd_Passwords d;
  vd_PluginSecrets := v; vd_PeerTrust := vd_PeerTrust d; vd_Settings := vd_Settings d; vd_Sync := vd_Sync d |}.
Definition set_PeerTrust (v : list PeerTrustEntry) (d : VaultData) : VaultData := {|
  vd_Version := vd_Version d; vd_Folders := vd_Folders d; vd_Connections := vd_Connections d; vd_Identities := vd_Identities d;
  vd_KeyBlobs := vd_KeyBlobs d; vd_KnownHosts := vd_KnownHosts d; vd_Passwords := vd_Passwords d;
  vd_PluginSecrets := vd_PluginSecrets d; vd_PeerTrust := v; vd_Settings := vd_Settings d; vd_Sync := vd_Sync d |}.
Definition set_Settings (v : option AppSettings) (d : VaultData) : VaultData := {|
  vd_Version := vd_Version d; vd_Folders := vd_Folders d; vd_Connections := vd_Connections d; vd_Identities := vd_Identities d;
  vd_KeyBlobs := vd_KeyBlobs d; vd_KnownHosts := vd_KnownHosts d; vd_Passwords := vd_Passwords d;
  vd_PluginSecrets := vd_PluginSecrets d; vd_PeerTrust := vd_PeerTrust d; vd_Settings := v; vd_Sync := vd_Sync d |}.
Definition set_Sync (v : option VaultSync) (d : VaultData) : VaultData := {|
  vd_Version := vd_Version d; vd_Folders := vd_Folders d; vd_Connections := vd_Connections d; vd_Identities := vd_Identities d;
  vd_KeyBlobs := vd_KeyBlobs d; vd_KnownHosts := vd_KnownHosts d; vd_Passwords := vd_Passwords d;
  vd_PluginSecrets := vd_PluginSecrets d; vd_PeerTrust := vd_PeerTrust d; vd_Settings := vd_Settings d; vd_Sync := v |}.

(** [d.Sync], made empty where it is nil. *)
Definition sync_of (d : VaultData) : VaultSync := default VaultSync_zero (vd_Sync d).

(** ** Which credential a connection's user gets ([credential_binding.go]) *)

(** Whether a key or a password of another vault is named. *)
Definition foreign_key (d : VaultData) (vault id : bytes) : bool :=
  match vd_Identities d !! id with Some i => si_VaultID i <>? vault | None => false end.
Definition foreign_password (d : VaultData) (vault id : bytes) : bool :=
  match vd_Passwords d !! id with Some p => pb_VaultID p <>? vault | None => false end.

Definition CheckCredentialScope (d : VaultData) (vault : bytes) (keys : option KeyAuthConfig) (pw : option PasswordAuthConfig) :
    result derror unit :=
  if vault =?? [] then Ok () else
  fail_if match keys with Some k => existsb (foreign_key d vault) (ka_IdentityIDs k) | None => false end
    with [ErrCredentialOutsideVault] ;;
  fail_if match pw with Some p => (pw_VaultRef p <>? []) && foreign_password d vault (pw_VaultRef p) | None => false end
    with [ErrCredentialOutsideVault] ;;
  Ok ().

(** [user] with the authentication replaced. *)
Definition user_with (auth : bytes) (k : option KeyAuthConfig) (p : option PasswordAuthConfig) (u : ConnectionUser) : ConnectionUser := {|
  cu_ID := cu_ID u; cu_Username := cu_Username u; cu_Auth := auth; cu_KeyAuth := k; cu_PassAuth := p; cu_PluginAuth := cu_PluginAuth u;
  cu_Label := cu_Label u; cu_CredentialSource := cu_CredentialSource u |}.

(** The last binding with the key, as the loop leaves it. *)
Definition find_binding (d : VaultData) (key : bytes) : option CredentialBinding :=
  match vd_Sync d with
  | Some y => snd <$> list_find (λ b, Binding_Key b = key) (reverse (vy_Bindings y))
  | None => None
  end.

Definition ResolveCredentials (d : VaultData) (conn : Connection) (user : ConnectionUser) : result derror ConnectionUser :=
  if cu_CredentialSource user <>? CredentialSourcePersonal then
    _ ← CheckCredentialScope d (cn_VaultID conn) (cu_KeyAuth user) (cu_PassAuth user); Ok user
  else
  let key := Binding_Key {| bi_VaultID := cn_VaultID conn; bi_ConnectionID := cn_ID conn; bi_UserID := cu_ID user;
    bi_IdentityID := []; bi_PasswordID := []; bi_SuspendedBy := [] |} in
  match find_binding d key with
  | None => Err [ErrBindingMissing]
  | Some b =>
      fail_if bi_SuspendedBy b <>? [] with [ErrBindingSuspended] ;;
      fail_if (cu_Auth user <>? AuthMethodKey) && (cu_Auth user <>? AuthMethodPassword) with [ErrInvalidConnectionConfig] ;;
      if bi_IdentityID b <>? [] then
        match vd_Identities d !! bi_IdentityID b with
        | Some i => fail_if si_VaultID i <>? [] with [ErrBindingMissing] ;;
            Ok (user_with AuthMethodKey (Some {| ka_IdentityIDs := [bi_IdentityID b] |}) None user)
        | None => Err [ErrBindingMissing]
        end
      else if bi_PasswordID b <>? [] then
        match vd_Passwords d !! bi_PasswordID b with
        | Some p => fail_if pb_VaultID p <>? [] with [ErrBindingMissing] ;;
            Ok (user_with AuthMethodPassword None (Some {| pw_VaultRef := bi_PasswordID b |}) user)
        | None => Err [ErrBindingMissing]
        end
      else Err [ErrBindingMissing]
  end.

End with_raw.
