(* ===== verification/SyncTrust.v ===== *)
(** * SyncTrust: what a sync record means to this device

    [internal/domain/synctrust]: the record types and their names ([registry.go]), how the vault maps
    onto records and back ([mapping.go], [mapping_types.go], [mapping_plugins.go], [settings.go]),
    which vault an item belongs to ([scope.go]), which incoming changes wait for the master password
    ([trust.go], [trust_addition.go]), merging ([merge.go]) and bindings ([binding.go]); the host
    names of [internal/domain/known_host_match.go].

    JSON text is a parameter ([raw]) with the decoders and encoders of the types the records hold
    ([RecordJSON]): what was decoded encodes to something that decodes to it again, which is what
    [encoding/json] promises of these types. A deletion is an absent datum. *)

From S2P Require Import Prelude Bytes GoText SyncBase Canon AgentForward Merge Version PluginPaths KnownHosts VaultData.

(** ** Errors *)

Inductive tsentinel :=
  | ErrRecordData | ErrRecordType | ErrDuplicateKey | ErrForeignVault | ErrBody | ErrNamingKey | ErrSettings
  | EEncode                      (* json.Marshal failed *)
  | EVaultSync (s : sentinel).   (* a vaultsync error *)
#[export] Instance tsentinel_eq_dec : EqDecision tsentinel.
Proof. solve_decision. Defined.
Abbreviation terror := (list tsentinel).

Definition of_sync {A} (r : result error A) : result terror A :=
  match r with Ok a => Ok a | Err e => Err (EVaultSync <$> e) end.

(** ** Record types ([registry.go]) *)

Abbreviation RecordType := string.
Definition TypeVaultMeta : RecordType := "vault-meta".
Definition TypeFolder : RecordType := "folder".
Definition TypeConnection : RecordType := "connection".
Definition TypeIdentity : RecordType := "identity".
Definition TypePassword : RecordType := "password".
Definition TypePluginSecret : RecordType := "plugin-secret".
Definition TypeKnownHost : RecordType := "known-host".
Definition TypePeerTrust : RecordType := "peer-trust".
Definition TypeConflict : RecordType := "conflict".
Definition TypeContact : RecordType := "contact".
Definition TypeTeam : RecordType := "team".
Definition TypeCredentialBinding : RecordType := "credential-binding".
Definition TypePluginInstall : RecordType := "plugin-install".
Definition TypePluginData : RecordType := "plugin-data".
Definition settingsPrefix : string := "settings.".

Definition settingsSections : list string :=
  ["lockout"; "terminal"; "appearance"; "ping"; "transfer"; "sessionHotkeys"; "localTerminal"; "terminalTools"; "plugins"; "embed";
   "updates"; "reconnect"]%string.

Definition SettingsType (section : string) : RecordType := (settingsPrefix ++ section)%string.

Definition schemaV1 : list RecordType :=
  [TypeVaultMeta; TypeFolder; TypeConnection; TypeIdentity; TypePassword; TypePluginSecret; TypeKnownHost; TypePeerTrust;
   TypeConflict; TypeContact; TypeCredentialBinding; TypePluginInstall; TypePluginData; TypeTeam].

Definition settingsTypes : list RecordType := SettingsType <$> settingsSections.

Definition KnownSchemas : gmap string Z := list_to_map ((λ t, (t, 1)) <$> (schemaV1 ++ settingsTypes)).

(** [IsSettingsType]: the section a known settings type names. *)
Definition IsSettingsType (t : RecordType) : option string :=
  list_find (λ s, SettingsType s = t) settingsSections ≫= λ p, Some p.2.

(** ** JSON *)

(** Strict decoding into a Go type, and encoding; both may fail. *)
Class GoJSON `{RawJSON} (T : Type) := {
  decodeData : raw → option T;
  Marshal : T → option raw;
}.

Record knownHostData := { kh_Line : bytes }.
Record identityData := { idt_Identity : SSHIdentity; idt_Blob : option IdentityBlob }.
Record passwordData := { pwd_ID : bytes; pwd_Label : bytes; pwd_Value : bytes }.
Record pluginSecretData := { psd_Key : bytes; psd_Value : bytes }.
Record appearanceSection := { ap_Theme : bytes; ap_Language : bytes }.
Record localTerminalSection := { ls_OpenHotkey : bytes }.
Record pluginsSection := {
  pg_TrustedPublisherKeys : list bytes; pg_RequireSignedPlugins : bool; pg_SecretAccessGranted : gmap bytes bool;
  pg_AuthProviderAccessGranted : gmap bytes bool; pg_TunnelProviderAccessGranted : gmap bytes bool;
  pg_MultiSessionAccessGranted : gmap bytes bool; pg_ArbitraryNetworkAccessGranted : gmap bytes bool; pg_Disabled : gmap bytes bool;
}.
Record vaultMetaData := { vm_NamingKey : bytes; vm_Name : bytes }.

Section bodies.
Context `{RawJSON}.
(** What a record holds, and the change it stands for; no data is a deletion. *)
Record Body := { bd_Type : RecordType; bd_Schema : Z; bd_Data : raw }.
Record Entry := { en_Type : RecordType; en_Key : bytes; en_Data : option raw }.
End bodies.

(** The types records are made of, the generic decoder that keeps numbers as text, the encoder of
    such values, and [strconv.Quote]. *)
Class RecordJSON `{RawJSON} := {
  js_folder :: GoJSON ConnectionFolder; js_connection :: GoJSON Connection; js_identity :: GoJSON identityData;
  js_password :: GoJSON passwordData; js_secret :: GoJSON pluginSecretData; js_host :: GoJSON knownHostData;
  js_peer :: GoJSON PeerTrustEntry; js_conflict :: GoJSON SyncConflict; js_contact :: GoJSON SyncContact;
  js_team :: GoJSON SyncTeam; js_binding :: GoJSON CredentialBinding; js_plugin :: GoJSON SyncPlugin; js_file :: GoJSON SyncPluginFile;
  js_lockout :: GoJSON LockoutSettings; js_terminal :: GoJSON TerminalSettings; js_appearance :: GoJSON appearanceSection;
  js_ping :: GoJSON PingSettings; js_transfer :: GoJSON TransferSettings; js_hotkeys :: GoJSON SessionHotkeysSettings;
  js_local :: GoJSON localTerminalSection; js_tools :: GoJSON TerminalToolsSettings; js_plugins :: GoJSON pluginsSection;
  js_embed :: GoJSON EmbedSettings; js_updates :: GoJSON UpdateSettings; js_reconnect :: GoJSON ReconnectSettings;
  js_meta :: GoJSON vaultMetaData; js_body :: GoJSON Body;
  decodeObject : raw → option (gmap string json);
  marshal_any : any → option raw;
  raw_object : raw → bool;                  (* starts with a brace *)
  strconv_Quote : bytes → bytes;
}.

Section trust.
Context `{!RawJSON, !RecordJSON, !Crypto}.

(** ** Bodies and record ids ([registry.go]) *)

Definition EncodeBody (b : Body) : option raw := Marshal b.

Definition DecodeBody (r : raw) : result terror Body :=
  match decodeData r with
  | None => Err [ErrBody]
  | Some b =>
      fail_if (bd_Type b =?? ""%string) || (bd_Schema b =? 0) || negb (raw_object (bd_Data b)) with [ErrBody] ;;
      Ok b
  end.

Definition NamingKeySize : Z := 32.
Definition labelRecordName : string := "xqs-sync/v1/record-name".
Definition labelVaultMeta : string := "xqs-sync/v1/vault-meta".
Definition labelPersonalVault : string := "xqs-sync/v1/personal-vault".

(** [copy(id[:], digest)]. *)
Definition id_of_digest (b : bytes) : ID := default ID_zero (to_array 16 (take 16 b)).

Definition RecordID (namingKey : bytes) (t : RecordType) (naturalKey : bytes) : result terror ID :=
  fail_if negb (len namingKey =? NamingKeySize) with [ErrNamingKey] ;;
  msg ← of_sync (Encoded (NewCanon labelRecordName |> Canon_String t |> Canon_Bytes naturalKey));
  let id := id_of_digest (hmac (λ m, vec_to_list (sha256 m)) namingKey msg) in
  fail_if ID_IsZero id with [EVaultSync ErrZeroID] ;;
  Ok id.

Definition VaultMetaID (vault : ID) : ID := id_of_digest (vec_to_list (sha256 (bytes_of_string labelVaultMeta ++ vec_to_list vault))).
Definition PersonalVaultID (account : ID) : ID :=
  id_of_digest (vec_to_list (sha256 (bytes_of_string labelPersonalVault ++ vec_to_list account))).

(** ** Settings ([settings.go]) *)

Record sectionCodec := { sec_encode : AppSettings → option raw; sec_apply : AppSettings → raw → option AppSettings }.

Definition codec {T} `{!GoJSON T} (get : AppSettings → T) (put : T → AppSettings → AppSettings) : sectionCodec := {|
  sec_encode := λ s, Marshal (get s);
  sec_apply := λ s r, (λ v, put v s) <$> decodeData r |}.

(** [s] with its synced parts replaced. *)
Definition settings_with (lo : LockoutSettings) (te : TerminalSettings) (th la : bytes) (pi : PingSettings) (tr : TransferSettings)
    (sh : SessionHotkeysSettings) (lt : LocalTerminalSettings) (tt : TerminalToolsSettings) (pl : PluginSettings) (em : EmbedSettings)
    (up : UpdateSettings) (rc : ReconnectSettings) (s : AppSettings) : AppSettings := {|
  as_Lockout := lo; as_Terminal := te; as_Theme := th; as_Language := la; as_UIScalePercent := as_UIScalePercent s; as_Ping := pi;
  as_Transfer := tr; as_SessionHotkeys := sh; as_LocalTerminal := lt; as_TerminalTools := tt;
  as_ExternalEditorPath := as_ExternalEditorPath s; as_AuditLog := as_AuditLog s; as_Plugins := pl; as_Embed := em;
  as_Debug := as_Debug s; as_Updates := up; as_Reconnect := rc |}.

Definition pluginsOf (s : AppSettings) : pluginsSection :=
  let p := as_Plugins s in {|
  pg_TrustedPublisherKeys := ps_TrustedPublisherKeys p; pg_RequireSignedPlugins := ps_RequireSignedPlugins p;
  pg_SecretAccessGranted := ps_SecretAccessGranted p; pg_AuthProviderAccessGranted := ps_AuthProviderAccessGranted p;
  pg_TunnelProviderAccessGranted := ps_TunnelProviderAccessGranted p; pg_MultiSessionAccessGranted := ps_MultiSessionAccessGranted p;
  pg_ArbitraryNetworkAccessGranted := ps_ArbitraryNetworkAccessGranted p; pg_Disabled := ps_Disabled p |}.

(** The plugin settings a section makes of [p]: what is local to the device stays. *)
Definition plugins_with (v : pluginsSection) (p : PluginSettings) : PluginSettings := {|
  ps_TrustedPublisherKeys := pg_TrustedPublisherKeys v; ps_RequireSignedPlugins := pg_RequireSignedPlugins v;
  ps_SecretAccessGranted := pg_SecretAccessGranted v; ps_AuthProviderAccessGranted := pg_AuthProviderAccessGranted v;
  ps_TunnelProviderAccessGranted := pg_TunnelProviderAccessGranted v; ps_MultiSessionAccessGranted := pg_MultiSessionAccessGranted v;
  ps_ArbitraryNetworkAccessGranted := pg_ArbitraryNetworkAccessGranted v; ps_Disabled := pg_Disabled v;
  ps_AllowUnsandboxedFallback := ps_AllowUnsandboxedFallback p |}.

(** Replacing one synced part. *)
Definition put_Lockout v s := settings_with v (as_Terminal s) (as_Theme s) (as_Language s) (as_Ping s) (as_Transfer s) (as_SessionHotkeys s)
  (as_LocalTerminal s) (as_TerminalTools s) (as_Plugins s) (as_Embed s) (as_Updates s) (as_Reconnect s) s.
Definition put_Terminal v s := settings_with (as_Lockout s) v (as_Theme s) (as_Language s) (as_Ping s) (as_Transfer s) (as_SessionHotkeys s)
  (as_LocalTerminal s) (as_TerminalTools s) (as_Plugins s) (as_Embed s) (as_Updates s) (as_Reconnect s) s.
Definition put_Appearance v s := settings_with (as_Lockout s) (as_Terminal s) (ap_Theme v) (ap_Language v) (as_Ping s) (as_Transfer s)
  (as_SessionHotkeys s) (as_LocalTerminal s) (as_TerminalTools s) (as_Plugins s) (as_Embed s) (as_Updates s) (as_Reconnect s) s.
Definition put_Ping v s := settings_with (as_Lockout s) (as_Terminal s) (as_Theme s) (as_Language s) v (as_Transfer s) (as_SessionHotkeys s)
  (as_LocalTerminal s) (as_TerminalTools s) (as_Plugins s) (as_Embed s) (as_Updates s) (as_Reconnect s) s.
Definition put_Transfer v s := settings_with (as_Lockout s) (as_Terminal s) (as_Theme s) (as_Language s) (as_Ping s) v (as_SessionHotkeys s)
  (as_LocalTerminal s) (as_TerminalTools s) (as_Plugins s) (as_Embed s) (as_Updates s) (as_Reconnect s) s.
Definition put_SessionHotkeys v s := settings_with (as_Lockout s) (as_Terminal s) (as_Theme s) (as_Language s) (as_Ping s) (as_Transfer s) v
  (as_LocalTerminal s) (as_TerminalTools s) (as_Plugins s) (as_Embed s) (as_Updates s) (as_Reconnect s) s.
Definition put_LocalTerminal v s := settings_with (as_Lockout s) (as_Terminal s) (as_Theme s) (as_Language s) (as_Ping s) (as_Transfer s)
  (as_SessionHotkeys s) {| lt_ShellID := lt_ShellID (as_LocalTerminal s); lt_OpenHotkey := ls_OpenHotkey v |} (as_TerminalTools s)
  (as_Plugins s) (as_Embed s) (as_Updates s) (as_Reconnect s) s.
Definition put_TerminalTools v s := settings_with (as_Lockout s) (as_Terminal s) (as_Theme s) (as_Language s) (as_Ping s) (as_Transfer s)
  (as_SessionHotkeys s) (as_LocalTerminal s) v (as_Plugins s) (as_Embed s) (as_Updates s) (as_Reconnect s) s.
Definition applyPlugins v s := settings_with (as_Lockout s) (as_Terminal s) (as_Theme s) (as_Language s) (as_Ping s) (as_Transfer s)
  (as_SessionHotkeys s) (as_LocalTerminal s) (as_TerminalTools s) (plugins_with v (as_Plugins s)) (as_Embed s) (as_Updates s)
  (as_Reconnect s) s.
Definition put_Embed v s := settings_with (as_Lockout s) (as_Terminal s) (as_Theme s) (as_Language s) (as_Ping s) (as_Transfer s)
  (as_SessionHotkeys s) (as_LocalTerminal s) (as_TerminalTools s) (as_Plugins s) v (as_Updates s) (as_Reconnect s) s.
Definition put_Updates v s := settings_with (as_Lockout s) (as_Terminal s) (as_Theme s) (as_Language s) (as_Ping s) (as_Transfer s)
  (as_SessionHotkeys s) (as_LocalTerminal s) (as_TerminalTools s) (as_Plugins s) (as_Embed s) v (as_Reconnect s) s.
Definition put_Reconnect v s := settings_with (as_Lockout s) (as_Terminal s) (as_Theme s) (as_Language s) (as_Ping s) (as_Transfer s)
  (as_SessionHotkeys s) (as_LocalTerminal s) (as_TerminalTools s) (as_Plugins s) (as_Embed s) (as_Updates s) v s.

Definition sectionCodecs : list (string * sectionCodec) :=
  [("lockout"%string, codec as_Lockout put_Lockout);
   ("terminal"%string, codec as_Terminal put_Terminal);
   ("appearance"%string, codec (λ s, {| ap_Theme := as_Theme s; ap_Language := as_Language s |}) put_Appearance);
   ("ping"%string, codec as_Ping put_Ping);
   ("transfer"%string, codec as_Transfer put_Transfer);
   ("sessionHotkeys"%string, codec as_SessionHotkeys put_SessionHotkeys);
   ("localTerminal"%string, codec (λ s, {| ls_OpenHotkey := lt_OpenHotkey (as_LocalTerminal s) |}) put_LocalTerminal);
   ("terminalTools"%string, codec as_TerminalTools put_TerminalTools);
   ("plugins"%string, codec pluginsOf applyPlugins);
   ("embed"%string, codec as_Embed put_Embed);
   ("updates"%string, codec as_Updates put_Updates);
   ("reconnect"%string, codec as_Reconnect put_Reconnect)].

(** A Go map literal, as the list of its entries. *)
Definition assoc {A} (k : string) (l : list (string * A)) : option A := snd <$> (snd <$> list_find (λ p, p.1 = k) l).

Definition ApplySection (local : AppSettings) (section : string) (data : raw) : result terror AppSettings :=
  match assoc section sectionCodecs with
  | None => Err [ErrSettings]
  | Some c => match sec_apply c local data with Some s => Ok s | None => Err [ErrSettings] end
  end.

Definition SplitSettings (s : AppSettings) : result terror (gmap string raw) :=
  foldM (λ out p, match sec_encode p.2 s with Some r => Ok (<[p.1 := r]> out) | None => Err [EEncode] end) ∅ sectionCodecs.

(** ** Mapping the vault onto records ([mapping.go], [mapping_types.go], [mapping_plugins.go]) *)

Definition mutation : Type := VaultData → VaultData.

Record mapper := {
  m_entries : VaultData → result terror (list Entry);
  m_keyOf : raw → result terror bytes;
  m_upsert : bytes → raw → result terror mutation;
  m_remove : bytes → result terror mutation;
}.

Definition decode {T} `{!GoJSON T} (r : raw) : result terror T :=
  match decodeData r with Some v => Ok v | None => Err [ErrRecordData] end.

Definition keyFrom {T} `{!GoJSON T} (keyOf : T → bytes) (data : raw) : result terror bytes :=
  v ← decode data;
  fail_if keyOf v =?? [] with [ErrRecordData] ;;
  Ok (keyOf v).

Definition checkKey (filed own : bytes) : result terror unit :=
  fail_if (own =?? []) || (filed <>? own) with [ErrRecordData] ;; Ok ().

Definition marshalEntry {T} `{!GoJSON T} (key : bytes) (v : T) : result terror Entry :=
  match Marshal v with
  | Some r => Ok {| en_Type := ""%string; en_Key := key; en_Data := Some r |}
  | None => Err [EEncode]
  end.

(** The entries of a list of items, failing at the first that does not encode. *)
Definition marshalAll {T} `{!GoJSON T} (keyOf : T → bytes) (l : list T) : result terror (list Entry) :=
  foldM (λ out v, e ← marshalEntry (keyOf v) v; Ok (out ++ [e])) [] l.

(** [slices.IndexFunc], then replacing the item found or appending. *)
Fixpoint upsert_item {T} (p : T → bool) (v : T) (l : list T) : list T :=
  match l with
  | [] => [v]
  | x :: l' => if p x then v :: l' else x :: upsert_item p v l'
  end.
Definition delete_items {T} (p : T → bool) (l : list T) : list T := filter (λ x, p x = false) l.

Definition sliceMapper {T} `{!GoJSON T} (get : VaultData → list T) (set : list T → mutation) (keyOf : T → bytes)
    (validate : T → bool) : mapper := {|
  m_entries := λ d, marshalAll keyOf (get d);
  m_keyOf := keyFrom keyOf;
  m_upsert := λ key data,
    v ← decode data;
    _ ← checkKey key (keyOf v);
    fail_if negb (validate v) with [ErrRecordData] ;;
    Ok (λ d, set (upsert_item (λ x, keyOf x =?? key) v (get d)) d);
  m_remove := λ key, Ok (λ d, set (delete_items (λ x, keyOf x =?? key) (get d)) d) |}.

Definition folderMapper : mapper := sliceMapper vd_Folders set_Folders fo_ID (λ f, is_ok (Folder_Validate f)).
Definition connectionMapper : mapper := sliceMapper vd_Connections set_Connections cn_ID (λ c, is_ok (Connection_Validate c)).

Definition peer_key (e : PeerTrustEntry) : bytes :=
  if (pt_Scope e =?? []) || (pt_Subject e =?? []) then [] else pt_Scope e ++ newline ++ pt_Subject e.
Definition peerTrustMapper : mapper := sliceMapper vd_PeerTrust set_PeerTrust peer_key (λ _, true).

(** [strings.Join] with a space. *)
Fixpoint join_space (l : list bytes) : bytes :=
  match l with
  | [] => []
  | [f] => f
  | f :: l' => f ++ Byte.x20 :: join_space l'
  end.

(** Whether a line starts with a marker. *)
Definition marked (f : list bytes) : bool := match f with x :: _ => HasPrefix x [Byte.x40] | [] => false end.

Definition knownHostKey (line : bytes) : option bytes :=
  let f := Fields line in
  let n := if marked f then 3%nat else 2%nat in
  if (length f <? n + 1)%nat then None else Some (join_space (take n f)).
Definition lineKey (line : bytes) : bytes := default [] (knownHostKey line).

(** The listed lines: the first of each key, lines without one left out. *)
Fixpoint first_lines (seen : gset bytes) (lines : list bytes) : list bytes :=
  match lines with
  | [] => []
  | l :: ls => let k := lineKey l in
      if (k =?? []) || bool_decide (k ∈ seen) then first_lines seen ls else l :: first_lines ({[k]} ∪ seen) ls
  end.

Fixpoint upsert_line (key line : bytes) (l : list bytes) : list bytes :=
  match l with
  | [] => [line]
  | x :: l' => if lineKey x =?? key then line :: delete_items (λ y, lineKey y =?? key) l' else x :: upsert_line key line l'
  end.

Definition knownHostMapper : mapper := {|
  m_entries := λ d, marshalAll (λ v, lineKey (kh_Line v)) (Build_knownHostData <$> first_lines ∅ (vd_KnownHosts d));
  m_keyOf := λ data, v ← decode data;
    match knownHostKey (kh_Line v) with Some k => Ok k | None => Err [ErrRecordData] end;
  m_upsert := λ key data,
    v ← decode data;
    match knownHostKey (kh_Line v) with
    | None => Err [ErrRecordData]
    | Some own => _ ← checkKey key own; Ok (λ d, set_KnownHosts (upsert_line key (kh_Line v) (vd_KnownHosts d)) d)
    end;
  m_remove := λ key, Ok (λ d, set_KnownHosts (delete_items (λ l, lineKey l =?? key) (vd_KnownHosts d)) d) |}.

Definition mapMapper {T} `{!GoJSON T} (list_of : VaultData → list T) (keyOf : T → bytes) (put : T → mutation) (del : bytes → mutation) :
    mapper := {|
  m_entries := λ d, marshalAll keyOf (list_of d);
  m_keyOf := keyFrom keyOf;
  m_upsert := λ key data, v ← decode data; _ ← checkKey key (keyOf v); Ok (put v);
  m_remove := λ key, Ok (del key) |}.

Definition identityMapper : mapper := mapMapper
  (λ d, (λ p : bytes * SSHIdentity, {| idt_Identity := p.2; idt_Blob := vd_KeyBlobs d !! p.1 |}) <$> map_to_list (vd_Identities d))
  (λ v, si_ID (idt_Identity v))
  (λ v d, let id := si_ID (idt_Identity v) in
     set_Identities (<[id := idt_Identity v]> (vd_Identities d))
       (match idt_Blob v with Some b => <[id := b]> (vd_KeyBlobs d) | None => delete id (vd_KeyBlobs d) end) d)
  (λ key d, set_Identities (delete key (vd_Identities d)) (delete key (vd_KeyBlobs d)) d).

Definition passwordMapper : mapper := mapMapper
  (λ d, (λ p : bytes * PasswordBlob, {| pwd_ID := p.1; pwd_Label := pb_Label p.2; pwd_Value := pb_Value p.2 |}) <$> map_to_list (vd_Passwords d))
  pwd_ID
  (λ v d, set_Passwords (<[pwd_ID v := {| pb_Value := pwd_Value v; pb_Label := pwd_Label v; pb_VaultID := [] |}]> (vd_Passwords d)) d)
  (λ key d, set_Passwords (delete key (vd_Passwords d)) d).

Definition pluginSecretMapper : mapper := mapMapper
  (λ d, (λ p : bytes * bytes, {| psd_Key := p.1; psd_Value := p.2 |}) <$> map_to_list (vd_PluginSecrets d))
  psd_Key
  (λ v d, set_PluginSecrets (<[psd_Key v := psd_Value v]> (vd_PluginSecrets d)) d)
  (λ key d, set_PluginSecrets (delete key (vd_PluginSecrets d)) d).

(** The lists inside [d.Sync], which is made where it is nil. *)
Definition set_Conflicts (l : list SyncConflict) (d : VaultData) : VaultData :=
  let y := sync_of d in set_Sync (Some (vy_with l (vy_Contacts y) (vy_Bindings y) (vy_Teams y) (vy_Plugins y) (vy_PluginFiles y) y)) d.
Definition set_Contacts (l : list SyncContact) (d : VaultData) : VaultData :=
  let y := sync_of d in set_Sync (Some (vy_with (vy_Conflicts y) l (vy_Bindings y) (vy_Teams y) (vy_Plugins y) (vy_PluginFiles y) y)) d.
Definition set_Bindings (l : list CredentialBinding) (d : VaultData) : VaultData :=
  let y := sync_of d in set_Sync (Some (vy_with (vy_Conflicts y) (vy_Contacts y) l (vy_Teams y) (vy_Plugins y) (vy_PluginFiles y) y)) d.
Definition set_Teams (l : list SyncTeam) (d : VaultData) : VaultData :=
  let y := sync_of d in set_Sync (Some (vy_with (vy_Conflicts y) (vy_Contacts y) (vy_Bindings y) l (vy_Plugins y) (vy_PluginFiles y) y)) d.
Definition set_Plugins (l : list SyncPlugin) (d : VaultData) : VaultData :=
  let y := sync_of d in set_Sync (Some (vy_with (vy_Conflicts y) (vy_Contacts y) (vy_Bindings y) (vy_Teams y) l (vy_PluginFiles y) y)) d.
Definition set_PluginFiles (l : list SyncPluginFile) (d : VaultData) : VaultData :=
  let y := sync_of d in set_Sync (Some (vy_with (vy_Conflicts y) (vy_Contacts y) (vy_Bindings y) (vy_Teams y) (vy_Plugins y) l y)) d.

(** [strings.Join] of the quoted parts with commas. *)
Definition ConflictID (recordType : string) (itemKey : bytes) (path : list string) : bytes :=
  let parts := strconv_Quote <$> (bytes_of_string recordType :: itemKey :: (bytes_of_string <$> path)) in
  match parts with [] => [] | p :: ps => p ++ concat ((λ q, Byte.x2c :: q) <$> ps) end.

Definition conflict_key (c : SyncConflict) : bytes :=
  if sc_ID c <>? ConflictID (sc_RecordType c) (sc_ItemKey c) (sc_Path c) then [] else sc_ID c.
Definition conflictMapper : mapper := sliceMapper (λ d, vy_Conflicts (sync_of d)) set_Conflicts conflict_key
  (λ c, negb ((len (sc_Path c) =? 0) || (sc_ItemKey c =?? [])) && bool_decide (is_Some (KnownSchemas !! sc_RecordType c))).

Definition contactMapper : mapper := sliceMapper (λ d, vy_Contacts (sync_of d)) set_Contacts ct_Account
  (λ c, is_ok (ParseID (ct_Account c)) && match hex_decode (ct_IdentityDigest c) with Some r => len r =? 32 | None => false end).

Definition teamMapper : mapper := sliceMapper (λ d, vy_Teams (sync_of d)) set_Teams st_Vault (λ t, is_ok (ParseID (st_Vault t))).

Definition binding_key (b : CredentialBinding) : bytes :=
  if (bi_VaultID b =?? []) || (bi_ConnectionID b =?? []) || (bi_UserID b =?? []) then [] else Binding_Key b.
Definition bindingMapper : mapper := sliceMapper (λ d, vy_Bindings (sync_of d)) set_Bindings binding_key
  (λ b, negb (Bool.eqb (bi_IdentityID b =?? []) (bi_PasswordID b =?? []))).

Definition isDigest (s : bytes) : bool :=
  match hex_decode s with Some r => (len r =? 32) && (s =?? ascii_lower s) | None => false end.
Definition printable (s : bytes) (maxLen : Z) : bool := (len s <=? maxLen) && negb (existsb control_rune (runes s)).

(** [^[A-Za-z0-9](?:[A-Za-z0-9-]{0,38})/[A-Za-z0-9._-]{1,100}$] *)
Definition githubRepo (s : bytes) : bool :=
  match Split s Byte.x2f with
  | [c :: owner; name] =>
      in_class alnum c && (len owner <=? 38) && forallb (in_class ((45, 45) :: alnum)) owner
      && (1 <=? len name) && (len name <=? 100) && forallb (in_class ((46, 46) :: (95, 95) :: (45, 45) :: alnum)) name
  | _ => false
  end.

Definition validateSyncPlugin (p : SyncPlugin) : bool :=
  let s := sp_Source p in
  is_ok (ValidateID (sp_ID p))
  && printable (sp_Version p) 64 && (sp_Version p <>? []) && printable (sp_PublisherKey p) 256
  && isDigest (sp_ManifestDigest p) && ((sp_SumsDigest p =?? []) || isDigest (sp_SumsDigest p))
  && (if so_Kind s =?? PluginSourceGitHub then
        githubRepo (so_Repo s) && (so_Tag s <>? []) && printable (so_Tag s) 128 && (sp_SumsDigest p <>? [])
      else if so_Kind s =?? PluginSourceManual then (so_Repo s =?? []) && (so_Tag s =?? [])
      else false).
Definition pluginInstallMapper : mapper := sliceMapper (λ d, vy_Plugins (sync_of d)) set_Plugins sp_ID validateSyncPlugin.

Definition validateSyncPluginFile (f : SyncPluginFile) : bool :=
  is_ok (ValidateID (pf_Plugin f)) && is_ok (ValidSyncFile (pf_Path f)) && (len (pf_Content f) <=? MaxSyncReceivedFileBytes)
  && (Z.ldiff (pf_Mode f) 420 =? 0) && (Z.land (pf_Mode f) 384 =? 384)   (* 0o644, 0o600 *)
  && (pf_SHA256 f =?? hex_encode (vec_to_list (sha256 (pf_Content f)))).
Definition pluginDataMapper : mapper := sliceMapper (λ d, vy_PluginFiles (sync_of d)) set_PluginFiles PluginFile_Key validateSyncPluginFile.

Definition settingsMapper (section : string) : mapper := {|
  m_entries := λ d,
    match vd_Settings d with
    | None => Ok []
    | Some s =>
        match assoc section sectionCodecs ≫= λ c, sec_encode c s with
        | Some r => Ok [{| en_Type := ""%string; en_Key := bytes_of_string section; en_Data := Some r |}]
        | None => Err [EEncode]
        end
    end;
  m_keyOf := λ data, match ApplySection AppSettings_zero section data with
    | Ok _ => Ok (bytes_of_string section) | Err e => Err (ErrRecordData :: e) end;
  m_upsert := λ key data,
    _ ← checkKey (bytes_of_string section) key;
    match ApplySection AppSettings_zero section data with
    | Err e => Err (ErrRecordData :: e)
    | Ok _ => Ok (λ d,
        let s := default NewSettings (vd_Settings d) in
        set_Settings (Some (of_ok s (ApplySection s section data))) d)
    end;
  m_remove := λ _, Err [ErrRecordData] |}.

Definition mappers : list (string * mapper) :=
  [(TypeFolder, folderMapper); (TypeConnection, connectionMapper); (TypeIdentity, identityMapper); (TypePassword, passwordMapper);
   (TypePluginSecret, pluginSecretMapper); (TypeKnownHost, knownHostMapper); (TypePeerTrust, peerTrustMapper);
   (TypeConflict, conflictMapper); (TypeContact, contactMapper); (TypeTeam, teamMapper); (TypeCredentialBinding, bindingMapper);
   (TypePluginInstall, pluginInstallMapper); (TypePluginData, pluginDataMapper)].

Definition mapperFor (t : RecordType) : result terror mapper :=
  match IsSettingsType t with
  | Some section => Ok (settingsMapper section)
  | None => match assoc t mappers with Some m => Ok m | None => Err [ErrRecordType] end
  end.

(** [add] of [snapshotAll]. *)
Definition snapshot_add (namingKey : bytes) (t : RecordType) (out : gmap ID Entry) (e : Entry) : result terror (gmap ID Entry) :=
  id ← RecordID namingKey t (en_Key e);
  fail_if bool_decide (is_Some (out !! id)) with [ErrDuplicateKey] ;;
  Ok (<[id := {| en_Type := t; en_Key := en_Key e; en_Data := en_Data e |}]> out).

Definition snapshot_type (namingKey : bytes) (d : VaultData) (out : gmap ID Entry) (t : RecordType) : result terror (gmap ID Entry) :=
  match mapperFor t with
  | Err _ => Ok out
  | Ok m => es ← m_entries m d; foldM (snapshot_add namingKey t) out es
  end.

Definition snapshotAll (namingKey : bytes) (d : VaultData) : result terror (gmap ID Entry) :=
  foldM (snapshot_type namingKey d) ∅ (schemaV1 ++ settingsTypes).

(** The change one entry stands for, checked; [Validate] is its success. *)
Definition prepare (e : Entry) : result terror mutation :=
  m ← mapperFor (en_Type e);
  match en_Data e with None => m_remove m (en_Key e) | Some r => m_upsert m (en_Key e) r end.
Definition Validate (e : Entry) : result terror unit := _ ← prepare e; Ok ().

Definition NaturalKey (t : RecordType) (data : raw) : result terror bytes := m ← mapperFor t; m_keyOf m data.

(** [apply]: every change is prepared before any is made. *)
Definition prepareAll (changes : list Entry) : result terror (list mutation) :=
  foldM (λ muts c, mu ← prepare c; Ok (muts ++ [mu])) [] changes.
Definition apply_changes (d : VaultData) (changes : list Entry) : result terror VaultData :=
  muts ← prepareAll changes; Ok (foldl (λ d mu, mu d) d muts).

(** ** Scopes ([scope.go]) *)

(** The empty vault id is the personal vault. *)
Record Scope := { sco_Vault : bytes }.
Definition personal : Scope := {| sco_Vault := [] |}.

Definition teamTypes : list RecordType := [TypeFolder; TypeConnection; TypeIdentity; TypePassword; TypePluginSecret; TypeConflict].
Definition Allows (s : Scope) (t : RecordType) : bool := (sco_Vault s =?? []) || bool_decide (t ∈ teamTypes).

Definition withoutPluginSecrets (changes : list Entry) : list Entry := filter (λ c, en_Type c ≠ TypePluginSecret) changes.

Definition project (d : VaultData) (s : Scope) : VaultData :=
  let v := sco_Vault s in
  let own := v =?? [] in
  let idents := filter (λ p, si_VaultID p.2 = v) (vd_Identities d) in {|
  vd_Version := vd_Version d;
  vd_Folders := fo_set_VaultID [] <$> filter (λ f, fo_VaultID f = v) (vd_Folders d);
  vd_Connections := cn_set_VaultID [] <$> filter (λ c, cn_VaultID c = v) (vd_Connections d);
  vd_Identities := si_set_VaultID [] <$> idents;
  vd_KeyBlobs := filter (λ p, is_Some (idents !! p.1)) (vd_KeyBlobs d);
  vd_KnownHosts := if own then vd_KnownHosts d else [];
  vd_Passwords := pb_set_VaultID [] <$> filter (λ p, pb_VaultID p.2 = v) (vd_Passwords d);
  vd_PluginSecrets := if own then vd_PluginSecrets d else ∅;
  vd_PeerTrust := if own then vd_PeerTrust d else [];
  vd_Settings := if own then vd_Settings d else None;
  vd_Sync := (λ y, vy_with (sc_set_VaultID [] <$> filter (λ c, sc_VaultID c = v) (vy_Conflicts y))
                (if own then vy_Contacts y else []) (if own then vy_Bindings y else []) (if own then vy_Teams y else [])
                (if own then vy_Plugins y else []) (if own then vy_PluginFiles y else []) VaultSync_zero) <$> vd_Sync d |}.

Definition SnapshotScope (namingKey : bytes) (d : VaultData) (s : Scope) : result terror (gmap ID Entry) :=
  snapshotAll namingKey (project d s).
Definition Snapshot (namingKey : bytes) (d : VaultData) : result terror (gmap ID Entry) := SnapshotScope namingKey d personal.

Definition ownerOf (d : VaultData) (t : RecordType) (key : bytes) : option bytes :=
  if t =?? TypeFolder then (λ p, fo_VaultID p.2) <$> list_find (λ f, fo_ID f = key) (vd_Folders d)
  else if t =?? TypeConnection then (λ p, cn_VaultID p.2) <$> list_find (λ c, cn_ID c = key) (vd_Connections d)
  else if t =?? TypeIdentity then si_VaultID <$> vd_Identities d !! key
  else if t =?? TypePassword then pb_VaultID <$> vd_Passwords d !! key
  else None.

(** Changing the first item with the key. *)
Fixpoint alter_first {T} (p : T → bool) (f : T → T) (l : list T) : list T :=
  match l with
  | [] => []
  | x :: l' => if p x then f x :: l' else x :: alter_first p f l'
  end.

(** [stamp]; a map item that is gone comes back as its zero value. *)
Definition stamp (t : RecordType) (key vault : bytes) (d : VaultData) : VaultData :=
  if t =?? TypeFolder then set_Folders (alter_first (λ f, fo_ID f =?? key) (fo_set_VaultID vault) (vd_Folders d)) d
  else if t =?? TypeConnection then set_Connections (alter_first (λ c, cn_ID c =?? key) (cn_set_VaultID vault) (vd_Connections d)) d
  else if t =?? TypeIdentity then
    set_Identities (<[key := si_set_VaultID vault (default SSHIdentity_zero (vd_Identities d !! key))]> (vd_Identities d)) (vd_KeyBlobs d) d
  else if t =?? TypePassword then
    set_Passwords (<[key := pb_set_VaultID vault (default PasswordBlob_zero (vd_Passwords d !! key))]> (vd_Passwords d)) d
  else if t =?? TypeConflict then
    match vd_Sync d with
    | Some y => set_Conflicts (alter_first (λ c, sc_ID c =?? key) (sc_set_VaultID vault) (vy_Conflicts y)) d
    | None => d
    end
  else d.

Definition stamp_entry (vault : bytes) (d : VaultData) (c : Entry) : VaultData :=
  match en_Data c with Some _ => stamp (en_Type c) (en_Key c) vault d | None => d end.

(** The check of one change before any is applied. *)
Definition scope_check (d : VaultData) (s : Scope) (c : Entry) : result terror unit :=
  fail_if negb (Allows s (en_Type c)) with [ErrRecordType] ;;
  fail_if match ownerOf d (en_Type c) (en_Key c) with Some owner => owner <>? sco_Vault s | None => false end with [ErrForeignVault] ;;
  Ok ().

Definition ApplyScope (d : VaultData) (s : Scope) (changes : list Entry) : result terror VaultData :=
  let changes := if sco_Vault s <>? [] then withoutPluginSecrets changes else changes in
  _ ← foldM (λ _ c, scope_check d s c) () changes;
  d' ← apply_changes d changes;
  Ok (foldl (stamp_entry (sco_Vault s)) d' changes).
Definition Apply (d : VaultData) (changes : list Entry) : result terror VaultData := ApplyScope d personal changes.

(** ** Which changes wait ([trust.go], [trust_addition.go]) *)

Inductive Action := ActionApply | ActionPending | ActionRefuse.
#[export] Instance Action_eq_dec : EqDecision Action.
Proof. solve_decision. Defined.

Definition anchorDeletions : list RecordType := [TypeKnownHost; TypePeerTrust; TypeIdentity].

Definition classifyDeletion (t : RecordType) (local : option raw) : Action :=
  if bool_decide (t ∈ anchorDeletions) && bool_decide (is_Some local) then ActionPending else ActionApply.

Definition decodeOrZero {T} `{!GoJSON T} (r : option raw) (zero : T) : result terror T :=
  match r with None => Ok zero | Some r => decode r end.

Definition classifyPlugins (local : option raw) (incoming : raw) : result terror Action :=
  l ← decodeOrZero local (pluginsOf NewSettings);
  inc ← decode incoming;
  Ok (if PluginTrustWeakened (plugins_with l PluginSettings_zero) (plugins_with inc PluginSettings_zero) then ActionPending else ActionApply).

Definition idleLimit (d : Z) : Z := if d <=? 0 then MaxInt64 else d.

Definition lockout_weaker (l inc : LockoutSettings) : bool :=
  lo_Enabled l && (negb (lo_Enabled inc) || (idleLimit (lo_IdleTimeout l) <? idleLimit (lo_IdleTimeout inc))
                   || (lo_LockOnMinimize l && negb (lo_LockOnMinimize inc))).
Definition classifyLockout (local : option raw) (incoming : raw) : result terror Action :=
  l ← decodeOrZero local LockoutSettings_zero;
  inc ← decode incoming;
  Ok (if lockout_weaker l inc then ActionPending else ActionApply).

Definition classifyIdentity (local : option raw) (incoming : raw) : result terror Action :=
  inc ← decode (T := identityData) incoming;
  match local with
  | None => Ok ActionApply
  | Some r =>
      l ← decode (T := identityData) r;
      let li := idt_Identity l in let ii := idt_Identity inc in
      Ok (if si_NonExportable li && negb (si_NonExportable ii) then ActionRefuse
          else if negb (si_AllowPlugins li) && si_AllowPlugins ii then ActionPending
          else if negb (si_AllowForwarding li) && si_AllowForwarding ii then ActionPending
          else ActionApply)
  end.

Definition classifyConnection (local : option raw) (incoming : raw) : result terror Action :=
  inc ← decode (T := Connection) incoming;
  l ← decodeOrZero local Connection_zero;
  match cn_AgentForwarding inc with
  | Some fi =>
      if negb (cfg_Enabled fi) then Ok ActionApply else
      match cn_AgentForwarding l with
      | Some fl =>
          if negb (cfg_Enabled fl) then Ok ActionPending else
          Ok (if forallb (λ id, bool_decide (id ∈ cfg_IdentityIDs fl)) (cfg_IdentityIDs fi) then ActionApply else ActionPending)
      | None => Ok ActionPending
      end
  | None => Ok ActionApply
  end.

Definition classifyReplacement {T} `{!GoJSON T} (local : option raw) (incoming : raw) (anchor : T → bytes) : result terror Action :=
  inc ← decode (T := T) incoming;
  match local with
  | None => Ok ActionApply
  | Some r => l ← decode (T := T) r; Ok (if anchor l =?? anchor inc then ActionApply else ActionPending)
  end.

Definition Classify (t : RecordType) (local incoming : option raw) : result terror Action :=
  match incoming with
  | None => Ok (if IsSettingsType t is Some _ then ActionRefuse else classifyDeletion t local)
  | Some inc =>
      if t =?? SettingsType "plugins" then classifyPlugins local inc
      else if t =?? SettingsType "lockout" then classifyLockout local inc
      else if t =?? TypeIdentity then classifyIdentity local inc
      else if t =?? TypeConnection then classifyConnection local inc
      else if t =?? TypeKnownHost then classifyReplacement local inc kh_Line
      else if t =?? TypePeerTrust then classifyReplacement local inc pt_Material
      else Ok ActionApply
  end.

Definition knownHostField (line : bytes) : option bytes :=
  let f := Fields line in
  match drop (if marked f then 1 else 0) f with
  | [] => None
  | h :: _ => let host := cut_before h Byte.x2c in if host =?? [] then None else Some host
  end.

Definition sameKnownHost (a b : bytes) : bool :=
  if IsHashedKnownHost a && IsHashedKnownHost b then true
  else if IsHashedKnownHost a then KnownHostMatches a b
  else KnownHostMatches b a.

(** Whether a held item is a line for the host. *)
Definition held_names (host : bytes) (e : Entry) : bool :=
  bool_decide (en_Type e = TypeKnownHost) &&
  match en_Data e ≫= decodeData with
  | Some l => match knownHostField (kh_Line l) with Some lh => sameKnownHost lh host | None => false end
  | None => false
  end.

Definition ClassifyAddition (t : RecordType) (held : gmap ID Entry) (incoming : option raw) : result terror Action :=
  match incoming with
  | None => Ok ActionApply
  | Some inc =>
      if t <>? TypeKnownHost then Ok ActionApply else
      v ← decode (T := knownHostData) inc;
      match knownHostField (kh_Line v) with
      | None => Err [ErrRecordData]
      | Some host => Ok (if existsb (λ p, held_names host p.2) (map_to_list held) then ActionPending else ActionApply)
      end
  end.

(** ** Credential fields ([trust.go]) *)

Definition credentialFields (t : RecordType) : list string :=
  default [] (assoc t [(TypePassword, ["value"%string]); (TypePluginSecret, ["value"%string]); (TypeKnownHost, ["line"%string]);
                       (TypePeerTrust, ["material"%string])]).
Definition connectionCredentials : list string := ["host"; "port"; "jumpChain"; "agentForwarding"]%string.
Definition userCredentials : list string := ["authMethod"; "keyAuth"; "passAuth"; "pluginAuth"]%string.
Definition identityCredentials : list string := ["policy"; "allowPlugins"; "allowForwarding"; "nonExportable"]%string.

Definition isCredential (t : RecordType) (path : list string) : bool :=
  match path with
  | [] => false
  | p0 :: rest =>
      if t =?? TypeConnection then
        if p0 =?? "users"%string then match rest with _ :: p2 :: _ => bool_decide (p2 ∈ userCredentials) | _ => false end
        else bool_decide (p0 ∈ connectionCredentials)
      else if t =?? TypeIdentity then
        (p0 =?? "blob"%string) ||
        ((p0 =?? "identity"%string) && match rest with p1 :: _ => bool_decide (p1 ∈ identityCredentials) | [] => false end)
      else bool_decide (p0 ∈ credentialFields t)
  end.
Definition FieldPolicyFor (t : RecordType) : FieldPolicy := λ path, if isCredential t path then FieldCredential else FieldOrdinary.

(** ** Merging ([merge.go]) *)

Record FieldConflict := { fc_Path : list string; fc_Local : raw; fc_Remote : raw }.

Definition decodeObj (r : raw) : result terror (gmap string json) :=
  match decodeObject r with Some o => Ok o | None => Err [ErrRecordData] end.

Definition encode_conflict (out : list FieldConflict) (c : Conflict) : result terror (list FieldConflict) :=
  match marshal_any (cf_Local c), marshal_any (cf_Remote c) with
  | Some l, Some r => Ok (out ++ [{| fc_Path := cf_Path c; fc_Local := l; fc_Remote := r |}])
  | _, _ => Err [ErrRecordData]
  end.

Definition MergeData (t : RecordType) (base : option raw) (local remote : raw) : result terror (raw * list FieldConflict) :=
  b ← match base with Some r => decodeObj r | None => Ok ∅ end;
  l ← decodeObj local;
  r ← decodeObj remote;
  let res := MergeObjects (FieldPolicyFor t) b l r in
  match marshal_any (Some (JObject (mr_Value res))) with
  | None => Err [ErrRecordData]
  | Some merged => cs ← foldM encode_conflict [] (mr_Conflicts res); Ok (merged, cs)
  end.

Definition SameData (a b : raw) : bool :=
  match decodeObject a, decodeObject b with
  | Some x, Some y => DeepEqual (Some (JObject x)) (Some (JObject y))
  | _, _ => false
  end.

Definition conflict_entry (t : RecordType) (itemKey : bytes) (at_ : Z) (out : list Entry) (c : FieldConflict) : result terror (list Entry) :=
  let sc := {| sc_ID := ConflictID t itemKey (fc_Path c); sc_RecordType := t; sc_ItemKey := itemKey; sc_Path := fc_Path c;
    sc_Local := Some (fc_Local c); sc_Remote := Some (fc_Remote c); sc_AtUnixMilli := at_; sc_VaultID := [] |} in
  match Marshal sc with
  | None => Err [ErrRecordData]
  | Some data => Ok (out ++ [{| en_Type := TypeConflict; en_Key := sc_ID sc; en_Data := Some data |}])
  end.
Definition ConflictEntries (t : RecordType) (itemKey : bytes) (conflicts : list FieldConflict) (atUnixMilli : Z) : result terror (list Entry) :=
  foldM (conflict_entry t itemKey atUnixMilli) [] conflicts.

(** ** Bindings ([binding.go]) *)

(** [sameJumps] compares the chains with [reflect.DeepEqual]; an absent chain and an empty one are
    the same here. *)
Definition AddressChanged (before after : raw) : bool :=
  match decodeData (T := Connection) before, decodeData (T := Connection) after with
  | Some a, Some b => (cn_Host a <>? cn_Host b) || negb (cn_Port a =? cn_Port b) || (cn_Hops a <>? cn_Hops b)
  | _, _ => true
  end.

Definition suspend_binding (vault connection byAccount : bytes) (b : CredentialBinding) : CredentialBinding :=
  if (bi_VaultID b =?? vault) && (bi_ConnectionID b =?? connection) then bi_set_SuspendedBy byAccount b else b.
Definition SuspendBindings (vault connection byAccount : bytes) (d : VaultData) : VaultData :=
  match vd_Sync d with
  | None => d
  | Some y => set_Bindings (suspend_binding vault connection byAccount <$> vy_Bindings y) d
  end.

(** ** The vault's own record ([vaultmeta.go]) *)

Definition NewTeamMetaBody (namingKey name : bytes) : result terror Body :=
  fail_if negb (len namingKey =? NamingKeySize) with [ErrNamingKey] ;;
  match Marshal {| vm_NamingKey := namingKey; vm_Name := name |} with
  | Some data => Ok {| bd_Type := TypeVaultMeta; bd_Schema := 1; bd_Data := data |}
  | None => Err [EEncode]
  end.

Definition VaultMetaNamingKey (b : Body) : result terror bytes :=
  fail_if bd_Type b <>? TypeVaultMeta with [ErrRecordData] ;;
  v ← decode (bd_Data b);
  fail_if negb (len (vm_NamingKey v) =? NamingKeySize) with [ErrNamingKey] ;;
  Ok (vm_NamingKey v).

(** ** Resolving a conflict ([setfield.go]) *)

(** [strings.CutPrefix] and [CutSuffix] around the id of an [[id=...]] segment. *)
Definition id_segment (seg : string) : option string :=
  let b := bytes_of_string seg in
  if HasPrefix b (bytes_of_string "[id=") && HasSuffix (drop 4 b) [Byte.x5d]
  then Some (String.string_of_list_byte (take (length b - 5) (drop 4 b))) else None.

Definition element_id (el : json) : option string :=
  match el with JObject o => match o !! "id"%string with Some (JString i) => Some i | _ => None end | _ => None end.
Definition indexByID (l : list json) (seg : string) : option nat :=
  id_segment seg ≫= λ id, fst <$> list_find (λ el, element_id el = Some id) l.

(** [setPath] from a node down; no path runs through a missing step or a plain value. *)
Fixpoint set_path (node : any) (path : list string) (v : json) : option json :=
  match path with
  | [] => Some v
  | seg :: rest =>
      match node with
      | Some (JObject o) => (λ child, JObject (<[seg := child]> o)) <$> set_path (o !! seg) rest v
      | Some (JArray l) => indexByID l seg ≫= λ i, (λ child, JArray (<[i := child]> l)) <$> set_path (l !! i) rest v
      | _ => None
      end
  end.

Definition itemData (m : mapper) (d : VaultData) (itemKey : bytes) : result terror raw :=
  es ← m_entries m d;
  match list_find (λ e, en_Key e = itemKey) es ≫= λ p, en_Data p.2 with
  | Some r => Ok r
  | None => Err [ErrRecordData]
  end.

(** [SetField]; the value is decoded by the generic decoder, [None] where that fails. *)
Definition SetField (d : VaultData) (t : RecordType) (itemKey : bytes) (path : list string) (value : option json) :
    result terror VaultData :=
  fail_if path =?? [] with [ErrRecordData] ;;
  m ← mapperFor t;
  current ← itemData m d itemKey;
  obj ← decodeObj current;
  match value with
  | None => Err [ErrRecordData]
  | Some v =>
      match set_path (Some (JObject obj)) path v ≫= λ o, marshal_any (Some o) with
      | None => Err [ErrRecordData]
      | Some data =>
          match m_keyOf m data with
          | Err _ => Err [ErrRecordData]
          | Ok key =>
              fail_if key <>? itemKey with [ErrRecordData] ;;
              mu ← m_upsert m itemKey data;
              Ok (mu d)
          end
      end
  end.

End trust.
