(* ===== verification/ClientStore.v ===== *)
(** * ClientStore: what a device keeps of the vaults it verified

    [internal/infra/syncstate]: [state.go] and [outbox.go], the implementation of [synctrust.StateStore]
    ([internal/domain/synctrust/state.go]); the errors of [internal/domain/synctrust/remote.go] and of
    the sync use cases. A table is a map from its primary key. Rows hold the values, not their JSON.
    Numbers above 2^63 are refused, as Go's SQL package refuses them; other failures of the disk or
    of the driver are not modelled. *)

From S2P Require Import Prelude Bytes SyncBase Canon Envelope Merkle Head DeviceLog Retention Membership VaultState Rows SyncTrust.

(** ** Errors *)

Inductive csentinel :=
  (* what a server answers, [remote.go] *)
  | ErrRemoteMalformed | ErrRemoteUnauthorized | ErrRemoteForbidden | ErrRemoteNotFound | ErrRemoteTooLarge
  | ErrRemoteUnsupported | ErrRemoteFrozen | ErrRemoteQuota | ErrRemoteInternal | ErrHistoryPruned | ErrPurgeNotDue
  | ErrRemoteProtocol | ErrServerIdentity | ErrSyncIntegrity | ErrKeysRotated
  | ConflictError (currentSeq : Z) | RateLimited (retryAfter : Z)
  | NetError | CtxCanceled | CtxDeadlineExceeded
  (* the state store *)
  | ErrStaleHead | ErrLogGap | ErrOutboxBusy | ErrForeignRecord | EStateDB
  (* the engine *)
  | ErrNoNamingKey | ErrSyncBusy | ErrSyncDeviceRevoked | ErrHeldNotFound | ErrHeldStale | ErrNoVaultKey | ErrSkip | EDecode
  | ErrRoundAgain | ErrNotATeam | ErrTrashNotFound | ErrRestoreWeakens | ErrConflictNotFound
  | EOutOfFuel
  | EVaultRule (s : sentinel) | ETrustRule (t : tsentinel).
#[export] Instance csentinel_eq_dec : EqDecision csentinel.
Proof. solve_decision. Defined.
Abbreviation cerror := (list csentinel).

Definition errors_is (e : cerror) (s : csentinel) : bool := bool_decide (s ∈ e).
Definition as_conflict (e : cerror) : bool := existsb (λ s, if s is ConflictError _ then true else false) e.

(** ** Tables *)

Record QuarantineItem := { q_Envelope : Envelope; q_AtUnixMilli : Z; q_Pending : bool }.

Record StateDB := {
  sd_heads : gmap ID Head;
  sd_records : gmap (ID * ID) (Envelope * Z);        (* vault, record *)
  sd_device_entries : gmap (ID * Z) DeviceEntry;     (* account, seq *)
  sd_member_ops : gmap (ID * Z) MemberOp;            (* vault, seq *)
  sd_outbox : gmap ID Commit;
  sd_quarantine : gmap (ID * ID) QuarantineItem;     (* vault, record *)
}.
Definition StateDB_empty : StateDB := {|
  sd_heads := ∅; sd_records := ∅; sd_device_entries := ∅; sd_member_ops := ∅; sd_outbox := ∅; sd_quarantine := ∅ |}.

Definition sd_set_vault (hs : gmap ID Head) (rs : gmap (ID * ID) (Envelope * Z)) (s : StateDB) : StateDB := {|
  sd_heads := hs; sd_records := rs; sd_device_entries := sd_device_entries s; sd_member_ops := sd_member_ops s;
  sd_outbox := sd_outbox s; sd_quarantine := sd_quarantine s |}.
Definition sd_set_device_entries (v : gmap (ID * Z) DeviceEntry) (s : StateDB) : StateDB := {|
  sd_heads := sd_heads s; sd_records := sd_records s; sd_device_entries := v; sd_member_ops := sd_member_ops s;
  sd_outbox := sd_outbox s; sd_quarantine := sd_quarantine s |}.
Definition sd_set_member_ops (v : gmap (ID * Z) MemberOp) (s : StateDB) : StateDB := {|
  sd_heads := sd_heads s; sd_records := sd_records s; sd_device_entries := sd_device_entries s; sd_member_ops := v;
  sd_outbox := sd_outbox s; sd_quarantine := sd_quarantine s |}.
Definition sd_set_outbox (v : gmap ID Commit) (s : StateDB) : StateDB := {|
  sd_heads := sd_heads s; sd_records := sd_records s; sd_device_entries := sd_device_entries s; sd_member_ops := sd_member_ops s;
  sd_outbox := v; sd_quarantine := sd_quarantine s |}.
Definition sd_set_quarantine (v : gmap (ID * ID) QuarantineItem) (s : StateDB) : StateDB := {|
  sd_heads := sd_heads s; sd_records := sd_records s; sd_device_entries := sd_device_entries s; sd_member_ops := sd_member_ops s;
  sd_outbox := sd_outbox s; sd_quarantine := v |}.

(** ** Vaults *)

Record StoredVault := { sv_Head : option Head; sv_Records : list Envelope; sv_LandedAt : gmap ID Z }.

(** The rows of one vault, in the order of their records. *)
Definition vault_rows {A} (m : gmap (ID * ID) A) (vault : ID) : list (ID * A) :=
  (λ p, (p.1.2, p.2)) <$> filter (λ p, p.1.1 = vault) (map_to_list m).
Definition by_id {A} (x y : ID * A) : Prop := ID_le x.1 y.1.
#[export] Instance by_id_dec {A} (x y : ID * A) : Decision (by_id x y).
Proof. unfold by_id, ID_le. apply _. Defined.

Definition LoadVault (vault : ID) (s : StateDB) : StoredVault :=
  match sd_heads s !! vault with
  | None => {| sv_Head := None; sv_Records := []; sv_LandedAt := ∅ |}
  | Some h =>
      let rows := merge_sort by_id (vault_rows (sd_records s) vault) in
      {| sv_Head := Some h; sv_Records := (λ p, p.2.1) <$> rows; sv_LandedAt := list_to_map ((λ p, (p.1, p.2.2)) <$> rows) |}
  end.

Definition putRecord (head : Head) (rs : gmap (ID * ID) (Envelope * Z)) (e : Envelope) : result cerror (gmap (ID * ID) (Envelope * Z)) :=
  fail_if e_Vault e <>? h_Vault head with [ErrForeignRecord] ;;
  fail_if MaxInt64 <? h_ClientTimeUnixMilli head with [EStateDB] ;;
  Ok (<[(h_Vault head, e_Record e) := (e, h_ClientTimeUnixMilli head)]> rs).

Definition AdvanceVault (head : Head) (changed : list Envelope) (purged : list ID) (s : StateDB) : result cerror StateDB :=
  fail_if match sd_heads s !! h_Vault head with Some cur => h_Seq head <=? h_Seq cur | None => false end with [ErrStaleHead] ;;
  rs ← foldM (putRecord head) (sd_records s) changed;
  fail_if MaxInt64 <? h_Seq head with [EStateDB] ;;
  Ok (sd_set_vault (<[h_Vault head := head]> (sd_heads s)) (foldl (λ rs id, delete (h_Vault head, id) rs) rs purged) s).

Definition ForgetVault (vault : ID) (s : StateDB) : StateDB := {|
  sd_heads := delete vault (sd_heads s); sd_records := filter (λ p, p.1.1 ≠ vault) (sd_records s);
  sd_device_entries := sd_device_entries s; sd_member_ops := filter (λ p, p.1.1 ≠ vault) (sd_member_ops s);
  sd_outbox := delete vault (sd_outbox s); sd_quarantine := filter (λ p, p.1.1 ≠ vault) (sd_quarantine s) |}.
Definition ForgetAll (s : StateDB) : StateDB := StateDB_empty.

(** ** Logs *)

(** [coalesce(max(seq), 0)]. *)
Definition log_last {A} (m : gmap (ID * Z) A) (owner : ID) : Z :=
  map_fold (λ k _ acc, if k.1 =?? owner then Z.max k.2 acc else acc) 0 m.

(** One round of the loop of [appendLog]. *)
Definition append_entry {A} (who : A → ID) (seq : A → Z) (id : ID) (st : gmap (ID * Z) A * Z) (e : A) :
    result cerror (gmap (ID * Z) A * Z) :=
  fail_if (who e <>? id) || negb (seq e =? wrap64 (st.2 + 1)) with [ErrLogGap] ;;
  fail_if (MaxInt64 <? seq e) || bool_decide (is_Some (st.1 !! (id, seq e))) with [EStateDB] ;;
  Ok (<[(id, seq e) := e]> st.1, seq e).
Definition appendLog {A} (who : A → ID) (seq : A → Z) (m : gmap (ID * Z) A) (es : list A) : result cerror (gmap (ID * Z) A) :=
  match es with
  | [] => Ok m
  | e :: _ => st ← foldM (append_entry who seq (who e)) (m, log_last m (who e)) es; Ok (fst st)
  end.

Definition sd_DeviceLog (account : ID) (s : StateDB) : list DeviceEntry := (rows_by_seq (sd_device_entries s) account).*2.
Definition sd_AppendDeviceLog (es : list DeviceEntry) (s : StateDB) : result cerror StateDB :=
  m ← appendLog de_Account de_Seq (sd_device_entries s) es; Ok (sd_set_device_entries m s).
Definition sd_Membership (vault : ID) (s : StateDB) : list MemberOp := (rows_by_seq (sd_member_ops s) vault).*2.
Definition sd_AppendMembership (ops : list MemberOp) (s : StateDB) : result cerror StateDB :=
  m ← appendLog op_Vault op_Seq (sd_member_ops s) ops; Ok (sd_set_member_ops m s).

(** ** Outbox and quarantine ([outbox.go]) *)

Definition PutOutbox (c : Commit) (s : StateDB) : result cerror StateDB :=
  let v := h_Vault (c_Head c) in
  fail_if bool_decide (is_Some (sd_outbox s !! v)) with [ErrOutboxBusy] ;;
  Ok (sd_set_outbox (<[v := c]> (sd_outbox s)) s).
Definition Outbox (vault : ID) (s : StateDB) : option Commit := sd_outbox s !! vault.
Definition ClearOutbox (vault commit : ID) (s : StateDB) : StateDB :=
  match sd_outbox s !! vault with
  | Some c => if h_Commit (c_Head c) =?? commit then sd_set_outbox (delete vault (sd_outbox s)) s else s
  | None => s
  end.

Definition Quarantine (item : QuarantineItem) (s : StateDB) : StateDB :=
  let e := q_Envelope item in sd_set_quarantine (<[(e_Vault e, e_Record e) := item]> (sd_quarantine s)) s.
Definition Quarantined (vault : ID) (s : StateDB) : list QuarantineItem :=
  snd <$> merge_sort by_id (vault_rows (sd_quarantine s) vault).
Definition Release (vault record : ID) (s : StateDB) : StateDB :=
  sd_set_quarantine (delete (vault, record) (sd_quarantine s)) s.
