(* ===== verification/Client.v ===== *)
(** * Client: how a device follows a vault it does not trust the server with

    [internal/usecase]: [sync_engine.go], [sync_logs.go], [sync_pull.go], [sync_interpret.go],
    [sync_merge.go], [sync_snapshot.go], [sync_held.go], [sync_vaults.go] (scopes), [sync_keyring.go];
    the vault's [UpdateData] of [internal/infra/persistence/vault_repo.go].

    The engine runs on the vault, the state store, the server and the run of one pull. The server is
    any machine at all ([SyncServer]). Readings of the clock and what other parts of the program do to
    the vault come from [clock] and [others], by the number of readings and accesses so far. Texts
    shown to the user (reasons) are left out. [startPull] is modelled for the account's personal
    vault, whose authors all are devices of the account. *)

From S2P Require Import Prelude Bytes SyncBase Canon Envelope Merkle Head DeviceLog Retention Membership VaultState Merge Version Rows VaultData SyncTrust ClientStore.

(** ** Ports *)

Record RemoteCommit := { rcm_Seq : Z; rcm_Commit : Commit }.
Record RemoteSnapshot := { sn_Head : option Head; sn_Records : list Envelope }.

(** [synctrust.SyncServer], as far as one vault is concerned: it answers what it likes. *)
Class SyncServer := {
  srv : Type;
  srv_Changes : ID → Z → Z → srv → result cerror (list RemoteCommit * bool) * srv;
  srv_Snapshot : ID → srv → result cerror RemoteSnapshot * srv;
  srv_Heads : ID → Z → Z → srv → result cerror (list Head) * srv;
  srv_DeviceLog : ID → Z → srv → result cerror (list DeviceEntry) * srv;
  srv_Membership : ID → Z → srv → result cerror (list MemberOp) * srv;
  srv_Commit : Commit → srv → result cerror Z * srv;
  srv_AppendMembership : ID → list MemberOp → srv → result cerror unit * srv;
  srv_Versions : ID → ID → srv → result cerror (list Envelope) * srv;
}.

(** [AccountCrypto.UnwrapVaultKey] and [RecordCipher.Open]. *)
Class ClientCrypto `{RawJSON} := {
  UnwrapVaultKey : bytes → ID → Z → ID → bytes → option bytes;   (* seed, vault, epoch, member, wrapped *)
  cipher_Open : bytes → Envelope → option raw;
}.

(** ** Keys ([sync_keyring.go]) *)

Record KeyRing := {
  kr_account : ID; kr_device : ID; kr_identityKey : bytes; kr_encSeed : bytes; kr_encKey : bytes; kr_genesisID : bytes;
  kr_genesisEnc : bytes;
}.

Section keys.
Context `{!RawJSON, !ClientCrypto} (keys : KeyRing).

Definition wrapIn (op : MemberOp) : option bytes :=
  (λ p, kw_Ciphertext p.2) <$> list_find (λ w, kw_Member w = kr_account keys) (op_Wraps op).

(** The loop of [VaultKey], from the last operation back. *)
Fixpoint vaultKey_loop (vault : ID) (epoch : Z) (rops : list MemberOp) : result cerror bytes :=
  match rops with
  | [] => Err [ErrNoVaultKey]
  | op :: rops' =>
      if negb (op_Epoch op =? epoch) then vaultKey_loop vault epoch rops' else
      match wrapIn op with
      | Some wrapped => match UnwrapVaultKey (kr_encSeed keys) vault epoch (kr_account keys) wrapped with
                        | Some vk => Ok vk | None => Err [EDecode] end
      | None => vaultKey_loop vault epoch rops'
      end
  end.
Definition VaultKey (vault : ID) (epoch : Z) (ops : list MemberOp) : result cerror bytes := vaultKey_loop vault epoch (reverse ops).
End keys.

(** ** The run of a pull and the engine's world *)

Record PullReport := {
  rp_Commits : Z; rp_Applied : Z; rp_Held : Z; rp_Quarantined : Z; rp_MembershipSeq : Z; rp_NewDevices : list DeviceCert;
}.
Definition PullReport_zero : PullReport :=
  {| rp_Commits := 0; rp_Applied := 0; rp_Held := 0; rp_Quarantined := 0; rp_MembershipSeq := 0; rp_NewDevices := [] |}.

Section run.
Context `{!RawJSON}.

Record pullRun := {
  pr_vault : ID;
  pr_ops : list MemberOp;
  pr_members : option MembershipState;     (* membershipCursor.state *)
  pr_resolve : DeviceResolver;
  pr_check : SignatureCheck;
  pr_state : VaultState;
  pr_base : gmap ID Envelope;
  pr_names : gmap ID (RecordType * bytes);
  pr_bodies : gmap ID Body;
  pr_namingKey : option bytes;
  pr_report : PullReport;
  pr_scope : Scope;
  pr_landed : gmap ID Z;
  pr_preferRemote : bool;
  pr_heldDeletions : gset ID;              (* the keys that map to true *)
}.

Definition pr_set_members (v : option MembershipState) (p : pullRun) : pullRun := {|
  pr_vault := pr_vault p; pr_ops := pr_ops p; pr_members := v; pr_resolve := pr_resolve p; pr_check := pr_check p;
  pr_state := pr_state p; pr_base := pr_base p; pr_names := pr_names p; pr_bodies := pr_bodies p; pr_namingKey := pr_namingKey p;
  pr_report := pr_report p; pr_scope := pr_scope p; pr_landed := pr_landed p; pr_preferRemote := pr_preferRemote p;
  pr_heldDeletions := pr_heldDeletions p |}.
Definition pr_set_state (st : VaultState) (base : gmap ID Envelope) (landed : gmap ID Z) (bodies : gmap ID Body) (p : pullRun) : pullRun := {|
  pr_vault := pr_vault p; pr_ops := pr_ops p; pr_members := pr_members p; pr_resolve := pr_resolve p; pr_check := pr_check p;
  pr_state := st; pr_base := base; pr_names := pr_names p; pr_bodies := bodies; pr_namingKey := pr_namingKey p;
  pr_report := pr_report p; pr_scope := pr_scope p; pr_landed := landed; pr_preferRemote := pr_preferRemote p;
  pr_heldDeletions := pr_heldDeletions p |}.
Definition pr_set_bodies (v : gmap ID Body) (p : pullRun) : pullRun := pr_set_state (pr_state p) (pr_base p) (pr_landed p) v p.
Definition pr_set_names (v : gmap ID (RecordType * bytes)) (p : pullRun) : pullRun := {|
  pr_vault := pr_vault p; pr_ops := pr_ops p; pr_members := pr_members p; pr_resolve := pr_resolve p; pr_check := pr_check p;
  pr_state := pr_state p; pr_base := pr_base p; pr_names := v; pr_bodies := pr_bodies p; pr_namingKey := pr_namingKey p;
  pr_report := pr_report p; pr_scope := pr_scope p; pr_landed := pr_landed p; pr_preferRemote := pr_preferRemote p;
  pr_heldDeletions := pr_heldDeletions p |}.
Definition pr_set_namingKey (v : option bytes) (p : pullRun) : pullRun := {|
  pr_vault := pr_vault p; pr_ops := pr_ops p; pr_members := pr_members p; pr_resolve := pr_resolve p; pr_check := pr_check p;
  pr_state := pr_state p; pr_base := pr_base p; pr_names := pr_names p; pr_bodies := pr_bodies p; pr_namingKey := v;
  pr_report := pr_report p; pr_scope := pr_scope p; pr_landed := pr_landed p; pr_preferRemote := pr_preferRemote p;
  pr_heldDeletions := pr_heldDeletions p |}.
Definition pr_set_report (v : PullReport) (p : pullRun) : pullRun := {|
  pr_vault := pr_vault p; pr_ops := pr_ops p; pr_members := pr_members p; pr_resolve := pr_resolve p; pr_check := pr_check p;
  pr_state := pr_state p; pr_base := pr_base p; pr_names := pr_names p; pr_bodies := pr_bodies p; pr_namingKey := pr_namingKey p;
  pr_report := v; pr_scope := pr_scope p; pr_landed := pr_landed p; pr_preferRemote := pr_preferRemote p;
  pr_heldDeletions := pr_heldDeletions p |}.
Definition pr_set_heldDeletions (v : gset ID) (p : pullRun) : pullRun := {|
  pr_vault := pr_vault p; pr_ops := pr_ops p; pr_members := pr_members p; pr_resolve := pr_resolve p; pr_check := pr_check p;
  pr_state := pr_state p; pr_base := pr_base p; pr_names := pr_names p; pr_bodies := pr_bodies p; pr_namingKey := pr_namingKey p;
  pr_report := pr_report p; pr_scope := pr_scope p; pr_landed := pr_landed p; pr_preferRemote := pr_preferRemote p;
  pr_heldDeletions := v |}.

(** What one verified commit means for the vault. *)
Record interpretation := {
  in_changes : list Entry; in_applied : list ID; in_quarantine : list QuarantineItem; in_suspend : list (bytes * bytes);
}.
Definition interpretation_empty : interpretation := {| in_changes := []; in_applied := []; in_quarantine := []; in_suspend := [] |}.

Context `{!SyncServer}.
(** The vault, the state store, the server, the pull under way, and how often the clock was read or
    the vault accessed. *)
Record Engine := { g_vault : VaultData; g_store : StateDB; g_server : srv; g_run : pullRun; g_ticks : nat }.
Definition g_set_vault (v : VaultData) (g : Engine) : Engine :=
  {| g_vault := v; g_store := g_store g; g_server := g_server g; g_run := g_run g; g_ticks := g_ticks g |}.
Definition g_set_store (v : StateDB) (g : Engine) : Engine :=
  {| g_vault := g_vault g; g_store := v; g_server := g_server g; g_run := g_run g; g_ticks := g_ticks g |}.
Definition g_set_server (v : srv) (g : Engine) : Engine :=
  {| g_vault := g_vault g; g_store := g_store g; g_server := v; g_run := g_run g; g_ticks := g_ticks g |}.
Definition g_set_run (v : pullRun) (g : Engine) : Engine :=
  {| g_vault := g_vault g; g_store := g_store g; g_server := g_server g; g_run := v; g_ticks := g_ticks g |}.
Definition g_tick (g : Engine) : Engine :=
  {| g_vault := g_vault g; g_store := g_store g; g_server := g_server g; g_run := g_run g; g_ticks := S (g_ticks g) |}.
End run.

(** [ensureVaultDataLocked]: the defaults an update fills in first. *)
Definition ensureVaultData `{!RawJSON} (d : VaultData) : VaultData :=
  let s := default (settings_with DefaultLockoutSettings DefaultTerminalSettings (bytes_of_string "dark") [] (as_Ping AppSettings_zero)
    (as_Transfer AppSettings_zero) (as_SessionHotkeys AppSettings_zero) (as_LocalTerminal AppSettings_zero)
    (as_TerminalTools AppSettings_zero) DefaultPluginSettings (as_Embed AppSettings_zero) (as_Updates AppSettings_zero)
    (as_Reconnect AppSettings_zero) AppSettings_zero) (vd_Settings d) in
  let s := if te_FontFamily (as_Terminal s) =?? [] then put_Terminal DefaultTerminalSettings s else s in
  let s := if as_Theme s =?? [] then put_Appearance {| ap_Theme := bytes_of_string "dark"; ap_Language := as_Language s |} s else s in
  set_Settings (Some s) d.

Section engine.
Context `{!RawJSON, !RecordJSON, !Crypto, !SyncServer, !ClientCrypto}.
Context (keys : KeyRing) (clock : nat → Z) (others : nat → VaultData → VaultData).

Definition EM (A : Type) : Type := ST Engine cerror A.
#[local] Instance EM_ret : MRet EM := ST_ret.
#[local] Instance EM_bind : MBind EM := ST_bind.

Definition em_lift {A} (r : result cerror A) : EM A := st_lift r.
Definition em_fail_if (c : bool) (e : cerror) : EM unit := if c then st_fail e else st_lift (Ok ()).
Definition get_run : EM pullRun := λ g, (Ok (g_run g), g).
Definition set_run (f : pullRun → pullRun) : EM unit := λ g, (Ok (), g_set_run (f (g_run g)) g).
Definition get_store : EM StateDB := λ g, (Ok (g_store g), g).
(** A write of the state store; a transaction that fails changes nothing. *)
Definition write_store (f : StateDB → result cerror StateDB) : EM unit := λ g,
  match f (g_store g) with Ok s => (Ok (), g_set_store s g) | Err e => (Err e, g) end.
Definition ask {A} (f : srv → result cerror A * srv) : EM A := λ g,
  let '(r, s) := f (g_server g) in (r, g_set_server s g).
Definition now_millis : EM Z := λ g, (Ok (clock (g_ticks g)), g_tick g).

(** [GetData] and [UpdateData] of the vault. Before either, the rest of the program may have acted. *)
Definition GetData : EM VaultData := λ g,
  let d := others (g_ticks g) (g_vault g) in (Ok d, g_set_vault d (g_tick g)).
Definition UpdateData (mutate : VaultData → result cerror VaultData) : EM unit := λ g,
  let d := ensureVaultData (others (g_ticks g) (g_vault g)) in
  match mutate d with
  | Ok d' => (Ok (), g_set_vault d' (g_tick g))
  | Err e => (Err e, g_set_vault d (g_tick g))
  end.

(** ** Verification failures ([sync_engine.go]) *)

Definition unavailable (e : cerror) : bool :=
  existsb (λ s, match s with RateLimited _ | NetError | ErrRemoteInternal | CtxCanceled | CtxDeadlineExceeded => true | _ => false end) e.
Definition integrity (e : cerror) : cerror :=
  if errors_is e ErrSyncIntegrity || unavailable e then e else ErrSyncIntegrity :: e.
(** A rule of [vaultsync] that failed, as [integrity] reports it. *)
Definition rule {A} (r : result error A) : result cerror A :=
  match r with Ok a => Ok a | Err e => Err (EVaultRule <$> e) end.
Definition verified {A} (r : result error A) : EM A :=
  em_lift (match r with Ok a => Ok a | Err e => Err (integrity (EVaultRule <$> e)) end).

Definition pullPageSize : Z := 100.

(** ** Logs ([sync_logs.go]) *)

Definition verifiedDeviceLog : EM (DeviceLogState * list DeviceEntry) :=
  dl ← em_lift (rule (NewDeviceLogState (kr_account keys) Suite1 (kr_genesisID keys) (kr_genesisEnc keys)));
  s ← get_store;
  dl ← verified (foldM Apply_step dl (sd_DeviceLog (kr_account keys) s));
  fresh ← ask (srv_DeviceLog (kr_account keys) (ds_seq dl));
  dl ← verified (foldM Apply_step dl fresh);
  _ ← em_fail_if (IsRevoked dl (kr_device keys)) [ErrSyncDeviceRevoked];
  _ ← em_fail_if (ds_pendingSuccession dl) [ErrSyncIntegrity];
  _ ← em_fail_if ((ds_identityKey dl <>? kr_identityKey keys) || (ds_encryptionKey dl <>? kr_encKey keys)) [ErrKeysRotated];
  _ ← write_store (sd_AppendDeviceLog fresh);
  mret (dl, fresh).

Definition resolver (dl : DeviceLogState) : DeviceResolver := λ device,
  key ← DeviceKey dl device; Ok (kr_account keys, key).

Definition signatureCheck (resolve : DeviceResolver) : SignatureCheck := λ account device alg msg sig,
  '(owner, key) ← resolve device;
  fail_if owner <>? account with [ErrBadSignature] ;;
  VerifySignature alg key msg sig.

Definition verifiedMembership (vault : ID) (check : SignatureCheck) : EM (list MemberOp) :=
  ms ← em_lift (rule (NewMembershipState vault));
  s ← get_store;
  let ops := sd_Membership vault s in
  ms ← verified (foldM (member_step check) ms ops);
  fresh ← ask (srv_Membership vault (ms_seq ms));
  ms ← verified (foldM (member_step check) ms fresh);
  _ ← write_store (sd_AppendMembership fresh);
  mret (ops ++ fresh).

(** The loop of [at]; as many rounds as there are operations. An error leaves the cursor where it got. *)
Fixpoint advance_members (check : SignatureCheck) (ops : list MemberOp) (seq : Z) (fuel : nat) (m : MembershipState) :
    result cerror MembershipState * MembershipState :=
  if seq <=? ms_seq m then (Ok m, m) else
  match fuel, ops !! Z.to_nat (ms_seq m) with
  | S fuel, Some op =>
      match member_step check m op with
      | Ok m' => advance_members check ops seq fuel m'
      | Err e => (Err (integrity (EVaultRule <$> e)), m)
      end
  | _, _ => (Err [EVaultRule GoPanic], m)
  end.

Definition members_at (seq : Z) : EM MembershipState :=
  p ← get_run;
  m ← match pr_members p with
      | Some m => if seq <? ms_seq m then em_lift (rule (NewMembershipState (pr_vault p))) else mret m
      | None => em_lift (rule (NewMembershipState (pr_vault p)))
      end;
  _ ← set_run (pr_set_members (Some m));
  _ ← em_fail_if (len (pr_ops p) <? seq) [ErrSyncIntegrity];
  let '(r, m') := advance_members (pr_check p) (pr_ops p) seq (length (pr_ops p)) m in
  _ ← set_run (pr_set_members (Some m'));
  em_lift r.

(** ** Opening records ([sync_interpret.go], [sync_merge.go]) *)

Definition open_record (p : pullRun) (r : Envelope) : result cerror Body :=
  vk ← VaultKey keys (pr_vault p) (e_Epoch r) (pr_ops p);
  match cipher_Open vk r with
  | None => Err [EDecode]
  | Some pt => match DecodeBody pt with Ok b => Ok b | Err e => Err (ETrustRule <$> e) end
  end.

Definition learnMeta (r : Envelope) : EM unit :=
  p ← get_run;
  _ ← em_fail_if (e_Deleted r) [ErrSyncIntegrity];
  body ← em_lift (match open_record p r with Ok b => Ok b | Err e => Err (integrity e) end);
  key ← em_lift (match VaultMetaNamingKey body with Ok k => Ok k | Err e => Err (integrity (ETrustRule <$> e)) end);
  _ ← em_fail_if (match pr_namingKey p with Some k => k <>? key | None => false end) [ErrSyncIntegrity];
  set_run (pr_set_namingKey (Some key)).

(** [baseBody], with its cache. *)
Definition baseBody (id : ID) : EM (option Body) :=
  p ← get_run;
  match pr_bodies p !! id with
  | Some b => mret (Some b)
  | None =>
      match pr_base p !! id with
      | Some env =>
          if e_Deleted env then mret None else
          match open_record p env with
          | Ok b => _ ← set_run (pr_set_bodies (<[id := b]> (pr_bodies p))); mret (Some b)
          | Err _ => mret None
          end
      | None => mret None
      end
  end.

(** The item a record held, for a tombstone. *)
Definition nameOf (p : pullRun) (id : ID) : option (RecordType * bytes) :=
  match pr_names p !! id with
  | Some n => Some n
  | None =>
      match pr_base p !! id with
      | Some prev =>
          if e_Deleted prev then None else
          match open_record p prev with
          | Ok body => match NaturalKey (bd_Type body) (bd_Data body) with Ok key => Some (bd_Type body, key) | Err _ => None end
          | Err _ => None
          end
      | None => None
      end
  end.

(** An entry, nothing to apply, or a reason to quarantine. *)
Inductive decoded := DEntry (e : Entry) | DSkip | DReason.

Definition checkFiled (r : Envelope) (namingKey : bytes) (body : Body) : EM decoded :=
  match NaturalKey (bd_Type body) (bd_Data body) with
  | Err _ => mret DReason
  | Ok key =>
      match RecordID namingKey (bd_Type body) key with
      | Err _ => mret DReason
      | Ok id =>
          if id <>? e_Record r then mret DReason else
          let entry := {| en_Type := bd_Type body; en_Key := key; en_Data := Some (bd_Data body) |} in
          match Validate entry with
          | Err _ => mret DReason
          | Ok _ => p ← get_run; _ ← set_run (pr_set_names (<[e_Record r := (bd_Type body, key)]> (pr_names p))); mret (DEntry entry)
          end
      end
  end.

Definition decode_record (r : Envelope) : EM decoded :=
  p ← get_run;
  match pr_namingKey p with
  | None => mret DReason
  | Some namingKey =>
      if e_Deleted r then
        mret (match nameOf p (e_Record r) with
              | Some (ty, key) => DEntry {| en_Type := ty; en_Key := key; en_Data := None |}
              | None => DSkip end)
      else
      match open_record p r with
      | Err _ => mret DReason
      | Ok body =>
          match RecordAccess KnownSchemas (bd_Type body) (bd_Schema body) with
          | SchemaOpaque | SchemaReadOnly => mret DReason
          | SchemaWritable => checkFiled r namingKey body
          end
      end
  end.

Definition localSnapshot : EM (gmap ID Entry) :=
  p ← get_run;
  match pr_namingKey p with
  | None => mret ∅
  | Some k => d ← GetData; em_lift (match SnapshotScope k d (pr_scope p) with Ok s => Ok s | Err e => Err (ETrustRule <$> e) end)
  end.

(** ** Meaning of a commit *)

Definition add_changes (l : list Entry) (out : interpretation) : interpretation := {|
  in_changes := in_changes out ++ l; in_applied := in_applied out; in_quarantine := in_quarantine out; in_suspend := in_suspend out |}.
Definition add_quarantine (q : QuarantineItem) (out : interpretation) : interpretation := {|
  in_changes := in_changes out; in_applied := in_applied out; in_quarantine := in_quarantine out ++ [q]; in_suspend := in_suspend out |}.
Definition add_applied (e : Entry) (id : ID) (out : interpretation) : interpretation := {|
  in_changes := in_changes out ++ [e]; in_applied := in_applied out ++ [id]; in_quarantine := in_quarantine out;
  in_suspend := in_suspend out |}.
Definition add_suspend (s : bytes * bytes) (out : interpretation) : interpretation := {|
  in_changes := in_changes out; in_applied := in_applied out; in_quarantine := in_quarantine out; in_suspend := in_suspend out ++ [s] |}.

Definition hold (r : Envelope) (pending : bool) : EM QuarantineItem :=
  now ← now_millis; mret {| q_Envelope := r; q_AtUnixMilli := now; q_Pending := pending |}.

Definition editedLocally (id : ID) (local : raw) : EM bool :=
  b ← baseBody id;
  mret (match b with Some b => negb (SameData (bd_Data b) local) | None => true end).

(** [mergeLocal]: the entry to go on with, if any, and the conflict records of the merge. *)
Definition mergeLocal (out : interpretation) (id : ID) (entry : Entry) (local : option raw) : EM (interpretation * option Entry) :=
  p ← get_run;
  match local with
  | None => mret (out, Some entry)
  | Some l =>
      if pr_preferRemote p || bool_decide (id ∈ pr_heldDeletions p) then mret (out, Some entry) else
      edited ← editedLocally id l;
      if negb edited then mret (out, Some entry) else
      match en_Data entry with
      | None => mret (out, None)
      | Some remote =>
          b ← baseBody id;
          match MergeData (en_Type entry) (bd_Data <$> b) l remote with
          | Err _ => mret (out, Some entry)
          | Ok (merged, conflicts) =>
              let candidate := {| en_Type := en_Type entry; en_Key := en_Key entry; en_Data := Some merged |} in
              if negb (is_ok (Validate candidate)) then mret (out, Some entry) else
              now ← now_millis;
              match ConflictEntries (en_Type entry) (en_Key entry) conflicts now with
              | Err _ => mret (out, None)
              | Ok ces => mret (add_changes ces out, Some candidate)
              end
          end
      end
  end.

Definition repoints (p : pullRun) (id : ID) (entry : Entry) (local : option raw) : bool :=
  match en_Data entry, local with
  | None, _ => true
  | Some _, None => match pr_base p !! id with Some prev => e_Deleted prev | None => false end
  | Some data, Some l => AddressChanged l data
  end.

Definition noteRepointing (p : pullRun) (r : Envelope) (entry : Entry) (local : option raw) (out : interpretation) : interpretation :=
  if (sco_Vault (pr_scope p) =?? []) || (en_Type entry <>? TypeConnection) || negb (repoints p (e_Record r) entry local) then out else
  match pr_resolve p (e_Author r) with
  | Ok (account, _) => if account =?? kr_account keys then out else add_suspend (en_Key entry, ID_String account) out
  | Err _ => out
  end.

(** The rules for the entry; an addition is checked against everything held. *)
Definition verdict (entry : Entry) (local : option raw) (held : gmap ID Entry) : result terror Action :=
  match Classify (en_Type entry) local (en_Data entry) with
  | Ok ActionApply => if local is None then ClassifyAddition (en_Type entry) held (en_Data entry) else Ok ActionApply
  | v => v
  end.

Definition route (out : interpretation) (r : Envelope) (entry : Entry) (held : gmap ID Entry) : EM interpretation :=
  let local := held !! e_Record r ≫= en_Data in
  '(out, entry) ← mergeLocal out (e_Record r) entry local;
  match entry with
  | None => mret out
  | Some entry =>
      match verdict entry local held with
      | Err _ | Ok ActionRefuse => q ← hold r false; mret (add_quarantine q out)
      | Ok ActionPending => q ← hold r true; mret (add_quarantine q out)
      | Ok ActionApply => p ← get_run; mret (noteRepointing p r entry local (add_applied entry (e_Record r) out))
      end
  end.

Definition interpret_record (held : gmap ID Entry) (out : interpretation) (r : Envelope) : EM interpretation :=
  p ← get_run;
  if e_Record r =?? VaultMetaID (pr_vault p) then mret out else
  d ← decode_record r;
  match d with
  | DSkip => mret out
  | DReason => q ← hold r false; mret (add_quarantine q out)
  | DEntry entry =>
      if Allows (pr_scope p) (en_Type entry) then route out r entry held
      else q ← hold r false; mret (add_quarantine q out)
  end.

(** A loop of the monad, stopping at the first error. *)
Fixpoint em_fold {A B} (f : A → B → EM A) (a : A) (l : list B) : EM A :=
  match l with [] => mret a | b :: l' => a' ← f a b; em_fold f a' l' end.
Definition em_for {B} (l : list B) (f : B → EM unit) : EM unit := em_fold (λ _ b, f b) () l.

Definition interpret (c : Commit) : EM interpretation :=
  p ← get_run;
  _ ← em_for (filter (λ r, e_Record r = VaultMetaID (pr_vault p)) (c_Records c)) learnMeta;
  held ← localSnapshot;
  em_fold (interpret_record held) interpretation_empty (c_Records c).

(** ** Landing a commit ([sync_pull.go]) *)

Definition applyInterpretation (s : Scope) (out : interpretation) (d : VaultData) : result cerror VaultData :=
  match ApplyScope d s (in_changes out) with
  | Err e => Err (ETrustRule <$> e)
  | Ok d' => Ok (foldl (λ d x, SuspendBindings (sco_Vault s) x.1 x.2 d) d' (in_suspend out))
  end.

Definition report_add (commits applied held quarantined : Z) (p : pullRun) : pullRun :=
  let r := pr_report p in
  pr_set_report {| rp_Commits := rp_Commits r + commits; rp_Applied := rp_Applied r + applied; rp_Held := rp_Held r + held;
    rp_Quarantined := rp_Quarantined r + quarantined; rp_MembershipSeq := rp_MembershipSeq r; rp_NewDevices := rp_NewDevices r |} p.

Definition settleQuarantine (out : interpretation) : EM unit :=
  p ← get_run;
  _ ← em_for (in_applied out) (λ id,
        _ ← write_store (λ s, Ok (Release (pr_vault p) id s));
        set_run (λ p, pr_set_heldDeletions (pr_heldDeletions p ∖ {[id]}) p));
  em_for (in_quarantine out) (λ q,
        _ ← write_store (λ s, Ok (Quarantine q s));
        let id := e_Record (q_Envelope q) in
        _ ← set_run (λ p, pr_set_heldDeletions (if q_Pending q && e_Deleted (q_Envelope q) then {[id]} ∪ pr_heldDeletions p
                                                else pr_heldDeletions p ∖ {[id]}) p);
        set_run (report_add 0 0 (if q_Pending q then 1 else 0) (if q_Pending q then 0 else 1))).

(** [advance] of the run onto a commit. *)
Definition advance_run (next : VaultState) (c : Commit) (p : pullRun) : pullRun :=
  let put st (r : Envelope) := let '(base, landed, bodies) := st in
    (<[e_Record r := r]> base, <[e_Record r := h_ClientTimeUnixMilli (c_Head c)]> landed, delete (e_Record r) bodies) in
  let drop st (id : ID) := let '(base, landed, bodies) := st in (delete id base, delete id landed, delete id bodies) in
  let '(base, landed, bodies) := foldl drop (foldl put (pr_base p, pr_landed p, pr_bodies p) (c_Records c)) (c_Purged c) in
  pr_set_state next base landed bodies p.

Definition landAs (c meaning : Commit) (next : VaultState) : EM unit :=
  out ← interpret meaning;
  p ← get_run;
  _ ← (if len (in_changes out) =? 0 then mret () else UpdateData (applyInterpretation (pr_scope p) out));
  _ ← settleQuarantine out;
  _ ← write_store (AdvanceVault (c_Head c) (c_Records c) (c_Purged c));
  _ ← set_run (advance_run next c);
  set_run (report_add 0 (len (in_changes out)) 0 0).
Definition land (c : Commit) (next : VaultState) : EM unit := landAs c c next.

Definition applyCommit (rc : RemoteCommit) : EM unit :=
  let c := rcm_Commit rc in
  m ← members_at (h_MembershipSeq (c_Head c));
  p ← get_run;
  next ← verified (ApplyCommit (pr_state p) c m (pr_resolve p));
  _ ← land c next;
  set_run (report_add 1 0 0 0).

(** ** Snapshots ([sync_snapshot.go]) *)

Definition verifySnapshotHead (p : pullRun) (h : Head) (m : MembershipState) : result error unit :=
  fail_if (h_Vault h <>? pr_vault p) || (h_MembershipHead h <>? ms_hash m) with [ErrMembershipMismatch] ;;
  '(account, key) ← pr_resolve p (h_Author h);
  fail_if IsDeviceRevoked m (h_Author h) with [ErrRevokedDevice] ;;
  fail_if negb (CanWrite (Role m account)) with [ErrNotAuthorized] ;;
  fail_if negb (h_CurrentEpoch h =? ms_epoch m) with [ErrEpochMismatch] ;;
  Head_Verify key h.

Definition verify_record (p : pullRun) (r : Envelope) : result error unit :=
  '(_, key) ← pr_resolve p (e_Author r);
  Envelope_Verify key r.

Definition verifySnapshot (head : Head) (records : list Envelope) : EM VaultState :=
  m ← members_at (h_MembershipSeq head);
  p ← get_run;
  _ ← verified (verifySnapshotHead p head m);
  _ ← verified (foldM (λ _ r, verify_record p r) () records);
  verified (RestoreVaultState (pr_vault p) (Some head) records).

Definition bootstrap : EM unit :=
  p ← get_run;
  snap ← ask (srv_Snapshot (pr_vault p));
  match sn_Head snap with
  | None => em_fail_if (negb (len (sn_Records snap) =? 0)) [ErrSyncIntegrity]
  | Some head =>
      state ← verifySnapshot head (sn_Records snap);
      _ ← land {| c_Head := head; c_Records := sn_Records snap; c_Purged := [] |} state;
      set_run (report_add 1 0 0 0)
  end.

(** The loop of [checkDescends]; each round advances the cursor. *)
Fixpoint checkDescends (fuel : nat) (vault : ID) (cur : ChainCursor) (seq : Z) (tip : hash) : EM unit :=
  if seq <=? cur_Seq cur then
    em_fail_if (negb (cur_Seq cur =? seq) || (cur_Hash cur <>? tip)) [ErrSyncIntegrity; EVaultRule ErrFork]
  else
  match fuel with
  | O => em_lift (Err [EOutOfFuel])
  | S fuel =>
      heads ← ask (srv_Heads vault (cur_Seq cur) seq);
      _ ← em_fail_if (len heads =? 0) [ErrSyncIntegrity; EVaultRule ErrFork];
      cur ← em_lift (match AdvanceAll cur heads with Ok c => Ok c | Err e => Err (integrity (EVaultRule ErrFork :: (EVaultRule <$> e))) end);
      checkDescends fuel vault cur seq tip
  end.

Definition snapshotDelta (p : pullRun) (head : Head) (records : list Envelope) : Commit * Commit :=
  let held : gset ID := list_to_set (e_Record <$> records) in
  let moved := filter (λ r, match pr_base p !! e_Record r with Some b => negb (e_Version b =? e_Version r) | None => true end = true) records in
  let gone := filter (λ x, x.1 ∉ held) (map_to_list (pr_base p)) in
  let purged := fst <$> gone in
  let tombs := omap (λ x : ID * Envelope, if e_Deleted x.2 then None else Some {|
    e_Vault := pr_vault p; e_Record := x.1; e_Version := wrap64 (e_Version x.2 + 1); e_Epoch := 0; e_Suite := 0; e_Deleted := true;
    e_Author := ID_zero; e_SigAlg := 0; e_WrappedDEK := []; e_Body := []; e_Sig := [] |}) gone in
  ({| c_Head := head; c_Records := moved; c_Purged := purged |}, {| c_Head := head; c_Records := moved ++ tombs; c_Purged := purged |}).

Definition resync : EM unit :=
  p ← get_run;
  snap ← ask (srv_Snapshot (pr_vault p));
  match sn_Head snap with
  | None => em_lift (Err [ErrSyncIntegrity])
  | Some head =>
      h ← verified (Head_Hash head);
      let cur := vs_cursor (pr_state p) in
      _ ← verified (CheckObserved cur (h_Seq head) h);
      if h_Seq head =? cur_Seq cur then mret () else
      _ ← checkDescends (Z.to_nat (h_Seq head - cur_Seq cur)) (pr_vault p) cur (h_Seq head) h;
      state ← verifySnapshot head (sn_Records snap);
      p ← get_run;
      let '(c, meaning) := snapshotDelta p head (sn_Records snap) in
      _ ← landAs c meaning state;
      set_run (report_add 1 0 0 0)
  end.

(** ** Pulling *)

(** The error of a request, as a value: [pullAll] looks at it. *)
Definition try_em {A} (m : EM A) : EM (result cerror A) := λ g, let '(r, g') := m g in (Ok r, g').

(** One round of the loop of [pullAll]; [resynced] is its flag, [k] the rounds that follow. *)
Definition pull_round (k : bool → EM unit) (resynced : bool) : EM unit :=
  p ← get_run;
  r ← try_em (ask (srv_Changes (pr_vault p) (cur_Seq (vs_cursor (pr_state p))) pullPageSize));
  match r with
  | Err e =>
      if errors_is e ErrHistoryPruned then
        if resynced then mret () else _ ← resync; k true
      else em_lift (Err e)
  | Ok (commits, more) =>
      _ ← em_for commits applyCommit;
      if negb more || (len commits =? 0) then mret () else k resynced
  end.

(** 2^n rounds, then [stop]. *)
Fixpoint pull_rounds (n : nat) (stop : bool → EM unit) (resynced : bool) {struct n} : EM unit :=
  match n with
  | O => pull_round stop resynced
  | S m => pull_rounds m (λ b, pull_rounds m stop b) resynced
  end.

(** A page of commits advances the stored position, which stays below 2^63: with a resync and the last
    page, 2^64 rounds always suffice. *)
Definition pull_loop : bool → EM unit := pull_rounds 64 (λ _, em_lift (Err [EOutOfFuel])).

Definition pullAll : EM unit :=
  p ← get_run;
  _ ← (if cur_Seq (vs_cursor (pr_state p)) =? 0 then bootstrap else mret ());
  pull_loop false.

Definition newDevices (fresh : list DeviceEntry) : list DeviceCert :=
  omap (λ e, if de_Op e =? OpAddDevice then
               match de_Cert e with Some c => if dc_Device c =?? kr_device keys then None else Some c | None => None end
             else None) fresh.

Definition indexEnvelopes (records : list Envelope) : gmap ID Envelope :=
  foldl (λ m e, <[e_Record e := e]> m) ∅ records.

Definition held_deletions (items : list QuarantineItem) : gset ID :=
  list_to_set (omap (λ it, if q_Pending it && e_Deleted (q_Envelope it) then Some (e_Record (q_Envelope it)) else None) items).

(** [startPull] of the personal vault. *)
Definition startPull : EM unit :=
  let vault := PersonalVaultID (kr_account keys) in
  '(dl, fresh) ← verifiedDeviceLog;
  let resolve := resolver dl in
  let check := signatureCheck resolve in
  ops ← verifiedMembership vault check;
  s ← get_store;
  let stored := LoadVault vault s in
  state ← verified (RestoreVaultState vault (sv_Head stored) (sv_Records stored));
  let base := indexEnvelopes (sv_Records stored) in
  _ ← set_run (λ _, {| pr_vault := vault; pr_ops := ops; pr_members := None; pr_resolve := resolve; pr_check := check;
        pr_state := state; pr_base := base; pr_names := ∅; pr_bodies := ∅; pr_namingKey := None;
        pr_report := {| rp_Commits := 0; rp_Applied := 0; rp_Held := 0; rp_Quarantined := 0; rp_MembershipSeq := len ops;
          rp_NewDevices := newDevices fresh |};
        pr_scope := personal; pr_landed := sv_LandedAt stored; pr_preferRemote := false;
        pr_heldDeletions := held_deletions (Quarantined vault s) |});
  match base !! VaultMetaID vault with Some meta => learnMeta meta | None => mret () end.

Definition Pull : EM PullReport :=
  _ ← startPull;
  _ ← pullAll;
  p ← get_run; mret (pr_report p).

(** [AdoptRemote]: the account's versions over this device's. *)
Definition pr_set_preferRemote (p : pullRun) : pullRun := {|
  pr_vault := pr_vault p; pr_ops := pr_ops p; pr_members := pr_members p; pr_resolve := pr_resolve p; pr_check := pr_check p;
  pr_state := pr_state p; pr_base := pr_base p; pr_names := pr_names p; pr_bodies := pr_bodies p; pr_namingKey := pr_namingKey p;
  pr_report := pr_report p; pr_scope := pr_scope p; pr_landed := pr_landed p; pr_preferRemote := true;
  pr_heldDeletions := pr_heldDeletions p |}.
Definition AdoptRemote : EM PullReport :=
  _ ← startPull;
  _ ← set_run pr_set_preferRemote;
  _ ← pullAll;
  p ← get_run; mret (pr_report p).

(** ** Changes that wait ([sync_held.go]) *)

Definition heldItem (vault record : ID) : EM QuarantineItem :=
  s ← get_store;
  match list_find (λ it, e_Record (q_Envelope it) = record) (Quarantined vault s) with
  | Some (_, it) => mret it
  | None => em_lift (Err [ErrHeldNotFound])
  end.

Definition heldChange (env : Envelope) : EM decoded :=
  if negb (e_Deleted env) then decode_record env else
  local ← localSnapshot;
  mret (match local !! e_Record env with
        | Some e => DEntry {| en_Type := en_Type e; en_Key := en_Key e; en_Data := None |}
        | None => DSkip end).

Definition ConfirmHeld (record : ID) : EM unit :=
  _ ← startPull;
  p ← get_run;
  item ← heldItem (pr_vault p) record;
  _ ← em_fail_if (negb (q_Pending item)) [ErrHeldNotFound];
  let release := write_store (λ s, Ok (Release (pr_vault p) record s)) in
  if match pr_base p !! record with Some b => negb (e_Version b =? e_Version (q_Envelope item)) | None => true end then
    _ ← release; em_lift (Err [ErrHeldStale])
  else
  d ← heldChange (q_Envelope item);
  match d with
  | DSkip => release
  | DReason => em_lift (Err [EDecode])
  | DEntry entry =>
      _ ← UpdateData (λ d, match ApplyScope d (pr_scope p) [entry] with Ok d' => Ok d' | Err e => Err (ETrustRule <$> e) end);
      release
  end.

Definition RejectHeld (vault record : ID) : EM unit :=
  _ ← heldItem vault record;
  write_store (λ s, Ok (Release vault record s)).

(** ** A commit of this device the server may have stored ([sync_push.go]) *)

(** [adopt]: this device's own commit, through the same verification. *)
Definition adopt (c : Commit) : EM unit :=
  m ← members_at (h_MembershipSeq (c_Head c));
  p ← get_run;
  next ← verified (ApplyCommit (pr_state p) c m (pr_resolve p));
  _ ← write_store (AdvanceVault (c_Head c) (c_Records c) (c_Purged c));
  _ ← set_run (advance_run next c);
  write_store (λ s, Ok (ClearOutbox (pr_vault p) (h_Commit (c_Head c)) s)).

Definition neverStored (e : cerror) : bool :=
  as_conflict e || existsb (errors_is e) [ErrPurgeNotDue; ErrRemoteTooLarge; ErrRemoteQuota; ErrRemoteForbidden; ErrRemoteNotFound;
    ErrRemoteMalformed].

Definition flushOutbox : EM unit :=
  p ← get_run;
  s ← get_store;
  match Outbox (pr_vault p) s with
  | None => mret ()
  | Some c =>
      r ← try_em (ask (srv_Commit c));
      match r with
      | Err e => if neverStored e then write_store (λ s, Ok (ClearOutbox (pr_vault p) (h_Commit (c_Head c)) s)) else em_lift (Err e)
      | Ok _ => adopt c
      end
  end.

(** [send]: recorded before it is sent, so that a lost reply resends the same commit. *)
Definition send (c : Commit) : EM unit :=
  p ← get_run;
  _ ← write_store (PutOutbox c);
  r ← try_em (ask (srv_Commit c));
  match r with
  | Ok _ => adopt c
  | Err e => _ ← (if neverStored e then write_store (λ s, Ok (ClearOutbox (pr_vault p) (h_Commit (c_Head c)) s)) else mret ());
             em_lift (Err e)
  end.

End engine.
