(* ===== verification/TrustLaws.v ===== *)
(** * TrustLaws: what the vault's records and the trust rules guarantee

    What a snapshot of the vault lists, what the changes applied to it do, and that a change the trust
    rules let through weakens nothing this device holds. *)

From S2P Require Import Prelude Bytes GoText SyncBase Canon AgentForward Merge Version PluginPaths KnownHosts VaultData SyncTrust ClientStore Client.

(** ** What a snapshot lists *)

Section snapshot.
Context `{!RawJSON, !RecordJSON, !Crypto}.

Lemma marshalAll_spec {T} `{!GoJSON T} (keyOf : T → bytes) (l : list T) acc es :
  foldM (λ out v, e ← marshalEntry (keyOf v) v; Ok (out ++ [e])) acc l = Ok es →
  ∀ v, v ∈ l → ∃ r, Marshal v = Some r ∧ {| en_Type := ""%string; en_Key := keyOf v; en_Data := Some r |} ∈ es.
Proof.
  revert acc. induction l as [|x l IH]; intros acc HF v; [by intros ?%not_elem_of_nil|].
  cbn [foldM] in HF. unfold marshalEntry at 1 in HF. destruct (Marshal x) as [r|] eqn:E; [|done]. cbn in HF.
  assert (∀ e, e ∈ acc ++ [{| en_Type := ""%string; en_Key := keyOf x; en_Data := Some r |}] → e ∈ es) as Hin.
  { clear -HF. revert HF. generalize (acc ++ [{| en_Type := ""%string; en_Key := keyOf x; en_Data := Some r |}]) as a.
    induction l as [|y l IH]; intros a HF e He; [by injection HF as <-|]. cbn [foldM] in HF. unfold marshalEntry at 1 in HF.
    destruct (Marshal y); [|done]. cbn in HF. eapply IH; [exact HF|]. rewrite elem_of_app. auto. }
  rewrite elem_of_cons. intros [->|Hv]; [|by eapply IH].
  exists r. split; [done|]. apply Hin. rewrite elem_of_app, list_elem_of_singleton. auto.
Qed.

(** Every entry of a type is filed under its own id. *)
Lemma snapshot_add_spec nk t es out out' :
  foldM (snapshot_add nk t) out es = Ok out' →
  out ⊆ out' ∧ ∀ e, e ∈ es → ∃ id, RecordID nk t (en_Key e) = Ok id ∧
    out' !! id = Some {| en_Type := t; en_Key := en_Key e; en_Data := en_Data e |}.
Proof.
  revert out. induction es as [|e es IH]; intros out HF; cbn in HF.
  - injection HF as <-. split; [done|]. by intros e ?%not_elem_of_nil.
  - unfold snapshot_add at 1 in HF. destruct (RecordID nk t (en_Key e)) as [id|] eqn:Eid; [|done]. cbn in HF.
    case_bool_decide as Hd; [done|]. apply IH in HF as [Hsub Hes]. apply eq_None_not_Some in Hd.
    assert (out ⊆ <[id:={| en_Type := t; en_Key := en_Key e; en_Data := en_Data e |}]> out) as Hs by by apply insert_subseteq.
    split; [by etrans|]. intros x. rewrite elem_of_cons. intros [->|Hx]; [|by apply Hes].
    exists id. split; [done|]. eapply lookup_weaken; [|exact Hsub]. apply lookup_insert_eq.
Qed.

Lemma snapshot_types_spec nk d ts out out' :
  foldM (snapshot_type nk d) out ts = Ok out' →
  out ⊆ out' ∧ ∀ t m, t ∈ ts → mapperFor t = Ok m → ∃ es, m_entries m d = Ok es ∧
    ∀ e, e ∈ es → ∃ id, RecordID nk t (en_Key e) = Ok id ∧
      out' !! id = Some {| en_Type := t; en_Key := en_Key e; en_Data := en_Data e |}.
Proof.
  revert out. induction ts as [|t ts IH]; intros out HF; cbn [foldM] in HF.
  - injection HF as <-. split; [done|]. by intros ?? ?%not_elem_of_nil.
  - destruct (snapshot_type nk d out t) as [out1|] eqn:E1; [|done]. apply IH in HF as [Hsub Hts].
    unfold snapshot_type in E1. destruct (mapperFor t) as [m|] eqn:Em.
    + apply bind_Ok in E1 as (es & Hes & Hf). apply snapshot_add_spec in Hf as [Hsub1 Hadd].
      split; [by etrans|]. intros t' m'. rewrite elem_of_cons. intros [->|Ht] Hm; [|by apply Hts].
      assert (m' = m) as -> by congruence. exists es. split; [done|]. intros e He. destruct (Hadd e He) as (id & Hid & Hl).
      exists id. split; [done|]. by eapply lookup_weaken.
    + injection E1 as <-. split; [done|]. intros t' m'. rewrite elem_of_cons. intros [->|Ht] Hm; [congruence|by apply Hts].
Qed.

Lemma snapshotAll_covers nk d snap t m :
  snapshotAll nk d = Ok snap → t ∈ schemaV1 ++ settingsTypes → mapperFor t = Ok m → ∃ es, m_entries m d = Ok es ∧
    ∀ e, e ∈ es → ∃ id, RecordID nk t (en_Key e) = Ok id ∧
      snap !! id = Some {| en_Type := t; en_Key := en_Key e; en_Data := en_Data e |}.
Proof. intros HF Ht Hm. apply snapshot_types_spec in HF as [_ Hs]. by apply Hs. Qed.

Lemma marshalAll_origin {T} `{!GoJSON T} (keyOf : T → bytes) (l : list T) acc es :
  foldM (λ out v, e ← marshalEntry (keyOf v) v; Ok (out ++ [e])) acc l = Ok es →
  ∀ e, e ∈ es → e ∈ acc ∨ ∃ v r, v ∈ l ∧ Marshal v = Some r ∧ e = {| en_Type := ""%string; en_Key := keyOf v; en_Data := Some r |}.
Proof.
  revert acc. induction l as [|x l IH]; intros acc HF e He; cbn [foldM] in HF; [injection HF as <-; auto|].
  unfold marshalEntry at 1 in HF. destruct (Marshal x) as [r|] eqn:E; [|done]. cbn in HF.
  destruct (IH _ HF e He) as [[Ha|Hs%list_elem_of_singleton]%elem_of_app|(v & r' & Hv & Hr & ->)]; [auto| |].
  - right. exists x, r. split; [by left|done].
  - right. exists v, r'. split; [by right|done].
Qed.

Lemma snapshot_add_origin nk t es out out' :
  foldM (snapshot_add nk t) out es = Ok out' →
  ∀ id x, out' !! id = Some x → out !! id = Some x ∨ ∃ e, e ∈ es ∧ x = {| en_Type := t; en_Key := en_Key e; en_Data := en_Data e |}.
Proof.
  revert out. induction es as [|e es IH]; intros out HF id x Hx; cbn in HF; [injection HF as <-; auto|].
  unfold snapshot_add at 1 in HF. destruct (RecordID nk t (en_Key e)) as [id'|]; [|done]. cbn in HF.
  case_bool_decide; [done|]. destruct (IH _ HF id x Hx) as [Hi|(e' & He & ->)].
  - apply lookup_insert_Some in Hi as [[_ <-]|[_ Hi]]; [|auto]. right. exists e. split; [by left|done].
  - right. exists e'. split; [by right|done].
Qed.
(** What a snapshot lists is an item of the vault. *)
Lemma snapshotAll_origin nk d snap id x :
  snapshotAll nk d = Ok snap → snap !! id = Some x → ∃ m es e, mapperFor (en_Type x) = Ok m ∧ m_entries m d = Ok es ∧ e ∈ es ∧
    en_Key x = en_Key e ∧ en_Data x = en_Data e.
Proof.
  intros HF Hx. enough (∀ ts out, foldM (snapshot_type nk d) out ts = Ok snap → out !! id = Some x ∨ ∃ m es e,
    mapperFor (en_Type x) = Ok m ∧ m_entries m d = Ok es ∧ e ∈ es ∧ en_Key x = en_Key e ∧ en_Data x = en_Data e) as Hg.
  { by destruct (Hg _ _ HF) as [?%lookup_empty_Some|]. }
  clear HF. intros ts. induction ts as [|t ts IH]; intros out HF; cbn [foldM] in HF; [injection HF as <-; auto|].
  destruct (snapshot_type nk d out t) as [out1|] eqn:E1; [|done]. destruct (IH _ HF) as [Hi|?]; [|auto].
  unfold snapshot_type in E1. destruct (mapperFor t) as [m|] eqn:Em; [|injection E1 as <-; auto].
  apply bind_Ok in E1 as (es & Hes & Hf). destruct (snapshot_add_origin _ _ _ _ _ Hf id x Hi) as [?|(e & He & ->)]; [auto|].
  right. exists m, es, e. done.
Qed.

(** An item of a list is listed under the id of its key. *)
Lemma snapshot_item {T} `{!GoJSON T} nk d snap t (get : VaultData → list T) set keyOf validate v :
  snapshotAll nk d = Ok snap → t ∈ schemaV1 ++ settingsTypes → mapperFor t = Ok (sliceMapper get set keyOf validate) → v ∈ get d →
  ∃ id r, RecordID nk t (keyOf v) = Ok id ∧ Marshal v = Some r ∧
    snap !! id = Some {| en_Type := t; en_Key := keyOf v; en_Data := Some r |}.
Proof.
  intros HF Ht Hm Hv. destruct (snapshotAll_covers nk d snap t _ HF Ht Hm) as (es & Hes & Hall).
  cbn in Hes. destruct (marshalAll_spec _ _ _ _ Hes v Hv) as (r & Hr & He). destruct (Hall _ He) as (id & Hid & Hl). eauto 10.
Qed.
End snapshot.

(** ** What one change does to each part of the vault *)

Section effects.
Context `{!RawJSON, !RecordJSON, !Crypto}.
Implicit Types (d : VaultData) (c : Entry) (mu : mutation).

Lemma mapperFor_cases t m :
  mapperFor t = Ok m → (∃ section, IsSettingsType t = Some section ∧ m = settingsMapper section) ∨ (t, m) ∈ mappers.
Proof.
  unfold mapperFor. destruct (IsSettingsType t) as [section|]; [intros [= <-]; eauto|].
  unfold assoc. destruct (list_find _ mappers) as [[i [t' m']]|] eqn:E; [|done]. intros [= <-].
  apply list_find_Some in E as (Hi & Ht & _). cbn in *. subst. right. by eapply list_elem_of_lookup_2.
Qed.

Lemma prepare_inv c mu :
  prepare c = Ok mu → ∃ m, mapperFor (en_Type c) = Ok m ∧
    match en_Data c with None => m_remove m (en_Key c) | Some r => m_upsert m (en_Key c) r end = Ok mu.
Proof. unfold prepare. intros (m & Hm & Hmu)%bind_Ok. eauto. Qed.

Lemma slice_upsert {T} `{!GoJSON T} (get : VaultData → list T) set keyOf validate key r mu :
  m_upsert (sliceMapper get set keyOf validate) key r = Ok mu →
  ∃ v, decodeData r = Some v ∧ keyOf v = key ∧ key ≠ [] ∧ mu = λ d, set (upsert_item (λ x, keyOf x =?? key) v (get d)) d.
Proof.
  cbn. unfold decode. intros (v & Hv & (u & Hk & [_ Hmu]%fail_if_Ok)%bind_Ok)%bind_Ok. destruct (decodeData r) as [v'|]; [|done].
  injection Hv as ->. unfold checkKey in Hk. apply fail_if_Ok in Hk as [[Hk1 Hk2]%orb_false_iff _].
  apply bool_decide_eq_false in Hk1. apply negb_false_iff, bool_decide_eq_true in Hk2. injection Hmu as <-.
  exists v. split_and!; congruence.
Qed.
Lemma map_upsert {T} `{!GoJSON T} (list_of : VaultData → list T) keyOf put del key r mu :
  m_upsert (mapMapper list_of keyOf put del) key r = Ok mu →
  ∃ v, decodeData r = Some v ∧ keyOf v = key ∧ key ≠ [] ∧ mu = put v.
Proof.
  cbn. unfold decode. intros (v & Hv & (u & Hk & Hmu)%bind_Ok)%bind_Ok. destruct (decodeData r) as [v'|]; [|done].
  injection Hv as ->. unfold checkKey in Hk. apply fail_if_Ok in Hk as [[Hk1 Hk2]%orb_false_iff _].
  apply bool_decide_eq_false in Hk1. apply negb_false_iff, bool_decide_eq_true in Hk2. injection Hmu as <-.
  exists v. split_and!; congruence.
Qed.

(** The effect of a change on the items kept in a list, of the type [t]. *)
Definition list_effect {T} `{!GoJSON T} (keyOf : T → bytes) c (l l' : list T) : Prop :=
  match en_Data c with
  | None => l' = delete_items (λ x, keyOf x =?? en_Key c) l
  | Some r => ∃ v, decodeData r = Some v ∧ keyOf v = en_Key c ∧ en_Key c ≠ [] ∧ l' = upsert_item (λ x, keyOf x =?? en_Key c) v l
  end.

(** Take a prepared change apart, by its type. *)
Ltac by_mapper Hp :=
  apply prepare_inv in Hp as (m & Hm & Hp); apply mapperFor_cases in Hm as [(section & Hsec & ->)|Hin];
  [|unfold mappers in Hin; repeat (apply elem_of_cons in Hin as [Hin|Hin]; [injection Hin as Ht ->|]); [..|by apply not_elem_of_nil in Hin]].
Ltac framed Hp :=
  destruct (en_Data _) as [r|];
  [first [apply slice_upsert in Hp | apply map_upsert in Hp]; destruct Hp as (? & _ & _ & _ & ->) | cbn in Hp; injection Hp as <-]; done.

(** A settings change is of no other type; what a change of a listed type does. *)
Ltac not_settings Hsec := right; split; [intros E; rewrite E in Hsec; vm_compute in Hsec; done|].
Ltac listed c Hp :=
  left; split; [done|]; unfold list_effect; destruct (en_Data c) as [r|];
  [apply slice_upsert in Hp as (v & Hv & Hk & Hn & ->); exists v; done | cbn in Hp; by injection Hp as <-].

Lemma settings_frame {A} (π : VaultData → A) c section mu :
  (∀ v d, π (set_Settings v d) = π d) →
  match en_Data c with None => m_remove (settingsMapper section) (en_Key c)
                     | Some r => m_upsert (settingsMapper section) (en_Key c) r end = Ok mu → ∀ d, π (mu d) = π d.
Proof.
  intros Hπ Hp d. destruct (en_Data c) as [r|]; cbn in Hp; [|done]. apply bind_Ok in Hp as (u & _ & Hp).
  destruct (ApplySection _ _ _); [|done]. injection Hp as <-. apply Hπ.
Qed.
Lemma known_host_frame {A} (π : VaultData → A) c mu :
  (∀ v d, π (set_KnownHosts v d) = π d) →
  match en_Data c with None => m_remove knownHostMapper (en_Key c) | Some r => m_upsert knownHostMapper (en_Key c) r end = Ok mu →
  ∀ d, π (mu d) = π d.
Proof.
  intros Hπ Hp d. destruct (en_Data c) as [r|]; cbn in Hp; [|injection Hp as <-; apply Hπ].
  apply bind_Ok in Hp as (v & _ & Hp). destruct (knownHostKey _); [|done]. apply bind_Ok in Hp as (u & _ & Hp).
  injection Hp as <-. apply Hπ.
Qed.

(** *** Connections *)
Lemma prepare_connections c mu d :
  prepare c = Ok mu →
  (en_Type c = TypeConnection ∧ list_effect cn_ID c (vd_Connections d) (vd_Connections (mu d))) ∨
  (en_Type c ≠ TypeConnection ∧ vd_Connections (mu d) = vd_Connections d).
Proof.
  intros Hp. by_mapper Hp.
  1: not_settings Hsec; by eapply (settings_frame vd_Connections).
  2: listed c Hp.
  all: right; split; [by rewrite Ht|].
  5: by eapply (known_host_frame vd_Connections).
  all: framed Hp.
Qed.

(** *** Folders *)
Lemma prepare_folders c mu d :
  prepare c = Ok mu →
  (en_Type c = TypeFolder ∧ list_effect fo_ID c (vd_Folders d) (vd_Folders (mu d))) ∨
  (en_Type c ≠ TypeFolder ∧ vd_Folders (mu d) = vd_Folders d).
Proof.
  intros Hp. by_mapper Hp.
  1: not_settings Hsec; by eapply (settings_frame vd_Folders).
  1: listed c Hp.
  all: right; split; [by rewrite Ht|].
  5: by eapply (known_host_frame vd_Folders).
  all: framed Hp.
Qed.

(** *** Passwords *)
Definition map_effect {T} c (m m' : gmap bytes T) : Prop :=
  (en_Data c = None → m' !! en_Key c = None) ∧ ∀ k, k ≠ en_Key c → m' !! k = m !! k.
Lemma prepare_passwords c mu d :
  prepare c = Ok mu →
  (en_Type c = TypePassword ∧ map_effect c (vd_Passwords d) (vd_Passwords (mu d))) ∨
  (en_Type c ≠ TypePassword ∧ vd_Passwords (mu d) = vd_Passwords d).
Proof.
  intros Hp. by_mapper Hp.
  1: not_settings Hsec; by eapply (settings_frame vd_Passwords).
  4: { left. split; [done|]. unfold map_effect. destruct (en_Data c) as [r|].
       - apply map_upsert in Hp as (v & Hv & Hkv & _ & ->). split; [done|]. intros k Hk. cbn. rewrite lookup_insert_ne; congruence.
       - cbn in Hp. injection Hp as <-. split; intros; cbn; [apply lookup_delete_eq|by rewrite lookup_delete_ne]. }
  all: right; split; [by rewrite Ht|].
  5: by eapply (known_host_frame vd_Passwords).
  all: framed Hp.
Qed.

(** *** Trusted peers *)
Lemma prepare_peers c mu d :
  prepare c = Ok mu →
  (en_Type c = TypePeerTrust ∧ list_effect peer_key c (vd_PeerTrust d) (vd_PeerTrust (mu d))) ∨
  (en_Type c ≠ TypePeerTrust ∧ vd_PeerTrust (mu d) = vd_PeerTrust d).
Proof.
  intros Hp. by_mapper Hp.
  1: not_settings Hsec; by eapply (settings_frame vd_PeerTrust).
  7: listed c Hp.
  all: right; split; [by rewrite Ht|].
  6: by eapply (known_host_frame vd_PeerTrust).
  all: framed Hp.
Qed.

(** *** Known hosts *)
Lemma prepare_hosts c mu d :
  prepare c = Ok mu →
  (en_Type c = TypeKnownHost ∧
   match en_Data c with
   | None => vd_KnownHosts (mu d) = delete_items (λ l, lineKey l =?? en_Key c) (vd_KnownHosts d)
   | Some r => ∃ v, decodeData r = Some v ∧ knownHostKey (kh_Line v) = Some (en_Key c) ∧
       vd_KnownHosts (mu d) = upsert_line (en_Key c) (kh_Line v) (vd_KnownHosts d)
   end) ∨
  (en_Type c ≠ TypeKnownHost ∧ vd_KnownHosts (mu d) = vd_KnownHosts d).
Proof.
  intros Hp. by_mapper Hp.
  1: not_settings Hsec; by eapply (settings_frame vd_KnownHosts).
  6: { left. split; [done|]. destruct (en_Data c) as [r|]; cbn in Hp; [|by injection Hp as <-].
       unfold decode in Hp. destruct (decodeData r) as [v|]; [|done]. cbn in Hp. destruct (knownHostKey (kh_Line v)) as [own|] eqn:E; [|done].
       apply bind_Ok in Hp as (u & Hk & Hmu). unfold checkKey in Hk. apply fail_if_Ok in Hk as [[_ Hk]%orb_false_iff _].
       apply negb_false_iff, bool_decide_eq_true in Hk. injection Hmu as <-. exists v. split_and!; [done|congruence|done]. }
  all: right; split; [by rewrite Ht|]; framed Hp.
Qed.

(** *** Keys *)
Lemma prepare_identities c mu d :
  prepare c = Ok mu →
  (en_Type c = TypeIdentity ∧
   match en_Data c with
   | None => vd_Identities (mu d) = delete (en_Key c) (vd_Identities d)
   | Some r => ∃ v, decodeData r = Some v ∧ si_ID (idt_Identity v) = en_Key c ∧
       vd_Identities (mu d) = <[en_Key c := idt_Identity v]> (vd_Identities d)
   end) ∨
  (en_Type c ≠ TypeIdentity ∧ vd_Identities (mu d) = vd_Identities d).
Proof.
  intros Hp. by_mapper Hp.
  1: not_settings Hsec; by eapply (settings_frame vd_Identities).
  3: { left. split; [done|]. destruct (en_Data c) as [r|].
       - apply map_upsert in Hp as (v & Hv & Hk & _ & ->). exists v. rewrite <- Hk. done.
       - cbn in Hp. by injection Hp as <-. }
  all: right; split; [by rewrite Ht|].
  5: by eapply (known_host_frame vd_Identities).
  all: framed Hp.
Qed.

(** Key material follows its key. *)
Lemma prepare_blobs c mu d k :
  prepare c = Ok mu → en_Type c ≠ TypeIdentity ∨ k ≠ en_Key c → vd_KeyBlobs (mu d) !! k = vd_KeyBlobs d !! k.
Proof.
  intros Hp Hk. by_mapper Hp.
  1: by rewrite (settings_frame vd_KeyBlobs c section mu).
  3: { destruct (en_Data c) as [r|].
       - apply map_upsert in Hp as (v & Hv & Hkv & _ & ->). destruct Hk as [|Hk]; [done|]. cbn.
         destruct (idt_Blob v); [rewrite lookup_insert_ne|rewrite lookup_delete_ne]; congruence.
       - cbn in Hp. injection Hp as <-. cbn. destruct Hk as [|Hk]; [done|]. by rewrite lookup_delete_ne. }
  5: by rewrite (known_host_frame vd_KeyBlobs c mu).
  all: f_equal; framed Hp.
Qed.

Lemma prepare_version c mu d : prepare c = Ok mu → vd_Version (mu d) = vd_Version d.
Proof.
  intros Hp. by_mapper Hp.
  1: by eapply (settings_frame vd_Version).
  6: by eapply (known_host_frame vd_Version).
  all: framed Hp.
Qed.

(** A change of a type a team may hold leaves everything that is not an item of such a type. *)
Lemma prepare_team_frame {A} (π : VaultData → A) c mu d :
  (∀ l d, π (set_Folders l d) = π d) → (∀ l d, π (set_Connections l d) = π d) → (∀ l b d, π (set_Identities l b d) = π d) →
  (∀ l d, π (set_Passwords l d) = π d) → (∀ l d, π (set_Conflicts l d) = π d) →
  en_Type c ∈ [TypeFolder; TypeConnection; TypeIdentity; TypePassword; TypeConflict] → prepare c = Ok mu → π (mu d) = π d.
Proof.
  intros Hf Hc Hi Hpw Hcf Hin Hp. rewrite !elem_of_cons, elem_of_nil in Hin. apply prepare_inv in Hp as (m & Hm & Hp).
  destruct Hin as [E|[E|[E|[E|[E|[]]]]]]; rewrite E in Hm; injection Hm as <-; destruct (en_Data c) as [r|];
    (first [apply slice_upsert in Hp as (v & _ & _ & _ & ->) | apply map_upsert in Hp as (v & _ & _ & _ & ->) |
            cbn in Hp; injection Hp as <-]); auto.
Qed.

(** *** Settings *)
Definition settings_of d : AppSettings := default NewSettings (vd_Settings d).

Lemma prepare_settings c mu d :
  prepare c = Ok mu →
  (∃ section r, IsSettingsType (en_Type c) = Some section ∧ en_Data c = Some r ∧ en_Key c = bytes_of_string section ∧
     vd_Settings (mu d) = Some (of_ok (settings_of d) (ApplySection (settings_of d) section r))) ∨
  (IsSettingsType (en_Type c) = None ∧ vd_Settings (mu d) = vd_Settings d).
Proof.
  intros Hp. by_mapper Hp.
  1: { left. destruct (en_Data c) as [r|]; cbn in Hp; [|done]. apply bind_Ok in Hp as (u & Hk & Hp).
       destruct (ApplySection _ _ _); [|done]. injection Hp as <-. exists section, r. split_and!; try done.
       unfold checkKey in Hk. apply fail_if_Ok in Hk as [[_ Hk]%orb_false_iff _]. by apply negb_false_iff, bool_decide_eq_true in Hk. }
  all: right; split; [rewrite Ht; by vm_compute|].
  6: by eapply (known_host_frame vd_Settings).
  all: framed Hp.
Qed.
End effects.

(** ** Changes, one after the other *)

Lemma elem_of_upsert {T} (p : T → bool) (v : T) l x : x ∈ upsert_item p v l → x = v ∨ x ∈ l.
Proof.
  induction l as [|y l IH]; cbn; [rewrite list_elem_of_singleton; auto|].
  destruct (p y); rewrite !elem_of_cons; naive_solver.
Qed.
Lemma upsert_new {T} (p : T → bool) (v : T) l : v ∈ upsert_item p v l.
Proof. induction l as [|y l IH]; cbn; [by left|]. destruct (p y); [by left|by right]. Qed.
Lemma upsert_kept {T} (p : T → bool) (v : T) l x : x ∈ l → p x = false → x ∈ upsert_item p v l.
Proof.
  induction l as [|y l IH]; [by intros ?%not_elem_of_nil|]. rewrite elem_of_cons. intros [->|Hx] Hp; cbn.
  - rewrite Hp. by left.
  - destruct (p y); right; auto.
Qed.

Lemma elem_of_alter_first {T} (q : T → bool) f l (x : T) : x ∈ alter_first q f l → x ∈ l ∨ ∃ y, y ∈ l ∧ x = f y.
Proof.
  induction l as [|y l IH]; cbn; [auto|]. destruct (q y); setoid_rewrite elem_of_cons.
  - intros [->|?]; [|auto]. right. exists y. auto.
  - intros [->|[?|(z & ? & ->)]%IH]; [auto|auto|]. right. exists z. auto.
Qed.

Section changes.
Context `{!RawJSON, !RecordJSON, !Crypto}.
Implicit Types (d : VaultData) (c : Entry) (mu : mutation).

Lemma prepareAll_spec acc cs muts :
  foldM (λ muts c, mu ← prepare c; Ok (muts ++ [mu])) acc cs = Ok muts →
  ∃ new, muts = acc ++ new ∧ Forall2 (λ c mu, prepare c = Ok mu) cs new.
Proof.
  revert acc. induction cs as [|c cs IH]; intros acc HF; cbn [foldM] in HF.
  - injection HF as <-. exists []. by rewrite app_nil_r.
  - destruct (prepare c) as [mu|] eqn:Ec; [|done]. cbn in HF. apply IH in HF as (new & -> & Hn).
    exists (mu :: new). split; [by rewrite <- app_assoc|by constructor].
Qed.
(** Whose item a change would touch. *)
Lemma scope_check_owner d s c owner :
  scope_check d s c = Ok () → ownerOf d (en_Type c) (en_Key c) = Some owner → owner = sco_Vault s.
Proof. unfold scope_check. intros [_ [Hf _]%fail_if_Ok]%fail_if_Ok Ho. rewrite Ho in Hf. by bool_simpl. Qed.
Lemma ownerOf_folder d key : ownerOf d TypeFolder key = (λ p, fo_VaultID p.2) <$> list_find (λ f, fo_ID f = key) (vd_Folders d).
Proof. done. Qed.
Lemma ownerOf_connection d key : ownerOf d TypeConnection key = (λ p, cn_VaultID p.2) <$> list_find (λ x, cn_ID x = key) (vd_Connections d).
Proof. done. Qed.
Lemma ownerOf_identity d key : ownerOf d TypeIdentity key = si_VaultID <$> vd_Identities d !! key.
Proof. done. Qed.
Lemma ownerOf_password d key : ownerOf d TypePassword key = pb_VaultID <$> vd_Passwords d !! key.
Proof. done. Qed.

(** What marking an item with its vault does to each part. *)
Ltac by_type t := unfold stamp; repeat case_bool_decide; subst; try discriminate; try done; case_match; done.
Lemma stamp_folders t key v d : vd_Folders (stamp t key v d) =
  if t =?? TypeFolder then alter_first (λ f, fo_ID f =?? key) (fo_set_VaultID v) (vd_Folders d) else vd_Folders d.
Proof. by_type t. Qed.
Lemma stamp_connections t key v d : vd_Connections (stamp t key v d) =
  if t =?? TypeConnection then alter_first (λ x, cn_ID x =?? key) (cn_set_VaultID v) (vd_Connections d) else vd_Connections d.
Proof. by_type t. Qed.
Lemma stamp_identities t key v d : vd_Identities (stamp t key v d) =
  if t =?? TypeIdentity then <[key := si_set_VaultID v (default SSHIdentity_zero (vd_Identities d !! key))]> (vd_Identities d) else vd_Identities d.
Proof. by_type t. Qed.
Lemma stamp_passwords t key v d : vd_Passwords (stamp t key v d) =
  if t =?? TypePassword then <[key := pb_set_VaultID v (default PasswordBlob_zero (vd_Passwords d !! key))]> (vd_Passwords d) else vd_Passwords d.
Proof. by_type t. Qed.
(** Whatever else there is stays. *)
Lemma stamp_frame {A} (π : VaultData → A) t key v d :
  (∀ l d, π (set_Folders l d) = π d) → (∀ l d, π (set_Connections l d) = π d) → (∀ l b d, π (set_Identities l b d) = π d) →
  (∀ l d, π (set_Passwords l d) = π d) → (∀ l d, π (set_Conflicts l d) = π d) → π (stamp t key v d) = π d.
Proof. intros Hf Hc Hi Hp Hs. unfold stamp. repeat case_bool_decide; auto. case_match; auto. Qed.

(** A batch is checked against the vault as it was, made, and then marked. *)
Definition kept_changes (s : Scope) (cs : list Entry) : list Entry := if sco_Vault s <>? [] then withoutPluginSecrets cs else cs.
Lemma elem_of_kept s cs c : c ∈ kept_changes s cs ↔ c ∈ cs ∧ (sco_Vault s = [] ∨ en_Type c ≠ TypePluginSecret).
Proof. unfold kept_changes, withoutPluginSecrets. case_bool_decide; cbn; [naive_solver|]. rewrite list_elem_of_filter. naive_solver. Qed.
Lemma ApplyScope_phases d s cs d' :
  ApplyScope d s cs = Ok d' → ∃ d1, d' = foldl (stamp_entry (sco_Vault s)) d1 (kept_changes s cs) ∧
    (∀ c, c ∈ kept_changes s cs → scope_check d s c = Ok ()) ∧
    ∀ P : VaultData → Prop, P d → (∀ d2 c mu, c ∈ kept_changes s cs → prepare c = Ok mu → P d2 → P (mu d2)) → P d1.
Proof.
  intros (u & Hc & (d1 & Ha & [= <-])%bind_Ok)%bind_Ok. exists d1. fold (kept_changes s cs) in *. split_and!; [done|..].
  - clear Ha. destruct u. induction (kept_changes s cs) as [|x l IH] in Hc |- *; [by intros ? ?%not_elem_of_nil|].
    cbn in Hc. destruct (scope_check d s x) as [[]|] eqn:E; [|done]. intros c. rewrite elem_of_cons. intros [->|Hk]; [done|auto].
  - intros P Hd Hmu. apply bind_Ok in Ha as (muts & Hp & [= <-]). apply prepareAll_spec in Hp as (new & -> & Hn). clear Hc. cbn.
    induction Hn as [|c mu l muts Hc Hn IH] in d, Hd, Hmu |- *; cbn; [done|]. apply IH; [|intros; eapply Hmu; eauto; by right].
    apply (Hmu d c mu); [by left|done|done].
Qed.
Lemma ApplyScope_checked d s cs d' c :
  ApplyScope d s cs = Ok d' → c ∈ cs → sco_Vault s = [] ∨ en_Type c ≠ TypePluginSecret → scope_check d s c = Ok ().
Proof. intros (d1 & _ & Hc & _)%ApplyScope_phases Hin Hp. apply Hc, elem_of_kept. auto. Qed.
(** A property the changes and the marks keep. *)
Lemma ApplyScope_ind (P : VaultData → Prop) d s cs d' :
  ApplyScope d s cs = Ok d' → P d →
  (∀ d1 c mu, c ∈ cs → sco_Vault s = [] ∨ en_Type c ≠ TypePluginSecret → prepare c = Ok mu → P d1 → P (mu d1)) →
  (∀ d1 c r, c ∈ cs → en_Data c = Some r → P d1 → P (stamp (en_Type c) (en_Key c) (sco_Vault s) d1)) → P d'.
Proof.
  intros (d1 & -> & _ & Hind)%ApplyScope_phases Hd Hmu Hst. pose proof (λ c, proj1 (elem_of_kept s cs c)) as Hk.
  assert (P d1) as Hd1 by (apply Hind; [done|]; intros d2 c mu Hc; destruct (Hk c Hc); eauto). clear Hind. revert d1 Hd1.
  induction (kept_changes s cs) as [|c l IH]; intros d1 Hd1; [done|]. apply IH; [intros x Hx; apply Hk; by right|].
  unfold stamp_entry. destruct (en_Data c) as [r|] eqn:Er; [|done]. eapply Hst; [by apply Hk; left|exact Er|done].
Qed.

End changes.

(** ** Lines of known hosts *)

Lemma Split_join_space l : l ≠ [] → Forall (λ f, f ≠ [] ∧ Byte.x20 ∉ f) l → Split (join_space l) Byte.x20 = l.
Proof.
  induction l as [|f l IH]; [done|]. intros _ [[_ Hf] Hl]%Forall_cons. destruct l as [|g l].
  - by apply Split_no_sep.
  - cbn [join_space]. rewrite Split_app by done. f_equal. by apply IH.
Qed.

(** The host a key of a line names. *)
Definition key_host (key : bytes) : option bytes :=
  let f := Split key Byte.x20 in
  match drop (if marked f then 1 else 0) f with
  | [] => None
  | h :: _ => let host := cut_before h Byte.x2c in if host =?? [] then None else Some host
  end.
Lemma lineKey_host line key : knownHostKey line = Some key → key ≠ [] ∧ knownHostField line = key_host key.
Proof.
  unfold knownHostKey, knownHostField, key_host. pose proof (Fields_space line) as Hf. destruct (Fields line) as [|x f]; [done|].
  cbn [marked]. destruct (HasPrefix x [Byte.x40]) eqn:Hx; cbn [length]; destruct (_ <? _)%nat eqn:Hl; try done; intros Hk; apply (inj Some) in Hk as <-;
    apply Nat.ltb_ge in Hl; destruct f as [|y f]; cbn in Hl; try lia.
  - destruct f as [|z f]; cbn in Hl; [lia|].
    rewrite Split_join_space; [|done|by apply Forall_take]. cbn [take marked]. rewrite Hx. split; [|done].
    apply Forall_cons in Hf as [[Hn _] _]. by destruct x.
  - rewrite Split_join_space; [|done|by apply Forall_take]. cbn [take marked]. rewrite Hx. split; [|done].
    apply Forall_cons in Hf as [[Hn _] _]. by destruct x.
Qed.
Lemma lineKey_Some line key : lineKey line = key → key ≠ [] → knownHostKey line = Some key.
Proof. unfold lineKey. destruct (knownHostKey line); cbn; congruence. Qed.

(** A line with a host, a key type and a key speaks for the hosts its name matches. *)
Definition vouches (line host : bytes) : bool :=
  match knownHostKey line, knownHostField line with
  | Some _, Some h => KnownHostMatches h host
  | _, _ => false
  end.

(** Two names that match one host are found to be the same. *)
Lemma match_same a b host : KnownHostMatches a host = true → KnownHostMatches b host = true → sameKnownHost a b = true.
Proof.
  unfold sameKnownHost, KnownHostMatches. destruct (IsHashedKnownHost a) eqn:Ha, (IsHashedKnownHost b) eqn:Hb; cbn; [done|..];
    rewrite ?Ha, ?Hb, ?bool_decide_eq_true; congruence.
Qed.

Lemma first_lines_sub seen lines l : l ∈ first_lines seen lines → l ∈ lines ∧ lineKey l ≠ [].
Proof.
  revert seen. induction lines as [|x ls IH]; intros seen; cbn; [by intros ?%not_elem_of_nil|].
  destruct ((lineKey x =?? []) || bool_decide (lineKey x ∈ seen)) eqn:E.
  - intros Hl%IH. rewrite elem_of_cons. naive_solver.
  - rewrite !elem_of_cons. intros [->|Hl%IH]; [|naive_solver]. bool_simpl. auto.
Qed.
Lemma first_lines_keys seen lines l : l ∈ lines → lineKey l ≠ [] → lineKey l ∉ seen →
  ∃ l0, l0 ∈ first_lines seen lines ∧ lineKey l0 = lineKey l.
Proof.
  revert seen. induction lines as [|x ls IH]; intros seen; [by intros ?%not_elem_of_nil|]. rewrite elem_of_cons. cbn.
  intros Hl Hn Hs. destruct ((lineKey x =?? []) || bool_decide (lineKey x ∈ seen)) eqn:E.
  - destruct Hl as [->|Hl]; [|by apply IH]. apply orb_true_iff in E as [E|E]; bool_simpl; done.
  - destruct (decide (lineKey l = lineKey x)) as [Heq|Hne].
    + exists x. split; [by left|done].
    + destruct Hl as [->|Hl]; [done|]. destruct (IH ({[lineKey x]} ∪ seen) Hl Hn) as (l0 & H0 & Hk); [set_solver|].
      exists l0. split; [by right|done].
Qed.

Lemma elem_of_upsert_line key line l x : x ∈ upsert_line key line l → x = line ∨ x ∈ l.
Proof.
  induction l as [|y l IH]; cbn; [rewrite list_elem_of_singleton; auto|]. case_bool_decide; rewrite !elem_of_cons.
  - intros [->|Hx]; [auto|]. apply list_elem_of_filter in Hx as [_ Hx]. auto.
  - naive_solver.
Qed.
Lemma upsert_line_new key line l : line ∈ upsert_line key line l.
Proof. induction l as [|y l IH]; cbn; [by left|]. case_bool_decide; [by left|by right]. Qed.
Lemma upsert_line_kept key line l x : x ∈ l → lineKey x ≠ key → x ∈ upsert_line key line l.
Proof.
  induction l as [|y l IH]; [by intros ?%not_elem_of_nil|]. rewrite elem_of_cons. intros [->|Hx] Hp; cbn.
  - rewrite bool_decide_eq_false_2 by done. by left.
  - case_bool_decide; right; [|auto]. apply list_elem_of_filter. by rewrite bool_decide_eq_false_2.
Qed.
