(* ===== verification/Weakening.v ===== *)
(** * Weakening: incoming changes weaken nothing this device holds

    The changes the rules of [internal/domain/synctrust] ([trust.go], [trust_addition.go]) let through
    without the user, applied to the vault they were judged against. *)

From S2P Require Import Prelude Bytes GoText SyncBase Canon AgentForward Merge Version PluginPaths KnownHosts VaultData SyncTrust ClientStore Client TrustLaws.

(** ** Nothing this device holds gets weaker *)

Section weakening.
Context `{!RawJSON, !RecordJSON, !Crypto}.
Implicit Types (d : VaultData) (c : Entry) (mu : mutation).

(** A connection that offers keys to the far side, and which. *)
Definition forwards (c : Connection) : option (list bytes) :=
  match cn_AgentForwarding c with Some f => if cfg_Enabled f then Some (cfg_IdentityIDs f) else None | None => None end.

(** What a change of the vault must not do behind the user's back: a host that was known stays known and
    nothing new speaks for it, a trusted peer stays trusted by the same material, keys stay, non-exportable
    ones too, and are not opened to plugins or forwarding, forwarding is not switched on or given another
    key, and neither the lockout nor what plugins may do is loosened. *)
Record no_weaker d (d' : VaultData) : Prop := {
  nw_hosts_kept : ∀ l x, l ∈ vd_KnownHosts d → vouches l x = true → ∃ l', l' ∈ vd_KnownHosts d' ∧ vouches l' x = true;
  nw_hosts_same : ∀ l l' x, l ∈ vd_KnownHosts d → vouches l x = true → l' ∈ vd_KnownHosts d' → vouches l' x = true →
    l' ∈ vd_KnownHosts d;
  nw_peers_kept : ∀ e, e ∈ vd_PeerTrust d → peer_key e ≠ [] → ∃ e', e' ∈ vd_PeerTrust d' ∧ peer_key e' = peer_key e;
  nw_peers_same : ∀ e e', e ∈ vd_PeerTrust d → e' ∈ vd_PeerTrust d' → peer_key e ≠ [] → peer_key e' = peer_key e →
    pt_Material e' = pt_Material e;
  nw_keys : ∀ k i, vd_Identities d !! k = Some i → ∃ i', vd_Identities d' !! k = Some i' ∧
    (si_NonExportable i = true → si_NonExportable i' = true) ∧ (si_AllowPlugins i' = true → si_AllowPlugins i = true) ∧
    (si_AllowForwarding i' = true → si_AllowForwarding i = true);
  nw_forwarding : ∀ x' ids', x' ∈ vd_Connections d' → forwards x' = Some ids' →
    ∃ x ids, x ∈ vd_Connections d ∧ cn_ID x = cn_ID x' ∧ forwards x = Some ids ∧ ids' ⊆ ids;
  nw_lockout : lockout_weaker (as_Lockout (settings_of d)) (as_Lockout (settings_of d')) = false;
  nw_plugins : PluginTrustWeakened (as_Plugins (settings_of d)) (as_Plugins (settings_of d')) = false;
}.

(** What is encoded decodes to itself: Go's JSON does this to every string that is UTF-8. *)
Definition reads_back {T} `{!GoJSON T} (v : T) : Prop := ∀ r, Marshal v = Some r → decodeData r = Some v.

Record readable d : Prop := {
  rb_hosts : ∀ l, l ∈ vd_KnownHosts d → reads_back {| kh_Line := l |};
  rb_peers : ∀ e, e ∈ vd_PeerTrust d → reads_back e;
  rb_keys : ∀ k i, vd_Identities d !! k = Some i →
    si_ID i = k ∧ reads_back {| idt_Identity := i; idt_Blob := vd_KeyBlobs d !! k |};
  rb_connections : ∀ x, x ∈ vd_Connections d → reads_back x;
  rb_lockout : reads_back (as_Lockout (settings_of d));
  rb_plugins : reads_back (pluginsOf (settings_of d));
}.

(** A change the rules let through without asking, for the record it is filed under; no two of the
    names involved share an id. *)
Definition passes nk (held : gmap ID Entry) c : Prop :=
  ∃ id, RecordID nk (en_Type c) (en_Key c) = Ok id ∧ en_Key c ≠ [] ∧ verdict c (held !! id ≫= en_Data) held = Ok ActionApply ∧
    ∀ e, held !! id = Some e → en_Type e = en_Type c ∧ en_Key e = en_Key c.

(** The rule of each type. *)
Lemma Classify_peer local r : Classify TypePeerTrust local (Some r) = classifyReplacement local r pt_Material.
Proof. done. Qed.
Lemma Classify_host local r : Classify TypeKnownHost local (Some r) = classifyReplacement local r kh_Line.
Proof. done. Qed.
Lemma Classify_identity local r : Classify TypeIdentity local (Some r) = classifyIdentity local r.
Proof. done. Qed.
Lemma Classify_connection local r : Classify TypeConnection local (Some r) = classifyConnection local r.
Proof. done. Qed.
Lemma Classify_lockout local r : Classify (SettingsType "lockout") local (Some r) = classifyLockout local r.
Proof. done. Qed.
Lemma Classify_plugins local r : Classify (SettingsType "plugins") local (Some r) = classifyPlugins local r.
Proof. done. Qed.

Lemma settings_type t section : IsSettingsType t = Some section → t = SettingsType section.
Proof.
  unfold IsSettingsType. destruct (list_find _ _) as [[i s]|] eqn:E; [|done]. intros [= <-]. by apply list_find_Some in E as (_ & <- & _).
Qed.

(** What each section writes. *)
Lemma assoc_elem {A} k (l : list (string * A)) v : assoc k l = Some v → (k, v) ∈ l.
Proof.
  unfold assoc. destruct (list_find _ l) as [[i [k' v']]|] eqn:E; [|done]. intros [= <-].
  apply list_find_Some in E as (Hi & Hk & _). cbn in *. subst. by eapply list_elem_of_lookup_2.
Qed.
Ltac by_section Ha :=
  unfold ApplySection in Ha; destruct (assoc _ sectionCodecs) as [codec|] eqn:Hin; [|done]; apply assoc_elem in Hin;
  destruct (sec_apply codec _ _) as [s'|] eqn:Hap; [|done]; injection Ha as <-; unfold sectionCodecs in Hin;
  repeat (apply elem_of_cons in Hin as [Hin|Hin]; [injection Hin as -> ->; cbn in Hap; apply fmap_Some in Hap as (v & Hv & ->)|]);
  [..|by apply not_elem_of_nil in Hin].
Lemma ApplySection_lockout s section r s2 : ApplySection s section r = Ok s2 →
  (section = "lockout"%string ∧ ∃ v, decodeData r = Some v ∧ as_Lockout s2 = v) ∨ (section ≠ "lockout"%string ∧ as_Lockout s2 = as_Lockout s).
Proof. intros Ha. by_section Ha. 1: left; eauto. all: right; done. Qed.
Lemma ApplySection_plugins s section r s2 : ApplySection s section r = Ok s2 →
  (section = "plugins"%string ∧ ∃ v, decodeData r = Some v ∧ as_Plugins s2 = plugins_with v (as_Plugins s)) ∨
  (section ≠ "plugins"%string ∧ as_Plugins s2 = as_Plugins s).
Proof. intros Ha. by_section Ha. 9: left; eauto. all: right; done. Qed.

Lemma lockout_weaker_refl l : lockout_weaker l l = false.
Proof. unfold lockout_weaker. rewrite Z.ltb_irrefl. by destruct (lo_Enabled l), (lo_LockOnMinimize l). Qed.
Lemma grant_widened_refl m : grant_widened m m = false.
Proof.
  unfold grant_widened. apply not_true_iff_false. rewrite existsb_exists. intros ([k b] & Hin & Hb). cbn in Hb.
  apply list_elem_of_In, elem_of_map_to_list in Hin. unfold granted in Hb. rewrite Hin in Hb. by destruct b.
Qed.
Lemma PluginTrustWeakened_refl p : PluginTrustWeakened p p = false.
Proof.
  unfold PluginTrustWeakened. rewrite !andb_negb_r. rewrite (andb_comm (negb _)), andb_negb_r. unfold grantsWidened. cbn.
  rewrite !grant_widened_refl. cbn. destruct (hasNewTrustedKey _ _) eqn:E; [|done]. unfold hasNewTrustedKey in E.
  apply existsb_exists in E as (k & Hk & Hn). apply list_elem_of_In in Hk. by bool_simpl.
Qed.
(** The comparison does not depend on what is local to the device. *)
Lemma PluginTrustWeakened_local s v p : ps_AllowUnsandboxedFallback p = ps_AllowUnsandboxedFallback (as_Plugins s) →
  PluginTrustWeakened (plugins_with (pluginsOf s) PluginSettings_zero) (plugins_with v PluginSettings_zero) =
  PluginTrustWeakened (as_Plugins s) (plugins_with v p).
Proof. intros Hf. unfold PluginTrustWeakened. cbn. rewrite Hf, (andb_comm (negb _)), andb_negb_r. done. Qed.

Section batch.
Context (nk : bytes) (d d' : VaultData) (held : gmap ID Entry) (cs : list Entry).
Context (Hsnap : SnapshotScope nk d personal = Ok held) (Hread : readable d) (Happly : ApplyScope d personal cs = Ok d').
Context (Hpass : ∀ c, c ∈ cs → en_Type c = TypeConflict ∨ passes nk held c).

Lemma passed c : c ∈ cs → en_Type c ≠ TypeConflict → passes nk held c.
Proof. intros Hc Hn. by destruct (Hpass c Hc). Qed.

(** An item the vault holds is what the rules compare with. *)
Lemma passed_local c id t k r :
  held !! id = Some {| en_Type := t; en_Key := k; en_Data := Some r |} → RecordID nk t k = Ok id → en_Type c = t → en_Key c = k →
  passes nk held c → Classify t (Some r) (en_Data c) = Ok ActionApply.
Proof.
  intros Hh Hid <- <- (id' & Hid' & _ & Hv & _). assert (id' = id) as -> by congruence. rewrite Hh in Hv. cbn in Hv.
  unfold verdict in Hv. destruct (Classify _ _ _) as [[]|]; done.
Qed.
Lemma verdict_classify c id : verdict c (held !! id ≫= en_Data) held = Ok ActionApply →
  Classify (en_Type c) (held !! id ≫= en_Data) (en_Data c) = Ok ActionApply.
Proof. unfold verdict. destruct (Classify _ _ _) as [[]|]; done. Qed.

(** *** Peers *)
Lemma peer_listed e : e ∈ vd_PeerTrust d → ∃ id r, RecordID nk TypePeerTrust (peer_key e) = Ok id ∧ decodeData r = Some e ∧
  held !! id = Some {| en_Type := TypePeerTrust; en_Key := peer_key e; en_Data := Some r |}.
Proof.
  intros He. destruct (snapshot_item nk (project d personal) held TypePeerTrust vd_PeerTrust set_PeerTrust peer_key (λ _, true) e)
    as (id & r & Hid & Hr & Hl); [done|set_solver|done|done|]. exists id, r. split_and!; [done|by eapply rb_peers|done].
Qed.

Lemma peers_same e e' : e ∈ vd_PeerTrust d → e' ∈ vd_PeerTrust d' → peer_key e ≠ [] → peer_key e' = peer_key e → pt_Material e' = pt_Material e.
Proof.
  intros He He' Hn. revert e' He'. destruct (peer_listed e He) as (id & r & Hid & Hr & Hl).
  apply (ApplyScope_ind (λ d1, ∀ e', e' ∈ vd_PeerTrust d1 → peer_key e' = peer_key e → pt_Material e' = pt_Material e) d personal cs d' Happly).
  - intros e' He' Hk. destruct (peer_listed e' He') as (id' & r' & Hid' & Hr' & Hl'). rewrite Hk in Hid', Hl'.
    assert (id' = id) as -> by congruence. rewrite Hl in Hl'. injection Hl' as <-. rewrite Hr in Hr'. by injection Hr' as ->.
  - intros d1 c mu Hc _ Hmu IH e' He' Hk. destruct (prepare_peers c mu d1 Hmu) as [[Ht Heff]|[_ Heq]]; [|rewrite Heq in He'; auto].
    unfold list_effect in Heff. destruct (en_Data c) as [r'|] eqn:Er.
    + destruct Heff as (v & Hv & Hkv & _ & Heq). rewrite Heq in He'. apply elem_of_upsert in He' as [->|]; [|auto].
      assert (passes nk held c) as Hp by (apply passed; [done|by rewrite Ht]).
      pose proof (passed_local c id _ _ r Hl Hid Ht ltac:(congruence) Hp) as Hcl. rewrite Er in Hcl.
      rewrite Classify_peer in Hcl. unfold classifyReplacement, decode in Hcl. rewrite Hv, Hr in Hcl. cbn in Hcl.
      case_bool_decide; [congruence|done].
    + rewrite Heff in He'. apply list_elem_of_filter in He' as [_ He']. auto.
  - intros d1 c r' _ _ IH. by rewrite (stamp_frame vd_PeerTrust).
Qed.
Lemma peers_kept e : e ∈ vd_PeerTrust d → peer_key e ≠ [] → ∃ e', e' ∈ vd_PeerTrust d' ∧ peer_key e' = peer_key e.
Proof.
  intros He Hn. destruct (peer_listed e He) as (id & r & Hid & Hr & Hl).
  apply (ApplyScope_ind (λ d1, ∃ e', e' ∈ vd_PeerTrust d1 ∧ peer_key e' = peer_key e) d personal cs d' Happly); [eauto|..].
  - intros d1 c mu Hc _ Hmu (e' & He' & Hk). destruct (prepare_peers c mu d1 Hmu) as [[Ht Heff]|[_ ->]]; [|eauto].
    unfold list_effect in Heff. destruct (decide (en_Key c = peer_key e)) as [Hkc|Hkc].
    + assert (passes nk held c) as Hp by (apply passed; [done|by rewrite Ht]).
      pose proof (passed_local c id _ _ r Hl Hid Ht Hkc Hp) as Hcl. destruct (en_Data c) as [r'|]; [|done].
      destruct Heff as (v & Hv & Hkv & _ & ->). exists v. split; [apply upsert_new|congruence].
    + exists e'. split; [|done]. destruct (en_Data c) as [r'|].
      * destruct Heff as (v & Hv & Hkv & _ & ->). apply upsert_kept; [done|]. apply bool_decide_eq_false_2. congruence.
      * rewrite Heff. apply list_elem_of_filter. split; [apply bool_decide_eq_false_2; congruence|done].
  - intros d1 c r' _ _ IH. by rewrite (stamp_frame vd_PeerTrust).
Qed.

(** *** Known hosts *)
Lemma host_listed l k : l ∈ vd_KnownHosts d → knownHostKey l = Some k → ∃ l0 id r, RecordID nk TypeKnownHost k = Ok id ∧
  l0 ∈ vd_KnownHosts d ∧ knownHostKey l0 = Some k ∧ decodeData r = Some {| kh_Line := l0 |} ∧
  held !! id = Some {| en_Type := TypeKnownHost; en_Key := k; en_Data := Some r |}.
Proof.
  intros Hl Hk. destruct (lineKey_host _ _ Hk) as [Hn _]. assert (lineKey l = k) as Hlk by (unfold lineKey; by rewrite Hk).
  destruct (first_lines_keys ∅ (vd_KnownHosts d) l Hl) as (l0 & Hl0 & Hk0); [congruence|set_solver|].
  destruct (snapshotAll_covers nk (project d personal) held TypeKnownHost knownHostMapper) as (es & Hes & Hall); [done|set_solver|done|].
  destruct (marshalAll_spec _ _ _ _ Hes {| kh_Line := l0 |}) as (r & Hr & He); [by apply list_elem_of_fmap_2|].
  destruct (Hall _ He) as (id & Hid & Hh). cbn in Hid, Hh. apply first_lines_sub in Hl0 as [Hl0 _].
  exists l0, id, r. rewrite <- Hlk, <- Hk0. split_and!; [done|done|apply lineKey_Some; congruence|by eapply rb_hosts|done].
Qed.

Lemma vouches_inv l x : vouches l x = true → ∃ k h, knownHostKey l = Some k ∧ knownHostField l = Some h ∧ KnownHostMatches h x = true.
Proof. unfold vouches. destruct (knownHostKey l), (knownHostField l); naive_solver. Qed.
Lemma vouches_key l l' x : knownHostKey l = knownHostKey l' → vouches l x = vouches l' x.
Proof.
  intros Hk. unfold vouches. rewrite Hk. destruct (knownHostKey l') as [k|] eqn:E; [|done].
  destruct (lineKey_host _ _ E) as [_ ->]. by destruct (lineKey_host _ _ Hk) as [_ ->].
Qed.

(** Nothing new speaks for a host that a line spoke for. *)
Lemma addition_unrelated c v l x :
  passes nk held c → en_Type c = TypeKnownHost → (∃ r, en_Data c = Some r ∧ decodeData r = Some v) →
  knownHostKey (kh_Line v) = Some (en_Key c) → l ∈ vd_KnownHosts d → vouches l x = true → vouches (kh_Line v) x = true →
  kh_Line v ∈ vd_KnownHosts d.
Proof.
  intros (id & Hid & Hn & Hv & Hown) Ht (r & Er & Hr) Hkv Hl Hx Hx'.
  pose proof (verdict_classify c id Hv) as Hcl. destruct (held !! id) as [e|] eqn:He; cbn in Hv, Hcl.
  - destruct (Hown e eq_refl) as [Hte Hke]. destruct (snapshotAll_origin nk _ _ id e Hsnap He) as (m & es & e0 & Hm & Hes & He0 & Hk0 & Hd0).
    rewrite Hte, Ht in Hm. injection Hm as <-.
    destruct (marshalAll_origin _ _ _ _ Hes e0 He0) as [?%not_elem_of_nil|(w & r0 & Hw & Er0 & ->)]; [done|].
    apply list_elem_of_fmap in Hw as (l0 & -> & Hl0). apply first_lines_sub in Hl0 as [Hl0 _]. cbn in Hd0.
    rewrite Hd0, Er, Ht, Classify_host in Hcl. unfold classifyReplacement, decode in Hcl. rewrite Hr in Hcl.
    rewrite (rb_hosts _ Hread l0 Hl0 r0 Er0) in Hcl. cbn in Hcl. case_bool_decide as Heq; [|done]. by rewrite <- Heq.
  - unfold verdict in Hv. cbn in Hv. rewrite Hcl in Hv. unfold ClassifyAddition in Hv. rewrite Er, Ht in Hv. cbn in Hv.
    unfold decode in Hv. rewrite Hr in Hv. cbn in Hv. apply vouches_inv in Hx' as (k' & h' & _ & Hh' & Hm'). rewrite Hh' in Hv.
    apply vouches_inv in Hx as (k & h & Hk & Hh & Hm). destruct (host_listed l k Hl Hk) as (l0 & id0 & r0 & _ & _ & Hk0 & Hr0 & Hheld).
    destruct (existsb _ _) eqn:Ex in Hv; [done|]. exfalso. apply not_true_iff_false in Ex. apply Ex. apply existsb_exists.
    eexists (id0, _). split; [by apply list_elem_of_In, elem_of_map_to_list|]. unfold held_names. cbn. rewrite Hr0.
    rewrite bool_decide_eq_true_2 by done. cbn. destruct (lineKey_host _ _ Hk0) as [_ ->]. destruct (lineKey_host _ _ Hk) as [_ Hf].
    rewrite <- Hf, Hh. by eapply match_same.
Qed.

Lemma hosts_same l l' x : l ∈ vd_KnownHosts d → vouches l x = true → l' ∈ vd_KnownHosts d' → vouches l' x = true → l' ∈ vd_KnownHosts d.
Proof.
  intros Hl Hx. revert l'.
  apply (ApplyScope_ind (λ d1, ∀ l', l' ∈ vd_KnownHosts d1 → vouches l' x = true → l' ∈ vd_KnownHosts d) d personal cs d' Happly); [done|..].
  - intros d1 c mu Hc _ Hmu IH l' Hl' Hx'. destruct (prepare_hosts c mu d1 Hmu) as [[Ht Heff]|[_ Heq]]; [|rewrite Heq in Hl'; auto].
    destruct (en_Data c) as [r|] eqn:Er; [|rewrite Heff in Hl'; apply list_elem_of_filter in Hl' as [_ Hl']; auto].
    destruct Heff as (v & Hv & Hk & Heq). rewrite Heq in Hl'. apply elem_of_upsert_line in Hl' as [->|]; [|auto].
    eapply (addition_unrelated c v l x); eauto. apply passed; [done|by rewrite Ht].
  - intros d1 c r' _ _ IH. by rewrite (stamp_frame vd_KnownHosts).
Qed.
Lemma hosts_kept l x : l ∈ vd_KnownHosts d → vouches l x = true → ∃ l', l' ∈ vd_KnownHosts d' ∧ vouches l' x = true.
Proof.
  intros Hl Hx. destruct (vouches_inv _ _ Hx) as (k & h & Hk & Hh & Hm). destruct (lineKey_host _ _ Hk) as [Hn _].
  destruct (host_listed l k Hl Hk) as (l0 & id & r & Hid & Hl0 & Hk0 & Hr & Hheld).
  cut (∃ l', l' ∈ vd_KnownHosts d' ∧ knownHostKey l' = Some k).
  { intros (l' & Hl' & Hk'). exists l'. split; [done|]. rewrite <- Hx. apply vouches_key. congruence. }
  apply (ApplyScope_ind (λ d1, ∃ l', l' ∈ vd_KnownHosts d1 ∧ knownHostKey l' = Some k) d personal cs d' Happly); [eauto|..].
  - intros d1 c mu Hc _ Hmu (l' & Hl' & Hk'). destruct (prepare_hosts c mu d1 Hmu) as [[Ht Heff]|[_ ->]]; [|eauto].
    assert (lineKey l' = k) as Hlk by (unfold lineKey; by rewrite Hk'). destruct (decide (en_Key c = k)) as [Hkc|Hkc].
    + assert (passes nk held c) as Hp by (apply passed; [done|by rewrite Ht]).
      pose proof (passed_local c id _ _ r Hheld Hid Ht Hkc Hp) as Hcl. destruct (en_Data c) as [r'|]; [|done].
      destruct Heff as (v & Hv & Hkv & ->). exists (kh_Line v). split; [apply upsert_line_new|congruence].
    + exists l'. split; [|done]. destruct (en_Data c) as [r'|].
      * destruct Heff as (v & Hv & Hkv & ->). apply upsert_line_kept; [done|congruence].
      * rewrite Heff. apply list_elem_of_filter. split; [apply bool_decide_eq_false_2; congruence|done].
  - intros d1 c r' _ _ IH. by rewrite (stamp_frame vd_KnownHosts).
Qed.

(** *** Keys *)
Lemma set_VaultID_own i : si_VaultID i = [] → si_set_VaultID [] i = i.
Proof. intros Hv. destruct i; cbn in *. by subst. Qed.
Lemma key_listed k i : vd_Identities d !! k = Some i → si_VaultID i = [] → ∃ id r, RecordID nk TypeIdentity k = Ok id ∧
  decodeData r = Some {| idt_Identity := i; idt_Blob := vd_KeyBlobs d !! k |} ∧
  held !! id = Some {| en_Type := TypeIdentity; en_Key := k; en_Data := Some r |}.
Proof.
  intros Hi Hv. destruct (rb_keys _ Hread k i Hi) as [Hk Hrb].
  destruct (snapshotAll_covers nk (project d personal) held TypeIdentity identityMapper) as (es & Hes & Hall); [done|set_solver|done|].
  destruct (marshalAll_spec _ _ _ _ Hes {| idt_Identity := i; idt_Blob := vd_KeyBlobs d !! k |}) as (r & Hr & He).
  - apply list_elem_of_fmap. exists (k, i). split.
    + cbn. f_equal. symmetry. destruct (vd_KeyBlobs d !! k) as [b|] eqn:Eb.
      * apply map_lookup_filter_Some. split; [done|]. exists i. by apply map_lookup_filter_Some.
      * apply map_lookup_filter_None. auto.
    + apply elem_of_map_to_list. cbn [vd_Identities project]. rewrite lookup_fmap.
      rewrite (proj2 (map_lookup_filter_Some _ _ k i)) by done. cbn. by rewrite set_VaultID_own.
  - destruct (Hall _ He) as (id & Hid & Hh). cbn in Hid, Hh. rewrite Hk in Hid, Hh. exists id, r. auto.
Qed.

Lemma keys_guarded k i : vd_Identities d !! k = Some i → ∃ i', vd_Identities d' !! k = Some i' ∧
  (si_NonExportable i = true → si_NonExportable i' = true) ∧ (si_AllowPlugins i' = true → si_AllowPlugins i = true) ∧
  (si_AllowForwarding i' = true → si_AllowForwarding i = true).
Proof.
  intros Hi.
  apply (ApplyScope_ind (λ d1, ∃ i', vd_Identities d1 !! k = Some i' ∧
    (si_NonExportable i = true → si_NonExportable i' = true) ∧ (si_AllowPlugins i' = true → si_AllowPlugins i = true) ∧
    (si_AllowForwarding i' = true → si_AllowForwarding i = true)) d personal cs d' Happly); [eauto|..].
  - intros d1 c mu Hc Hs Hmu IH. destruct (prepare_identities c mu d1 Hmu) as [[Ht Heff]|[_ ->]]; [|done].
    destruct (decide (en_Key c = k)) as [Hkc|Hkc].
    + pose proof (ApplyScope_checked d personal cs d' c Happly Hc Hs) as Hchk. apply (scope_check_owner _ _ _ (si_VaultID i)) in Hchk as Hv.
      2: by rewrite Ht, ownerOf_identity, Hkc, Hi.
      destruct (key_listed k i Hi Hv) as (id & r & Hid & Hr & Hh).
      assert (passes nk held c) as Hp by (apply passed; [done|by rewrite Ht]).
      pose proof (passed_local c id _ _ r Hh Hid Ht Hkc Hp) as Hcl. destruct (en_Data c) as [r'|]; [|done].
      destruct Heff as (v & Hv' & Hkv & ->). rewrite Hkc, lookup_insert_eq. eexists; split; [done|].
      rewrite Classify_identity in Hcl. unfold classifyIdentity, decode in Hcl. rewrite Hv', Hr in Hcl. cbn in Hcl.
      destruct (si_NonExportable i), (si_NonExportable (idt_Identity v)), (si_AllowPlugins i), (si_AllowPlugins (idt_Identity v)),
        (si_AllowForwarding i), (si_AllowForwarding (idt_Identity v)); done.
    + destruct (en_Data c) as [r'|]; [destruct Heff as (v & _ & _ & ->)|rewrite Heff].
      * by rewrite lookup_insert_ne.
      * by rewrite lookup_delete_ne.
  - intros d1 c r _ _ (i' & Hi' & Hok). rewrite stamp_identities. case_bool_decide; [|eauto].
    destruct (decide (en_Key c = k)) as [->|Hne]; [|rewrite lookup_insert_ne by done; eauto].
    rewrite lookup_insert_eq, Hi'. cbn. eauto.
Qed.

(** *** Forwarding *)
Lemma forwarding_kept x' ids' : x' ∈ vd_Connections d' → forwards x' = Some ids' →
  ∃ x ids, x ∈ vd_Connections d ∧ cn_ID x = cn_ID x' ∧ forwards x = Some ids ∧ ids' ⊆ ids.
Proof.
  revert x' ids'. apply (ApplyScope_ind (λ d1, ∀ x' ids', x' ∈ vd_Connections d1 → forwards x' = Some ids' →
    ∃ x ids, x ∈ vd_Connections d ∧ cn_ID x = cn_ID x' ∧ forwards x = Some ids ∧ ids' ⊆ ids) d personal cs d' Happly).
  - intros x' ids' Hx Hf. exists x', ids'. done.
  - intros d1 c mu Hc Hs Hmu IH x' ids' Hx Hf. destruct (prepare_connections c mu d1 Hmu) as [[Ht Heff]|[_ Heq]]; [|rewrite Heq in Hx; eauto].
    unfold list_effect in Heff. destruct (en_Data c) as [r|] eqn:Er; [|rewrite Heff in Hx; apply list_elem_of_filter in Hx as [_ Hx]; eauto].
    destruct Heff as (v & Hv & Hk & Hn & Heq). rewrite Heq in Hx. apply elem_of_upsert in Hx as [->|]; [|eauto].
    destruct (passed c) as (id & Hid & _ & Hver & Hown); [done|by rewrite Ht|]. apply verdict_classify in Hver.
    rewrite Ht, Er, Classify_connection in Hver. unfold classifyConnection, decode in Hver. rewrite Hv in Hver. cbn in Hver.
    unfold forwards in Hf. destruct (cn_AgentForwarding v) as [fi|]; [|done]. destruct (cfg_Enabled fi) eqn:Ei; [|done]. injection Hf as <-.
    destruct (held !! id) as [e|] eqn:He; cbn in Hver; [|done]. destruct (Hown e eq_refl) as [Hte Hke].
    destruct (snapshotAll_origin nk _ _ id e Hsnap He) as (m & es & e0 & Hm & Hes & He0 & Hk0 & Hd0).
    rewrite Hte, Ht in Hm. injection Hm as <-.
    destruct (marshalAll_origin _ _ _ _ Hes e0 He0) as [?%not_elem_of_nil|(w & r0 & Hw & Er0 & ->)]; [done|]. cbn in Hk0, Hd0.
    apply list_elem_of_fmap in Hw as (x & -> & [Hxv Hx]%list_elem_of_filter).
    assert (cn_set_VaultID [] x = x) as Hxx by (destruct x; cbn in *; by subst). rewrite Hxx in *.
    rewrite Hd0 in Hver. cbn in Hver. unfold decode in Hver. rewrite (rb_connections _ Hread x Hx r0 Er0) in Hver. cbn in Hver.
    destruct (cn_AgentForwarding x) as [fl|] eqn:Efl; [|done]. destruct (cfg_Enabled fl) eqn:El; [|done]. cbn in Hver.
    destruct (forallb _ _) eqn:Hall in Hver; [|done]. exists x, (cfg_IdentityIDs fl). split_and!; [done|congruence|unfold forwards; by rewrite Efl, El|].
    intros y Hy. rewrite forallb_forall in Hall. apply list_elem_of_In in Hy. apply Hall in Hy. by bool_simpl.
  - intros d1 c r _ _ IH x' ids'. rewrite stamp_connections. case_bool_decide; [|apply IH].
    intros [?|(y & Hy & ->)]%elem_of_alter_first; [eauto|]. apply (IH y ids' Hy).
Qed.

(** *** Settings *)
Lemma settings_listed section s1 codec : IsSettingsType (SettingsType section) = Some section → SettingsType section ∈ settingsTypes →
  vd_Settings d = Some s1 → assoc section sectionCodecs = Some codec → ∃ id r, RecordID nk (SettingsType section) (bytes_of_string section) = Ok id ∧
  sec_encode codec s1 = Some r ∧
  held !! id = Some {| en_Type := SettingsType section; en_Key := bytes_of_string section; en_Data := Some r |}.
Proof.
  intros Hty Hin Hs Hc. destruct (snapshotAll_covers nk (project d personal) held (SettingsType section) (settingsMapper section))
    as (es & Hes & Hall); [done|rewrite elem_of_app; auto|unfold mapperFor; by rewrite Hty|].
  cbn [m_entries settingsMapper] in Hes. change (vd_Settings (project d personal)) with (vd_Settings d) in Hes.
  rewrite Hs, Hc in Hes. cbn [mbind option_bind] in Hes. destruct (sec_encode codec s1) as [r|]; [|done]. injection Hes as <-.
  destruct (Hall _ (list_elem_of_here _ _)) as (id & Hid & Hh). exists id, r. done.
Qed.
Lemma settings_absent section id : SettingsType section ∈ settingsTypes → IsSettingsType (SettingsType section) = Some section →
  vd_Settings d = None → (∀ e, held !! id = Some e → en_Type e = SettingsType section) → held !! id = None.
Proof.
  intros Hin Hty Hs Hown. destruct (held !! id) as [e|] eqn:He; [|done]. exfalso.
  destruct (snapshotAll_origin nk _ _ id e Hsnap He) as (m & es & e0 & Hm & Hes & He0 & _).
  rewrite (Hown e eq_refl) in Hm. unfold mapperFor in Hm. rewrite Hty in Hm. injection Hm as <-. cbn in Hes. rewrite Hs in Hes.
  injection Hes as <-. by apply not_elem_of_nil in He0.
Qed.
(** What a change of a section is compared with: the section as this device has it. *)
Lemma settings_compared section codec c id :
  IsSettingsType (SettingsType section) = Some section → SettingsType section ∈ settingsTypes → assoc section sectionCodecs = Some codec →
  en_Type c = SettingsType section → en_Key c = bytes_of_string section → RecordID nk (en_Type c) (en_Key c) = Ok id →
  (∀ e, held !! id = Some e → en_Type e = en_Type c ∧ en_Key e = en_Key c) →
  held !! id ≫= en_Data = match vd_Settings d with Some s1 => sec_encode codec s1 | None => None end ∧
  (∀ s1, vd_Settings d = Some s1 → is_Some (sec_encode codec s1)).
Proof.
  intros Hty Hin Hc Ht Hk Hid Hown. destruct (vd_Settings d) as [s1|] eqn:Hs.
  - destruct (settings_listed section s1 codec Hty Hin Hs Hc) as (id' & r & Hid' & Hr & Hh). rewrite Ht, Hk in Hid.
    assert (id' = id) as -> by congruence. rewrite Hh, Hr. split; [done|]. intros s2 [= <-]. by rewrite Hr.
  - rewrite (settings_absent section id Hin Hty Hs); [done|]. intros e He. destruct (Hown e He). congruence.
Qed.

Lemma lockout_kept : lockout_weaker (as_Lockout (settings_of d)) (as_Lockout (settings_of d')) = false.
Proof.
  apply (ApplyScope_ind (λ d1, lockout_weaker (as_Lockout (settings_of d)) (as_Lockout (settings_of d1)) = false) d personal cs d' Happly).
  - apply lockout_weaker_refl.
  - intros d1 c mu Hc Hs Hmu IH. destruct (prepare_settings c mu d1 Hmu) as [(section & r & Hsec & Er & Hk & Heq)|[_ Heq]].
    2: unfold settings_of in *; by rewrite Heq.
    unfold settings_of at 2. rewrite Heq. cbn. destruct (ApplySection (settings_of d1) section r) as [s'|] eqn:Ea; [|done]. cbn.
    apply ApplySection_lockout in Ea as [(-> & v & Hv & ->)|[_ ->]]; [|done]. apply settings_type in Hsec as Ht.
    destruct (passed c) as (id & Hid & _ & Hver & Hown); [done|by rewrite Ht|]. apply verdict_classify in Hver.
    destruct (settings_compared "lockout" (codec as_Lockout put_Lockout) c id eq_refl ltac:(apply (bool_decide_unpack _); vm_compute; exact I) eq_refl Ht Hk Hid Hown) as [Hloc Hsome].
    rewrite Hloc, Ht, Er, Classify_lockout in Hver. unfold classifyLockout in Hver.
    pose proof (rb_lockout _ Hread) as Hrb. unfold settings_of in *. destruct (vd_Settings d) as [s1|]; [|done].
    destruct (Hsome s1 eq_refl) as [r1 Hr1]. rewrite Hr1 in Hver. unfold decodeOrZero, decode in Hver. change (default NewSettings (Some s1)) with s1 in *.
    rewrite (Hrb r1 Hr1), Hv, !bind_ok_l in Hver. destruct (lockout_weaker (as_Lockout s1) v); done.
  - intros d1 c r _ _ IH. unfold settings_of in *. by rewrite (stamp_frame vd_Settings).
Qed.

Lemma plugins_kept : PluginTrustWeakened (as_Plugins (settings_of d)) (as_Plugins (settings_of d')) = false.
Proof.
  cut (PluginTrustWeakened (as_Plugins (settings_of d)) (as_Plugins (settings_of d')) = false ∧
    ps_AllowUnsandboxedFallback (as_Plugins (settings_of d')) = ps_AllowUnsandboxedFallback (as_Plugins (settings_of d))); [by intros []|].
  apply (ApplyScope_ind (λ d1, PluginTrustWeakened (as_Plugins (settings_of d)) (as_Plugins (settings_of d1)) = false ∧
    ps_AllowUnsandboxedFallback (as_Plugins (settings_of d1)) = ps_AllowUnsandboxedFallback (as_Plugins (settings_of d))) d personal cs d' Happly).
  - split; [apply PluginTrustWeakened_refl|done].
  - intros d1 c mu Hc Hs Hmu [IH Hfb]. destruct (prepare_settings c mu d1 Hmu) as [(section & r & Hsec & Er & Hk & Heq)|[_ Heq]].
    2: unfold settings_of in *; by rewrite Heq.
    unfold settings_of at 2 3. rewrite Heq. cbn. destruct (ApplySection (settings_of d1) section r) as [s'|] eqn:Ea; [|done]. cbn.
    apply ApplySection_plugins in Ea as [(-> & v & Hv & ->)|[_ ->]]; [|done]. split; [|done]. apply settings_type in Hsec as Ht.
    destruct (passed c) as (id & Hid & _ & Hver & Hown); [done|by rewrite Ht|]. apply verdict_classify in Hver.
    destruct (settings_compared "plugins" (codec pluginsOf applyPlugins) c id eq_refl ltac:(apply (bool_decide_unpack _); vm_compute; exact I) eq_refl Ht Hk Hid Hown) as [Hloc Hsome].
    rewrite Hloc, Ht, Er, Classify_plugins in Hver. unfold classifyPlugins in Hver.
    enough (PluginTrustWeakened (plugins_with (pluginsOf (settings_of d)) PluginSettings_zero) (plugins_with v PluginSettings_zero) = false) as Hw
      by by rewrite <- (PluginTrustWeakened_local _ v (as_Plugins (settings_of d1))).
    pose proof (rb_plugins _ Hread) as Hrb. unfold settings_of in *. unfold decodeOrZero, decode in Hver. destruct (vd_Settings d) as [s1|].
    + destruct (Hsome s1 eq_refl) as [r1 Hr1]. rewrite Hr1 in Hver. change (default NewSettings (Some s1)) with s1 in *.
      rewrite (Hrb r1 Hr1), Hv, !bind_ok_l in Hver. destruct (PluginTrustWeakened _ _) eqn:E in Hver; [done|exact E].
    + rewrite Hv, !bind_ok_l in Hver. destruct (PluginTrustWeakened _ _) eqn:E in Hver; [done|exact E].
  - intros d1 c r _ _ IH. unfold settings_of in *. by rewrite (stamp_frame vd_Settings).
Qed.
End batch.
End weakening.

(** *** A batch *)
Section theorem.
Context `{!RawJSON, !RecordJSON, !Crypto}.

(** The personal vault after any batch of incoming changes the rules let through without asking: no host
    loses its line or gains another, no peer another certificate, no key disappears or is opened to
    plugins or forwarding or made exportable, no connection forwards keys it did not, and neither the
    lockout nor the trust in plugins is loosened. The changes are judged against the vault as it is;
    conflict records, which the merge itself adds, are not judged. *)
Lemma changes_weaken_nothing (nk : bytes) (d d' : VaultData) (held : gmap ID Entry) (cs : list Entry) :
  SnapshotScope nk d personal = Ok held → readable d → ApplyScope d personal cs = Ok d' →
  (∀ c, c ∈ cs → en_Type c = TypeConflict ∨ passes nk held c) → no_weaker d d'.
Proof.
  intros Hsnap Hread Happly Hpass. constructor.
  - by eapply hosts_kept.
  - by eapply hosts_same.
  - by eapply peers_kept.
  - by eapply peers_same.
  - by eapply keys_guarded.
  - by eapply forwarding_kept.
  - by eapply lockout_kept.
  - by eapply plugins_kept.
Qed.
End theorem.
