(* ===== verification/TrustDemo.v ===== *)
(** * TrustDemo: a device's vault, small enough to evaluate

    An instance of the JSON codecs - texts are the values they stand for, so that decoding gives back what
    was encoded - and a vault with a known host, a trusted peer, a key, a connection and settings, to
    which the theorems on incoming changes are applied. *)

From S2P Require Import Prelude Bytes GoText SyncBase Sha2 Canon Envelope Merkle Head DeviceLog Retention Membership VaultState AgentForward Merge Version PluginPaths KnownHosts VaultData SyncTrust ClientStore Client TrustLaws Weakening.

(** A hash that is cheap and, unlike that of [demo_crypto], never starts with zeros: record ids are the first
    half of a digest. *)
#[export] Instance demo_hashes : Crypto := {|
  sha256 := λ m, default (array_zero 32) (to_array 32 (Byte.x01 :: zeros 11 ++ demo_digest m ++ zeros 12 ++ demo_digest (Byte.x00 :: m)));
  sha512 := demo_array 64;
  ed25519_verify := λ pk msg sig, sig =?? demo_sign pk msg |}.

(** ** Texts *)

Inductive text :=
  | Tfolder (v : ConnectionFolder)
  | Tconnection (v : Connection)
  | Tidentity (v : identityData)
  | Tpassword (v : passwordData)
  | Tsecret (v : pluginSecretData)
  | Thost (v : knownHostData)
  | Tpeer (v : PeerTrustEntry)
  | Tcontact (v : SyncContact)
  | Tteam (v : SyncTeam)
  | Tbinding (v : CredentialBinding)
  | Tplugin (v : SyncPlugin)
  | Tfile (v : SyncPluginFile)
  | Tlockout (v : LockoutSettings)
  | Tterminal (v : TerminalSettings)
  | Tappearance (v : appearanceSection)
  | Tping (v : PingSettings)
  | Ttransfer (v : TransferSettings)
  | Thotkeys (v : SessionHotkeysSettings)
  | Tlocal (v : localTerminalSection)
  | Ttools (v : TerminalToolsSettings)
  | Tplugins (v : pluginsSection)
  | Tembed (v : EmbedSettings)
  | Tupdates (v : UpdateSettings)
  | Treconnect (v : ReconnectSettings)
  | Tmeta (v : vaultMetaData)
  | Tconflict (id : bytes) (ty : string) (key : bytes) (path : list string) (local remote : option text) (at_ : Z) (vault : bytes)
  | Tbody (ty : string) (schema : Z) (data : text)
  | Tany (o : json).
#[export] Instance demo_raw : RawJSON := {| raw := text |}.

#[export] Instance demo_js_folder : GoJSON ConnectionFolder := {| decodeData := λ r, if r is Tfolder v then Some v else None; Marshal := λ v, Some (Tfolder v) |}.
#[export] Instance demo_js_connection : GoJSON Connection := {| decodeData := λ r, if r is Tconnection v then Some v else None; Marshal := λ v, Some (Tconnection v) |}.
#[export] Instance demo_js_identity : GoJSON identityData := {| decodeData := λ r, if r is Tidentity v then Some v else None; Marshal := λ v, Some (Tidentity v) |}.
#[export] Instance demo_js_password : GoJSON passwordData := {| decodeData := λ r, if r is Tpassword v then Some v else None; Marshal := λ v, Some (Tpassword v) |}.
#[export] Instance demo_js_secret : GoJSON pluginSecretData := {| decodeData := λ r, if r is Tsecret v then Some v else None; Marshal := λ v, Some (Tsecret v) |}.
#[export] Instance demo_js_host : GoJSON knownHostData := {| decodeData := λ r, if r is Thost v then Some v else None; Marshal := λ v, Some (Thost v) |}.
#[export] Instance demo_js_peer : GoJSON PeerTrustEntry := {| decodeData := λ r, if r is Tpeer v then Some v else None; Marshal := λ v, Some (Tpeer v) |}.
#[export] Instance demo_js_contact : GoJSON SyncContact := {| decodeData := λ r, if r is Tcontact v then Some v else None; Marshal := λ v, Some (Tcontact v) |}.
#[export] Instance demo_js_team : GoJSON SyncTeam := {| decodeData := λ r, if r is Tteam v then Some v else None; Marshal := λ v, Some (Tteam v) |}.
#[export] Instance demo_js_binding : GoJSON CredentialBinding := {| decodeData := λ r, if r is Tbinding v then Some v else None; Marshal := λ v, Some (Tbinding v) |}.
#[export] Instance demo_js_plugin : GoJSON SyncPlugin := {| decodeData := λ r, if r is Tplugin v then Some v else None; Marshal := λ v, Some (Tplugin v) |}.
#[export] Instance demo_js_file : GoJSON SyncPluginFile := {| decodeData := λ r, if r is Tfile v then Some v else None; Marshal := λ v, Some (Tfile v) |}.
#[export] Instance demo_js_lockout : GoJSON LockoutSettings := {| decodeData := λ r, if r is Tlockout v then Some v else None; Marshal := λ v, Some (Tlockout v) |}.
#[export] Instance demo_js_terminal : GoJSON TerminalSettings := {| decodeData := λ r, if r is Tterminal v then Some v else None; Marshal := λ v, Some (Tterminal v) |}.
#[export] Instance demo_js_appearance : GoJSON appearanceSection := {| decodeData := λ r, if r is Tappearance v then Some v else None; Marshal := λ v, Some (Tappearance v) |}.
#[export] Instance demo_js_ping : GoJSON PingSettings := {| decodeData := λ r, if r is Tping v then Some v else None; Marshal := λ v, Some (Tping v) |}.
#[export] Instance demo_js_transfer : GoJSON TransferSettings := {| decodeData := λ r, if r is Ttransfer v then Some v else None; Marshal := λ v, Some (Ttransfer v) |}.
#[export] Instance demo_js_hotkeys : GoJSON SessionHotkeysSettings := {| decodeData := λ r, if r is Thotkeys v then Some v else None; Marshal := λ v, Some (Thotkeys v) |}.
#[export] Instance demo_js_local : GoJSON localTerminalSection := {| decodeData := λ r, if r is Tlocal v then Some v else None; Marshal := λ v, Some (Tlocal v) |}.
#[export] Instance demo_js_tools : GoJSON TerminalToolsSettings := {| decodeData := λ r, if r is Ttools v then Some v else None; Marshal := λ v, Some (Ttools v) |}.
#[export] Instance demo_js_plugins : GoJSON pluginsSection := {| decodeData := λ r, if r is Tplugins v then Some v else None; Marshal := λ v, Some (Tplugins v) |}.
#[export] Instance demo_js_embed : GoJSON EmbedSettings := {| decodeData := λ r, if r is Tembed v then Some v else None; Marshal := λ v, Some (Tembed v) |}.
#[export] Instance demo_js_updates : GoJSON UpdateSettings := {| decodeData := λ r, if r is Tupdates v then Some v else None; Marshal := λ v, Some (Tupdates v) |}.
#[export] Instance demo_js_reconnect : GoJSON ReconnectSettings := {| decodeData := λ r, if r is Treconnect v then Some v else None; Marshal := λ v, Some (Treconnect v) |}.
#[export] Instance demo_js_meta : GoJSON vaultMetaData := {| decodeData := λ r, if r is Tmeta v then Some v else None; Marshal := λ v, Some (Tmeta v) |}.
#[export] Instance demo_js_conflict : GoJSON SyncConflict := {|
  decodeData := λ r, if r is Tconflict i t k p l m a v then Some {| sc_ID := i; sc_RecordType := t; sc_ItemKey := k; sc_Path := p; sc_Local := l;
    sc_Remote := m; sc_AtUnixMilli := a; sc_VaultID := v |} else None;
  Marshal := λ c, Some (Tconflict (sc_ID c) (sc_RecordType c) (sc_ItemKey c) (sc_Path c) (sc_Local c) (sc_Remote c) (sc_AtUnixMilli c)
    (sc_VaultID c)) |}.
#[export] Instance demo_js_body : GoJSON Body := {|
  decodeData := λ r, if r is Tbody t s x then Some {| bd_Type := t; bd_Schema := s; bd_Data := x |} else None;
  Marshal := λ b, Some (Tbody (bd_Type b) (bd_Schema b) (bd_Data b)) |}.
#[export] Instance demo_json : RecordJSON := {|
  decodeObject := λ r, match r with
    | Tany (JObject o) => Some o
    | Thost v => Some {["line"%string := JString (String.string_of_list_byte (kh_Line v))]}
    | _ => None end;
  marshal_any := λ v, Tany <$> v;
  raw_object := λ _, true;
  strconv_Quote := λ b, Byte.x22 :: b ++ [Byte.x22] |}.

(** ** A vault and a batch of changes *)

Definition demo_str := bytes_of_string.
Definition demo_naming : bytes := zeros 32.

Definition demo_line : bytes := demo_str "github.com ssh-ed25519 AAAA".
Definition demo_peer : PeerTrustEntry := {| pt_Scope := demo_str "vnc"; pt_Subject := demo_str "10.0.0.1"; pt_Material := demo_str "cert"; pt_AddedAt := 1 |}.
Definition demo_identity : SSHIdentity := {|
  si_ID := demo_str "k1"; si_VaultID := []; si_Comment := []; si_KeyType := []; si_Encrypted := false; si_Bits := 0; si_PublicKey := [];
  si_Fingerprint := []; si_Policy := []; si_Cache := []; si_CacheTTLSeconds := 0; si_AllowPlugins := false;
  si_AllowForwarding := true; si_NonExportable := true; si_MigrationPending := false; si_CreatedAt := 0; si_Source := [] |}.
Definition demo_conn (name : bytes) (fwd : list bytes) (vault : bytes) : Connection := {|
  cn_ID := demo_str "c1"; cn_FolderID := []; cn_Name := name; cn_Host := demo_str "host"; cn_Port := 22; cn_Order := 0; cn_Protocol := []; cn_Users := [];
  cn_DefaultUserID := []; cn_Tags := []; cn_Hops := []; cn_ForwardRules := []; cn_PluginFields := ∅;
  cn_AgentForwarding := Some {| cfg_Enabled := true; cfg_IdentityIDs := fwd; cfg_Confirm := ConfirmEach; cfg_WindowMinutes := 0 |};
  cn_VaultID := vault |}.
Definition demo_vault_data : VaultData := {|
  vd_Version := 5; vd_Folders := []; vd_Connections := [demo_conn (demo_str "old") [demo_str "k1"] []]; vd_Identities := {[demo_str "k1" := demo_identity]};
  vd_KeyBlobs := ∅; vd_KnownHosts := [demo_line]; vd_Passwords := ∅; vd_PluginSecrets := ∅; vd_PeerTrust := [demo_peer];
  vd_Settings := Some NewSettings; vd_Sync := None |}.

(** A rename, another host's line and a stricter lockout. *)
Definition demo_changes : list Entry :=
  [{| en_Type := TypeConnection; en_Key := demo_str "c1"; en_Data := Some (Tconnection (demo_conn (demo_str "new") [demo_str "k1"] [])) |};
   {| en_Type := TypeKnownHost; en_Key := demo_str "example.org ssh-rsa"; en_Data := Some (Thost {| kh_Line := demo_str "example.org ssh-rsa BBBB" |}) |};
   {| en_Type := SettingsType "lockout"; en_Key := demo_str "lockout";
      en_Data := Some (Tlockout {| lo_Enabled := true; lo_IdleTimeout := Minute; lo_LockOnMinimize := true |}) |}].

Definition demo_held : gmap ID Entry := of_ok ∅ (SnapshotScope demo_naming demo_vault_data personal).
Definition demo_after : VaultData := of_ok demo_vault_data (ApplyScope demo_vault_data personal demo_changes).

Lemma demo_readable : readable demo_vault_data.
Proof.
  constructor.
  - intros l _ r [= <-]. done.
  - intros e _ r [= <-]. done.
  - intros k i Hi. cbn [vd_Identities demo_vault_data] in Hi. apply lookup_singleton_Some in Hi as [<- <-]. split; [done|]. intros r [= <-]. done.
  - intros x _ r [= <-]. done.
  - intros r [= <-]. done.
  - intros r [= <-]. done.
Qed.
Definition demo_record_id (c : Entry) : ID := of_ok ID_zero (RecordID demo_naming (en_Type c) (en_Key c)).
Lemma demo_passes c : c ∈ demo_changes → passes demo_naming demo_held c.
Proof.
  unfold demo_changes. rewrite !elem_of_cons, elem_of_nil. intros Hc. exists (demo_record_id c).
  destruct Hc as [->|[->|[->|[]]]]; (split; [vm_compute; reflexivity|split; [done|split; [vm_compute; reflexivity|]]]);
    (intros e He; vm_compute in He; first [discriminate He | injection He as <-; done]).
Qed.

Lemma changes_weaken_nothing_witness : no_weaker demo_vault_data demo_after.
Proof.
  apply (changes_weaken_nothing demo_naming demo_vault_data demo_after demo_held demo_changes).
  - unfold demo_held. apply of_ok_eq. vm_compute. reflexivity.
  - exact demo_readable.
  - unfold demo_after. apply of_ok_eq. vm_compute. reflexivity.
  - intros c Hc. right. by apply demo_passes.
Defined.
