(* ===== verification/Scopes.v ===== *)
(** * Scopes: one vault's changes stay in that vault

    [internal/domain/synctrust/scope.go]: the items of every vault an account can read lie in one [VaultData],
    each marked with its vault. A batch applied for one vault changes nothing of another: its items, and -
    for the personal vault - the known hosts, the settings and the rest of what no team holds. *)

From S2P Require Import Prelude Bytes GoText SyncBase Canon AgentForward Merge Version PluginPaths KnownHosts VaultData SyncTrust ClientStore Client TrustLaws Weakening TrustDemo.

(** ** Items kept in a list *)

Section items.
Context `{!RawJSON, !RecordJSON, !Crypto} {T : Type} `{!GoJSON T} (keyOf vaultOf : T → bytes) (setVault : bytes → T → T).
Context (set_key : ∀ v x, keyOf (setVault v x) = keyOf x) (set_vault : ∀ v x, vaultOf (setVault v x) = v).
Implicit Types (l : list T) (K : list bytes).

Abbreviation at_key k := (λ x, keyOf x =?? k).

Lemma filter_upsert K k v l : k ∈ K → keyOf v = k → filter (λ x, keyOf x ∉ K) (upsert_item (at_key k) v l) = filter (λ x, keyOf x ∉ K) l.
Proof.
  intros Hk Hv. induction l as [|x l IH]; cbn [upsert_item].
  - rewrite filter_cons_False by (rewrite Hv; auto). done.
  - case_bool_decide as Hx.
    + rewrite !filter_cons_False; [done|rewrite Hx; auto|rewrite Hv; auto].
    + rewrite !filter_cons, IH. done.
Qed.
Lemma filter_delete K k l : k ∈ K → filter (λ x, keyOf x ∉ K) (delete_items (at_key k) l) = filter (λ x, keyOf x ∉ K) l.
Proof.
  intros Hk. unfold delete_items. induction l as [|x l IH]; [done|]. rewrite (filter_cons _ x l). case_decide as Hx.
  - rewrite !filter_cons, IH. done.
  - bool_simpl. rewrite filter_cons_False; [done|]. apply not_false_iff_true in Hx. bool_simpl. rewrite Hx. auto.
Qed.
Lemma alter_keys k v l : keyOf <$> alter_first (at_key k) (setVault v) l = keyOf <$> l.
Proof. induction l as [|x l IH]; cbn; [done|]. case_bool_decide; cbn; rewrite ?set_key, ?IH; done. Qed.
Lemma filter_alter K k v l : k ∈ K → filter (λ x, keyOf x ∉ K) (alter_first (at_key k) (setVault v) l) = filter (λ x, keyOf x ∉ K) l.
Proof.
  intros Hk. induction l as [|x l IH]; cbn [alter_first]; [done|]. case_bool_decide as Hx; rewrite !filter_cons, ?IH; [|done].
  rewrite !decide_False; [done|rewrite Hx; auto|rewrite set_key, Hx; auto].
Qed.
Lemma NoDup_upsert k v l : keyOf v = k → NoDup (keyOf <$> l) → NoDup (keyOf <$> upsert_item (at_key k) v l).
Proof.
  intros Hv. induction l as [|x l IH]; cbn; intros Hd; [apply NoDup_singleton|]. apply NoDup_cons in Hd as [Hx Hd].
  case_bool_decide as Hk; cbn; apply NoDup_cons; [split; [congruence|done]|]. split; [|auto].
  rewrite list_elem_of_fmap. intros (y & Hy & [->|Hin]%elem_of_upsert); [congruence|]. apply Hx. rewrite Hy. by apply list_elem_of_fmap_2.
Qed.
Lemma NoDup_delete k l : NoDup (keyOf <$> l) → NoDup (keyOf <$> delete_items (at_key k) l).
Proof.
  unfold delete_items. induction l as [|x l IH]; [done|]. rewrite fmap_cons, filter_cons. intros [Hx Hd]%NoDup_cons. case_decide; [|auto].
  rewrite fmap_cons. apply NoDup_cons. split; [|auto]. rewrite list_elem_of_fmap. intros (y & Hy & [_ Hin]%list_elem_of_filter).
  apply Hx. rewrite Hy. by apply list_elem_of_fmap_2.
Qed.
(** The only item with the key carries the mark. *)
Lemma alter_marks k v l x :
  NoDup (keyOf <$> l) → x ∈ alter_first (at_key k) (setVault v) l → (keyOf x = k ∧ vaultOf x = v) ∨ (keyOf x ≠ k ∧ x ∈ l).
Proof.
  induction l as [|y l IH]; cbn; [by intros _ ?%not_elem_of_nil|]. intros [Hy Hd]%NoDup_cons. case_bool_decide as Hk; rewrite elem_of_cons.
  - intros [->|Hx]; [left; by rewrite set_key, set_vault|]. right. split; [|by right]. intros Hkx. apply Hy.
    rewrite Hk, <- Hkx. by apply list_elem_of_fmap_2.
  - intros [->|Hx]; [right; split; [done|by left]|]. destruct (IH Hd Hx) as [?|[? ?]]; [auto|right; split; [done|by right]].
Qed.

(** The items of [t] are the list [get]; changes and marks act on it as on such a list. *)
Context (get : VaultData → list T) (t : RecordType).
Context (prepare_get : ∀ c mu d, prepare c = Ok mu →
  (en_Type c = t ∧ list_effect keyOf c (get d) (get (mu d))) ∨ (en_Type c ≠ t ∧ get (mu d) = get d)).
Context (stamp_get : ∀ ty key v d, get (stamp ty key v d) = if ty =?? t then alter_first (at_key key) (setVault v) (get d) else get d).
Context (owner_get : ∀ d key, ownerOf d t key = (λ p, vaultOf p.2) <$> list_find (λ x, keyOf x = key) (get d)).

Definition touched (cs : list Entry) : list bytes := en_Key <$> filter (λ c, en_Type c = t) cs.
Lemma touched_spec cs c : c ∈ cs → en_Type c = t → en_Key c ∈ touched cs.
Proof. intros Hc Ht. apply list_elem_of_fmap_2, list_elem_of_filter. auto. Qed.

Lemma stamps_untouched v K cs d : (∀ c, c ∈ cs → en_Type c = t → en_Key c ∈ K) →
  filter (λ x, keyOf x ∉ K) (get (foldl (stamp_entry v) d cs)) = filter (λ x, keyOf x ∉ K) (get d).
Proof.
  revert d. induction cs as [|c cs IH]; intros d HK; [done|]. cbn. rewrite IH by (intros x Hx; apply HK; by right).
  unfold stamp_entry. destruct (en_Data c); [|done]. rewrite stamp_get. case_bool_decide; [|done].
  apply filter_alter, HK; [by left|done].
Qed.
Lemma stamps_mark v K cs d :
  NoDup (keyOf <$> get d) →
  (∀ x, x ∈ get d → keyOf x ∈ K → vaultOf x = v ∨ ∃ c, c ∈ cs ∧ en_Type c = t ∧ is_Some (en_Data c) ∧ en_Key c = keyOf x) →
  ∀ x, x ∈ get (foldl (stamp_entry v) d cs) → keyOf x ∈ K → vaultOf x = v.
Proof.
  revert d. induction cs as [|c cs IH]; intros d Hd Hm.
  - intros x Hx HK. destruct (Hm x Hx HK) as [|(c & ?%not_elem_of_nil & _)]; done.
  - cbn. apply IH; unfold stamp_entry; destruct (en_Data c) as [r|] eqn:Er; rewrite ?stamp_get; [case_bool_decide| |case_bool_decide|];
      try (by rewrite ?alter_keys); intros x Hx HK.
    + destruct (alter_marks _ _ _ _ Hd Hx) as [[_ ?]|[Hne Hin]]; [auto|]. destruct (Hm x Hin HK) as [|(c' & Hc' & ? & ? & ?)]; [auto|].
      apply elem_of_cons in Hc' as [->|]; [congruence|eauto 10].
    + destruct (Hm x Hx HK) as [|(c' & Hc' & ? & ? & ?)]; [auto|]. apply elem_of_cons in Hc' as [->|]; [congruence|eauto 10].
    + destruct (Hm x Hx HK) as [|(c' & Hc' & ? & Hs & ?)]; [auto|]. apply elem_of_cons in Hc' as [->|]; [rewrite Er in Hs; by destruct Hs|eauto 10].
Qed.

Lemma filter_vault K l v w : (∀ x, x ∈ l → keyOf x ∈ K → vaultOf x = v) → w ≠ v →
  filter (λ x, vaultOf x = w) l = filter (λ x, vaultOf x = w) (filter (λ x, keyOf x ∉ K) l).
Proof.
  intros HK Hw. induction l as [|x l IH]; [done|]. rewrite (filter_cons (λ x, keyOf x ∉ K)). case_decide as Hx.
  - rewrite !filter_cons, IH by (intros; apply HK; [by right|done]). done.
  - rewrite filter_cons_False; [apply IH; intros; apply HK; [by right|done]|].
    rewrite (HK x); [congruence|by left|done].
Qed.

Lemma items_isolated d s cs d' w :
  ApplyScope d s cs = Ok d' → NoDup (keyOf <$> get d) → w ≠ sco_Vault s →
  filter (λ x, vaultOf x = w) (get d') = filter (λ x, vaultOf x = w) (get d).
Proof.
  intros (d1 & -> & Hchk & Hind)%ApplyScope_phases Hd Hw. set (ks := kept_changes s cs) in *. set (K := touched ks).
  assert (∀ x, x ∈ get d → keyOf x ∈ K → vaultOf x = sco_Vault s) as Hown.
  { intros x Hx HK. apply list_elem_of_fmap in HK as (c & Hk & [Ht Hc]%list_elem_of_filter).
    apply (scope_check_owner d s c); [by apply Hchk|]. rewrite Ht, owner_get, <- Hk.
    destruct (list_find_elem_of (λ y, keyOf y = keyOf x) (get d) x Hx eq_refl) as [[i y] Hf]. rewrite Hf. cbn. do 2 f_equal.
    apply list_find_Some in Hf as (Hi & Hy & _). apply list_elem_of_lookup in Hx as [j Hj].
    assert (i = j) as -> by (apply (NoDup_lookup (keyOf <$> get d) i j (keyOf x)); [done|rewrite list_lookup_fmap, Hi; cbn; by rewrite Hy|
      by rewrite list_lookup_fmap, Hj]). congruence. }
  assert (filter (λ x, keyOf x ∉ K) (get d1) = filter (λ x, keyOf x ∉ K) (get d)) as Hsame.
  { apply (Hind (λ d2, filter (λ x, keyOf x ∉ K) (get d2) = filter (λ x, keyOf x ∉ K) (get d))); [done|]. intros d2 c mu Hc Hmu <-.
    destruct (prepare_get c mu d2 Hmu) as [[Ht Heff]|[_ ->]]; [|done]. pose proof (touched_spec ks c Hc Ht) as Hk.
    unfold list_effect in Heff. destruct (en_Data c); [destruct Heff as (v & _ & Hkv & _ & ->)|rewrite Heff].
    - by apply filter_upsert.
    - by apply filter_delete. }
  assert (NoDup (keyOf <$> get d1) ∧ ∀ x, x ∈ get d1 → keyOf x ∈ K →
    vaultOf x = sco_Vault s ∨ ∃ c, c ∈ ks ∧ en_Type c = t ∧ is_Some (en_Data c) ∧ en_Key c = keyOf x) as [Hd1 Hm].
  { apply Hind; [auto|]. intros d2 c mu Hc Hmu [HN Hm]. destruct (prepare_get c mu d2 Hmu) as [[Ht Heff]|[_ ->]]; [|done].
    unfold list_effect in Heff. destruct (en_Data c) as [r|] eqn:Er; [destruct Heff as (v & _ & Hkv & _ & ->)|rewrite Heff].
    - split; [by apply NoDup_upsert|]. intros x [->|Hx]%elem_of_upsert HK; [|auto]. right. exists c. rewrite Er. eauto 10.
    - split; [by apply NoDup_delete|]. intros x [_ Hx]%list_elem_of_filter HK. auto. }
  rewrite (filter_vault K (get d) (sco_Vault s) w Hown Hw).
  rewrite (filter_vault K _ (sco_Vault s) w (stamps_mark _ K ks d1 Hd1 Hm) Hw). f_equal.
  rewrite stamps_untouched; [done|]. intros c Hc Ht. by apply touched_spec.
Qed.
End items.

(** ** Items kept in a map *)

Section keyed.
Context `{!RawJSON, !RecordJSON, !Crypto} {T : Type} (vaultOf : T → bytes) (setVault : bytes → T → T) (zero : T).
Context (set_vault : ∀ v x, vaultOf (setVault v x) = v).
Context (get : VaultData → gmap bytes T) (t : RecordType).
Context (prepare_get : ∀ c mu d, prepare c = Ok mu →
  (en_Type c = t ∧ map_effect c (get d) (get (mu d))) ∨ (en_Type c ≠ t ∧ get (mu d) = get d)).
Context (stamp_get : ∀ ty key v d,
  get (stamp ty key v d) = if ty =?? t then <[key := setVault v (default zero (get d !! key))]> (get d) else get d).
Context (owner_get : ∀ d key, ownerOf d t key = vaultOf <$> get d !! key).

Lemma keyed_stamps v (K : list bytes) cs d :
  (∀ k x, get d !! k = Some x → k ∈ K → vaultOf x = v ∨ ∃ c, c ∈ cs ∧ en_Type c = t ∧ is_Some (en_Data c) ∧ en_Key c = k) →
  (∀ c, c ∈ cs → en_Type c = t → en_Key c ∈ K) →
  let d' := foldl (stamp_entry v) d cs in
  (∀ k, k ∉ K → get d' !! k = get d !! k) ∧ (∀ k x, get d' !! k = Some x → k ∈ K → vaultOf x = v).
Proof.
  revert d. induction cs as [|c cs IH]; intros d Hm HK; cbn.
  - split; [done|]. intros k x Hx Hk. destruct (Hm k x Hx Hk) as [|(c & ?%not_elem_of_nil & _)]; done.
  - destruct (IH (stamp_entry v d c)) as [Hsame Hmark].
    + intros k x. unfold stamp_entry. destruct (en_Data c) as [r|] eqn:Er; rewrite ?stamp_get; [case_bool_decide|].
      * intros [[<- <-]|[Hne Hx]]%lookup_insert_Some Hk; [left; apply set_vault|].
        destruct (Hm k x Hx Hk) as [|(c' & Hc' & ? & ? & ?)]; [auto|]. apply elem_of_cons in Hc' as [->|]; [congruence|eauto 10].
      * intros Hx Hk. destruct (Hm k x Hx Hk) as [|(c' & Hc' & ? & ? & ?)]; [auto|]. apply elem_of_cons in Hc' as [->|]; [congruence|eauto 10].
      * intros Hx Hk. destruct (Hm k x Hx Hk) as [|(c' & Hc' & ? & Hs & ?)]; [auto|].
        apply elem_of_cons in Hc' as [->|]; [rewrite Er in Hs; by destruct Hs|eauto 10].
    + intros c' Hc'. apply HK. by right.
    + split; [|done]. intros k Hk. rewrite Hsame by done. unfold stamp_entry. destruct (en_Data c); [|done]. rewrite stamp_get.
      case_bool_decide; [|done]. rewrite lookup_insert_ne; [done|]. intros <-. by apply Hk, HK; [left|].
Qed.

Lemma keyed_isolated d s cs d' : ApplyScope d s cs = Ok d' →
  let K := touched t (kept_changes s cs) in
  (∀ k, k ∉ K → get d' !! k = get d !! k) ∧ (∀ k x, get d' !! k = Some x → k ∈ K → vaultOf x = sco_Vault s) ∧
  (∀ k x, get d !! k = Some x → k ∈ K → vaultOf x = sco_Vault s).
Proof.
  intros (d1 & -> & Hchk & Hind)%ApplyScope_phases K. set (ks := kept_changes s cs) in *.
  assert (∀ k x, get d !! k = Some x → k ∈ K → vaultOf x = sco_Vault s) as Hown.
  { intros k x Hx HK. apply list_elem_of_fmap in HK as (c & -> & [Ht Hc]%list_elem_of_filter).
    apply (scope_check_owner d s c); [by apply Hchk|]. by rewrite Ht, owner_get, Hx. }
  assert ((∀ k, k ∉ K → get d1 !! k = get d !! k) ∧ ∀ k x, get d1 !! k = Some x → k ∈ K →
    vaultOf x = sco_Vault s ∨ ∃ c, c ∈ ks ∧ en_Type c = t ∧ is_Some (en_Data c) ∧ en_Key c = k) as [Hsame1 Hm].
  { apply Hind; [eauto|]. intros d2 c mu Hc Hmu [HN Hm]. destruct (prepare_get c mu d2 Hmu) as [[Ht [Hdel Heff]]|[_ ->]]; [|done].
    pose proof (touched_spec t ks c Hc Ht) as Hk. split.
    - intros k Hnk. rewrite Heff; [auto|]. intros ->. done.
    - intros k x Hx HK. destruct (decide (k = en_Key c)) as [->|Hne]; [|rewrite Heff in Hx by done; auto].
      destruct (en_Data c) as [r|] eqn:Er; [|by rewrite Hdel in Hx]. right. exists c. rewrite Er. eauto 10. }
  destruct (keyed_stamps (sco_Vault s) K ks d1 Hm) as [Hsame Hmark]; [intros; by apply touched_spec|].
  split_and!; [|done|done]. intros k Hk. rewrite Hsame by done. auto.
Qed.
Lemma keyed_filter d s cs d' w : ApplyScope d s cs = Ok d' → w ≠ sco_Vault s →
  filter (λ p : bytes * T, vaultOf p.2 = w) (get d') = filter (λ p : bytes * T, vaultOf p.2 = w) (get d).
Proof.
  intros Ha Hw. destruct (keyed_isolated d s cs d' Ha) as (Hsame & Hm' & Hm). apply map_eq. intros k. apply option_eq. intros x.
  rewrite !map_lookup_filter_Some. cbn. destruct (decide (k ∈ touched t (kept_changes s cs))) as [HK|HK]; [|by rewrite Hsame].
  split; intros [Hx Hv]; exfalso; apply Hw; rewrite <- Hv; eauto.
Qed.
End keyed.

(** ** A vault's share of the data *)

Section isolation.
Context `{!RawJSON, !RecordJSON, !Crypto}.
Implicit Types (d : VaultData) (s : Scope).

Lemma identities_effect c mu d : prepare c = Ok mu →
  (en_Type c = TypeIdentity ∧ map_effect c (vd_Identities d) (vd_Identities (mu d))) ∨
  (en_Type c ≠ TypeIdentity ∧ vd_Identities (mu d) = vd_Identities d).
Proof.
  intros Hp. destruct (prepare_identities c mu d Hp) as [[Ht Heff]|?]; [left; split; [done|]|by right].
  unfold map_effect. destruct (en_Data c); [destruct Heff as (v & _ & _ & ->)|rewrite Heff]; split; intros; try done.
  - by rewrite lookup_insert_ne.
  - apply lookup_delete_eq.
  - by rewrite lookup_delete_ne.
Qed.

(** Key material of another vault's keys. *)
Lemma stamp_blobs t key v d : vd_KeyBlobs (stamp t key v d) = vd_KeyBlobs d.
Proof. unfold stamp. repeat case_bool_decide; try done. case_match; done. Qed.
Lemma blobs_isolated d s cs d' k : ApplyScope d s cs = Ok d' → k ∉ touched TypeIdentity (kept_changes s cs) →
  vd_KeyBlobs d' !! k = vd_KeyBlobs d !! k.
Proof.
  intros (d1 & -> & _ & Hind)%ApplyScope_phases Hk. etrans.
  - apply (f_equal (.!! k)). instantiate (1 := vd_KeyBlobs d1). clear Hind Hk. generalize (kept_changes s cs) as l. intros l. revert d1.
    induction l as [|c l IH]; intros d1; [done|]. cbn. rewrite IH. unfold stamp_entry. destruct (en_Data c); [apply stamp_blobs|done].
  - apply (Hind (λ d2, vd_KeyBlobs d2 !! k = vd_KeyBlobs d !! k)); [done|]. intros d2 c mu Hc Hmu <-.
    eapply prepare_blobs; [done|]. destruct (decide (en_Type c = TypeIdentity)) as [Ht|]; [|auto]. right. intros ->.
    by apply Hk, touched_spec.
Qed.

(** What no team holds stays as it is when a team's changes land. *)
Lemma team_frame {A} (π : VaultData → A) d s cs d' :
  (∀ l d, π (set_Folders l d) = π d) → (∀ l d, π (set_Connections l d) = π d) → (∀ l b d, π (set_Identities l b d) = π d) →
  (∀ l d, π (set_Passwords l d) = π d) → (∀ l d, π (set_Conflicts l d) = π d) →
  ApplyScope d s cs = Ok d' → sco_Vault s ≠ [] → π d' = π d.
Proof.
  intros Hf Hc Hi Hpw Hcf Ha Hs. apply (ApplyScope_ind (λ d1, π d1 = π d) d s cs d' Ha); [done|..].
  - intros d1 c mu Hin Hsec Hmu <-. eapply prepare_team_frame; [done..| |done].
    pose proof (ApplyScope_checked d s cs d' c Ha Hin Hsec) as Hchk. unfold scope_check in Hchk. apply fail_if_Ok in Hchk as [Hal _].
    destruct Hsec as [?|Hsec]; [done|]. unfold Allows in Hal. bool_simpl. rewrite (bool_decide_eq_false_2 (sco_Vault s = [])) in Hal by done.
    cbn in Hal. bool_simpl. unfold teamTypes in Hal. rewrite !elem_of_cons, elem_of_nil in *. naive_solver.
  - intros d1 c r _ _ <-. by apply stamp_frame.
Qed.

(** A vault's share, conflict records apart: see [project]. *)
Definition share (w : bytes) d : VaultData := set_Conflicts [] (project d {| sco_Vault := w |}).

(** What a share is made of. *)
Definition own_part {A} (w : bytes) (x zero : A) : A := if w =?? [] then x else zero.
Lemma share_sync w d : vd_Sync (share w d) = Some (vy_with [] (own_part w (vy_Contacts (sync_of d)) []) (own_part w (vy_Bindings (sync_of d)) [])
  (own_part w (vy_Teams (sync_of d)) []) (own_part w (vy_Plugins (sync_of d)) []) (own_part w (vy_PluginFiles (sync_of d)) []) VaultSync_zero).
Proof. unfold share, own_part, sync_of. cbn. destruct (vd_Sync d), (w =?? []); done. Qed.
Lemma share_items d d' w :
  vd_Version d' = vd_Version d →
  filter (λ f, fo_VaultID f = w) (vd_Folders d') = filter (λ f, fo_VaultID f = w) (vd_Folders d) →
  filter (λ x, cn_VaultID x = w) (vd_Connections d') = filter (λ x, cn_VaultID x = w) (vd_Connections d) →
  filter (λ p : bytes * SSHIdentity, si_VaultID p.2 = w) (vd_Identities d') = filter (λ p, si_VaultID p.2 = w) (vd_Identities d) →
  vd_KeyBlobs (project d' {| sco_Vault := w |}) = vd_KeyBlobs (project d {| sco_Vault := w |}) →
  filter (λ p : bytes * PasswordBlob, pb_VaultID p.2 = w) (vd_Passwords d') = filter (λ p, pb_VaultID p.2 = w) (vd_Passwords d) →
  own_part w (vd_KnownHosts d') [] = own_part w (vd_KnownHosts d) [] →
  own_part w (vd_PluginSecrets d') ∅ = own_part w (vd_PluginSecrets d) ∅ →
  own_part w (vd_PeerTrust d') [] = own_part w (vd_PeerTrust d) [] →
  own_part w (vd_Settings d') None = own_part w (vd_Settings d) None →
  vd_Sync (share w d') = vd_Sync (share w d) → share w d' = share w d.
Proof.
  intros Hv Hf Hc Hi Hb Hp Hk Hs Ht Hse Hy. unfold share, set_Conflicts, set_Sync in *. cbn [vd_Sync] in Hy. f_equal; [..|exact Hy]; cbn in *.
  - exact Hv.
  - by f_equal.
  - by f_equal.
  - by f_equal.
  - exact Hb.
  - exact Hk.
  - by f_equal.
  - exact Hs.
  - exact Ht.
  - exact Hse.
Qed.

(** C5. Every vault's changes stay in that vault: a batch applied for one vault leaves every other vault's share of
    the data exactly as it was - folders, connections, keys with their key material, and passwords; and for
    the personal vault also the known hosts, trusted peers, settings, contacts, bindings, teams and plugins. The ids
    of folders and of connections are unique, as the vault keeps them. Conflict records are the exception. *)
Theorem scope_isolation (d d' : VaultData) (s : Scope) (cs : list Entry) (w : bytes) :
  ApplyScope d s cs = Ok d' → w ≠ sco_Vault s → NoDup (fo_ID <$> vd_Folders d) → NoDup (cn_ID <$> vd_Connections d) →
  share w d' = share w d.
Proof.
  intros Ha Hw Hnf Hnc.
  pose proof (keyed_isolated si_VaultID si_set_VaultID SSHIdentity_zero ltac:(done) vd_Identities TypeIdentity identities_effect
    stamp_identities ownerOf_identity d s cs d' Ha) as (Hki & Hkm' & Hkm).
  assert (∀ {A} (π : VaultData → A) zero, (∀ l d, π (set_Folders l d) = π d) → (∀ l d, π (set_Connections l d) = π d) →
    (∀ l b d, π (set_Identities l b d) = π d) → (∀ l d, π (set_Passwords l d) = π d) → (∀ l d, π (set_Conflicts l d) = π d) →
    own_part w (π d') zero = own_part w (π d) zero) as Hown.
  { intros A π zero Hf Hc Hi Hp Hcf. unfold own_part. case_bool_decide as Hw0; [|done]. eapply team_frame; eauto. congruence. }
  assert (filter (λ p : bytes * SSHIdentity, si_VaultID p.2 = w) (vd_Identities d') = filter (λ p, si_VaultID p.2 = w) (vd_Identities d)) as Hid.
  { eapply (keyed_filter si_VaultID si_set_VaultID SSHIdentity_zero ltac:(done) vd_Identities TypeIdentity identities_effect
      stamp_identities ownerOf_identity); eauto. }
  apply share_items; [|eapply (items_isolated fo_ID fo_VaultID fo_set_VaultID ltac:(done) ltac:(done) vd_Folders TypeFolder
      prepare_folders stamp_folders ownerOf_folder); eauto
    |eapply (items_isolated cn_ID cn_VaultID cn_set_VaultID ltac:(done) ltac:(done) vd_Connections TypeConnection
      prepare_connections stamp_connections ownerOf_connection); eauto
    |exact Hid| |eapply (keyed_filter pb_VaultID pb_set_VaultID PasswordBlob_zero ltac:(done) vd_Passwords TypePassword prepare_passwords
      stamp_passwords ownerOf_password); eauto|by apply (Hown _ vd_KnownHosts)|by apply (Hown _ vd_PluginSecrets)
    |by apply (Hown _ vd_PeerTrust)|by apply (Hown _ vd_Settings)|].
  - apply (ApplyScope_ind (λ d1, vd_Version d1 = vd_Version d) d s cs d' Ha); [done|..].
    + intros d1 c mu _ _ Hmu <-. by apply (prepare_version c).
    + intros d1 c r _ _ <-. by apply (stamp_frame vd_Version).
  - cbn. rewrite Hid. apply map_eq. intros k. apply option_eq. intros b. rewrite !map_lookup_filter_Some. cbn.
    destruct (decide (k ∈ touched TypeIdentity (kept_changes s cs))) as [HK|HK]; [|by rewrite (blobs_isolated d s cs d')].
    split; intros [_ [i [Hi Hv]%map_lookup_filter_Some]]; exfalso; apply Hw; rewrite <- Hv; eauto.
  - rewrite !share_sync. f_equal. f_equal; by apply (Hown _ (λ d, _ (sync_of d))).
Qed.
End isolation.

(** A team's connection that claims to be personal. *)
Definition demo_team : Scope := {| sco_Vault := demo_str "t1" |}.
Definition demo_team_changes : list Entry :=
  [{| en_Type := TypeConnection; en_Key := demo_str "c2";
      en_Data := Some (Tconnection {| cn_ID := demo_str "c2"; cn_FolderID := []; cn_Name := []; cn_Host := demo_str "host"; cn_Port := 22; cn_Order := 0;
        cn_Protocol := []; cn_Users := []; cn_DefaultUserID := []; cn_Tags := []; cn_Hops := []; cn_ForwardRules := []; cn_PluginFields := ∅;
        cn_AgentForwarding := None; cn_VaultID := [] |}) |};
   {| en_Type := TypePassword; en_Key := demo_str "p1"; en_Data := Some (Tpassword {| pwd_ID := demo_str "p1"; pwd_Label := []; pwd_Value := demo_str "x" |}) |}].
Definition demo_team_after : VaultData := of_ok demo_vault_data (ApplyScope demo_vault_data demo_team demo_team_changes).

Lemma scope_isolation_witness : share [] demo_team_after = share [] demo_vault_data.
Proof.
  apply (scope_isolation demo_vault_data demo_team_after demo_team demo_team_changes []).
  - unfold demo_team_after. apply of_ok_eq. vm_compute. reflexivity.
  - done.
  - apply (bool_decide_unpack _). vm_compute. exact I.
  - apply (bool_decide_unpack _). vm_compute. exact I.
Defined.
