(* ===== verification/Credentials.v ===== *)
(** * Credentials: whose key or password a connection gets

    [internal/domain/credential_binding.go] with [internal/domain/synctrust/binding.go] and [noteRepointing] of
    [internal/usecase/sync_interpret.go]: a team's connection is used with a credential of its own vault, or with
    one of this member's through a binding, which ends its service when somebody else moves the connection. *)

From S2P Require Import Prelude Bytes GoText SyncBase Sha2 Canon Envelope Merkle Head DeviceLog Retention Membership VaultState AgentForward Merge Version PluginPaths KnownHosts VaultData SyncTrust ClientStore Client TrustLaws Weakening TrustDemo Scopes.

(** ** Bindings and their keys *)

Section bindings.
Context `{!RawJSON, !RecordJSON, !Crypto}.
Implicit Types (d : VaultData) (b : CredentialBinding).

Definition slash_byte : byte := Byte.x2f.

Lemma app_sep_inj (sep : byte) (x y x' y' : bytes) : sep ∉ x → sep ∉ x' → x ++ sep :: y = x' ++ sep :: y' → x = x' ∧ y = y'.
Proof.
  revert x'. induction x as [|c x IH]; intros [|c' x']; cbn; rewrite ?not_elem_of_cons.
  - intros _ _ [= ->]. done.
  - intros _ [Hc _] [= <- _]. done.
  - intros [Hc _] _ [= -> _]. done.
  - intros [_ Hx] [_ Hx'] [= -> He]. destruct (IH x' Hx Hx' He) as [-> ->]. done.
Qed.
(** Ids without a slash are read back from the key. *)
Lemma Binding_Key_inj b b' :
  slash_byte ∉ bi_VaultID b → slash_byte ∉ bi_ConnectionID b → slash_byte ∉ bi_VaultID b' → slash_byte ∉ bi_ConnectionID b' →
  Binding_Key b = Binding_Key b' → bi_VaultID b = bi_VaultID b' ∧ bi_ConnectionID b = bi_ConnectionID b' ∧ bi_UserID b = bi_UserID b'.
Proof.
  intros Hs1 Hs2 Hs3 Hs4 Hk. unfold Binding_Key, slash in Hk. cbn in Hk.
  apply app_sep_inj in Hk as [-> Hk]; [|done..]. apply app_sep_inj in Hk as [-> ->]; done.
Qed.

Lemma find_binding_Some d key b : find_binding d key = Some b → b ∈ vy_Bindings (sync_of d) ∧ Binding_Key b = key.
Proof.
  unfold find_binding, sync_of. destruct (vd_Sync d) as [y|]; [|done]. cbn. destruct (list_find _ _) as [[i b']|] eqn:E; [|done].
  intros [= <-]. apply list_find_Some in E as (Hi & Hk & _). split; [|done].
  apply elem_of_reverse. by eapply list_elem_of_lookup_2.
Qed.

(** ** What a connection is given *)

(** The credential a user of a connection is given is its own vault's, if any, or exactly the one credential of
    this member's personal vault that a binding in force names: a team connection never gets a key or password
    of another vault by naming it. *)
Theorem resolved_credentials (d : VaultData) (conn : Connection) (user u : ConnectionUser) :
  ResolveCredentials d conn user = Ok u →
  if cu_CredentialSource user =?? CredentialSourcePersonal then
    ∃ b, b ∈ vy_Bindings (sync_of d) ∧
      Binding_Key b = cn_VaultID conn ++ slash ++ cn_ID conn ++ slash ++ cu_ID user ∧ bi_SuspendedBy b = [] ∧
      ((∃ i, vd_Identities d !! bi_IdentityID b = Some i ∧ si_VaultID i = [] ∧ cu_Auth u = AuthMethodKey ∧
          cu_KeyAuth u = Some {| ka_IdentityIDs := [bi_IdentityID b] |} ∧ cu_PassAuth u = None) ∨
       (∃ p, vd_Passwords d !! bi_PasswordID b = Some p ∧ pb_VaultID p = [] ∧ cu_Auth u = AuthMethodPassword ∧
          cu_PassAuth u = Some {| pw_VaultRef := bi_PasswordID b |} ∧ cu_KeyAuth u = None))
  else u = user ∧ (cn_VaultID conn ≠ [] →
    (∀ k id i, cu_KeyAuth user = Some k → id ∈ ka_IdentityIDs k → vd_Identities d !! id = Some i → si_VaultID i = cn_VaultID conn) ∧
    (∀ q p, cu_PassAuth user = Some q → pw_VaultRef q ≠ [] → vd_Passwords d !! pw_VaultRef q = Some p → pb_VaultID p = cn_VaultID conn)).
Proof.
  unfold ResolveCredentials. case_bool_decide as Hs; cbn [negb]; cycle 1.
  - intros ([] & Hc & [= <-])%bind_Ok. split; [done|]. intros Hv. unfold CheckCredentialScope in Hc.
    rewrite bool_decide_eq_false_2 in Hc by done. apply fail_if_Ok in Hc as [Hk [Hp _]%fail_if_Ok]. split.
    + intros k id i Ek Hin Hi. rewrite Ek in Hk. destruct (decide (si_VaultID i = cn_VaultID conn)) as [|Hne]; [done|exfalso].
      apply not_true_iff_false in Hk. apply Hk, existsb_exists. exists id. split; [by apply list_elem_of_In|]. unfold foreign_key. rewrite Hi.
      by rewrite bool_decide_eq_false_2.
    + intros q p Eq Hn Hq. rewrite Eq in Hp. rewrite bool_decide_eq_false_2 in Hp by done. unfold foreign_password in Hp. rewrite Hq in Hp.
      cbn in Hp. by bool_simpl.
  - destruct (find_binding d _) as [b|] eqn:Eb; [|done]. intros [Hsus [_ Hr]%fail_if_Ok]%fail_if_Ok.
    apply find_binding_Some in Eb as [Hb Hk]. exists b. bool_simpl. split_and!; [done|done|done|].
    case_bool_decide as Hi; cbn [negb] in Hr.
    + case_bool_decide as Hp; cbn [negb] in Hr; [done|]. destruct (vd_Passwords d !! bi_PasswordID b) as [p|] eqn:Ep; [|done].
      apply fail_if_Ok in Hr as [Hv [= <-]]. bool_simpl. right. exists p. done.
    + destruct (vd_Identities d !! bi_IdentityID b) as [i|] eqn:Ei; [|done]. apply fail_if_Ok in Hr as [Hv [= <-]]. bool_simpl. left. exists i. done.
Qed.

(** ** Suspending *)

Lemma SuspendBindings_bindings vault conn acct d :
  vy_Bindings (sync_of (SuspendBindings vault conn acct d)) = suspend_binding vault conn acct <$> vy_Bindings (sync_of d).
Proof. unfold SuspendBindings, sync_of. destruct (vd_Sync d) eqn:E; cbn; by rewrite ?E. Qed.
Lemma suspend_key vault conn acct b : Binding_Key (suspend_binding vault conn acct b) = Binding_Key b.
Proof. unfold suspend_binding. by destruct (_ && _). Qed.
(** After suspensions for a connection, every binding of it is suspended. *)
Lemma suspended_all vault conn acct l d :
  (conn, acct) ∈ l → Forall (λ x : bytes * bytes, x.2 ≠ []) l →
  ∀ b, b ∈ vy_Bindings (sync_of (foldl (λ d x, SuspendBindings vault x.1 x.2 d) d l)) →
    ∃ b0, b0 ∈ vy_Bindings (sync_of d) ∧ bi_VaultID b = bi_VaultID b0 ∧ bi_ConnectionID b = bi_ConnectionID b0 ∧ bi_UserID b = bi_UserID b0 ∧
      (bi_VaultID b = vault → bi_ConnectionID b = conn → bi_SuspendedBy b ≠ []).
Proof.
  intros Hin Hall. assert (∀ l d, Forall (λ x : bytes * bytes, x.2 ≠ []) l →
    ∀ b, b ∈ vy_Bindings (sync_of (foldl (λ d x, SuspendBindings vault x.1 x.2 d) d l)) → ∃ b0, b0 ∈ vy_Bindings (sync_of d) ∧
      bi_VaultID b = bi_VaultID b0 ∧ bi_ConnectionID b = bi_ConnectionID b0 ∧ bi_UserID b = bi_UserID b0 ∧
      (bi_SuspendedBy b0 ≠ [] → bi_SuspendedBy b ≠ [])) as Hkeep.
  { clear. intros l. induction l as [|x l IH]; intros d Hl b Hb; [by exists b|]. apply Forall_cons in Hl as [Hx Hl].
    destruct (IH _ Hl b Hb) as (b1 & Hb1 & E1 & E2 & E3 & Hs). rewrite SuspendBindings_bindings in Hb1.
    apply list_elem_of_fmap in Hb1 as (b0 & -> & Hb0). exists b0. unfold suspend_binding in *. destruct (_ && _); cbn in *; naive_solver. }
  apply list_elem_of_split in Hin as (l1 & l2 & ->). apply Forall_app in Hall as [Hl1 [Hx Hl2]%Forall_cons]. rewrite foldl_app. intros b Hb.
  destruct (Hkeep _ _ Hl2 b Hb) as (b2 & Hb2 & E1 & E2 & E3 & Hs). rewrite SuspendBindings_bindings in Hb2.
  apply list_elem_of_fmap in Hb2 as (b1 & -> & Hb1). destruct (Hkeep _ _ Hl1 b1 Hb1) as (b0 & Hb0 & F1 & F2 & F3 & _). cbn in *.
  exists b0. unfold suspend_binding in *. case_bool_decide as Hv; case_bool_decide as Hc; cbn in *; split_and!; try congruence.
  intros _ _. by apply Hs.
Qed.

Lemma ID_String_nonempty (id : ID) : ID_String id ≠ [].
Proof.
  unfold ID_String. intros E. apply (hex_encode_inj _ []) in E. apply (f_equal length) in E. by rewrite length_vec_to_list in E.
Qed.
Lemma noteRepointing_adds keys (p : pullRun) r entry local out acct key :
  sco_Vault (pr_scope p) ≠ [] → en_Type entry = TypeConnection → repoints p (e_Record r) entry local = true →
  pr_resolve p (e_Author r) = Ok (acct, key) → acct ≠ kr_account keys →
  (en_Key entry, ID_String acct) ∈ in_suspend (noteRepointing keys p r entry local out).
Proof.
  intros Hs Ht Hr Hres Ha. unfold noteRepointing. rewrite bool_decide_eq_false_2 by done.
  rewrite bool_decide_eq_true_2 by done. rewrite Hr. cbn. rewrite Hres, bool_decide_eq_false_2 by done. cbn.
  rewrite elem_of_app, list_elem_of_singleton. auto.
Qed.

(** A connection for which an interpretation suspends the bindings gets none of this member's credentials: it has no
    binding, or a suspended one. The vault's and the connections' ids hold no slash, which the keys of
    bindings are built with. *)
Lemma suspended_refused (s : Scope) (landed : interpretation) (acct : ID) (d d' : VaultData) (conn : Connection) (user : ConnectionUser) :
  sco_Vault s ≠ [] → Forall (λ x, x.2 ≠ []) (in_suspend landed) → (cn_ID conn, ID_String acct) ∈ in_suspend landed →
  applyInterpretation s landed d = Ok d' →
  (∀ b, b ∈ vy_Bindings (sync_of d) → slash_byte ∉ bi_VaultID b ∧ slash_byte ∉ bi_ConnectionID b) →
  cn_VaultID conn = sco_Vault s → slash_byte ∉ cn_VaultID conn → slash_byte ∉ cn_ID conn →
  cu_CredentialSource user = CredentialSourcePersonal →
  ResolveCredentials d' conn user = Err [ErrBindingSuspended] ∨ ResolveCredentials d' conn user = Err [ErrBindingMissing].
Proof.
  intros Hs Hall Hin Happ Hslash Hv Hv0 Hc0 Hu.
  unfold applyInterpretation in Happ. destruct (ApplyScope d s (in_changes landed)) as [d1|] eqn:Ea; [|done]. injection Happ as <-.
  assert (vy_Bindings (sync_of d1) = vy_Bindings (sync_of d)) as Hb1 by by apply (team_frame (λ d, vy_Bindings (sync_of d)) d _ _ d1 ltac:(done) ltac:(done) ltac:(done) ltac:(done) ltac:(done) Ea).
  unfold ResolveCredentials. rewrite Hu. rewrite bool_decide_eq_true_2 by done. cbn [negb]. destruct (find_binding _ _) as [b|] eqn:Eb; [|by right].
  left. apply find_binding_Some in Eb as [Hb Hk]. destruct (suspended_all _ _ _ _ _ Hin Hall b Hb) as (b0 & Hb0 & E1 & E2 & E3 & Hsus).
  rewrite Hb1 in Hb0. destruct (Hslash b0 Hb0) as [Hsv Hsc]. apply Binding_Key_inj in Hk as (K1 & K2 & _); cbn in *; try congruence.
  rewrite bool_decide_eq_false_2; [done|]. apply Hsus; congruence.
Qed.

(** C38. The key of a binding is not injective, so a member's credential can be sent where they never bound it. A
    binding for the user [u1/u2] of a connection also serves the user [u2] of any connection called [c/u1] -
    which an editor of the team can add, with any host, and which suspends nothing. *)
Theorem binding_serves_another_connection (d : VaultData) (b : CredentialBinding) (p : PasswordBlob) (u1 u2 : bytes)
    (conn : Connection) (user : ConnectionUser) :
  vy_Bindings (sync_of d) = [b] → bi_UserID b = u1 ++ slash ++ u2 → bi_SuspendedBy b = [] → bi_IdentityID b = [] →
  bi_PasswordID b ≠ [] → vd_Passwords d !! bi_PasswordID b = Some p → pb_VaultID p = [] →
  cn_VaultID conn = bi_VaultID b → cn_ID conn = bi_ConnectionID b ++ slash ++ u1 → cu_ID user = u2 →
  cu_CredentialSource user = CredentialSourcePersonal → cu_Auth user = AuthMethodPassword →
  ResolveCredentials d conn user = Ok (user_with AuthMethodPassword None (Some {| pw_VaultRef := bi_PasswordID b |}) user).
Proof.
  intros Hb Hu Hs Hi Hpn Hp Hpv Hv Hc Hid Hsrc Hauth. unfold ResolveCredentials. rewrite Hsrc. rewrite bool_decide_eq_true_2 by done. cbn [negb].
  assert (find_binding d (Binding_Key {| bi_VaultID := cn_VaultID conn; bi_ConnectionID := cn_ID conn; bi_UserID := cu_ID user;
    bi_IdentityID := []; bi_PasswordID := []; bi_SuspendedBy := [] |}) = Some b) as ->.
  { unfold find_binding, sync_of in *. destruct (vd_Sync d) as [y|]; [|done]. cbn in Hb. rewrite Hb. cbn.
    rewrite decide_True; [done|]. unfold Binding_Key. cbn. rewrite Hv, Hc, Hid, Hu. by rewrite <- !app_assoc. }
  rewrite Hs, Hauth, Hi. cbn. rewrite (bool_decide_eq_false_2 (bi_PasswordID b = [])) by done. cbn. rewrite Hp, Hpv. done.
Qed.
End bindings.

(** ** A member, a binding, and a connection that moved *)

Definition demo_password : PasswordBlob := {| pb_Value := demo_str "secret"; pb_Label := []; pb_VaultID := [] |}.
Definition demo_binding (user : bytes) : CredentialBinding := {|
  bi_VaultID := demo_str "t1"; bi_ConnectionID := demo_str "c2"; bi_UserID := user; bi_IdentityID := []; bi_PasswordID := demo_str "p1"; bi_SuspendedBy := [] |}.
Definition demo_bound (user : bytes) : VaultData :=
  set_Bindings [demo_binding user] (set_Passwords {[demo_str "p1" := demo_password]} demo_vault_data).
Definition demo_team_conn (id : bytes) : Connection := {|
  cn_ID := id; cn_FolderID := []; cn_Name := []; cn_Host := demo_str "host"; cn_Port := 22; cn_Order := 0; cn_Protocol := []; cn_Users := [];
  cn_DefaultUserID := []; cn_Tags := []; cn_Hops := []; cn_ForwardRules := []; cn_PluginFields := ∅; cn_AgentForwarding := None;
  cn_VaultID := demo_str "t1" |}.
Definition demo_member (id : bytes) : ConnectionUser := {|
  cu_ID := id; cu_Username := demo_str "root"; cu_Auth := AuthMethodPassword; cu_KeyAuth := None; cu_PassAuth := None; cu_PluginAuth := None;
  cu_Label := []; cu_CredentialSource := CredentialSourcePersonal |}.
Definition demo_resolved : ConnectionUser :=
  user_with AuthMethodPassword None (Some {| pw_VaultRef := demo_str "p1" |}) (demo_member (demo_str "u1")).

Lemma resolved_credentials_witness :
  ∃ b, b ∈ vy_Bindings (sync_of (demo_bound (demo_str "u1"))) ∧ bi_SuspendedBy b = [] ∧ cu_PassAuth demo_resolved = Some {| pw_VaultRef := demo_str "p1" |}.
Proof.
  pose proof (resolved_credentials (demo_bound (demo_str "u1")) (demo_team_conn (demo_str "c2")) (demo_member (demo_str "u1")) demo_resolved) as Hw.
  destruct Hw as (b & Hb & _ & Hs & _).
  - vm_compute. reflexivity.
  - exists b. exact (conj Hb (conj Hs eq_refl)).
Defined.

Lemma binding_serves_another_connection_witness :
  ResolveCredentials (demo_bound (demo_str "x/u1")) (demo_team_conn (demo_str "c2/x")) (demo_member (demo_str "u1")) = Ok demo_resolved.
Proof.
  apply (binding_serves_another_connection (demo_bound (demo_str "x/u1")) (demo_binding (demo_str "x/u1")) demo_password (demo_str "x") (demo_str "u1")
    (demo_team_conn (demo_str "c2/x")) (demo_member (demo_str "u1"))); (done || (vm_compute; reflexivity)).
Defined.
