(* ===== verification/ClientLaws.v ===== *)
(** * ClientLaws: what a pull does to what a device verified before

    The engine of [Client] against any server at all. A computation is [calm] when it leaves the verified
    heads, the logs and the position of the run alone; the few that are not advance them as the chain of
    heads does. Errors are followed as well, so that the loops are seen to end by themselves and not by
    running out of rounds. *)

From S2P Require Import Prelude Bytes SyncBase Canon Envelope Merkle Head DeviceLog Retention Membership VaultState Merge Version Rows VaultData SyncTrust ClientStore Client.

(** ** Logs that only grow *)

Section logs.
Context {A : Type} (who : A → ID) (seq : A → Z).
Implicit Types (m : gmap (ID * Z) A).

(** The columns of positions are signed. *)
Definition log_bounded m : Prop := ∀ k q a, m !! (k, q) = Some a → q ≤ MaxInt64.

Lemma log_last_spec m k : (∀ q a, m !! (k, q) = Some a → q ≤ log_last m k) ∧ 0 ≤ log_last m k ∧ (log_bounded m → log_last m k ≤ MaxInt64).
Proof.
  unfold log_last. apply (map_fold_weak_ind (λ r m, (∀ q a, m !! (k, q) = Some a → q ≤ r) ∧ 0 ≤ r ∧ (log_bounded m → r ≤ MaxInt64))).
  - split_and!; [by intros q a ?%lookup_empty_Some|done|]. intros _. unfold MaxInt64. lia.
  - intros [k' q'] a m' r Hn (Hle & H0 & Hb). cbn [fst snd]. split_and!.
    + intros q a' [[[= -> ->] ->]|[Hne Hq]]%lookup_insert_Some; [rewrite bool_decide_eq_true_2 by done; lia|].
      specialize (Hle q a' Hq). case_bool_decide; lia.
    + case_bool_decide; lia.
    + intros Hall. assert (r ≤ MaxInt64).
      { apply Hb. intros k1 q1 a1 H1. apply (Hall k1 q1 a1). rewrite lookup_insert_ne; [done|]. intros [= -> ->]. congruence. }
      specialize (Hall k' q' a). rewrite lookup_insert_eq in Hall. specialize (Hall eq_refl). case_bool_decide; lia.
Qed.

Lemma appendLog_grows m es m' : appendLog who seq m es = Ok m' → log_bounded m →
  log_bounded m' ∧ ∀ k, (rows_by_seq m k).*2 `prefix_of` (rows_by_seq m' k).*2.
Proof.
  destruct es as [|e0 es]; [intros [= <-] Hb; split; [done|]; intros k; done|]. intros ([m1 last1] & HF & [= <-])%bind_Ok Hb.
  destruct (log_last_spec m (who e0)) as (Hle & H0 & Hmax). specialize (Hmax Hb). set (id := who e0) in *.
  cut (log_bounded m1 ∧ (∀ q a, m1 !! (id, q) = Some a → q ≤ last1) ∧ 0 ≤ last1 ≤ MaxInt64 ∧ ∀ k, (rows_by_seq m k).*2 `prefix_of` (rows_by_seq m1 k).*2);
    [naive_solver|].
  eapply (foldM_inv (λ st, log_bounded st.1 ∧ (∀ q a, st.1 !! (id, q) = Some a → q ≤ st.2) ∧ 0 ≤ st.2 ≤ MaxInt64 ∧
    ∀ k, (rows_by_seq m k).*2 `prefix_of` (rows_by_seq st.1 k).*2) (append_entry who seq id) (e0 :: es) (m, log_last m id) (m1, last1)); [|done|exact HF].
  intros [m2 l2] e st' (Hb2 & Hle2 & H2 & Hp) _ Hst. unfold append_entry in Hst. cbn in *.
  apply fail_if_Ok in Hst as [Hs [Hi [= <-]]%fail_if_Ok]. apply orb_false_iff in Hs as [_ Hs], Hi as [Hi1 Hi2].
  apply negb_false_iff, Z.eqb_eq in Hs. apply Z.ltb_ge in Hi1. rewrite wrap64_succ in Hs by (unfold u64, MaxUint64, MaxInt64 in *; lia). cbn. split_and!.
  - intros k q a [[[= <- <-] _]|[_ Hq]]%lookup_insert_Some; [done|by eapply Hb2].
  - intros q a [[[= <-] _]|[_ Hq]]%lookup_insert_Some; [done|]. specialize (Hle2 _ _ Hq). lia.
  - lia.
  - done.
  - intros k. destruct (decide (k = id)) as [->|Hne].
    + rewrite rows_snoc by (intros q a Hq; specialize (Hle2 _ _ Hq); lia). rewrite fmap_app. etrans; [apply Hp|]. by apply prefix_app_r.
    + rewrite (rows_frame m2 (<[(id, seq e) := e]> m2)); [apply Hp|]. intros q. rewrite lookup_insert_ne; [done|]. congruence.
Qed.
End logs.

Create HintDb calm.

Section laws.
Context `{!RawJSON, !RecordJSON, !Crypto, !SyncServer, !ClientCrypto}.
Context (keys : KeyRing) (clock : nat → Z) (others : nat → VaultData → VaultData).
#[local] Existing Instances EM_ret EM_bind.

(** ** What is assumed of answers where a loop must end *)

(** The error of the model's own rounds is no answer, a snapshot's position fits the column it is kept in, and a page
    of heads is a slice. *)
Definition ended {A} (r : result cerror A) : Prop := ∀ e, r = Err e → EOutOfFuel ∉ e.
Record answers_ok : Prop := {
  ao_changes : ∀ v a n s, ended (srv_Changes v a n s).1;
  ao_snapshot : ∀ v s, ended (srv_Snapshot v s).1;
  ao_snapshot_seq : ∀ v s r h, (srv_Snapshot v s).1 = Ok r → sn_Head r = Some h → 0 ≤ h_Seq h ≤ MaxInt64;
  ao_heads : ∀ v a b s, ended (srv_Heads v a b s).1;
  ao_heads_len : ∀ v a b s l, (srv_Heads v a b s).1 = Ok l → len l ≤ MaxInt64;
  ao_devices : ∀ a n s, ended (srv_DeviceLog a n s).1;
  ao_members : ∀ v n s, ended (srv_Membership v n s).1;
}.
Definition fine (e : cerror) : Prop := answers_ok → EOutOfFuel ∉ e.

Lemma fine_rule e : fine (EVaultRule <$> e).
Proof. intros _ (x & ? & _)%list_elem_of_fmap. done. Qed.
Lemma fine_trust e : fine (ETrustRule <$> e).
Proof. intros _ (x & ? & _)%list_elem_of_fmap. done. Qed.
Lemma fine_integrity e : fine e → fine (integrity e).
Proof. unfold integrity. destruct (_ || _); [done|]. intros He Ha [?|?]%elem_of_cons; [done|]. by apply He. Qed.
Lemma fine_cons s e : s ≠ EOutOfFuel → fine e → fine (s :: e).
Proof. intros Hs He Ha [?|?]%elem_of_cons; [done|]. by apply He. Qed.
Lemma fine_nil : fine [].
Proof. intros _ ?%not_elem_of_nil. done. Qed.

(** ** Calm computations *)

Definition same (g g' : Engine) : Prop :=
  sd_heads (g_store g') = sd_heads (g_store g) ∧ sd_device_entries (g_store g') = sd_device_entries (g_store g) ∧
  sd_member_ops (g_store g') = sd_member_ops (g_store g) ∧ pr_vault (g_run g') = pr_vault (g_run g) ∧ pr_state (g_run g') = pr_state (g_run g).
Lemma same_refl g : same g g.
Proof. done. Qed.
Lemma same_trans g1 g2 g3 : same g1 g2 → same g2 g3 → same g1 g3.
Proof. intros (?&?&?&?&?) (?&?&?&?&?). split_and!; congruence. Qed.

Definition calm {A} (m : EM A) : Prop := ∀ g, same g (m g).2 ∧ ∀ e, (m g).1 = Err e → fine e.

Lemma calm_ret {A} (a : A) : calm (mret a).
Proof. intros g. split; [done|]. intros e He. discriminate. Qed.
Lemma calm_bind {A B} (m : EM A) (f : A → EM B) : calm m → (∀ a, calm (f a)) → calm (m ≫= f).
Proof.
  intros Hm Hf g. destruct (Hm g) as [Hs He]. unfold mbind, EM_bind, ST_bind. destruct (m g) as [[a|e] g1]; cbn in *.
  - destruct (Hf a g1) as [Hs2 He2]. split; [by eapply same_trans|done].
  - split; [done|]. intros e' [= <-]. by apply He.
Qed.
Lemma calm_lift {A} (r : result cerror A) : (∀ e, r = Err e → fine e) → calm (em_lift r).
Proof. intros Hr g. split; [done|]. exact Hr. Qed.
Lemma calm_fail_if c e : fine e → calm (em_fail_if c e).
Proof. intros He g. unfold em_fail_if. destruct c; (split; [done|]); cbn; [by intros e' [= <-]|done]. Qed.
Lemma calm_get_run : calm get_run.
Proof. intros g. split; [done|]. done. Qed.
Lemma calm_get_store : calm get_store.
Proof. intros g. split; [done|]. done. Qed.
Lemma calm_set_run f : (∀ p, pr_vault (f p) = pr_vault p ∧ pr_state (f p) = pr_state p) → calm (set_run f).
Proof. intros Hf g. destruct (Hf (g_run g)). split; [|done]. split_and!; done. Qed.
Lemma calm_ask {A} (f : srv → result cerror A * srv) : (∀ s e, (f s).1 = Err e → fine e) → calm (ask f).
Proof. intros Hf g. unfold ask. specialize (Hf (g_server g)). destruct (f (g_server g)) as [r s]. split; [done|]. exact Hf. Qed.
Lemma calm_write f : (∀ s, match f s with
    | Ok s' => sd_heads s' = sd_heads s ∧ sd_device_entries s' = sd_device_entries s ∧ sd_member_ops s' = sd_member_ops s
    | Err e => fine e end) → calm (write_store f).
Proof.
  intros Hf g. specialize (Hf (g_store g)). unfold write_store. destruct (f (g_store g)) as [s'|e].
  - destruct Hf as (?&?&?). split; [|done]. split_and!; done.
  - split; [done|]. by intros e' [= <-].
Qed.
Lemma calm_now : calm (now_millis clock).
Proof. intros g. split; [done|]. done. Qed.
Lemma calm_GetData : calm (GetData others).
Proof. intros g. split; [done|]. done. Qed.
Lemma calm_UpdateData mutate : (∀ d e, mutate d = Err e → fine e) → calm (UpdateData others mutate).
Proof.
  intros Hm g. unfold UpdateData. destruct (mutate _) as [d'|e] eqn:E; (split; [done|]); [done|]. intros e' [= <-]. by eapply Hm.
Qed.
Lemma calm_fold {A B} (f : A → B → EM A) a l : (∀ a b, calm (f a b)) → calm (em_fold f a l).
Proof. intros Hf. revert a. induction l as [|b l IH]; intros a; cbn; [apply calm_ret|]. by apply calm_bind. Qed.
Lemma calm_for {B} (l : list B) (f : B → EM unit) : (∀ b, calm (f b)) → calm (em_for l f).
Proof. intros Hf. apply calm_fold. auto. Qed.
Lemma calm_verified {A} (r : result error A) : calm (verified r).
Proof. unfold verified. apply calm_lift. intros e. destruct r; [done|]. intros [= <-]. apply fine_integrity, fine_rule. Qed.
Lemma calm_rule {A} (r : result error A) : calm (em_lift (rule r)).
Proof. apply calm_lift. intros e. unfold rule. destruct r; [done|]. intros [= <-]. apply fine_rule. Qed.

#[local] Hint Resolve calm_ret calm_get_run calm_get_store calm_now calm_GetData calm_verified calm_rule fine_rule fine_trust fine_integrity
  fine_nil : calm.
#[local] Hint Extern 1 (fine (_ :: _)) => apply fine_cons; [discriminate|] : calm.
#[local] Hint Extern 1 (∀ p, pr_vault _ = pr_vault p ∧ _) => done : calm.

(** Follow a program through its binds and branches. *)
Ltac calm_step :=
  match goal with
  | |- calm (_ ≫= _) => apply calm_bind; [|intros]
  | |- calm (mret _) => apply calm_ret
  | |- calm (em_fail_if _ _) => apply calm_fail_if
  | |- calm (set_run _) => apply calm_set_run; intros; done
  | |- calm (em_for _ _) => apply calm_for; intros
  | |- calm (em_fold _ _ _) => apply calm_fold; intros
  | |- calm (em_lift (Err _)) => apply calm_lift; intros ? [= <-]
  | |- calm (match ?x with _ => _ end) => destruct x eqn:?
  | |- calm (write_store (λ s, Ok _)) => apply calm_write; intros; done
  | |- calm _ => solve [eauto with calm]
  | |- fine _ => solve [eauto with calm]
  end.
Ltac calm_auto := repeat calm_step.

(** ** Opening and judging records *)

Lemma fine_VaultKey vault epoch ops e : VaultKey keys vault epoch ops = Err e → fine e.
Proof.
  unfold VaultKey. induction (reverse ops) as [|op l IH]; cbn; [intros [= <-]; eauto with calm|].
  destruct (negb _); [done|]. destruct (wrapIn keys op); [|done]. destruct (UnwrapVaultKey _ _ _ _ _); [done|]. intros [= <-]. eauto with calm.
Qed.
Lemma fine_open p r e : open_record keys p r = Err e → fine e.
Proof.
  unfold open_record. destruct (VaultKey _ _ _ _) as [vk|e'] eqn:E; cbn; [|intros [= <-]; by eapply fine_VaultKey].
  destruct (cipher_Open vk r); [|intros [= <-]; eauto with calm]. destruct (DecodeBody _); [done|]. intros [= <-]. eauto with calm.
Qed.
#[local] Hint Resolve fine_VaultKey fine_open : calm.

Lemma fine_advance check ops seq fuel m e : (advance_members check ops seq fuel m).1 = Err e → fine e.
Proof.
  revert m. induction fuel as [|fuel IH]; intros m; cbn; destruct (seq <=? ms_seq m); try done; cbn; [intros [= <-]; eauto with calm|].
  destruct (ops !! _) as [op|]; [|intros [= <-]; eauto with calm]. destruct (member_step _ _ _); [apply IH|].
  intros [= <-]. eauto with calm.
Qed.
Lemma calm_members_at seq : calm (members_at seq).
Proof.
  unfold members_at. calm_auto. match goal with Hr : advance_members _ _ _ _ _ = (?r, _) |- _ => apply calm_lift; intros e ->; eapply fine_advance; by rewrite Hr end.
Qed.
Lemma calm_learnMeta r : calm (learnMeta keys r).
Proof.
  unfold learnMeta. calm_auto.
  - apply calm_lift. intros e. destruct (open_record keys a r) eqn:E; [done|]. intros [= <-]. eauto with calm.
  - apply calm_lift. intros e. destruct (VaultMetaNamingKey _); [done|]. intros [= <-]. eauto with calm.
Qed.
Lemma calm_baseBody id : calm (baseBody keys id).
Proof. unfold baseBody. calm_auto. Qed.
Lemma calm_checkFiled r nk body : calm (checkFiled r nk body).
Proof. unfold checkFiled. calm_auto. Qed.
#[local] Hint Resolve calm_members_at calm_learnMeta calm_baseBody calm_checkFiled : calm.
Lemma calm_decode_record r : calm (decode_record keys r).
Proof. unfold decode_record. calm_auto. Qed.
Lemma calm_localSnapshot : calm (localSnapshot others).
Proof.
  unfold localSnapshot. calm_auto. apply calm_lift. intros e. destruct (SnapshotScope _ _ _); [done|]. intros [= <-]. eauto with calm.
Qed.
Lemma calm_hold r b : calm (hold clock r b).
Proof. unfold hold. calm_auto. Qed.
#[local] Hint Resolve calm_decode_record calm_localSnapshot calm_hold : calm.
Lemma calm_mergeLocal out id entry local : calm (mergeLocal keys clock out id entry local).
Proof. unfold mergeLocal, editedLocally. calm_auto. Qed.
#[local] Hint Resolve calm_mergeLocal : calm.
Lemma calm_route out r entry held : calm (route keys clock out r entry held).
Proof. unfold route. calm_auto. Qed.
#[local] Hint Resolve calm_route : calm.
Lemma calm_interpret c : calm (interpret keys clock others c).
Proof. unfold interpret, interpret_record. calm_auto. Qed.
Lemma calm_settle out : calm (settleQuarantine out).
Proof. unfold settleQuarantine. calm_auto. Qed.
Lemma calm_verifySnapshot head records : calm (verifySnapshot head records).
Proof. unfold verifySnapshot. calm_auto. Qed.
#[local] Hint Resolve calm_interpret calm_settle calm_verifySnapshot : calm.

(** ** What was verified stays verified *)

(** A head reached from another by links, each naming the hash of the one before. *)
Definition follows (h h' : Head) : Prop := ∃ heads c, AdvanceAll (head_cursor h) heads = Ok c ∧
  cur_Seq c = h_Seq h' ∧ cur_Hash c = sha256 (head_input h').

Record grown (s s' : StateDB) : Prop := {
  gr_heads : ∀ v h, sd_heads s !! v = Some h → 0 < h_Seq h → ∃ h', sd_heads s' !! v = Some h' ∧ h_Seq h ≤ h_Seq h' ∧ rtc follows h h';
  gr_devices : ∀ a, sd_DeviceLog a s `prefix_of` sd_DeviceLog a s';
  gr_members : ∀ v, sd_Membership v s `prefix_of` sd_Membership v s';
}.
(** Numbers as the columns hold them. *)
Record bounded (s : StateDB) : Prop := {
  bo_heads : ∀ v h, sd_heads s !! v = Some h → h_Seq h ≤ MaxInt64 ∧ (answers_ok → 0 ≤ h_Seq h);
  bo_devices : log_bounded (sd_device_entries s);
  bo_members : log_bounded (sd_member_ops s);
}.

Section from.
Context (s0 : StateDB) (v : ID).
Definition stored (g : Engine) : Prop := grown s0 (g_store g) ∧ bounded (g_store g).
(** The run stands where the store does. *)
Definition synced (g : Engine) : Prop :=
  pr_vault (g_run g) = v ∧ vs_vault (pr_state (g_run g)) = v ∧
  match sd_heads (g_store g) !! v with
  | Some h => vs_cursor (pr_state (g_run g)) = head_cursor h
  | None => vs_cursor (pr_state (g_run g)) = genesis_cursor v
  end ∧ cur_Seq (vs_cursor (pr_state (g_run g))) ≤ MaxInt64 ∧ (answers_ok → 0 ≤ cur_Seq (vs_cursor (pr_state (g_run g)))).

Lemma same_stored g g' : same g g' → stored g → stored g'.
Proof.
  intros (Hh & Hd & Hm & _) [[G1 G2 G3] [B1 B2 B3]]. split; constructor; rewrite ?Hh, ?Hd, ?Hm; try done.
  - intros a. unfold sd_DeviceLog. rewrite Hd. apply G2.
  - intros w. unfold sd_Membership. rewrite Hm. apply G3.
Qed.
Lemma same_synced g g' : same g g' → synced g → synced g'.
Proof. intros (Hh & _ & _ & Hv & Hs). unfold synced. by rewrite Hh, Hv, Hs. Qed.

Definition wp {A} (m : EM A) (Q : A → Engine → Prop) (g : Engine) : Prop :=
  stored (m g).2 ∧ match (m g).1 with Ok a => Q a (m g).2 | Err e => fine e end.

Lemma wp_bind {A B} (m : EM A) (f : A → EM B) Q g : wp m (λ a g1, wp (f a) Q g1) g → wp (m ≫= f) Q g.
Proof. unfold wp, mbind, EM_bind, ST_bind. destruct (m g) as [[a|e] g1]; cbn; [|done]. by intros [_ Hw]. Qed.
Lemma wp_ret {A} (a : A) (Q : A → Engine → Prop) g : stored g → Q a g → wp (mret a) Q g.
Proof. done. Qed.
Lemma wp_calm {A} (m : EM A) Q g : calm m → stored g → (∀ a g', same g g' → stored g' → Q a g') → wp m Q g.
Proof.
  intros Hc Hs HQ. destruct (Hc g) as [Hsame Hf]. unfold wp. pose proof (same_stored _ _ Hsame Hs) as Hs'. split; [done|].
  destruct (m g).1 eqn:E; auto.
Qed.
Lemma wp_get_run Q g : stored g → Q (g_run g) g → wp get_run Q g.
Proof. done. Qed.
Lemma wp_set_run f Q g : stored g → Q () (g_set_run (f (g_run g)) g) → wp (set_run f) Q g.
Proof. done. Qed.
Lemma wp_mono {A} (m : EM A) (Q Q' : A → Engine → Prop) g : wp m Q g → (∀ a g', stored g' → Q a g' → Q' a g') → wp m Q' g.
Proof. unfold wp. intros [Hs Hm] HQ. split; [done|]. destruct (m g).1; auto. Qed.

Lemma AdvanceVault_Ok head recs purged s s' : AdvanceVault head recs purged s = Ok s' →
  sd_heads s' = <[h_Vault head := head]> (sd_heads s) ∧ sd_device_entries s' = sd_device_entries s ∧ sd_member_ops s' = sd_member_ops s ∧
  h_Seq head ≤ MaxInt64 ∧ ∀ h, sd_heads s !! h_Vault head = Some h → h_Seq h < h_Seq head.
Proof.
  unfold AdvanceVault. intros [Hst (rs & _ & [Hb [= <-]]%fail_if_Ok)%bind_Ok]%fail_if_Ok. apply Z.ltb_ge in Hb. split_and!; try done.
  intros h Hh. rewrite Hh in Hst. by apply Z.leb_gt in Hst.
Qed.
Lemma fine_AdvanceVault head recs purged s e : AdvanceVault head recs purged s = Err e → fine e.
Proof.
  unfold AdvanceVault. destruct (match _ with Some _ => _ | None => _ end); [intros [= <-]; eauto with calm|].
  destruct (foldM _ _ recs) as [rs|e'] eqn:E; cbn.
  - destruct (_ <? _); [intros [= <-]; eauto with calm|done].
  - intros [= <-]. revert E. generalize (sd_records s). induction recs as [|x l IH]; intros rs; cbn; [done|].
    destruct (putRecord head rs x) as [rs1|e1] eqn:E1; [apply IH|]. intros [= ->]. revert E1. unfold putRecord.
    destruct (_ <>? _); [intros [= <-]; eauto with calm|]. destruct (_ <? _); [intros [= <-]; eauto with calm|done].
Qed.

Lemma advance_run_fields next c p : pr_vault (advance_run next c p) = pr_vault p ∧ pr_state (advance_run next c p) = next.
Proof. unfold advance_run. repeat case_match; done. Qed.

(** Landing a commit the chain leads to. *)
Lemma wp_landAs c meaning next Q g :
  stored g → synced g → h_Vault (c_Head c) = v → vs_vault next = v → vs_cursor next = head_cursor (c_Head c) →
  (answers_ok → 0 ≤ h_Seq (c_Head c)) →
  (∀ h, sd_heads (g_store g) !! v = Some h → 0 < h_Seq h → rtc follows h (c_Head c)) →
  (∀ g', stored g' → synced g' → pr_state (g_run g') = next → h_Seq (c_Head c) ≤ MaxInt64 → Q () g') →
  wp (landAs keys clock others c meaning next) Q g.
Proof.
  intros Hst Hsy Hv Hnv Hnc Hnn Hfol HQ. unfold landAs. apply wp_bind, wp_calm; [eauto with calm|done|]. intros out g1 S1 Hst1.
  apply wp_bind, wp_get_run; [done|]. apply wp_bind, wp_calm; [|done|].
  { destruct (_ =? _); [calm_auto|]. apply calm_UpdateData. intros d e. unfold applyInterpretation.
    destruct (ApplyScope _ _ _); [done|]. intros [= <-]. eauto with calm. }
  intros _ g2 S2 Hst2. apply wp_bind, wp_calm; [eauto with calm|done|]. intros _ g3 S3 Hst3.
  assert (same g g3) as S by eauto using same_trans. clear S1 S2 S3 Hst1 Hst2 g1 g2. apply wp_bind. unfold wp at 1, write_store.
  destruct (AdvanceVault _ _ _ _) as [s'|e] eqn:Ea; [|split; [done|by eapply fine_AdvanceVault]]. cbn.
  apply AdvanceVault_Ok in Ea as (Hh & Hd & Hm & Hle & Hgt). rewrite Hv in Hh, Hgt.
  assert (stored (g_set_store s' g3)) as Hs'.
  { destruct Hst3 as [[G1 G2 G3] [B1 B2 B3]]. split; constructor; cbn; rewrite ?Hh, ?Hd, ?Hm; try done.
    - intros w h Hw Hpos. destruct (G1 w h Hw Hpos) as (h1 & Hh1 & Hle1 & Hr1). destruct (decide (w = v)) as [->|Hne].
      + rewrite lookup_insert_eq. exists (c_Head c). specialize (Hgt h1 Hh1). split_and!; [done|lia|].
        etrans; [exact Hr1|]. apply Hfol; [|lia]. destruct S as (Sh & _). by rewrite <- Sh.
      + rewrite lookup_insert_ne by done. eauto.
    - intros a. unfold sd_DeviceLog. rewrite Hd. apply G2.
    - intros w. unfold sd_Membership. rewrite Hm. apply G3.
    - intros w h [[<- <-]|[_ Hw]]%lookup_insert_Some; [done|eauto]. }
  split; [done|]. apply wp_bind, wp_set_run; [done|]. apply wp_set_run; [done|]. cbn -[advance_run report_add].
  destruct (advance_run_fields next c (g_run g3)) as [Hav Has]. apply HQ; [done| |exact Has|done].
  unfold synced, report_add. cbn -[advance_run]. rewrite Hav, Has, Hh, lookup_insert_eq, Hnc. destruct Hsy as (Hpv & _).
  destruct S as (_ & _ & _ & Sv & _). split_and!; try done; congruence.
Qed.

Lemma wp_verified {A} (r : result error A) Q g : stored g → (∀ a, r = Ok a → Q a g) → wp (verified r) Q g.
Proof. intros Hs HQ. unfold wp, verified. destruct r; cbn; split; auto with calm. Qed.
Lemma wp_ask {A} (f : srv → result cerror A * srv) Q g : stored g → (∀ e, (f (g_server g)).1 = Err e → fine e) →
  (∀ a g', (f (g_server g)).1 = Ok a → same g g' → stored g' → Q a g') → wp (ask f) Q g.
Proof.
  intros Hs He HQ. unfold wp, ask. destruct (f (g_server g)) as [[a|e] s]; cbn in *; (split; [done|]); [by apply HQ|by apply He].
Qed.
Lemma wp_try_ask {A} (f : srv → result cerror A * srv) Q g : stored g →
  (∀ g', same g g' → stored g' → Q (f (g_server g)).1 g') → wp (try_em (ask f)) Q g.
Proof.
  intros Hs HQ. unfold wp, try_em, ask. destruct (f (g_server g)) as [r s]. cbn in *. split; [done|]. by apply HQ.
Qed.
Lemma wp_fail_if c e (Q : unit → Engine → Prop) g : stored g → fine e → (c = false → Q () g) → wp (em_fail_if c e) Q g.
Proof. intros Hs He HQ. unfold em_fail_if. destruct c; (split; [done|]); cbn; auto. Qed.
Lemma wp_err {A} e (Q : A → Engine → Prop) g : stored g → fine e → wp (em_lift (Err e)) Q g.
Proof. done. Qed.

(** ** Commits *)

Definition seq_of (g : Engine) : Z := cur_Seq (vs_cursor (pr_state (g_run g))).
Lemma same_seq g g' : same g g' → seq_of g' = seq_of g.
Proof. intros (_ & _ & _ & _ & Hs). unfold seq_of. by rewrite Hs. Qed.

Lemma wrap64_ahead z : z ≤ MaxInt64 → z + 1 ≤ wrap64 (z + 1).
Proof.
  intros Hz. unfold wrap64, MaxInt64 in *. destruct (decide (0 ≤ z + 1)); [rewrite Z.mod_small; lia|].
  pose proof (Z.mod_pos_bound (z + 1) 18446744073709551616). lia.
Qed.
Lemma report_synced g a b c d : synced g → synced (g_set_run (report_add a b c d (g_run g)) g).
Proof. done. Qed.

Lemma wp_applyCommit rc Q g : stored g → synced g → (∀ g', stored g' → synced g' → seq_of g + 1 ≤ seq_of g' → Q () g') →
  wp (applyCommit keys clock others rc) Q g.
Proof.
  intros Hst Hsy HQ. unfold applyCommit. apply wp_bind, wp_calm; [eauto with calm|done|]. intros m g1 S1 Hst1.
  pose proof (same_synced _ _ S1 Hsy) as Hsy1. apply wp_bind, wp_get_run; [done|]. apply wp_bind, wp_verified; [done|]. intros next Hn.
  apply ApplyCommit_Ok in Hn as (acct & key & _ & Hal & _ & ->). destruct Hsy1 as (Hpv & Hvv & Hcur & Hmax & Hnn).
  apply wp_bind, wp_landAs; [done|done|by rewrite <- Hvv; apply Hal|done|done|..].
  - intros _. rewrite (cl_seq _ _ _ _ _ Hal). apply wrap64_u64.
  - intros h Hh _. apply rtc_once. rewrite Hh in Hcur. exists [c_Head (rcm_Commit rc)], (head_cursor (c_Head (rcm_Commit rc))).
    split_and!; [|done|done]. unfold AdvanceAll. cbn [foldM]. rewrite <- Hcur.
    rewrite (proj2 (Advance_Ok _ _ (head_cursor (c_Head (rcm_Commit rc))))); [done|]. split_and!; [|by eapply Head_Verify_sig; apply Hal|done].
    apply VerifyLink_Ok. split_and!; apply Hal.
  - intros g2 Hst2 Hsy2 Hps _. apply wp_set_run; [done|]. apply HQ; [done|done|]. unfold seq_of at 2. cbn. rewrite Hps. cbn.
    rewrite (cl_seq _ _ _ _ _ Hal). rewrite <- (same_seq _ _ S1). unfold seq_of. by apply wrap64_ahead.
Qed.
Lemma wp_commits l Q g : stored g → synced g → (∀ g', stored g' → synced g' → seq_of g + len l ≤ seq_of g' → Q () g') →
  wp (em_for l (applyCommit keys clock others)) Q g.
Proof.
  unfold em_for. revert g Q. induction l as [|rc l IH]; intros g Q Hst Hsy HQ; cbn [em_fold].
  - apply wp_ret; [done|]. apply HQ; [done|done|cbn; lia].
  - apply wp_bind, wp_applyCommit; [done|done|]. intros g1 Hst1 Hsy1 Hq1. apply IH; [done|done|]. intros g2 Hst2 Hsy2 Hq2.
    apply HQ; [done|done|]. cbn [length]. lia.
Qed.

(** ** Snapshots *)

Lemma wp_verifySnapshot head recs Q g : stored g → synced g →
  (∀ state g', same g g' → stored g' → headed state head → vs_vault state = v → Q state g') → wp (verifySnapshot head recs) Q g.
Proof.
  intros Hst Hsy HQ. unfold verifySnapshot. apply wp_bind, wp_calm; [eauto with calm|done|]. intros m g1 S1 Hst1.
  apply wp_bind, wp_get_run; [done|]. apply wp_bind, wp_verified; [done|]. intros _ _. apply wp_bind, wp_verified; [done|]. intros _ _.
  apply wp_verified; [done|]. intros state Hr. destruct (same_synced _ _ S1 Hsy) as (Hpv & _). rewrite Hpv in Hr.
  destruct (RestoreVaultState_headed _ _ _ _ Hr) as [Hh _]. apply HQ; [done|done|done|].
  unfold RestoreVaultState in Hr. apply fail_if_Ok in Hr as [Hv _]. bool_simpl. rewrite <- Hv. symmetry. by destruct Hh.
Qed.

Lemma wp_bootstrap Q g : stored g → synced g → seq_of g = 0 → (∀ g', stored g' → synced g' → Q () g') → wp (bootstrap keys clock others) Q g.
Proof.
  intros Hst Hsy Hz HQ. unfold bootstrap. apply wp_bind, wp_get_run; [done|]. apply wp_bind, wp_ask; [done|..].
  { intros e He Ha. by eapply ao_snapshot. }
  intros snap g1 Hsnap S1 Hst1. pose proof (same_synced _ _ S1 Hsy) as Hsy1. destruct (sn_Head snap) as [head|] eqn:Eh.
  - apply wp_bind, wp_verifySnapshot; [done|done|]. intros state g2 S2 Hst2 Hhd Hsv. pose proof (same_synced _ _ S2 Hsy1) as Hsy2.
    destruct Hhd as [Hv Hc _ _]. apply wp_bind, wp_landAs; [done|done|cbn; congruence|done|done|..].
    + intros Ha. cbn. by eapply ao_snapshot_seq.
    + intros h Hh Hpos. exfalso. destruct Hsy2 as (_ & _ & Hcur & _). rewrite Hh in Hcur. rewrite <- (same_seq _ _ S1), <- (same_seq _ _ S2) in Hz.
      unfold seq_of in Hz. rewrite Hcur in Hz. cbn in Hz. lia.
    + intros g3 Hst3 Hsy3 _ _. apply wp_set_run; [done|]. by apply HQ.
  - apply wp_fail_if; [done|eauto with calm|]. intros _. by apply HQ.
Qed.

Lemma wp_checkDescends fuel cur seq tip Q g : stored g →
  (answers_ok → 0 ≤ cur_Seq cur ∧ seq ≤ MaxInt64 ∧ seq - cur_Seq cur ≤ Z.of_nat fuel) →
  (∀ g' heads c, same g g' → stored g' → AdvanceAll cur heads = Ok c → cur_Seq c = seq → cur_Hash c = tip → Q () g') →
  wp (checkDescends fuel v cur seq tip) Q g.
Proof.
  revert cur g Q. induction fuel as [|fuel IH]; intros cur g Q Hst Hb HQ; cbn [checkDescends]; destruct (seq <=? cur_Seq cur) eqn:Hle.
  1,3: apply wp_fail_if; [done|eauto with calm|]; intros [Hs Ht]%orb_false_iff; bool_simpl; apply Z.eqb_eq in Hs; by apply (HQ g [] cur).
  - apply wp_err; [done|]. intros Ha. destruct (Hb Ha) as (? & ? & ?). apply Z.leb_gt in Hle. lia.
  - apply Z.leb_gt in Hle. apply wp_bind, wp_ask; [done|..]. { intros e He Ha. by eapply ao_heads. }
    intros heads g1 Hheads S1 Hst1. apply wp_bind, wp_fail_if; [done|eauto with calm|]. intros Hn. apply Z.eqb_neq in Hn.
    apply wp_bind. destruct (AdvanceAll cur heads) as [cur1|e] eqn:Ea.
    + split; [done|]. cbn. apply IH; [done|..].
      * intros Ha. destruct (Hb Ha) as (B1 & B2 & B3). pose proof (ao_heads_len Ha _ _ _ _ _ Hheads) as Hl.
        destruct (AdvanceAll_seq cur heads cur1 Ea) as [Hs _]; unfold u64, MaxUint64, MaxInt64 in *; lia.
      * intros g2 heads2 c S2 Hst2 Ha2 Hs2 Ht2. apply (HQ g2 (heads ++ heads2) c); eauto using same_trans.
        unfold AdvanceAll in *. rewrite foldM_app, Ea. done.
    + split; [done|]. cbn. eauto with calm.
Qed.

Lemma wp_resync Q g : stored g → synced g → (∀ g', stored g' → synced g' → seq_of g ≤ seq_of g' → Q () g') → wp (resync keys clock others) Q g.
Proof.
  intros Hst Hsy HQ. unfold resync. apply wp_bind, wp_get_run; [done|]. apply wp_bind, wp_ask; [done|..].
  { intros e He Ha. by eapply ao_snapshot. }
  intros snap g1 Hsnap S1 Hst1. pose proof (same_synced _ _ S1 Hsy) as Hsy1. destruct (sn_Head snap) as [head|] eqn:Eh; [|apply wp_err; eauto with calm].
  apply wp_bind, wp_verified; [done|]. intros h [Hsig ->]%Head_Hash_Ok. apply wp_bind, wp_verified; [done|]. intros [] Hobs.
  destruct (h_Seq head =? _) eqn:Eseq. { apply wp_ret; [done|]. apply HQ; [done|done|]. rewrite (same_seq _ _ S1). lia. }
  apply Z.eqb_neq in Eseq. assert (seq_of g < h_Seq head) as Hlt.
  { unfold CheckObserved in Hobs. apply fail_if_Ok in Hobs as [Hl _]. apply Z.ltb_ge in Hl. unfold seq_of. lia. }
  destruct Hsy as (Hpv & Hvv & Hcur & Hmax & Hnn). rewrite Hpv. apply wp_bind, wp_checkDescends; [done|..].
  { intros Ha. specialize (Hnn Ha). pose proof (ao_snapshot_seq Ha _ _ _ _ Hsnap Eh). unfold seq_of in *. lia. }
  intros g2 heads c S2 Hst2 Hadv Hcs Hch. pose proof (same_synced _ _ S2 Hsy1) as Hsy2. apply wp_bind, wp_verifySnapshot; [done|done|].
  intros state g3 S3 Hst3 Hhd Hsv. pose proof (same_synced _ _ S3 Hsy2) as Hsy3. destruct Hhd as [Hv Hc _ _]. apply wp_bind, wp_get_run; [done|].
  cbn [snapshotDelta]. apply wp_bind, wp_landAs; [done|done|cbn; congruence|done|done|..].
  - intros Ha. cbn. by eapply ao_snapshot_seq.
  - intros h0 Hh0 _. apply rtc_once. exists heads, c. cbn. split_and!; [|done|done].
    assert (same g g3) as (Sh & _) by eauto using same_trans. rewrite Sh in Hh0. rewrite Hh0 in Hcur. by rewrite <- Hcur.
  - intros g4 Hst4 Hsy4 Hps _. apply wp_set_run; [done|]. apply HQ; [done|done|]. unfold seq_of at 2. cbn. rewrite Hps, Hc. cbn. lia.
Qed.

(** ** The loop *)

(** Rounds that suffice from where the run stands: every page advances the position, one resync may come in between. *)
Definition enough (F : Z) (k : bool → EM unit) : Prop := ∀ (resynced : bool) g, stored g → synced g →
  (answers_ok → 0 ≤ cur_Seq (vs_cursor (pr_state (g_run g))) → MaxInt64 - seq_of g + (if resynced then 1 else 2) ≤ F) →
  wp (k resynced) (λ _, synced) g.

Lemma enough_round F k : enough F k → enough (F + 1) (pull_round keys clock others k).
Proof.
  intros Hk resynced g Hst Hsy Hf. unfold pull_round. apply wp_bind, wp_get_run; [done|]. apply wp_bind, wp_try_ask; [done|].
  intros g1 S1 Hst1. pose proof (same_synced _ _ S1 Hsy) as Hsy1. assert (answers_ok → 0 ≤ seq_of g) as Hnn by (apply Hsy).
  pose proof (same_seq _ _ S1) as Hq. destruct (srv_Changes _ _ _ _).1 as [[commits more]|e] eqn:Ec.
  - apply wp_bind, wp_commits; [done|done|]. intros g2 Hst2 Hsy2 Hq2. destruct (negb more || _) eqn:Em; [by apply wp_ret|].
    apply orb_false_iff in Em as [_ Hn]. apply Z.eqb_neq in Hn. apply Hk; [done|done|]. intros Ha _. specialize (Hf Ha (Hnn Ha)). lia.
  - destruct (errors_is e ErrHistoryPruned).
    + destruct resynced; [by apply wp_ret|]. apply wp_bind, wp_resync; [done|done|]. intros g2 Hst2 Hsy2 Hq2. apply Hk; [done|done|].
      intros Ha _. specialize (Hf Ha (Hnn Ha)). lia.
    + apply wp_err; [done|]. intros Ha. by eapply ao_changes.
Qed.
Lemma enough_rounds n F k : enough F k → enough (F + 2 ^ Z.of_nat n) (pull_rounds keys clock others n k).
Proof.
  revert F k. induction n as [|n IH]; intros F k Hk.
  - change (2 ^ Z.of_nat 0) with 1. by apply enough_round.
  - rewrite Nat2Z.inj_succ, Z.pow_succ_r by lia. replace (F + 2 * 2 ^ Z.of_nat n) with (F + 2 ^ Z.of_nat n + 2 ^ Z.of_nat n) by lia.
    by apply IH, IH.
Qed.
Lemma enough_none : enough 0 (λ _, em_lift (Err [EOutOfFuel])).
Proof.
  intros resynced g Hst Hsy Hf. apply wp_err; [done|]. intros Ha. destruct Hsy as (_ & _ & _ & Hmax & Hnn). specialize (Hf Ha (Hnn Ha)).
  unfold seq_of in Hf. destruct resynced; lia.
Qed.
Lemma wp_pullAll g : stored g → synced g → wp (pullAll keys clock others) (λ _, synced) g.
Proof.
  intros Hst Hsy. unfold pullAll. apply wp_bind, wp_get_run; [done|]. apply wp_bind.
  assert (∀ g', stored g' → synced g' → wp (pull_loop keys clock others false) (λ _, synced) g') as Hloop.
  { intros g' Hst' Hsy'. apply (enough_rounds 64 0 _ enough_none); [done|done|]. intros Ha Hz. unfold seq_of.
    change (0 + 2 ^ Z.of_nat 64) with 18446744073709551616. unfold MaxInt64 in *. lia. }
  destruct (_ =? 0) eqn:E0.
  - apply Z.eqb_eq in E0. by apply wp_bootstrap.
  - apply wp_ret; [done|]. by apply Hloop.
Qed.

(** ** Starting *)

Lemma wp_get_store Q g : stored g → Q (g_store g) g → wp get_store Q g.
Proof. done. Qed.
Lemma fine_appendLog {A} (who : A → ID) (seq : A → Z) m es e : appendLog who seq m es = Err e → fine e.
Proof.
  unfold appendLog. destruct es as [|e0 es]; [done|]. generalize (who e0) as id. intros id.
  destruct (foldM _ _ _) as [st|e'] eqn:E; cbn; [done|]. intros [= <-]. revert E. generalize (m, log_last m id) as st.
  induction (e0 :: es) as [|x l IH]; intros st; cbn [foldM]; [done|]. destruct (append_entry _ _ _ _ _) eqn:Ex; [apply IH|]. intros [= <-].
  revert Ex. unfold append_entry. destruct (_ || _); [intros [= <-]; eauto with calm|]. destruct (_ || _); [intros [= <-]; eauto with calm|done].
Qed.
Lemma wp_AppendDeviceLog es Q g : stored g → (∀ g', stored g' → g_run g' = g_run g → Q () g') → wp (write_store (sd_AppendDeviceLog es)) Q g.
Proof.
  intros Hst HQ. unfold wp, write_store, sd_AppendDeviceLog. destruct (appendLog _ _ _ _) as [m|e] eqn:E; cbn; [|split; [done|by eapply fine_appendLog]].
  destruct Hst as [[G1 G2 G3] [B1 B2 B3]]. destruct (appendLog_grows _ _ _ _ _ E B2) as [Hb Hp].
  assert (stored (g_set_store (sd_set_device_entries m (g_store g)) g)) as Hs; [|split; [done|]; by apply HQ].
  split; constructor; try done. intros a. etrans; [apply G2|]. apply Hp.
Qed.
Lemma wp_AppendMembership es Q g : stored g → (∀ g', stored g' → g_run g' = g_run g → Q () g') → wp (write_store (sd_AppendMembership es)) Q g.
Proof.
  intros Hst HQ. unfold wp, write_store, sd_AppendMembership. destruct (appendLog _ _ _ _) as [m|e] eqn:E; cbn; [|split; [done|by eapply fine_appendLog]].
  destruct Hst as [[G1 G2 G3] [B1 B2 B3]]. destruct (appendLog_grows _ _ _ _ _ E B3) as [Hb Hp].
  assert (stored (g_set_store (sd_set_member_ops m (g_store g)) g)) as Hs; [|split; [done|]; by apply HQ].
  split; constructor; try done. intros w. etrans; [apply G3|]. apply Hp.
Qed.

Lemma wp_verifiedDeviceLog Q g : stored g → (∀ a g', stored g' → Q a g') → wp (verifiedDeviceLog keys) Q g.
Proof.
  intros Hst HQ. unfold verifiedDeviceLog. apply wp_bind, wp_calm; [eauto with calm|done|]. intros dl g1 _ Hst1.
  apply wp_bind, wp_get_store; [done|]. apply wp_bind, wp_verified; [done|]. intros dl1 _. apply wp_bind, wp_ask; [done|..].
  { intros e He Ha. by eapply ao_devices. }
  intros fresh g2 _ _ Hst2. apply wp_bind, wp_verified; [done|]. intros dl2 _.
  do 3 (apply wp_bind, wp_fail_if; [done|eauto with calm|]; intros _).
  apply wp_bind, wp_AppendDeviceLog; [done|]. intros g3 Hst3 _. apply wp_ret; [done|]. by apply HQ.
Qed.
Lemma wp_verifiedMembership vault check Q g : stored g → (∀ a g', stored g' → Q a g') → wp (verifiedMembership vault check) Q g.
Proof.
  intros Hst HQ. unfold verifiedMembership. apply wp_bind, wp_calm; [eauto with calm|done|]. intros ms g1 _ Hst1.
  apply wp_bind, wp_get_store; [done|]. apply wp_bind, wp_verified; [done|]. intros ms1 _. apply wp_bind, wp_ask; [done|..].
  { intros e He Ha. by eapply ao_members. }
  intros fresh g2 _ _ Hst2. apply wp_bind, wp_verified; [done|]. intros ms2 _.
  apply wp_bind, wp_AppendMembership; [done|]. intros g3 Hst3 _. apply wp_ret; [done|]. by apply HQ.
Qed.

Lemma restored_cursor head recs st : RestoreVaultState v head recs = Ok st →
  vs_vault st = v ∧ vs_cursor st = match head with Some h => head_cursor h | None => genesis_cursor v end.
Proof.
  unfold RestoreVaultState. intros [_ (ls & _ & Hr)%bind_Ok]%fail_if_Ok. apply RestoreVaultStateFromLeaves_Ok in Hr as (Hv & _ & Hd).
  split; [done|]. destruct head as [h|]; cbn in Hd; [apply Hd|]. by destruct Hd as [-> _].
Qed.
Lemma wp_startPull g : v = PersonalVaultID (kr_account keys) → stored g → wp (startPull keys) (λ _, synced) g.
Proof.
  intros Hv Hst. unfold startPull. rewrite <- Hv. apply wp_bind, wp_verifiedDeviceLog; [done|]. intros [dl fresh] g1 Hst1.
  apply wp_bind, wp_verifiedMembership; [done|]. intros ops g2 Hst2. apply wp_bind, wp_get_store; [done|].
  apply wp_bind, wp_verified; [done|]. intros state Hr. apply restored_cursor in Hr as [Hsv Hsc]. apply wp_bind, wp_set_run; [done|].
  match goal with |- wp _ _ ?gg => assert (synced gg) as Hsy end.
  { unfold synced. cbn. unfold LoadVault in Hsc. destruct Hst2 as [_ [B1 _ _]]. destruct (sd_heads (g_store g2) !! v) as [h|] eqn:Eh; cbn in Hsc; rewrite Hsc.
    - destruct (B1 v h Eh). split_and!; done.
    - split_and!; done. }
  destruct (_ !! VaultMetaID v); [|by apply wp_ret]. apply wp_calm; [eauto with calm|done|]. intros _ g' S _. by eapply same_synced.
Qed.
End from.

Lemma grown_refl s : grown s s.
Proof. constructor; [|done|done]. intros w h Hw _. exists h. split_and!; [done|lia|done]. Qed.

Lemma wp_Pull g : bounded (g_store g) → wp (g_store g) (Pull keys clock others) (λ _ _, True) g.
Proof.
  intros Hb. unfold Pull. set (v := PersonalVaultID (kr_account keys)). apply (wp_bind _ ). eapply wp_mono; [apply (wp_startPull _ v); [done|]; split; [apply grown_refl|done]|].
  intros u1 g1 Hst1 Hsy1. apply wp_bind. eapply wp_mono; [by apply (wp_pullAll _ v)|]. intros u2 g2 Hst2 _. apply wp_bind, wp_get_run; [done|].
  by apply wp_ret.
Qed.

(** C4. Whatever the server answers and whatever else the program does, and however the pull ends, a device keeps what it
    had verified: every vault it had a head of still has one, at that position or later, reached from the old one by
    heads that each name the hash of the one before - no rollback and no fork; and the logs it stored are only
    added to. *)
Theorem pull_never_rolls_back (g : Engine) : bounded (g_store g) → grown (g_store g) (g_store (Pull keys clock others g).2).
Proof. intros Hb. apply (wp_Pull g Hb). Qed.

(** C36. A pull ends: its loops never need more rounds than the model gives them, which is the room left in the position's
    column - whatever the server answers, as long as its answers are answers ([answers_ok]). *)
Theorem pull_terminates (g : Engine) :
  bounded (g_store g) → answers_ok → ended (Pull keys clock others g).1.
Proof.
  intros Hb Ha e He. destruct (wp_Pull g Hb) as [_ Hw]. rewrite He in Hw. by apply Hw.
Qed.
End laws.
