(* ===== verification/ClientDemo.v ===== *)
(** * ClientDemo: a device pulls its account's vault for the first time

    The account's device log and the membership log of its personal vault, and a commit of the vault's own
    record and one known host, all signed; a server that hands them out; and the pull, evaluated. The next
    commit deletes the host, which then waits for the user. *)

From S2P Require Import Prelude Bytes GoText SyncBase Sha2 Canon Envelope Merkle Head DeviceLog Retention Membership MembershipLog VaultState AgentForward Merge Version PluginPaths KnownHosts Rows VaultData SyncTrust ClientStore Client TrustLaws Weakening TrustDemo ClientLaws.

(** ** The account *)

Definition pd_account : ID := demo_id 5.
Definition pd_device : ID := demo_id 9.
Definition pd_vault : ID := PersonalVaultID pd_account.
Definition pd_keys : KeyRing := {|
  kr_account := pd_account; kr_device := pd_device; kr_identityKey := demo_key 1; kr_encSeed := []; kr_encKey := demo_enc 1;
  kr_genesisID := demo_key 1; kr_genesisEnc := demo_enc 1 |}.

Definition pd_log0 : DeviceLogState := log_genesis pd_account (demo_key 1) (demo_enc 1).
Definition pd_add : DeviceEntry :=
  demo_signed (demo_key 1) [] (demo_entry 1 (ds_hash pd_log0) OpAddDevice (Some (demo_cert 9)) ID_zero [] []).
Definition pd_create : MemberOp :=
  let o sig := {| op_Vault := pd_vault; op_Seq := 1; op_Prev := ms_hash (membership_genesis pd_vault); op_Kind := MemberCreate;
    op_Author := pd_account; op_AuthorDevice := pd_device; op_Subject := ID_zero; op_Role := 0; op_Verified := true;
    op_Fingerprint := demo_hash 4; op_Suite := Suite1; op_Epoch := 0;
    op_Wraps := [{| kw_Member := pd_account; kw_Digest := of_ok (array_zero 32) (wrapDigest demo_cipher); kw_Recipient := demo_hash 3;
                    kw_Ciphertext := demo_cipher |}];
    op_RevokedDevices := []; op_RetentionDays := 30;
    op_RequireVerified := true; op_Shred := false; op_TimeUnixMilli := 1000; op_SigAlg := SigEd25519; op_Sig := sig |} in
  o (demo_sign (demo_key 9) (frames (op_fields (o [])))).

(** ** Records: the last byte of a body tells which text it seals *)

Definition pd_line : bytes := demo_str "example.org ssh-rsa BBBB".
Definition pd_host_id : ID := of_ok ID_zero (RecordID demo_naming TypeKnownHost (demo_str "example.org ssh-rsa")).
Definition pd_texts : list (byte * text) :=
  [(Byte.x01, Tbody TypeVaultMeta 1 (Tmeta {| vm_NamingKey := demo_naming; vm_Name := [] |}));
   (Byte.x02, Tbody TypeKnownHost 1 (Thost {| kh_Line := pd_line |}))].
#[export] Instance pd_crypto : ClientCrypto := {|
  UnwrapVaultKey := λ _ _ _ _ _, Some [];
  cipher_Open := λ _ e, list_find (λ p, Some p.1 = last (e_Body e)) pd_texts ≫= λ p, Some p.2.2 |}.

Definition pd_record (id : ID) (version : Z) (body : option byte) : Envelope :=
  let e sig := {| e_Vault := pd_vault; e_Record := id; e_Version := version; e_Epoch := 0; e_Suite := Suite1;
    e_Deleted := if body is None then true else false; e_WrappedDEK := if body is Some _ then zeros 72 else [];
    e_Body := if body is Some b then zeros 295 ++ [b] else []; e_Author := pd_device; e_SigAlg := SigEd25519; e_Sig := sig |} in
  e (demo_sign (demo_key 9) (frames (envelope_fields (e [])))).
Definition pd_head (seq : Z) (prev root : hash) : Head :=
  let h sig := {| h_Vault := pd_vault; h_Seq := seq; h_PrevHash := prev; h_MerkleRoot := root; h_CurrentEpoch := 0; h_MembershipSeq := 1;
    h_MembershipHead := sha256 (op_input pd_create); h_Commit := demo_id seq; h_Author := pd_device; h_ClientTimeUnixMilli := 2000;
    h_SigAlg := SigEd25519; h_Sig := sig |} in
  h (demo_sign (demo_key 9) (frames (head_fields (h [])))).
Definition pd_root (es : list Envelope) : hash := of_ok (array_zero 32) (MerkleRoot (leaf_of <$> es)).

Definition pd_meta : Envelope := pd_record (VaultMetaID pd_vault) 1 (Some Byte.x01).
Definition pd_host : Envelope := pd_record pd_host_id 1 (Some Byte.x02).
Definition pd_first : Commit := {|
  c_Head := pd_head 1 (sha256 (genesis_input pd_vault)) (pd_root [pd_meta; pd_host]); c_Records := [pd_meta; pd_host]; c_Purged := [] |}.
Definition pd_gone : Envelope := pd_record pd_host_id 2 None.
Definition pd_second : Commit := {|
  c_Head := pd_head 2 (sha256 (head_input (c_Head pd_first))) (pd_root [pd_meta; pd_gone]); c_Records := [pd_gone]; c_Purged := [] |}.

(** ** The server and the device *)

(** The server has the first commit, or both. *)
#[export] Instance pd_server : SyncServer := {|
  srv := bool;
  srv_Changes := λ _ after _ more, (Ok (if more && (after =? 1) then ([{| rcm_Seq := 2; rcm_Commit := pd_second |}], false) else ([], false)), more);
  srv_Snapshot := λ _ more, (Ok {| sn_Head := Some (c_Head pd_first); sn_Records := c_Records pd_first |}, more);
  srv_Heads := λ _ _ _ more, (Ok [], more);
  srv_DeviceLog := λ _ after more, (Ok (if after =? 0 then [pd_add] else []), more);
  srv_Membership := λ _ after more, (Ok (if after =? 0 then [pd_create] else []), more);
  srv_Commit := λ _ more, (Err [NetError], more);
  srv_AppendMembership := λ _ _ more, (Err [NetError], more);
  srv_Versions := λ _ _ more, (Ok [], more) |}.

Definition pd_start (more : bool) (store : StateDB) (d : VaultData) : Engine := {|
  g_vault := d; g_store := store; g_server := more; g_ticks := 0;
  g_run := {| pr_vault := pd_vault; pr_ops := []; pr_members := None; pr_resolve := λ _, Err []; pr_check := λ _ _ _ _ _, Ok ();
    pr_state := vault_genesis pd_vault; pr_base := ∅; pr_names := ∅; pr_bodies := ∅; pr_namingKey := None; pr_report := PullReport_zero;
    pr_scope := personal; pr_landed := ∅; pr_preferRemote := false; pr_heldDeletions := ∅ |} |}.
Definition pd_clock (n : nat) : Z := Z.of_nat n.
Definition pd_others (_ : nat) (d : VaultData) : VaultData := d.
Definition pd_pull : Engine → result cerror PullReport * Engine := Pull pd_keys pd_clock pd_others.

Definition pd_g0 : Engine := pd_start false StateDB_empty NewVaultData.
Definition pd_g1 : Engine := let g := (pd_pull pd_g0).2 in pd_start true (g_store g) (g_vault g).

(** The first pull takes the host over; the second, its deletion, leaves it to the user. *)
Example first_pull :
  (λ r, (rp_Commits r, rp_Applied r, rp_Held r)) <$> (pd_pull pd_g0).1 = Ok (1, 1, 0) ∧ vd_KnownHosts (g_vault (pd_pull pd_g0).2) = [pd_line].
Proof. vm_compute. split; reflexivity. Qed.
Example second_pull :
  (λ r, (rp_Commits r, rp_Applied r, rp_Held r)) <$> (pd_pull pd_g1).1 = Ok (1, 0, 1) ∧ vd_KnownHosts (g_vault (pd_pull pd_g1).2) = [pd_line].
Proof. vm_compute. split; reflexivity. Qed.

Lemma pd_bounded : bounded (g_store pd_g1).
Proof.
  assert (bool_decide (map_Forall (λ _ h, h_Seq h ≤ MaxInt64 ∧ 0 ≤ h_Seq h) (sd_heads (g_store pd_g1))) = true ∧
    bool_decide (map_Forall (λ k _, k.2 ≤ MaxInt64) (sd_device_entries (g_store pd_g1))) = true ∧
    bool_decide (map_Forall (λ k _, k.2 ≤ MaxInt64) (sd_member_ops (g_store pd_g1))) = true) as (Hh & Hd & Hm)
    by (vm_compute; repeat split; reflexivity).
  apply bool_decide_eq_true in Hh, Hd, Hm. constructor.
  - intros v h Hv. destruct (Hh v h Hv). auto.
  - intros k q a. apply (Hd (k, q) a).
  - intros k q a. apply (Hm (k, q) a).
Qed.
Lemma pd_answers : answers_ok.
Proof.
  split; try (intros; intros e He; discriminate He).
  - intros v s r h Hr Hh. apply Ok_inj in Hr as <-. apply (inj Some) in Hh as <-. by vm_compute.
  - intros v a b s l Hl. apply Ok_inj in Hl as <-. by vm_compute.
Qed.

Lemma pull_never_rolls_back_witness : grown (g_store pd_g1) (g_store (Pull pd_keys pd_clock pd_others pd_g1).2).
Proof. exact (pull_never_rolls_back pd_keys pd_clock pd_others pd_g1 pd_bounded). Defined.

Lemma pull_terminates_witness : ended (Pull pd_keys pd_clock pd_others pd_g1).1.
Proof. exact (pull_terminates pd_keys pd_clock pd_others pd_g1 pd_bounded pd_answers). Defined.
