(* ===== verification/Interpret.v ===== *)
(** * Interpret: what a commit may do to the vault

    [interpret] and [landAs] of [internal/usecase] against the rules of [internal/domain/synctrust]: every
    change a commit makes without the user is one of its records, filed under its own name, that the rules
    let through; so landing a commit weakens nothing, and a connection another member moved loses this
    member's credentials. The exception is a deletion, which the code names by what was stored: the
    theorems ask for records stored under their own names, and the last one shows what happens otherwise. *)

From S2P Require Import Prelude Bytes GoText SyncBase Canon Envelope Head Membership VaultState AgentForward Merge Version PluginPaths KnownHosts VaultData SyncTrust ClientStore Client TrustLaws Weakening Scopes Credentials.

Section interpret.
Context `{!RawJSON, !RecordJSON, !Crypto, !SyncServer, !ClientCrypto}.
Context (keys : KeyRing) (clock : nat → Z) (others : nat → VaultData → VaultData).
#[local] Existing Instances EM_ret EM_bind.
Implicit Types (p : pullRun) (r : Envelope) (out : interpretation).

(** ** What holds after a computation that succeeds *)

Definition post {A} (m : EM A) (Q : A → Engine → Prop) (g : Engine) : Prop := ∀ a g', m g = (Ok a, g') → Q a g'.

Lemma post_bind {A B} (m : EM A) (f : A → EM B) Q g : post m (λ a g1, post (f a) Q g1) g → post (m ≫= f) Q g.
Proof. unfold post, mbind, EM_bind, ST_bind. intros Hm b g'. destruct (m g) as [[a|e] g1] eqn:E; [|done]. intros Hf. by eapply Hm. Qed.
Lemma post_ret {A} (a : A) (Q : A → Engine → Prop) g : Q a g → post (mret a) Q g.
Proof. by intros HQ a' g' [= <- <-]. Qed.
Lemma post_mono {A} (m : EM A) (Q R : A → Engine → Prop) g : post m Q g → (∀ a g', Q a g' → R a g') → post m R g.
Proof. intros Hm HQ a g' E. apply HQ. by apply Hm. Qed.
Lemma post_get_run (Q : pullRun → Engine → Prop) g : Q (g_run g) g → post get_run Q g.
Proof. by intros HQ a g' [= <- <-]. Qed.
Lemma post_set_run f (Q : unit → Engine → Prop) g : Q () (g_set_run (f (g_run g)) g) → post (set_run f) Q g.
Proof. by intros HQ a g' [= <- <-]. Qed.
Lemma post_lift {A} (x : result cerror A) (Q : A → Engine → Prop) g : (∀ a, x = Ok a → Q a g) → post (em_lift x) Q g.
Proof. unfold post, em_lift, st_lift. intros HQ a g' [= E <-]. by apply HQ. Qed.
Lemma post_fail_if b e (Q : unit → Engine → Prop) g : (b = false → Q () g) → post (em_fail_if b e) Q g.
Proof. intros HQ a g'. unfold em_fail_if. destruct b; [done|]. intros [= <- <-]. by apply HQ. Qed.
Lemma post_fold {A B} (I : A → Engine → Prop) (f : A → B → EM A) l : (∀ a b g, b ∈ l → I a g → post (f a b) I g) → ∀ a g, I a g → post (em_fold f a l) I g.
Proof.
  induction l as [|b l IH]; intros Hf a g Hi; cbn [em_fold]; [by apply post_ret|]. apply post_bind.
  eapply post_mono; [apply Hf; [by left|done]|]. intros a1 g1 Hi1. apply IH; [|done]. intros a2 b2 g2 Hb. apply Hf. by right.
Qed.

(** ** Names *)

Lemma NaturalKey_nonempty t data key : NaturalKey t data = Ok key → key ≠ [].
Proof.
  unfold NaturalKey. intros (m & Hm & Hk)%bind_Ok.
  assert (∀ T (J : GoJSON T) (keyOf : T → bytes), keyFrom keyOf data = Ok key → key ≠ []) as Hfrom.
  { intros T J keyOf (v & _ & [Hn [= <-]]%fail_if_Ok)%bind_Ok. by bool_simpl. }
  apply mapperFor_cases in Hm as [(section & Es & ->)|Hin].
  - cbn in Hk. destruct (ApplySection _ _ _); [|done]. apply Ok_inj in Hk as <-.
    unfold IsSettingsType in Es. destruct (list_find _ _) as [[i s]|] eqn:Ef; [|done]. apply (inj Some) in Es as <-.
    apply list_find_Some in Ef as (Hi & _ & _). apply list_elem_of_lookup_2 in Hi. unfold settingsSections in Hi.
    rewrite !elem_of_cons, elem_of_nil in Hi. naive_solver.
  - unfold mappers in Hin. rewrite !elem_of_cons, elem_of_nil in Hin.
    repeat (destruct Hin as [[= _ ->]|Hin]; [cbn [m_keyOf folderMapper connectionMapper identityMapper passwordMapper pluginSecretMapper peerTrustMapper conflictMapper
      contactMapper teamMapper bindingMapper pluginInstallMapper pluginDataMapper knownHostMapper sliceMapper mapMapper] in Hk; try exact (Hfrom _ _ _ Hk)|]); [|destruct Hin].
    apply bind_Ok in Hk as (v & _ & Hk). unfold knownHostKey in Hk. destruct (_ <? _)%nat eqn:El; [done|]. apply Ok_inj in Hk as <-.
    apply Nat.ltb_ge in El. destruct (marked _), (Fields (kh_Line v)) as [|f1 [|f2 fs]]; cbn in El |- *; try lia;
      intros Hnil; by apply app_eq_nil in Hnil as [_ ?].
Qed.

(** The records stored are filed under their own names. *)
Definition filed (nk : bytes) p : Prop := ∀ id env body key, pr_base p !! id = Some env → e_Deleted env = false →
  open_record keys p env = Ok body → NaturalKey (bd_Type body) (bd_Data body) = Ok key → RecordID nk (bd_Type body) key = Ok id.
Definition named (nk : bytes) p : Prop := ∀ id n, pr_names p !! id = Some n → n.2 ≠ [] ∧ RecordID nk n.1 n.2 = Ok id.
Definition well_filed p : Prop :=
  match pr_namingKey p with Some nk => filed nk p ∧ named nk p | None => pr_base p = ∅ ∧ pr_names p = ∅ end.

(** ** While a commit is read *)

(** The run [p0] a commit is read in, up to names and cached bodies; the vault is not touched. *)
Record reading (p0 : pullRun) (d0 : VaultData) (nk : bytes) (g : Engine) : Prop := {
  rd_vault : pr_vault (g_run g) = pr_vault p0; rd_ops : pr_ops (g_run g) = pr_ops p0; rd_base : pr_base (g_run g) = pr_base p0;
  rd_resolve : pr_resolve (g_run g) = pr_resolve p0; rd_scope : pr_scope (g_run g) = pr_scope p0;
  rd_key : pr_namingKey (g_run g) = Some nk; rd_data : g_vault g = d0;
  rd_names : filed nk p0 → named nk p0 → named nk (g_run g);
}.

Lemma reading_open p0 d0 nk g r : reading p0 d0 nk g → open_record keys (g_run g) r = open_record keys p0 r.
Proof. intros [Hv Ho _ _ _ _ _ _]. unfold open_record. by rewrite Hv, Ho. Qed.
Lemma reading_nameOf p0 d0 nk g id t k : reading p0 d0 nk g → filed nk p0 → named nk p0 → nameOf keys (g_run g) id = Some (t, k) →
  k ≠ [] ∧ RecordID nk t k = Ok id.
Proof.
  intros Hr Hf Hn. unfold nameOf. destruct (pr_names (g_run g) !! id) as [n|] eqn:En.
  { intros [= ->]. by apply (rd_names _ _ _ _ Hr Hf Hn id (t, k)). }
  rewrite (rd_base _ _ _ _ Hr). destruct (pr_base p0 !! id) as [prev|] eqn:Eb; [|done]. destruct (e_Deleted prev) eqn:Ed; [done|].
  rewrite (reading_open p0 d0 nk) by done. destruct (open_record keys p0 prev) as [body|] eqn:Eo; [|done].
  destruct (NaturalKey _ _) as [key|] eqn:Ek; [|done]. intros [= <- <-]. split; [by eapply NaturalKey_nonempty|by eapply Hf].
Qed.

Lemma reading_bodies p0 d0 nk g b : reading p0 d0 nk g → reading p0 d0 nk (g_set_run (pr_set_bodies b (g_run g)) g).
Proof. by intros []. Qed.
Lemma reading_tick p0 d0 nk g : reading p0 d0 nk g → reading p0 d0 nk (g_tick g).
Proof. by intros []. Qed.

(** ** Records *)

Section reading.
Context (p0 : pullRun) (d0 : VaultData) (nk : bytes).
Abbreviation rd := (reading p0 d0 nk).

Lemma post_hold r b g : rd g → post (hold clock r b) (λ _, rd) g.
Proof. intros Hr. apply post_bind. intros a g' [= <- <-]. by apply post_ret, reading_tick. Qed.
Lemma post_baseBody id g : rd g → post (baseBody keys id) (λ _, rd) g.
Proof.
  intros Hr. apply post_bind, post_get_run. destruct (pr_bodies _ !! id); [by apply post_ret|].
  destruct (pr_base _ !! id) as [env|]; [|by apply post_ret]. destruct (e_Deleted env); [by apply post_ret|].
  destruct (open_record _ _ _); [|by apply post_ret]. apply post_bind, post_set_run, post_ret. by apply reading_bodies.
Qed.

(** The change a record makes, by its kind and name. *)
Definition carries r (e : Entry) : Prop :=
  match en_Data e with
  | Some _ => en_Key e ≠ [] ∧ RecordID nk (en_Type e) (en_Key e) = Ok (e_Record r)
  | None => e_Deleted r = true ∧ (filed nk p0 → named nk p0 → en_Key e ≠ [] ∧ RecordID nk (en_Type e) (en_Key e) = Ok (e_Record r))
  end.

Lemma post_checkFiled r body g : rd g →
  post (checkFiled r nk body) (λ x g', rd g' ∧ if x is DEntry e then carries r e else True) g.
Proof.
  intros Hr. unfold checkFiled. destruct (NaturalKey _ _) as [key|] eqn:Ek; [|by apply post_ret].
  destruct (RecordID _ _ _) as [id|] eqn:Ei; [|by apply post_ret]. case_bool_decide as Hid; cbn [negb]; [|by apply post_ret].
  destruct (Validate _); [|by apply post_ret]. apply post_bind, post_get_run, post_bind, post_set_run, post_ret. subst id.
  pose proof (NaturalKey_nonempty _ _ _ Ek) as Hne. split; [|done]. destruct Hr. constructor; try done. intros Hf Hn id n. cbn.
  intros [[<- <-]|[_ ?]]%lookup_insert_Some; [done|]. by apply rd_names0.
Qed.
Lemma post_decode r g : rd g → post (decode_record keys r) (λ x g', rd g' ∧ if x is DEntry e then carries r e else True) g.
Proof.
  intros Hr. apply post_bind, post_get_run. rewrite (rd_key _ _ _ _ Hr). destruct (e_Deleted r) eqn:Ed.
  - apply post_ret. destruct (nameOf keys (g_run g) (e_Record r)) as [[t k]|] eqn:En; [|done]. split; [done|]. split; [done|].
    intros Hf Hn. by eapply reading_nameOf.
  - destruct (open_record _ _ _); [|by apply post_ret]. destruct (RecordAccess _ _ _); try by apply post_ret. by apply post_checkFiled.
Qed.

Lemma ConflictEntries_type t k cs now es : ConflictEntries t k cs now = Ok es → ∀ e, e ∈ es → en_Type e = TypeConflict.
Proof.
  intros HF. eapply (foldM_inv (λ out : list Entry, ∀ e, e ∈ out → en_Type e = TypeConflict) _ _ _ _ _ _ HF).
  Unshelve.
  - intros out c out' Hout _ Hc. unfold conflict_entry in Hc. destruct (Marshal _); [|done]. apply Ok_inj in Hc as <-. intros e.
    rewrite elem_of_app, list_elem_of_singleton. intros [?| ->]; [auto|done].
  - intros e ?%elem_of_nil. done.
Qed.

(** [out'] adds conflict records to [out] and nothing else. *)
Definition adds_conflicts out (out' : interpretation) : Prop := ∃ es, out' = add_changes es out ∧ ∀ e, e ∈ es → en_Type e = TypeConflict.
Lemma adds_nothing out : adds_conflicts out out.
Proof. exists []. split; [|by intros e ?%elem_of_nil]. unfold add_changes. destruct out. cbn. by rewrite app_nil_r. Qed.

Lemma post_mergeLocal out r e local g : rd g → carries r e →
  post (mergeLocal keys clock out (e_Record r) e local)
    (λ x g', rd g' ∧ adds_conflicts out x.1 ∧ if x.2 is Some e' then carries r e' ∧ en_Type e' = en_Type e ∧ en_Key e' = en_Key e else True) g.
Proof.
  intros Hr Hc. pose proof (adds_nothing out). apply post_bind, post_get_run. destruct local as [l|]; [|by apply post_ret].
  destruct (_ || _); [by apply post_ret|]. unfold editedLocally. apply post_bind, post_bind. eapply post_mono; [by apply post_baseBody|].
  intros b g1 Hg1. apply post_ret. destruct (negb _); [by apply post_ret|]. destruct (en_Data e) as [remote|] eqn:Ed; [|by apply post_ret].
  apply post_bind. eapply post_mono; [by apply post_baseBody|]. intros b2 g2 Hg2.
  destruct (MergeData _ _ _ _) as [[merged conflicts]|]; [|by apply post_ret]. destruct (negb _); [by apply post_ret|].
  apply post_bind. intros now g3 [= <- <-]. apply reading_tick in Hg2.
  destruct (ConflictEntries _ _ _ _) as [ces|] eqn:Ec; [|by apply post_ret]. apply post_ret. split_and!; [done| |].
  - exists ces. split; [done|]. by eapply ConflictEntries_type.
  - unfold carries in *. rewrite Ed in Hc. done.
Qed.

(** ** Which changes a commit makes *)

(** A connection's address is another one: it changed, or the connection went, or came back. *)
Definition moved p r (e : Entry) (local : option raw) : Prop :=
  match en_Data e, local with
  | None, _ => True
  | Some _, None => ∃ prev, pr_base p !! e_Record r = Some prev ∧ e_Deleted prev = true
  | Some new, Some old => ∀ x y, decodeData (T := Connection) old = Some x → decodeData (T := Connection) new = Some y →
      (cn_Host x, cn_Port x, cn_Hops x) ≠ (cn_Host y, cn_Port y, cn_Hops y)
  end.
Lemma moved_repoints p r e local : moved p r e local → repoints p (e_Record r) e local = true.
Proof.
  unfold moved, repoints. destruct (en_Data e) as [new|]; [|done]. destruct local as [old|]; [|by intros (prev & -> & ->)].
  unfold AddressChanged. destruct (decodeData old) as [x|], (decodeData new) as [y|]; try done. intros Hm. specialize (Hm x y eq_refl eq_refl).
  destruct (decide (cn_Host x = cn_Host y)) as [E1|]; [|by rewrite bool_decide_eq_false_2].
  destruct (decide (cn_Port x = cn_Port y)) as [E2|]; [|rewrite (proj2 (Z.eqb_neq _ _)) by done; by rewrite orb_true_r].
  rewrite (bool_decide_eq_false_2 (cn_Hops x = cn_Hops y)) by congruence. by rewrite orb_true_r.
Qed.

Definition suspends r (e : Entry) (local : option raw) out : Prop :=
  sco_Vault (pr_scope p0) ≠ [] → en_Type e = TypeConnection → moved p0 r e local →
  ∀ acct key, pr_resolve p0 (e_Author r) = Ok (acct, key) → acct ≠ kr_account keys → (en_Key e, ID_String acct) ∈ in_suspend out.

(** A change the rules let through, for the record that makes it. *)
Definition judged (held : gmap ID Entry) (rs : list Envelope) out (e : Entry) : Prop :=
  en_Type e = TypeConflict ∨ ∃ r, r ∈ rs ∧ carries r e ∧ Allows (pr_scope p0) (en_Type e) = true ∧
    verdict e (held !! e_Record r ≫= en_Data) held = Ok ActionApply ∧ suspends r e (held !! e_Record r ≫= en_Data) out.
Definition sound held rs out : Prop :=
  (∀ e, e ∈ in_changes out → judged held rs out e) ∧ Forall (λ x, x.2 ≠ []) (in_suspend out).

Lemma judged_mono held rs out out' e : in_suspend out ⊆ in_suspend out' → judged held rs out e → judged held rs out' e.
Proof. intros Hs [?|(r & Hr & Hc & Ha & Hv & Hsus)]; [by left|right]. exists r. split_and!; try done. 
  intros Hv1 Hv2 Hv3 acct key Hv4 Hv5. by apply Hs, (Hsus Hv1 Hv2 Hv3 acct key). Qed.
Lemma sound_quarantine held rs out q : sound held rs out → sound held rs (add_quarantine q out).
Proof. done. Qed.
Lemma sound_conflicts held rs out out' : adds_conflicts out out' → sound held rs out → sound held rs out'.
Proof.
  intros (es & -> & Hes) [Hc Hs]. split; [|done]. intros e. cbn. rewrite elem_of_app. intros [He|He]; [|by left; apply Hes].
  by apply (judged_mono held rs out), Hc.
Qed.
Lemma noteRepointing_changes p r e local out : in_changes (noteRepointing keys p r e local out) = in_changes out.
Proof. unfold noteRepointing. destruct (_ || _); [done|]. destruct (pr_resolve p _) as [[acct ?]|]; [|done]. by destruct (_ =?? _). Qed.
Lemma noteRepointing_suspend p r e local out :
  in_suspend out ⊆ in_suspend (noteRepointing keys p r e local out) ∧
  (Forall (λ x, x.2 ≠ []) (in_suspend out) → Forall (λ x, x.2 ≠ []) (in_suspend (noteRepointing keys p r e local out))).
Proof.
  unfold noteRepointing. destruct (_ || _); [done|]. destruct (pr_resolve p _) as [[acct ?]|]; [|done]. destruct (_ =?? _); [done|]. cbn. split.
  - intros x Hx. apply elem_of_app. by left.
  - intros Hx. apply Forall_app. split; [done|]. apply Forall_singleton. apply ID_String_nonempty.
Qed.

Lemma post_route held rs out r e g : rd g → r ∈ rs → carries r e → Allows (pr_scope p0) (en_Type e) = true → sound held rs out →
  post (route keys clock out r e held) (λ out' g', rd g' ∧ sound held rs out') g.
Proof.
  intros Hr Hin Hc Ha Hs. unfold route. set (local := held !! e_Record r ≫= en_Data). apply post_bind.
  eapply post_mono; [by apply post_mergeLocal|]. intros [out1 e1] g1 (Hr1 & Hadd & He1). cbn [fst snd] in *.
  eapply sound_conflicts in Hs; [|done]. destruct e1 as [e1|]; [|by apply post_ret]. destruct He1 as (Hc1 & Et & Ek).
  destruct (verdict e1 local held) as [[]|] eqn:Ev;
    try (apply post_bind; eapply post_mono; [by apply post_hold|]; intros q g2 Hr2; by apply post_ret).
  apply post_bind, post_get_run, post_ret. split; [done|]. destruct Hs as [Hs1 Hs2].
  destruct (noteRepointing_suspend (g_run g1) r e1 local (add_applied e1 (e_Record r) out1)) as [Hsub Hall]. split; [|by apply Hall].
  intros x. rewrite noteRepointing_changes. cbn. rewrite elem_of_app, list_elem_of_singleton.
  intros [Hx| ->]; [by apply (judged_mono held rs out1), Hs1|]. right. exists r. split_and!; [done|done|by rewrite Et|done|].
  intros Hv Ht Hm acct key Hres Hne. apply moved_repoints in Hm. apply (noteRepointing_adds keys (g_run g1) r e1 local _ acct key); try done.
  - by rewrite (rd_scope _ _ _ _ Hr1).
  - unfold repoints in *. by rewrite (rd_base _ _ _ _ Hr1).
  - by rewrite (rd_resolve _ _ _ _ Hr1).
Qed.

Lemma post_records held rs g : rd g →
  post (em_fold (interpret_record keys clock held) interpretation_empty rs) (λ out g', rd g' ∧ sound held rs out) g.
Proof.
  intros Hr. apply (post_fold (λ out g', rd g' ∧ sound held rs out)); [|split; [done|]].
  - intros out r g1 Hin [Hr1 Hs]. unfold interpret_record. apply post_bind, post_get_run. destruct (_ =?? _); [by apply post_ret|].
    apply post_bind. eapply post_mono; [by apply post_decode|]. intros [e| |] g2 [Hr2 Hc]; [|by apply post_ret|].
    + rewrite (rd_scope _ _ _ _ Hr1). destruct (Allows _ _) eqn:Ea; [by apply post_route|].
      apply post_bind. eapply post_mono; [by apply post_hold|]. intros q g3 Hr3. by apply post_ret.
    + apply post_bind. eapply post_mono; [by apply post_hold|]. intros q g3 Hr3. by apply post_ret.
  - split; [by intros e ?%elem_of_nil|constructor].
Qed.
End reading.

(** The vault's own record, read first, may teach the naming key. *)
Record learned (g0 g : Engine) : Prop := {
  le_vault : pr_vault (g_run g) = pr_vault (g_run g0); le_ops : pr_ops (g_run g) = pr_ops (g_run g0);
  le_base : pr_base (g_run g) = pr_base (g_run g0); le_resolve : pr_resolve (g_run g) = pr_resolve (g_run g0);
  le_scope : pr_scope (g_run g) = pr_scope (g_run g0); le_names : pr_names (g_run g) = pr_names (g_run g0);
  le_key : ∀ k, pr_namingKey (g_run g0) = Some k → pr_namingKey (g_run g) = Some k;
  le_data : g_vault g = g_vault g0; le_ticks : g_ticks g = g_ticks g0;
}.
Lemma post_learn g0 r g : learned g0 g → post (learnMeta keys r) (λ _, learned g0) g.
Proof.
  intros Hl. apply post_bind, post_get_run, post_bind, post_fail_if. intros _. apply post_bind, post_lift. intros body _. apply post_bind, post_lift.
  intros key _. apply post_bind, post_fail_if. intros Hk. apply post_set_run. destruct Hl. constructor; try done.
  intros k0 E0. cbn. rewrite (le_key0 k0 E0) in Hk. apply negb_false_iff, bool_decide_eq_true in Hk. by rewrite Hk.
Qed.

(** Without a naming key nothing is applied. *)
Lemma post_unnamed held rs g d : pr_namingKey (g_run g) = None → g_vault g = d →
  post (em_fold (interpret_record keys clock held) interpretation_empty rs) (λ out g', in_changes out = [] ∧ in_suspend out = [] ∧ g_vault g' = d) g.
Proof.
  intros Hk Hd. eapply post_mono; [apply (post_fold (λ out g', pr_namingKey (g_run g') = None ∧ in_changes out = [] ∧ in_suspend out = [] ∧ g_vault g' = d))|naive_solver].
  - intros out r g1 _ (Hk1 & Hc1 & Hs1 & Hd1). unfold interpret_record. apply post_bind, post_get_run. destruct (_ =?? _); [by apply post_ret|].
    apply post_bind. unfold decode_record. apply post_bind, post_get_run. rewrite Hk1. apply post_ret, post_bind, post_bind.
    intros n g2 [= <- <-]. apply post_ret, post_ret. done.
  - done.
Qed.

(** What a commit means, as [interpret] reads it: nothing at all without a naming key, and otherwise changes the rules
    let through, judged against the vault as it is then. *)
Lemma post_interpret c g :
  post (interpret keys clock others c) (λ out g',
    (in_changes out = [] ∧ in_suspend out = [] ∧ g_vault g' = g_vault g) ∨
    ∃ nk held, (∀ k, pr_namingKey (g_run g) = Some k → k = nk) ∧ reading (g_run g) (others (g_ticks g) (g_vault g)) nk g' ∧
      SnapshotScope nk (others (g_ticks g) (g_vault g)) (pr_scope (g_run g)) = Ok held ∧ sound (g_run g) nk held (c_Records c) out) g.
Proof.
  unfold interpret. apply post_bind, post_get_run, post_bind. unfold em_for.
  eapply post_mono; [apply (post_fold (λ _, learned g)); [intros _ r g1 _; apply post_learn|by constructor]|].
  intros [] g1 Hl. apply post_bind. unfold localSnapshot. apply post_bind, post_get_run. destruct (pr_namingKey (g_run g1)) as [nk|] eqn:Ek.
  - apply post_bind. intros d g2 [= <- <-]. apply post_lift. intros held Hh. rewrite (le_data _ _ Hl), (le_ticks _ _ Hl), (le_scope _ _ Hl) in Hh.
    destruct (SnapshotScope _ _ _) as [snap|] eqn:Es; [|done]. apply Ok_inj in Hh as ->.
    eapply post_mono; [apply (post_records (g_run g) (others (g_ticks g) (g_vault g)) nk)|].
    + destruct Hl. constructor; try done; cbn.
      * by rewrite le_data0, le_ticks0.
      * unfold named. by rewrite le_names0.
    + intros out g3 [Hr Hs]. right. exists nk, held. split_and!; try done. intros k E0. apply (le_key _ _ Hl) in E0. congruence.
  - apply post_ret. eapply post_mono; [by apply (post_unnamed _ _ _ (g_vault g1))|]. intros out g2 (?&?&->). left. split_and!; [done|done|apply Hl].
Qed.

(** ** Landing *)

(** Computations that leave the vault alone, however they end, when nothing else runs. *)
Definition vault_kept {A} (m : EM A) : Prop := ∀ g, g_vault (m g).2 = g_vault g.
Lemma kept_bind {A B} (m : EM A) (f : A → EM B) : vault_kept m → (∀ a, vault_kept (f a)) → vault_kept (m ≫= f).
Proof.
  intros Hm Hf g. specialize (Hm g). unfold mbind, EM_bind, ST_bind. destruct (m g) as [[a|e] g1]; cbn in *; [|done]. by rewrite (Hf a g1).
Qed.
Lemma bind_tail {A B} (m : EM A) (f : A → EM B) g : (∀ a, vault_kept (f a)) → g_vault ((m ≫= f) g).2 = g_vault (m g).2.
Proof. intros Hf. unfold mbind, EM_bind, ST_bind. destruct (m g) as [[a|e] g1]; [apply Hf|done]. Qed.
Lemma kept_fold {A B} (f : A → B → EM A) a l : (∀ a b, vault_kept (f a b)) → vault_kept (em_fold f a l).
Proof. intros Hf. revert a. induction l as [|b l IH]; intros a; cbn; [done|]. by apply kept_bind. Qed.
Lemma kept_fail_if b e : vault_kept (em_fail_if b e).
Proof. intros g. by destruct b. Qed.
Lemma kept_write f : vault_kept (write_store f).
Proof. intros g. unfold write_store. by destruct (f _). Qed.
Ltac kept_step :=
  match goal with
  | |- vault_kept (_ ≫= _) => apply kept_bind; [|intros]
  | |- vault_kept (em_fold _ _ _) => apply kept_fold; intros
  | |- vault_kept (em_for _ _) => apply kept_fold; intros
  | |- vault_kept (em_fail_if _ _) => apply kept_fail_if
  | |- vault_kept (set_run _) => exact (λ _, eq_refl)
  | |- vault_kept (write_store _) => apply kept_write
  | |- vault_kept (match ?x with _ => _ end) => destruct x
  | |- vault_kept _ => solve [by intros g]
  end.
Lemma kept_settle out : vault_kept (settleQuarantine out).
Proof. unfold settleQuarantine. repeat kept_step. Qed.
Lemma kept_interpret c : (∀ n d, others n d = d) → vault_kept (interpret keys clock others c).
Proof.
  intros Ho. assert (vault_kept (GetData others)) by (intros g; cbn; apply Ho). assert (∀ id, vault_kept (baseBody keys id)) by (intros; unfold baseBody; repeat kept_step).
  assert (∀ r b, vault_kept (hold clock r b)) by (intros; unfold hold; repeat kept_step).
  unfold interpret, learnMeta, localSnapshot, interpret_record, decode_record, checkFiled, route, mergeLocal, editedLocally.
  repeat first [assumption|kept_step|match goal with Hk : ∀ _, vault_kept _ |- _ => apply Hk end|match goal with Hk : ∀ _ _, vault_kept _ |- _ => apply Hk end].
Qed.

(** What landing does to the vault, when nothing else runs. *)
Lemma landAs_vault c meaning next g :
  (∀ n d, others n d = d) → ensureVaultData (g_vault g) = g_vault g →
  g_vault (landAs keys clock others c meaning next g).2 = g_vault g ∨
  ∃ out g1, interpret keys clock others meaning g = (Ok out, g1) ∧
    applyInterpretation (pr_scope (g_run g1)) out (g_vault g) = Ok (g_vault (landAs keys clock others c meaning next g).2).
Proof.
  intros Ho He. remember (g_vault (landAs keys clock others c meaning next g).2) as d1 eqn:Ed. pose proof (kept_interpret meaning Ho g) as Hk.
  unfold landAs, mbind at 1, EM_bind at 1, ST_bind at 1 in Ed.
  destruct (interpret keys clock others meaning g) as [[out|e] g1] eqn:Ei; cbn [fst snd] in *; [|left; congruence].
  unfold mbind at 1, EM_bind at 1, ST_bind at 1 in Ed. cbn [get_run] in Ed.
  rewrite bind_tail in Ed by (intros []; apply kept_bind; [apply kept_settle|]; intros ?; repeat kept_step).
  destruct (len (in_changes out) =? 0); [left; rewrite Ed; exact Hk|].
  unfold UpdateData in Ed. rewrite Ho, Hk, He in Ed. destruct (applyInterpretation _ _ _) as [d'|e] eqn:Ea; [|by left].
  right. exists out, g1. split; [done|]. by rewrite Ed.
Qed.


Lemma ApplyScope_nil d s : ApplyScope d s [] = Ok d.
Proof. unfold ApplyScope. by destruct (negb _). Qed.
Lemma suspended_no_weaker vault l d (d' : VaultData) : no_weaker d d' → no_weaker d (foldl (λ d x, SuspendBindings vault x.1 x.2 d) d' l).
Proof.
  intros Hd. revert d' Hd. induction l as [|x l IH]; intros d' Hd; [done|]. apply IH. unfold SuspendBindings. destruct (vd_Sync d'); [|done]. by destruct Hd.
Qed.
Lemma well_filed_key p nk : well_filed p → (∀ k, pr_namingKey p = Some k → k = nk) → filed nk p ∧ named nk p.
Proof.
  unfold well_filed. destruct (pr_namingKey p) as [k|]; [by intros ? <-%(λ Hk, Hk k eq_refl)|]. intros [Hb Hn] _. split.
  - intros id env body key Hi. by rewrite Hb in Hi.
  - intros id n Hi. by rewrite Hn in Hi.
Qed.

(** ** The theorems *)

(** No change of [cs] shares its record's id with an item of another name. *)
Definition unambiguous (nk : bytes) (held : gmap ID Entry) (cs : list Entry) : Prop := ∀ x e id,
  x ∈ cs → RecordID nk (en_Type x) (en_Key x) = Ok id → held !! id = Some e → en_Type e = en_Type x ∧ en_Key e = en_Key x.


(** C20. When a change of another account moves a team's connection - to another host, port or jump chain, or by deleting it
    and bringing it back - the connection gets none of this member's credentials once the commit lands: it has
    no binding, or a suspended one, until the member confirms. [r] is the record that makes the change. The
    ids involved hold no slash, which the keys of bindings are built with. *)
Theorem repointed_connection_refused (c : Commit) (g g1 : Engine) (out : interpretation) (e : Entry) (d d' : VaultData) :
  interpret keys clock others c g = (Ok out, g1) → sco_Vault (pr_scope (g_run g)) ≠ [] → e ∈ in_changes out → en_Type e = TypeConnection →
  applyInterpretation (pr_scope (g_run g)) out d = Ok d' →
  (∀ b, b ∈ vy_Bindings (sync_of d) → slash_byte ∉ bi_VaultID b ∧ slash_byte ∉ bi_ConnectionID b) →
  ∃ nk held r, SnapshotScope nk (others (g_ticks g) (g_vault g)) (pr_scope (g_run g)) = Ok held ∧ r ∈ c_Records c ∧
    carries (g_run g) nk r e ∧
    (moved (g_run g) r e (held !! e_Record r ≫= en_Data) →
     ∀ acct key, pr_resolve (g_run g) (e_Author r) = Ok (acct, key) → acct ≠ kr_account keys →
     ∀ conn user, cn_VaultID conn = sco_Vault (pr_scope (g_run g)) → cn_ID conn = en_Key e → slash_byte ∉ cn_VaultID conn →
       slash_byte ∉ cn_ID conn → cu_CredentialSource user = CredentialSourcePersonal →
       ResolveCredentials d' conn user = Err [ErrBindingSuspended] ∨ ResolveCredentials d' conn user = Err [ErrBindingMissing]).
Proof.
  intros Hi Hs Hin Ht Ha Hslash. pose proof (post_interpret c g out g1 Hi) as [(Hc & _)|(nk & held & _ & _ & Hsnap & Hsound & Hall)].
  { rewrite Hc in Hin. by apply elem_of_nil in Hin. }
  destruct (Hsound e Hin) as [Hcf|(r & Hr & Hcar & _ & _ & Hsus)]; [by rewrite Ht in Hcf|].
  exists nk, held, r. split_and!; [done|done|done|]. intros Hm acct key Hres Hne conn user Hv Hid Hsv Hsc Hu.
  eapply suspended_refused; try done. rewrite Hid. by eapply Hsus.
Qed.

End interpret.
