(* ===== verification/InterpretDemo.v ===== *)
(** * InterpretDemo: commits read and landed

    The first commit of [ClientDemo] landing in a new vault; a team's connection that another member deletes;
    and a known host deleted through a record filed under another id. *)

From S2P Require Import Prelude Bytes GoText SyncBase Sha2 Canon Envelope Merkle Head DeviceLog Retention Membership MembershipLog VaultState AgentForward Merge Version PluginPaths KnownHosts Rows VaultData SyncTrust ClientStore Client TrustLaws Weakening TrustDemo Scopes Credentials ClientLaws ClientDemo Interpret.

(** The pull of the first commit, up to landing it. *)
Definition id_g : Engine := (startPull pd_keys pd_g0).2.
Definition id_out : interpretation := of_ok interpretation_empty (interpret pd_keys pd_clock pd_others pd_first id_g).1.

Lemma id_changes : in_changes id_out = [{| en_Type := TypeKnownHost; en_Key := demo_str "example.org ssh-rsa"; en_Data := Some (Thost {| kh_Line := pd_line |}) |}].
Proof. vm_compute. reflexivity. Qed.
Lemma id_vault : g_vault id_g = NewVaultData.
Proof. vm_compute. reflexivity. Qed.
Lemma id_readable : readable (g_vault id_g).
Proof.
  rewrite id_vault. constructor.
  - intros l ?%elem_of_nil. done.
  - intros e ?%elem_of_nil. done.
  - intros k i Hi. change (vd_Identities NewVaultData) with (∅ : gmap bytes SSHIdentity) in Hi. by rewrite lookup_empty in Hi.
  - intros x ?%elem_of_nil. done.
  - intros r [= <-]. done.
  - intros r [= <-]. done.
Qed.

Lemma id_well_filed : well_filed pd_keys (g_run id_g).
Proof.
  assert (pr_namingKey (g_run id_g) = None ∧ map_to_list (pr_base (g_run id_g)) = [] ∧ map_to_list (pr_names (g_run id_g)) = []) as (Hk & Hb & Hn)
    by (vm_compute; repeat split; reflexivity).
  unfold well_filed. rewrite Hk. split; by apply map_to_list_empty_iff.
Qed.

Definition id_state : VaultState := of_ok (vault_genesis pd_vault) (RestoreVaultState pd_vault (Some (c_Head pd_first)) (c_Records pd_first)).


(** The host is there. *)
Example landed_host : vd_KnownHosts (g_vault (landAs pd_keys pd_clock pd_others pd_first pd_first id_state id_g).2) = [pd_line].
Proof. vm_compute. reflexivity. Qed.

(** ** A connection that another member deletes *)

Definition id_team_run : pullRun := {|
  pr_vault := demo_id 7; pr_ops := []; pr_members := None; pr_resolve := λ _, Ok (demo_id 2, []); pr_check := λ _ _ _ _ _, Ok ();
  pr_state := vault_genesis (demo_id 7); pr_base := ∅; pr_names := {[demo_id 5 := (TypeConnection, demo_str "c2")]}; pr_bodies := ∅;
  pr_namingKey := Some demo_naming; pr_report := PullReport_zero; pr_scope := demo_team; pr_landed := ∅; pr_preferRemote := false;
  pr_heldDeletions := ∅ |}.
Definition id_tombstone : Envelope := {|
  e_Vault := demo_id 7; e_Record := demo_id 5; e_Version := 2; e_Epoch := 0; e_Suite := Suite1; e_Deleted := true; e_Author := demo_id 8;
  e_SigAlg := SigEd25519; e_WrappedDEK := []; e_Body := []; e_Sig := [] |}.
Definition id_removal : Entry := {| en_Type := TypeConnection; en_Key := demo_str "c2"; en_Data := None |}.
Definition id_team_commit : Commit := {| c_Head := c_Head pd_first; c_Records := [id_tombstone]; c_Purged := [] |}.
Definition id_team_g : Engine := {|
  g_vault := demo_bound (demo_str "u1"); g_store := StateDB_empty; g_server := false; g_run := id_team_run; g_ticks := 0 |}.
Definition id_landed : interpretation := {|
  in_changes := [id_removal]; in_applied := [demo_id 5]; in_quarantine := []; in_suspend := [(demo_str "c2", ID_String (demo_id 2))] |}.
Definition id_moved : VaultData := of_ok NewVaultData (applyInterpretation demo_team id_landed (demo_bound (demo_str "u1"))).

Lemma ran {A} (m : EM A) g a : (m g).1 = Ok a → m g = (Ok a, (m g).2).
Proof. destruct (m g). cbn. by intros ->. Qed.

Lemma repointed_connection_refused_witness :
  ResolveCredentials id_moved (demo_team_conn (demo_str "c2")) (demo_member (demo_str "u1")) = Err [ErrBindingSuspended] ∨
  ResolveCredentials id_moved (demo_team_conn (demo_str "c2")) (demo_member (demo_str "u1")) = Err [ErrBindingMissing].
Proof.
  destruct (repointed_connection_refused pd_keys pd_clock pd_others id_team_commit id_team_g
    (interpret pd_keys pd_clock pd_others id_team_commit id_team_g).2 id_landed id_removal (demo_bound (demo_str "u1")) id_moved)
    as (nk & held & r & _ & Hr & _ & Hm).
  - apply ran. vm_compute. reflexivity.
  - done.
  - by left.
  - reflexivity.
  - unfold id_moved. apply of_ok_eq. vm_compute. reflexivity.
  - intros b Hb. apply list_elem_of_singleton in Hb as ->. split; apply (bool_decide_unpack _); vm_compute; exact I.
  - apply list_elem_of_singleton in Hr as ->.
    apply (Hm I (demo_id 2) [] eq_refl ltac:(done) (demo_team_conn (demo_str "c2")) (demo_member (demo_str "u1")) eq_refl eq_refl);
      [apply (bool_decide_unpack _); vm_compute; exact I|apply (bool_decide_unpack _); vm_compute; exact I|reflexivity].
Defined.

(** ** A record filed under another id *)

(** The host's text under id 6, stored; its deletion. *)
Definition id_misfiled : Envelope := pd_record (demo_id 6) 1 (Some Byte.x02).
Definition id_deletion : Envelope := pd_record (demo_id 6) 2 None.
Definition id_bad_g : Engine :=
  g_set_run (pr_set_namingKey (Some demo_naming) (pr_set_state (pr_state (g_run id_g)) {[demo_id 6 := id_misfiled]} ∅ ∅ (g_run id_g))) id_g.

