(* ===== verification/Push.v ===== *)
(** * Push: how a device commits its changes and keeps a vault

    [internal/usecase]: [sync_push.go], [sync_batch.go], [sync_retention.go], [sync_epoch.go], the rotation of
    [team_membership.go], [sync_trash.go] (restoring) and [explainIntegrity] of [sync_logs.go], on the engine of
    [Client] and for the account's personal vault, where [p.trust] is nil. A run that a nested call starts
    replaces the one under way, which nothing uses afterwards. Loops over Go maps go in the order of
    [map_to_list]; where the code sorts, so does the model. A function that returns both a result and an error gives a
    pair. Random bytes come from [random], by the number of readings so far. *)

From S2P Require Import Prelude Bytes SyncBase Canon Envelope Merkle Head DeviceLog Retention Membership VaultState Merge Version Rows VaultData SyncTrust ClientStore Client.

(** [KeyRing.Sign], which is Ed25519 under this device's key and does not fail; [RecordCipher.Seal], which fills the wrapped key and
    the body; [AccountCrypto.WrapVaultKey]. *)
Class ClientSeal `{RawJSON} := {
  keys_Sign : bytes → bytes;
  cipher_Seal : bytes → Envelope → raw → option (bytes * bytes);
  WrapVaultKey : bytes → ID → Z → ID → bytes → option bytes;   (* key, vault, epoch, member, vault key *)
}.

Section push.
Context `{!RawJSON, !RecordJSON, !Crypto, !SyncServer, !ClientCrypto, !ClientSeal}.
Context (keys : KeyRing) (clock : nat → Z) (others : nat → VaultData → VaultData) (random : nat → bytes).
#[local] Existing Instances EM_ret EM_bind.

(** [uint64(max(now, 0))]. *)
Definition now_unsigned : EM Z := now ← now_millis clock; mret (Z.max now 0).
Definition read_random : EM bytes := λ g, (Ok (random (g_ticks g)), g_tick g).
Definition member_position (p : pullRun) : Z := len (pr_ops p).

(** ** Changes of this device ([sync_push.go]) *)

Record change := { ch_id : ID; ch_entry : Entry; ch_schema : Z }.

Definition writable (b : Body) : bool :=
  match RecordAccess KnownSchemas (bd_Type b) (bd_Schema b) with SchemaWritable => true | _ => false end.

Definition heldIDs (p : pullRun) (s : StateDB) : gset ID :=
  list_to_set ((λ it, e_Record (q_Envelope it)) <$> Quarantined (pr_vault p) s).

(** A local item against the verified version of its record. *)
Definition local_change (held : gset ID) (out : list change) (x : ID * Entry) : EM (list change) :=
  b ← baseBody keys x.1;
  let same := match b, en_Data x.2 with Some b, Some l => SameData (bd_Data b) l | _, _ => false end in
  if bool_decide (x.1 ∈ held) || same || match b with Some b => negb (writable b) | None => false end then mret out
  else mret (out ++ [{| ch_id := x.1; ch_entry := x.2; ch_schema := 0 |}]).

(** A verified record whose item is gone. *)
Definition gone_change (vault : ID) (local : gmap ID Entry) (held : gset ID) (out : list change) (x : ID * Envelope) : EM (list change) :=
  if bool_decide (is_Some (local !! x.1)) || bool_decide (x.1 ∈ held) || e_Deleted x.2 || (x.1 =?? VaultMetaID vault) then mret out else
  b ← baseBody keys x.1;
  match b with
  | Some b =>
      if negb (writable b) then mret out else
      match NaturalKey (bd_Type b) (bd_Data b) with
      | Ok key => mret (out ++ [{| ch_id := x.1; ch_entry := {| en_Type := bd_Type b; en_Key := key; en_Data := None |}; ch_schema := 0 |}])
      | Err _ => mret out
      end
  | None => mret out
  end.

Definition change_le (x y : change) : Prop := ID_le (ch_id x) (ch_id y).
#[export] Instance change_le_dec (x y : change) : Decision (change_le x y).
Proof. unfold change_le, ID_le. apply _. Defined.

Definition localChanges : EM (list change) :=
  p ← get_run;
  match pr_namingKey p with
  | None => em_lift (Err [ErrNoNamingKey])
  | Some namingKey =>
      data ← GetData others;
      local ← em_lift (match SnapshotScope namingKey data (pr_scope p) with Ok s => Ok s | Err e => Err (ETrustRule <$> e) end);
      s ← get_store;
      let held := heldIDs p s in
      out ← em_fold (local_change held) [] (map_to_list local);
      out ← em_fold (gone_change (pr_vault p) local held) out (map_to_list (pr_base p));
      mret (merge_sort change_le out)
  end.

Definition unsealed (p : pullRun) (ch : change) (epoch : Z) : Envelope := {|
  e_Vault := pr_vault p; e_Record := ch_id ch; e_Version := wrap64 ((Version (pr_state p) (ch_id ch)).1 + 1); e_Epoch := epoch;
  e_Suite := CurrentSuite; e_Deleted := bool_decide (en_Data (ch_entry ch) = None); e_Author := kr_device keys; e_SigAlg := SigEd25519;
  e_WrappedDEK := []; e_Body := []; e_Sig := [] |}.
Definition e_set_sealed (dek body : bytes) (e : Envelope) : Envelope := {|
  e_Vault := e_Vault e; e_Record := e_Record e; e_Version := e_Version e; e_Epoch := e_Epoch e; e_Suite := e_Suite e;
  e_Deleted := e_Deleted e; e_Author := e_Author e; e_SigAlg := e_SigAlg e; e_WrappedDEK := dek; e_Body := body; e_Sig := e_Sig e |}.
Definition e_set_Sig (sig : bytes) (e : Envelope) : Envelope := {|
  e_Vault := e_Vault e; e_Record := e_Record e; e_Version := e_Version e; e_Epoch := e_Epoch e; e_Suite := e_Suite e;
  e_Deleted := e_Deleted e; e_Author := e_Author e; e_SigAlg := e_SigAlg e; e_WrappedDEK := e_WrappedDEK e; e_Body := e_Body e; e_Sig := sig |}.

Definition sealChange (p : pullRun) (ch : change) (epoch : Z) : result cerror Envelope :=
  let env := unsealed p ch epoch in
  env ← match en_Data (ch_entry ch) with
        | None => Ok env
        | Some data =>
            match EncodeBody {| bd_Type := en_Type (ch_entry ch); bd_Schema := Z.max (ch_schema ch) 1; bd_Data := data |} with
            | None => Err [EDecode]
            | Some pt =>
                vk ← VaultKey keys (pr_vault p) epoch (pr_ops p);
                match cipher_Seal vk env pt with
                | Some (dek, body) => Ok (e_set_sealed dek body env)
                | None => Err [EDecode]
                end
            end
        end;
  msg ← rule (Envelope_SigningBytes env);
  Ok (e_set_Sig (keys_Sign msg) env).

(** The leaves after a commit, as [signHead] collects them. *)
Definition put_leaf (leaves : gmap ID Leaf) (e : Envelope) : result error (gmap ID Leaf) :=
  l ← LeafOf e; Ok (<[l_Record l := l]> leaves).
Definition head_leaves (p : pullRun) (records : list Envelope) (purged : list ID) : result error (gmap ID Leaf) :=
  let leaves : gmap ID Leaf := list_to_map ((λ l, (l_Record l, l)) <$> Leaves (pr_state p)) in
  foldM put_leaf (foldl (λ m id, delete id m) leaves purged) records.

Definition unsigned_head (p : pullRun) (m : MembershipState) (root : hash) (commit : ID) (now : Z) : Head := {|
  h_Vault := pr_vault p; h_Seq := wrap64 (cur_Seq (vs_cursor (pr_state p)) + 1); h_PrevHash := cur_Hash (vs_cursor (pr_state p));
  h_MerkleRoot := root; h_CurrentEpoch := ms_epoch m; h_MembershipSeq := ms_seq m; h_MembershipHead := ms_hash m; h_Commit := commit;
  h_Author := kr_device keys; h_ClientTimeUnixMilli := now; h_SigAlg := SigEd25519; h_Sig := [] |}.
Definition h_set_Sig (sig : bytes) (h : Head) : Head := {|
  h_Vault := h_Vault h; h_Seq := h_Seq h; h_PrevHash := h_PrevHash h; h_MerkleRoot := h_MerkleRoot h; h_CurrentEpoch := h_CurrentEpoch h;
  h_MembershipSeq := h_MembershipSeq h; h_MembershipHead := h_MembershipHead h; h_Commit := h_Commit h; h_Author := h_Author h;
  h_ClientTimeUnixMilli := h_ClientTimeUnixMilli h; h_SigAlg := h_SigAlg h; h_Sig := sig |}.

Definition signHead (records : list Envelope) (purged : list ID) (m : MembershipState) : EM Head :=
  p ← get_run;
  leaves ← em_lift (rule (head_leaves p records purged));
  root ← em_lift (rule (MerkleRoot (leaves_list leaves)));
  r ← read_random;
  '(commit, _) ← em_lift (rule (NewID r));
  now ← now_unsigned;
  let h := unsigned_head p m root commit now in
  msg ← em_lift (rule (Head_SigningBytes h));
  mret (h_set_Sig (keys_Sign msg) h).

(** ** Cutting commits ([sync_batch.go]) *)

Definition maxCommitRecords : Z := 500.
Definition maxCommitWireBytes : Z := Z.shiftl 16 20.
Definition envelopeWireOverhead : Z := 512.

Record commitBatch := { b_records : list Envelope; b_purged : list ID; b_wire : Z; b_deletions : bool }.
Definition commitBatch_empty : commitBatch := {| b_records := []; b_purged := []; b_wire := 0; b_deletions := false |}.

Definition batch_size (b : commitBatch) : Z := len (b_records b) + len (b_purged b).
(** [base64.StdEncoding.EncodedLen]. *)
Definition EncodedLen (n : Z) : Z := (n + 2) / 3 * 4.
Definition envelopeWireBytes (e : Envelope) : Z :=
  EncodedLen (len (e_WrappedDEK e)) + EncodedLen (len (e_Body e)) + EncodedLen (len (e_Sig e)) + envelopeWireOverhead.
Definition batch_takes (b : commitBatch) (e : Envelope) : bool :=
  if batch_size b =? 0 then true else
  Bool.eqb (b_deletions b) (e_Deleted e) && (batch_size b <? maxCommitRecords) && (b_wire b + envelopeWireBytes e <=? maxCommitWireBytes).
Definition batch_add (e : Envelope) (b : commitBatch) : commitBatch := {|
  b_records := b_records b ++ [e]; b_purged := b_purged b; b_wire := b_wire b + envelopeWireBytes e;
  b_deletions := if batch_size b =? 0 then e_Deleted e else b_deletions b |}.
Definition batch_purge (id : ID) (b : commitBatch) : commitBatch := {|
  b_records := b_records b; b_purged := b_purged b ++ [id]; b_wire := b_wire b; b_deletions := b_deletions b |}.

(** A stable sort by whether a change deletes. *)
Definition deletes (ch : change) : bool := bool_decide (en_Data (ch_entry ch) = None).
Definition deletionsFirst (changes : list change) : list change :=
  filter (λ c, deletes c = true) changes ++ filter (λ c, deletes c = false) changes.

(** How many records landed, and the error that ended it. *)
Definition sent_or {A} (sent : Z) (m : EM A) (k : A → EM (Z * option cerror)) : EM (Z * option cerror) :=
  r ← try_em m; match r with Ok a => k a | Err e => mret (sent, Some e) end.

Definition flush (m : MembershipState) (b : commitBatch) : EM unit :=
  if batch_size b =? 0 then mret () else
  head ← signHead (b_records b) (b_purged b) m;
  send {| c_Head := head; c_Records := b_records b; c_Purged := b_purged b |}.

Fixpoint commit_changes (m : MembershipState) (chs : list change) (b : commitBatch) (sent : Z)
    (k : commitBatch → Z → EM (Z * option cerror)) : EM (Z * option cerror) :=
  match chs with
  | [] => k b sent
  | ch :: chs' =>
      sent_or sent (p ← get_run; em_lift (sealChange p ch (ms_epoch m))) (λ env,
        if batch_takes b env then commit_changes m chs' (batch_add env b) sent k
        else sent_or sent (flush m b) (λ _, commit_changes m chs' (batch_add env commitBatch_empty) (sent + len (b_records b)) k))
  end.
Fixpoint commit_purges (m : MembershipState) (ids : list ID) (b : commitBatch) (sent : Z) : EM (Z * option cerror) :=
  match ids with
  | [] => sent_or sent (flush m b) (λ _, mret (sent + len (b_records b), None))
  | id :: ids' =>
      if maxCommitRecords <=? batch_size b then
        sent_or sent (flush m b) (λ _, commit_purges m ids' (batch_purge id commitBatch_empty) (sent + len (b_records b)))
      else commit_purges m ids' (batch_purge id b) sent
  end.
Definition commitAll (changes : list change) (purged : list ID) : EM (Z * option cerror) :=
  p ← get_run;
  sent_or 0 (members_at (member_position p)) (λ m,
    commit_changes m (deletionsFirst changes) commitBatch_empty 0 (commit_purges m purged)).

(** ** A push *)

Definition base_entry (out : list Entry) (c : change) : EM (list Entry) :=
  b ← baseBody keys (ch_id c);
  mret (out ++ [{| en_Type := en_Type (ch_entry c); en_Key := en_Key (ch_entry c); en_Data := bd_Data <$> b |}]).
Definition revertToBase : EM unit :=
  changes ← localChanges;
  if len changes =? 0 then mret () else
  entries ← em_fold base_entry [] changes;
  p ← get_run;
  _ ← UpdateData others (λ d, match ApplyScope d (pr_scope p) entries with Ok d' => Ok d' | Err e => Err (ETrustRule <$> e) end);
  set_run (report_add 0 (len entries) 0 0).

Definition push : EM (Z * option cerror) :=
  p ← get_run;
  sent_or 0 (members_at (member_position p)) (λ m,
    if negb (CanWrite (Role m (kr_account keys))) then sent_or 0 revertToBase (λ _, mret (0, None)) else
    sent_or 0 localChanges (λ changes,
      if len changes =? 0 then mret (0, None) else commitAll changes [])).

(** ** Catching up, rotation and re-encryption ([sync_epoch.go], [team_membership.go]) *)

Definition maxRebases : nat := 5.

Definition caughtUp : EM MembershipState :=
  _ ← startPull keys;
  _ ← flushOutbox;
  _ ← pullAll keys clock others;
  p ← get_run; members_at (member_position p).

Definition appendOp (m : MembershipState) (op : MemberOp) : EM unit :=
  p ← get_run;
  now ← now_unsigned;
  let op sig := {| op_Vault := pr_vault p; op_Seq := wrap64 (ms_seq m + 1); op_Prev := ms_hash m; op_Kind := op_Kind op;
    op_Author := kr_account keys; op_AuthorDevice := kr_device keys; op_Subject := op_Subject op; op_Role := op_Role op;
    op_Verified := op_Verified op; op_Fingerprint := op_Fingerprint op; op_Suite := Suite1; op_Epoch := op_Epoch op; op_Wraps := op_Wraps op;
    op_RevokedDevices := op_RevokedDevices op; op_RetentionDays := op_RetentionDays op; op_RequireVerified := op_RequireVerified op;
    op_Shred := op_Shred op; op_TimeUnixMilli := Z.max now (op_TimeUnixMilli op); op_SigAlg := SigEd25519; op_Sig := sig |} in
  msg ← em_lift (rule (MemberOp_SigningBytes (op [])));
  ask (srv_AppendMembership (pr_vault p) [op (keys_Sign msg)]).

(** The fields of a membership operation that its kind does not set. *)
Definition bare_op (kind : Z) (subject : ID) (epoch : Z) (wraps : list KeyWrap) (revoked : list ID) (shred : bool) (time : Z) : MemberOp := {|
  op_Vault := ID_zero; op_Seq := 0; op_Prev := array_zero 32; op_Kind := kind; op_Author := ID_zero; op_AuthorDevice := ID_zero;
  op_Subject := subject; op_Role := RoleNone; op_Verified := false; op_Fingerprint := array_zero 32; op_Suite := 0; op_Epoch := epoch;
  op_Wraps := wraps; op_RevokedDevices := revoked; op_RetentionDays := 0; op_RequireVerified := false; op_Shred := shred;
  op_TimeUnixMilli := time; op_SigAlg := 0; op_Sig := [] |}.

Definition encryptionKeyOf (member : ID) : result cerror bytes :=
  if member =?? kr_account keys then Ok (kr_encKey keys) else Err [ErrNotATeam].

Definition wrap_member (vault : ID) (epoch : Z) (vk : bytes) (wraps : list KeyWrap) (member : ID) : result cerror (list KeyWrap) :=
  enc ← encryptionKeyOf member;
  match WrapVaultKey enc vault epoch member vk with
  | None => Err [EDecode]
  | Some wrapped => w ← rule (NewKeyWrap member enc wrapped); Ok (wraps ++ [w])
  end.

(** The operation of [rotationFor] with the fields its callers add. *)
Definition rotationFor (m : MembershipState) (members revoked : list ID) (shred : bool) : EM MemberOp :=
  p ← get_run;
  r ← read_random;
  _ ← em_fail_if (len r <? 32) [EVaultRule ErrEOF];
  let vk := take 32 r in
  let epoch := wrap32 (ms_epoch m + 1) in
  wraps ← em_lift (foldM (wrap_member (pr_vault p) epoch vk) [] members);
  match last (ms_rotations m) with
  | None => em_lift (Err [EVaultRule GoPanic])
  | Some rot => mret (bare_op MemberRotateEpoch ID_zero epoch wraps revoked shred (r_StartedUnixMilli rot))
  end.

Definition stale_record (current : Z) (out : list change) (x : ID * Envelope) : EM (list change) :=
  if e_Deleted x.2 || (e_Epoch x.2 =? current) then mret out else
  b ← baseBody keys x.1;
  mret (match b with
        | Some b => out ++ [{| ch_id := x.1; ch_entry := {| en_Type := bd_Type b; en_Key := []; en_Data := Some (bd_Data b) |};
                               ch_schema := bd_Schema b |}]
        | None => out end).
Definition staleRecords (current : Z) : EM (list change) :=
  p ← get_run; em_fold (stale_record current) [] (map_to_list (pr_base p)).

Fixpoint reencrypt (attempts : nat) : EM unit :=
  match attempts with
  | O => em_lift (Err [ErrSyncBusy])
  | S n =>
      m ← caughtUp;
      changes ← staleRecords (ms_epoch m);
      if len changes =? 0 then mret () else
      '(_, err) ← commitAll changes [];
      match err with
      | None => mret ()
      | Some e => if as_conflict e then reencrypt n else em_lift (Err e)
      end
  end.

Definition RotateEpoch (revoked : list ID) (shred : bool) : EM unit :=
  m ← caughtUp;
  op ← rotationFor m (Members m) revoked shred;
  _ ← appendOp m op;
  reencrypt maxRebases.

Definition RewrapCurrent (newEncryptionKey : bytes) : EM unit :=
  m ← caughtUp;
  if negb (CanManage (Role m (kr_account keys))) then mret () else
  p ← get_run;
  vk ← em_lift (VaultKey keys (pr_vault p) (ms_epoch m) (pr_ops p));
  match WrapVaultKey newEncryptionKey (pr_vault p) (ms_epoch m) (kr_account keys) vk with
  | None => em_lift (Err [EDecode])
  | Some wrapped =>
      wrap ← em_lift (rule (NewKeyWrap (kr_account keys) newEncryptionKey wrapped));
      appendOp m (bare_op MemberRewrap (kr_account keys) (ms_epoch m) [wrap] [] false 0)
  end.

(** ** Retention ([sync_retention.go]) *)

Definition tombstones (p : pullRun) : list ID :=
  merge_sort ID_le (fst <$> filter (λ x : ID * Envelope, e_Deleted x.2 = true) (map_to_list (pr_base p))).
Definition dueTombstones (p : pullRun) (days : Z) (last : Rotation) (now : Z) : list ID :=
  filter (λ id, let at_ := default 0 (pr_landed p !! id) in
                PurgeDue at_ days now || (r_Shred last && (at_ <=? r_StartedUnixMilli last)) = true) (tombstones p).

Definition purgeDue (m : MembershipState) (last : Rotation) (now : Z) : EM unit :=
  p ← get_run;
  let due := dueTombstones p (ms_retentionDays m) last now in
  if len due =? 0 then mret () else
  '(_, err) ← commitAll [] due;
  match err with
  | None => mret ()
  | Some e => if errors_is e ErrPurgeNotDue then mret () else em_lift (Err e)
  end.

(** [retain]; [maintainTeam] does nothing in the personal vault. *)
Definition retain : EM unit :=
  p ← get_run;
  m ← members_at (member_position p);
  if negb (CanWrite (Role m (kr_account keys))) then mret () else
  stale ← staleRecords (ms_epoch m);
  if negb (len stale =? 0) then _ ← reencrypt maxRebases; em_lift (Err [ErrRoundAgain]) else
  if negb (CanManage (Role m (kr_account keys))) then mret () else
  now ← now_unsigned;
  match last (ms_rotations m) with
  | None => em_lift (Err [EVaultRule GoPanic])
  | Some rot =>
      _ ← purgeDue m rot now;
      if negb (RotationDue (r_StartedUnixMilli rot) true (ms_retentionDays m) now) then mret () else RotateEpoch [] false
  end.

(** ** A round ([sync_push.go]) *)

Record SyncReport := { sr_Pull : PullReport; sr_Pushed : Z }.
Definition SyncReport_zero : SyncReport := {| sr_Pull := PullReport_zero; sr_Pushed := 0 |}.
Definition addPull (a b : PullReport) : PullReport := {|
  rp_Commits := rp_Commits a + rp_Commits b; rp_Applied := rp_Applied a + rp_Applied b; rp_Held := rp_Held a + rp_Held b;
  rp_Quarantined := rp_Quarantined a + rp_Quarantined b; rp_MembershipSeq := Z.max (rp_MembershipSeq a) (rp_MembershipSeq b);
  rp_NewDevices := rp_NewDevices a ++ rp_NewDevices b |}.

(** The loop of [syncRound]; the error, if any, comes with the report. *)
Fixpoint syncRound (attempts : nat) (report : SyncReport) : EM (SyncReport * option cerror) :=
  match attempts with
  | O => mret (report, Some [ErrSyncBusy])
  | S n =>
      r ← try_em (startPull keys);
      match r with
      | Err e => mret (report, Some e)
      | Ok _ =>
          r ← try_em flushOutbox;
          match r with
          | Err e => mret (report, Some e)
          | Ok _ =>
              r ← try_em (pullAll keys clock others);
              match r with
              | Err e => p ← get_run; mret ({| sr_Pull := addPull (sr_Pull report) (pr_report p); sr_Pushed := sr_Pushed report |}, Some e)
              | Ok _ =>
                  '(pushed, err) ← push;
                  p ← get_run;
                  let report := {| sr_Pull := addPull (sr_Pull report) (pr_report p); sr_Pushed := sr_Pushed report + pushed |} in
                  err ← match err with
                        | Some e => mret (Some e)
                        | None => r ← try_em retain; mret (match r with Ok _ => None | Err e => Some e end)
                        end;
                  match err with
                  | Some e => if as_conflict e || errors_is e ErrRoundAgain then syncRound n report else mret (report, Some e)
                  | None => mret (report, None)
                  end
              end
          end
      end
  end.

Definition waiting (s : StateDB) (vault : ID) : Z * Z :=
  let items := Quarantined vault s in
  (len (filter (λ it, q_Pending it = true) items), len (filter (λ it, q_Pending it = false) items)).

(** [explainIntegrity]: the reason the device log gives, first. *)
Definition explainIntegrity (err : option cerror) : EM (option cerror) :=
  match err with
  | None => mret None
  | Some e =>
      if negb (errors_is e ErrSyncIntegrity) then mret (Some e) else
      r ← try_em (verifiedDeviceLog keys);
      mret (Some (match r with
                  | Err l => if errors_is l ErrSyncDeviceRevoked || errors_is l ErrKeysRotated then l ++ e else e
                  | Ok _ => e end))
  end.

Definition Sync : EM (SyncReport * option cerror) :=
  '(r, err) ← syncRound maxRebases SyncReport_zero;
  s ← get_store;
  let '(held, refused) := waiting s (PersonalVaultID (kr_account keys)) in
  let pull := sr_Pull r in
  let r := {| sr_Pull := {| rp_Commits := rp_Commits pull; rp_Applied := rp_Applied pull; rp_Held := held; rp_Quarantined := refused;
      rp_MembershipSeq := rp_MembershipSeq pull; rp_NewDevices := rp_NewDevices pull |}; sr_Pushed := sr_Pushed r |} in
  err ← explainIntegrity err;
  mret (r, err).

Definition ShredNow : EM unit :=
  _ ← RotateEpoch [] true;
  '(_, err) ← Sync;
  match err with Some e => em_lift (Err e) | None => mret () end.

(** ** Restoring a deleted item ([sync_trash.go]) *)

Definition retiredEpochs (p : pullRun) (m : MembershipState) (now : Z) : list Z :=
  let live := (λ x : ID * Envelope, e_Epoch x.2) <$> filter (λ x : ID * Envelope, e_Deleted x.2 = false) (map_to_list (pr_base p)) in
  RetiredEpochs (ms_rotations m) (λ e, bool_decide (e ∈ live)) (ms_retentionDays m) now.

(** The newest version, from the last back, that is this record's, older than the tombstone, genuine, of an epoch still
    alive, and opens. *)
Fixpoint readable_version (p : pullRun) (id : ID) (tomb : Z) (retired : list Z) (rversions : list Envelope) : option Body :=
  match rversions with
  | [] => None
  | v :: rest =>
      if (e_Record v <>? id) || (e_Vault v <>? pr_vault p) || (tomb <=? e_Version v) || bool_decide (e_Epoch v ∈ retired)
      then readable_version p id tomb retired rest else
      match pr_resolve p (e_Author v) with
      | Err _ => readable_version p id tomb retired rest
      | Ok (_, key) =>
          if negb (is_ok (Envelope_Verify key v)) then readable_version p id tomb retired rest else
          match open_record keys p v with Ok body => Some body | Err _ => readable_version p id tomb retired rest end
      end
  end.
Definition lastReadable (id : ID) (retired : list Z) : EM (option Body) :=
  p ← get_run;
  versions ← ask (srv_Versions (pr_vault p) id);
  mret (readable_version p id (from_option e_Version 0 (pr_base p !! id)) retired (reverse versions)).

Definition Restore (record : ID) : EM unit :=
  _ ← startPull keys;
  p ← get_run;
  m ← members_at (member_position p);
  _ ← em_fail_if (match pr_base p !! record with Some env => negb (e_Deleted env) | None => true end) [ErrTrashNotFound];
  now ← now_unsigned;
  body ← lastReadable record (retiredEpochs p m now);
  match body with
  | None => em_lift (Err [ErrTrashNotFound])
  | Some body =>
      match NaturalKey (bd_Type body) (bd_Data body) with
      | Err _ => em_lift (Err [ErrTrashNotFound])
      | Ok key =>
          let entry := {| en_Type := bd_Type body; en_Key := key; en_Data := Some (bd_Data body) |} in
          if negb (is_ok (Validate entry)) then em_lift (Err [ErrTrashNotFound]) else
          match Classify (bd_Type body) None (Some (bd_Data body)) with
          | Ok ActionApply =>
              UpdateData others (λ d, match ApplyScope d (pr_scope p) [entry] with Ok d' => Ok d' | Err e => Err (ETrustRule <$> e) end)
          | _ => em_lift (Err [ErrRestoreWeakens])
          end
      end
  end.

End push.
