(* ===== verification/PushLaws.v ===== *)
(** * PushLaws: what a device commits is accepted, lands, and leaves nothing to commit

    The commits [Push] builds against the rules of [VaultState], which every device and the server ask. A
    computation is followed to its result: [tot] says it succeeds and what holds then. *)

From S2P Require Import Prelude Bytes SyncBase Canon Padding Envelope Merkle Head DeviceLog Retention Membership VaultState Merge Version Rows VaultData SyncTrust ClientStore Client TrustLaws Push.

Section laws.
Context `{!RawJSON, !RecordJSON, !Crypto, !SyncServer, !ClientCrypto, !ClientSeal}.
Context (keys : KeyRing) (clock : nat → Z) (random : nat → bytes).
#[local] Existing Instances EM_ret EM_bind.

(** ** Computations that succeed *)

Definition tot {A} (m : EM A) (Q : A → Engine → Prop) (g : Engine) : Prop := ∃ a g', m g = (Ok a, g') ∧ Q a g'.

Lemma tot_ret {A} (a : A) (Q : A → Engine → Prop) g : Q a g → tot (mret a) Q g.
Proof. intros HQ. by exists a, g. Qed.
Lemma tot_bind {A B} (m : EM A) (f : A → EM B) Q g : tot m (λ a g1, tot (f a) Q g1) g → tot (m ≫= f) Q g.
Proof.
  intros (a & g1 & E & b & g2 & Ef & HQ). exists b, g2. split; [|done]. unfold mbind, EM_bind, ST_bind. by rewrite E.
Qed.
Lemma tot_mono {A} (m : EM A) (Q R : A → Engine → Prop) g : tot m Q g → (∀ a g', Q a g' → R a g') → tot m R g.
Proof. intros (a & g' & E & HQ) HR. exists a, g'. auto. Qed.
Lemma tot_get_run (Q : pullRun → Engine → Prop) g : Q (g_run g) g → tot get_run Q g.
Proof. intros HQ. by exists (g_run g), g. Qed.
Lemma tot_get_store (Q : StateDB → Engine → Prop) g : Q (g_store g) g → tot get_store Q g.
Proof. intros HQ. by exists (g_store g), g. Qed.
Lemma tot_set_run f (Q : unit → Engine → Prop) g : Q () (g_set_run (f (g_run g)) g) → tot (set_run f) Q g.
Proof. intros HQ. eexists _, _. split; [reflexivity|exact HQ]. Qed.
Lemma tot_lift {A} (r : result cerror A) a (Q : A → Engine → Prop) g : r = Ok a → Q a g → tot (em_lift r) Q g.
Proof. intros -> HQ. by exists a, g. Qed.
Lemma tot_verified {A} (r : result error A) a (Q : A → Engine → Prop) g : r = Ok a → Q a g → tot (verified r) Q g.
Proof. intros -> HQ. by exists a, g. Qed.
Lemma tot_fail_if b e (Q : unit → Engine → Prop) g : b = false → Q () g → tot (em_fail_if b e) Q g.
Proof. intros -> HQ. by exists (), g. Qed.
Lemma tot_write f s (Q : unit → Engine → Prop) g : f (g_store g) = Ok s → Q () (g_set_store s g) → tot (write_store f) Q g.
Proof. intros E HQ. exists (), (g_set_store s g). split; [|done]. unfold write_store. by rewrite E. Qed.
Lemma tot_ask {A} (f : srv → result cerror A * srv) a (Q : A → Engine → Prop) g :
  (f (g_server g)).1 = Ok a → Q a (g_set_server (f (g_server g)).2 g) → tot (ask f) Q g.
Proof. intros E HQ. eexists a, _. split; [|exact HQ]. unfold ask. destruct (f (g_server g)) as [r s]. cbn in *. by rewrite E. Qed.
Lemma tot_try {A} (m : EM A) (Q : result cerror A → Engine → Prop) g : tot m (λ a, Q (Ok a)) g → tot (try_em m) Q g.
Proof. intros (a & g' & E & HQ). exists (Ok a), g'. split; [|done]. unfold try_em. by rewrite E. Qed.
Lemma tot_sent {A} sent (m : EM A) (k : A → EM (Z * option cerror)) Q g : tot m (λ a g1, tot (k a) Q g1) g → tot (sent_or sent m k) Q g.
Proof. intros Hm. apply tot_bind, tot_try. eapply tot_mono; [exact Hm|]. auto. Qed.

(** ** Leaves *)

Definition keyed (leaves : gmap ID Leaf) : Prop := ∀ id l, leaves !! id = Some l → l_Record l = id.
Lemma keyed_NoDup L : keyed L → NoDup (l_Record <$> leaves_list L).
Proof.
  intros Hk. assert (l_Record <$> leaves_list L = (map_to_list L).*1) as ->; [|apply NoDup_fst_map_to_list].
  unfold leaves_list. rewrite <- list_fmap_compose. apply list_fmap_ext. intros i [id l] Hi. cbn.
  by apply list_elem_of_lookup_2, elem_of_map_to_list, Hk in Hi.
Qed.
Lemma keyed_list L : keyed L → (list_to_map ((λ l, (l_Record l, l)) <$> leaves_list L) : gmap ID Leaf) = L.
Proof.
  intros Hk. transitivity (list_to_map (map_to_list L) : gmap ID Leaf); [|apply list_to_map_to_list]. f_equal.
  unfold leaves_list. rewrite <- list_fmap_compose. rewrite <- (list_fmap_id (map_to_list L)) at 2. apply list_fmap_ext. intros i [id l] Hi. cbn.
  f_equal. by apply list_elem_of_lookup_2, elem_of_map_to_list, Hk in Hi.
Qed.
Lemma keyed_install L rs : keyed L → keyed (install L rs).
Proof.
  unfold install. revert L. induction rs as [|e rs IH]; intros L Hk; [done|]. apply IH. intros id l.
  intros [[<- <-]|[_ ?]]%lookup_insert_Some; [done|by apply Hk].
Qed.
Lemma keyed_discard L ids : keyed L → keyed (discard L ids).
Proof. intros Hk id l. rewrite discard_lookup. case_decide; [done|]. apply Hk. Qed.

(** The leaves a head is signed over are those the commit leaves behind. *)
Lemma put_leaves L rs : (∀ e, e ∈ rs → Envelope_Validate e = Ok ()) → foldM put_leaf L rs = Ok (install L rs).
Proof.
  revert L. induction rs as [|e rs IH]; intros L Hv; [done|]. cbn [foldM]. unfold put_leaf at 1.
  rewrite (LeafOf_total e) by (apply Hv; by left). cbn. apply IH. intros e' He'. apply Hv. by right.
Qed.
Lemma install_delete L rs id : id ∉ e_Record <$> rs → install (delete id L) rs = delete id (install L rs).
Proof.
  unfold install. revert L. induction rs as [|e rs IH]; intros L Hn; [done|]. apply not_elem_of_cons in Hn as [Hne Hn]. cbn.
  rewrite <- IH by done. f_equal. by rewrite delete_insert_ne.
Qed.
Lemma install_discard L rs purged : (∀ id, id ∈ purged → id ∉ e_Record <$> rs) → install (discard L purged) rs = discard (install L rs) purged.
Proof.
  unfold discard. revert L. induction purged as [|id purged IH]; intros L Hd; [done|]. cbn. rewrite IH by (intros; apply Hd; by right).
  by rewrite install_delete by (apply Hd; by left).
Qed.
Lemma head_leaves_eq p rs purged : keyed (vs_leaves (pr_state p)) → (∀ e, e ∈ rs → Envelope_Validate e = Ok ()) →
  (∀ id, id ∈ purged → id ∉ e_Record <$> rs) → head_leaves p rs purged = Ok (discard (install (vs_leaves (pr_state p)) rs) purged).
Proof.
  intros Hk Hv Hd. unfold head_leaves, Leaves. rewrite keyed_list by done. rewrite put_leaves by done. f_equal. by apply install_discard.
Qed.

(** ** Envelopes this device seals *)

(** Ed25519 under the key the log certifies for this device. *)
Record signs (key : bytes) : Prop := {
  sg_key : len key = 32;
  sg_size : ∀ msg, len (keys_Sign msg) = 64;
  sg_verifies : ∀ msg, ed25519_verify key msg (keys_Sign msg) = true;
}.
(** What the cipher makes of a plaintext: a wrapped key and a padded body of the suite's sizes, which open again. *)
Definition seals (pt : raw) : Prop := ∀ vk e, ∃ dek body, cipher_Seal vk e pt = Some (dek, body) ∧ len dek = 72 ∧
  MinPaddedSize + 40 ≤ len body ≤ PaddedSize MaxPlaintextSize + 40 ∧ ∀ sig, cipher_Open vk (e_set_Sig sig (e_set_sealed dek body e)) = Some pt.
(** A change that can be written: its body encodes, seals, and reads back as the same data. *)
Definition sendable (ch : change) : Prop := ID_IsZero (ch_id ch) = false ∧
  match en_Data (ch_entry ch) with
  | None => True
  | Some data => ∃ pt b, EncodeBody {| bd_Type := en_Type (ch_entry ch); bd_Schema := Z.max (ch_schema ch) 1; bd_Data := data |} = Some pt ∧
      seals pt ∧ DecodeBody pt = Ok b ∧ SameData (bd_Data b) data = true
  end.

(** What a change became: the next version of its record, and its content, or a tombstone. *)
Definition written (vk : bytes) (epoch : Z) (leaves : gmap ID Leaf) (ch : change) (e : Envelope) : Prop :=
  e_Record e = ch_id ch ∧ e_Version e = wrap64 (leaf_version leaves (ch_id ch) + 1) ∧ e_Deleted e = deletes ch ∧ e_Epoch e = epoch ∧
  match en_Data (ch_entry ch) with
  | None => True
  | Some data => ∃ pt b, cipher_Open vk e = Some pt ∧ DecodeBody pt = Ok b ∧ SameData (bd_Data b) data = true
  end.

Lemma sealChange_ok p ch epoch vk key :
  signs key → sendable ch → ID_IsZero (pr_vault p) = false → ID_IsZero (kr_device keys) = false →
  VaultKey keys (pr_vault p) epoch (pr_ops p) = Ok vk → 0 ≤ leaf_version (vs_leaves (pr_state p)) (ch_id ch) < MaxUint64 →
  ∃ e, sealChange keys p ch epoch = Ok e ∧ e_Epoch e = epoch ∧
    record_ok (pr_vault p) (kr_device keys) key epoch (vs_leaves (pr_state p)) e ∧ written vk epoch (vs_leaves (pr_state p)) ch e.
Proof.
  intros [Hk Hs Hv] [Hid Hsend] Hvz Hdz Hvk Hver. set (env0 := unsealed keys p ch epoch).
  assert (∃ env, match en_Data (ch_entry ch) with
        | None => Ok env0
        | Some data =>
            match EncodeBody {| bd_Type := en_Type (ch_entry ch); bd_Schema := Z.max (ch_schema ch) 1; bd_Data := data |} with
            | None => Err [EDecode]
            | Some pt =>
                vk ← VaultKey keys (pr_vault p) epoch (pr_ops p);
                match cipher_Seal vk env0 pt with
                | Some (dek, body) => Ok (e_set_sealed dek body env0)
                | None => Err [EDecode]
                end
            end
        end = Ok env ∧ (∃ dek body, env = e_set_sealed dek body env0) ∧
      (if deletes ch then e_WrappedDEK env = [] ∧ e_Body env = []
       else len (e_WrappedDEK env) = 72 ∧ MinPaddedSize + 40 ≤ len (e_Body env) ≤ PaddedSize MaxPlaintextSize + 40) ∧
      match en_Data (ch_entry ch) with
      | None => True
      | Some data => ∃ pt b, (∀ sig, cipher_Open vk (e_set_Sig sig env) = Some pt) ∧ DecodeBody pt = Ok b ∧ SameData (bd_Data b) data = true
      end) as (env & Eenv & (dek & body & Eseal) & Hsz & Hopen).
  { unfold deletes. destruct (en_Data (ch_entry ch)) as [data|].
    - destruct Hsend as (pt & b & -> & Hseals & Hb & Hsame). rewrite Hvk. destruct (Hseals vk env0) as (dek & body & Ec & Hd & Hbd & Ho). cbn.
      rewrite Ec. eexists. split; [reflexivity|]. split; [eauto|]. split; [cbn; auto|eauto 10].
    - exists env0. split_and!; [done|by exists [], []|done|done]. }
  unfold sealChange. fold env0. rewrite Eenv. cbn [mbind result_bind].
  set (e1 := e_set_Sig (zeros 64) env).
  assert (∀ sig, len sig = 64 → Envelope_Validate (e_set_Sig sig env) = Ok ()) as Hval.
  { intros sig Hsig. apply Envelope_Validate_Ok. subst env. cbn in *. split_and!; try done.
    rewrite wrap64_succ by (unfold u64; lia). lia. }
  assert (Envelope_SigningBytes env = Ok (frames (envelope_fields env))) as ->.
  { change (Envelope_SigningBytes e1 = Ok (frames (envelope_fields e1))). apply Envelope_Validate_SigningBytes, Hval. by vm_compute. }
  cbn. set (sig := keys_Sign _). eexists. split; [reflexivity|]. subst env. split; [done|]. split; [constructor; try done|].
  - unfold Envelope_Verify. rewrite Hval by apply Hs. cbn [mbind result_bind]. rewrite (Envelope_Validate_SigningBytes _ (Hval sig (Hs _))).
    cbn [mbind result_bind]. apply VerifySignature_Ok. split_and!; [done|done|apply Hs|apply Hv].
  - split_and!; try done. destruct (en_Data (ch_entry ch)); [|done]. destruct Hopen as (pt & b & Ho & ? & ?). eauto.
Qed.

(** ** The run after a commit *)

(** What a commit leaves under an id, in a map that held [old] of the values [f] gives its records. *)
Definition after {A} (f : Envelope → A) (old : option A) (rs : list Envelope) (purged : list ID) (id : ID) : option A :=
  if decide (id ∈ purged) then None else
  match list_find (λ e, e_Record e = id) rs with Some (_, e) => Some (f e) | None => old end.

Lemma after_other {A} (f : Envelope → A) old rs purged id : id ∉ purged → id ∉ e_Record <$> rs → after f old rs purged id = old.
Proof.
  intros Hp Hr. unfold after. rewrite decide_False by done. destruct (list_find _ rs) as [[i e]|] eqn:E; [|done].
  apply list_find_Some in E as (Hi & <- & _). exfalso. apply Hr. apply list_elem_of_fmap_2. by eapply list_elem_of_lookup_2.
Qed.
Lemma after_written {A} (f : Envelope → A) old rs purged e :
  e_Record e ∉ purged → NoDup (e_Record <$> rs) → e ∈ rs → after f old rs purged (e_Record e) = Some (f e).
Proof.
  intros Hp Hnd Hin. unfold after. rewrite decide_False by done. destruct (list_find _ rs) as [[i e']|] eqn:E.
  - apply list_find_Some in E as (Hi & He & _). apply list_elem_of_lookup_1 in Hin as [j Hj].
    assert (i = j) as -> by (eapply NoDup_lookup; [exact Hnd|rewrite list_lookup_fmap, Hi; reflexivity|rewrite list_lookup_fmap, Hj; cbn; by rewrite He]).
    by simplify_eq.
  - apply list_find_None in E. rewrite Forall_forall in E. by destruct (E e Hin).
Qed.

Lemma foldl_put {A} (f : Envelope → A) (m : gmap ID A) rs id : NoDup (e_Record <$> rs) →
  foldl (λ m e, <[e_Record e := f e]> m) m rs !! id = after f (m !! id) rs [] id.
Proof.
  unfold after. rewrite decide_False by apply not_elem_of_nil. revert m. induction rs as [|e rs IH]; intros m Hnd; [done|]. cbn in *.
  apply NoDup_cons in Hnd as [Hn Hnd]. rewrite IH by done. destruct (decide (e_Record e = id)) as [<-|Hne].
  - rewrite lookup_insert_eq. destruct (list_find _ rs) as [[i e']|] eqn:E; [|done]. apply list_find_Some in E as (Hi & He & _).
    exfalso. apply Hn. rewrite <- He. apply list_elem_of_fmap_2. by eapply list_elem_of_lookup_2.
  - rewrite lookup_insert_ne by done. by destruct (list_find _ rs) as [[i e']|].
Qed.
Lemma foldl_drop {A} (m : gmap ID A) ids id : foldl (λ m i, delete i m) m ids !! id = if decide (id ∈ ids) then None else m !! id.
Proof.
  revert m. induction ids as [|i ids IH]; intros m; cbn; [done|]. rewrite IH, lookup_delete. repeat case_decide; subst; try done; set_solver.
Qed.

Lemma advance_run_eq next c p : ∃ base landed bodies, advance_run next c p = pr_set_state next base landed bodies p ∧
  base = foldl (λ m id, delete id m) (foldl (λ m r, <[e_Record r := r]> m) (pr_base p) (c_Records c)) (c_Purged c) ∧
  bodies = foldl (λ m id, delete id m) (foldl (λ m r, delete (e_Record r) m) (pr_bodies p) (c_Records c)) (c_Purged c).
Proof.
  unfold advance_run. destruct (foldl _ _ (c_Purged c)) as [[base landed] bodies] eqn:E. exists base, landed, bodies. split; [done|]. revert E.
  generalize (pr_base p), (pr_landed p), (pr_bodies p). induction (c_Records c) as [|r rs IH]; intros b0 l0 o0; cbn; [|apply IH].
  revert b0 l0 o0. induction (c_Purged c) as [|i ids IHp]; intros b0 l0 o0; cbn; [by intros [= <- <- <-]|apply IHp].
Qed.

(** ** Landing one commit *)

Section writer.
Context (m : MembershipState) (acct : ID) (key vk : bytes).

(** A device that may write, standing at the end of the vault's membership log, with nothing in its outbox. *)
Record ready (g : Engine) : Prop := {
  ry_vault : ID_IsZero (pr_vault (g_run g)) = false; ry_state : vs_vault (pr_state (g_run g)) = pr_vault (g_run g);
  ry_keyed : keyed (vs_leaves (pr_state (g_run g)));
  ry_members : pr_members (g_run g) = Some m; ry_ops : ms_seq m = len (pr_ops (g_run g));
  ry_device : ID_IsZero (kr_device keys) = false; ry_author : pr_resolve (g_run g) (kr_device keys) = Ok (acct, key);
  ry_active : kr_device keys ∉ ms_revoked m; ry_role : CanWrite (Role m acct) = true;
  ry_forward : cur_MembershipSeq (vs_cursor (pr_state (g_run g))) ≤ ms_seq m;
  ry_key : VaultKey keys (pr_vault (g_run g)) (ms_epoch m) (pr_ops (g_run g)) = Ok vk;
  ry_outbox : sd_outbox (g_store g) !! pr_vault (g_run g) = None;
  ry_head : ∀ h, sd_heads (g_store g) !! pr_vault (g_run g) = Some h → h_Seq h = cur_Seq (vs_cursor (pr_state (g_run g)));
  ry_seq : 0 ≤ cur_Seq (vs_cursor (pr_state (g_run g)));
}.

(** What landing [rs] and [purged] changes, and what it does not. *)
Record landed (g : Engine) (rs : list Envelope) (purged : list ID) (g' : Engine) : Prop := {
  la_leaves : vs_leaves (pr_state (g_run g')) = discard (install (vs_leaves (pr_state (g_run g))) rs) purged;
  la_base : ∀ i, pr_base (g_run g') !! i = after id (pr_base (g_run g) !! i) rs purged i;
  la_bodies : ∀ id, id ∉ purged → id ∉ e_Record <$> rs → pr_bodies (g_run g') !! id = pr_bodies (g_run g) !! id;
  la_fresh : ∀ id, id ∈ purged ∨ id ∈ e_Record <$> rs → pr_bodies (g_run g') !! id = None;
  la_seq : cur_Seq (vs_cursor (pr_state (g_run g'))) ≤ cur_Seq (vs_cursor (pr_state (g_run g))) + 1;
  la_vault : pr_vault (g_run g') = pr_vault (g_run g); la_ops : pr_ops (g_run g') = pr_ops (g_run g);
  la_scope : pr_scope (g_run g') = pr_scope (g_run g); la_naming : pr_namingKey (g_run g') = pr_namingKey (g_run g);
  la_data : g_vault g' = g_vault g; la_held : sd_quarantine (g_store g') = sd_quarantine (g_store g);
}.

(** A commit the device may make of [rs] and [purged] now. *)
Record proper (g : Engine) (rs : list Envelope) (purged : list ID) : Prop := {
  pp_once : NoDup (e_Record <$> rs);
  pp_records : Forall (record_ok (pr_vault (g_run g)) (kr_device keys) key (ms_epoch m) (vs_leaves (pr_state (g_run g)))) rs;
  pp_role : purged ≠ [] → CanManage (Role m acct) = true;
  pp_purges_once : NoDup purged;
  pp_purges : Forall (λ id, id ∉ e_Record <$> rs ∧ ∃ l, vs_leaves (pr_state (g_run g)) !! id = Some l ∧ l_Deleted l = true) purged;
}.

Context (Hsigns : signs key) (Hclock : ∀ n, clock n ≤ MaxInt64) (Hrandom : ∀ n, is_ok (NewID (random n)) = true)
  (Haccepts : ∀ c s, is_ok (srv_Commit c s).1 = true).

(** Every commit the device builds is one the rules accept. *)
Lemma signHead_accepted rs purged g : ready g → proper g rs purged →
  tot (signHead keys clock random rs purged m) (λ h g',
    let c := {| c_Head := h; c_Records := rs; c_Purged := purged |} in
    ApplyCommit (pr_state (g_run g)) c m (pr_resolve (g_run g)) = Ok (committed (pr_state (g_run g)) c) ∧
    h_Vault h = pr_vault (g_run g) ∧ h_Seq h = wrap64 (cur_Seq (vs_cursor (pr_state (g_run g))) + 1) ∧ h_MembershipSeq h = ms_seq m ∧
    0 ≤ h_ClientTimeUnixMilli h ≤ MaxInt64 ∧ g_run g' = g_run g ∧ g_store g' = g_store g ∧ g_vault g' = g_vault g) g.
Proof.
  intros Hr Hp. destruct Hr, Hp. set (L := discard (install (vs_leaves (pr_state (g_run g))) rs) purged).
  assert (keyed L) as HkL by by apply keyed_discard, keyed_install. apply tot_bind, tot_get_run, tot_bind.
  eapply tot_lift; [rewrite head_leaves_eq; [reflexivity|done| |]|].
  { intros e He. rewrite Forall_forall in pp_records0. by eapply Envelope_Verify_Validate, ro_verify, pp_records0. }
  { intros id Hid. rewrite Forall_forall in pp_purges0. by apply pp_purges0. }
  fold L. apply tot_bind. eapply tot_lift; [rewrite MerkleRoot_total by (by apply keyed_NoDup); reflexivity|]. apply tot_bind.
  exists (random (g_ticks g)), (g_tick g). split; [done|]. apply tot_bind. specialize (Hrandom (g_ticks g)).
  destruct (NewID (random (g_ticks g))) as [[commit rest]|] eqn:En; [|done]. eapply tot_lift; [done|]. apply tot_bind, tot_bind.
  exists (clock (S (g_ticks g))), (g_tick (g_tick g)). split; [done|]. apply tot_ret, tot_bind. eapply tot_lift; [rewrite Head_SigningBytes_eq; reflexivity|].
  apply tot_ret. pose proof (Hclock (S (g_ticks g))) as Hc. split_and!; try done; [|cbn; lia|cbn; unfold MaxInt64 in *; lia].
  apply ApplyCommit_Ok. exists acct, key. split; [done|]. split; [|split; [|done]].
  - constructor; cbn [c_Head c_Records c_Purged h_Vault h_Seq h_PrevHash h_MembershipSeq h_MembershipHead h_Author h_CurrentEpoch h_set_Sig unsigned_head]; try done.
    + unfold Head_Verify. rewrite Head_SigningBytes_eq. cbn [mbind result_bind]. apply VerifySignature_Ok. destruct Hsigns. split_and!; [done|done|apply sg_size0|apply sg_verifies0].
    + by rewrite ry_state0.
  - cbn. unfold commit_leaves. cbn. fold L. by rewrite MerkleRoot_total by by apply keyed_NoDup.
Qed.

Lemma tot_members_at (Q : MembershipState → Engine → Prop) seq g :
  pr_members (g_run g) = Some m → seq = ms_seq m → ms_seq m = len (pr_ops (g_run g)) →
  (∀ g', g_run g' = g_run g → g_store g' = g_store g → g_vault g' = g_vault g → Q m g') → tot (members_at seq) Q g.
Proof.
  intros Hm -> Ho HQ. apply tot_bind, tot_get_run, tot_bind. rewrite Hm, Z.ltb_irrefl. apply tot_ret, tot_bind, tot_set_run, tot_bind, tot_fail_if.
  { apply Z.ltb_ge. lia. }
  assert (∀ ops fuel, advance_members (pr_check (g_run g)) ops (ms_seq m) fuel m = (Ok m, m)) as ->.
  { intros ops fuel. destruct fuel; cbn; by rewrite Z.leb_refl. }
  apply tot_bind, tot_set_run. eapply tot_lift; [done|]. apply HQ; [|done|done]. cbn. destruct (g_run g). cbn in *. by subst.
Qed.

Lemma AdvanceVault_ok h rs purged s :
  (∀ cur, sd_heads s !! h_Vault h = Some cur → h_Seq cur < h_Seq h) → h_Seq h ≤ MaxInt64 → h_ClientTimeUnixMilli h ≤ MaxInt64 →
  Forall (λ e, e_Vault e = h_Vault h) rs →
  ∃ s', AdvanceVault h rs purged s = Ok s' ∧ sd_heads s' = <[h_Vault h := h]> (sd_heads s) ∧ sd_outbox s' = sd_outbox s ∧
    sd_quarantine s' = sd_quarantine s.
Proof.
  intros Hcur Hseq Ht Hall. unfold AdvanceVault.
  assert (match sd_heads s !! h_Vault h with Some cur => h_Seq h <=? h_Seq cur | None => false end = false) as ->.
  { destruct (sd_heads s !! h_Vault h) as [cur|]; [|done]. apply Z.leb_gt. by apply Hcur. }
  assert (∀ R, ∃ R', foldM (putRecord h) R rs = Ok R') as Hput.
  { induction Hall as [|e rs He _ IH]; intros R; [by exists R|]. cbn [foldM]. unfold putRecord at 1. rewrite bool_decide_eq_true_2 by done. cbn.
    rewrite (proj2 (Z.ltb_ge _ _)) by done. apply IH. }
  destruct (Hput (sd_records s)) as [R ->]. cbn [mbind result_bind]. rewrite (proj2 (Z.ltb_ge _ _)) by done. eexists. done.
Qed.

(** Sending a commit the rules accept, to a server that takes it. *)
Lemma send_lands c g : ready g → proper g (c_Records c) (c_Purged c) → cur_Seq (vs_cursor (pr_state (g_run g))) < MaxInt64 →
  ApplyCommit (pr_state (g_run g)) c m (pr_resolve (g_run g)) = Ok (committed (pr_state (g_run g)) c) →
  h_Vault (c_Head c) = pr_vault (g_run g) → h_Seq (c_Head c) = wrap64 (cur_Seq (vs_cursor (pr_state (g_run g))) + 1) →
  h_MembershipSeq (c_Head c) = ms_seq m → h_ClientTimeUnixMilli (c_Head c) ≤ MaxInt64 →
  tot (send c) (λ _ g', ready g' ∧ landed g (c_Records c) (c_Purged c) g') g.
Proof.
  intros Hr Hp Hroom Ha Hv Hs Hm Ht. destruct Hr, Hp. rewrite wrap64_succ in Hs by (unfold u64, MaxUint64, MaxInt64 in *; lia).
  apply tot_bind, tot_get_run, tot_bind. eapply tot_write.
  { unfold PutOutbox. rewrite Hv, ry_outbox0. cbn. reflexivity. }
  apply tot_bind, tot_try. specialize (Haccepts c (g_server g)). destruct (srv_Commit c (g_server g)).1 as [n|] eqn:En; [|done].
  eapply tot_ask; [exact En|]. cbv iota beta. apply tot_bind. apply tot_members_at; [done|done|done|]. intros g1 Hrun Hstore Hvault. apply tot_bind, tot_get_run.
  rewrite Hrun. cbn [g_set_server g_set_store g_run]. apply tot_bind. eapply tot_verified; [exact Ha|]. apply tot_bind.
  destruct (AdvanceVault_ok (c_Head c) (c_Records c) (c_Purged c) (g_store g1)) as (s' & Es & Eh & Eo & Eq).
  { rewrite Hstore, Hv. cbn. intros cur Hcur. rewrite (ry_head0 cur Hcur), Hs. lia. }
  { rewrite Hs. lia. }
  { done. }
  { rewrite Hv. eapply Forall_impl; [exact pp_records0|]. by intros e []. }
  eapply tot_write; [exact Es|]. apply tot_bind, tot_set_run. eapply tot_write; [reflexivity|]. cbn [g_set_run g_set_store g_run].
  rewrite Hrun. cbn [g_set_server g_set_store g_run]. destruct (advance_run_eq (committed (pr_state (g_run g)) c) c (g_run g)) as (base & lnd & bodies & Erun & Eb & Ebo).
  rewrite Erun.
  assert (sd_outbox s' !! pr_vault (g_run g) = Some c) as Hout by (rewrite Eo, Hstore; cbn; by rewrite lookup_insert_eq).
  split.
  - constructor; cbn; try done.
    + by apply keyed_discard, keyed_install.
    + lia.
    + unfold ClearOutbox. rewrite Hout, bool_decide_eq_true_2 by done. cbn. by rewrite lookup_delete_eq.
    + intros h. unfold ClearOutbox. rewrite Hout, bool_decide_eq_true_2 by done. cbn. rewrite Eh, Hv, lookup_insert_eq. by intros [= <-].
    + rewrite Hs. lia.
  - constructor; cbn; try done.
    + intros i. rewrite Eb, foldl_drop, (foldl_put id) by done. unfold after. case_decide; [done|]. by rewrite decide_False by apply not_elem_of_nil.
    + intros i Hi1 Hi2. rewrite Ebo, foldl_drop, decide_False by done. clear -Hi2. revert Hi2. generalize (pr_bodies (g_run g)).
      induction (c_Records c) as [|e rs IH]; intros bo Hi; [done|]. apply not_elem_of_cons in Hi as [Hne Hi]. cbn. rewrite IH by done.
      by rewrite lookup_delete_ne.
    + intros i Hi. rewrite Ebo, foldl_drop. case_decide; [done|]. destruct Hi as [?|Hi]; [done|]. clear -Hi. revert Hi. generalize (pr_bodies (g_run g)).
      assert (∀ rs (bo : gmap ID Body), bo !! i = None → foldl (λ m r, delete (e_Record r) m) bo rs !! i = None) as Hkeep.
      { induction rs as [|e rs IH]; intros bo Hbo; [done|]. cbn. apply IH. rewrite lookup_delete. by case_decide. }
      induction (c_Records c) as [|e rs IH]; intros bo Hi; [by apply not_elem_of_nil in Hi|]. cbn. apply elem_of_cons in Hi as [->|Hi]; [|by apply IH].
      apply Hkeep, lookup_delete_eq.
    + rewrite Hs. lia.
    + unfold ClearOutbox. rewrite Hout, bool_decide_eq_true_2 by done. cbn. by rewrite Eq, Hstore.
Qed.

Lemma flush_lands b g : ready g → proper g (b_records b) (b_purged b) → cur_Seq (vs_cursor (pr_state (g_run g))) < MaxInt64 →
  tot (flush keys clock random m b) (λ _ g', ready g' ∧ landed g (b_records b) (b_purged b) g' ∧ (batch_size b = 0 → g' = g)) g.
Proof.
  intros Hr Hp Hroom. unfold flush. destruct (batch_size b =? 0) eqn:E0.
  - apply Z.eqb_eq in E0. unfold batch_size in E0. destruct (b_records b) as [|] eqn:Er; [|cbn in E0; lia]. destruct (b_purged b) as [|] eqn:Eg; [|cbn in E0; lia].
    apply tot_ret. split; [done|]. split; [|done]. constructor; try done.
    + intros i [?%not_elem_of_nil|?%not_elem_of_nil]; done.
    + lia.
  - apply tot_bind. eapply tot_mono; [by apply signHead_accepted|]. intros h g1 (Ha & Hv & Hs & Hm & [_ Ht] & Er & Es & Ed).
    eapply tot_mono; [apply (send_lands {| c_Head := h; c_Records := b_records b; c_Purged := b_purged b |} g1)|].
    + destruct Hr. constructor; by rewrite ?Er, ?Es.
    + destruct Hp. constructor; cbn; by rewrite ?Er.
    + by rewrite Er.
    + by rewrite Er.
    + by rewrite Er.
    + by rewrite Er.
    + done.
    + done.
    + intros _ g2 [Hr2 [L1 L2 L3 L4 L5 L6 L7 L8 L9 L10 L11]]. split; [done|]. split; [|intros Eb; apply Z.eqb_neq in E0; done].
      rewrite Er in *. constructor; cbn in *; try done; congruence.
Qed.

(** ** Landing everything *)

(** What has landed since [g0] of the changes [done] and the purges [gone]. *)
Record since (g0 : Engine) (done : list change) (gone : list ID) (g : Engine) : Prop := {
  si_done : ∀ ch, ch ∈ done → ∃ e, pr_base (g_run g) !! ch_id ch = Some e ∧ vs_leaves (pr_state (g_run g)) !! ch_id ch = Some (leaf_of e) ∧
    pr_bodies (g_run g) !! ch_id ch = None ∧ written vk (ms_epoch m) (vs_leaves (pr_state (g_run g0))) ch e;
  si_gone : ∀ i, i ∈ gone → pr_base (g_run g) !! i = None ∧ vs_leaves (pr_state (g_run g)) !! i = None;
  si_other : ∀ i, i ∉ ch_id <$> done → i ∉ gone → pr_base (g_run g) !! i = pr_base (g_run g0) !! i ∧
    vs_leaves (pr_state (g_run g)) !! i = vs_leaves (pr_state (g_run g0)) !! i ∧ pr_bodies (g_run g) !! i = pr_bodies (g_run g0) !! i;
  si_seq : cur_Seq (vs_cursor (pr_state (g_run g))) ≤ cur_Seq (vs_cursor (pr_state (g_run g0))) + len done + len gone;
  si_vault : pr_vault (g_run g) = pr_vault (g_run g0); si_ops : pr_ops (g_run g) = pr_ops (g_run g0);
  si_scope : pr_scope (g_run g) = pr_scope (g_run g0); si_naming : pr_namingKey (g_run g) = pr_namingKey (g_run g0);
  si_data : g_vault g = g_vault g0; si_held : sd_quarantine (g_store g) = sd_quarantine (g_store g0);
}.

(** The batch in hand: the changes [pend] sealed, and the purges [pendP]. *)
Record progress (g0 : Engine) (done pend rest : list change) (gone pendP restP : list ID) (b : commitBatch) (g : Engine) : Prop := {
  pg_ready : ready g; pg_since : since g0 done gone g;
  pg_once : NoDup (ch_id <$> done ++ pend ++ rest); pg_gone_once : NoDup (gone ++ pendP ++ restP);
  pg_apart : ∀ i, i ∈ gone ++ pendP ++ restP → i ∉ ch_id <$> done ++ pend ++ rest;
  pg_batch : Forall2 (λ ch e, record_ok (pr_vault (g_run g)) (kr_device keys) key (ms_epoch m) (vs_leaves (pr_state (g_run g))) e ∧
    written vk (ms_epoch m) (vs_leaves (pr_state (g_run g0))) ch e) pend (b_records b);
  pg_purges : b_purged b = pendP;
  pg_tombs : ∀ i, i ∈ pendP ++ restP → ∃ l, vs_leaves (pr_state (g_run g0)) !! i = Some l ∧ l_Deleted l = true;
  pg_rest : ∀ ch, ch ∈ rest → sendable ch ∧ 0 ≤ leaf_version (vs_leaves (pr_state (g_run g0))) (ch_id ch) < MaxUint64;
  pg_role : gone ++ pendP ++ restP ≠ [] → CanManage (Role m acct) = true;
}.

Lemma batch_ids pend rs g0 (P : Envelope → Prop) : Forall2 (λ ch e, P e ∧ written vk (ms_epoch m) (vs_leaves (pr_state (g_run g0))) ch e) pend rs →
  e_Record <$> rs = ch_id <$> pend.
Proof. induction 1 as [|ch e pend rs (_ & He & _) _ IH]; [done|]. cbn. by rewrite He, IH. Qed.

Lemma progress_proper g0 done pend rest gone pendP restP b g : progress g0 done pend rest gone pendP restP b g →
  proper g (b_records b) (b_purged b).
Proof.
  intros []. pose proof (batch_ids _ _ _ _ pg_batch0) as Eids. rewrite !fmap_app in *. constructor.
  - rewrite Eids. by apply NoDup_app in pg_once0 as (_ & _ & (? & _ & _)%NoDup_app).
  - clear -pg_batch0. induction pg_batch0 as [|ch e pend rs [] _ IH]; constructor; done.
  - rewrite pg_purges0. intros Hne. apply pg_role0. intros [_ [? _]%app_eq_nil]%app_eq_nil. done.
  - rewrite pg_purges0. by apply NoDup_app in pg_gone_once0 as (_ & _ & (? & _ & _)%NoDup_app).
  - rewrite pg_purges0, Eids. apply Forall_forall. intros i Hi. assert (i ∉ ch_id <$> done) as Hn1.
    { intros Hin. apply (pg_apart0 i); [set_solver|]. set_solver. }
    split. { intros Hin. apply (pg_apart0 i); set_solver. }
    destruct (pg_tombs0 i) as (l & Hl & Hd); [set_solver|]. exists l. split; [|done].
    destruct (si_other _ _ _ _ pg_since0 i Hn1) as (_ & -> & _); [|done].
    apply NoDup_app in pg_gone_once0 as (_ & Hdisj & _). intros Hg. apply (Hdisj i Hg). set_solver.
Qed.

Lemma flush_progress g0 done pend rest gone pendP restP b g :
  progress g0 done pend rest gone pendP restP b g → cur_Seq (vs_cursor (pr_state (g_run g))) < MaxInt64 →
  tot (flush keys clock random m b) (λ _ g', ready g' ∧ landed g (b_records b) (b_purged b) g' ∧
    since g0 (done ++ pend) (gone ++ pendP) g') g.
Proof.
  intros Hp Hroom. eapply tot_mono; [apply flush_lands; [apply Hp|by eapply progress_proper|done]|]. intros _ g' (Hr & Hl & Hsame). split_and!; [done|done|].
  destruct (decide (pend = [] ∧ pendP = [])) as [[-> ->]|Hpend].
  { destruct Hp. apply Forall2_nil_inv_l in pg_batch0. rewrite !app_nil_r. rewrite Hsame; [done|]. unfold batch_size. by rewrite pg_batch0, pg_purges0. }
  pose proof (progress_proper _ _ _ _ _ _ _ _ _ Hp) as Hprop. destruct Hp, Hl, Hprop, pg_since0. pose proof (batch_ids _ _ _ _ pg_batch0) as Eids.
  rewrite pg_purges0 in *. rewrite !fmap_app in pg_once0. apply NoDup_app in pg_once0 as (Hnd1 & Hdisj & Hnd2).
  assert (∀ ch, ch ∈ done → ch_id ch ∉ pendP ∧ ch_id ch ∉ e_Record <$> b_records b) as Hold.
  { intros ch Hch. split; [intros Hin; apply (pg_apart0 (ch_id ch)); [set_solver|rewrite fmap_app; apply elem_of_app; left; by apply list_elem_of_fmap_2]|].
    rewrite Eids. intros Hin. apply (Hdisj (ch_id ch)); [by apply list_elem_of_fmap_2|set_solver]. }
  constructor; try congruence.
  - intros ch [Hch|Hch]%elem_of_app.
    + destruct (si_done0 ch Hch) as (e & Eb & El & Ebo & Hw). destruct (Hold ch Hch) as [Ho1 Ho2]. exists e.
      rewrite la_base0, after_other, la_leaves0, discard_lookup, decide_False, install_other, la_bodies0 by done. done.
    + apply list_elem_of_lookup_1 in Hch as [j Hj]. destruct (Forall2_lookup_l _ _ _ _ _ pg_batch0 Hj) as (e & He & _ & Hw).
      pose proof Hw as (Eid & _). apply list_elem_of_lookup_2 in Hj, He. exists e. rewrite <- Eid in *.
      assert (e_Record e ∉ pendP) as Hnp.
      { rewrite Eid. intros Hin. apply (pg_apart0 (ch_id ch)); [set_solver|]. rewrite !fmap_app. apply elem_of_app. right. apply elem_of_app. left. by apply list_elem_of_fmap_2. }
      rewrite la_base0, after_written, la_leaves0, discard_lookup, decide_False, install_written by done. split_and!; try done.
      apply la_fresh0. right. by apply list_elem_of_fmap_2.
  - intros i [Hi|Hi]%elem_of_app.
    + destruct (si_gone0 i Hi) as [Eb El]. assert (i ∉ e_Record <$> b_records b) as Hn.
      { rewrite Eids. intros Hin. apply (pg_apart0 i); [set_solver|]. rewrite !fmap_app. set_solver. }
      rewrite la_base0, la_leaves0, discard_lookup. case_decide as Hi'; [unfold after; by rewrite decide_True|].
      rewrite after_other, install_other by done. done.
    + rewrite la_base0, la_leaves0, discard_lookup. unfold after. by rewrite !decide_True.
  - intros i Hi1 Hi2. rewrite fmap_app, not_elem_of_app in Hi1. rewrite not_elem_of_app in Hi2. destruct Hi1 as [Hi1 Hi3], Hi2 as [Hi2 Hi4].
    rewrite <- Eids in Hi3. rewrite la_base0, after_other, la_leaves0, discard_lookup, decide_False, install_other, la_bodies0 by done. by apply si_other0.
  - assert (1 ≤ len pend + len pendP) by (destruct pend, pendP; cbn; try lia; by destruct Hpend). rewrite !length_app. lia.
Qed.

Lemma leaf_version_other g0 done gone g i : since g0 done gone g → i ∉ ch_id <$> done → i ∉ gone →
  leaf_version (vs_leaves (pr_state (g_run g))) i = leaf_version (vs_leaves (pr_state (g_run g0))) i.
Proof. intros Hs Hi1 Hi2. unfold leaf_version. by destruct (si_other _ _ _ _ Hs i Hi1 Hi2) as (_ & -> & _). Qed.

Lemma deletionsFirst_perm changes : deletionsFirst changes ≡ₚ changes.
Proof.
  unfold deletionsFirst. induction changes as [|c cs IH]; [done|]. rewrite !filter_cons. destruct (deletes c); cbn.
  - rewrite decide_True, decide_False by done. cbn. by rewrite IH.
  - rewrite decide_False, decide_True by done. rewrite <- Permutation_middle. by rewrite IH.
Qed.

Section total.
Context (g0 : Engine) (total : Z) (Htotal : cur_Seq (vs_cursor (pr_state (g_run g0))) + total < MaxInt64).

Lemma progress_room done pend rest gone pendP restP b g : progress g0 done pend rest gone pendP restP b g →
  len (done ++ pend ++ rest) + len (gone ++ pendP ++ restP) ≤ total → cur_Seq (vs_cursor (pr_state (g_run g))) < MaxInt64.
Proof. intros Hp. pose proof (si_seq _ _ _ _ (pg_since _ _ _ _ _ _ _ _ _ Hp)). rewrite !length_app. lia. Qed.

Lemma commit_changes_lands rest : ∀ done pend purged b g k Q,
  progress g0 done pend rest [] [] purged b g → len (done ++ pend ++ rest) + len purged ≤ total →
  (∀ done' pend' b' g', done' ++ pend' = done ++ pend ++ rest → progress g0 done' pend' [] [] [] purged b' g' → tot (k b' (len done')) Q g') →
  tot (commit_changes keys clock random m rest b (len done) k) Q g.
Proof.
  induction rest as [|ch rest IH]; intros done pend purged b g k Q Hp Hlen Hk.
  { cbn. eapply (Hk done pend); [by rewrite app_nil_r|done]. }
  cbn [commit_changes]. pose proof (progress_room _ _ _ _ _ _ _ _ Hp Hlen) as Hroom. pose proof Hp as [Hr Hsi Honce Hgone Hapart Hbatch Hpur Htomb Hrest Hrole].
  destruct (Hrest ch) as [Hsend Hver]; [by left|].
  rewrite !fmap_app in Honce. apply NoDup_app in Honce as (Hn1 & Hd1 & (Hn2 & Hd2 & Hn3)%NoDup_app). cbn in Hn3. apply NoDup_cons in Hn3 as [Hn3 Hn4].
  assert (ch_id ch ∉ ch_id <$> done) as Hnd by (intros Hin; apply (Hd1 _ Hin); set_solver).
  assert (ch_id ch ∉ ch_id <$> pend) as Hnp by (intros Hin; apply (Hd2 _ Hin); set_solver).
  destruct (sealChange_ok (g_run g) ch (ms_epoch m) vk key) as (e & Ee & Hep & Hok & Hw); [done|done|apply Hr|apply Hr|apply Hr| |].
  { rewrite (leaf_version_other g0 done []) by (done || apply not_elem_of_nil). done. }
  assert (written vk (ms_epoch m) (vs_leaves (pr_state (g_run g0))) ch e) as Hw0.
  { destruct Hw as (?&Hv&?&?). rewrite (leaf_version_other g0 done []) in Hv by (done || apply not_elem_of_nil). done. }
  apply tot_sent, tot_bind, tot_get_run. eapply tot_lift; [exact Ee|].
  destruct (batch_takes b e) eqn:Etake.
  - apply (IH done (pend ++ [ch]) purged); [|by rewrite <- !app_assoc|intros d' p' b' g' E; apply Hk; by rewrite E, <- !app_assoc].
    constructor; try done; rewrite <- ?app_assoc; try done.
    + exact (pg_once _ _ _ _ _ _ _ _ _ Hp).
    + apply Forall2_app; [done|]. by constructor.
    + intros c Hc. apply Hrest. by right.
  - apply tot_sent. eapply tot_mono; [by eapply flush_progress|]. intros _ g1 (Hr1 & Hl1 & Hs1).
    pose proof (batch_ids _ _ _ _ Hbatch) as Eids.
    assert (len done + len (b_records b) = len (done ++ pend)) as -> by (rewrite length_app, (Forall2_length _ _ _ Hbatch); lia).
    apply (IH (done ++ pend) [ch] purged);
      [|rewrite <- !app_assoc; exact Hlen|intros d' p' b' g' E; apply Hk; by rewrite E, <- !app_assoc].
    constructor; try done; rewrite <- ?app_assoc; try done.
    + exact (pg_once _ _ _ _ _ _ _ _ _ Hp).
    + constructor; [|constructor]. split; [|done]. constructor; try apply Hok; [rewrite (ro_vault _ _ _ _ _ _ Hok); symmetry; apply Hl1|].
      rewrite (ro_version _ _ _ _ _ _ Hok). f_equal. f_equal. destruct Hw as (-> & _). rewrite (leaf_version_other g0 (done ++ pend) [] g1) by
        (try done; try apply not_elem_of_nil; rewrite fmap_app, not_elem_of_app; done).
      by rewrite (leaf_version_other g0 done [] g) by (done || apply not_elem_of_nil).
    + intros c Hc. apply Hrest. by right.
Qed.

Lemma commit_purges_lands rest : ∀ done pend gone pendP b g Q,
  progress g0 done pend [] gone pendP rest b g → len (done ++ pend) + len (gone ++ pendP ++ rest) ≤ total →
  (∀ g', ready g' → since g0 (done ++ pend) (gone ++ pendP ++ rest) g' → Q (len (done ++ pend), None) g') →
  tot (commit_purges keys clock random m rest b (len done)) Q g.
Proof.
  induction rest as [|i rest IH]; intros done pend gone pendP b g Q Hp Hlen HQ; cbn [commit_purges];
    (assert (cur_Seq (vs_cursor (pr_state (g_run g))) < MaxInt64) as Hroom by (eapply progress_room; [exact Hp|]; by rewrite app_nil_r));
    pose proof Hp as [Hr Hsi Honce Hgone Hapart Hbatch Hpur Htomb Hrest Hrole].
  - apply tot_sent. eapply tot_mono; [by eapply flush_progress|]. intros _ g1 (Hr1 & Hl1 & Hs1). apply tot_ret.
    assert (len done + len (b_records b) = len (done ++ pend)) as -> by (rewrite length_app, (Forall2_length _ _ _ Hbatch); lia).
    rewrite app_nil_r in *. apply HQ; [done|].
    done.
  - destruct (maxCommitRecords <=? batch_size b).
    + apply tot_sent. eapply tot_mono; [by eapply flush_progress|]. intros _ g1 (Hr1 & Hl1 & Hs1).
      assert (len done + len (b_records b) = len (done ++ pend)) as -> by (rewrite length_app, (Forall2_length _ _ _ Hbatch); lia).
      apply (IH (done ++ pend) [] (gone ++ pendP) [i]); [|by rewrite app_nil_r, <- !app_assoc|rewrite app_nil_r, <- !app_assoc; exact HQ].
      rewrite app_nil_r in *. constructor; rewrite ?app_nil_r, <- ?app_assoc; try done.
      intros j Hj. apply Htomb. set_solver.
    + apply (IH done pend gone (pendP ++ [i])); [|by rewrite <- !app_assoc|rewrite <- !app_assoc; exact HQ].
      constructor; rewrite <- ?app_assoc; try done. cbn. by rewrite Hpur.
Qed.

(** Every change and every purge lands. *)
Lemma commitAll_lands changes purged Q :
  ready g0 → NoDup (ch_id <$> changes) → NoDup purged → (∀ i, i ∈ purged → i ∉ ch_id <$> changes) →
  (∀ i, i ∈ purged → ∃ l, vs_leaves (pr_state (g_run g0)) !! i = Some l ∧ l_Deleted l = true) →
  (∀ ch, ch ∈ changes → sendable ch ∧ 0 ≤ leaf_version (vs_leaves (pr_state (g_run g0))) (ch_id ch) < MaxUint64) →
  (purged ≠ [] → CanManage (Role m acct) = true) → len changes + len purged ≤ total →
  (∀ g', ready g' → since g0 (deletionsFirst changes) purged g' → Q (len changes, None) g') →
  tot (commitAll keys clock random changes purged) Q g0.
Proof.
  intros Hr Hnc Hnp Hap Htomb Hch Hrole Hlen HQ. apply tot_bind, tot_get_run, tot_sent. pose proof (deletionsFirst_perm changes) as Hperm.
  pose proof (Permutation_length Hperm) as Hlp. assert (ch_id <$> deletionsFirst changes ≡ₚ ch_id <$> changes) as Hids by by rewrite Hperm.
  apply tot_members_at; [apply Hr|symmetry; apply Hr|apply Hr|]. intros g1 Er Es Ed.
  assert (since g0 [] [] g1) as Hs1.
  { constructor; rewrite ?Er, ?Es, ?Ed; try done; [by intros ? ?%not_elem_of_nil..|cbn; lia]. }
  assert (progress g0 [] [] (deletionsFirst changes) [] [] purged commitBatch_empty g1) as Hp.
  { constructor; cbn [app]; try done; rewrite ?Hids; try done.
    - destruct Hr. constructor; by rewrite ?Er, ?Es.
    - intros i Hi. rewrite Hids. by apply Hap.
    - intros ch Hin. apply Hch. by rewrite <- Hperm. }
  change 0 with (len (@nil change)). eapply commit_changes_lands; [exact Hp|cbn [app]; lia|].
  intros done' pend' b' g' Hall Hp'. cbn [app] in Hall. eapply commit_purges_lands; [exact Hp'|rewrite Hall; cbn [app]; lia|].
  intros g2 Hr2 Hs2. rewrite Hall in Hs2 |- *. rewrite Hlp. by apply HQ.
Qed.
End total.
End writer.
End laws.
