(* ===== verification/Settle.v ===== *)
(** * Settle: a push leaves nothing to push

    What [localChanges] finds, as a function of the device's items and the bodies its verified records open to, and the
    composition of [push]: the changes are committed, and the next look finds none. *)

From S2P Require Import Prelude Bytes SyncBase Canon Padding Envelope Merkle Head DeviceLog Retention Membership VaultState Merge Version Rows VaultData SyncTrust ClientStore Client TrustLaws Push PushLaws.

(** ** Every local item has content *)

Section snapshot.
Context `{!RawJSON, !RecordJSON, !Crypto}.
Lemma snapshot_data nk d snap id x : snapshotAll nk d = Ok snap → snap !! id = Some x → is_Some (en_Data x).
Proof.
  intros Hs Hx. destruct (snapshotAll_origin _ _ _ _ _ Hs Hx) as (m & es & e & Hm & Hes & He & _ & ->). clear Hs Hx.
  assert (∀ T (J : GoJSON T) (keyOf : T → bytes) l, marshalAll keyOf l = Ok es → is_Some (en_Data e)) as Hall.
  { intros T J keyOf l Hl. destruct (marshalAll_origin _ _ _ _ Hl e He) as [?%not_elem_of_nil|(v & r & _ & _ & ->)]; by eauto. }
  apply mapperFor_cases in Hm as [(section & _ & ->)|Hin].
  - cbn in Hes. destruct (vd_Settings d) as [st|]; [|injection Hes as <-; by apply not_elem_of_nil in He].
    destruct (_ ≫= _); [|done]. injection Hes as <-. apply list_elem_of_singleton in He as ->. cbn. eauto.
  - unfold mappers in Hin. repeat (apply elem_of_cons in Hin as [Hin|Hin]; [injection Hin as Ht ->; clear Ht; exact (Hall _ _ _ _ Hes)|]).
    by apply not_elem_of_nil in Hin.
Qed.
End snapshot.

Section settle.
Context `{!RawJSON, !RecordJSON, !Crypto, !SyncServer, !ClientCrypto, !ClientSeal}.
Context (keys : KeyRing) (clock : nat → Z) (others : nat → VaultData → VaultData) (random : nat → bytes).
#[local] Existing Instances EM_ret EM_bind.

(** ** Bodies, and the cache of them *)

(** What the verified version of a record opens to. *)
Definition opened (p : pullRun) (id : ID) : option Body :=
  match pr_base p !! id with
  | Some env => if e_Deleted env then None else match open_record keys p env with Ok b => Some b | Err _ => None end
  | None => None
  end.
(** The cache of bodies holds what the records open to. *)
Definition coherent (p : pullRun) : Prop := ∀ id b, pr_bodies p !! id = Some b → opened p id = Some b.

Definition with_bodies (g g' : Engine) : Prop := ∃ bodies, coherent (pr_set_bodies bodies (g_run g)) ∧
  g_run g' = pr_set_bodies bodies (g_run g) ∧ g_store g' = g_store g ∧ g_vault g' = g_vault g.
Lemma with_bodies_refl g : coherent (g_run g) → with_bodies g g.
Proof. intros Hc. exists (pr_bodies (g_run g)). destruct g as [? ? ? [] ?]. done. Qed.
Lemma with_bodies_trans g1 g2 g3 : with_bodies g1 g2 → with_bodies g2 g3 → with_bodies g1 g3.
Proof.
  intros (b1 & Hc1 & Er1 & Es1 & Ev1) (b2 & Hc2 & Er2 & Es2 & Ev2). exists b2. rewrite Er1 in *.
  split_and!; [exact Hc2|exact Er2|congruence..].
Qed.
Lemma with_bodies_coherent g g' : with_bodies g g' → coherent (g_run g').
Proof. intros (b & Hc & -> & _). done. Qed.
Lemma with_bodies_opened g g' id : with_bodies g g' → opened (g_run g') id = opened (g_run g) id.
Proof. intros (b & _ & -> & _). done. Qed.

Lemma baseBody_opened id g : coherent (g_run g) → tot (baseBody keys id) (λ b g', b = opened (g_run g) id ∧ with_bodies g g') g.
Proof.
  intros Hc. pose proof (with_bodies_refl g Hc) as Hrefl. apply tot_bind, tot_get_run. destruct (pr_bodies (g_run g) !! id) as [b|] eqn:Eb.
  { apply tot_ret. split; [|done]. symmetry. by apply Hc. }
  unfold opened. destruct (pr_base (g_run g) !! id) as [env|] eqn:Eenv; [|by apply tot_ret].
  destruct (e_Deleted env) eqn:Ed; [by apply tot_ret|]. destruct (open_record keys (g_run g) env) as [b|] eqn:Eo; [|by apply tot_ret].
  apply tot_bind, tot_set_run, tot_ret. split; [done|]. eexists. split; [|split_and!; reflexivity].
  intros i b' Hb'. cbn in Hb'. destruct (decide (i = id)) as [->|Hne].
  - rewrite lookup_insert_eq in Hb'. injection Hb' as <-. change (opened (g_run g) id = Some b). unfold opened. by rewrite Eenv, Ed, Eo.
  - rewrite lookup_insert_ne in Hb' by done. by apply Hc.
Qed.

(** ** What a device has to commit *)

(** A local item that the verified version of its record does not hold. *)
Definition item_change (o : ID → option Body) (held : gset ID) (x : ID * Entry) : option change :=
  let same := match o x.1, en_Data x.2 with Some b, Some l => SameData (bd_Data b) l | _, _ => false end in
  if bool_decide (x.1 ∈ held) || same || match o x.1 with Some b => negb (writable b) | None => false end then None
  else Some {| ch_id := x.1; ch_entry := x.2; ch_schema := 0 |}.
(** A verified record whose item is gone. *)
Definition record_change (o : ID → option Body) (vault : ID) (local : gmap ID Entry) (held : gset ID) (x : ID * Envelope) : option change :=
  if bool_decide (is_Some (local !! x.1)) || bool_decide (x.1 ∈ held) || e_Deleted x.2 || (x.1 =?? VaultMetaID vault) then None else
  b ← o x.1;
  if negb (writable b) then None else
  match NaturalKey (bd_Type b) (bd_Data b) with
  | Ok key => Some {| ch_id := x.1; ch_entry := {| en_Type := bd_Type b; en_Key := key; en_Data := None |}; ch_schema := 0 |}
  | Err _ => None
  end.
Definition changes_of (p : pullRun) (local : gmap ID Entry) (held : gset ID) : list change :=
  merge_sort change_le (omap (item_change (opened p) held) (map_to_list local) ++
    omap (record_change (opened p) (pr_vault p) local held) (map_to_list (pr_base p))).

Lemma fold_omap {B} (f : list change → B → EM (list change)) (h : B → option change) p0 l out g :
  (∀ out x g, coherent (g_run g) → with_bodies p0 g → tot (f out x) (λ out' g', out' = out ++ option_list (h x) ∧ with_bodies g g') g) →
  coherent (g_run g) → with_bodies p0 g → tot (em_fold f out l) (λ out' g', out' = out ++ omap h l ∧ with_bodies g g') g.
Proof.
  intros Hf. revert out g. induction l as [|x l IH]; intros out g Hc Hp; cbn [em_fold].
  { apply tot_ret. rewrite app_nil_r. split; [done|by apply with_bodies_refl]. }
  apply tot_bind. eapply tot_mono; [by apply Hf|]. intros out1 g1 [-> Hw1].
  eapply tot_mono; [apply IH; [by eapply with_bodies_coherent|by eapply with_bodies_trans]|]. intros out2 g2 [-> Hw2].
  split; [|by eapply with_bodies_trans]. cbn. destruct (h x); cbn; by rewrite <- app_assoc.
Qed.

Lemma localChanges_spec nk local g : (∀ n d, others n d = d) → coherent (g_run g) → pr_namingKey (g_run g) = Some nk →
  SnapshotScope nk (g_vault g) (pr_scope (g_run g)) = Ok local →
  tot (localChanges keys others) (λ chs g', chs = changes_of (g_run g) local (heldIDs (g_run g) (g_store g)) ∧ with_bodies g g') g.
Proof.
  intros Ho Hc Hk Hs. apply tot_bind, tot_get_run. rewrite Hk. apply tot_bind.
  exists (g_vault g), (g_set_vault (g_vault g) (g_tick g)). split; [unfold GetData; by rewrite Ho|].
  apply tot_bind. eapply tot_lift; [by rewrite Hs|]. apply tot_bind, tot_get_store. set (g1 := g_set_vault (g_vault g) (g_tick g)).
  assert (with_bodies g g1) as Hw1 by (exists (pr_bodies (g_run g)); destruct g as [? ? ? [] ?]; done).
  apply tot_bind. eapply tot_mono; [apply (fold_omap _ (item_change (opened (g_run g)) (heldIDs (g_run g) (g_store g1))) g); [|done|done]|].
  { intros out [id e] g2 Hc2 Hw2. apply tot_bind. eapply tot_mono; [by apply baseBody_opened|]. intros b g3 [-> Hw3].
    rewrite (with_bodies_opened _ _ _ Hw2). unfold item_change. cbn. case_match; apply tot_ret; [by rewrite app_nil_r|done]. }
  intros out2 g2 [-> Hw2]. apply tot_bind.
  eapply tot_mono; [apply (fold_omap _ (record_change (opened (g_run g)) (pr_vault (g_run g)) local (heldIDs (g_run g) (g_store g1))) g);
    [|by eapply with_bodies_coherent|exact (with_bodies_trans _ _ _ Hw1 Hw2)]|].
  { intros out [id env] g3 Hc3 Hw3. unfold gone_change, record_change. cbn. case_match.
    { apply tot_ret. rewrite app_nil_r. split; [done|by apply with_bodies_refl]. }
    apply tot_bind. eapply tot_mono; [by apply baseBody_opened|]. intros b g4 [-> Hw4]. rewrite (with_bodies_opened _ _ _ Hw3).
    destruct (opened (g_run g) id) as [b|]; cbn; [|apply tot_ret; by rewrite app_nil_r].
    destruct (writable b); cbn; [|apply tot_ret; by rewrite app_nil_r].
    destruct (NaturalKey _ _); apply tot_ret; [done|by rewrite app_nil_r]. }
  intros out3 g3 [-> Hw3]. apply tot_ret. split; [done|]. exact (with_bodies_trans _ _ _ Hw1 (with_bodies_trans _ _ _ Hw2 Hw3)).
Qed.

Lemma elem_changes p local held c : c ∈ changes_of p local held ↔
  (∃ id e, local !! id = Some e ∧ item_change (opened p) held (id, e) = Some c) ∨
  (∃ id env, pr_base p !! id = Some env ∧ record_change (opened p) (pr_vault p) local held (id, env) = Some c).
Proof.
  unfold changes_of. rewrite merge_sort_Permutation, elem_of_app, !list_elem_of_omap. split.
  - intros [([id e] & Hx%elem_of_map_to_list & Hc)|([id e] & Hx%elem_of_map_to_list & Hc)]; eauto.
  - intros [(id & e & Hx%elem_of_map_to_list & Hc)|(id & e & Hx%elem_of_map_to_list & Hc)]; eauto.
Qed.
Lemma item_change_Some o held x c : item_change o held x = Some c → c = {| ch_id := x.1; ch_entry := x.2; ch_schema := 0 |} ∧
  x.1 ∉ held ∧ ∀ b, o x.1 = Some b → writable b = true ∧ ∀ l, en_Data x.2 = Some l → SameData (bd_Data b) l = false.
Proof.
  unfold item_change. destruct (_ || _ || _) eqn:E; [done|]. intros [= <-]. apply orb_false_iff in E as [[E1 E2]%orb_false_iff E3].
  split; [done|]. split; [by apply bool_decide_eq_false in E1|]. intros b Hb. rewrite Hb in E2, E3. split; [by apply negb_false_iff|].
  intros l Hl. by rewrite Hl in E2.
Qed.
Lemma record_change_Some o vault local held x c : record_change o vault local held x = Some c → local !! x.1 = None ∧ ch_id c = x.1 ∧
  e_Deleted x.2 = false ∧ en_Data (ch_entry c) = None ∧ is_Some (o x.1).
Proof.
  unfold record_change. destruct (_ || _ || _ || _) eqn:E; [done|]. apply orb_false_iff in E as [[[E1 E2]%orb_false_iff E3]%orb_false_iff E4].
  destruct (o x.1) as [b|]; [|done]. cbn. destruct (writable b); [|done]. cbn. destruct (NaturalKey _ _); [|done]. intros [= <-]. cbn.
  split_and!; try done. apply bool_decide_eq_false in E1. by apply eq_None_not_Some.
Qed.

Lemma omap_once {B} (h : ID * B → option change) (m : gmap ID B) : (∀ x c, h x = Some c → ch_id c = x.1) →
  NoDup (ch_id <$> omap h (map_to_list m)).
Proof.
  intros Hh. pose proof (NoDup_fst_map_to_list m) as Hnd. induction (map_to_list m) as [|x l IH]; [constructor|]. cbn in *.
  apply NoDup_cons in Hnd as [Hn Hnd]. destruct (h x) as [c|] eqn:Ec; [|by apply IH]. cbn. constructor; [|by apply IH].
  rewrite (Hh _ _ Ec). intros (c' & Hid & (y & Hy & Hc')%list_elem_of_omap)%list_elem_of_fmap. apply Hn. rewrite Hid, (Hh _ _ Hc').
  by apply list_elem_of_fmap_2.
Qed.
Lemma changes_once p local held : NoDup (ch_id <$> changes_of p local held).
Proof.
  unfold changes_of. rewrite merge_sort_Permutation, fmap_app. apply NoDup_app. split_and!.
  - apply omap_once. intros x c Hc. by apply item_change_Some in Hc as (-> & _).
  - intros i (c & -> & ([id e] & Hx%elem_of_map_to_list & (-> & _)%item_change_Some)%list_elem_of_omap)%list_elem_of_fmap
      (c' & Hid & ([id' env] & _ & (Hl & Hi & _)%record_change_Some)%list_elem_of_omap)%list_elem_of_fmap. cbn in *. congruence.
  - apply omap_once. intros x c Hc. by apply record_change_Some in Hc as (_ & -> & _).
Qed.

(** ** After the changes have landed *)

Lemma settled p p' local held : (∀ id e, local !! id = Some e → is_Some (en_Data e)) → pr_vault p' = pr_vault p →
  (∀ c, c ∈ changes_of p local held → ∃ env, pr_base p' !! ch_id c = Some env ∧ e_Deleted env = deletes c ∧
    ∀ data, en_Data (ch_entry c) = Some data → ∃ b, opened p' (ch_id c) = Some b ∧ SameData (bd_Data b) data = true) →
  (∀ id, id ∉ ch_id <$> changes_of p local held → pr_base p' !! id = pr_base p !! id ∧ opened p' id = opened p id) →
  changes_of p' local held = [].
Proof.
  intros Hdata Hv Hdone Hother. destruct (changes_of p' local held) as [|c cs] eqn:E; [done|].
  assert (c ∈ changes_of p' local held) as Hin by (rewrite E; by left). clear E. exfalso.
  assert (∀ id, (∀ c, c ∈ changes_of p local held → ch_id c ≠ id) → pr_base p' !! id = pr_base p !! id ∧ opened p' id = opened p id) as Ho.
  { intros id Hn. apply Hother. intros (c0 & -> & Hc0)%list_elem_of_fmap. by apply (Hn c0). }
  apply elem_changes in Hin as [(id & e & Hl & Hc)|(id & env & Hb & Hc)].
  - destruct (Hdata _ _ Hl) as [data Hd]. destruct (item_change (opened p) held (id, e)) as [c0|] eqn:E0.
    + assert (c0 ∈ changes_of p local held) as Hin by (apply elem_changes; left; eauto). apply item_change_Some in E0 as (-> & _).
      destruct (Hdone _ Hin) as (env & _ & _ & Hsame). destruct (Hsame data Hd) as (b & Eb & Es). cbn in Eb.
      apply item_change_Some in Hc as (_ & _ & Hc). destruct (Hc b Eb) as [_ Hc']. rewrite (Hc' data Hd) in Es. done.
    + destruct (Ho id) as [_ Eo].
      { intros c1 Hc1 <-. apply elem_changes in Hc1 as [(id & e1 & Hl1 & Hc1)|(id & env & _ & (Hl1 & Hi & _)%record_change_Some)].
        - assert (c1 = {| ch_id := id; ch_entry := e1; ch_schema := 0 |}) as -> by by apply item_change_Some in Hc1 as (-> & _).
          cbn in *. assert (e1 = e) as -> by congruence. congruence.
        - cbn in *. congruence. }
      unfold item_change in *. cbn in *. rewrite Eo in Hc. by rewrite E0 in Hc.
  - pose proof Hc as (Hl & Hid & Hdel & Hnone & Hsome)%record_change_Some. cbn in *.
    destruct (decide (id ∈ ch_id <$> changes_of p local held)) as [(c0 & -> & Hc0)%list_elem_of_fmap|Hn].
    + destruct (Hdone _ Hc0) as (env' & Eb & Edel & _). assert (env' = env) as -> by congruence. apply elem_changes in Hc0 as
        [(id & e1 & Hl1 & (-> & _)%item_change_Some)|(id & env0 & _ & (_ & Hi & _ & Hd & _)%record_change_Some)]; [cbn in *; congruence|].
      unfold deletes in Edel. rewrite Hd, bool_decide_eq_true_2 in Edel by done. congruence.
    + destruct (Hother id Hn) as [Eb Eo]. apply Hn, list_elem_of_fmap. exists c. split; [done|]. apply elem_changes. right. exists id, env.
      split; [congruence|]. rewrite <- Hc. unfold record_change. cbn. by rewrite Eo, Hv.
Qed.

Section push.
Context (m : MembershipState) (key vk : bytes).
Implicit Types (g : Engine).

Lemma ready_bodies g g' : ready keys m (kr_account keys) key vk g → with_bodies g g' → ready keys m (kr_account keys) key vk g'.
Proof. intros [] (b & _ & Er & Es & _). constructor; rewrite ?Er, ?Es; done. Qed.

(** What the verified records of a vault open to once the changes have landed. *)
Lemma since_opened g0 done g : ready keys m (kr_account keys) key vk g0 → since m vk g0 done [] g →
  (∀ c, c ∈ done → ∃ env, pr_base (g_run g) !! ch_id c = Some env ∧ e_Deleted env = deletes c ∧
    ∀ data, en_Data (ch_entry c) = Some data → ∃ b, opened (g_run g) (ch_id c) = Some b ∧ SameData (bd_Data b) data = true) ∧
  (∀ id, id ∉ ch_id <$> done → pr_base (g_run g) !! id = pr_base (g_run g0) !! id ∧ opened (g_run g) id = opened (g_run g0) id).
Proof.
  intros [] []. split.
  - intros c Hc. destruct (si_done c Hc) as (e & Eb & _ & _ & Hid & _ & Hdel & Hep & Hw). exists e. split_and!; [done|done|].
    intros data Hd. rewrite Hd in Hw. destruct Hw as (pt & b & Hopen & Hdec & Hsame). exists b. split; [|done]. unfold opened. rewrite Eb, Hdel.
    unfold deletes. rewrite Hd. cbn. unfold open_record. rewrite Hep, si_vault, si_ops, ry_key. cbn. by rewrite Hopen, Hdec.
  - intros id Hid. destruct (si_other id Hid (not_elem_of_nil _)) as (Eb & _ & _). split; [done|]. unfold opened. rewrite Eb.
    unfold open_record. by rewrite si_vault, si_ops.
Qed.
Lemma since_coherent g0 done g : ready keys m (kr_account keys) key vk g0 → since m vk g0 done [] g → coherent (g_run g0) → coherent (g_run g).
Proof.
  intros Hr Hs Hc id b Hb. destruct (decide (id ∈ ch_id <$> done)) as [(c & -> & Hin)%list_elem_of_fmap|Hn].
  - destruct (si_done _ _ _ _ _ _ Hs c Hin) as (e & _ & _ & Hnone & _). congruence.
  - destruct (si_other _ _ _ _ _ _ Hs id Hn (not_elem_of_nil _)) as (_ & _ & Ebo). destruct (since_opened _ _ _ Hr Hs) as [_ Ho].
    destruct (Ho id Hn) as [_ ->]. apply Hc. congruence.
Qed.

(** A look that ends has read the device's items. *)
Lemma localChanges_snapshot changes g : (∀ n d, others n d = d) → (localChanges keys others g).1 = Ok changes →
  ∃ nk local, pr_namingKey (g_run g) = Some nk ∧ SnapshotScope nk (g_vault g) (pr_scope (g_run g)) = Ok local.
Proof.
  intros Ho Hl. unfold localChanges in Hl. destruct (pr_namingKey (g_run g)) as [nk|] eqn:En.
  - destruct (SnapshotScope nk (g_vault g) (pr_scope (g_run g))) as [local|] eqn:E; [eauto|]. exfalso. revert Hl.
    unfold mbind, EM_bind, ST_bind, get_run, GetData. rewrite En. rewrite Ho, E. done.
  - exfalso. revert Hl. unfold mbind, EM_bind, ST_bind, get_run. by rewrite En.
Qed.

Lemma push_lands nk local changes g :
  (∀ n d, others n d = d) → (∀ n, clock n ≤ MaxInt64) → (∀ n, is_ok (NewID (random n)) = true) →
  (∀ c s, is_ok (srv_Commit c s).1 = true) → signs key →
  ready keys m (kr_account keys) key vk g → coherent (g_run g) →
  pr_namingKey (g_run g) = Some nk → SnapshotScope nk (g_vault g) (pr_scope (g_run g)) = Ok local →
  changes_of (g_run g) local (heldIDs (g_run g) (g_store g)) = changes →
  (∀ ch, ch ∈ changes → sendable ch ∧ 0 ≤ leaf_version (vs_leaves (pr_state (g_run g))) (ch_id ch) < MaxUint64) →
  cur_Seq (vs_cursor (pr_state (g_run g))) + len changes < MaxInt64 →
  tot (push keys clock others random) (λ r g', r = (len changes, None) ∧ ready keys m (kr_account keys) key vk g' ∧
    ∃ g2, with_bodies g g2 ∧ since m vk g2 (deletionsFirst changes) [] g') g.
Proof.
  intros Ho Hclock Hrandom Hacc Hsigns Hr Hc Hnk Hsnap Hl Hch Hroom.
  apply tot_bind, tot_get_run, tot_sent, (tot_members_at m); [apply Hr|symmetry; apply Hr|apply Hr|]. intros g1 Er1 Es1 Ev1.
  rewrite (ry_role _ _ _ _ _ _ Hr). cbn [negb]. apply tot_sent.
  eapply tot_mono; [apply (localChanges_spec nk local); [done|by rewrite Er1|by rewrite Er1|by rewrite Er1, Ev1]|].
  intros chs g2 [-> Hw]. rewrite Er1, Es1. rewrite Hl.
  assert (with_bodies g g2) as Hw2.
  { destruct Hw as (bo & ? & ? & ? & ?). exists bo. rewrite Er1 in *. split_and!; try done; congruence. }
  pose proof (ready_bodies _ _ Hr Hw2) as Hr2. destruct (len changes =? 0) eqn:E0.
  - apply Z.eqb_eq in E0. destruct changes; [|cbn in E0; lia]. apply tot_ret. split_and!; [done|done|]. exists g2. split; [done|].
    constructor; try done; [by intros ? ?%not_elem_of_nil..|cbn; lia].
  - eapply (commitAll_lands keys clock random m (kr_account keys) key vk Hsigns Hclock Hrandom Hacc g2 (len changes));
      [|done|rewrite <- Hl; apply changes_once|constructor|by intros ? ?%not_elem_of_nil|by intros ? ?%not_elem_of_nil| |done|cbn; lia|by eauto 10].
    + destruct Hw2 as (bo & _ & -> & _). done.
    + intros ch Hin. destruct Hw2 as (bo & _ & -> & _). by apply Hch.
Qed.

End push.
End settle.
