(* ===== verification/SettleDemo.v ===== *)
(** * SettleDemo: a device pushes a new host and the deletion of another

    The device of [ClientDemo] after its first pull: its user removes the host that came and adds another. A cipher
    that can seal the new host, a server that takes commits, and the push, evaluated. *)

From S2P Require Import Prelude Bytes GoText SyncBase Sha2 Canon Padding Envelope Merkle Head DeviceLog Retention Membership MembershipLog VaultState AgentForward Merge Version PluginPaths KnownHosts Rows VaultData SyncTrust ClientStore Client TrustLaws Weakening TrustDemo ClientLaws ClientDemo Push PushLaws Settle.

(** ** Sealing, and a server that takes commits *)

Definition sd_line : bytes := demo_str "example.net ssh-rsa CCCC".
Definition sd_text : text := Tbody TypeKnownHost 1 (Thost {| kh_Line := sd_line |}).
Definition sd_texts : list (byte * text) := (Byte.x03, sd_text) :: pd_texts.
#[export] Instance sd_crypto : ClientCrypto := {|
  UnwrapVaultKey := λ _ _ _ _ _, Some [];
  cipher_Open := λ _ e, list_find (λ p, Some p.1 = last (e_Body e)) sd_texts ≫= λ p, Some p.2.2 |}.
#[export] Instance sd_seal : ClientSeal := {|
  keys_Sign := demo_sign (demo_key 9);
  cipher_Seal := λ _ _ _, Some (zeros 72, zeros 295 ++ [Byte.x03]);
  WrapVaultKey := λ _ _ _ _ _, None |}.
#[export] Instance sd_server : SyncServer := {|
  srv := ();
  srv_Changes := λ _ _ _ s, (Ok ([], false), s);
  srv_Snapshot := λ _ s, (Ok {| sn_Head := Some (c_Head pd_first); sn_Records := c_Records pd_first |}, s);
  srv_Heads := λ _ _ _ s, (Ok [], s);
  srv_DeviceLog := λ _ after s, (Ok (if after =? 0 then [pd_add] else []), s);
  srv_Membership := λ _ after s, (Ok (if after =? 0 then [pd_create] else []), s);
  srv_Commit := λ c s, (Ok (h_Seq (c_Head c)), s);
  srv_AppendMembership := λ _ _ s, (Err [NetError], s);
  srv_Versions := λ _ _ s, (Ok [], s) |}.
Definition sd_random (_ : nat) : bytes := zeros 15 ++ [Byte.x07].

Definition sd_clock (_ : nat) : Z := 2000.

(** ** After the first pull, and the user's edits *)

Definition sd_start : Engine := {|
  g_vault := NewVaultData; g_store := StateDB_empty; g_server := (); g_ticks := 0; g_run := g_run pd_g0 |}.
Definition sd_vault : VaultData := set_Settings None (set_KnownHosts [sd_line] NewVaultData).
Definition sd_g : Engine := g_set_vault sd_vault (Pull pd_keys sd_clock pd_others sd_start).2.
Definition sd_members : MembershipState := default (membership_genesis pd_vault) (pr_members (g_run sd_g)).
Definition sd_new : ID := of_ok ID_zero (RecordID demo_naming TypeKnownHost (demo_str "example.net ssh-rsa")).
Definition sd_added : change := {|
  ch_id := sd_new; ch_entry := {| en_Type := TypeKnownHost; en_Key := demo_str "example.net ssh-rsa"; en_Data := Some (Thost {| kh_Line := sd_line |}) |};
  ch_schema := 0 |}.
Definition sd_removed : change := {|
  ch_id := pd_host_id; ch_entry := {| en_Type := TypeKnownHost; en_Key := demo_str "example.org ssh-rsa"; en_Data := None |}; ch_schema := 0 |}.

Example sd_pulled : ((λ r, (rp_Commits r, rp_Applied r)) <$> (Pull pd_keys sd_clock pd_others sd_start).1) = Ok (1, 1).
Proof. vm_compute. reflexivity. Qed.
Example sd_pushed : (push pd_keys sd_clock pd_others sd_random sd_g).1 = Ok (2, None).
Proof. vm_compute. reflexivity. Qed.

Lemma sd_signs : signs (demo_key 9).
Proof. constructor; [by vm_compute|intros msg; cbn; unfold demo_sign; by rewrite length_vec_to_list|]. intros msg. cbn. by apply bool_decide_eq_true. Qed.

Lemma sd_ready : ready pd_keys sd_members pd_account (demo_key 9) [] sd_g.
Proof.
  constructor; try (vm_compute; reflexivity).
  - assert (bool_decide (map_Forall (λ id l, l_Record l = id) (vs_leaves (pr_state (g_run sd_g)))) = true) as Hb by (vm_compute; reflexivity).
    apply bool_decide_eq_true in Hb. exact Hb.
  - assert (bool_decide (kr_device pd_keys ∈ ms_revoked sd_members) = false) as Hb by (vm_compute; reflexivity).
    by apply bool_decide_eq_false in Hb.
  - apply Z.leb_le. vm_compute. reflexivity.
  - intros h Hh. assert (h_Seq <$> sd_heads (g_store sd_g) !! pr_vault (g_run sd_g) = Some 1) as Hs by (vm_compute; reflexivity).
    rewrite Hh in Hs. injection Hs as ->. vm_compute. reflexivity.
  - apply Z.leb_le. vm_compute. reflexivity.
Qed.

Lemma sd_coherent : coherent pd_keys (g_run sd_g).
Proof.
  assert (pr_bodies (g_run sd_g) = ∅) as Hb by (apply map_to_list_empty_iff; vm_compute; reflexivity).
  intros id b Hx. rewrite Hb in Hx. rewrite lookup_empty in Hx. discriminate Hx.
Qed.

Lemma sd_sendable ch : ch ∈ [sd_added; sd_removed] →
  sendable ch ∧ 0 ≤ leaf_version (vs_leaves (pr_state (g_run sd_g))) (ch_id ch) < MaxUint64.
Proof.
  intros [->|[->|[]%not_elem_of_nil]%elem_of_cons]%elem_of_cons; (split; [split; [by vm_compute|]|split; [apply Z.leb_le|apply Z.ltb_lt]; vm_compute; reflexivity]).
  - cbn. exists sd_text, (@Build_Body demo_raw TypeKnownHost 1 (Thost {| kh_Line := sd_line |})).
    split; [by vm_compute|]. split; [|split; by vm_compute]. intros vk e. eexists _, _. split; [reflexivity|]. split; [by vm_compute|].
    split; [split; apply Z.leb_le; vm_compute; reflexivity|]. intros sig. reflexivity.
  - exact I.
Qed.

